(* ===== verification/_CoqProject ===== *)
-Q . S2P
Prelude.v
StateErr.v
Bytes.v
Base64.v
Utf8.v
Text.v
Js.v
Ohttp.v
OhttpConfig.v
OhttpSeal.v
PqWire.v
Envelope.v
Sodium.v
X3dh.v
DoubleRatchet.v
DrSession.v
DrSystem.v
GroupRatchet.v
BurnerRatchet.v
SwMutex.v
Presence.v
AtRest.v
Membership.v
SessionKeyGuard.v
JsDate.v
LocalAtRest.v
Json.v
LocalOrder.v
GroupMailbox.v
MailboxClient.v
BackupFormat.v
BackupPayload.v
BackupRestore.v
Effects.v
DeviceLinking.v
LinkHistoryServer.v
LinkHistory.v
AuthSessions.v
AuthSessionRules.v
AuthRevocation.v
GroupAccess.v
KtLog.v
OhttpPin.v
SpqrRatchet.v
SpqrWire.v
SpqrState.v
SpqrClient.v
PeerTrust.v
GroupEpoch.v
GroupEpochRules.v
MessageStore.v
MessageSequence.v
MessageRetry.v
MessageDelivery.v
MessageViewOnce.v
