(* ===== verification/Prelude.v ===== *)
(** * NYX: a verification library of the end-to-end encrypted messenger

    ** The program

    NYX is a messenger in TypeScript. Three parts carry its logic.

    - packages/shared/src: the wire formats that client and server share
      (Oblivious HTTP, the post-quantum handshake, sealed boxes, group envelopes,
      key-transparency values, the signed prekey bundle).
    - web/src: the client. workers/crypto.worker.ts holds the cryptographic
      operations (X3DH, the double ratchet, sender keys, burner chats, envelopes,
      padding); utils/crypto.ts drives them for a conversation and keeps the
      state in the tables of lib/keychainDb.ts; lib/drProtocol.ts decides what a
      header carries. The SPQR ratchet (wire version 2) is a Rust crate in
      WebAssembly behind lib/spqrRatchet.ts; lib/spqrSession.ts steps it,
      lib/spqrState.ts stores its states, lib/spqrNegotiation.ts decides when it
      is used. lib/peerIdentityTrust.ts pins identity keys, lib/ohttpPin.ts the
      keys of the OHTTP gateway; lib/localAtRest.ts and lib/shadowVaultDb.ts keep
      the local messages sealed and ordered; lib/backupFormat.ts is the encrypted
      archive, lib/backupPayload.ts and lib/backupRestore.ts what it holds and how
      a database is saved and restored; lib/linkHistory*.ts moves the history to a
      newly linked device after the user compared a code (lib/deviceLinkSas.ts);
      lib/groupMailbox.ts polls the group mailbox; lib/groupEpochRotation.ts lets an
      admin rotate the token and keys of a group; lib/swMutexCore.ts is the lock
      between browser tabs.
    - server/src: a relay that should learn as little as possible.
      utils/atRestSecrets.ts seals what the database stores; on it are built the
      membership rows (utils/routingIdentity.ts), the group tokens
      (utils/groupTokens.ts), the guard of session keys
      (utils/sessionKeyRelayGuard.ts), the group mailbox (utils/groupMailbox.ts)
      and their endpoints (routes/groups.ts, routes/sessionKeys.ts);
      utils/keyTransparency.ts writes the key-transparency log over gRPC;
      ohttp/gateway.ts opens encapsulated requests; presenceSubscriptions.ts
      keeps opt-in presence. utils/deviceLinking.ts and routes/auth.ts link a new
      device through a QR code; utils/linkHistory.ts and routes/linkHistory.ts
      hold the pointer to its history archive. routes/auth.ts, with
      utils/sessionUtils.ts, sessionRevocation.ts, refreshReplay.ts, authGate.ts and
      jobs/cleanup.ts, issues, rotates, revokes and forgets the refresh tokens of a
      login; middleware/auth.ts is the gate of every request. utils/groupAccess.ts
      and adminCapability.ts decide who may change a group.
      network/realtimeHandlers.ts and routes/messages.ts store messages and forward
      them, with utils/messageSequence.ts, viewOnceRecipients.ts,
      conversationParticipants.ts and senderIdentity.ts; jobs/messageSweeper.ts
      deletes what has expired.

    A message goes: utils/crypto.ts takes the session from the key tables, the
    negotiation chooses the wire version, the worker seals it, a header says how
    to open it; the peer's utils/crypto.ts looks for a cached key, a skipped key,
    and then lets the worker (or the braid of SPQR, also of an older era) advance
    the session. For groups the sender-key ratchet replaces the session, and the
    server's mailbox carries the sealed sender keys to members who hold a token.
    A second device joins by claiming a token, being approved by an old device,
    and importing the archive the old device uploaded for it.

    ** Files

    Language and platform:
    - Prelude: the [result] type of code that throws, its monad, tactics, hint
      databases and list lemmas. StateErr: a monad of state and errors, where the
      state survives a throw. Effects: asynchronous handlers as trees of the
      commands they send, interleaved at the commands; rely and guarantee; Redis
      keys with expiry; protocols of phases that several requests follow together.
    - Bytes: Uint8Array and DataView. Base64, Utf8, Text, JsDate, Js, Json: btoa/atob
      and the URL-safe codec of spqrWire.ts, TextEncoder/TextDecoder, decimal
      texts, Date, values and string operations, JSON.parse and JSON.stringify.

    Shared formats:
    - Ohttp (Modules Varint, Bhttp), OhttpConfig (KeyConfig, Gateway) and
      OhttpSeal (Seal): ohttp.ts, and handleOhttpGateway of ohttp/gateway.ts.
    - PqWire (Suite, Handshake, PqSeal, KtValue): cryptoSuite.ts, pqHandshake.ts,
      pqSeal.ts, ktValue.ts.
    - Envelope (GroupEnvelope, PqBundle, Padding, HandshakeV1): groupEnvelope.ts,
      pqBundle.ts, and the padding and v1 handshake of crypto.worker.ts.

    Client:
    - Sodium: the class [Sodium] of the primitives, [SodiumLaws], kdfChain, the
      session-key envelopes and sealed boxes of crypto.worker.ts.
    - X3dh: the x3dh_v2 operations.
    - DoubleRatchet (DR): the worker's ratchet; its state is the record of the
      serialised state, one definition per operation.
    - DrSession (DrProtocol, KeyTables, Client): drProtocol.ts, the tables of
      keychainDb.ts as maps, the send and receive paths of utils/crypto.ts.
    - DrSystem: two such clients and a network, as a step relation.
    - GroupRatchet (Group, GroupSpec): sender keys and the abstract receiver they
      refine. BurnerRatchet (Burner): burner chats. SwMutex: the tab lock.
    - SpqrRatchet (SpqrAbi, SpqrSession): both sides of the WebAssembly boundary,
      the scratch buffer and entropy included, and the steps of a message.
      SpqrWire: negotiation and headers. SpqrState: the stored states with their
      debounced writes and archived eras. SpqrClient: the worker operations and
      the v2 paths of utils/crypto.ts over these.
    - LocalAtRest, LocalOrder: sealed columns, the order key and the paging of
      shadowVaultDb.ts. BackupFormat, BackupPayload (Payload) and BackupRestore
      (Restore): the archive, its payloads, and the database it is made from.
    - LinkHistory (Transfer): the transfer of a history on both devices, over the
      endpoints of LinkHistoryServer and a network that loses requests and
      answers.
    - PeerTrust: identity pins, and a step relation in which observations of
      several messages interleave. OhttpPin: the pin of gateway keys, with the
      worker's choice of a key. MailboxClient: the mailbox client over the
      endpoints of GroupMailbox. GroupEpoch: when and how an admin's client rotates a
      group's epoch, over the endpoints of GroupAccess and the same kind of network;
      GroupEpochRules: its theorems.

    Server:
    - Presence; AtRest (classes [ServerCrypto] and [ServerCryptoLaws]);
      Membership (GroupTokens, Routing; class [MembershipDb]); SessionKeyGuard
      (Guard; class [GuardDb]); GroupMailbox (Mailbox, MailboxOps; class
      [MailboxDb]); KtLog (protobuf and gRPC codecs, the deduplicated writer). A
      table is the list of its rows, an endpoint a function from tables and
      request to tables and reply.
    - DeviceLinking (Link): the linking of devices; Redis, the tables Device and
      User, the object store, notices and the clock are one [world], and a
      handler is a [prog] of commands on it. LinkHistoryServer (History): the
      endpoints of the history archive over the same world. AuthSessions (Sessions):
      the refresh tokens of logins and the gate of requests, as commands on Postgres
      and Redis that requests interleave at; AuthSessionRules and AuthRevocation:
      what they guarantee. GroupAccess: the gates of group operations and the
      endpoints a rotation uses.
    - MessageStore (Messages): the store-and-forward of messages, as commands on
      Postgres, two connections to Redis and the clock, with the catch-up loop of the
      client (store/message.ts); MessageSequence: its requests and their numbers;
      MessageRetry: repeated sends; MessageDelivery: lifetimes and catching up;
      MessageViewOnce: messages that open once.

    ** Interfaces

    Third-party code is a class of functions and a class of its documented laws:
    HPKE and AES-GCM ([Hpke], [HpkeLaws]), libsodium and ML-DSA ([Sodium],
    [SodiumLaws]), HMAC, SHA-256 and the server's AEAD ([ServerCrypto],
    [ServerCryptoLaws]), the AEAD of archives ([BackupCryptoBackend] and its
    laws), the tables of Dexie ([Dexie], [DexieLaws]), Argon2id and Unicode
    normalisation ([BackupKdf]), what an engine makes of dates ([JsEngine]),
    base64 variants and lengths ([Base64Variants], [Base64Length]), the spqr crate
    ([SpqrCrate], [SpqrCrateLaws]), the platform of the linking handlers
    ([LinkPlatform], [HistoryPlatform]), and the queries Prisma
    sends to PostgreSQL ([MembershipDb], [GuardDb], [MailboxDb] and their laws: a
    query answers the rows its filter selects). Randomness and the clock are
    arguments. Components meet at classes too: the sealer of linking records
    ([LinkingSealer], its laws proved of atRestSecrets.ts by [linkSealer_laws]) and
    the value codec of backups ([BackupValueCodec]). Each law class has a concrete instance (Modules Toy, ToyServer,
    ToyMembers, ToyGuard, ToyMailbox, ToySpqr, ToyStore, ToyDatabase, ToyLink,
    ToyTransfer, ToyAuth, ToyEpoch, ToyMessages, ToyDelivery, ToyOnce and those in OhttpSeal and BackupFormat), in which the witness lemmas evaluate the theorems on concrete
    inputs. The instances are not secure: the laws speak of correctness, not of
    secrecy.

    ** What is proved

    - Ratchets. [dr_delivery]: under any interleaving, reordering, duplication
      and loss, every message of a 1:1 session opens to what was sealed.
      [group_any_order_once] and [group_ratchet_refines]: sender keys open every
      message in any order, exactly once, as the abstract receiver does.
      [x3dh_v2_agreement], [x3dh_v2_regenerate_agreement]: both ends derive one
      key. [burner_first_flight]: the first messages of a burner chat arrive;
      [burner_truncates] and [burner_old_chain_ignores_skipped] state two faults
      of that ratchet. [ratchet_archive_fifo]: what the session archive keeps.
    - SPQR. [spqr_abi_exact]: the calls through the scratch buffer are the
      functions of the crate. [spqr_message_roundtrip], [spqr_late_message]: a v2
      message opens, also one of an era archived since. [v2_only_with_proof],
      [outbound_version_spec]: v2 is used only with proof of the peer.
      [spqr_save_load], [spqr_rotate_fifo]: the store keeps what was saved last.
    - Server authority. [relay_cannot_mint_membership], [relay_request_checked],
      [initial_keys_owned]: session-key rows never create membership.
      [membership_refines], [members_found_after_rotation], [rotation_effect]:
      the sealed rows implement a relation of members, also across key and token
      rotation. [at_rest_rotation], [candidates_identify]: the key ring.
      [presence_consistent], [subscribe_replaces]: the presence maps.
      [kt_publish_wire], [grpc_chunking], [kt_decode_terminates],
      [kt_dedupe_exact]: the log writer.
    - Mailbox. [mailbox_pull_complete], [mailbox_access_control],
      [mailbox_post_bounded]: it pages without loss and answers only token holders.
      [key_envelopes_delivered]: from the sender's call to the receiver's, a key
      envelope arrives once; [late_row_skipped]: a row that appears behind the
      cursor does not.
    - Oblivious HTTP. [ohttp_exchange_roundtrip], [gateway_forwarding_safe],
      [bhttp_request_roundtrip], [bhttp_response_roundtrip],
      [keyconfig_collection_roundtrip], [select_key_order_irrelevant],
      [allowed_target_shape], [sanitized_headers_spec]. [ohttp_pin_refines]: the
      stored pin implements an abstract pin over any number of visits, when key
      ids are distinct; [duplicate_id_bypasses_pin]: a repeated id defeats it.
    - Identity pins. [pins_are_earned], [send_gate]: what may become trusted, and
      how long sending stays blocked; [stale_observation_reverts]: an acceptance
      can be undone by an observation in flight.
    - Local data. [order_fields_normal], [order_page_exact]: the page is the
      newest messages before the cursor; [order_page_stuck]: when it is not.
      [local_columns_roundtrip], [json_roundtrip].
    - Backups. [backup_restore_exact]: a restored database holds exactly the rows
      of the backed-up one; [backup_reexport_identical]: backing it up again gives
      the same bytes. [backup_roundtrip], [backup_tamper_evident]: an archive
      opens to its frames, which cannot be moved, dropped or exchanged.
      [scramble_in_bounds]: the shuffle of frames is a permutation, on 32-bit
      arithmetic.
    - Linking. [link_token_single_use], [link_authority]: under any interleaving
      of requests a token links one device, and no device joins without a QR code
      shown and an approval given by the account. [link_flow]: the whole exchange;
      [approve_race], [late_approval_orphans]: two faults of the approval.
    - History. [history_transfer]: the rows of the old device are written on the
      new one, and nothing stays on the server. [history_retry]: any failed
      attempts in between lose nothing. [failed_upload_cleans],
      [archive_kinds_disjoint], [sas_gate]: failed uploads, wrong archives and
      unconfirmed keys leave no trace.
    - Formats. [handshake_v2_roundtrip], [transcript_injective],
      [padding_roundtrip], [group_envelope_roundtrip], [bundle_message_injective],
      [pq_seal_v2_roundtrip], [kt_value_roundtrip], [spqr_header_roundtrip].
    - Logins. [session_refreshed_once]: a login can be refreshed once; the second
      refresh is refused, because the link between a token and its successor is
      stored on the successor and read on the predecessor. [replay_never_detected]: for the
      same reason no replay is ever reported. [session_revocation]: a session its
      owner revoked never lives again, however requests interleave;
      [refused_token_revives]: a token refused as replaced does, after a clean-up.
      [access_token_outlives_logout] and
      [refresh_cookie_ends_all_sessions]: two gaps of the gate.
    - Messages. [sequence_numbers]: under any interleaving of requests ids and numbers
      stay unique and counters only grow. [send_once]: repetitions of one send store
      one message while nothing fails; [lost_ack_duplicates]: when publishing fails
      after the insertion they store two. [catch_up_complete]: the client's loop of
      pages brings exactly the messages that are due. [message_lifetime]: how long a
      message is served, and which are never. [view_once_last_open]: a message that
      opens once goes with its last recipient; [sender_open_counts]: or earlier.
    - Groups. [group_gates_fail_closed]: what each group operation demands.
      [epoch_rotation_delivers]: a rotation that meets no failure brings the new
      token to the metadata, shuts out every other token and is not repeated for a
      day. [rotated_metadata_fits_roster]: the metadata it writes.
      [epoch_token_lost], [epoch_retry_waits]: what becomes of the token when the
      metadata cannot be written. [epoch_state_survives_reload]: the remembered
      state and reloads of the tab.
    - Tabs. [mutex_exclusion], [mutex_takeover].

    ** Bounds and fuel

    Loops over skipped messages are structural in the number of steps, which the
    code bounds by its own constants (MAX_SKIP). The decoders of field lines and
    of key configurations count down from the code's own limits (128 fields, 4
    configurations), where the code throws as well, so neither needs fuel of its
    own and the round trips prove that a result is produced. The readers of
    varints, protobuf fields, gRPC frames and JSON have the length of their input
    plus one as fuel; every turn consumes a byte, and [kt_decode_terminates] and
    the round trips show that it is enough. A braid step of SPQR runs at most
    the 16 messages the code allows, its scratch buffer has the 256 KiB of the
    guest, and the scan for a page of local messages reads windows of 32 buckets
    as the code does. A client that pulls a mailbox needs one pull per row and one
    more, which is the fuel [mailbox_pull_complete] gives it; a poll is limited to
    the code's 5 pages. Batches of a post have the number of items as fuel.
    The loop that writes messages in batches has the number of pending messages
    as fuel, each turn takes at least one. Rows of a backup have at most 2,500,000
    code units and values at most the code's 32 levels; an archive has at most
    65535 rows where its creation is shown to succeed, since every frame holds one.
    Integers are [Z]; where the code stores into a fixed width, the model reduces
    modulo that width. JSON numbers are integers: fractions and exponents do not
    occur in what the program writes and are not read. The ISO text of a date is
    read back for years 1970 to 9999, which the mailbox theorem asks of its rows.
    [dr_delivery] assumes that the table of skipped keys stays below its cap,
    where the code starts to evict keys.

    Catching up takes the code's four pages of 250 rows, which
    [catch_up_complete] counts; a run of the sweeper the code's 20 batches of 500;
    a repeated send waits the code's ten times 150 ms.

    ** Not modelled

    The user interface and its stores, Express, WebSocket and HTTP glue, rate
    limits, timers, loading of keys from the environment, zeroing of buffers (it happens
    after the results were copied out), and timing. The spqr crate itself is a
    library; services in other languages are left out. Of logins: the password and
    passkey checks that precede the issue of tokens, the list of sessions, push
    subscriptions. Of messages: receipts and their statuses, the other realtime
    events, deletion over REST with its object storage, the job lock of the sweeper and
    the jitter of releases. Of groups: [ensureGroupSession], the sealing of metadata and the
    distribution of sender keys in utils/crypto.ts are outcomes a rotation is given;
    the sender-key ratchet they use is in GroupRatchet. Each component of the
    manifest that is modelled in part says what it leaves out.

    Whole parts that are not modelled, for one who extends this: gossip and
    monitoring of the key-transparency log on the client (ktGossip.ts,
    ktMonitoring.ts), the transport fallback (transportClient.ts), the receive
    pipeline (messagePipeline.ts), and the vault, recovery and file operations of the
    worker. *)
From stdpp Require Export base tactics option list gmap strings relations sorting.
From Stdlib Require Export ZArith Lia Strings.Byte.

#[global] Open Scope Z_scope.

(** ** Errors: a thrown [Error] is a value *)

(** A computation that may throw: [Err msg] carries the static part of the
    message of the thrown [Error] (interpolated lengths are left out). *)
Inductive result (A : Type) : Type :=
| Ok (a : A)
| Err (msg : string).
Arguments Ok {A} a.
Arguments Err {A} msg.

#[global] Instance result_ret : MRet result := @Ok.
#[global] Instance result_bind : MBind result := fun A B f m =>
  match m with Ok a => f a | Err e => Err e end.

Definition throw {A} (msg : string) : result A := Err msg.

(** [if (c) throw new Error(msg)] followed by the rest of the body. *)
Definition guard_not (c : bool) (msg : string) : result unit :=
  if c then Err msg else Ok tt.

Definition is_ok {A} (r : result A) : bool :=
  match r with Ok _ => true | Err _ => false end.

Fixpoint mapR {A B} (f : A -> result B) (l : list A) : result (list B) :=
  match l with
  | [] => Ok []
  | a :: l' => b ← f a; bs ← mapR f l'; Ok (b :: bs)
  end.

(** ** Tactics of the development *)

(** Split every [result] bind in the hypotheses that ended in [Ok]. *)
Ltac unbind :=
  repeat match goal with
  | H : mbind _ ?m = Ok _ |- _ =>
      let E := fresh "E" in destruct m eqn:E; cbn [mbind result_bind] in H; [|discriminate H]
  | H : guard_not ?c _ = Ok _ |- _ =>
      let E := fresh "G" in unfold guard_not in H; destruct c eqn:E; [discriminate H|]; clear H
  | H : throw _ = Ok _ |- _ => discriminate H
  | H : Ok _ = Ok _ |- _ => injection H; clear H; intros; subst
  | H : Err _ = Ok _ |- _ => discriminate H
  end.

(** Turn boolean tests in the context into arithmetic facts. *)
Ltac bools :=
  repeat match goal with
  | H : (_ && _)%bool = true |- _ => apply andb_true_iff in H; destruct H
  | H : (_ || _)%bool = false |- _ => apply orb_false_iff in H; destruct H
  | H : negb _ = true |- _ => apply negb_true_iff in H
  | H : negb _ = false |- _ => apply negb_false_iff in H
  | H : (_ =? _) = true |- _ => apply Z.eqb_eq in H
  | H : (_ =? _) = false |- _ => apply Z.eqb_neq in H
  | H : (_ <? _) = true |- _ => apply Z.ltb_lt in H
  | H : (_ <? _) = false |- _ => apply Z.ltb_ge in H
  | H : (_ <=? _) = true |- _ => apply Z.leb_le in H
  | H : (_ <=? _) = false |- _ => apply Z.leb_gt in H
  end.

(** Linear arithmetic with division and remainder by constants. *)
Ltac dlia := Z.to_euclidean_division_equations; lia.

(** Decide an [if] on an integer test by [lia]. *)
Ltac ztest :=
  repeat match goal with
  | |- context [?a =? ?b] =>
      first [ rewrite (proj2 (Z.eqb_eq a b)) by lia
            | rewrite (proj2 (Z.eqb_neq a b)) by lia ]
  | |- context [?a <? ?b] =>
      first [ rewrite (proj2 (Z.ltb_lt a b)) by lia
            | rewrite (proj2 (Z.ltb_ge a b)) by lia ]
  | |- context [?a <=? ?b] =>
      first [ rewrite (proj2 (Z.leb_le a b)) by lia
            | rewrite (proj2 (Z.leb_gt a b)) by lia ]
  end.

(** ** Generic lemmas *)

Lemma bind_ok {A B} (a : A) (f : A -> result B) : (Ok a ≫= f) = f a.
Proof. reflexivity. Qed.

Lemma mapR_ok {A B} (f : A -> result B) (g : A -> B) (l : list A) :
  (forall a, a ∈ l -> f a = Ok (g a)) -> mapR f l = Ok (map g l).
Proof.
  induction l as [|a l IH]; intros Hf; [done|]. cbn.
  rewrite Hf by set_solver. cbn. rewrite IH by (intros; apply Hf; set_solver). done.
Qed.

Lemma mapR_length {A B} (f : A -> result B) l r :
  mapR f l = Ok r -> length r = length l.
Proof.
  revert r; induction l as [|a l IH]; cbn; intros r H; [by simplify_eq|].
  destruct (f a); [|done]. cbn in H. destruct (mapR f l) eqn:E; [|done].
  cbn in H. simplify_eq. cbn. by rewrite (IH a1).
Qed.

(** Invariants of a step relation hold on every reachable state. *)
Lemma rtc_invariant {A} (R : relation A) (P : A -> Prop) :
  (forall x y, P x -> R x y -> P y) -> forall x y, rtc R x y -> P x -> P y.
Proof. intros HR x y Hxy. induction Hxy; eauto. Qed.

Create HintDb nyx discriminated.
Create Rewrite HintDb nyx.
#[export] Hint Rewrite @bind_ok : nyx.
