(* ===== verification/StateErr.v ===== *)
(** Stateful code that may throw: the state reached so far survives an exception. *)
From S2P Require Import Prelude.

Definition stE (S A : Type) : Type := S -> result A * S.

#[global] Instance stE_ret S : MRet (stE S) := fun A a s => (Ok a, s).
#[global] Instance stE_bind S : MBind (stE S) := fun A B f c s =>
  match c s with (Ok a, s') => f a s' | (Err e, s') => (Err e, s') end.

Definition lift {S A} (r : result A) : stE S A := fun s => (r, s).
Definition gets {S A} (f : S -> A) : stE S A := fun s => (Ok (f s), s).
Definition modify {S} (f : S -> S) : stE S unit := fun s => (Ok tt, f s).
(** [try { c } catch (error) { ... }]: the outcome as a value, the effects kept. *)
Definition attempt {S A} (c : stE S A) : stE S (result A) := fun s => let '(r, s') := c s in (Ok r, s').
(** [try { c } catch { }]: the effects of [c] stay. *)
Definition try_ {S} (c : stE S unit) : stE S unit := fun s => (Ok tt, (c s).2).

Lemma stE_bind_eq {S A B} (c : stE S A) (f : A -> stE S B) s r s1 :
  c s = (r, s1) -> (c ≫= f) s = match r with Ok a => f a s1 | Err e => (Err e, s1) end.
Proof. intros E. unfold mbind, stE_bind. rewrite E. by destruct r. Qed.

Lemma attempt_eq {S A} (c : stE S A) s r s' : c s = (r, s') -> attempt c s = (Ok r, s').
Proof. intros E. unfold attempt. by rewrite E. Qed.

Lemma gets_bind {S A B} (g : S -> A) (f : A -> stE S B) s : (gets g ≫= f) s = f (g s) s.
Proof. reflexivity. Qed.

Lemma modify_bind {S B} (g : S -> S) (f : unit -> stE S B) s : (modify g ≫= f) s = f tt (g s).
Proof. reflexivity. Qed.

Lemma lift_bind {S A B} (r : result A) (f : A -> stE S B) s :
  (lift r ≫= f) s = match r with Ok a => f a s | Err e => (Err e, s) end.
Proof. by destruct r. Qed.

Lemma stE_assoc {S A B C} (c : stE S A) (f : A -> stE S B) (g : B -> stE S C) s :
  ((c ≫= f) ≫= g) s = (c ≫= (fun a => f a ≫= g)) s.
Proof. unfold mbind, stE_bind. by destruct (c s) as [[a|e] s']. Qed.

Lemma stE_bind_ext {S A B} (c : stE S A) (f g : A -> stE S B) s : (forall a s, f a s = g a s) -> (c ≫= f) s = (c ≫= g) s.
Proof. intros Hfg. unfold mbind, stE_bind. destruct (c s) as [[a|e] s']; [apply Hfg|done]. Qed.

Lemma stE_ret_bind {S A B} (a : A) (f : A -> stE S B) s : (mret a ≫= f) s = f a s.
Proof. reflexivity. Qed.

(** Code whose state changes stay within a preorder, whether it returns or throws. *)
Definition moves {S A} (R : relation S) (m : stE S A) : Prop := forall s, R s (m s).2.

Section Moves.
Context {S : Type} (R : relation S) `{!PreOrder R}.

Lemma moves_bind {A B} (m : stE S A) (f : A -> stE S B) : moves R m -> (forall a, moves R (f a)) -> moves R (m ≫= f).
Proof.
  intros Hm Hf s. specialize (Hm s). unfold mbind, stE_bind. destruct (m s) as [[a|e] s1]; [|done].
  etransitivity; [exact Hm|apply Hf].
Qed.

Lemma moves_lift {A} (r : result A) : moves R (lift r).
Proof. intros s. unfold lift. cbn. reflexivity. Qed.

Lemma moves_ret {A} (a : A) : moves R (mret a).
Proof. intros s. cbn. reflexivity. Qed.
End Moves.
