(* ===== verification/Bytes.v ===== *)
(** Uint8Array and DataView: the byte buffers every wire format of NYX is
    built from, with the bounds behaviour of the language (a store past the end
    throws, a slice clamps, a store of a number keeps its low bits). *)
From S2P Require Import Prelude.

Abbreviation bytes := (list byte).

#[export] Instance byte_eq_decision : EqDecision byte := Byte.byte_eq_dec.

(** A byte as a number and the [Uint8] conversion of a number (low 8 bits). *)
Definition b2z (b : byte) : Z := Z.of_N (Byte.to_N b).
Definition z2b (z : Z) : byte :=
  match Byte.of_N (Z.to_N (z mod 256)) with Some b => b | None => x00 end.

Definition blen (b : bytes) : Z := Z.of_nat (length b).

(** [new Uint8Array(n)] *)
Definition zeros (n : Z) : bytes := replicate (Z.to_nat n) x00.

(** [b.slice(i, j)] and [b.slice(i)] for non-negative indices *)
Definition slice (b : bytes) (i j : Z) : bytes :=
  take (Z.to_nat (j - i)) (drop (Z.to_nat i) b).
Definition slice_from (b : bytes) (i : Z) : bytes := drop (Z.to_nat i) b.

(** [dst.set(src, off)]: RangeError when the source does not fit. *)
Definition u8_set (dst : bytes) (off : Z) (src : bytes) : result bytes :=
  if (off <? 0) || (blen dst <? off + blen src) then Err "RangeError"
  else Ok (take (Z.to_nat off) dst ++ src ++ drop (Z.to_nat (off + blen src)) dst).

(** [b[i] = v]: a store out of range is ignored. *)
Definition u8_store (b : bytes) (i v : Z) : bytes := <[Z.to_nat i := z2b v]> b.

(** [b[i]]: undefined out of range. *)
Definition u8_get (b : bytes) (i : Z) : option Z :=
  if i <? 0 then None else b2z <$> b !! Z.to_nat i.

(** Big-endian DataView accessors. *)
Definition be16 (v : Z) : bytes := [z2b (v / 256); z2b v].
Definition be32 (v : Z) : bytes :=
  [z2b (v / 16777216); z2b (v / 65536); z2b (v / 256); z2b v].
Definition u16_of (b0 b1 : byte) : Z := b2z b0 * 256 + b2z b1.
Definition u32_of (b0 b1 b2 b3 : byte) : Z :=
  ((b2z b0 * 256 + b2z b1) * 256 + b2z b2) * 256 + b2z b3.

Definition set_u16 (b : bytes) (off v : Z) : result bytes := u8_set b off (be16 v).
Definition set_u32 (b : bytes) (off v : Z) : result bytes := u8_set b off (be32 v).

Definition get_u16 (b : bytes) (off : Z) : result Z :=
  match slice b off (off + 2) with
  | [b0; b1] => Ok (u16_of b0 b1)
  | _ => Err "RangeError"
  end.
Definition get_u32 (b : bytes) (off : Z) : result Z :=
  match slice b off (off + 4) with
  | [b0; b1; b2; b3] => Ok (u32_of b0 b1 b2 b3)
  | _ => Err "RangeError"
  end.

(** ASCII text as the bytes [TextEncoder] produces for it. *)
Definition ascii_bytes (s : string) : bytes := String.list_byte_of_string s.

(** ** Lemmas *)

Lemma b2z_range b : 0 <= b2z b < 256.
Proof. unfold b2z. pose proof (Byte.to_N_bounded b). lia. Qed.

Lemma z2b_b2z b : z2b (b2z b) = b.
Proof.
  unfold z2b. rewrite Z.mod_small by apply b2z_range.
  unfold b2z. rewrite N2Z.id, Byte.of_to_N. done.
Qed.

Lemma b2z_z2b z : b2z (z2b z) = z mod 256.
Proof.
  unfold z2b. pose proof (Z.mod_pos_bound z 256 ltac:(lia)) as Hz.
  destruct (Byte.of_N (Z.to_N (z mod 256))) as [b|] eqn:E.
  - unfold b2z. apply Byte.to_of_N in E. rewrite E. rewrite Z2N.id by lia. done.
  - apply Byte.of_N_None_iff in E. lia.
Qed.

Lemma b2z_inj a b : b2z a = b2z b -> a = b.
Proof. intros H. by rewrite <- (z2b_b2z a), H, z2b_b2z. Qed.

Lemma z2b_mod z : z2b (z mod 256) = z2b z.
Proof. unfold z2b. by rewrite Z.mod_mod by lia. Qed.

Lemma u16_of_be v : u16_of (z2b (v / 256)) (z2b v) = v mod 65536.
Proof.
  unfold u16_of. rewrite !b2z_z2b.
  replace 65536 with (256 * 256) by lia. rewrite Z.rem_mul_r by lia. lia.
Qed.

Lemma u32_of_be v :
  u32_of (z2b (v / 16777216)) (z2b (v / 65536)) (z2b (v / 256)) (z2b v) = v mod 4294967296.
Proof.
  unfold u32_of. rewrite !b2z_z2b.
  replace 4294967296 with (256 * (256 * (256 * 256))) by lia.
  rewrite !Z.rem_mul_r by lia. rewrite !Z.div_div by lia.
  replace (256 * 256) with 65536 by lia. replace (65536 * 256) with 16777216 by lia. lia.
Qed.

Lemma u16_of_range a b : 0 <= u16_of a b < 65536.
Proof. unfold u16_of. pose proof (b2z_range a). pose proof (b2z_range b). lia. Qed.

Lemma u32_of_range a b c d : 0 <= u32_of a b c d < 4294967296.
Proof.
  unfold u32_of. pose proof (b2z_range a). pose proof (b2z_range b).
  pose proof (b2z_range c). pose proof (b2z_range d). lia.
Qed.

Lemma blen_nonneg b : 0 <= blen b.
Proof. unfold blen. lia. Qed.
Lemma blen_nil : blen [] = 0.
Proof. done. Qed.
Lemma blen_cons a b : blen (a :: b) = 1 + blen b.
Proof. unfold blen. cbn. lia. Qed.
Lemma blen_app a b : blen (a ++ b) = blen a + blen b.
Proof. unfold blen. rewrite length_app. lia. Qed.
Lemma blen_zeros n : 0 <= n -> blen (zeros n) = n.
Proof. intros. unfold blen, zeros. rewrite length_replicate. lia. Qed.
Lemma blen_be16 v : blen (be16 v) = 2.
Proof. done. Qed.
Lemma blen_be32 v : blen (be32 v) = 4.
Proof. done. Qed.
Lemma blen_slice b i j : 0 <= i <= j -> j <= blen b -> blen (slice b i j) = j - i.
Proof.
  intros Hi Hj. unfold blen, slice in *. rewrite length_take, length_drop. lia.
Qed.
Lemma blen_slice_le b i j : blen (slice b i j) <= Z.max 0 (j - i).
Proof. unfold blen, slice. rewrite length_take. lia. Qed.
Lemma blen_slice_from b i : 0 <= i <= blen b -> blen (slice_from b i) = blen b - i.
Proof. unfold blen, slice_from. rewrite length_drop. lia. Qed.

(** Keys of 32 bytes are read back from storage because they are not empty. *)
Lemma blen_32_nonempty b : blen b = 32 -> b <> [].
Proof. by intros Hb ->. Qed.

#[export] Hint Resolve blen_32_nonempty : nyx.
#[export] Hint Rewrite blen_nil blen_cons blen_app blen_be16 blen_be32 : nyx.

(** Normalise byte lengths and finish with linear arithmetic. *)
Ltac blia :=
  autorewrite with nyx in *;
  repeat match goal with
  | |- context [blen ?b] => lazymatch goal with
      | _ : 0 <= blen b |- _ => fail | _ => pose proof (blen_nonneg b) end
  | _ : context [blen ?b] |- _ => lazymatch goal with
      | _ : 0 <= blen b |- _ => fail | _ => pose proof (blen_nonneg b) end
  end; lia.

Lemma zeros_app n m : 0 <= n -> 0 <= m -> zeros (n + m) = zeros n ++ zeros m.
Proof.
  intros. unfold zeros. rewrite Z2Nat.inj_add by lia. apply replicate_add.
Qed.

(** Reading back a field of a concatenation. *)
Lemma slice_app_at a b c i j :
  i = blen a -> j = i + blen b -> slice (a ++ b ++ c) i j = b.
Proof.
  intros -> ->. unfold slice, blen.
  replace (Z.to_nat (Z.of_nat (length a) + Z.of_nat (length b) - Z.of_nat (length a)))
    with (length b) by lia.
  rewrite Nat2Z.id, drop_app_length, take_app_length. done.
Qed.

Lemma slice_app_end a b i j :
  i = blen a -> j = i + blen b -> slice (a ++ b) i j = b.
Proof. intros. rewrite <- (app_nil_r b) at 1. by apply slice_app_at. Qed.

Lemma slice_from_app a b i : i = blen a -> slice_from (a ++ b) i = b.
Proof. intros ->. unfold slice_from, blen. by rewrite Nat2Z.id, drop_app_length. Qed.

Lemma slice_app_head b c j : j = blen b -> slice (b ++ c) 0 j = b.
Proof. intros ->. apply (slice_app_at [] b c); blia. Qed.

(** Writing a field into the zeroed tail of a buffer. *)
Lemma u8_set_fill a n src :
  blen src <= n ->
  u8_set (a ++ zeros n) (blen a) src = Ok ((a ++ src) ++ zeros (n - blen src)).
Proof.
  intros Hn. pose proof (blen_nonneg src). pose proof (blen_nonneg a). unfold u8_set.
  rewrite blen_app, blen_zeros by lia. ztest. cbn [orb]. f_equal.
  unfold blen at 1. rewrite Nat2Z.id, take_app_length, <- app_assoc. do 2 f_equal.
  rewrite drop_app_ge by (unfold blen; lia).
  replace (Z.to_nat (blen a + blen src) - length a)%nat with (Z.to_nat (blen src))
    by (unfold blen; lia).
  unfold zeros. rewrite drop_replicate. f_equal. lia.
Qed.

(** The same with the offset given as any expression of the right value. *)
Lemma u8_set_fill' a n src off :
  off = blen a -> blen src <= n ->
  u8_set (a ++ zeros n) off src = Ok ((a ++ src) ++ zeros (n - blen src)).
Proof. intros ->. apply u8_set_fill. Qed.

Lemma u8_set_first n src :
  blen src <= n -> u8_set (zeros n) 0 src = Ok (src ++ zeros (n - blen src)).
Proof. intros. apply (u8_set_fill [] n src). done. Qed.

Lemma zeros_0 : zeros 0 = [].
Proof. done. Qed.

Lemma u8_set_length dst off src r : u8_set dst off src = Ok r -> blen r = blen dst.
Proof.
  unfold u8_set. intros H. destruct (off <? 0) eqn:E1; [done|].
  destruct (blen dst <? off + blen src) eqn:E2; [done|]. cbn in H. simplify_eq. bools.
  unfold blen in *. rewrite !length_app, length_take, length_drop. lia.
Qed.

Lemma get_u16_app a b c off v :
  off = blen a -> b = be16 v -> get_u16 (a ++ b ++ c) off = Ok (v mod 65536).
Proof.
  intros -> ->. unfold get_u16. rewrite slice_app_at by done. cbn. f_equal. apply u16_of_be.
Qed.

Lemma get_u32_app a b c off v :
  off = blen a -> b = be32 v -> get_u32 (a ++ b ++ c) off = Ok (v mod 4294967296).
Proof.
  intros -> ->. unfold get_u32. rewrite slice_app_at by done. cbn. f_equal. apply u32_of_be.
Qed.

Lemma get_u16_bound b off v : get_u16 b off = Ok v -> 0 <= v < 65536.
Proof.
  unfold get_u16. destruct (slice b off (off + 2)) as [|? [|? [|? ?]]]; try done.
  intros [= <-]. apply u16_of_range.
Qed.

Lemma u8_get_app_l a b i : 0 <= i < blen a -> u8_get (a ++ b) i = u8_get a i.
Proof.
  intros Hi. unfold u8_get, blen in *. ztest. by rewrite lookup_app_l by lia.
Qed.

Lemma length_eq_blen (a : bytes) n : blen a = Z.of_nat n -> length a = n.
Proof. unfold blen. lia. Qed.

(** [b[i] = v] on the first zero byte of a buffer. *)
Lemma u8_store_fill a n v off :
  off = blen a -> 0 < n ->
  u8_store (a ++ zeros n) off v = (a ++ [z2b v]) ++ zeros (n - 1).
Proof.
  intros -> Hn. unfold u8_store, blen. rewrite Nat2Z.id.
  replace n with (1 + (n - 1)) at 1 by lia. rewrite zeros_app by lia.
  change (zeros 1) with [x00]. cbn [app].
  rewrite insert_app_r_alt by lia. rewrite Nat.sub_diag. cbn. by rewrite <- app_assoc.
Qed.

Lemma u8_store_first n v : 0 < n -> u8_store (zeros n) 0 v = [z2b v] ++ zeros (n - 1).
Proof. intros. apply (u8_store_fill [] n v 0); done. Qed.

(** Field access stated on any buffer that splits around the field. *)
Lemma slice_split b pre x post i j :
  b = pre ++ x ++ post -> i = blen pre -> j = i + blen x -> slice b i j = x.
Proof. intros ->. apply slice_app_at. Qed.

Lemma get_u16_split b pre post off v :
  b = pre ++ be16 v ++ post -> off = blen pre -> 0 <= v < 65536 -> get_u16 b off = Ok v.
Proof.
  intros -> -> Hv. rewrite (get_u16_app pre (be16 v) post _ v) by done.
  by rewrite Z.mod_small by lia.
Qed.

Lemma get_u32_split b pre post off v :
  b = pre ++ be32 v ++ post -> off = blen pre -> 0 <= v < 4294967296 -> get_u32 b off = Ok v.
Proof.
  intros -> -> Hv. rewrite (get_u32_app pre (be32 v) post _ v) by done.
  by rewrite Z.mod_small by lia.
Qed.

Lemma u8_get_split b pre v post off :
  b = pre ++ [z2b v] ++ post -> off = blen pre -> 0 <= v < 256 -> u8_get b off = Some v.
Proof.
  intros -> -> Hv. unfold u8_get. pose proof (blen_nonneg pre). ztest. unfold blen.
  rewrite Nat2Z.id, lookup_app_r, Nat.sub_diag by lia. cbn. by rewrite b2z_z2b, Z.mod_small.
Qed.

(** Disjoint bits: [acc | (x << s)] is a sum when [acc] fits below the shift. *)
Lemma lor_shiftl acc x s :
  0 <= s -> 0 <= acc < 2 ^ s -> Z.lor acc (Z.shiftl x s) = acc + x * 2 ^ s.
Proof.
  intros Hs Ha. rewrite <- Z.shiftl_mul_pow2 by lia. rewrite <- Z.add_lor_land.
  replace (Z.land acc (Z.shiftl x s)) with 0; [lia|]. symmetry.
  rewrite <- (Z.mod_small acc (2 ^ s)) by lia. apply Z.bits_inj'. intros i Hi.
  rewrite Z.land_spec, Z.bits_0. destruct (Z.lt_ge_cases i s).
  - rewrite Z.shiftl_spec_low by lia. apply andb_false_r.
  - by rewrite Z.mod_pow2_bits_high by lia.
Qed.

(** Overwriting a field in the middle of a buffer. *)
Lemma u8_set_mid a old c src off :
  off = blen a -> blen old = blen src -> u8_set (a ++ old ++ c) off src = Ok (a ++ src ++ c).
Proof.
  intros -> Hl. pose proof (blen_nonneg a). pose proof (blen_nonneg c). unfold u8_set.
  rewrite !blen_app. ztest. cbn [orb]. f_equal. unfold blen in *.
  rewrite Nat2Z.id, take_app_length. do 2 f_equal.
  replace (Z.to_nat (Z.of_nat (length a) + Z.of_nat (length src))) with (length a + length old)%nat by lia.
  rewrite <- drop_drop, drop_app_length. by rewrite drop_app_length.
Qed.

(** Solve [b = pre ++ x ++ post] up to reassociation. *)
Ltac split_app := by rewrite <- ?app_assoc, ?app_nil_r.
