(* ===== verification/Base64.v ===== *)
(** Base64 as the client uses it: [btoa]/[atob] of the platform (forgiving
    decoding, as the HTML standard defines it) and the URL-safe, unpadded codec
    that web/src/lib/spqrWire.ts builds from them. Strings are sequences of
    8-bit characters. *)
From S2P Require Import Prelude Bytes.
From Stdlib Require Import Ascii.
#[local] Arguments String.append : simpl nomatch.

Definition slen (s : string) : Z := Z.of_nat (String.length s).

Fixpoint str_forall (p : ascii -> bool) (s : string) : bool :=
  match s with
  | EmptyString => true
  | String c s' => p c && str_forall p s'
  end.

Fixpoint str_map (f : ascii -> ascii) (s : string) : string :=
  match s with
  | EmptyString => EmptyString
  | String c s' => String (f c) (str_map f s')
  end.

Fixpoint str_filter (p : ascii -> bool) (s : string) : string :=
  match s with
  | EmptyString => EmptyString
  | String c s' => if p c then String c (str_filter p s') else str_filter p s'
  end.

(** [s.replace(/c+$/, '')]: drop the trailing run of [c]. *)
Fixpoint strip_trailing (c : ascii) (s : string) : string :=
  match s with
  | EmptyString => EmptyString
  | String a s' =>
      match strip_trailing c s' with
      | EmptyString => if Ascii.eqb a c then EmptyString else String a EmptyString
      | r => String a r
      end
  end.

Fixpoint str_repeat (c : ascii) (n : nat) : string :=
  match n with O => EmptyString | S n' => String c (str_repeat c n') end.

Definition code (c : ascii) : Z := Z.of_N (N_of_ascii c).
Definition chr (z : Z) : ascii := ascii_of_N (Z.to_N z).

(** The standard alphabet and its inverse. *)
Definition enc64 (v : Z) : ascii :=
  if v <? 26 then chr (65 + v)
  else if v <? 52 then chr (71 + v)
  else if v <? 62 then chr (v - 4)
  else if v =? 62 then "+"%char else "/"%char.

Definition dec64 (c : ascii) : option Z :=
  let k := code c in
  if (65 <=? k) && (k <=? 90) then Some (k - 65)
  else if (97 <=? k) && (k <=? 122) then Some (k - 71)
  else if (48 <=? k) && (k <=? 57) then Some (k + 4)
  else if k =? 43 then Some 62
  else if k =? 47 then Some 63
  else None.

Fixpoint btoa (b : bytes) : string :=
  match b with
  | [] => EmptyString
  | [x] =>
      String (enc64 (b2z x / 4)) (String (enc64 (b2z x mod 4 * 16)) "==")
  | [x; y] =>
      String (enc64 (b2z x / 4)) (String (enc64 (b2z x mod 4 * 16 + b2z y / 16))
        (String (enc64 (b2z y mod 16 * 4)) "="))
  | x :: y :: z :: rest =>
      String (enc64 (b2z x / 4)) (String (enc64 (b2z x mod 4 * 16 + b2z y / 16))
        (String (enc64 (b2z y mod 16 * 4 + b2z z / 64)) (String (enc64 (b2z z mod 64))
          (btoa rest))))
  end.

Definition is_ascii_ws (c : ascii) : bool :=
  existsb (Z.eqb (code c)) [9; 10; 12; 13; 32].

(** Remove one ['='] at the end, if there is one. *)
Fixpoint drop_last_eq (s : string) : string :=
  match s with
  | EmptyString => EmptyString
  | String "=" EmptyString => EmptyString
  | String c s' => String c (drop_last_eq s')
  end.

Fixpoint sextets (s : string) : option (list Z) :=
  match s with
  | EmptyString => Some []
  | String c s' =>
      match dec64 c, sextets s' with
      | Some v, Some vs => Some (v :: vs)
      | _, _ => None
      end
  end.

Fixpoint of_sextets (l : list Z) : bytes :=
  match l with
  | a :: b :: c :: d :: rest =>
      z2b (a * 4 + b / 16) :: z2b (b mod 16 * 16 + c / 4) :: z2b (c mod 4 * 64 + d)
        :: of_sextets rest
  | [a; b; c] => [z2b (a * 4 + b / 16); z2b (b mod 16 * 16 + c / 4)]
  | [a; b] => [z2b (a * 4 + b / 16)]
  | _ => []
  end.

(** [atob]: whitespace is dropped, at most two padding characters are removed
    from an input of length divisible by four, anything else that is not of the
    alphabet or leaves one lone character throws. *)
Definition atob (s : string) : result bytes :=
  let s1 := str_filter (fun c => negb (is_ascii_ws c)) s in
  let s2 := if slen s1 mod 4 =? 0 then drop_last_eq (drop_last_eq s1) else s1 in
  if slen s2 mod 4 =? 1 then Err "InvalidCharacterError" else
  match sextets s2 with
  | Some vs => Ok (of_sextets vs)
  | None => Err "InvalidCharacterError"
  end.

(** spqrWire.ts: [base64UrlFromBytes] and [bytesFromBase64Url]. *)
Definition to_url (c : ascii) : ascii :=
  if Ascii.eqb c "+" then "-"%char else if Ascii.eqb c "/" then "_"%char else c.
Definition from_url (c : ascii) : ascii :=
  if Ascii.eqb c "-" then "+"%char else if Ascii.eqb c "_" then "/"%char else c.

Definition base64UrlFromBytes (b : bytes) : string :=
  strip_trailing "=" (str_map to_url (btoa b)).

Definition bytesFromBase64Url (value : string) : result bytes :=
  let padded := str_map from_url value in
  atob (padded ++ str_repeat "=" (Z.to_nat ((4 - slen padded mod 4) mod 4)))%string.

(** The character class [A-Za-z0-9_-] of the client's base64url patterns. *)
Definition is_b64url_char (c : ascii) : bool :=
  let k := code c in
  ((65 <=? k) && (k <=? 90)) || ((97 <=? k) && (k <=? 122)) ||
  ((48 <=? k) && (k <=? 57)) || (k =? 95) || (k =? 45).

(** ** Lemmas *)

Lemma six_case (P : Z -> bool) :
  forallb P (map Z.of_nat (seq 0 64)) = true -> forall v, 0 <= v < 64 -> P v = true.
Proof.
  intros H v Hv. rewrite forallb_forall in H. apply H. apply in_map_iff.
  exists (Z.to_nat v). split; [lia|]. apply in_seq. lia.
Qed.

Definition six_ok (v : Z) : bool :=
  match dec64 (enc64 v) with Some w => w =? v | None => false end
  && negb (is_ascii_ws (enc64 v)) && negb (Ascii.eqb (enc64 v) "=")
  && is_b64url_char (to_url (enc64 v)) && negb (Ascii.eqb (to_url (enc64 v)) "=")
  && Ascii.eqb (from_url (to_url (enc64 v))) (enc64 v).

Lemma six_all v : 0 <= v < 64 -> six_ok v = true.
Proof. apply six_case. vm_compute. reflexivity. Qed.

Lemma dec_enc64 v : 0 <= v < 64 -> dec64 (enc64 v) = Some v.
Proof.
  intros Hv. pose proof (six_all v Hv) as H. unfold six_ok in H.
  bools. destruct (dec64 (enc64 v)); [|done]. bools. by subst.
Qed.

Lemma enc64_ws v : 0 <= v < 64 -> is_ascii_ws (enc64 v) = false.
Proof. intros Hv. pose proof (six_all v Hv) as H. unfold six_ok in H. by bools. Qed.

Lemma enc64_neq_pad v : 0 <= v < 64 -> Ascii.eqb (enc64 v) "=" = false.
Proof. intros Hv. pose proof (six_all v Hv) as H. unfold six_ok in H. by bools. Qed.

Lemma url_neq_pad v : 0 <= v < 64 -> Ascii.eqb (to_url (enc64 v)) "=" = false.
Proof. intros Hv. pose proof (six_all v Hv) as H. unfold six_ok in H. by bools. Qed.

Lemma url_char v : 0 <= v < 64 -> is_b64url_char (to_url (enc64 v)) = true.
Proof. intros Hv. pose proof (six_all v Hv) as H. unfold six_ok in H. by bools. Qed.

Lemma from_to_url v : 0 <= v < 64 -> from_url (to_url (enc64 v)) = enc64 v.
Proof.
  intros Hv. pose proof (six_all v Hv) as H. unfold six_ok in H. bools.
  by apply Ascii.eqb_eq.
Qed.

(** The sextets of a byte string, and [btoa] as their spelling plus padding. *)
Fixpoint to_sextets (b : bytes) : list Z :=
  match b with
  | [] => []
  | [x] => [b2z x / 4; b2z x mod 4 * 16]
  | [x; y] => [b2z x / 4; b2z x mod 4 * 16 + b2z y / 16; b2z y mod 16 * 4]
  | x :: y :: z :: rest =>
      b2z x / 4 :: b2z x mod 4 * 16 + b2z y / 16 :: b2z y mod 16 * 4 + b2z z / 64
        :: b2z z mod 64 :: to_sextets rest
  end.

Fixpoint spell (f : Z -> ascii) (vs : list Z) : string :=
  match vs with [] => EmptyString | v :: vs' => String (f v) (spell f vs') end.

Definition padding (b : bytes) : nat := Z.to_nat ((3 - blen b mod 3) mod 3).

(** Induction by groups of three bytes. *)
Lemma bytes_ind3 (P : bytes -> Prop) :
  P [] -> (forall x, P [x]) -> (forall x y, P [x; y]) ->
  (forall x y z b, P b -> P (x :: y :: z :: b)) -> forall b, P b.
Proof.
  intros H0 H1 H2 H3. fix IH 1. intros [|x [|y [|z b]]]; [apply H0|apply H1|apply H2|apply H3, IH].
Qed.

Lemma byte_split x : 0 <= b2z x < 256 /\ 0 <= b2z x / 4 < 64 /\ 0 <= b2z x mod 4 < 4
  /\ 0 <= b2z x / 16 < 16 /\ 0 <= b2z x mod 16 < 16 /\ 0 <= b2z x / 64 < 4
  /\ 0 <= b2z x mod 64 < 64.
Proof. pose proof (b2z_range x). dlia. Qed.

Lemma to_sextets_range b : Forall (fun v => 0 <= v < 64) (to_sextets b).
Proof.
  induction b as [|x|x y|x y z b IH] using bytes_ind3; cbn;
    repeat match goal with x : byte |- _ =>
      pose proof (byte_split x); generalize dependent (b2z x); clear x; intros end;
    repeat (apply Forall_cons; split); try apply Forall_nil; try exact IH; lia.
Qed.

Lemma padding_step x y z b : padding (x :: y :: z :: b) = padding b.
Proof.
  unfold padding. do 3 f_equal. rewrite !blen_cons.
  replace (1 + (1 + (1 + blen b))) with (blen b + 1 * 3) by lia.
  by rewrite Z.mod_add by lia.
Qed.

Lemma btoa_spell b :
  btoa b = (spell enc64 (to_sextets b) ++ str_repeat "=" (padding b))%string.
Proof.
  induction b as [|x|x y|x y z b IH] using bytes_ind3; try done.
  cbn [btoa to_sextets spell String.append]. rewrite padding_step. by rewrite IH.
Qed.

Lemma z2b_eq z x : z = b2z x -> z2b z = x.
Proof. intros ->. apply z2b_b2z. Qed.

Lemma of_to_sextets b : of_sextets (to_sextets b) = b.
Proof.
  induction b as [|x|x y|x y z b IH] using bytes_ind3; cbn [to_sextets of_sextets];
    rewrite ?IH; repeat f_equal; apply z2b_eq;
    repeat match goal with x : byte |- _ =>
      pose proof (b2z_range x); generalize dependent (b2z x); clear x; intros end;
    dlia.
Qed.

Lemma slen_app a b : slen (a ++ b)%string = slen a + slen b.
Proof.
  unfold slen. induction a as [|c a IH]; cbn [String.append String.length]; [done|lia].
Qed.

Lemma slen_repeat c n : slen (str_repeat c n) = Z.of_nat n.
Proof. unfold slen. induction n; cbn [str_repeat String.length]; lia. Qed.

Lemma slen_spell f vs : slen (spell f vs) = Z.of_nat (length vs).
Proof. unfold slen. induction vs; cbn [spell String.length length]; lia. Qed.

Lemma length_to_sextets b :
  Z.of_nat (length (to_sextets b)) = (4 * blen b + 2) / 3.
Proof.
  induction b as [|x|x y|x y z b IH] using bytes_ind3; try done.
  cbn [to_sextets length]. rewrite !Nat2Z.inj_succ, IH, !blen_cons. dlia.
Qed.

Lemma spell_pad_mod4 b : slen (btoa b) mod 4 = 0.
Proof.
  rewrite btoa_spell, slen_app, slen_repeat, slen_spell, length_to_sextets.
  unfold padding. pose proof (blen_nonneg b). dlia.
Qed.

Lemma sextets_spell vs :
  Forall (fun v => 0 <= v < 64) vs -> sextets (spell enc64 vs) = Some vs.
Proof.
  induction 1 as [|v vs Hv _ IH]; cbn; [done|]. by rewrite dec_enc64, IH.
Qed.

Lemma filter_ws_spell vs n :
  Forall (fun v => 0 <= v < 64) vs ->
  str_filter (fun c => negb (is_ascii_ws c)) (spell enc64 vs ++ str_repeat "=" n)%string
  = (spell enc64 vs ++ str_repeat "=" n)%string.
Proof.
  induction 1 as [|v vs Hv _ IH]; cbn [spell str_filter String.append].
  - induction n as [|n IHn]; [done|]. cbn [str_repeat str_filter].
    change (is_ascii_ws "=") with false. cbn [negb]. f_equal. exact IHn.
  - rewrite enc64_ws by done. cbn [negb]. by rewrite IH.
Qed.

Lemma drop_last_eq_spell vs :
  Forall (fun v => 0 <= v < 64) vs -> drop_last_eq (spell enc64 vs) = spell enc64 vs.
Proof.
  induction 1 as [|v vs Hv _ IH]; [done|]. cbn [spell drop_last_eq]. rewrite IH.
  pose proof (enc64_neq_pad v Hv) as Hne.
  destruct (enc64 v) as [[] [] [] [] [] [] [] []]; try done; destruct vs; done.
Qed.

Lemma drop_last_eq_pad vs n :
  Forall (fun v => 0 <= v < 64) vs ->
  drop_last_eq (spell enc64 vs ++ str_repeat "=" (S n))%string
  = (spell enc64 vs ++ str_repeat "=" n)%string.
Proof.
  induction 1 as [|v vs Hv _ IH]; cbn [spell String.append].
  - induction n as [|n IH]; [done|]. cbn [str_repeat] in *. cbn [drop_last_eq].
    f_equal. exact IH.
  - pose proof (enc64_neq_pad v Hv) as Hne. cbn [drop_last_eq]. rewrite IH.
    destruct (enc64 v) as [[] [] [] [] [] [] [] []]; done.
Qed.

Lemma str_app_nil (s : string) : (s ++ "")%string = s.
Proof. induction s as [|c s IH]; cbn; congruence. Qed.

Lemma atob_btoa b : atob (btoa b) = Ok b.
Proof.
  unfold atob. rewrite btoa_spell, filter_ws_spell by apply to_sextets_range.
  rewrite <- btoa_spell, spell_pad_mod4, btoa_spell. cbn [Z.eqb].
  assert (Hp : (padding b <= 2)%nat) by (unfold padding; dlia).
  assert (Hd : drop_last_eq (drop_last_eq
      (spell enc64 (to_sextets b) ++ str_repeat "=" (padding b)))%string
      = spell enc64 (to_sextets b)).
  { pose proof (to_sextets_range b) as Hr.
    destruct (padding b) as [|[|[|?]]] eqn:Ep; [| | |lia];
      repeat rewrite drop_last_eq_pad by done; cbn [str_repeat]; rewrite ?str_app_nil;
      repeat rewrite drop_last_eq_spell by done; done. }
  rewrite Hd, sextets_spell by apply to_sextets_range.
  rewrite slen_spell, length_to_sextets, of_to_sextets.
  pose proof (blen_nonneg b).
  rewrite (proj2 (Z.eqb_neq _ _)) by dlia. done.
Qed.

Lemma strip_trailing_repeat c s n :
  str_forall (fun x => negb (Ascii.eqb x c)) s = true ->
  strip_trailing c (s ++ str_repeat c n)%string = s.
Proof.
  intros Hs. induction s as [|x s IH]; cbn [String.append].
  - induction n as [|n IHn]; [done|]. cbn. by rewrite IHn, Ascii.eqb_refl.
  - cbn in Hs. bools. cbn [strip_trailing]. rewrite IH by done.
    destruct s; [|done]. by rewrite H.
Qed.

Lemma str_map_app f a b : str_map f (a ++ b)%string = (str_map f a ++ str_map f b)%string.
Proof. induction a as [|c a IH]; cbn; congruence. Qed.

Lemma str_map_spell f g vs :
  str_map f (spell g vs) = spell (fun v => f (g v)) vs.
Proof. induction vs as [|v vs IH]; cbn; congruence. Qed.

Lemma str_map_repeat f c n : str_map f (str_repeat c n) = str_repeat (f c) n.
Proof. induction n; cbn; congruence. Qed.

Lemma str_forall_spell p f vs :
  Forall (fun v => 0 <= v < 64) vs -> (forall v, 0 <= v < 64 -> p (f v) = true) ->
  str_forall p (spell f vs) = true.
Proof. intros Hvs Hp. induction Hvs as [|v vs Hv _ IH]; cbn; [done|]. by rewrite Hp, IH. Qed.

Lemma base64Url_spell b :
  base64UrlFromBytes b = spell (fun v => to_url (enc64 v)) (to_sextets b).
Proof.
  unfold base64UrlFromBytes. rewrite btoa_spell, str_map_app, str_map_spell, str_map_repeat.
  apply strip_trailing_repeat. apply str_forall_spell; [apply to_sextets_range|].
  intros v Hv. by rewrite url_neq_pad.
Qed.

(** The encoder writes only characters of the URL-safe alphabet. *)
Lemma base64Url_charset b : str_forall is_b64url_char (base64UrlFromBytes b) = true.
Proof.
  rewrite base64Url_spell. apply str_forall_spell; [apply to_sextets_range|apply url_char].
Qed.

Lemma slen_base64Url b : slen (base64UrlFromBytes b) = (4 * blen b + 2) / 3.
Proof. by rewrite base64Url_spell, slen_spell, length_to_sextets. Qed.

Lemma from_url_spell vs :
  Forall (fun v => 0 <= v < 64) vs ->
  spell (fun v => from_url (to_url (enc64 v))) vs = spell enc64 vs.
Proof.
  induction 1 as [|v vs Hv _ IH]; cbn; [done|]. by rewrite from_to_url, IH.
Qed.

Lemma base64Url_roundtrip b : bytesFromBase64Url (base64UrlFromBytes b) = Ok b.
Proof.
  unfold bytesFromBase64Url. rewrite base64Url_spell, str_map_spell.
  rewrite from_url_spell by apply to_sextets_range.
  rewrite slen_spell, length_to_sextets.
  replace (Z.to_nat _) with (padding b).
  - rewrite <- btoa_spell. apply atob_btoa.
  - unfold padding. pose proof (blen_nonneg b). dlia.
Qed.

Lemma base64Url_inj a b : base64UrlFromBytes a = base64UrlFromBytes b -> a = b.
Proof.
  intros H. pose proof (base64Url_roundtrip a) as Ha. rewrite H, base64Url_roundtrip in Ha.
  by injection Ha.
Qed.

Lemma base64Url_empty b : base64UrlFromBytes b = ""%string <-> b = [].
Proof.
  split; [|intros ->; reflexivity]. intros H.
  pose proof (slen_base64Url b) as Hl. rewrite H in Hl. change (slen "") with 0 in Hl.
  destruct b; [done|]. rewrite blen_cons in Hl. pose proof (blen_nonneg b0). dlia.
Qed.
