(* ===== verification/Utf8.v ===== *)
(** Text as the platform's [TextEncoder] and [TextDecoder] see it. A JavaScript
    string is the list of its Unicode scalar values; the decoder replaces every
    ill-formed sequence by U+FFFD and drops a leading byte order mark, as the
    Encoding standard prescribes for a non-fatal [new TextDecoder()]. *)
From S2P Require Import Prelude Bytes Base64.
From Stdlib Require Import Ascii.

Abbreviation jstr := (list Z).

(** A scalar value: a code point that is not a surrogate. *)
Definition scalar (c : Z) : bool :=
  (0 <=? c) && (c <? 1114112) && negb ((55296 <=? c) && (c <? 57344)).

(** An ASCII literal of the source as a JavaScript string. *)
Fixpoint js (s : string) : jstr :=
  match s with EmptyString => [] | String c s' => code c :: js s' end.

Definition lower1 (c : Z) : Z := if (65 <=? c) && (c <=? 90) then c + 32 else c.
Definition upper1 (c : Z) : Z := if (97 <=? c) && (c <=? 122) then c - 32 else c.
(** [toLowerCase]/[toUpperCase] on ASCII letters, the letters of HTTP field
    names and methods; other characters are kept. *)
Definition toLowerCase (s : jstr) : jstr := map lower1 s.
Definition toUpperCase (s : jstr) : jstr := map upper1 s.

Definition utf8_enc1 (c : Z) : bytes :=
  if c <? 128 then [z2b c]
  else if c <? 2048 then [z2b (192 + c / 64); z2b (128 + c mod 64)]
  else if c <? 65536 then
    [z2b (224 + c / 4096); z2b (128 + c / 64 mod 64); z2b (128 + c mod 64)]
  else [z2b (240 + c / 262144); z2b (128 + c / 4096 mod 64);
        z2b (128 + c / 64 mod 64); z2b (128 + c mod 64)].

(** [textEncoder.encode(s)] *)
Definition utf8_encode (s : jstr) : bytes := concat (map utf8_enc1 s).

Definition cont (lo hi : Z) (b : byte) : bool := (lo <=? b2z b) && (b2z b <=? hi).
Definition repl : Z := 65533.

Fixpoint utf8_dec (l : bytes) : jstr :=
  match l with
  | [] => []
  | b0 :: r =>
      let c := b2z b0 in
      if c <? 128 then c :: utf8_dec r
      else if (194 <=? c) && (c <=? 223) then
        match r with
        | [] => [repl]
        | b1 :: r1 =>
            if cont 128 191 b1 then ((c - 192) * 64 + (b2z b1 - 128)) :: utf8_dec r1
            else repl :: utf8_dec r
        end
      else if (224 <=? c) && (c <=? 239) then
        let lo := if c =? 224 then 160 else 128 in
        let hi := if c =? 237 then 159 else 191 in
        match r with
        | [] => [repl]
        | b1 :: r1 =>
            if cont lo hi b1 then
              match r1 with
              | [] => [repl]
              | b2 :: r2 =>
                  if cont 128 191 b2 then
                    (((c - 224) * 64 + (b2z b1 - 128)) * 64 + (b2z b2 - 128)) :: utf8_dec r2
                  else repl :: utf8_dec r1
              end
            else repl :: utf8_dec r
        end
      else if (240 <=? c) && (c <=? 244) then
        let lo := if c =? 240 then 144 else 128 in
        let hi := if c =? 244 then 143 else 191 in
        match r with
        | [] => [repl]
        | b1 :: r1 =>
            if cont lo hi b1 then
              match r1 with
              | [] => [repl]
              | b2 :: r2 =>
                  if cont 128 191 b2 then
                    match r2 with
                    | [] => [repl]
                    | b3 :: r3 =>
                        if cont 128 191 b3 then
                          ((((c - 240) * 64 + (b2z b1 - 128)) * 64 + (b2z b2 - 128)) * 64
                            + (b2z b3 - 128)) :: utf8_dec r3
                        else repl :: utf8_dec r2
                    end
                  else repl :: utf8_dec r1
              end
            else repl :: utf8_dec r
        end
      else repl :: utf8_dec r
  end.

(** [textDecoder.decode(bytes)]: a leading EF BB BF is dropped. *)
Definition utf8_decode (l : bytes) : jstr :=
  match l with
  | xef :: xbb :: xbf :: r => utf8_dec r
  | _ => utf8_dec l
  end.

(** Strings the encoder and the decoder agree on: scalar values only, and no
    byte order mark in front (the decoder would drop it). *)
Definition text_ok (s : jstr) : bool :=
  forallb scalar s && match s with c :: _ => negb (c =? 65279) | [] => true end.

(** ** Lemmas *)

Lemma b2z_small z : 0 <= z < 256 -> b2z (z2b z) = z.
Proof. intros. rewrite b2z_z2b. apply Z.mod_small. lia. Qed.

(** One unfolding of the decoder. *)
Lemma utf8_dec_cons b0 r :
  utf8_dec (b0 :: r)
  = ltac:(let t := eval cbn [utf8_dec] in (utf8_dec (b0 :: r)) in exact t).
Proof. reflexivity. Qed.

(** Decide the outermost test of the decoder by arithmetic. *)
Ltac top_if :=
  match goal with
  | |- (if ?b then ?x else ?y) = _ =>
      first [ replace b with true by lia; change (if true then x else y) with x
            | replace b with false by lia; change (if false then x else y) with y ]
  end.
Ltac utf_eval :=
  rewrite utf8_dec_cons; cbv beta iota zeta; unfold cont; rewrite !b2z_small by lia;
  repeat match goal with
  | |- context [if ?a =? ?b then _ else _] => destruct (Z.eqb_spec a b)
  end; repeat top_if; f_equal; lia.

Lemma utf8_dec2 q m r : 2 <= q < 32 -> 0 <= m < 64 ->
  utf8_dec (z2b (192 + q) :: z2b (128 + m) :: r) = (q * 64 + m) :: utf8_dec r.
Proof. intros. utf_eval. Qed.

Lemma utf8_dec3 q m n r : 0 <= q < 16 -> 0 <= m < 64 -> 0 <= n < 64 ->
  2048 <= (q * 64 + m) * 64 + n ->
  (q * 64 + m) * 64 + n < 55296 \/ 57344 <= (q * 64 + m) * 64 + n ->
  utf8_dec (z2b (224 + q) :: z2b (128 + m) :: z2b (128 + n) :: r)
  = ((q * 64 + m) * 64 + n) :: utf8_dec r.
Proof. intros. utf_eval. Qed.

Lemma utf8_dec4 q m n p r : 0 <= q < 5 -> 0 <= m < 64 -> 0 <= n < 64 -> 0 <= p < 64 ->
  65536 <= ((q * 64 + m) * 64 + n) * 64 + p < 1114112 ->
  utf8_dec (z2b (240 + q) :: z2b (128 + m) :: z2b (128 + n) :: z2b (128 + p) :: r)
  = (((q * 64 + m) * 64 + n) * 64 + p) :: utf8_dec r.
Proof. intros. utf_eval. Qed.

Lemma utf8_dec_enc1 c r : scalar c = true -> utf8_dec (utf8_enc1 c ++ r) = c :: utf8_dec r.
Proof.
  unfold scalar. intros H. bools. apply andb_false_iff in H0.
  assert (Hs : c < 55296 \/ 57344 <= c) by (destruct H0; bools; lia). clear H0.
  unfold utf8_enc1.
  destruct (Z.ltb_spec c 128); [|destruct (Z.ltb_spec c 2048); [|destruct (Z.ltb_spec c 65536)]];
    cbn [app].
  - cbn [utf8_dec]. rewrite b2z_small by lia. ztest. done.
  - rewrite utf8_dec2 by dlia. f_equal. dlia.
  - assert (Hc : (c / 4096 * 64 + c / 64 mod 64) * 64 + c mod 64 = c) by dlia.
    rewrite utf8_dec3 by (rewrite ?Hc; dlia). by rewrite Hc.
  - assert (Hc : ((c / 262144 * 64 + c / 4096 mod 64) * 64 + c / 64 mod 64) * 64 + c mod 64 = c)
      by dlia.
    rewrite utf8_dec4 by (rewrite ?Hc; dlia). by rewrite Hc.
Qed.

Lemma utf8_dec_encode s : forallb scalar s = true -> utf8_dec (utf8_encode s) = s.
Proof.
  unfold utf8_encode. induction s as [|c s IH]; cbn; [done|]. intros H. bools.
  rewrite utf8_dec_enc1, IH by done. done.
Qed.

(** The bytes EF BB BF start the encoding of U+FEFF only. *)
Lemma utf8_decode_encode s : text_ok s = true -> utf8_decode (utf8_encode s) = s.
Proof.
  unfold text_ok. intros H. bools. rewrite <- (utf8_dec_encode s) at 2 by done.
  unfold utf8_decode.
  destruct (utf8_encode s) as [|b0 [|b1 [|b2 r]]] eqn:E.
  - done.
  - by destruct b0.
  - destruct b0; try done; by destruct b1.
  - destruct (decide (b0 = xef /\ b1 = xbb /\ b2 = xbf)) as [(-> & -> & ->)|Hn].
    + exfalso. pose proof (utf8_dec_encode s ltac:(done)) as Hd. rewrite E in Hd.
      change (utf8_dec (xef :: xbb :: xbf :: r)) with (65279 :: utf8_dec r) in Hd.
      rewrite <- Hd in *. cbn in *. done.
    + destruct b0; try done; destruct b1; try done; destruct b2; try done.
      exfalso. by apply Hn.
Qed.

Lemma js_scalar s : forallb scalar (js s) = true.
Proof.
  induction s as [|c s IH]; [done|]. cbn [js forallb].
  rewrite IH, andb_true_r. unfold scalar, code.
  pose proof (Ascii.N_ascii_bounded c). ztest. done.
Qed.
