(* ===== verification/Text.v ===== *)
(** Texts assembled from fields and a separator, as the code builds its
    identifiers with template strings: decimal numbers contain no separator, and
    a text without it can be split off unambiguously. *)
From stdpp Require Import pretty.
From S2P Require Import Prelude Base64.

Definition is_digit (c : Ascii.ascii) : bool :=
  let n := Ascii.nat_of_ascii c in ((48 <=? n) && (n <=? 57))%nat.
Definition decimal (s : string) : bool := str_forall is_digit s.
Definition free_of (c : Ascii.ascii) (s : string) : bool :=
  str_forall (fun d => negb (Ascii.eqb d c)) s.

Lemma str_forall_impl p q s :
  (forall c, p c = true -> q c = true) -> str_forall p s = true -> str_forall q s = true.
Proof.
  intros Hpq. induction s as [|c s IH]; [done|]. cbn. intros [Hc Hs]%andb_true_iff.
  by rewrite (Hpq c Hc), IH.
Qed.

Lemma str_forall_app p a b : str_forall p (a ++ b)%string = str_forall p a && str_forall p b.
Proof.
  induction a as [|c a IH]; [done|].
  change (p c && str_forall p (a ++ b)%string = p c && str_forall p a && str_forall p b).
  by rewrite IH, andb_assoc.
Qed.

Lemma pretty_N_go_decimal x : forall s, decimal s = true -> decimal (pretty_N_go x s) = true.
Proof.
  induction (N.lt_wf_0 x) as [x _ IH]. intros s Hs.
  assert (x = 0 ∨ 0 < x)%N as [->|?] by lia; [by rewrite pretty_N_go_0|].
  rewrite pretty_N_go_step by done. apply IH; [by apply N.div_lt|].
  unfold decimal in *. cbn. rewrite Hs. unfold pretty_N_char. by repeat case_match.
Qed.

Lemma pretty_decimal k : 0 <= k -> decimal (pretty k) = true.
Proof.
  intros Hk. destruct k as [|p|p]; [done| |lia].
  change (decimal (if decide (N.pos p = 0%N) then "0" else pretty_N_go (N.pos p) "") = true).
  destruct (decide (N.pos p = 0%N)); [done|]. by apply pretty_N_go_decimal.
Qed.

Lemma decimal_free_of c s : is_digit c = false -> decimal s = true -> free_of c s = true.
Proof.
  intros Hc. apply str_forall_impl. intros d Hd. apply negb_true_iff, Ascii.eqb_neq.
  intros ->. congruence.
Qed.

Lemma str_app_inj_l (c a b : string) : (c ++ a = c ++ b)%string -> a = b.
Proof. induction c as [|x c IH]; [done|]. cbn. intros [= H]. auto. Qed.

(** Splitting at the first separator. *)
Lemma first_sep_inj c a b p q :
  free_of c a = true -> free_of c b = true ->
  (a ++ String c p = b ++ String c q)%string -> a = b /\ p = q.
Proof.
  revert b. induction a as [|d a IH]; intros [|e b] Ha Hb E; cbn in E.
  - by injection E.
  - injection E as -> E. exfalso. unfold free_of in Hb. cbn in Hb.
    by rewrite Ascii.eqb_refl in Hb.
  - injection E as -> E. exfalso. unfold free_of in Ha. cbn in Ha.
    by rewrite Ascii.eqb_refl in Ha.
  - injection E as -> E. unfold free_of in *. cbn in Ha, Hb.
    apply andb_true_iff in Ha as [_ Ha]. apply andb_true_iff in Hb as [_ Hb].
    destruct (IH b Ha Hb E) as [-> ->]. done.
Qed.

Lemma pretty_sep_inj c a b p q :
  is_digit c = false -> 0 <= a -> 0 <= b ->
  (pretty a ++ String c p = pretty b ++ String c q)%string -> a = b /\ p = q.
Proof.
  intros Hc Ha Hb E. apply first_sep_inj in E as [E ->].
  - apply (inj pretty) in E. done.
  - by apply decimal_free_of, pretty_decimal.
  - by apply decimal_free_of, pretty_decimal.
Qed.
