(* ===== verification/Js.v ===== *)
(** JavaScript values as they come out of [JSON.parse] or a request body, and the
    string operations the server code applies to them. *)
From S2P Require Import Prelude Bytes Base64 Utf8.
From Stdlib Require Import Ascii.

(** [JUndef] is the value of an absent property. *)
Inductive jsval :=
| JUndef
| JNull
| JBool (b : bool)
| JNum (z : Z)
| JStr (s : jstr)
| JArr (l : list jsval)
| JObj (fields : list (jstr * jsval)).

(** [o.k] on an object read from JSON; own properties only, and an array has
    none of the properties the code asks for. *)
Fixpoint assoc {A} (k : jstr) (l : list (jstr * A)) : option A :=
  match l with
  | [] => None
  | (k', a) :: l' => if bool_decide (k = k') then Some a else assoc k l'
  end.

Definition prop (v : jsval) (k : string) : jsval :=
  match v with JObj fields => default JUndef (assoc (js k) fields) | _ => JUndef end.

(** [s.length]: astral characters count for two code units. *)
Definition js_length (s : jstr) : Z :=
  foldr (fun c n => (if c <? 65536 then 1 else 2) + n) 0 s.

(** White space and line terminators of ECMAScript. *)
Definition js_space (c : Z) : bool :=
  ((9 <=? c) && (c <=? 13)) || (c =? 32) || (c =? 160) || (c =? 5760) ||
  ((8192 <=? c) && (c <=? 8202)) || (c =? 8232) || (c =? 8233) || (c =? 8239) ||
  (c =? 8287) || (c =? 12288) || (c =? 65279).

Fixpoint trim_start (s : jstr) : jstr :=
  match s with c :: s' => if js_space c then trim_start s' else s | [] => [] end.
Definition trim (s : jstr) : jstr := rev (trim_start (rev (trim_start s))).

(** [s.indexOf(c)] and the two halves around it; [None] is -1. *)
Fixpoint cut (c : Z) (s : jstr) : option (jstr * jstr) :=
  match s with
  | [] => None
  | x :: s' =>
      if x =? c then Some ([], s')
      else match cut c s' with Some (a, b) => Some (x :: a, b) | None => None end
  end.

(** [s.split(c)] for a one-character separator. *)
Fixpoint split (c : Z) (s : jstr) : list jstr :=
  match s with
  | [] => [[]]
  | x :: s' =>
      if x =? c then [] :: split c s'
      else match split c s' with w :: ws => (x :: w) :: ws | [] => [[x]] end
  end.

Fixpoint startsWith (p s : jstr) : bool :=
  match p, s with
  | [], _ => true
  | a :: p', b :: s' => (a =? b) && startsWith p' s'
  | _ :: _, [] => false
  end.

(** [/[A-Za-z0-9_-]/] *)
Definition url_char (c : Z) : bool :=
  ((65 <=? c) && (c <=? 90)) || ((97 <=? c) && (c <=? 122)) || ((48 <=? c) && (c <=? 57)) ||
  (c =? 95) || (c =? 45).

(** The text as a byte string, when every character fits: what libsodium's
    [from_base64] reads. *)
Fixpoint of_js (s : jstr) : option string :=
  match s with
  | [] => Some ""%string
  | c :: s' =>
      if (0 <=? c) && (c <? 256) then String (chr c) <$> of_js s' else None
  end.

Lemma js_app a b : js (a ++ b)%string = js a ++ js b.
Proof. induction a as [|c a IH]; [done|]. exact (f_equal (cons (code c)) IH). Qed.

Lemma code_range c : 0 <= code c < 256.
Proof. unfold code. pose proof (N_ascii_bounded c). lia. Qed.

Lemma of_js_js s : of_js (js s) = Some s.
Proof.
  induction s as [|c s IH]; [done|]. cbn [js of_js]. pose proof (code_range c).
  rewrite IH. replace ((0 <=? code c) && (code c <? 256)) with true by lia.
  cbn. unfold chr, code. by rewrite N2Z.id, ascii_N_embedding.
Qed.

Lemma js_inj a b : js a = js b -> a = b.
Proof. intros E. apply (f_equal of_js) in E. rewrite !of_js_js in E. by simplify_eq. Qed.

Lemma url_char_js s : str_forall is_b64url_char s = true -> forallb url_char (js s) = true.
Proof.
  induction s as [|c s IH]; [done|]. cbn. intros H. apply andb_true_iff in H as [Hc Hs].
  rewrite IH by done. rewrite andb_true_r. revert Hc. clear.
  destruct c as [[] [] [] [] [] [] [] []]; vm_compute; auto.
Qed.

(** A separator outside the alphabet of the parts. *)
Lemma split_last c s : forallb (fun x => negb (x =? c)) s = true -> split c s = [s].
Proof.
  induction s as [|x s IH]; [done|]. cbn. intros H. bools. rewrite IH by done.
  rewrite (proj2 (Z.eqb_neq x c)) by done. done.
Qed.

Lemma split_word c w s :
  forallb (fun x => negb (x =? c)) w = true -> split c (w ++ c :: s) = w :: split c s.
Proof.
  induction w as [|x w IH]; cbn; intros H; [by rewrite Z.eqb_refl|]. bools.
  rewrite IH by done. by rewrite (proj2 (Z.eqb_neq x c)).
Qed.

Lemma cut_word c w s :
  forallb (fun x => negb (x =? c)) w = true -> cut c (w ++ c :: s) = Some (w, s).
Proof.
  induction w as [|x w IH]; cbn; intros H; [by rewrite Z.eqb_refl|]. bools.
  rewrite IH by done. by rewrite (proj2 (Z.eqb_neq x c)).
Qed.

Lemma url_not_colon w : forallb url_char w = true -> forallb (fun x => negb (x =? 58)) w = true.
Proof.
  intros H. apply forallb_forall. intros x Hx. rewrite forallb_forall in H. apply H in Hx.
  destruct (Z.eqb_spec x 58) as [->|]; [vm_compute in Hx; discriminate|done].
Qed.

Lemma startsWith_app p s : startsWith p (p ++ s) = true.
Proof. induction p as [|a p IH]; [done|]. cbn. by rewrite Z.eqb_refl. Qed.

Lemma startsWith_elem p s x : startsWith p s = true -> x ∈ p -> x ∈ s.
Proof.
  revert s. induction p as [|a p IH]; intros s Hs Hx; [by apply not_elem_of_nil in Hx|].
  destruct s as [|b s]; [done|]. cbn in Hs. bools. subst b.
  apply elem_of_cons in Hx as [->|Hx]; [by left|right; by apply IH].
Qed.

(** ** A [Map], in insertion order *)

(** [m.set(k, a)]: an existing key keeps its place. *)
Fixpoint map_set {A} (k : jstr) (a : A) (m : list (jstr * A)) : list (jstr * A) :=
  match m with
  | [] => [(k, a)]
  | (k', a') :: m' => if bool_decide (k = k') then (k', a) :: m' else (k', a') :: map_set k a m'
  end.

(** A [Set] filled in order. *)
Definition set_add (s : list jstr) (x : jstr) : list jstr :=
  if bool_decide (x ∈ s) then s else s ++ [x].
Definition set_of (l : list jstr) : list jstr := foldl set_add [] l.

Lemma assoc_set {A} k (a : A) m k' :
  assoc k' (map_set k a m) = if bool_decide (k' = k) then Some a else assoc k' m.
Proof.
  induction m as [|[x y] m IH]; cbn; [done|]. destruct (bool_decide (k = x)) eqn:Hx; cbn.
  - apply bool_decide_eq_true in Hx as <-. by case_bool_decide.
  - apply bool_decide_eq_false in Hx. rewrite IH. repeat case_bool_decide; congruence.
Qed.

Lemma map_set_keys {A} k (a : A) m x : x ∈ (map_set k a m).*1 <-> x = k \/ x ∈ m.*1.
Proof.
  induction m as [|[k' a'] m IH]; cbn; [set_solver|]. case_bool_decide; cbn; set_solver.
Qed.

Lemma map_set_nodup {A} k (a : A) m : NoDup m.*1 -> NoDup (map_set k a m).*1.
Proof.
  induction m as [|[k' a'] m IH]; cbn; intros H; [by apply NoDup_singleton|].
  apply NoDup_cons in H as [Hk Hm]. case_bool_decide; cbn; [by constructor|].
  constructor; [|by apply IH]. rewrite map_set_keys. naive_solver.
Qed.
#[export] Hint Resolve map_set_nodup : nyx.

Lemma map_set_elem {A} k (a : A) m x y :
  (x, y) ∈ map_set k a m -> (x = k /\ y = a) \/ (x, y) ∈ m.
Proof.
  induction m as [|[k' a'] m IH]; cbn; [set_solver|]. case_bool_decide; set_solver.
Qed.

Lemma assoc_elem {A} k (m : list (jstr * A)) a :
  assoc k m = Some a -> (k, a) ∈ m.
Proof.
  induction m as [|[x y] m IH]; cbn; [done|]. case_bool_decide; [|set_solver].
  intros [= ->]. subst. set_solver.
Qed.

Lemma assoc_nodup {A} k (m : list (jstr * A)) a :
  NoDup m.*1 -> (k, a) ∈ m -> assoc k m = Some a.
Proof.
  induction m as [|[x y] m IH]; cbn; intros Hn Ha; [by apply not_elem_of_nil in Ha|].
  apply NoDup_cons in Hn as [Hx Hn]. apply elem_of_cons in Ha as [[= -> ->]|Ha].
  - by rewrite bool_decide_eq_true_2.
  - rewrite bool_decide_eq_false_2; [by apply IH|]. intros ->. apply Hx.
    apply (list_elem_of_fmap_2 fst) in Ha. exact Ha.
Qed.

Lemma set_add_elem s x y : y ∈ set_add s x <-> y ∈ s \/ y = x.
Proof. unfold set_add. case_bool_decide; set_solver. Qed.

Lemma set_of_elem l x : x ∈ set_of l <-> x ∈ l.
Proof.
  unfold set_of. assert (H : forall s, x ∈ foldl set_add s l <-> x ∈ s \/ x ∈ l);
    [|rewrite H; set_solver].
  induction l as [|y l IH]; intros s; cbn; [set_solver|]. rewrite IH, set_add_elem. set_solver.
Qed.

Lemma set_of_nodup l : NoDup (set_of l).
Proof.
  unfold set_of. assert (H : forall s, NoDup s -> NoDup (foldl set_add s l)).
  { induction l as [|y l IH]; intros s Hs; [done|]. cbn. apply IH. unfold set_add.
    case_bool_decide; [done|]. apply NoDup_app. split_and!; [done| |by apply NoDup_singleton].
    set_solver. }
  apply H. constructor.
Qed.

Lemma map_set_new {A} k (a : A) m : assoc k m = None -> map_set k a m = m ++ [(k, a)].
Proof.
  induction m as [|[k' a'] m IH]; cbn; [done|]. case_bool_decide; [done|]. intros Hm. by rewrite IH.
Qed.

Lemma js_length_nonneg s : 0 <= js_length s.
Proof.
  induction s as [|c s IH]; [done|]. change (0 <= (if c <? 65536 then 1 else 2) + js_length s).
  destruct (c <? 65536); lia.
Qed.

Lemma js_length_js s : js_length (js s) = slen s.
Proof.
  induction s as [|c s IH]; [done|]. cbn [js]. unfold js_length in *. cbn [foldr]. rewrite IH.
  pose proof (code_range c). ztest. unfold slen. cbn [String.length]. lia.
Qed.

Lemma map_set_length {A} k (a : A) m :
  length (map_set k a m) = length m \/ length (map_set k a m) = S (length m).
Proof. induction m as [|[k' a'] m IH]; cbn; [by right|]. case_bool_decide; cbn; lia. Qed.

Lemma map_set_old {A} k (a b : A) m : assoc k m = Some b -> length (map_set k a m) = length m.
Proof.
  induction m as [|[k' a'] m IH]; cbn; [done|]. case_bool_decide; [done|]. intros Hm. cbn. by rewrite IH.
Qed.

Lemma map_set_not_nil {A} k (a : A) m : map_set k a m <> [].
Proof. destruct m as [|[k' a'] m]; cbn; [discriminate|]. case_bool_decide; discriminate. Qed.
