(* ===== verification/Ohttp.v ===== *)
(** packages/shared/src/ohttp.ts, codec half: QUIC varints (RFC 9000 §16),
    Binary HTTP messages (RFC 9292) and OHTTP key configurations (RFC 9458 §3),
    the gateway's target allowlist and header filter. The HPKE encapsulation
    built on top is in OhttpSeal.v. *)
From S2P Require Import Prelude Bytes Base64 Utf8.

Module Varint.

Definition MAX_SAFE_INTEGER : Z := 9007199254740991.

(** [encodeVarint]: shortest form, 8-byte varints are refused. *)
Definition encodeVarint (value : Z) : result bytes :=
  if (value <? 0) || (4294967295 <? value) then throw "varint di luar rentang"
  else if value <? 64 then Ok [z2b value]
  else if value <? 16384 then
    Ok [z2b (Z.lor 64 (Z.shiftr value 8)); z2b (Z.land value 255)]
  else if 1073741823 <? value then throw "varint terlalu besar"
  else Ok [z2b (Z.lor 128 (Z.shiftr value 24)); z2b (Z.land (Z.shiftr value 16) 255);
           z2b (Z.land (Z.shiftr value 8) 255); z2b (Z.land value 255)].

(** The loop [for (i = 1; i < length; i++) value = value * 256 + bytes[offset + i]]
    on the bytes that remain. The double arithmetic of the source is exact below
    2^53 and stays at or above 2^53 once it has left that range, so the safe
    integer test decides on the exact value. *)
Fixpoint varint_tail (value : Z) (l : bytes) : Z :=
  match l with [] => value | b :: l' => varint_tail (value * 256 + b2z b) l' end.

(** [decodeVarint]: value and number of bytes read. *)
Definition decodeVarint (b : bytes) (offset : Z) : result (Z * Z) :=
  if blen b <=? offset then throw "varint: buffer habis" else
  match u8_get b offset with
  | None => throw "varint: buffer habis"
  | Some first =>
      let length := Z.shiftl 1 (Z.shiftr first 6) in
      if blen b <? offset + length then throw "varint: buffer terpotong" else
      let value := varint_tail (Z.land first 63) (slice b (offset + 1) (offset + length)) in
      if MAX_SAFE_INTEGER <? value then throw "varint: nilai terlalu besar"
      else Ok (value, length)
  end.

End Varint.
Import Varint.

Module Bhttp.

Definition OhttpHeader : Type := jstr * jstr.

Record OhttpRequest := mkRequest {
  method : jstr; scheme : jstr; authority : jstr; path : jstr;
  req_headers : list OhttpHeader; req_content : bytes }.

Record OhttpResponse := mkResponse {
  status : Z; res_headers : list OhttpHeader; res_content : bytes }.

(** [concatBytes]: size the buffer, then copy each part at its offset. *)
Fixpoint concat_loop (out : bytes) (offset : Z) (parts : list bytes) : result bytes :=
  match parts with
  | [] => Ok out
  | p :: rest => out' ← u8_set out offset p; concat_loop out' (offset + blen p) rest
  end.
Definition concatBytes (parts : list bytes) : result bytes :=
  concat_loop (zeros (foldr (fun p n => blen p + n) 0 parts)) 0 parts.

Definition encodeLengthPrefixed (b : bytes) : result bytes :=
  n ← encodeVarint (blen b); concatBytes [n; b].

Definition encodeLengthPrefixedString (s : jstr) : result bytes :=
  encodeLengthPrefixed (utf8_encode s).

Definition nonempty {A} (l : list A) : bool := match l with [] => false | _ => true end.

Definition encodeField (h : OhttpHeader) : result (list bytes) :=
  let lower := toLowerCase h.1 in
  if negb (nonempty lower) then throw "bhttp: nama field kosong" else
  n ← encodeLengthPrefixedString lower;
  v ← encodeLengthPrefixedString h.2;
  Ok [n; v].

Definition encodeFieldSection (headers : list OhttpHeader) : result bytes :=
  parts ← mapR encodeField headers; concatBytes (concat parts).

(** The [Reader]: its buffer is fixed, its offset is threaded. *)
Definition rd_varint (b : bytes) (off : Z) : result (Z * Z) :=
  r ← decodeVarint b off; Ok (r.1, off + r.2).

Definition rd_bytesOf (b : bytes) (off len : Z) : result (bytes * Z) :=
  if (len <? 0) || (blen b <? off + len) then throw "bhttp: buffer terpotong"
  else Ok (slice b off (off + len), off + len).

Definition rd_string (b : bytes) (off : Z) : result (jstr * Z) :=
  n ← rd_varint b off;
  s ← rd_bytesOf b n.2 n.1;
  Ok (utf8_decode s.1, s.2).

(** The field loop. [room] is how many more fields may be pushed before the
    limit of 128 fields throws, so the source's own check bounds the loop. *)
Fixpoint field_loop (room : nat) (b : bytes) (off limit : Z) : result (list OhttpHeader * Z) :=
  if limit <=? off then Ok ([], off) else
  n ← rd_string b off;
  v ← rd_string b n.2;
  if negb (nonempty n.1) then throw "bhttp: nama field kosong" else
  match room with
  | O => throw "bhttp: terlalu banyak field"
  | S room' => r ← field_loop room' b v.2 limit; Ok ((n.1, v.1) :: r.1, r.2)
  end.

Definition decodeFieldSection (b : bytes) (off : Z) : result (list OhttpHeader * Z) :=
  n ← rd_varint b off;
  let limit := n.2 + n.1 in
  r ← field_loop 128 b n.2 limit;
  if negb (r.2 =? limit) then throw "bhttp: field section tidak konsisten" else Ok r.

Definition encodeBinaryHttpRequest (r : OhttpRequest) : result bytes :=
  headerSection ← encodeFieldSection (req_headers r);
  framing ← encodeVarint 0;
  m ← encodeLengthPrefixedString (method r);
  s ← encodeLengthPrefixedString (scheme r);
  a ← encodeLengthPrefixedString (authority r);
  p ← encodeLengthPrefixedString (path r);
  hn ← encodeVarint (blen headerSection);
  cn ← encodeVarint (blen (req_content r));
  trailer ← encodeVarint 0;
  concatBytes [framing; m; s; a; p; hn; headerSection; cn; req_content r; trailer].

(** The optional trailer at the end of a message. *)
Definition rd_trailer (b : bytes) (off : Z) : result unit :=
  if blen b <=? off then Ok tt else
  t ← rd_varint b off;
  if negb (t.1 =? 0) then throw "bhttp: trailer tidak didukung" else Ok tt.

Definition decodeBinaryHttpRequest (b : bytes) : result OhttpRequest :=
  f ← rd_varint b 0;
  if negb (f.1 =? 0) then throw "bhttp: framing request harus 0" else
  m ← rd_string b f.2;
  s ← rd_string b m.2;
  a ← rd_string b s.2;
  p ← rd_string b a.2;
  h ← decodeFieldSection b p.2;
  cn ← rd_varint b h.2;
  c ← rd_bytesOf b cn.2 cn.1;
  _ ← rd_trailer b c.2;
  if negb (nonempty m.1) || negb (nonempty s.1) || negb (nonempty p.1)
  then throw "bhttp: request tidak lengkap"
  else Ok (mkRequest m.1 s.1 a.1 p.1 h.1 c.1).

Definition encodeBinaryHttpResponse (r : OhttpResponse) : result bytes :=
  headerSection ← encodeFieldSection (res_headers r);
  framing ← encodeVarint 1;
  st ← encodeVarint (status r);
  hn ← encodeVarint (blen headerSection);
  cn ← encodeVarint (blen (res_content r));
  trailer ← encodeVarint 0;
  concatBytes [framing; st; hn; headerSection; cn; res_content r; trailer].

Definition decodeBinaryHttpResponse (b : bytes) : result OhttpResponse :=
  f ← rd_varint b 0;
  if negb (f.1 =? 1) then throw "bhttp: framing response harus 1" else
  st ← rd_varint b f.2;
  if (st.1 <? 200) || (599 <? st.1) then throw "bhttp: status tidak sah" else
  h ← decodeFieldSection b st.2;
  cn ← rd_varint b h.2;
  c ← rd_bytesOf b cn.2 cn.1;
  _ ← rd_trailer b c.2;
  Ok (mkResponse st.1 h.1 c.1).

End Bhttp.

(** ** Varint lemmas *)

Definition prefix_ok (x : Z) : bool :=
  (Z.lor 64 x =? 64 + x) && (Z.lor 128 x =? 128 + x) &&
  (Z.shiftr x 6 =? 0) && (Z.shiftr (64 + x) 6 =? 1) && (Z.shiftr (128 + x) 6 =? 2) &&
  (Z.land x 63 =? x) && (Z.land (64 + x) 63 =? x) && (Z.land (128 + x) 63 =? x).

Lemma prefix_all x : 0 <= x < 64 -> prefix_ok x = true.
Proof. apply six_case. vm_compute. reflexivity. Qed.

Lemma prefix_facts x : 0 <= x < 64 ->
  (Z.lor 64 x = 64 + x /\ Z.lor 128 x = 128 + x) /\
  (Z.shiftr x 6 = 0 /\ Z.shiftr (64 + x) 6 = 1 /\ Z.shiftr (128 + x) 6 = 2) /\
  (Z.land x 63 = x /\ Z.land (64 + x) 63 = x /\ Z.land (128 + x) 63 = x).
Proof.
  intros Hx. pose proof (prefix_all x Hx) as H. unfold prefix_ok in H. bools. auto 10.
Qed.

Lemma land_255 v : Z.land v 255 = v mod 256.
Proof. change 255 with (Z.ones 8). apply Z.land_ones. lia. Qed.

Lemma encodeVarint_range v e : encodeVarint v = Ok e -> 0 <= v <= 1073741823.
Proof.
  unfold encodeVarint. intros H.
  repeat match type of H with (if ?b then _ else _) = _ => destruct b eqn:? end;
    try discriminate; bools; lia.
Qed.

(** The three shapes of an encoded varint, with the arithmetic done. *)
Lemma encodeVarint_spec v :
  0 <= v <= 1073741823 ->
  encodeVarint v = Ok
    (if v <? 64 then [z2b v]
     else if v <? 16384 then [z2b (64 + v / 256); z2b v]
     else [z2b (128 + v / 16777216); z2b (v / 65536); z2b (v / 256); z2b v]).
Proof.
  intros Hv. unfold encodeVarint.
  replace ((v <? 0) || (4294967295 <? v)) with false by lia.
  destruct (Z.ltb_spec v 64); [done|].
  destruct (Z.ltb_spec v 16384).
  - rewrite !Z.shiftr_div_pow2, land_255, z2b_mod by lia. change (2 ^ 8) with 256.
    by rewrite (proj1 (proj1 (prefix_facts (v / 256) ltac:(dlia)))).
  - replace (1073741823 <? v) with false by lia.
    rewrite !Z.shiftr_div_pow2, !land_255, !z2b_mod by lia.
    change (2 ^ 24) with 16777216. change (2 ^ 16) with 65536. change (2 ^ 8) with 256.
    by rewrite (proj2 (proj1 (prefix_facts (v / 16777216) ltac:(dlia)))).
Qed.

Lemma u8_get_at pre x post : u8_get (pre ++ x :: post) (blen pre) = Some (b2z x).
Proof.
  unfold u8_get, blen. ztest. rewrite Nat2Z.id, list_lookup_middle; done.
Qed.

(** Decoding a buffer whose first byte announces [1 + length rest] bytes. *)
Lemma decodeVarint_at pre x rest post v :
  Z.shiftl 1 (Z.shiftr (b2z x) 6) = 1 + blen rest ->
  varint_tail (Z.land (b2z x) 63) rest = v -> v <= MAX_SAFE_INTEGER ->
  decodeVarint (pre ++ (x :: rest) ++ post) (blen pre) = Ok (v, 1 + blen rest).
Proof.
  intros Hl Hv Hs. unfold decodeVarint.
  rewrite !blen_app, blen_cons. pose proof (blen_nonneg rest). pose proof (blen_nonneg post).
  replace (_ <=? _) with false by lia. cbn [app]. rewrite u8_get_at, Hl.
  replace (_ <? _) with false by (rewrite ?blen_app in *; lia).
  replace (slice _ _ _) with rest.
  - rewrite Hv. by replace (_ <? _) with false by lia.
  - symmetry. change (x :: rest ++ post) with ([x] ++ rest ++ post). rewrite app_assoc.
    apply slice_app_at; blia.
Qed.

Lemma varint_tail_bytes v :
  0 <= v <= 1073741823 ->
  varint_tail (v / 16777216) [z2b (v / 65536); z2b (v / 256); z2b v] = v.
Proof. intros. cbn. rewrite !b2z_z2b. dlia. Qed.

(** Whatever surrounds it, an encoded varint decodes to its value and length. *)
Lemma decode_encodeVarint v e pre post :
  encodeVarint v = Ok e ->
  decodeVarint (pre ++ e ++ post) (blen pre) = Ok (v, blen e).
Proof.
  intros H. pose proof (encodeVarint_range _ _ H) as Hv.
  rewrite encodeVarint_spec in H by lia. injection H as <-.
  destruct (Z.ltb_spec v 64); [|destruct (Z.ltb_spec v 16384)].
  - destruct (prefix_facts v ltac:(lia)) as (_ & (Hs & _) & (Hm & _)).
    apply (decodeVarint_at pre _ []); rewrite ?b2z_small by lia; cbn [varint_tail];
      unfold MAX_SAFE_INTEGER; rewrite ?Hs; done || lia.
  - destruct (prefix_facts (v / 256) ltac:(dlia)) as (_ & (_ & Hs & _) & (_ & Hm & _)).
    apply (decodeVarint_at pre _ [_]); rewrite ?b2z_small by dlia; cbn [varint_tail];
      unfold MAX_SAFE_INTEGER; rewrite ?Hs; try (done || lia). rewrite Hm, b2z_z2b. dlia.
  - destruct (prefix_facts (v / 16777216) ltac:(dlia)) as (_ & (_ & _ & Hs) & (_ & _ & Hm)).
    apply (decodeVarint_at pre _ [_; _; _]); rewrite ?b2z_small by dlia;
      unfold MAX_SAFE_INTEGER; rewrite ?Hs; try (done || lia).
    rewrite Hm. by apply varint_tail_bytes.
Qed.

(** ** Binary HTTP lemmas *)
Import Bhttp.

Lemma concat_loop_ok done n parts :
  n = foldr (fun p n => blen p + n) 0 parts ->
  concat_loop (done ++ zeros n) (blen done) parts = Ok (done ++ concat parts).
Proof.
  revert done n. induction parts as [|p ps IH]; intros d n ->; cbn [concat_loop foldr concat].
  - done.
  - assert (0 <= foldr (fun p n => blen p + n) 0 ps) by (clear; induction ps; cbn; blia).
    pose proof (blen_nonneg p).
    rewrite u8_set_fill by lia. cbn [mbind result_bind].
    replace (blen d + blen p) with (blen (d ++ p)) by blia.
    rewrite IH by lia. by rewrite app_assoc.
Qed.

Lemma concatBytes_ok parts : concatBytes parts = Ok (concat parts).
Proof. apply (concat_loop_ok [] _ parts). done. Qed.

(** The reader of [b] at [off] has [rest] in front of it. *)
Definition at_rest (b : bytes) (off : Z) (rest : bytes) : Prop :=
  exists pre, b = pre ++ rest /\ off = blen pre.

Lemma at_rest_0 b : at_rest b 0 b.
Proof. by exists []. Qed.

Lemma at_rest_step b off e rest : at_rest b off (e ++ rest) -> at_rest b (off + blen e) rest.
Proof.
  intros (pre & -> & ->). exists (pre ++ e). rewrite blen_app, app_assoc. done.
Qed.

Lemma at_rest_end b off : at_rest b off [] -> off = blen b.
Proof. intros (pre & -> & ->). by rewrite app_nil_r. Qed.

Lemma at_rest_bound b off rest : at_rest b off rest -> off + blen rest = blen b.
Proof. intros (pre & -> & ->). by rewrite blen_app. Qed.

Lemma rd_varint_at b off v e rest :
  encodeVarint v = Ok e -> at_rest b off (e ++ rest) ->
  rd_varint b off = Ok (v, off + blen e).
Proof.
  intros He (pre & -> & ->). unfold rd_varint. by rewrite (decode_encodeVarint v e).
Qed.

Lemma rd_bytesOf_at b off e rest :
  at_rest b off (e ++ rest) -> rd_bytesOf b off (blen e) = Ok (e, off + blen e).
Proof.
  intros (pre & -> & ->). unfold rd_bytesOf.
  replace (_ || _) with false by (rewrite !blen_app; pose proof (blen_nonneg e);
    pose proof (blen_nonneg rest); lia).
  by rewrite slice_app_at.
Qed.

Lemma encodeLengthPrefixed_inv b e :
  encodeLengthPrefixed b = Ok e -> exists n, encodeVarint (blen b) = Ok n /\ e = n ++ b.
Proof.
  unfold encodeLengthPrefixed. intros H. unbind. rewrite concatBytes_ok in H. unbind.
  exists a. split; [done|]. cbn. by rewrite app_nil_r.
Qed.

Lemma rd_string_at b off s e rest :
  text_ok s = true -> encodeLengthPrefixedString s = Ok e -> at_rest b off (e ++ rest) ->
  rd_string b off = Ok (s, off + blen e).
Proof.
  intros Hs He Hat. destruct (encodeLengthPrefixed_inv _ _ He) as (n & Hn & ->).
  rewrite <- app_assoc in Hat. unfold rd_string.
  rewrite (rd_varint_at _ _ _ _ _ Hn Hat). cbn.
  rewrite (rd_bytesOf_at _ _ _ rest) by (by apply at_rest_step). cbn.
  rewrite utf8_decode_encode by done. by rewrite blen_app, Z.add_assoc.
Qed.

Definition header_ok (h : OhttpHeader) : bool :=
  text_ok (toLowerCase h.1) && text_ok h.2.
Definition lower_header (h : OhttpHeader) : OhttpHeader := (toLowerCase h.1, h.2).

Lemma encodeField_inv h ps :
  encodeField h = Ok ps ->
  exists n v, ps = [n; v] /\ nonempty (toLowerCase h.1) = true /\
    encodeLengthPrefixedString (toLowerCase h.1) = Ok n /\
    encodeLengthPrefixedString h.2 = Ok v.
Proof.
  unfold encodeField. intros H. destruct (nonempty (toLowerCase h.1)) eqn:E; [|done].
  cbn in H. unbind. eauto 10.
Qed.

Lemma encodeLengthPrefixed_pos s e : encodeLengthPrefixedString s = Ok e -> 0 < blen e.
Proof.
  intros H. destruct (encodeLengthPrefixed_inv _ _ H) as (n & Hn & ->).
  pose proof (encodeVarint_range _ _ Hn). rewrite encodeVarint_spec in Hn by lia.
  injection Hn as <-. pose proof (blen_nonneg (utf8_encode s)).
  repeat case_match; blia.
Qed.

Lemma field_loop_ok hs : forall parts room b off rest,
  mapR encodeField hs = Ok parts -> forallb header_ok hs = true ->
  (length hs <= room)%nat ->
  at_rest b off (concat (concat parts) ++ rest) ->
  let limit := off + blen (concat (concat parts)) in
  field_loop room b off limit = Ok (map lower_header hs, limit).
Proof.
  induction hs as [|h hs IH]; intros parts room b off rest Hm Hok Hr Hat limit; cbn in Hm, Hok.
  - injection Hm as <-. subst limit. cbn. rewrite Z.add_0_r.
    destruct room; cbn; by replace (off <=? off) with true by lia.
  - unbind. apply andb_true_iff in Hok as [Hh Hok]. unfold header_ok in Hh. bools.
    destruct (encodeField_inv _ _ E) as (n & v & -> & Hne & Hn & Hv).
    cbn [concat app] in Hat. rewrite <- !app_assoc in Hat.
    pose proof (encodeLengthPrefixed_pos _ _ Hn). pose proof (encodeLengthPrefixed_pos _ _ Hv).
    assert (Hl : limit = off + blen n + blen v + blen (concat (concat a0)))
      by (subst limit; cbn [concat app]; rewrite !blen_app; lia).
    pose proof (blen_nonneg (concat (concat a0))).
    pose proof (at_rest_step _ _ _ _ Hat) as Hat1.
    pose proof (at_rest_step _ _ _ _ Hat1) as Hat2.
    destruct room as [|room]; [cbn in Hr; lia|]. cbn [length] in Hr.
    cbn [field_loop]. replace (limit <=? off) with false by lia.
    rewrite (rd_string_at _ _ _ _ _ H Hn Hat). cbn.
    rewrite (rd_string_at _ _ _ _ _ H0 Hv Hat1). cbn. rewrite Hne. cbn.
    rewrite Hl, (IH _ room _ _ rest) by (done || lia). done.
Qed.

Lemma decodeFieldSection_ok b off hs sec n rest :
  encodeFieldSection hs = Ok sec -> encodeVarint (blen sec) = Ok n ->
  forallb header_ok hs = true -> (length hs <= 128)%nat ->
  at_rest b off (n ++ sec ++ rest) ->
  decodeFieldSection b off = Ok (map lower_header hs, off + blen n + blen sec).
Proof.
  unfold encodeFieldSection, decodeFieldSection. intros H Hn Hok Hl Hat. unbind.
  rewrite concatBytes_ok in H. injection H as <-.
  rewrite (rd_varint_at _ _ _ _ _ Hn Hat).
  apply at_rest_step in Hat. cbn [mbind result_bind fst snd].
  rewrite (field_loop_ok _ _ _ _ _ _ E Hok Hl Hat). cbn [mbind result_bind fst snd].
  by rewrite Z.eqb_refl.
Qed.

Lemma rd_trailer_at b off e :
  encodeVarint 0 = Ok e -> at_rest b off e -> rd_trailer b off = Ok tt.
Proof.
  intros He Hat. rewrite <- (app_nil_r e) in Hat. unfold rd_trailer.
  pose proof (at_rest_bound _ _ _ Hat). rewrite app_nil_r in H.
  rewrite encodeVarint_spec in He by lia. injection He as He. subst e.
  replace (blen b <=? off) with false by (cbn in *; blia).
  by rewrite (rd_varint_at _ _ 0 [z2b 0] []) by done.
Qed.

(** Requests the codec carries faithfully: text the platform's encoder and
    decoder agree on, the three mandatory parts present, at most 128 fields. *)
Definition request_ok (r : OhttpRequest) : bool :=
  text_ok (method r) && text_ok (scheme r) && text_ok (authority r) && text_ok (path r) &&
  nonempty (method r) && nonempty (scheme r) && nonempty (path r) &&
  forallb header_ok (req_headers r) && (length (req_headers r) <=? 128)%nat.
Definition response_ok (r : OhttpResponse) : bool :=
  (200 <=? status r) && (status r <=? 599) &&
  forallb header_ok (res_headers r) && (length (res_headers r) <=? 128)%nat.

(** What the receiver sees: field names in lower case. *)
Definition lower_request (r : OhttpRequest) : OhttpRequest :=
  mkRequest (method r) (scheme r) (authority r) (path r)
    (map lower_header (req_headers r)) (req_content r).
Definition lower_response (r : OhttpResponse) : OhttpResponse :=
  mkResponse (status r) (map lower_header (res_headers r)) (res_content r).

Ltac next_part Hat := apply at_rest_step in Hat; cbn [mbind result_bind fst snd negb orb].

Lemma request_roundtrip r b :
  request_ok r = true -> encodeBinaryHttpRequest r = Ok b ->
  decodeBinaryHttpRequest b = Ok (lower_request r).
Proof.
  unfold request_ok, encodeBinaryHttpRequest. intros Hok H.
  rewrite !andb_true_iff, Nat.leb_le in Hok.
  destruct Hok as ((((((((Tm & Ts) & Ta) & Tp) & Nm) & Ns) & Np) & Th) & Tl). unbind.
  rewrite concatBytes_ok in H. injection H as Hb.
  pose proof (at_rest_0 b) as Hat. rewrite <- Hb in Hat at 2. cbn [concat] in Hat.
  unfold decodeBinaryHttpRequest.
  rewrite (rd_varint_at _ _ _ _ _ E0 Hat). next_part Hat.
  rewrite (rd_string_at _ _ _ _ _ Tm E1 Hat). next_part Hat.
  rewrite (rd_string_at _ _ _ _ _ Ts E2 Hat). next_part Hat.
  rewrite (rd_string_at _ _ _ _ _ Ta E3 Hat). next_part Hat.
  rewrite (rd_string_at _ _ _ _ _ Tp E4 Hat). next_part Hat.
  rewrite (decodeFieldSection_ok _ _ _ _ _ _ E E5 Th Tl Hat). do 2 next_part Hat.
  rewrite (rd_varint_at _ _ _ _ _ E6 Hat). next_part Hat.
  rewrite (rd_bytesOf_at _ _ _ _ Hat). next_part Hat.
  rewrite app_nil_r in Hat. rewrite (rd_trailer_at _ _ _ E0 Hat). cbn.
  by rewrite Nm, Ns, Np.
Qed.

Lemma response_roundtrip r b :
  response_ok r = true -> encodeBinaryHttpResponse r = Ok b ->
  decodeBinaryHttpResponse b = Ok (lower_response r).
Proof.
  unfold response_ok, encodeBinaryHttpResponse. intros Hok H.
  rewrite !andb_true_iff, Nat.leb_le in Hok. destruct Hok as (((Hlo & Hhi) & Th) & Tl). bools.
  unbind. rewrite concatBytes_ok in H. injection H as Hb.
  pose proof (at_rest_0 b) as Hat. rewrite <- Hb in Hat at 2. cbn [concat] in Hat.
  unfold decodeBinaryHttpResponse.
  rewrite (rd_varint_at _ _ _ _ _ E0 Hat). next_part Hat.
  rewrite (rd_varint_at _ _ _ _ _ E1 Hat). next_part Hat.
  replace (_ || _) with false by lia.
  rewrite (decodeFieldSection_ok _ _ _ _ _ _ E E2 Th Tl Hat). do 2 next_part Hat.
  rewrite (rd_varint_at _ _ _ _ _ E3 Hat). next_part Hat.
  rewrite (rd_bytesOf_at _ _ _ _ Hat). next_part Hat.
  rewrite app_nil_r in Hat. by rewrite (rd_trailer_at _ _ _ E4 Hat).
Qed.

(** Binary HTTP round trip, requests. Whatever [encodeBinaryHttpRequest]
    produces for a request with well-formed text, non-empty method, scheme and
    path and at most 128 fields, [decodeBinaryHttpRequest] reads back as that
    request with its field names in lower case. *)
Theorem bhttp_request_roundtrip r b :
  request_ok r = true -> encodeBinaryHttpRequest r = Ok b ->
  decodeBinaryHttpRequest b = Ok (lower_request r).
Proof. apply request_roundtrip. Qed.

(** Binary HTTP round trip, responses (status 200 to 599). *)
Theorem bhttp_response_roundtrip r b :
  response_ok r = true -> encodeBinaryHttpResponse r = Ok b ->
  decodeBinaryHttpResponse b = Ok (lower_response r).
Proof. apply response_roundtrip. Qed.

Definition sample_request : OhttpRequest :=
  mkRequest (js "POST") (js "https") (js "nyx.app") (js "/api/groups/sync")
    [(js "Content-Type", js "application/json")] (ascii_bytes "{}").
Definition sample_response : OhttpResponse :=
  mkResponse 200 [(js "content-type", js "text/plain")] (ascii_bytes "ok").

Lemma bhttp_request_roundtrip_witness :
  match encodeBinaryHttpRequest sample_request with
  | Ok b => decodeBinaryHttpRequest b = Ok (lower_request sample_request)
  | Err _ => False
  end.
Proof.
  destruct (encodeBinaryHttpRequest sample_request) as [b|] eqn:E.
  - apply (bhttp_request_roundtrip sample_request b); [vm_compute; reflexivity|exact E].
  - vm_compute in E. discriminate E.
Defined.

Lemma bhttp_response_roundtrip_witness :
  match encodeBinaryHttpResponse sample_response with
  | Ok b => decodeBinaryHttpResponse b = Ok (lower_response sample_response)
  | Err _ => False
  end.
Proof.
  destruct (encodeBinaryHttpResponse sample_response) as [b|] eqn:E.
  - apply (bhttp_response_roundtrip sample_response b); [vm_compute; reflexivity|exact E].
  - vm_compute in E. discriminate E.
Defined.
