(* ===== verification/OhttpConfig.v ===== *)
(** packages/shared/src/ohttp.ts, configuration half: gateway key
    configurations and their collection (RFC 9458 §3), the choice of the key the
    client uses, the target allowlist and the forwarded-header filter. *)
From S2P Require Import Prelude Bytes Base64 Utf8 Ohttp.
Import Bhttp.

Module KeyConfig.

Definition OHTTP_MAX_KEY_CONFIGS : nat := 4.
Definition OHTTP_GATEWAY_KEY_BYTES : Z := 65.

Record OhttpKeyConfig := mkConfig {
  keyId : Z; kemId : Z; kdfId : Z; aeadId : Z; publicKey : bytes }.

Definition encodeOhttpKeyConfig (config : OhttpKeyConfig) : result bytes :=
  if negb (blen (publicKey config) =? OHTTP_GATEWAY_KEY_BYTES)
  then throw "ohttp: public key harus 65 byte" else
  let out := zeros (1 + 2 + OHTTP_GATEWAY_KEY_BYTES + 2 + 4) in
  let out := u8_store out 0 (keyId config) in
  out ← set_u16 out 1 (kemId config);
  out ← u8_set out 3 (publicKey config);
  out ← set_u16 out (3 + OHTTP_GATEWAY_KEY_BYTES) 4;
  out ← set_u16 out (3 + OHTTP_GATEWAY_KEY_BYTES + 2) (kdfId config);
  set_u16 out (3 + OHTTP_GATEWAY_KEY_BYTES + 4) (aeadId config).

Definition decodeOhttpKeyConfig (config : bytes) : result OhttpKeyConfig :=
  if blen config <? 3 + OHTTP_GATEWAY_KEY_BYTES + 6
  then throw "ohttp: key config terlalu pendek" else
  let pk := slice config 3 (3 + OHTTP_GATEWAY_KEY_BYTES) in
  if negb (blen pk =? OHTTP_GATEWAY_KEY_BYTES) then throw "ohttp: public key terpotong" else
  symLength ← get_u16 config (3 + OHTTP_GATEWAY_KEY_BYTES);
  if symLength <? 4 then throw "ohttp: algoritma simetris tidak ada" else
  kem ← get_u16 config 1;
  kdf ← get_u16 config (3 + OHTTP_GATEWAY_KEY_BYTES + 2);
  aead ← get_u16 config (3 + OHTTP_GATEWAY_KEY_BYTES + 4);
  match u8_get config 0 with
  | Some kid => Ok (mkConfig kid kem kdf aead pk)
  | None => throw "ohttp: key config terlalu pendek"
  end.

(** The loop of [encodeOhttpKeyConfigCollection]: no key id may repeat. *)
Fixpoint encode_configs (ids : list Z) (configs : list OhttpKeyConfig) : result (list bytes) :=
  match configs with
  | [] => Ok []
  | c :: rest =>
      if existsb (Z.eqb (keyId c)) ids then throw "ohttp: key id duplikat" else
      e ← encodeOhttpKeyConfig c;
      es ← encode_configs (keyId c :: ids) rest;
      Ok (e :: es)
  end.

Fixpoint write_configs (out : bytes) (offset : Z) (encoded : list bytes) : result bytes :=
  match encoded with
  | [] => Ok out
  | b :: rest =>
      out ← set_u16 out offset (blen b);
      out ← u8_set out (offset + 2) b;
      write_configs out (offset + 2 + blen b) rest
  end.

Definition encodeOhttpKeyConfigCollection (configs : list OhttpKeyConfig) : result bytes :=
  match configs with
  | [] => throw "ohttp: collection kosong"
  | _ =>
      if (OHTTP_MAX_KEY_CONFIGS <? length configs)%nat then throw "ohttp: maksimal key config" else
      encoded ← encode_configs [] configs;
      let total := foldr (fun b n => 2 + blen b + n) 0 encoded in
      write_configs (zeros total) 0 encoded
  end.

(** The decoding loop; [room] is how many configurations may still be pushed
    before the limit throws. *)
Fixpoint decode_configs (room : nat) (b : bytes) (offset : Z) : result (list OhttpKeyConfig) :=
  if blen b <=? offset then Ok [] else
  if blen b <? offset + 2 then throw "ohttp: panjang config terpotong" else
  len ← get_u16 b offset;
  let offset := offset + 2 in
  if (len <? 3) || (blen b <? offset + len) then throw "ohttp: panjang config tidak sah" else
  c ← decodeOhttpKeyConfig (slice b offset (offset + len));
  match room with
  | O => throw "ohttp: terlalu banyak key config"
  | S room' => cs ← decode_configs room' b (offset + len); Ok (c :: cs)
  end.

Definition decodeOhttpKeyConfigCollection (b : bytes) : result (list OhttpKeyConfig) :=
  if blen b <? 2 then throw "ohttp: key collection terlalu pendek" else
  configs ← decode_configs OHTTP_MAX_KEY_CONFIGS b 0;
  match configs with
  | [] => throw "ohttp: collection kosong"
  | _ => Ok configs
  end.

(** [reduce]: the first configuration of the highest key id. *)
Definition selectOhttpKeyConfig (configs : list OhttpKeyConfig) : result OhttpKeyConfig :=
  match configs with
  | [] => throw "ohttp: collection kosong"
  | c :: rest =>
      Ok (foldl (fun best item => if keyId best <? keyId item then item else best) c rest)
  end.

End KeyConfig.

Module Gateway.

Definition OHTTP_SYNC_MAX_BODY_BYTES : Z := 64 * 1024.
Definition OHTTP_KT_SEARCH_MAX_BODY_BYTES : Z := 4 * 1024.

(** [path.split('?')[0]] *)
Fixpoint pathname (s : jstr) : jstr :=
  match s with
  | [] => []
  | c :: s' => if c =? 63 then [] else c :: pathname s'
  end.

(** A rule of the allowlist: its pattern is an exact path, or a prefix followed
    by one id of 1 to 64 base64url characters. *)
Inductive pattern :=
| Exact (p : jstr)
| PrefixId (p : jstr).

Definition is_id_char (c : Z) : bool :=
  ((65 <=? c) && (c <=? 90)) || ((97 <=? c) && (c <=? 122)) ||
  ((48 <=? c) && (c <=? 57)) || (c =? 95) || (c =? 45).

Fixpoint strip_prefix (p s : jstr) : option jstr :=
  match p, s with
  | [], _ => Some s
  | c :: p', d :: s' => if c =? d then strip_prefix p' s' else None
  | _ :: _, [] => None
  end.

Definition test (pat : pattern) (s : jstr) : bool :=
  match pat with
  | Exact p => bool_decide (s = p)
  | PrefixId p =>
      match strip_prefix p s with
      | Some id => (1 <=? length id)%nat && (length id <=? 64)%nat && forallb is_id_char id
      | None => false
      end
  end.

Definition OHTTP_DEFAULT_ALLOWLIST : list (jstr * pattern) :=
  [(js "GET", Exact (js "/api/users/search"));
   (js "GET", PrefixId (js "/api/keys/prekey-bundle/"));
   (js "POST", Exact (js "/api/pir/query"));
   (js "POST", Exact (js "/api/groups/sync"));
   (js "POST", Exact (js "/api/keys/kt/search"))].

Definition ohttpBodyLimitFor (p : jstr) : option Z :=
  let pn := pathname p in
  if bool_decide (pn = js "/api/groups/sync") then Some OHTTP_SYNC_MAX_BODY_BYTES
  else if bool_decide (pn = js "/api/keys/kt/search") then Some OHTTP_KT_SEARCH_MAX_BODY_BYTES
  else None.

Definition isOhttpTargetAllowed (m p : jstr) (rules : list (jstr * pattern)) : bool :=
  let upper := toUpperCase m in
  let pn := pathname p in
  existsb (fun rule => bool_decide (rule.1 = upper) && test rule.2 pn) rules.

Definition FORBIDDEN_FORWARD_HEADERS : list jstr :=
  map js ["host"; "connection"; "content-length"; "transfer-encoding"; "keep-alive";
    "proxy-authorization"; "proxy-connection"; "te"; "trailer"; "upgrade"; "forwarded";
    "x-forwarded-for"; "x-forwarded-host"; "x-forwarded-proto"; "x-real-ip";
    "cf-connecting-ip"; "true-client-ip"].

Definition sanitizeOhttpForwardHeaders (headers : list OhttpHeader) : list OhttpHeader :=
  List.filter (fun h => negb (existsb (fun f => bool_decide (f = toLowerCase h.1))
    FORBIDDEN_FORWARD_HEADERS)) headers.

End Gateway.

(** ** Key configurations *)
Import KeyConfig.

(** Values that fit their wire fields. *)
Definition config_ok (c : OhttpKeyConfig) : bool :=
  (0 <=? keyId c) && (keyId c <? 256) && (0 <=? kemId c) && (kemId c <? 65536) &&
  (0 <=? kdfId c) && (kdfId c <? 65536) && (0 <=? aeadId c) && (aeadId c <? 65536).

Definition config_bytes (c : OhttpKeyConfig) : bytes :=
  [z2b (keyId c)] ++ be16 (kemId c) ++ publicKey c ++ be16 4 ++ be16 (kdfId c) ++ be16 (aeadId c).

Lemma set_u16_fill a n v off :
  off = blen a -> 2 <= n -> set_u16 (a ++ zeros n) off v = Ok ((a ++ be16 v) ++ zeros (n - 2)).
Proof. intros -> Hn. unfold set_u16. by rewrite u8_set_fill. Qed.

Lemma encodeOhttpKeyConfig_eq c :
  blen (publicKey c) = OHTTP_GATEWAY_KEY_BYTES ->
  encodeOhttpKeyConfig c = Ok (config_bytes c).
Proof.
  unfold OHTTP_GATEWAY_KEY_BYTES. intros Hl. unfold encodeOhttpKeyConfig, OHTTP_GATEWAY_KEY_BYTES.
  rewrite Hl. cbn [Z.eqb Pos.eqb negb]. rewrite u8_store_first by lia.
  rewrite set_u16_fill by done. rewrite bind_ok.
  rewrite u8_set_fill' by (done || lia). rewrite bind_ok.
  rewrite set_u16_fill by (blia || lia). rewrite bind_ok.
  rewrite set_u16_fill by (blia || lia). rewrite bind_ok.
  rewrite set_u16_fill by (blia || lia).
  rewrite Hl. change (zeros _) with (@nil byte). rewrite app_nil_r. unfold config_bytes. by rewrite <- !app_assoc.
Qed.

Lemma blen_config_bytes c :
  blen (publicKey c) = OHTTP_GATEWAY_KEY_BYTES -> blen (config_bytes c) = 74.
Proof. unfold config_bytes, OHTTP_GATEWAY_KEY_BYTES. intros H. blia. Qed.

Lemma decode_config_bytes c :
  blen (publicKey c) = OHTTP_GATEWAY_KEY_BYTES -> config_ok c = true ->
  decodeOhttpKeyConfig (config_bytes c) = Ok c.
Proof.
  intros Hl Hok. pose proof (blen_config_bytes c Hl) as Hb.
  unfold OHTTP_GATEWAY_KEY_BYTES in Hl. unfold config_ok in Hok. bools.
  unfold decodeOhttpKeyConfig, OHTTP_GATEWAY_KEY_BYTES. rewrite Hb. cbn [Z.ltb Z.compare].
  set (k := [z2b (keyId c)]) in *. set (b := config_bytes c) in *.
  rewrite (slice_split b (k ++ be16 (kemId c)) (publicKey c)
    (be16 4 ++ be16 (kdfId c) ++ be16 (aeadId c))) by (split_app || (subst k; blia)).
  rewrite Hl. cbn [Z.eqb Pos.eqb negb].
  rewrite (get_u16_split b (k ++ be16 (kemId c) ++ publicKey c)
    (be16 (kdfId c) ++ be16 (aeadId c)) (3 + 65) 4) by (split_app || (subst k; blia)).
  rewrite bind_ok. cbn [Z.ltb Z.compare Pos.compare Pos.compare_cont].
  rewrite (get_u16_split b k (publicKey c ++ be16 4 ++ be16 (kdfId c) ++ be16 (aeadId c))
    1 (kemId c)) by (split_app || lia).
  rewrite bind_ok.
  rewrite (get_u16_split b (k ++ be16 (kemId c) ++ publicKey c ++ be16 4)
    (be16 (aeadId c)) (3 + 65 + 2) (kdfId c)) by (split_app || (subst k; blia)).
  rewrite bind_ok.
  rewrite (get_u16_split b (k ++ be16 (kemId c) ++ publicKey c ++ be16 4 ++ be16 (kdfId c))
    [] (3 + 65 + 4) (aeadId c)) by (split_app || (subst k; blia)).
  rewrite bind_ok.
  change (u8_get b 0) with (Some (b2z (z2b (keyId c)))). cbv iota.
  rewrite b2z_small by lia. by destruct c.
Qed.

Lemma encode_configs_inv ids cs es :
  encode_configs ids cs = Ok es ->
  es = map config_bytes cs /\ Forall (fun c => blen (publicKey c) = OHTTP_GATEWAY_KEY_BYTES) cs.
Proof.
  revert ids es. induction cs as [|c cs IH]; cbn; intros ids es H; [by simplify_eq|].
  destruct (existsb _ _); [done|]. unbind.
  destruct (IH _ _ E0) as [-> Hf].
  assert (Hl : blen (publicKey c) = OHTTP_GATEWAY_KEY_BYTES).
  { unfold encodeOhttpKeyConfig in E. destruct (_ =? _) eqn:E1; [by bools|done]. }
  rewrite encodeOhttpKeyConfig_eq in E by done. injection E as <-. split; [done|by constructor].
Qed.

Definition framed (e : bytes) : bytes := be16 (blen e) ++ e.

Lemma write_configs_ok done n es :
  n = foldr (fun b n => 2 + blen b + n) 0 es ->
  write_configs (done ++ zeros n) (blen done) es = Ok (done ++ concat (map framed es)).
Proof.
  revert done n. induction es as [|e es IH]; intros d n ->; cbn [write_configs foldr map concat].
  - done.
  - assert (0 <= foldr (fun b n => 2 + blen b + n) 0 es) by (clear; induction es; cbn; blia).
    pose proof (blen_nonneg e). rewrite set_u16_fill by lia. rewrite bind_ok.
    rewrite u8_set_fill' by blia. rewrite bind_ok.
    replace (blen d + 2 + blen e) with (blen ((d ++ be16 (blen e)) ++ e)) by blia.
    rewrite IH by lia. unfold framed. by rewrite <- !app_assoc.
Qed.

Lemma decode_configs_ok cs : forall room b off,
  Forall (fun c => blen (publicKey c) = OHTTP_GATEWAY_KEY_BYTES) cs ->
  forallb config_ok cs = true -> (length cs <= room)%nat ->
  at_rest b off (concat (map framed (map config_bytes cs))) ->
  decode_configs room b off = Ok cs.
Proof.
  induction cs as [|c cs IH]; intros room b off Hf Hok Hr Hat; cbn [map concat forallb] in *.
  - apply at_rest_end in Hat. subst off. destruct room; cbn; by rewrite Z.leb_refl.
  - apply Forall_cons in Hf as [Hc Hf]. bools.
    pose proof (blen_config_bytes c Hc) as Hb.
    pose proof (at_rest_bound _ _ _ Hat) as Hlen.
    unfold framed at 1 in Hat. unfold framed at 1 in Hlen. rewrite Hb in Hat, Hlen.
    rewrite !blen_app, blen_be16, Hb in Hlen.
    pose proof (blen_nonneg (concat (map framed (map config_bytes cs)))) as Hnn.
    rewrite <- app_assoc in Hat.
    destruct room as [|room]; [cbn in Hr; lia|]. cbn [length] in Hr.
    cbn [decode_configs].
    replace (blen b <=? off) with false by lia. replace (blen b <? off + 2) with false by lia.
    destruct Hat as (pre & Hbp & Hoff).
    rewrite Hbp at 1. rewrite (get_u16_app pre (be16 74) _ _ 74) by done. rewrite bind_ok.
    change (74 mod 65536) with 74. cbv zeta.
    replace ((74 <? 3) || (blen b <? off + 2 + 74)) with false by lia. cbv iota.
    replace (slice b (off + 2) (off + 2 + 74)) with (config_bytes c).
    2:{ rewrite Hbp, app_assoc. symmetry. apply slice_app_at; [blia|]. rewrite Hb. lia. }
    rewrite decode_config_bytes by done. rewrite bind_ok.
    rewrite (IH room b (off + 2 + 74)); [done|done|done|lia|].
    exists (pre ++ be16 74 ++ config_bytes c). rewrite <- !app_assoc. split; [done|].
    rewrite !blen_app, blen_be16, Hb. lia.
Qed.

(** Key configuration round trip. A collection the gateway publishes
    (one to four configurations with distinct key ids and fields that fit their
    wire width) is read back by the client unchanged and in order. *)
Theorem keyconfig_collection_roundtrip cs b :
  forallb config_ok cs = true -> encodeOhttpKeyConfigCollection cs = Ok b ->
  decodeOhttpKeyConfigCollection b = Ok cs.
Proof.
  intros Hok H. unfold encodeOhttpKeyConfigCollection in H.
  destruct cs as [|c cs]; [done|]. set (l := c :: cs) in *.
  destruct (_ <? _)%nat eqn:El; [done|]. apply Nat.ltb_ge in El.
  destruct (encode_configs [] l) as [es|] eqn:E; [|done]. rewrite bind_ok in H.
  destruct (encode_configs_inv _ _ _ E) as [-> Hf].
  pose proof (write_configs_ok [] _ (map config_bytes l) eq_refl) as Hw.
  cbn [app] in Hw. change (blen []) with 0 in Hw. rewrite Hw in H. injection H as H.
  unfold decodeOhttpKeyConfigCollection.
  assert (Hlen : 2 <= blen b).
  { rewrite <- H. subst l. cbn [map concat]. unfold framed at 1. blia. }
  replace (blen b <? 2) with false by lia.
  rewrite (decode_configs_ok l) by (try done; exists []; by rewrite <- H). done.
Qed.

Definition sample_config (kid : Z) : OhttpKeyConfig :=
  mkConfig kid 16 1 2 (zeros OHTTP_GATEWAY_KEY_BYTES).

Lemma keyconfig_collection_roundtrip_witness :
  match encodeOhttpKeyConfigCollection [sample_config 1; sample_config 2] with
  | Ok b => decodeOhttpKeyConfigCollection b = Ok [sample_config 1; sample_config 2]
  | Err _ => False
  end.
Proof.
  destruct (encodeOhttpKeyConfigCollection [sample_config 1; sample_config 2]) as [b|] eqn:E.
  - apply (keyconfig_collection_roundtrip [sample_config 1; sample_config 2] b);
      [vm_compute; reflexivity|exact E].
  - vm_compute in E. discriminate E.
Defined.

(** The client's choice is a configuration of the collection with the highest
    key id. *)
Lemma fold_select_spec rest : forall c,
  let r := foldl (fun best item => if keyId best <? keyId item then item else best) c rest in
  r ∈ c :: rest /\ (forall d, d ∈ c :: rest -> keyId d <= keyId r).
Proof.
  induction rest as [|d rest IH]; intros c; cbn.
  - split; [set_solver|]. intros d Hd. apply list_elem_of_singleton in Hd. by subst.
  - specialize (IH (if keyId c <? keyId d then d else c)). cbn in IH.
    destruct IH as [Hin Hmax]. destruct (Z.ltb_spec (keyId c) (keyId d)).
    + split; [set_solver|]. intros e He.
      apply elem_of_cons in He as [->|He]; [|by apply Hmax].
      specialize (Hmax d ltac:(set_solver)). lia.
    + split; [set_solver|]. intros e He.
      apply elem_of_cons in He as [->|He]; [apply Hmax; set_solver|].
      apply elem_of_cons in He as [->|He]; [|apply Hmax; set_solver].
      specialize (Hmax c ltac:(set_solver)). lia.
Qed.

(** The key the client uses does not depend on the order of the wire. For
    any reordering of a collection with distinct key ids, [selectOhttpKeyConfig]
    picks the same configuration, the one with the highest key id. *)
Theorem select_key_order_irrelevant cs cs' c :
  cs ≡ₚ cs' -> NoDup (map keyId cs) -> selectOhttpKeyConfig cs = Ok c ->
  selectOhttpKeyConfig cs' = Ok c /\ c ∈ cs /\ (forall d, d ∈ cs -> keyId d <= keyId c).
Proof.
  intros Hp Hnd Hs. destruct cs as [|a cs]; [done|]. cbn in Hs. injection Hs as Hs.
  pose proof (fold_select_spec cs a) as Hc. cbn in Hc. rewrite Hs in Hc. destruct Hc as [Hin Hmax].
  split; [|done]. destruct cs' as [|a' cs'].
  { apply Permutation_nil_r in Hp. done. }
  cbn. f_equal. pose proof (fold_select_spec cs' a') as Hd. cbn in Hd.
  clear Hs. set (d := foldl _ _ _) in *. destruct Hd as [Hin' Hmax'].
  assert (Hd : d ∈ a :: cs) by (by apply (elem_of_Permutation_proper d _ _ Hp)).
  assert (Hcin : c ∈ a' :: cs') by (by apply (elem_of_Permutation_proper c _ _ Hp)).
  pose proof (Hmax d Hd). pose proof (Hmax' c Hcin).
  apply list_elem_of_lookup in Hd as (i & Hi). apply list_elem_of_lookup in Hin as (j & Hj).
  assert (i = j) as ->; [|congruence].
  eapply (NoDup_lookup (map keyId (a :: cs)));
    [done| |]; rewrite list_lookup_fmap; [rewrite Hi|rewrite Hj]; cbn; f_equal.
  lia.
Qed.

Lemma select_key_order_irrelevant_witness :
  [sample_config 1; sample_config 3; sample_config 2]
    ≡ₚ [sample_config 3; sample_config 2; sample_config 1] /\
  selectOhttpKeyConfig [sample_config 3; sample_config 2; sample_config 1] = Ok (sample_config 3).
Proof.
  assert (Hp : [sample_config 1; sample_config 3; sample_config 2]
    ≡ₚ [sample_config 3; sample_config 2; sample_config 1]).
  { apply (Permutation_app_comm [sample_config 1] [sample_config 3; sample_config 2]). }
  split; [exact Hp|].
  apply (select_key_order_irrelevant _ _ (sample_config 3) Hp); [|reflexivity].
  apply (bool_decide_unpack _). vm_compute. exact I.
Defined.

(** ** Gateway filters *)
Import Gateway.

(** The targets the list is meant to admit. *)
Definition target_shape (m p : jstr) : Prop :=
  (toUpperCase m = js "GET" /\
     (pathname p = js "/api/users/search" \/
      exists id, pathname p = js "/api/keys/prekey-bundle/" ++ id /\
        (1 <= length id <= 64)%nat /\ Forall (fun c => is_id_char c = true) id)) \/
  (toUpperCase m = js "POST" /\
     (pathname p = js "/api/pir/query" \/ pathname p = js "/api/groups/sync" \/
      pathname p = js "/api/keys/kt/search")).

(** The gateway is not a general proxy. An allowed target is, ignoring its
    query string, one of the four exact paths of the list with the right method,
    or a prekey bundle path whose last segment has 1 to 64 base64url characters
    (so no further slash, dot or percent sign can follow). *)
Theorem allowed_target_shape m p :
  isOhttpTargetAllowed m p OHTTP_DEFAULT_ALLOWLIST = true -> target_shape m p.
Proof.
  assert (Hstrip : forall q s r, strip_prefix q s = Some r -> s = q ++ r).
  { induction q as [|c q IH]; intros [|d s] r; cbn; intros H; try congruence.
    destruct (Z.eqb_spec c d); [|done]. subst. f_equal. by apply IH. }
  unfold isOhttpTargetAllowed. intros H. apply existsb_exists in H as ([m' pat] & Hin & H).
  apply andb_true_iff in H as [Hm Ht]. apply bool_decide_eq_true in Hm. cbn in Hm, Ht. subst m'.
  unfold OHTTP_DEFAULT_ALLOWLIST in Hin. cbn [In] in Hin.
  destruct Hin as [E|[E|[E|[E|[E|[]]]]]]; injection E as Em <-; unfold test in Ht;
    try (apply bool_decide_eq_true in Ht); unfold target_shape; rewrite <- Em; try tauto.
  left. split; [done|]. right. destruct (strip_prefix _ _) as [id|] eqn:Es; [|done].
  exists id. split; [by apply Hstrip|]. apply andb_true_iff in Ht as [Hl Hc].
  apply andb_true_iff in Hl as [H1 H2]. apply Nat.leb_le in H1, H2. split; [lia|].
  apply Forall_forall. rewrite forallb_forall in Hc. intros x Hx. apply Hc. by apply list_elem_of_In.
Qed.

Lemma allowed_target_shape_witness :
  isOhttpTargetAllowed (js "get") (js "/api/keys/prekey-bundle/user_01-A?x=1")
    OHTTP_DEFAULT_ALLOWLIST = true /\
  target_shape (js "get") (js "/api/keys/prekey-bundle/user_01-A?x=1").
Proof.
  split; [vm_compute; reflexivity|].
  exact (allowed_target_shape (js "get") (js "/api/keys/prekey-bundle/user_01-A?x=1")
    ltac:(vm_compute; reflexivity)).
Defined.

(** Headers forwarded to a target never include a hop-by-hop or identity
    header, however its name is capitalised; every other header is kept, in
    order, and filtering twice changes nothing. *)
Theorem sanitized_headers_spec hs :
  (forall h, h ∈ sanitizeOhttpForwardHeaders hs <->
     h ∈ hs /\ toLowerCase h.1 ∉ FORBIDDEN_FORWARD_HEADERS) /\
  sublist (sanitizeOhttpForwardHeaders hs) hs /\
  sanitizeOhttpForwardHeaders (sanitizeOhttpForwardHeaders hs) = sanitizeOhttpForwardHeaders hs.
Proof.
  unfold sanitizeOhttpForwardHeaders. split; [|split].
  - intros h. rewrite !list_elem_of_In, List.filter_In, negb_true_iff, <- not_true_iff_false.
    rewrite existsb_exists. setoid_rewrite bool_decide_eq_true.
    split; intros [H1 H2]; (split; [done|]); intros H; apply H2.
    + exists (toLowerCase h.1). done.
    + by destruct H as (x & Hx & ->).
  - induction hs as [|h hs IH]; cbn; [constructor|]. by destruct (negb _); constructor.
  - induction hs as [|h hs IH]; cbn; [done|].
    destruct (negb _) eqn:E; [|done]. cbn. rewrite E. by f_equal.
Qed.
