(* ===== verification/OhttpSeal.v ===== *)
(** Oblivious HTTP end to end: the HPKE encapsulation of
    packages/shared/src/ohttp.ts (client and gateway side) and the gateway's
    request handler of server/src/ohttp/gateway.ts. HPKE, HKDF and AES-GCM are
    third-party code: an interface with its documented laws. *)
From S2P Require Import Prelude Bytes Base64 Utf8 Ohttp OhttpConfig.
Import Bhttp KeyConfig Gateway.

(** The cryptography the module calls. A context is what
    [createSenderContext]/[createRecipientContext] return; the first argument of
    the sender side is the randomness the library draws. *)
Class Hpke := {
  hpke_ctx : Type;
  createSenderContext : bytes -> bytes -> bytes -> result (bytes * hpke_ctx);
  createRecipientContext : bytes -> bytes -> bytes -> result hpke_ctx;
  ctx_seal : hpke_ctx -> bytes -> bytes;
  ctx_open : hpke_ctx -> bytes -> result bytes;
  ctx_export : hpke_ctx -> bytes -> Z -> bytes;
  hkdf_extract : bytes -> bytes -> bytes;
  hkdf_expand : bytes -> bytes -> Z -> bytes;
  aesGcmSeal : bytes -> bytes -> bytes -> bytes;
  aesGcmOpen : bytes -> bytes -> bytes -> result bytes }.

(** RFC 9180: the recipient that holds the private key derives the same context
    from the encapsulated key and the same info; sealing adds a 16-byte tag. *)
Class HpkeLaws `{Hpke} := {
  hpke_pair : bytes -> bytes -> Prop;
  hpke_agree : forall sk pk rnd info enc cs,
    hpke_pair sk pk -> createSenderContext rnd pk info = Ok (enc, cs) ->
    blen enc = 65 /\
    exists cr, createRecipientContext sk enc info = Ok cr /\
      (forall m, ctx_open cr (ctx_seal cs m) = Ok m) /\
      (forall l n, ctx_export cr l n = ctx_export cs l n);
  hpke_tag : forall c m, blen (ctx_seal c m) = blen m + 16;
  aes_open_seal : forall k n m, aesGcmOpen k n (aesGcmSeal k n m) = Ok m;
  aes_tag : forall k n m, blen (aesGcmSeal k n m) = blen m + 16 }.

Module Seal.
Section seal.
Context `{Hpke}.

Definition OHTTP_REQUEST_INFO : bytes := ascii_bytes "message/bhttp request".
Definition OHTTP_RESPONSE_INFO : bytes := ascii_bytes "message/bhttp response".
Definition OHTTP_KEM_P256_SHA256 : Z := 16.
Definition OHTTP_KDF_SHA256 : Z := 1.
Definition OHTTP_AEAD_AES256_GCM : Z := 2.
Definition OHTTP_PRIVATE_KEY_BYTES : Z := 32.
Definition OHTTP_ENC_BYTES : Z := 65.
Definition OHTTP_HEADER_BYTES : Z := 7.
Definition OHTTP_RESPONSE_NONCE_BYTES : Z := 32.
Definition OHTTP_MAX_MESSAGE_BYTES : Z := 8 * 1024 * 1024.

Definition hi_lo (v : Z) : bytes := [z2b (Z.land (Z.shiftr v 8) 255); z2b (Z.land v 255)].

Definition buildRequestInfo (c : OhttpKeyConfig) : result bytes :=
  concatBytes [OHTTP_REQUEST_INFO; [z2b 0]; [z2b (keyId c)];
    hi_lo (kemId c); hi_lo (kdfId c); hi_lo (aeadId c)].

(** Key and nonce of the response, bound to the request by [enc]. *)
Definition deriveResponseKeys (context : hpke_ctx) (enc responseNonce : bytes)
  : result (bytes * bytes) :=
  let secret := ctx_export context OHTTP_RESPONSE_INFO 32 in
  salt ← concatBytes [enc; responseNonce];
  let prk := hkdf_extract secret salt in
  Ok (hkdf_expand prk (ascii_bytes "key") 32, hkdf_expand prk (ascii_bytes "nonce") 12).

(** Client side: the body for the relay, and what the closure [openResponse]
    has captured (context and encapsulated key). *)
Definition encapsulateOhttpRequest (rnd : bytes) (config : OhttpKeyConfig) (r : OhttpRequest)
  : result (bytes * (hpke_ctx * bytes)) :=
  if negb (blen (publicKey config) =? OHTTP_GATEWAY_KEY_BYTES)
  then throw "ohttp: public key gateway tidak sah" else
  info ← buildRequestInfo config;
  s ← createSenderContext rnd (publicKey config) info;
  plaintext ← encodeBinaryHttpRequest r;
  let ciphertext := ctx_seal s.2 plaintext in
  header ← concatBytes [[z2b (keyId config)]; hi_lo (kemId config); hi_lo (kdfId config);
    hi_lo (aeadId config)];
  body ← concatBytes [header; s.1; ciphertext];
  if OHTTP_MAX_MESSAGE_BYTES <? blen body then throw "ohttp: request terlalu besar"
  else Ok (body, (s.2, s.1)).

Definition openResponse (captured : hpke_ctx * bytes) (encapsulatedResponse : bytes)
  : result OhttpResponse :=
  if blen encapsulatedResponse <? OHTTP_RESPONSE_NONCE_BYTES + 16
  then throw "ohttp: response terpotong" else
  let responseNonce := slice encapsulatedResponse 0 OHTTP_RESPONSE_NONCE_BYTES in
  let ct := slice_from encapsulatedResponse OHTTP_RESPONSE_NONCE_BYTES in
  match (kn ← deriveResponseKeys captured.1 captured.2 responseNonce;
         opened ← aesGcmOpen kn.1 kn.2 ct;
         decodeBinaryHttpResponse opened) with
  | Ok r => Ok r
  | Err _ => throw "ohttp: dekripsi response gagal"
  end.

(** Gateway side: the request, and what [sealResponse] has captured. *)
Definition decapsulateOhttpRequest (kid : Z) (privateKey b : bytes)
  : result (OhttpRequest * (hpke_ctx * bytes)) :=
  if blen b <? OHTTP_HEADER_BYTES + OHTTP_ENC_BYTES + 16
  then throw "ohttp: encapsulated request terpotong" else
  if negb (bool_decide (u8_get b 0 = Some kid)) then throw "ohttp: key id tidak dikenal" else
  kem ← get_u16 b 1;
  kdf ← get_u16 b 3;
  aead ← get_u16 b 5;
  if negb (kem =? OHTTP_KEM_P256_SHA256) || negb (kdf =? OHTTP_KDF_SHA256)
     || negb (aead =? OHTTP_AEAD_AES256_GCM) then throw "ohttp: parameter HPKE tidak didukung" else
  if negb (blen privateKey =? OHTTP_PRIVATE_KEY_BYTES)
  then throw "ohttp: private key gateway tidak sah" else
  let header := slice b 0 OHTTP_HEADER_BYTES in
  let enc := slice b OHTTP_HEADER_BYTES (OHTTP_HEADER_BYTES + OHTTP_ENC_BYTES) in
  let ciphertext := slice_from b (OHTTP_HEADER_BYTES + OHTTP_ENC_BYTES) in
  info ← concatBytes [OHTTP_REQUEST_INFO; [z2b 0]; header];
  match (context ← createRecipientContext privateKey enc info;
         plaintext ← ctx_open context ciphertext; Ok (context, plaintext)) with
  | Err _ => throw "ohttp: dekripsi request gagal"
  | Ok (context, plaintext) =>
      r ← decodeBinaryHttpRequest plaintext; Ok (r, (context, enc))
  end.

Definition sealResponse (captured : hpke_ctx * bytes) (responseNonce : bytes)
  (r : OhttpResponse) : result bytes :=
  kn ← deriveResponseKeys captured.1 captured.2 responseNonce;
  e ← encodeBinaryHttpResponse r;
  concatBytes [responseNonce; aesGcmSeal kn.1 kn.2 e].

(** *** The gateway handler *)

Definition OHTTP_INTERNAL_HEADER : jstr := js "x-nyx-ohttp-internal".
Definition OHTTP_CLIENT_TAG_HEADER : jstr := js "x-nyx-ohttp-client-tag".

Record key_slot := mkSlot { slot_keyId : Z; slot_privateKey : bytes }.
Record OhttpConfig := mkOhttpConfig { keys : list key_slot; internalToken : option jstr }.
Record options := mkOptions { injectedAuthorization : option jstr; clientTag : option jstr }.

Definition jsonResponse (st : Z) (payload : bytes) : OhttpResponse :=
  mkResponse st [(js "content-type", js "application/json")] payload.

Definition error_payload (code : string) : bytes :=
  ascii_bytes "{" ++ [x22] ++ ascii_bytes "error" ++ [x22] ++ ascii_bytes ":" ++ [x22]
    ++ ascii_bytes code ++ [x22] ++ ascii_bytes "}".

(** A JavaScript string is truthy when it is present and not empty. *)
Definition truthy (o : option jstr) : option jstr :=
  match o with Some (c :: s) => Some (c :: s) | _ => None end.

Definition not_name (names : list jstr) (h : OhttpHeader) : bool :=
  negb (existsb (fun n => bool_decide (toLowerCase h.1 = n)) names).

(** The headers of the request handed to the dispatcher. *)
Definition forwardHeaders (cfg : OhttpConfig) (opt : options) (hs : list OhttpHeader)
  : list OhttpHeader :=
  let sanitized := List.filter (not_name [OHTTP_INTERNAL_HEADER; OHTTP_CLIENT_TAG_HEADER])
    (sanitizeOhttpForwardHeaders hs) in
  let with_auth :=
    match truthy (injectedAuthorization opt) with
    | Some a => List.filter (not_name [js "authorization"; js "cookie"]) sanitized
                  ++ [(js "authorization", a)]
    | None => sanitized
    end in
  match truthy (clientTag opt), truthy (internalToken cfg) with
  | Some tag, Some token =>
      with_auth ++ [(OHTTP_INTERNAL_HEADER, token); (OHTTP_CLIENT_TAG_HEADER, tag)]
  | _, _ => with_auth
  end.

(** One encapsulated request. The result also records the request that was
    dispatched, if any. [nonce] is the response nonce the gateway draws. *)
Definition handleOhttpGateway (cfg : OhttpConfig) (b : bytes)
  (dispatch : OhttpRequest -> result OhttpResponse) (allowlist : list (jstr * pattern))
  (opt : options) (nonce : bytes) : result (option OhttpRequest * bytes) :=
  match List.find (fun k => bool_decide (u8_get b 0 = Some (slot_keyId k))) (keys cfg) with
  | None => throw "ohttp: key id tidak dikenal"
  | Some slot =>
      sealed ← decapsulateOhttpRequest (slot_keyId slot) (slot_privateKey slot) b;
      let r := sealed.1 in
      if negb (isOhttpTargetAllowed (method r) (path r) allowlist) then
        out ← sealResponse sealed.2 nonce
          (jsonResponse 403 (error_payload "OHTTP_TARGET_NOT_ALLOWED"));
        Ok (None, out)
      else if match ohttpBodyLimitFor (path r) with
              | Some limit => limit <? blen (req_content r)
              | None => false
              end then
        out ← sealResponse sealed.2 nonce
          (jsonResponse 413 (error_payload "OHTTP_BODY_TOO_LARGE"));
        Ok (None, out)
      else
        let fwd := mkRequest (method r) (scheme r) (authority r) (path r)
          (forwardHeaders cfg opt (req_headers r)) (req_content r) in
        let response := match dispatch fwd with
          | Ok res => res
          | Err _ => jsonResponse 502 (error_payload "OHTTP_UPSTREAM_FAILED")
          end in
        out ← sealResponse sealed.2 nonce response;
        Ok (Some fwd, out)
  end.

End seal.
End Seal.
Import Seal.

Section laws.
Context `{HpkeLaws}.

Lemma hi_lo_be16 v : hi_lo v = be16 v.
Proof.
  unfold hi_lo, be16. rewrite !land_255, !z2b_mod, Z.shiftr_div_pow2 by lia. done.
Qed.

Definition suite_config (c : OhttpKeyConfig) : Prop :=
  0 <= keyId c < 256 /\ kemId c = OHTTP_KEM_P256_SHA256 /\ kdfId c = OHTTP_KDF_SHA256 /\
  aeadId c = OHTTP_AEAD_AES256_GCM.

Definition header_bytes (c : OhttpKeyConfig) : bytes :=
  [z2b (keyId c)] ++ be16 (kemId c) ++ be16 (kdfId c) ++ be16 (aeadId c).

Lemma encapsulate_inv rnd c r body cap :
  encapsulateOhttpRequest rnd c r = Ok (body, cap) ->
  exists pt, encodeBinaryHttpRequest r = Ok pt /\
    createSenderContext rnd (publicKey c)
      (OHTTP_REQUEST_INFO ++ [z2b 0] ++ header_bytes c) = Ok (cap.2, cap.1) /\
    body = header_bytes c ++ cap.2 ++ ctx_seal cap.1 pt.
Proof.
  unfold encapsulateOhttpRequest, buildRequestInfo. intros E0.
  destruct (negb _); [done|]. rewrite !concatBytes_ok, !hi_lo_be16, bind_ok in E0.
  cbn [concat] in E0. rewrite !app_nil_r in E0.
  destruct (createSenderContext _ _ _) as [[enc cs]|] eqn:E1; [|done]. rewrite bind_ok in E0.
  destruct (encodeBinaryHttpRequest r) as [pt|]; [|done]. rewrite !bind_ok in E0.
  rewrite concatBytes_ok, bind_ok in E0. cbn [concat fst snd] in E0.
  destruct (_ <? _); [done|]. injection E0 as <- <-. exists pt. cbn [fst snd].
  split; [done|]. split; [done|]. by rewrite app_nil_r.
Qed.

Lemma blen_header c : blen (header_bytes c) = 7.
Proof. done. Qed.

Lemma decapsulate_ok rnd c r sk body cap :
  suite_config c -> blen sk = OHTTP_PRIVATE_KEY_BYTES -> hpke_pair sk (publicKey c) ->
  request_ok r = true -> encapsulateOhttpRequest rnd c r = Ok (body, cap) ->
  u8_get body 0 = Some (keyId c) /\
  exists cr, decapsulateOhttpRequest (keyId c) sk body = Ok (lower_request r, (cr, cap.2)) /\
    (forall l n, ctx_export cr l n = ctx_export cap.1 l n).
Proof.
  intros (Hk & Hkem & Hkdf & Haead) Hsk Hpair Hr He.
  destruct (encapsulate_inv _ _ _ _ _ He) as (pt & Hpt & Hs & Hb).
  destruct (hpke_agree _ _ _ _ _ _ Hpair Hs) as (Hel & cr & Hcr & Hopen & Hexp).
  set (ct := ctx_seal cap.1 pt) in *.
  assert (Hct : blen ct = blen pt + 16) by apply hpke_tag. pose proof (blen_nonneg pt).
  assert (Hg : u8_get body 0 = Some (keyId c)).
  { rewrite Hb. change (Some (b2z (z2b (keyId c))) = Some (keyId c)).
    by rewrite b2z_small by lia. }
  split; [done|]. exists cr. split; [|done].
  unfold decapsulateOhttpRequest, OHTTP_HEADER_BYTES, OHTTP_ENC_BYTES.
  assert (Hbl : blen body = 7 + 65 + blen ct) by (rewrite Hb; rewrite !blen_app, blen_header; lia).
  rewrite Hbl. replace (_ <? _) with false by lia.
  rewrite Hg, bool_decide_eq_true_2 by done. cbn [negb].
  set (rest := cap.2 ++ ct) in *. unfold header_bytes in Hb.
  rewrite (get_u16_split body [z2b (keyId c)]
    (be16 (kdfId c) ++ be16 (aeadId c) ++ rest) 1 16) by (rewrite ?Hb, ?Hkem; done || lia).
  rewrite bind_ok.
  rewrite (get_u16_split body ([z2b (keyId c)] ++ be16 (kemId c))
    (be16 (aeadId c) ++ rest) 3 1) by (rewrite ?Hb, ?Hkdf; done || lia).
  rewrite bind_ok.
  rewrite (get_u16_split body ([z2b (keyId c)] ++ be16 (kemId c) ++ be16 (kdfId c)) rest 5 2)
    by (rewrite ?Hb, ?Haead; done || lia).
  rewrite bind_ok. rewrite Hsk.
  change (negb (16 =? OHTTP_KEM_P256_SHA256) || negb (1 =? OHTTP_KDF_SHA256)
    || negb (2 =? OHTTP_AEAD_AES256_GCM)) with false. rewrite Z.eqb_refl. cbn [negb].
  fold (header_bytes c) in Hb.
  rewrite (slice_split body [] (header_bytes c) rest 0 7) by done.
  rewrite (slice_split body (header_bytes c) cap.2 ct 7 (7 + 65)) by (done || lia).
  rewrite concatBytes_ok, bind_ok. cbn [concat]. rewrite app_nil_r.
  rewrite Hcr, bind_ok. unfold rest in Hb. rewrite app_assoc in Hb.
  rewrite Hb, slice_from_app by (rewrite blen_app, blen_header; lia).
  subst ct. rewrite Hopen, bind_ok. by rewrite (request_roundtrip r pt).
Qed.

(** C8: one OHTTP exchange. If the client encapsulates a well-formed request to
    a gateway key of the supported suite, the gateway holding the private key
    opens exactly that request (field names in lower case), and whatever
    well-formed response the gateway seals under a 32-byte nonce, the client's
    [openResponse] reads back. *)
Theorem ohttp_exchange_roundtrip rnd c r sk body cap :
  suite_config c -> blen sk = OHTTP_PRIVATE_KEY_BYTES -> hpke_pair sk (publicKey c) ->
  request_ok r = true -> encapsulateOhttpRequest rnd c r = Ok (body, cap) ->
  exists cap', decapsulateOhttpRequest (keyId c) sk body = Ok (lower_request r, cap') /\
    forall nonce res out, blen nonce = OHTTP_RESPONSE_NONCE_BYTES -> response_ok res = true ->
      sealResponse cap' nonce res = Ok out -> openResponse cap out = Ok (lower_response res).
Proof.
  intros Hc Hsk Hp Hr He.
  destruct (decapsulate_ok _ _ _ _ _ _ Hc Hsk Hp Hr He) as (_ & cr & Hd & Hexp).
  exists (cr, cap.2). split; [done|]. intros nonce res out Hn Hres Hs.
  unfold sealResponse, deriveResponseKeys in Hs. rewrite concatBytes_ok, bind_ok in Hs.
  cbn [fst snd concat mbind result_bind] in Hs.
  destruct (encodeBinaryHttpResponse res) as [e|] eqn:Ee; [|done].
  cbn [mbind result_bind] in Hs. rewrite concatBytes_ok in Hs. injection Hs as <-.
  cbn [concat]. rewrite !app_nil_r. rewrite Hexp.
  unfold openResponse, deriveResponseKeys, OHTTP_RESPONSE_NONCE_BYTES in *.
  rewrite blen_app, aes_tag, Hn. pose proof (blen_nonneg e).
  replace (_ <? _) with false by lia.
  rewrite slice_app_head by done. rewrite slice_from_app by done.
  rewrite concatBytes_ok, !bind_ok. cbn [concat fst snd]. rewrite app_nil_r.
  rewrite aes_open_seal, bind_ok. by rewrite (response_roundtrip res e).
Qed.
End laws.

(** *** A concrete instance: the interface's laws can hold together *)

Definition toy_tag (k : bytes) : bytes := take 16 (k ++ zeros 16).
Definition toy_open (k ct : bytes) : result bytes :=
  let m := take (length ct - 16) ct in
  if bool_decide (drop (length ct - 16) ct = toy_tag k) then Ok m else Err "OperationError".

#[export] Instance toy_hpke : Hpke := {
  hpke_ctx := bytes;
  createSenderContext := fun rnd pk info => Ok (take 65 (rnd ++ zeros 65), pk);
  createRecipientContext := fun sk enc info => Ok (sk ++ zeros 33);
  ctx_seal := fun k m => m ++ toy_tag k;
  ctx_open := toy_open;
  ctx_export := fun k l n => take (Z.to_nat n) (k ++ l);
  hkdf_extract := fun ikm salt => ikm ++ salt;
  hkdf_expand := fun prk info n => take (Z.to_nat n) (info ++ prk);
  aesGcmSeal := fun k n m => m ++ toy_tag k;
  aesGcmOpen := fun k n ct => toy_open k ct }.

Lemma blen_toy_tag k : length (toy_tag k) = 16%nat.
Proof. unfold toy_tag, zeros. rewrite length_take, length_app, length_replicate. lia. Qed.

Lemma toy_open_seal k m : toy_open k (m ++ toy_tag k) = Ok m.
Proof.
  unfold toy_open. rewrite length_app, blen_toy_tag, Nat.add_sub.
  rewrite drop_app_length, take_app_length. by rewrite bool_decide_eq_true_2.
Qed.

#[export] Instance toy_hpke_laws : @HpkeLaws toy_hpke.
Proof.
  refine {| hpke_pair := fun sk pk => pk = sk ++ zeros 33 |}.
  - intros sk pk rnd info enc cs -> [= <- <-]. split.
    + unfold blen, zeros. rewrite length_take, length_app, length_replicate. lia.
    + exists (sk ++ zeros 33). split; [done|]. split; [intros m; apply toy_open_seal|done].
  - intros c m. unfold blen. cbn. rewrite length_app, blen_toy_tag. lia.
  - intros k n m. apply toy_open_seal.
  - intros k n m. unfold blen. cbn. rewrite length_app, blen_toy_tag. lia.
Defined.

Definition toy_sk : bytes := zeros 32.
Definition toy_config : OhttpKeyConfig := mkConfig 7 16 1 2 (toy_sk ++ zeros 33).

Lemma ohttp_exchange_roundtrip_witness :
  match encapsulateOhttpRequest (zeros 1) toy_config sample_request with
  | Ok (body, cap) =>
      exists cap', decapsulateOhttpRequest 7 toy_sk body = Ok (lower_request sample_request, cap')
  | Err _ => False
  end.
Proof.
  destruct (encapsulateOhttpRequest (zeros 1) toy_config sample_request) as [[body cap]|] eqn:E.
  - destruct (ohttp_exchange_roundtrip (zeros 1) toy_config sample_request toy_sk body cap)
      as (cap' & Hd & _).
    + vm_compute. intuition congruence.
    + reflexivity.
    + reflexivity.
    + vm_compute. reflexivity.
    + exact E.
    + exists cap'. exact Hd.
  - vm_compute in E. discriminate E.
Defined.

(** ** What the gateway lets through *)

Section gateway.
Context `{Hpke}.

(** Names the gateway itself sets; a client can never choose their value. *)
Definition trust_names : list jstr := [OHTTP_INTERNAL_HEADER; OHTTP_CLIENT_TAG_HEADER].

Lemma not_name_true names h : not_name names h = true <-> (toLowerCase h.1 ∉ names).
Proof.
  unfold not_name. rewrite negb_true_iff, <- not_true_iff_false, existsb_exists.
  setoid_rewrite bool_decide_eq_true. setoid_rewrite <- list_elem_of_In. naive_solver.
Qed.

Lemma elem_filter {A} (p : A -> bool) l x : (x ∈ List.filter p l) <-> (x ∈ l /\ p x = true).
Proof. rewrite !list_elem_of_In. apply List.filter_In. Qed.

Lemma sanitized_elem h hs :
  h ∈ sanitizeOhttpForwardHeaders hs -> h ∈ hs /\ (toLowerCase h.1 ∉ FORBIDDEN_FORWARD_HEADERS).
Proof.
  unfold sanitizeOhttpForwardHeaders. rewrite elem_filter, negb_true_iff, <- not_true_iff_false.
  rewrite existsb_exists. setoid_rewrite bool_decide_eq_true.
  setoid_rewrite <- list_elem_of_In. naive_solver.
Qed.

(** Where a forwarded header can come from. *)
Lemma forwardHeaders_elem cfg opt hs h :
  h ∈ forwardHeaders cfg opt hs ->
  (h ∈ hs /\ (toLowerCase h.1 ∉ FORBIDDEN_FORWARD_HEADERS) /\ (toLowerCase h.1 ∉ trust_names) /\
     (truthy (injectedAuthorization opt) <> None ->
      toLowerCase h.1 ∉ [js "authorization"; js "cookie"])) \/
  (exists a, truthy (injectedAuthorization opt) = Some a /\ h = (js "authorization", a)) \/
  (exists token, truthy (internalToken cfg) = Some token /\ h = (OHTTP_INTERNAL_HEADER, token)) \/
  (exists tag, truthy (clientTag opt) = Some tag /\ h = (OHTTP_CLIENT_TAG_HEADER, tag)).
Proof.
  unfold forwardHeaders. intros Hin.
  assert (Hcases : h ∈ match truthy (injectedAuthorization opt) with
      | Some a => List.filter (not_name [js "authorization"; js "cookie"])
          (List.filter (not_name trust_names) (sanitizeOhttpForwardHeaders hs))
          ++ [(js "authorization", a)]
      | None => List.filter (not_name trust_names) (sanitizeOhttpForwardHeaders hs)
      end \/
    (exists token, truthy (internalToken cfg) = Some token /\ h = (OHTTP_INTERNAL_HEADER, token))
    \/ (exists tag, truthy (clientTag opt) = Some tag /\ h = (OHTTP_CLIENT_TAG_HEADER, tag))).
  { destruct (truthy (clientTag opt)) as [tag|], (truthy (internalToken cfg)) as [token|]; auto.
    apply elem_of_app in Hin as [Hin|Hin]; [by left|].
    apply elem_of_cons in Hin as [->|Hin]; [right; left; eauto|].
    apply list_elem_of_singleton in Hin as ->. right; right; eauto. }
  clear Hin. destruct Hcases as [Hin|[Hin|Hin]]; [|by auto..].
  destruct (truthy (injectedAuthorization opt)) as [a|].
  - apply elem_of_app in Hin as [Hin|Hin].
    + rewrite !elem_filter, !not_name_true in Hin. destruct Hin as [[Hs Ht] Ha].
      apply sanitized_elem in Hs as [Hh Hf]. left. auto.
    + apply list_elem_of_singleton in Hin as ->. right; left; eauto.
  - rewrite elem_filter, not_name_true in Hin. destruct Hin as [Hs Ht].
    apply sanitized_elem in Hs as [Hh Hf]. left. by split_and!.
Qed.

(** C9: the gateway as a trust boundary. For every input, honest or not: if a
    request reaches the dispatcher, its target is on the list and its body is
    within the target's limit; no forwarded header is a hop-by-hop or network
    identity header; the internal trust headers carry only the gateway's token
    and the relay's verified tag; and when the relay injected an authorization,
    every authorization or cookie header has that value. *)
Theorem gateway_forwarding_safe cfg b dispatch opt nonce fwd out :
  handleOhttpGateway cfg b dispatch OHTTP_DEFAULT_ALLOWLIST opt nonce = Ok (Some fwd, out) ->
  isOhttpTargetAllowed (method fwd) (path fwd) OHTTP_DEFAULT_ALLOWLIST = true /\
  (forall limit, ohttpBodyLimitFor (path fwd) = Some limit -> blen (req_content fwd) <= limit) /\
  (forall h, h ∈ req_headers fwd ->
     (toLowerCase h.1 = OHTTP_INTERNAL_HEADER -> internalToken cfg = Some h.2) /\
     (toLowerCase h.1 = OHTTP_CLIENT_TAG_HEADER -> clientTag opt = Some h.2) /\
     (toLowerCase h.1 ∉ FORBIDDEN_FORWARD_HEADERS) /\
     (forall a, truthy (injectedAuthorization opt) = Some a ->
        toLowerCase h.1 ∈ [js "authorization"; js "cookie"] -> h.2 = a)).
Proof.
  unfold handleOhttpGateway. intros Hg.
  destruct (List.find _ _) as [slot|]; [|done].
  destruct (decapsulateOhttpRequest _ _ b) as [[r cap]|]; [|done]. rewrite bind_ok in Hg.
  cbn [fst snd] in Hg.
  destruct (isOhttpTargetAllowed _ _ _) eqn:Ea; cbn [negb] in Hg; [|unbind; congruence].
  match type of Hg with (if ?c then _ else _) = _ => destruct c eqn:El end;
    [unbind; congruence|].
  unbind. split; [exact Ea|]. split.
  { cbn. intros limit Hl. rewrite Hl in El. bools. done. }
  cbn [req_headers]. intros h Hh. apply forwardHeaders_elem in Hh.
  assert (Htr : forall o (s : jstr), truthy o = Some s -> o = Some s).
  { intros [[|]|] s; cbn; congruence. }
  destruct Hh as [(_ & Hf & Ht & Hauth)|[(a & Ha & ->)|[(t & Ht & ->)|(t & Ht & ->)]]].
  - repeat split; [intros En; rewrite En in Ht; exfalso; apply Ht; unfold trust_names; set_solver
                  |intros En; rewrite En in Ht; exfalso; apply Ht; unfold trust_names; set_solver
                  |done|].
    intros a Ha Hin. exfalso. apply Hauth; [congruence|done].
  - repeat split; [intros En; vm_compute in En; discriminate En
                  |intros En; vm_compute in En; discriminate En| |intros a' Ha' _; cbn; congruence].
    apply (bool_decide_unpack _). vm_compute. exact I.
  - repeat split; [intros _; by apply Htr|intros En; vm_compute in En; discriminate En| |].
    + apply (bool_decide_unpack _). vm_compute. exact I.
    + intros a _ Hin. exfalso. revert Hin. apply (bool_decide_unpack _). vm_compute. exact I.
  - repeat split; [intros En; vm_compute in En; discriminate En|intros _; by apply Htr| |].
    + apply (bool_decide_unpack _). vm_compute. exact I.
    + intros a _ Hin. exfalso. revert Hin. apply (bool_decide_unpack _). vm_compute. exact I.
Qed.
End gateway.

Definition toy_gateway : OhttpConfig :=
  mkOhttpConfig [mkSlot 7 toy_sk] (Some (js "internal-token")).
Definition toy_options : options :=
  mkOptions (Some (js "Bearer t")) (Some (js "tag")).
Definition toy_request : bytes :=
  match encapsulateOhttpRequest (zeros 1) toy_config
    (mkRequest (js "POST") (js "https") (js "nyx") (js "/api/groups/sync")
      [(js "Cookie", js "sid=1"); (js "X-Nyx-Ohttp-Internal", js "forged")] []) with
  | Ok (body, _) => body
  | Err _ => []
  end.

Lemma gateway_forwarding_safe_witness :
  match handleOhttpGateway toy_gateway toy_request (fun _ => Ok sample_response)
          OHTTP_DEFAULT_ALLOWLIST toy_options (zeros 32) with
  | Ok (Some fwd, out) =>
      isOhttpTargetAllowed (method fwd) (path fwd) OHTTP_DEFAULT_ALLOWLIST = true
  | _ => False
  end.
Proof.
  destruct (handleOhttpGateway toy_gateway toy_request (fun _ => Ok sample_response)
    OHTTP_DEFAULT_ALLOWLIST toy_options (zeros 32)) as [[[fwd|] out]|] eqn:E.
  - exact (proj1 (gateway_forwarding_safe _ _ _ _ _ _ _ E)).
  - vm_compute in E. discriminate E.
  - vm_compute in E. discriminate E.
Defined.
