(* ===== verification/PqWire.v ===== *)
(** Binary formats of the post-quantum suite: packages/shared/src/pqHandshake.ts
    (X3DH v2), pqSeal.ts (sealed box v2), ktValue.ts (key transparency value),
    and the handshake transcript both sides sign. *)
From S2P Require Import Prelude Bytes.

(** cryptoSuite.ts *)
Module Suite.
Definition ML_DSA_65_PUBLIC_KEY_BYTES : Z := 1952.
Definition ML_DSA_65_SIGNATURE_BYTES : Z := 3309.
Definition X25519_PUBLIC_KEY_BYTES : Z := 32.
Definition XWING_PUBLIC_KEY_BYTES : Z := 1216.
Definition XWING_CIPHERTEXT_BYTES : Z := 1120.
End Suite.
Import Suite.

Definition assertLength (value : bytes) (expected : Z) (msg : string) : result unit :=
  guard_not (negb (blen value =? expected)) msg.

Module Handshake.

Definition HANDSHAKE_V2_MAGIC : Z := 78.
Definition HANDSHAKE_V2_VERSION : Z := 2.
Definition HANDSHAKE_V2_FLAG_OTPK : Z := 1.
Definition HANDSHAKE_V2_HEADER_BYTES : Z := 4.
Definition HANDSHAKE_V2_CT_BYTES : Z := XWING_CIPHERTEXT_BYTES.
Definition HANDSHAKE_V2_MIN_BYTES : Z :=
  HANDSHAKE_V2_HEADER_BYTES + 2 * HANDSHAKE_V2_CT_BYTES + ML_DSA_65_SIGNATURE_BYTES.

Record HandshakeV2Parsed := mkHandshake {
  ctId : bytes; ctSpk : bytes; ctOtpk : option bytes; signature : bytes }.

Definition assertOptLength (value : option bytes) (expected : Z) (msg : string) : result unit :=
  match value with Some v => assertLength v expected msg | None => Ok tt end.

Definition is_some {A} (o : option A) : bool := match o with Some _ => true | None => false end.

Definition handshake_size (hasOtpk : bool) : Z :=
  HANDSHAKE_V2_HEADER_BYTES + HANDSHAKE_V2_CT_BYTES * (if hasOtpk then 3 else 2)
    + ML_DSA_65_SIGNATURE_BYTES.

Definition serializeHandshakeV2 (input : HandshakeV2Parsed) : result bytes :=
  _ ← assertLength (ctId input) HANDSHAKE_V2_CT_BYTES "x3dh v2: panjang ctId tidak sah";
  _ ← assertLength (ctSpk input) HANDSHAKE_V2_CT_BYTES "x3dh v2: panjang ctSpk tidak sah";
  _ ← assertOptLength (ctOtpk input) HANDSHAKE_V2_CT_BYTES "x3dh v2: panjang ctOtpk tidak sah";
  _ ← assertLength (signature input) ML_DSA_65_SIGNATURE_BYTES
        "x3dh v2: panjang signature tidak sah";
  let hasOtpk := is_some (ctOtpk input) in
  let out := zeros (handshake_size hasOtpk) in
  let out := u8_store out 0 HANDSHAKE_V2_MAGIC in
  let out := u8_store out 1 HANDSHAKE_V2_VERSION in
  let out := u8_store out 2 (if hasOtpk then HANDSHAKE_V2_FLAG_OTPK else 0) in
  let out := u8_store out 3 0 in
  let offset := HANDSHAKE_V2_HEADER_BYTES in
  out ← u8_set out offset (ctId input);
  let offset := offset + HANDSHAKE_V2_CT_BYTES in
  out ← u8_set out offset (ctSpk input);
  let offset := offset + HANDSHAKE_V2_CT_BYTES in
  match ctOtpk input with
  | Some ct =>
      out ← u8_set out offset ct;
      u8_set out (offset + HANDSHAKE_V2_CT_BYTES) (signature input)
  | None => u8_set out offset (signature input)
  end.

Definition deserializeHandshakeV2 (buffer : bytes) : result HandshakeV2Parsed :=
  if blen buffer <? HANDSHAKE_V2_MIN_BYTES
  then throw "x3dh v2: buffer handshake terlalu pendek" else
  if negb (bool_decide (u8_get buffer 0 = Some HANDSHAKE_V2_MAGIC))
  then throw "x3dh v2: magic byte handshake tidak sah" else
  if negb (bool_decide (u8_get buffer 1 = Some HANDSHAKE_V2_VERSION))
  then throw "x3dh v2: versi handshake tidak didukung" else
  let flags := default 0 (u8_get buffer 2) in
  let hasOtpk := negb (Z.land flags HANDSHAKE_V2_FLAG_OTPK =? 0) in
  if negb (blen buffer =? handshake_size hasOtpk)
  then throw "x3dh v2: panjang handshake tidak sah" else
  let offset := HANDSHAKE_V2_HEADER_BYTES in
  let id := slice buffer offset (offset + HANDSHAKE_V2_CT_BYTES) in
  let offset := offset + HANDSHAKE_V2_CT_BYTES in
  let spk := slice buffer offset (offset + HANDSHAKE_V2_CT_BYTES) in
  let offset := offset + HANDSHAKE_V2_CT_BYTES in
  let otpk := if hasOtpk then Some (slice buffer offset (offset + HANDSHAKE_V2_CT_BYTES))
              else None in
  let offset := if hasOtpk then offset + HANDSHAKE_V2_CT_BYTES else offset in
  Ok (mkHandshake id spk otpk (slice buffer offset (offset + ML_DSA_65_SIGNATURE_BYTES))).

(** [concatLengthPrefixed]: every field behind its 32-bit length. *)
Fixpoint lp_loop (out : bytes) (offset : Z) (fields : list bytes) : result bytes :=
  match fields with
  | [] => Ok out
  | f :: rest =>
      out ← set_u32 out offset (blen f);
      out ← u8_set out (offset + 4) f;
      lp_loop out (offset + 4 + blen f) rest
  end.
Definition concatLengthPrefixed (fields : list bytes) : result bytes :=
  lp_loop (zeros (foldr (fun f n => 4 + blen f + n) 0 fields)) 0 fields.

Record transcript_input := mkTranscript {
  initiatorSigningKeyV2 : bytes; responderIdentityKey : bytes;
  t_ctId : bytes; t_ctSpk : bytes; t_ctOtpk : option bytes }.

Definition buildHandshakeV2Transcript (i : transcript_input) : result bytes :=
  _ ← assertLength (initiatorSigningKeyV2 i) ML_DSA_65_PUBLIC_KEY_BYTES
        "x3dh v2: panjang initiatorSigningKeyV2 tidak sah";
  _ ← assertLength (responderIdentityKey i) X25519_PUBLIC_KEY_BYTES
        "x3dh v2: panjang responderIdentityKey tidak sah";
  _ ← assertLength (t_ctId i) HANDSHAKE_V2_CT_BYTES "x3dh v2: panjang ctId tidak sah";
  _ ← assertLength (t_ctSpk i) HANDSHAKE_V2_CT_BYTES "x3dh v2: panjang ctSpk tidak sah";
  _ ← assertOptLength (t_ctOtpk i) HANDSHAKE_V2_CT_BYTES "x3dh v2: panjang ctOtpk tidak sah";
  concatLengthPrefixed [initiatorSigningKeyV2 i; responderIdentityKey i; t_ctId i; t_ctSpk i;
    default [] (t_ctOtpk i)].

End Handshake.

Module PqSeal.

Definition PQ_SEAL_V2_MAGIC : Z := 1314476850.
Definition PQ_SEAL_V2_HEADER_BYTES : Z := 4.
Definition PQ_SEAL_V2_CT_BYTES : Z := XWING_CIPHERTEXT_BYTES.
Definition PQ_SEAL_V2_NONCE_BYTES : Z := 24.
Definition PQ_SEAL_V2_TAG_BYTES : Z := 16.
Definition PQ_SEAL_V2_MIN_BYTES : Z :=
  PQ_SEAL_V2_HEADER_BYTES + PQ_SEAL_V2_CT_BYTES + PQ_SEAL_V2_NONCE_BYTES + PQ_SEAL_V2_TAG_BYTES.

Record PqSealV2Parts := mkParts { ciphertext : bytes; nonce : bytes; sealed : bytes }.

Definition serializePqSealV2 (p : PqSealV2Parts) : result bytes :=
  _ ← assertLength (ciphertext p) PQ_SEAL_V2_CT_BYTES "pq_seal v2: panjang ciphertext tidak sah";
  _ ← assertLength (nonce p) PQ_SEAL_V2_NONCE_BYTES "pq_seal v2: panjang nonce tidak sah";
  if blen (sealed p) <? PQ_SEAL_V2_TAG_BYTES
  then throw "pq_seal v2: ciphertext ter-seal terlalu pendek" else
  let out := zeros (PQ_SEAL_V2_HEADER_BYTES + blen (ciphertext p) + blen (nonce p)
    + blen (sealed p)) in
  out ← set_u32 out 0 PQ_SEAL_V2_MAGIC;
  let offset := PQ_SEAL_V2_HEADER_BYTES in
  out ← u8_set out offset (ciphertext p);
  let offset := offset + blen (ciphertext p) in
  out ← u8_set out offset (nonce p);
  let offset := offset + blen (nonce p) in
  u8_set out offset (sealed p).

Definition isPqSealV2 (buffer : bytes) : bool :=
  if blen buffer <? PQ_SEAL_V2_MIN_BYTES then false else
  match get_u32 buffer 0 with Ok m => m =? PQ_SEAL_V2_MAGIC | Err _ => false end.

Definition deserializePqSealV2 (buffer : bytes) : result PqSealV2Parts :=
  if blen buffer <? PQ_SEAL_V2_MIN_BYTES then throw "pq_seal v2: envelope terlalu pendek" else
  magic ← get_u32 buffer 0;
  if negb (magic =? PQ_SEAL_V2_MAGIC) then throw "pq_seal v2: magic envelope tidak sah" else
  let offset := PQ_SEAL_V2_HEADER_BYTES in
  let ct := slice buffer offset (offset + PQ_SEAL_V2_CT_BYTES) in
  let offset := offset + PQ_SEAL_V2_CT_BYTES in
  let n := slice buffer offset (offset + PQ_SEAL_V2_NONCE_BYTES) in
  let offset := offset + PQ_SEAL_V2_NONCE_BYTES in
  Ok (mkParts ct n (slice_from buffer offset)).

End PqSeal.

Module KtValue.

Definition KT_VALUE_VERSION_V1 : Z := 1.
Definition KT_VALUE_VERSION_V2 : Z := 2.
Definition KT_ED25519_SIGNING_KEY_BYTES : Z := 32.
Definition KT_VALUE_V1_BYTES : Z :=
  1 + 1 + X25519_PUBLIC_KEY_BYTES + XWING_PUBLIC_KEY_BYTES + KT_ED25519_SIGNING_KEY_BYTES + 4.
Definition KT_VALUE_V2_BYTES : Z := KT_VALUE_V1_BYTES + ML_DSA_65_PUBLIC_KEY_BYTES.
Definition V1_OFFSET_PQ : Z := 2 + X25519_PUBLIC_KEY_BYTES.
Definition V1_OFFSET_SIGN : Z := V1_OFFSET_PQ + XWING_PUBLIC_KEY_BYTES.
Definition V1_OFFSET_DAY : Z := V1_OFFSET_SIGN + KT_ED25519_SIGNING_KEY_BYTES.
Definition V2_OFFSET_SIGN_V2 : Z := V1_OFFSET_DAY.
Definition V2_OFFSET_DAY : Z := V2_OFFSET_SIGN_V2 + ML_DSA_65_PUBLIC_KEY_BYTES.

Record ParsedKtValue := mkKtValue {
  version : Z; keyVersion : Z; identityKey : bytes; pqIdentityKey : bytes;
  signingKey : bytes; signingKeyV2 : option bytes; updatedAtDay : Z }.

Definition parseKtValueBytes (value : bytes) : result ParsedKtValue :=
  if blen value <? 2 then throw "kt: nilai log terlalu pendek" else
  let v := default 0 (u8_get value 0) in
  let kv := default 0 (u8_get value 1) in
  if v =? KT_VALUE_VERSION_V1 then
    if blen value <? KT_VALUE_V1_BYTES then throw "kt: nilai log v1 terlalu pendek" else
    day ← get_u32 value V1_OFFSET_DAY;
    Ok (mkKtValue v kv (slice value 2 V1_OFFSET_PQ) (slice value V1_OFFSET_PQ V1_OFFSET_SIGN)
      (slice value V1_OFFSET_SIGN V1_OFFSET_DAY) None day)
  else if v =? KT_VALUE_VERSION_V2 then
    if blen value <? KT_VALUE_V2_BYTES then throw "kt: nilai log v2 terlalu pendek" else
    day ← get_u32 value V2_OFFSET_DAY;
    Ok (mkKtValue v kv (slice value 2 V1_OFFSET_PQ) (slice value V1_OFFSET_PQ V1_OFFSET_SIGN)
      (slice value V1_OFFSET_SIGN V1_OFFSET_DAY)
      (Some (slice value V2_OFFSET_SIGN_V2 V2_OFFSET_DAY)) day)
  else throw "kt: versi nilai log tidak dikenal".

Record entry := mkEntry {
  e_identityKey : bytes; e_pqIdentityKey : bytes; e_signingKey : bytes;
  e_signingKeyV2 : bytes; e_keyVersion : Z; e_updatedAtDay : Z }.

Definition encodeKtValueV2 (e : entry) : result bytes :=
  _ ← assertLength (e_identityKey e) X25519_PUBLIC_KEY_BYTES "kt: identityKey tidak sah";
  _ ← assertLength (e_pqIdentityKey e) XWING_PUBLIC_KEY_BYTES "kt: pqIdentityKey tidak sah";
  _ ← assertLength (e_signingKey e) KT_ED25519_SIGNING_KEY_BYTES "kt: signingKey tidak sah";
  _ ← assertLength (e_signingKeyV2 e) ML_DSA_65_PUBLIC_KEY_BYTES "kt: signingKeyV2 tidak sah";
  let value := zeros KT_VALUE_V2_BYTES in
  let offset := 0 in
  let value := u8_store value offset KT_VALUE_VERSION_V2 in
  let offset := offset + 1 in
  let value := u8_store value offset (Z.land (e_keyVersion e) 255) in
  let offset := offset + 1 in
  value ← u8_set value offset (e_identityKey e);
  let offset := offset + X25519_PUBLIC_KEY_BYTES in
  value ← u8_set value offset (e_pqIdentityKey e);
  let offset := offset + XWING_PUBLIC_KEY_BYTES in
  value ← u8_set value offset (e_signingKey e);
  let offset := offset + KT_ED25519_SIGNING_KEY_BYTES in
  value ← u8_set value offset (e_signingKeyV2 e);
  let offset := offset + ML_DSA_65_PUBLIC_KEY_BYTES in
  set_u32 value offset (e_updatedAtDay e mod 4294967296).

End KtValue.

(** ** Lemmas: assembling and reading fixed layouts *)

Lemma assertLength_ok v n msg r : assertLength v n msg = Ok r -> blen v = n.
Proof.
  unfold assertLength, guard_not. destruct (blen v =? n) eqn:E; [|done]. by bools.
Qed.

Lemma assertLength_eq v n msg : blen v = n -> assertLength v n msg = Ok tt.
Proof. unfold assertLength, guard_not. intros ->. by rewrite Z.eqb_refl. Qed.

(** Turn the length assertions of a run that returned into equations. *)
Ltac lengths :=
  repeat match goal with
  | H : mbind _ (assertLength ?v ?n ?msg) = Ok _ |- _ =>
      let E := fresh "L" in
      destruct (assertLength v n msg) eqn:E; cbn [mbind result_bind] in H; [|discriminate H];
      apply assertLength_ok in E
  end.

Lemma set_u32_fill a n v off :
  off = blen a -> 4 <= n -> set_u32 (a ++ zeros n) off v = Ok ((a ++ be32 v) ++ zeros (n - 4)).
Proof. intros -> Hn. unfold set_u32. by rewrite u8_set_fill. Qed.

Lemma set_u32_first n v : 4 <= n -> set_u32 (zeros n) 0 v = Ok (be32 v ++ zeros (n - 4)).
Proof. intros. apply (set_u32_fill [] n v 0); done. Qed.

Lemma zeros_nil n : n <= 0 -> zeros n = [].
Proof. intros. unfold zeros. by replace (Z.to_nat n) with 0%nat by lia. Qed.

Import Handshake.

Lemma is_some_size (o : option bytes) :
  handshake_size (is_some o) = 5553 + (if is_some o then 1120 else 0).
Proof. by destruct o. Qed.

(** The wire image of a handshake. *)
Definition handshake_bytes (h : HandshakeV2Parsed) : bytes :=
  [z2b 78; z2b 2; z2b (if is_some (ctOtpk h) then 1 else 0); z2b 0]
    ++ ctId h ++ ctSpk h ++ default [] (ctOtpk h) ++ signature h.

Lemma serializeHandshakeV2_inv h b :
  serializeHandshakeV2 h = Ok b ->
  b = handshake_bytes h /\ blen (ctId h) = 1120 /\ blen (ctSpk h) = 1120 /\
  (forall c, ctOtpk h = Some c -> blen c = 1120) /\ blen (signature h) = 3309.
Proof.
  unfold serializeHandshakeV2, assertOptLength. intros H. lengths.
  assert (Ho : forall c, ctOtpk h = Some c -> blen c = 1120).
  { intros c Hc. rewrite Hc in H. lengths. done. }
  destruct (match ctOtpk h with Some _ => _ | None => _ end) eqn:Em in H; [|done].
  rewrite bind_ok in H. lengths. rewrite is_some_size in H.
  unfold HANDSHAKE_V2_CT_BYTES, XWING_CIPHERTEXT_BYTES, HANDSHAKE_V2_HEADER_BYTES in *.
  assert (0 <= (if is_some (ctOtpk h) then 1120 else 0) <= 1120) by (by destruct (is_some _)).
  rewrite u8_store_first in H by lia.
  rewrite !u8_store_fill in H by (done || lia).
  rewrite u8_set_fill' in H by (blia || lia). rewrite bind_ok in H.
  rewrite u8_set_fill' in H by (blia || lia). rewrite bind_ok in H.
  split_and!; try done. unfold handshake_bytes.
  destruct (ctOtpk h) as [c|] eqn:Ec; cbn [is_some default] in *.
  - pose proof (Ho c eq_refl).
    rewrite u8_set_fill' in H by (blia || lia). rewrite bind_ok in H.
    rewrite u8_set_fill' in H by (unfold ML_DSA_65_SIGNATURE_BYTES in *; blia || lia).
    injection H as <-. rewrite zeros_nil by (unfold ML_DSA_65_SIGNATURE_BYTES in *; lia).
    rewrite <- !app_assoc, app_nil_r. done.
  - rewrite u8_set_fill' in H by (unfold ML_DSA_65_SIGNATURE_BYTES in *; blia || lia).
    injection H as <-. rewrite zeros_nil by (unfold ML_DSA_65_SIGNATURE_BYTES in *; lia).
    rewrite <- !app_assoc, app_nil_r. done.
Qed.

Lemma deserialize_handshake_bytes h :
  blen (ctId h) = 1120 -> blen (ctSpk h) = 1120 ->
  (forall c, ctOtpk h = Some c -> blen c = 1120) -> blen (signature h) = 3309 ->
  deserializeHandshakeV2 (handshake_bytes h) = Ok h.
Proof.
  intros Hi Hs Ho Hg.
  assert (Hod : blen (default [] (ctOtpk h)) = if is_some (ctOtpk h) then 1120 else 0).
  { destruct (ctOtpk h); cbn; auto. }
  assert (Hlen : blen (handshake_bytes h) = handshake_size (is_some (ctOtpk h))).
  { rewrite is_some_size. unfold handshake_bytes. autorewrite with nyx. lia. }
  unfold deserializeHandshakeV2. rewrite Hlen, is_some_size.
  change HANDSHAKE_V2_MIN_BYTES with 5553.
  replace (_ <? 5553) with false by (destruct (is_some _); done).
  set (hd := [z2b 78; z2b 2; z2b (if is_some (ctOtpk h) then 1 else 0); z2b 0]).
  change (u8_get (handshake_bytes h) 0) with (Some (b2z (z2b 78))).
  change (u8_get (handshake_bytes h) 1) with (Some (b2z (z2b 2))).
  change (u8_get (handshake_bytes h) 2)
    with (Some (b2z (z2b (if is_some (ctOtpk h) then 1 else 0)))).
  rewrite !bool_decide_eq_true_2 by (by vm_compute). cbn [negb default].
  replace (negb (Z.land _ _ =? 0)) with (is_some (ctOtpk h))
    by (by destruct (is_some (ctOtpk h))).
  rewrite is_some_size, Z.eqb_refl. cbn [negb].
  unfold HANDSHAKE_V2_CT_BYTES, XWING_CIPHERTEXT_BYTES, HANDSHAKE_V2_HEADER_BYTES,
    ML_DSA_65_SIGNATURE_BYTES.
  set (o := default [] (ctOtpk h)) in *.
  rewrite (slice_split _ hd (ctId h) (ctSpk h ++ o ++ signature h)) by (done || (cbn; lia)).
  rewrite (slice_split _ (hd ++ ctId h) (ctSpk h) (o ++ signature h))
    by (split_app || (subst hd; blia)).
  destruct h as [id spk otpk sg]. cbn [ctId ctSpk ctOtpk signature] in *.
  destruct otpk as [c|]; cbn [is_some] in *; subst o; cbn [default] in *.
  - pose proof (Ho c eq_refl).
    rewrite (slice_split _ (hd ++ id ++ spk) c sg) by (split_app || (subst hd; blia)).
    rewrite (slice_split _ (hd ++ id ++ spk ++ c) sg []); [done| |subst hd; blia|blia].
    unfold handshake_bytes. cbn. by rewrite <- !app_assoc, app_nil_r.
  - rewrite (slice_split _ (hd ++ id ++ spk) sg []); [done| |subst hd; blia|lia].
    unfold handshake_bytes. cbn. by rewrite <- !app_assoc, app_nil_r.
Qed.

(** X3DH v2 handshake round trip. Whatever [serializeHandshakeV2] writes,
    with or without a one-time prekey ciphertext, [deserializeHandshakeV2] reads
    back, and the buffer has exactly the announced size. *)
Theorem handshake_v2_roundtrip h b :
  serializeHandshakeV2 h = Ok b ->
  deserializeHandshakeV2 b = Ok h /\ blen b = handshake_size (is_some (ctOtpk h)).
Proof.
  intros H. destruct (serializeHandshakeV2_inv _ _ H) as (-> & Hi & Hs & Ho & Hg). split.
  - by apply deserialize_handshake_bytes.
  - rewrite is_some_size. unfold handshake_bytes. autorewrite with nyx.
    destruct (ctOtpk h) as [c|].
    + pose proof (Ho c eq_refl). change (default [] (Some c)) with c. cbn [is_some]. lia.
    + change (default [] None) with (@nil byte). cbn [is_some]. rewrite blen_nil. lia.
Qed.

Definition sample_handshake : HandshakeV2Parsed :=
  mkHandshake (zeros 1120) (replicate 1120 xff) (Some (replicate 1120 x05)) (replicate 3309 x07).

Lemma handshake_v2_roundtrip_witness :
  match serializeHandshakeV2 sample_handshake with
  | Ok b => deserializeHandshakeV2 b = Ok sample_handshake
  | Err _ => False
  end.
Proof.
  destruct (serializeHandshakeV2 sample_handshake) as [b|] eqn:E.
  - exact (proj1 (handshake_v2_roundtrip sample_handshake b E)).
  - vm_compute in E. discriminate E.
Defined.

(** ** The signed transcript *)

Definition lp (f : bytes) : bytes := be32 (blen f) ++ f.

Lemma be32_inj v w :
  0 <= v < 4294967296 -> 0 <= w < 4294967296 -> be32 v = be32 w -> v = w.
Proof.
  intros Hv Hw H.
  pose proof (get_u32_split (be32 v) [] [] 0 v ltac:(by rewrite app_nil_r) eq_refl Hv) as E1.
  pose proof (get_u32_split (be32 w) [] [] 0 w ltac:(by rewrite app_nil_r) eq_refl Hw) as E2.
  rewrite H, E2 in E1. by injection E1.
Qed.

Lemma lp_loop_ok fields : forall acc,
  lp_loop (acc ++ zeros (foldr (fun f n => 4 + blen f + n) 0 fields)) (blen acc) fields
    = Ok (acc ++ concat (map lp fields)).
Proof.
  assert (Hpos : forall fs, 0 <= foldr (fun f n => 4 + blen f + n) 0 fs).
  { induction fs as [|f fs IH]; cbn [foldr]; [lia|]. pose proof (blen_nonneg f). lia. }
  induction fields as [|f fields IH]; intros acc; [done|]. cbn [foldr lp_loop map concat].
  pose proof (blen_nonneg f). pose proof (Hpos fields).
  rewrite set_u32_fill by (done || lia). rewrite bind_ok.
  rewrite u8_set_fill' by (autorewrite with nyx; lia). rewrite bind_ok.
  replace (_ - 4 - blen f) with (foldr (fun f n => 4 + blen f + n) 0 fields) by lia.
  replace (blen acc + 4 + blen f) with (blen ((acc ++ be32 (blen f)) ++ f))
    by (autorewrite with nyx; lia).
  rewrite IH. unfold lp. by rewrite <- !app_assoc.
Qed.

Lemma concatLengthPrefixed_ok fields : concatLengthPrefixed fields = Ok (concat (map lp fields)).
Proof. apply (lp_loop_ok fields []). Qed.

Lemma app_inj_blen (a b c d : bytes) : blen a = blen c -> a ++ b = c ++ d -> a = c /\ b = d.
Proof. unfold blen. intros ? ?. apply app_inj_1; [lia|done]. Qed.

Lemma lp_concat_inj fs gs :
  length fs = length gs ->
  Forall (fun f => blen f < 4294967296) fs -> Forall (fun f => blen f < 4294967296) gs ->
  concat (map lp fs) = concat (map lp gs) -> fs = gs.
Proof.
  revert gs; induction fs as [|f fs IH]; intros [|g gs];
    cbn [length map concat]; try done.
  intros [= Hl] Hf Hg H. inversion_clear Hf. inversion_clear Hg. unfold lp in H.
  rewrite <- !app_assoc in H. pose proof (blen_nonneg f). pose proof (blen_nonneg g).
  apply app_inj_blen in H as [Hn H]; [|done]. apply be32_inj in Hn; [|lia..].
  apply app_inj_blen in H as [-> H]; [|done]. f_equal. auto.
Qed.

Lemma transcript_inv i b :
  buildHandshakeV2Transcript i = Ok b ->
  b = concat (map lp [initiatorSigningKeyV2 i; responderIdentityKey i; t_ctId i; t_ctSpk i;
                      default [] (t_ctOtpk i)]) /\
  Forall (fun f => blen f < 4294967296)
    [initiatorSigningKeyV2 i; responderIdentityKey i; t_ctId i; t_ctSpk i;
     default [] (t_ctOtpk i)] /\
  (forall c, t_ctOtpk i = Some c -> blen c = 1120).
Proof.
  unfold buildHandshakeV2Transcript, assertOptLength. intros H. lengths.
  destruct (t_ctOtpk i) as [c|] eqn:Ec; lengths; rewrite ?bind_ok, concatLengthPrefixed_ok in H;
    injection H as <-;
    unfold ML_DSA_65_PUBLIC_KEY_BYTES, X25519_PUBLIC_KEY_BYTES, HANDSHAKE_V2_CT_BYTES,
      XWING_CIPHERTEXT_BYTES in *;
    (split; [done|split; [|congruence]]);
    repeat apply Forall_cons_2; try apply Forall_nil_2; cbn [default]; try lia.
  - unfold id. lia.
  - done.
Qed.

(** The transcript that both sides sign determines every field: two
    handshakes with the same transcript bytes have the same signing key, responder
    identity, ciphertexts, and agree on whether a one-time prekey was used (so a
    signature cannot be moved to a handshake with the one-time prekey stripped). *)
Theorem transcript_injective i j b :
  buildHandshakeV2Transcript i = Ok b -> buildHandshakeV2Transcript j = Ok b -> i = j.
Proof.
  intros Hi Hj. apply transcript_inv in Hi as (Hb & Li & Oi), Hj as (Hb' & Lj & Oj).
  rewrite Hb in Hb'. apply lp_concat_inj in Hb'; [|done..].
  destruct i as [a1 a2 a3 a4 a5], j as [b1 b2 b3 b4 b5]; cbn in *.
  injection Hb' as -> -> -> -> He. f_equal.
  destruct a5 as [x|], b5 as [y|]; cbn in He; subst; try done.
  - pose proof (Oi [] eq_refl). done.
  - pose proof (Oj [] eq_refl). done.
Qed.

Definition sample_transcript : transcript_input :=
  mkTranscript (zeros 1952) (zeros 32) (zeros 1120) (zeros 1120) None.

Lemma transcript_injective_witness :
  match buildHandshakeV2Transcript sample_transcript with
  | Ok b => forall j, buildHandshakeV2Transcript j = Ok b -> sample_transcript = j
  | Err _ => False
  end.
Proof.
  destruct (buildHandshakeV2Transcript sample_transcript) as [b|] eqn:E.
  - intros j. exact (transcript_injective sample_transcript j b E).
  - vm_compute in E. discriminate E.
Defined.

(** ** Sealed-box envelopes *)
Import PqSeal.

Lemma serializePqSealV2_inv p b :
  serializePqSealV2 p = Ok b ->
  b = be32 PQ_SEAL_V2_MAGIC ++ ciphertext p ++ nonce p ++ sealed p /\
  blen (ciphertext p) = 1120 /\ blen (nonce p) = 24 /\ 16 <= blen (sealed p).
Proof.
  unfold serializePqSealV2. intros H. lengths.
  unfold PQ_SEAL_V2_CT_BYTES, PQ_SEAL_V2_NONCE_BYTES, XWING_CIPHERTEXT_BYTES,
    PQ_SEAL_V2_HEADER_BYTES, PQ_SEAL_V2_TAG_BYTES in *.
  destruct (blen (sealed p) <? 16) eqn:Es; [done|]. bools.
  rewrite set_u32_first, bind_ok in H by lia.
  rewrite !u8_set_fill' in H by (blia || lia). rewrite bind_ok in H.
  rewrite !u8_set_fill' in H by (blia || lia). rewrite bind_ok in H.
  rewrite !u8_set_fill' in H by (blia || lia).
  injection H as <-. rewrite zeros_nil, app_nil_r by lia. by rewrite <- !app_assoc.
Qed.

(** Sealed-box envelope round trip. An envelope written by
    [serializePqSealV2] is recognised by [isPqSealV2] and parsed back to the same
    ciphertext, nonce and sealed payload. *)
Theorem pq_seal_v2_roundtrip p b :
  serializePqSealV2 p = Ok b -> isPqSealV2 b = true /\ deserializePqSealV2 b = Ok p.
Proof.
  intros H. apply serializePqSealV2_inv in H as (-> & Hc & Hn & Hs).
  unfold isPqSealV2, deserializePqSealV2.
  set (w := be32 _ ++ _ ++ _ ++ _).
  assert (Hw : blen w = 1148 + blen (sealed p)) by (subst w; blia).
  assert (Hm : get_u32 w 0 = Ok PQ_SEAL_V2_MAGIC).
  { apply (get_u32_split _ [] (ciphertext p ++ nonce p ++ sealed p)); done. }
  change PQ_SEAL_V2_MIN_BYTES with 1164. rewrite Hw, Hm, bind_ok. ztest. cbn [negb].
  split; [done|].
  unfold PQ_SEAL_V2_CT_BYTES, PQ_SEAL_V2_NONCE_BYTES, XWING_CIPHERTEXT_BYTES,
    PQ_SEAL_V2_HEADER_BYTES.
  rewrite (slice_split w (be32 PQ_SEAL_V2_MAGIC) (ciphertext p) (nonce p ++ sealed p))
    by (done || blia).
  rewrite (slice_split w (be32 PQ_SEAL_V2_MAGIC ++ ciphertext p) (nonce p) (sealed p))
    by ((subst w; split_app) || blia).
  replace w with ((be32 PQ_SEAL_V2_MAGIC ++ ciphertext p ++ nonce p) ++ sealed p)
    by (subst w; split_app).
  rewrite slice_from_app by blia. by destruct p.
Qed.

Definition sample_parts : PqSealV2Parts := mkParts (zeros 1120) (zeros 24) (replicate 20 x01).

Lemma pq_seal_v2_roundtrip_witness :
  match serializePqSealV2 sample_parts with
  | Ok b => isPqSealV2 b = true /\ deserializePqSealV2 b = Ok sample_parts
  | Err _ => False
  end.
Proof.
  destruct (serializePqSealV2 sample_parts) as [b|] eqn:E.
  - exact (pq_seal_v2_roundtrip sample_parts b E).
  - vm_compute in E. discriminate E.
Defined.

(** ** Key transparency log values *)
Import KtValue.

Lemma encodeKtValueV2_inv e b :
  encodeKtValueV2 e = Ok b ->
  b = [z2b 2] ++ [z2b (Z.land (e_keyVersion e) 255)] ++ e_identityKey e ++ e_pqIdentityKey e
        ++ e_signingKey e ++ e_signingKeyV2 e ++ be32 (e_updatedAtDay e mod 4294967296) /\
  blen (e_identityKey e) = 32 /\ blen (e_pqIdentityKey e) = 1216 /\
  blen (e_signingKey e) = 32 /\ blen (e_signingKeyV2 e) = 1952.
Proof.
  unfold encodeKtValueV2. intros H. lengths.
  unfold X25519_PUBLIC_KEY_BYTES, XWING_PUBLIC_KEY_BYTES, KT_ED25519_SIGNING_KEY_BYTES,
    ML_DSA_65_PUBLIC_KEY_BYTES in *.
  change KT_VALUE_V2_BYTES with 3238 in H.
  rewrite u8_store_first, u8_store_fill in H by (done || lia).
  do 4 (rewrite u8_set_fill', bind_ok in H by (blia || lia)).
  rewrite set_u32_fill in H by (blia || lia).
  injection H as <-. rewrite zeros_nil, app_nil_r by lia. by rewrite <- !app_assoc.
Qed.

(** Key-transparency value round trip. A value written by [encodeKtValueV2]
    parses back to version 2 with the four keys unchanged, the key version
    reduced to a byte and the day number to 32 bits, as they are stored. *)
Theorem kt_value_roundtrip e b :
  encodeKtValueV2 e = Ok b ->
  parseKtValueBytes b =
    Ok (mkKtValue 2 (e_keyVersion e mod 256) (e_identityKey e) (e_pqIdentityKey e)
          (e_signingKey e) (Some (e_signingKeyV2 e)) (e_updatedAtDay e mod 4294967296)).
Proof.
  intros H. apply encodeKtValueV2_inv in H as (Hb & Hi & Hp & Hs & Hv).
  set (kv := Z.land (e_keyVersion e) 255) in *.
  set (day := e_updatedAtDay e mod 4294967296) in *.
  assert (Hd : 0 <= day < 4294967296) by (apply Z.mod_pos_bound; lia).
  assert (Hl : blen b = 3238) by (subst b; blia).
  assert (H0 : u8_get b 0 = Some 2) by (by subst b).
  assert (H1 : u8_get b 1 = Some (e_keyVersion e mod 256)).
  { subst b. change (u8_get _ 1) with (Some (b2z (z2b kv))). rewrite b2z_z2b. subst kv.
    change 255 with (Z.ones 8). rewrite Z.land_ones by lia. by rewrite Z.mod_mod by lia. }
  unfold parseKtValueBytes. rewrite Hl, H0, H1. cbn [default from_option id].
  change KT_VALUE_V2_BYTES with 3238. change (3238 <? 2) with false.
  change (2 =? KT_VALUE_VERSION_V1) with false. change (2 =? KT_VALUE_VERSION_V2) with true.
  change (3238 <? 3238) with false. cbn iota.
  change V2_OFFSET_DAY with 3234. change V2_OFFSET_SIGN_V2 with 1282.
  change V1_OFFSET_DAY with 1282. change V1_OFFSET_SIGN with 1250. change V1_OFFSET_PQ with 34.
  pose (hd := [z2b 2; z2b kv]).
  rewrite (get_u32_split b (hd ++ e_identityKey e ++ e_pqIdentityKey e ++ e_signingKey e
    ++ e_signingKeyV2 e) [] 3234 day) by (done || (subst b hd; split_app) || (subst hd; blia)).
  rewrite bind_ok.
  rewrite (slice_split b hd (e_identityKey e) (e_pqIdentityKey e ++ e_signingKey e
    ++ e_signingKeyV2 e ++ be32 day)) by ((subst b hd; split_app) || (subst hd; blia)).
  rewrite (slice_split b (hd ++ e_identityKey e) (e_pqIdentityKey e) (e_signingKey e
    ++ e_signingKeyV2 e ++ be32 day)) by ((subst b hd; split_app) || (subst hd; blia)).
  rewrite (slice_split b (hd ++ e_identityKey e ++ e_pqIdentityKey e) (e_signingKey e)
    (e_signingKeyV2 e ++ be32 day)) by ((subst b hd; split_app) || (subst hd; blia)).
  rewrite (slice_split b (hd ++ e_identityKey e ++ e_pqIdentityKey e ++ e_signingKey e)
    (e_signingKeyV2 e) (be32 day)) by ((subst b hd; split_app) || (subst hd; blia)).
  done.
Qed.

Definition sample_entry : entry :=
  mkEntry (zeros 32) (replicate 1216 x01) (zeros 32) (replicate 1952 x02) 300 20500.

Lemma kt_value_roundtrip_witness :
  match encodeKtValueV2 sample_entry with
  | Ok b => parseKtValueBytes b = Ok (mkKtValue 2 44 (zeros 32) (replicate 1216 x01) (zeros 32)
              (Some (replicate 1952 x02)) 20500)
  | Err _ => False
  end.
Proof.
  destruct (encodeKtValueV2 sample_entry) as [b|] eqn:E.
  - exact (kt_value_roundtrip sample_entry b E).
  - vm_compute in E. discriminate E.
Defined.
