(* ===== verification/Envelope.v ===== *)
(** Small binary formats: packages/shared/src/groupEnvelope.ts (sender-key
    distribution), pqBundle.ts (the message ML-DSA signs over a pre-key bundle),
    and, from web/src/workers/crypto.worker.ts, the X3DH v1 handshake and the
    traffic-cover padding. *)
From S2P Require Import Prelude Bytes PqWire.
Import Suite.

(** [constantTimeEqual]: the differences of all positions are accumulated. *)
Fixpoint ct_diff (diff : Z) (a b : bytes) : Z :=
  match a with
  | [] => diff
  | x :: a' =>
      let y := match b with y :: _ => b2z y | [] => 0 end in
      ct_diff (Z.lor diff (Z.lxor (b2z x) y)) a' (tail b)
  end.

Definition constantTimeEqual (a b : bytes) : bool :=
  if negb (blen a =? blen b) then false else ct_diff 0 a b =? 0.

Module GroupEnvelope.
Section Hash.

(** BLAKE2b with a 32 byte digest, from [@noble/hashes]. *)
Context (blake2b_32 : bytes -> bytes).

Definition GROUP_CHAIN_ID_BYTES : Z := 8.
Definition GROUP_CHAIN_KEY_BYTES : Z := 32.
Definition GROUP_METADATA_KEY_BYTES : Z := 32.
Definition GROUP_SENDER_KEY_ID_BYTES : Z := 8.
Definition GROUP_ENVELOPE_V2_BYTES : Z :=
  1 + GROUP_CHAIN_ID_BYTES + 4 + GROUP_CHAIN_KEY_BYTES + GROUP_METADATA_KEY_BYTES.
Definition GROUP_ENVELOPE_V3_BYTES : Z := GROUP_ENVELOPE_V2_BYTES + GROUP_SENDER_KEY_ID_BYTES.
Definition GROUP_ENVELOPE_V4_BYTES : Z := GROUP_ENVELOPE_V3_BYTES + ML_DSA_65_PUBLIC_KEY_BYTES.
Definition SENDER_KEY_ID_DOMAIN : string := "NYX-PQ-GROUP-V4".

(** The discriminated union: the fields every version has, and the tail of each. *)
Inductive version_tail :=
| V2
| V3 (senderKeyId : bytes)
| V4 (senderKeyId signingKeyV2 : bytes).
Record GroupEnvelope := mkGroupEnvelope {
  chainId : bytes; iteration : Z; chainKey : bytes; metadataKey : bytes;
  tailOf : version_tail }.

Definition version_byte (t : version_tail) : Z :=
  match t with V2 => 2 | V3 _ => 3 | V4 _ _ => 4 end.
Definition envelope_size (t : version_tail) : Z :=
  match t with
  | V2 => GROUP_ENVELOPE_V2_BYTES
  | V3 _ => GROUP_ENVELOPE_V3_BYTES
  | V4 _ _ => GROUP_ENVELOPE_V4_BYTES
  end.

Definition deriveGroupSenderKeyId (signingKeyV2 : bytes) : result bytes :=
  let domain := ascii_bytes SENDER_KEY_ID_DOMAIN in
  let input := zeros (blen domain + blen signingKeyV2) in
  input ← u8_set input 0 domain;
  input ← u8_set input (blen domain) signingKeyV2;
  Ok (slice (blake2b_32 input) 0 GROUP_SENDER_KEY_ID_BYTES).

Definition check_tail (t : version_tail) : result unit :=
  match t with
  | V2 => Ok tt
  | V3 id =>
      assertLength id GROUP_SENDER_KEY_ID_BYTES "grup envelope: panjang senderKeyId tidak sah"
  | V4 id key =>
      _ ← assertLength id GROUP_SENDER_KEY_ID_BYTES
            "grup envelope: panjang senderKeyId tidak sah";
      _ ← assertLength key ML_DSA_65_PUBLIC_KEY_BYTES
            "grup envelope: panjang signingKeyV2 tidak sah";
      derived ← deriveGroupSenderKeyId key;
      guard_not (negb (constantTimeEqual derived id))
        "grup envelope: senderKeyId tidak cocok dengan signingKeyV2"
  end.

Definition packGroupEnvelope (e : GroupEnvelope) : result bytes :=
  _ ← assertLength (chainId e) GROUP_CHAIN_ID_BYTES "grup envelope: panjang chainId tidak sah";
  _ ← assertLength (chainKey e) GROUP_CHAIN_KEY_BYTES "grup envelope: panjang chainKey tidak sah";
  _ ← assertLength (metadataKey e) GROUP_METADATA_KEY_BYTES
        "grup envelope: panjang metadataKey tidak sah";
  _ ← guard_not ((iteration e <? 0) || (4294967295 <? iteration e))%bool
        "grup envelope: iteration di luar u32";
  _ ← check_tail (tailOf e);
  let out := zeros (envelope_size (tailOf e)) in
  let out := u8_store out 0 (version_byte (tailOf e)) in
  out ← u8_set out 1 (chainId e);
  out ← set_u32 out 9 (iteration e);
  out ← u8_set out 13 (chainKey e);
  out ← u8_set out (13 + GROUP_CHAIN_KEY_BYTES) (metadataKey e);
  match tailOf e with
  | V2 => Ok out
  | V3 id => u8_set out GROUP_ENVELOPE_V2_BYTES id
  | V4 id key =>
      out ← u8_set out GROUP_ENVELOPE_V2_BYTES id;
      u8_set out GROUP_ENVELOPE_V3_BYTES key
  end.

Definition parseGroupEnvelope (b : bytes) : result GroupEnvelope :=
  if blen b =? 0 then throw "grup envelope: kosong" else
  let version := default 0 (u8_get b 0) in
  _ ← (if version =? 2 then
         guard_not (negb (blen b =? GROUP_ENVELOPE_V2_BYTES)) "grup envelope: panjang v2 tidak sah"
       else if version =? 3 then
         guard_not (negb (blen b =? GROUP_ENVELOPE_V3_BYTES)) "grup envelope: panjang v3 tidak sah"
       else if version =? 4 then
         guard_not (negb (blen b =? GROUP_ENVELOPE_V4_BYTES)) "grup envelope: panjang v4 tidak sah"
       else throw "grup envelope: versi tidak didukung");
  let cid := slice b 1 (1 + GROUP_CHAIN_ID_BYTES) in
  it ← get_u32 b 9;
  let ck := slice b 13 (13 + GROUP_CHAIN_KEY_BYTES) in
  let mk := slice b (13 + GROUP_CHAIN_KEY_BYTES) GROUP_ENVELOPE_V2_BYTES in
  if version =? 2 then Ok (mkGroupEnvelope cid it ck mk V2) else
  let id := slice b GROUP_ENVELOPE_V2_BYTES GROUP_ENVELOPE_V3_BYTES in
  if version =? 3 then Ok (mkGroupEnvelope cid it ck mk (V3 id)) else
  Ok (mkGroupEnvelope cid it ck mk
        (V4 id (slice b GROUP_ENVELOPE_V3_BYTES GROUP_ENVELOPE_V4_BYTES))).

End Hash.
End GroupEnvelope.

Module PqBundle.

Record BundleV2SigningFields := mkBundle {
  identityKey : bytes; pqIdentityKey : bytes; signedPreKey : bytes; pqSignedPreKey : bytes;
  signingKeyV2 : bytes }.

(** [out] is a JS array of numbers; [x >>> k] of a length below 2^32. *)
Definition pushField (out : list Z) (b : bytes) : list Z :=
  let len := blen b in
  out ++ [Z.land (Z.shiftr (len mod 4294967296) 24) 255;
          Z.land (Z.shiftr (len mod 4294967296) 16) 255;
          Z.land (Z.shiftr (len mod 4294967296) 8) 255; Z.land len 255] ++ map b2z b.

Definition buildBundleV2Message (f : BundleV2SigningFields) : bytes :=
  let out := pushField [] (identityKey f) in
  let out := pushField out (pqIdentityKey f) in
  let out := pushField out (signedPreKey f) in
  let out := pushField out (pqSignedPreKey f) in
  let out := pushField out (signingKeyV2 f) in
  map z2b out.

End PqBundle.

(** Traffic-cover padding of the crypto worker. *)
Module Padding.

Definition PADDING_BLOCK_SIZE : Z := 8192.

Definition padBuffer (buf : bytes) (blockSize : Z) : result bytes :=
  let paddingLen := blockSize - blen buf mod blockSize in
  let padded := zeros (blen buf + paddingLen) in
  padded ← u8_set padded 0 buf;
  Ok (u8_store padded (blen buf) 128).

(** [while (i >= 0 && buf[i] === 0) i--] on the reversed buffer: what is left
    is [buf[0..i]] reversed. *)
Fixpoint strip_zeros (rev_buf : bytes) : bytes :=
  match rev_buf with
  | x00 :: rest => strip_zeros rest
  | _ => rev_buf
  end.

Definition unpadBuffer (buf : bytes) (blockSize : Z) : bytes :=
  match strip_zeros (rev buf) with
  | x80 :: rest => rev rest
  | _ => buf
  end.

End Padding.

(** X3DH v1 handshake, written and read by the worker itself. *)
Module HandshakeV1.

Definition HANDSHAKE_MAGIC : Z := 78.
Definition HANDSHAKE_VERSION : Z := 1.
Definition X_WING_CT_SIZE : Z := 1120.
Definition X25519_PK_SIZE : Z := 32.

Record handshake := mkV1 {
  ephemeralPublicKey : bytes; ctId : bytes; ctSpk : bytes; ctOtpk : option bytes }.

Definition serializeHandshake (h : handshake) : result bytes :=
  let hasOtpk := Handshake.is_some (ctOtpk h) in
  let flags := if hasOtpk then 1 else 0 in
  let size := 4 + X25519_PK_SIZE + X_WING_CT_SIZE * 2 + (if hasOtpk then X_WING_CT_SIZE else 0) in
  let buffer := zeros size in
  let buffer := u8_store buffer 0 HANDSHAKE_MAGIC in
  let buffer := u8_store buffer 1 HANDSHAKE_VERSION in
  let buffer := u8_store buffer 2 flags in
  let buffer := u8_store buffer 3 0 in
  let offset := 4 in
  buffer ← u8_set buffer offset (ephemeralPublicKey h);
  let offset := offset + X25519_PK_SIZE in
  buffer ← u8_set buffer offset (ctId h);
  let offset := offset + X_WING_CT_SIZE in
  buffer ← u8_set buffer offset (ctSpk h);
  let offset := offset + X_WING_CT_SIZE in
  match ctOtpk h with Some ct => u8_set buffer offset ct | None => Ok buffer end.

Definition deserializeHandshake (buffer : bytes) : result handshake :=
  if blen buffer <? 4 + X25519_PK_SIZE + X_WING_CT_SIZE * 2
  then throw "Invalid handshake buffer: too short" else
  let magic := default 0 (u8_get buffer 0) in
  let version := default 0 (u8_get buffer 1) in
  let flags := default 0 (u8_get buffer 2) in
  if negb (magic =? HANDSHAKE_MAGIC) then throw "Invalid handshake magic byte" else
  if negb (version =? HANDSHAKE_VERSION) then throw "Unsupported handshake version" else
  let hasOtpk := negb (Z.land flags 1 =? 0) in
  let offset := 4 in
  let ek := slice buffer offset (offset + X25519_PK_SIZE) in
  let offset := offset + X25519_PK_SIZE in
  let id := slice buffer offset (offset + X_WING_CT_SIZE) in
  let offset := offset + X_WING_CT_SIZE in
  let spk := slice buffer offset (offset + X_WING_CT_SIZE) in
  let offset := offset + X_WING_CT_SIZE in
  if hasOtpk then
    if blen buffer <? offset + X_WING_CT_SIZE
    then throw "Invalid handshake buffer: missing OTPK ciphertext" else
    Ok (mkV1 ek id spk (Some (slice buffer offset (offset + X_WING_CT_SIZE))))
  else Ok (mkV1 ek id spk None).

End HandshakeV1.

(** ** Constant-time comparison is equality *)

Lemma lor_zero a b : 0 <= a -> 0 <= b -> Z.lor a b = 0 <-> a = 0 /\ b = 0.
Proof. intros. apply Z.lor_eq_0_iff. Qed.

Lemma lxor_b2z_nonneg x y : 0 <= Z.lxor (b2z x) (b2z y).
Proof. apply Z.lxor_nonneg. pose proof (b2z_range x). pose proof (b2z_range y). lia. Qed.

Lemma ct_diff_zero a : forall b d,
  0 <= d -> length a = length b -> ct_diff d a b = 0 <-> d = 0 /\ a = b.
Proof.
  induction a as [|x a IH]; intros [|y b] d Hd Hl; try discriminate Hl; [cbn; naive_solver|].
  cbn [ct_diff tail]. pose proof (lxor_b2z_nonneg x y).
  rewrite IH; [|by apply Z.lor_nonneg|by injection Hl].
  rewrite lor_zero, Z.lxor_eq_0_iff by done. split.
  - intros [[-> Hx] ->]. apply b2z_inj in Hx. by subst.
  - intros [-> [= -> ->]]. done.
Qed.

(** The constant-time comparison is exactly equality of the two buffers. *)
Lemma constantTimeEqual_spec a b : constantTimeEqual a b = true <-> a = b.
Proof.
  unfold constantTimeEqual. destruct (blen a =? blen b) eqn:E; bools; cbn [negb].
  - rewrite Z.eqb_eq, ct_diff_zero by (unfold blen in *; lia). naive_solver.
  - split; [done|intros ->; done].
Qed.

(** ** Group envelopes *)
Section GroupEnvelopes.
Import GroupEnvelope.
Context (blake2b_32 : bytes -> bytes).

Definition tail_bytes (t : version_tail) : bytes :=
  match t with V2 => [] | V3 id => id | V4 id key => id ++ key end.

Lemma check_tail_lengths t u :
  check_tail blake2b_32 t = Ok u -> blen (tail_bytes t) = envelope_size t - 77 /\
  match t with V2 => True | V3 id | V4 id _ => blen id = 8 end.
Proof.
  destruct t as [|id|id key]; cbn [check_tail tail_bytes envelope_size]; intros H; [done| |].
  - apply assertLength_ok in H. by rewrite H.
  - lengths. rewrite blen_app, L, L0. done.
Qed.

Lemma packGroupEnvelope_inv e b :
  packGroupEnvelope blake2b_32 e = Ok b ->
  b = [z2b (version_byte (tailOf e))] ++ chainId e ++ be32 (iteration e) ++ chainKey e
        ++ metadataKey e ++ tail_bytes (tailOf e) /\
  blen (chainId e) = 8 /\ 0 <= iteration e < 4294967296 /\ blen (chainKey e) = 32 /\
  blen (metadataKey e) = 32 /\ check_tail blake2b_32 (tailOf e) = Ok tt.
Proof.
  unfold packGroupEnvelope. intros H. lengths.
  unfold GROUP_CHAIN_ID_BYTES, GROUP_CHAIN_KEY_BYTES, GROUP_METADATA_KEY_BYTES in *.
  unfold guard_not in H at 1. destruct (_ || _)%bool eqn:G in H; [done|].
  rewrite bind_ok in H. bools.
  destruct (check_tail blake2b_32 (tailOf e)) as [[]|] eqn:C; [|done]. rewrite bind_ok in H.
  pose proof (check_tail_lengths _ _ C) as [Ht Hid].
  set (n := envelope_size (tailOf e)) in *. pose proof (blen_nonneg (tail_bytes (tailOf e))).
  rewrite u8_store_first in H by lia.
  rewrite u8_set_fill', bind_ok in H by (blia || lia).
  rewrite set_u32_fill, bind_ok in H by (blia || lia).
  do 2 (rewrite u8_set_fill', bind_ok in H by (blia || lia)).
  split_and!; try done; try lia.
  destruct (tailOf e) as [|id|id key] eqn:Et; cbn [tail_bytes] in *.
  - injection H as <-. rewrite zeros_nil by (subst n; change (envelope_size V2) with 77; lia).
    by rewrite <- !app_assoc, app_nil_r.
  - rewrite u8_set_fill' in H by (change GROUP_ENVELOPE_V2_BYTES with 77; blia || lia).
    injection H as <-. rewrite zeros_nil, app_nil_r by lia. by rewrite <- !app_assoc.
  - rewrite blen_app in *. pose proof (blen_nonneg key).
    rewrite u8_set_fill', bind_ok in H by (change GROUP_ENVELOPE_V2_BYTES with 77; blia || lia).
    rewrite u8_set_fill' in H by (change GROUP_ENVELOPE_V3_BYTES with 85; blia || lia).
    injection H as <-. rewrite zeros_nil, app_nil_r by lia. by rewrite <- !app_assoc.
Qed.

(** Sender-key envelope round trip, for all three versions. What
    [packGroupEnvelope] writes parses back to the same envelope, and a packed v4
    envelope carries the identifier derived from its own verification key. *)
Theorem group_envelope_roundtrip e b :
  packGroupEnvelope blake2b_32 e = Ok b ->
  parseGroupEnvelope b = Ok e /\ blen b = envelope_size (tailOf e) /\
  match tailOf e with
  | V4 id key => deriveGroupSenderKeyId blake2b_32 key = Ok id
  | _ => True
  end.
Proof.
  intros H. apply packGroupEnvelope_inv in H as (Hb & Hc & Hi & Hk & Hm & C).
  pose proof (check_tail_lengths _ _ C) as [Ht Hid]. destruct e as [cid it ck mk t].
  cbn [chainId iteration chainKey metadataKey tailOf] in *.
  assert (Hl : blen b = envelope_size t) by (subst b; blia). split_and!; [|done|].
  - pose (v := [z2b (version_byte t)]).
    assert (Hv : u8_get b 0 = Some (version_byte t)) by (by subst b; destruct t).
    assert (Hit : get_u32 b 9 = Ok it).
    { apply (get_u32_split b (v ++ cid) (ck ++ mk ++ tail_bytes t)); [|subst v; blia|done].
      subst b v. split_app. }
    unfold parseGroupEnvelope. rewrite Hv, Hit, Hl. cbn [default from_option id].
    change GROUP_ENVELOPE_V2_BYTES with 77. change GROUP_ENVELOPE_V3_BYTES with 85.
    change GROUP_ENVELOPE_V4_BYTES with 2037. unfold GROUP_CHAIN_ID_BYTES, GROUP_CHAIN_KEY_BYTES.
    rewrite (slice_split b v cid (be32 it ++ ck ++ mk ++ tail_bytes t))
      by ((subst b v; split_app) || (subst v; blia)).
    rewrite (slice_split b (v ++ cid ++ be32 it) ck (mk ++ tail_bytes t))
      by ((subst b v; split_app) || (subst v; blia)).
    rewrite (slice_split b (v ++ cid ++ be32 it ++ ck) mk (tail_bytes t))
      by ((subst b v; split_app) || (subst v; blia)).
    destruct t as [|id|id key]; cbn [tail_bytes] in *; change (envelope_size V2) with 77 in *;
      change (envelope_size (V3 _)) with 85 in *; change (envelope_size (V4 _ _)) with 2037 in *;
      cbn -[slice]; try done.
    + rewrite (slice_split b (v ++ cid ++ be32 it ++ ck ++ mk) id [])
        by ((subst b v; split_app) || (subst v; blia)). done.
    + rewrite (slice_split b (v ++ cid ++ be32 it ++ ck ++ mk) id key)
        by ((subst b v; split_app) || (subst v; blia)).
      rewrite (slice_split b (v ++ cid ++ be32 it ++ ck ++ mk ++ id) key [])
        by ((subst b v; split_app) || (subst v; blia)). done.
  - destruct t as [|id|id key]; [done..|]. cbn [check_tail] in C. lengths.
    destruct (deriveGroupSenderKeyId blake2b_32 key) as [d|] eqn:D; [|done].
    rewrite bind_ok in C. unbind. bools. apply constantTimeEqual_spec in G. by subst.
Qed.
End GroupEnvelopes.

Definition sample_hash (b : bytes) : bytes := take 32 (rev b ++ zeros 32).
Definition sample_envelope : GroupEnvelope.GroupEnvelope :=
  GroupEnvelope.mkGroupEnvelope (replicate 8 x01) 70000 (replicate 32 x02) (replicate 32 x03)
    (GroupEnvelope.V4 (replicate 8 x05) (replicate 1952 x05)).

Lemma group_envelope_roundtrip_witness :
  match GroupEnvelope.packGroupEnvelope sample_hash sample_envelope with
  | Ok b => GroupEnvelope.parseGroupEnvelope b = Ok sample_envelope
  | Err _ => False
  end.
Proof.
  destruct (GroupEnvelope.packGroupEnvelope sample_hash sample_envelope) as [b|] eqn:E.
  - exact (proj1 (group_envelope_roundtrip sample_hash sample_envelope b E)).
  - vm_compute in E. discriminate E.
Defined.

(** ** The signed bundle message *)
Section Bundles.
Import PqBundle.

Definition bundle_fields (f : BundleV2SigningFields) : list bytes :=
  [identityKey f; pqIdentityKey f; signedPreKey f; pqSignedPreKey f; signingKeyV2 f].

Lemma z2b_land255 z : z2b (Z.land z 255) = z2b z.
Proof. change 255 with (Z.ones 8). rewrite Z.land_ones by lia. apply z2b_mod. Qed.

Lemma map_z2b_b2z b : map z2b (map b2z b) = b.
Proof. rewrite map_map. induction b as [|x b IH]; cbn; [done|]. by rewrite z2b_b2z, IH. Qed.

Lemma pushField_bytes out b :
  blen b < 4294967296 -> map z2b (pushField out b) = map z2b out ++ lp b.
Proof.
  intros Hb. pose proof (blen_nonneg b). unfold pushField, lp, be32.
  rewrite Z.mod_small by lia. rewrite !map_app, map_z2b_b2z. cbn [map].
  rewrite !z2b_land255, !Z.shiftr_div_pow2 by lia. done.
Qed.

(** The bundle message ML-DSA signs determines the bundle: when two
    bundles (with fields shorter than 2^32 bytes) give the same message, all five
    keys are equal, so a signature cannot be reused for another bundle. *)
Theorem bundle_message_injective f g :
  Forall (fun b => blen b < 4294967296) (bundle_fields f) ->
  Forall (fun b => blen b < 4294967296) (bundle_fields g) ->
  buildBundleV2Message f = buildBundleV2Message g -> f = g.
Proof.
  assert (HB : forall h, Forall (fun b => blen b < 4294967296) (bundle_fields h) ->
    buildBundleV2Message h = concat (map lp (bundle_fields h))).
  { intros h Hh. unfold bundle_fields in *. repeat (apply Forall_cons in Hh as [? Hh]).
    unfold buildBundleV2Message. rewrite !pushField_bytes by done. cbn [map concat app].
    by rewrite <- !app_assoc, app_nil_r. }
  intros Hf Hg H. rewrite !HB in H by done. apply lp_concat_inj in H; [|done..].
  destruct f, g; unfold bundle_fields in H; cbn in H. by simplify_eq.
Qed.

Definition sample_bundle : BundleV2SigningFields := mkBundle [x01] [x02] [x03] [] [x05; x06].

Lemma bundle_message_injective_witness :
  buildBundleV2Message sample_bundle
    <> buildBundleV2Message (mkBundle [x01] [x02] [x03] [x05] [x06]).
Proof.
  intros H. discriminate (bundle_message_injective sample_bundle
    (mkBundle [x01] [x02] [x03] [x05] [x06])
    ltac:(by repeat constructor) ltac:(by repeat constructor) H).
Defined.
End Bundles.

(** ** Traffic-cover padding *)
Section PaddingLemmas.
Import Padding.

Lemma rev_zeros n : rev (zeros n) = zeros n.
Proof. unfold zeros. rewrite rev_alt. apply reverse_replicate. Qed.

Lemma strip_zeros_app n l : strip_zeros (zeros n ++ l) = strip_zeros l.
Proof. unfold zeros. induction (Z.to_nat n) as [|k IH]; [done|]. cbn. apply IH. Qed.

Lemma padBuffer_eq buf n :
  0 < n -> padBuffer buf n = Ok (buf ++ [x80] ++ zeros (n - blen buf mod n - 1)).
Proof.
  intros Hn. unfold padBuffer. pose proof (Z.mod_pos_bound (blen buf) n Hn).
  pose proof (blen_nonneg buf). rewrite u8_set_first, bind_ok by lia.
  replace (blen buf + _ - blen buf) with (n - blen buf mod n) by lia.
  rewrite u8_store_fill by (done || lia). by rewrite <- app_assoc.
Qed.

Lemma unpad_pad buf n m : unpadBuffer (buf ++ [x80] ++ zeros n) m = buf.
Proof.
  unfold unpadBuffer. rewrite !rev_app_distr, rev_zeros, <- app_assoc, strip_zeros_app.
  cbn. apply rev_involutive.
Qed.

(** Traffic-cover padding is lossless and hides the length: for every
    plaintext and block size, padding succeeds, the padded length is a multiple of
    the block size that exceeds the plaintext by at most one block, and
    [unpadBuffer] gives the plaintext back, whatever bytes it ends in. *)
Theorem padding_roundtrip buf n :
  0 < n ->
  exists p, padBuffer buf n = Ok p /\ unpadBuffer p n = buf /\
    blen p mod n = 0 /\ blen buf < blen p <= blen buf + n.
Proof.
  intros Hn. exists (buf ++ [x80] ++ zeros (n - blen buf mod n - 1)).
  pose proof (Z.mod_pos_bound (blen buf) n Hn).
  split; [by apply padBuffer_eq|]. split; [apply unpad_pad|].
  rewrite !blen_app, blen_zeros by lia. change (blen [x80]) with 1.
  replace (blen buf + (1 + (n - blen buf mod n - 1))) with (n * (blen buf / n + 1)); [split|].
  - rewrite Z.mul_comm. apply Z.mod_mul; lia.
  - pose proof (Z.div_mod (blen buf) n). lia.
  - pose proof (Z.div_mod (blen buf) n). lia.
Qed.

Lemma padding_roundtrip_witness :
  exists p, padBuffer [x41; x80; x00] 8 = Ok p /\ unpadBuffer p 8 = [x41; x80; x00] /\
    blen p mod 8 = 0 /\ 3 < blen p <= 3 + 8.
Proof. exact (padding_roundtrip [x41; x80; x00] 8 ltac:(lia)). Defined.
End PaddingLemmas.

(** ** X3DH v1 handshake *)
Section V1.
Import HandshakeV1.

Definition v1_bytes (h : handshake) : bytes :=
  [z2b 78; z2b 1; z2b (if Handshake.is_some (ctOtpk h) then 1 else 0); z2b 0]
    ++ ephemeralPublicKey h ++ ctId h ++ ctSpk h ++ default [] (ctOtpk h).

Definition v1_ok (h : handshake) : Prop :=
  blen (ephemeralPublicKey h) = 32 /\ blen (ctId h) = 1120 /\ blen (ctSpk h) = 1120 /\
  (forall c, ctOtpk h = Some c -> blen c = 1120).

Lemma serializeHandshake_eq h : v1_ok h -> serializeHandshake h = Ok (v1_bytes h).
Proof.
  intros (He & Hi & Hs & Ho). unfold serializeHandshake, v1_bytes.
  unfold X25519_PK_SIZE, X_WING_CT_SIZE.
  set (m := if Handshake.is_some (ctOtpk h) then 1120 else 0).
  assert (Hm : 0 <= m) by (subst m; destruct (Handshake.is_some _); lia).
  rewrite u8_store_first by lia. rewrite !u8_store_fill by (done || lia).
  do 3 (rewrite u8_set_fill', bind_ok by (blia || lia)).
  destruct (ctOtpk h) as [c|] eqn:Ec; subst m; cbn [Handshake.is_some] in *.
  - pose proof (Ho c eq_refl). rewrite u8_set_fill' by (blia || lia).
    rewrite zeros_nil, app_nil_r by lia. by rewrite <- !app_assoc.
  - rewrite zeros_nil by lia. rewrite <- !app_assoc. done.
Qed.

(** The v1 handshake reads back what it wrote, for keys of the proper sizes. *)
Lemma handshake_v1_roundtrip h :
  v1_ok h -> serializeHandshake h ≫= deserializeHandshake = Ok h.
Proof.
  intros Hok. rewrite serializeHandshake_eq, bind_ok by done. destruct Hok as (He & Hi & Hs & Ho).
  destruct h as [ek id spk o]. cbn [ephemeralPublicKey ctId ctSpk ctOtpk] in *.
  set (fl := if Handshake.is_some o then 1 else 0).
  set (hd := [z2b 78; z2b 1; z2b fl; z2b 0]). set (w := v1_bytes _).
  assert (Hw : w = hd ++ ek ++ id ++ spk ++ default [] o) by done.
  assert (Hl : blen w = 2276 + if Handshake.is_some o then 1120 else 0).
  { rewrite Hw, !blen_app, He, Hi, Hs. destruct o as [c|]; [|done].
    change (default [] (Some c)) with c. rewrite (Ho c eq_refl). done. }
  unfold deserializeHandshake. rewrite Hl.
  change (u8_get w 0) with (Some 78). change (u8_get w 1) with (Some 1).
  change (u8_get w 2) with (Some (b2z (z2b fl))). cbn [default from_option].
  unfold Datatypes.id. change (78 =? HANDSHAKE_MAGIC) with true.
  change (1 =? HANDSHAKE_VERSION) with true.
  replace (negb (Z.land (b2z (z2b fl)) 1 =? 0)) with (Handshake.is_some o)
    by (subst fl; by destruct (Handshake.is_some o)).
  unfold X25519_PK_SIZE, X_WING_CT_SIZE.
  replace (2276 + _ <? _) with false by (by destruct (Handshake.is_some o)). cbn [negb].
  rewrite (slice_split w hd ek (id ++ spk ++ default [] o))
    by (done || (subst hd; blia)).
  rewrite (slice_split w (hd ++ ek) id (spk ++ default [] o)) 
    by ((rewrite Hw; split_app) || (subst hd; blia)).
  rewrite (slice_split w (hd ++ ek ++ id) spk (default [] o))
    by ((rewrite Hw; split_app) || (subst hd; blia)).
  destruct o as [c|]; cbn [Handshake.is_some]; [|done].
  pose proof (Ho c eq_refl).
  rewrite (slice_split w (hd ++ ek ++ id ++ spk) c []); [done| |subst hd; blia..].
  rewrite Hw. by rewrite <- !app_assoc, app_nil_r.
Qed.
End V1.
