(* ===== verification/Sodium.v ===== *)
(** What the crypto worker calls of libsodium (WASM build with X-Wing) and of
    @noble/post-quantum, as an interface: the functions, with the randomness they
    draw made an argument, and their documented laws. The key-derivation chain of
    web/src/workers/crypto.worker.ts is built on it, and so are the at-rest
    envelopes of session keys and the sealed box v2. *)
From S2P Require Import Prelude Bytes Base64 PqWire.

Class Sodium := {
  (** [crypto_kem_xwing_seed_keypair]; [crypto_kem_xwing_keypair] is the same on
      a random seed. Public key first. *)
  kem_keypair : bytes -> bytes * bytes;
  (** [crypto_kem_xwing_enc publicKey], with its randomness: ciphertext, secret. *)
  kem_enc : bytes -> bytes -> result (bytes * bytes);
  kem_dec : bytes -> bytes -> result bytes;
  (** [crypto_generichash(len, input, key)] *)
  generichash : Z -> bytes -> option bytes -> bytes;
  (** [crypto_aead_xchacha20poly1305_ietf_encrypt(m, null, null, nonce, key)] *)
  aead_encrypt : bytes -> bytes -> bytes -> bytes;
  aead_decrypt : bytes -> bytes -> bytes -> result bytes;
  to_base64 : bytes -> string;
  from_base64 : string -> result bytes;
  (** ML-DSA-65: key generation from a seed, [mlDsaSign], [mlDsaVerify]. *)
  mlDsaKeygen : bytes -> bytes * bytes;
  mlDsaSign : bytes -> bytes -> string -> bytes;
  mlDsaVerify : bytes -> bytes -> bytes -> string -> bool }.

Class SodiumLaws `{Sodium} := {
  kem_pk_length : forall seed, blen (kem_keypair seed).1 = 1216;
  kem_sk_nonempty : forall seed, (kem_keypair seed).2 <> [];
  kem_correct : forall seed rnd, exists ct ss,
    kem_enc (kem_keypair seed).1 rnd = Ok (ct, ss) /\
    kem_dec ct (kem_keypair seed).2 = Ok ss /\ blen ct = 1120 /\ blen ss = 32;
  hash_length : forall n m k, 0 <= n -> blen (generichash n m k) = n;
  aead_correct : forall m n k, aead_decrypt (aead_encrypt m n k) n k = Ok m;
  aead_length : forall m n k, blen (aead_encrypt m n k) = blen m + 16;
  base64_correct : forall b, from_base64 (to_base64 b) = Ok b;
  base64_empty : forall b, to_base64 b = ""%string -> b = [];
  sign_pk_length : forall seed, blen (mlDsaKeygen seed).1 = 1952;
  sign_length : forall m sk c, blen (mlDsaSign m sk c) = 3309;
  sign_correct : forall seed m c,
    mlDsaVerify (mlDsaSign m (mlDsaKeygen seed).2 c) m (mlDsaKeygen seed).1 c = true }.

(** ** The key-derivation chain *)
Section Kdf.
Context `{SodiumLaws}.

(** [kdfChain]: next chain key, message key. *)
Definition kdfChain (chainKey : bytes) : bytes * bytes :=
  let messageKeyInput := [x01] in
  let newChainKeyInput := [x02] in
  let messageKey := generichash 32 messageKeyInput (Some chainKey) in
  let newChainKey := generichash 32 newChainKeyInput (Some chainKey) in
  (newChainKey, messageKey).

(** The chain key after [n] steps and the message key of position [n]. *)
Fixpoint chain_key (ck : bytes) (n : nat) : bytes :=
  match n with 0%nat => ck | S k => (kdfChain (chain_key ck k)).1 end.
Definition msg_key (ck : bytes) (n : nat) : bytes := (kdfChain (chain_key ck n)).2.

Lemma chain_key_succ ck n : chain_key (kdfChain ck).1 n = chain_key ck (S n).
Proof. induction n as [|n IH]; [done|]. cbn [chain_key] in *. by rewrite IH. Qed.

Lemma chain_key_add ck i j : chain_key (chain_key ck i) j = chain_key ck (j + i).
Proof. induction j as [|j IH]; [done|]. cbn [chain_key Nat.add]. by rewrite IH. Qed.

Lemma msg_key_add ck i j : msg_key (chain_key ck i) j = msg_key ck (j + i).
Proof. unfold msg_key. by rewrite chain_key_add. Qed.

Lemma kdfChain_length ck : blen (kdfChain ck).1 = 32 /\ blen (kdfChain ck).2 = 32.
Proof. split; by apply hash_length. Qed.

Lemma to_base64_inj a b : to_base64 a = to_base64 b -> a = b.
Proof. intros E. pose proof (base64_correct a) as Ha. rewrite E, base64_correct in Ha. by simplify_eq. Qed.

Lemma chain_key_length ck n : blen ck = 32 -> blen (chain_key ck n) = 32.
Proof. destruct n; [done|]. intros _. apply kdfChain_length. Qed.
End Kdf.
#[export] Hint Resolve chain_key_length : nyx.

(** ** At-rest envelopes and the sealed box *)
Section Envelopes.
Context `{SodiumLaws}.

(** [nonce || ciphertext], as every envelope of the worker is assembled. *)
Definition combine (nonce ciphertext : bytes) : result bytes :=
  c ← u8_set (zeros (blen nonce + blen ciphertext)) 0 nonce;
  u8_set c (blen nonce) ciphertext.

Definition storage_key (masterSeed : bytes) : bytes :=
  generichash 32 masterSeed (Some (ascii_bytes "session-storage")).

Definition encrypt_session_key (nonce sessionKey masterSeed : bytes) : result bytes :=
  combine nonce (aead_encrypt sessionKey nonce (storage_key masterSeed)).

Definition decrypt_session_key (encryptedKey masterSeed : bytes) : result bytes :=
  aead_decrypt (slice_from encryptedKey 24) (slice encryptedKey 0 24) (storage_key masterSeed).

Definition pq_box_seal_v2 (rnd nonce message pqPublicKey : bytes) : result bytes :=
  if negb (blen pqPublicKey =? 1216) then throw "invalid PQ publicKey length" else
  pqResult ← kem_enc pqPublicKey rnd;
  let derivedKey := generichash 32 pqResult.2 None in
  PqSeal.serializePqSealV2
    (PqSeal.mkParts pqResult.1 nonce (aead_encrypt message nonce derivedKey)).

Definition pq_box_seal_v2_open (combinedPayload pqPrivateKey : bytes) : result bytes :=
  parts ← PqSeal.deserializePqSealV2 combinedPayload;
  pqSharedSecret ← kem_dec (PqSeal.ciphertext parts) pqPrivateKey;
  let derivedKey := generichash 32 pqSharedSecret None in
  aead_decrypt (PqSeal.sealed parts) (PqSeal.nonce parts) derivedKey.

Lemma combine_ok n c : combine n c = Ok (n ++ c).
Proof.
  unfold combine. pose proof (blen_nonneg n). pose proof (blen_nonneg c).
  rewrite u8_set_first, bind_ok by lia.
  rewrite u8_set_fill by lia. rewrite zeros_nil by lia. by rewrite app_nil_r.
Qed.

Lemma split_combined n c :
  blen n = 24 -> slice (n ++ c) 0 24 = n /\ slice_from (n ++ c) 24 = c.
Proof. intros Hn. split; [by apply slice_app_head|by apply slice_from_app]. Qed.

(** Keys stored at rest are read back under the same master seed. *)
Lemma session_key_roundtrip nonce key seed :
  blen nonce = 24 ->
  encrypt_session_key nonce key seed ≫= (fun e => decrypt_session_key e seed) = Ok key.
Proof.
  intros Hn. unfold encrypt_session_key. rewrite combine_ok, bind_ok.
  unfold decrypt_session_key.
  destruct (split_combined nonce (aead_encrypt key nonce (storage_key seed)) Hn) as [-> ->].
  apply aead_correct.
Qed.

Lemma serializePqSealV2_ok p :
  blen (PqSeal.ciphertext p) = 1120 -> blen (PqSeal.nonce p) = 24 -> 16 <= blen (PqSeal.sealed p) ->
  is_ok (PqSeal.serializePqSealV2 p) = true.
Proof.
  intros Hc Hn Hs. unfold PqSeal.serializePqSealV2.
  rewrite !assertLength_eq by done. rewrite !bind_ok.
  replace (blen (PqSeal.sealed p) <? PqSeal.PQ_SEAL_V2_TAG_BYTES) with false
    by (symmetry; apply Z.ltb_ge; done).
  change PqSeal.PQ_SEAL_V2_HEADER_BYTES with 4.
  rewrite set_u32_first, bind_ok by lia.
  do 2 (rewrite u8_set_fill', bind_ok by (blia || lia)).
  by rewrite u8_set_fill' by (blia || lia).
Qed.
End Envelopes.

(** ** A concrete instance, for evaluating the model on inputs *)
Module Toy.

Definition pad (n : Z) (l : bytes) : bytes := take (Z.to_nat n) (l ++ zeros n).

Definition mix (l : bytes) : Z :=
  foldl (fun acc b => (acc * 31 + b2z b + 7) mod 4294967296) 17 l.

Definition toy_hash (n : Z) (m : bytes) (k : option bytes) : bytes :=
  let h := mix (m ++ default [] k) in
  pad n (be32 h ++ be32 (h * 17 + 3) ++ be32 (h * 29 + 5)).

Definition toy_tag (m n k : bytes) : bytes :=
  pad 16 (be32 (mix m) ++ be32 (mix n) ++ be32 (mix k)).

Definition toy_decrypt (c n k : bytes) : result bytes :=
  let m := take (length c - 16) c in
  if bool_decide (drop (length c - 16) c = toy_tag m n k) then Ok m else throw "decrypt failed".

Definition toy_sign (m sk : bytes) (c : string) : bytes :=
  pad 3309 (be32 (mix (m ++ sk ++ ascii_bytes c))).

#[export] Instance toy_sodium : Sodium := {
  kem_keypair seed := (pad 1216 seed, x01 :: pad 32 seed);
  kem_enc pk rnd := Ok (pad 1120 rnd, pad 32 (pad 1120 rnd));
  kem_dec ct sk := Ok (pad 32 ct);
  generichash := toy_hash;
  aead_encrypt m n k := m ++ toy_tag m n k;
  aead_decrypt := toy_decrypt;
  to_base64 := base64UrlFromBytes;
  from_base64 := bytesFromBase64Url;
  mlDsaKeygen seed := (pad 1952 seed, pad 32 (pad 1952 seed));
  mlDsaSign := toy_sign;
  mlDsaVerify sig m pk c := bool_decide (sig = toy_sign m (pad 32 pk) c) }.

Lemma blen_pad n l : 0 <= n -> blen (pad n l) = n.
Proof.
  intros. unfold pad, blen, zeros. rewrite length_take, length_app, length_replicate. lia.
Qed.

#[export] Instance toy_laws : SodiumLaws.
Proof.
  split.
  - intros seed. by apply blen_pad.
  - done.
  - intros seed rnd. exists (pad 1120 rnd), (pad 32 (pad 1120 rnd)).
    split_and!; [reflexivity..| |]; by apply blen_pad.
  - intros n m k Hn. by apply blen_pad.
  - intros m n k. cbn. unfold toy_decrypt.
    assert (Hl : (length (m ++ toy_tag m n k) - 16)%nat = length m).
    { pose proof (blen_pad 16 (be32 (mix m) ++ be32 (mix n) ++ be32 (mix k)) ltac:(lia)) as Ht.
      rewrite length_app. unfold blen, toy_tag in *. lia. }
    rewrite Hl, take_app_length, drop_app_length. by rewrite bool_decide_eq_true_2.
  - intros m n k. cbn. rewrite blen_app. unfold toy_tag. by rewrite blen_pad.
  - apply base64Url_roundtrip.
  - intros b Hb. by apply base64Url_empty.
  - intros. by apply blen_pad.
  - intros. by apply blen_pad.
  - intros. cbn. by apply bool_decide_eq_true_2.
Qed.

End Toy.
