(* ===== verification/X3dh.v ===== *)
(** The post-quantum X3DH v2 handshake of web/src/workers/crypto.worker.ts
    (operations x3dh_v2_initiator, x3dh_v2_recipient and
    x3dh_v2_recipient_regenerate), on the wire formats of PqWire. *)
From S2P Require Import Prelude Bytes PqWire Sodium.
Import Handshake.

Section X3dh.
Context `{Sodium}.

Definition PQ_V2_DOMAINS_HANDSHAKE : string := "NYX-PQ-HANDSHAKE-V2".

(** The loop that copies every shared secret into one buffer. *)
Fixpoint copy_secrets (concatenated : bytes) (offset : Z) (secrets : list bytes) : result bytes :=
  match secrets with
  | [] => Ok concatenated
  | s :: rest =>
      c ← u8_set concatenated offset s;
      copy_secrets c (offset + blen s) rest
  end.
Definition concat_secrets (secrets : list bytes) : result bytes :=
  copy_secrets (zeros (foldr (fun s sum => blen s + sum) 0 secrets)) 0 secrets.

(** The responder's keys the initiator fetched in the pre-key bundle. *)
Record bundle := mkBundle {
  theirIdentityKey : bytes; theirPqIdentityKey : bytes; theirPqSignedPreKey : bytes;
  theirPqOneTimePreKey : option bytes }.

(** Randomness of the three encapsulations. *)
Record enc_rnd := mkRnd { rnd_id : bytes; rnd_spk : bytes; rnd_otpk : bytes }.

Definition x3dh_v2_initiator (mySigningV2 : bytes * bytes) (b : bundle) (r : enc_rnd)
  : result (bytes * bytes) :=
  idResult ← kem_enc (theirPqIdentityKey b) (rnd_id r);
  spkResult ← kem_enc (theirPqSignedPreKey b) (rnd_spk r);
  otpkResult ← match theirPqOneTimePreKey b with
               | Some k => o ← kem_enc k (rnd_otpk r); Ok (Some o)
               | None => Ok None
               end;
  let secrets := idResult.2 :: spkResult.2 ::
                 match otpkResult with Some o => [o.2] | None => [] end in
  let ctOtpk := fst <$> otpkResult in
  concatenated ← concat_secrets secrets;
  transcript ← buildHandshakeV2Transcript
    (mkTranscript mySigningV2.1 (theirIdentityKey b) idResult.1 spkResult.1 ctOtpk);
  let signature := mlDsaSign transcript mySigningV2.2 PQ_V2_DOMAINS_HANDSHAKE in
  let sessionKey := generichash 32 concatenated None in
  initiatorCiphertexts ← serializeHandshakeV2 (mkHandshake idResult.1 spkResult.1 ctOtpk signature);
  Ok (sessionKey, initiatorCiphertexts).

Definition x3dh_v2_recipient (myIdentityKey myPqIdentityPrivate myPqSignedPrePrivate : bytes)
  (theirSigningKeyV2 initiatorCiphertexts : bytes) (myPqOneTimePreKey : option bytes)
  : result bytes :=
  parsed ← deserializeHandshakeV2 initiatorCiphertexts;
  transcript ← buildHandshakeV2Transcript
    (mkTranscript theirSigningKeyV2 myIdentityKey (ctId parsed) (ctSpk parsed) (ctOtpk parsed));
  let signatureValid :=
    mlDsaVerify (signature parsed) transcript theirSigningKeyV2 PQ_V2_DOMAINS_HANDSHAKE in
  if negb signatureValid then throw "x3dh v2: tanda tangan inisiator tidak sah" else
  s1 ← kem_dec (ctId parsed) myPqIdentityPrivate;
  s2 ← kem_dec (ctSpk parsed) myPqSignedPrePrivate;
  s3 ← match ctOtpk parsed with
       | None => Ok []
       | Some ct =>
           match myPqOneTimePreKey with
           | None => throw "x3dh v2: pengirim memakai OTPK tetapi device tidak memilikinya"
           | Some k => s ← kem_dec ct k; Ok [s]
           end
       end;
  concatenated ← concat_secrets (s1 :: s2 :: s3);
  Ok (generichash 32 concatenated None).

(** Little-endian [setUint32(0, keyId, true)]. *)
Definition le32 (v : Z) : bytes := rev (be32 (v mod 4294967296)).

(** The seed of the one-time prekey [keyId], re-derived from the master seed. *)
Definition otpk_seed (masterSeed : bytes) (keyId : Z) : result bytes :=
  let pqSeedInput := zeros (blen masterSeed + 7 + 4) in
  pqSeedInput ← u8_set pqSeedInput 0 masterSeed;
  pqSeedInput ← u8_set pqSeedInput (blen masterSeed) (ascii_bytes "pq-otpk");
  pqSeedInput ← u8_set pqSeedInput (blen masterSeed + 7) (le32 keyId);
  Ok (generichash 32 pqSeedInput None).

Definition x3dh_v2_recipient_regenerate (keyId : Z) (masterSeed : bytes)
  (myIdentityKey myPqIdentityPrivate myPqSignedPrePrivate : bytes)
  (theirSigningKeyV2 initiatorCiphertexts : bytes) : result bytes :=
  pqKeySeed ← otpk_seed masterSeed keyId;
  let pqOtpkKeyPair := kem_keypair pqKeySeed in
  parsed ← deserializeHandshakeV2 initiatorCiphertexts;
  transcript ← buildHandshakeV2Transcript
    (mkTranscript theirSigningKeyV2 myIdentityKey (ctId parsed) (ctSpk parsed) (ctOtpk parsed));
  let signatureValid :=
    mlDsaVerify (signature parsed) transcript theirSigningKeyV2 PQ_V2_DOMAINS_HANDSHAKE in
  if negb signatureValid then throw "x3dh v2: tanda tangan inisiator tidak sah" else
  match ctOtpk parsed with
  | None => throw "x3dh v2: handshake regenerate tidak memuat OTPK"
  | Some ct =>
      s1 ← kem_dec (ctId parsed) myPqIdentityPrivate;
      s2 ← kem_dec (ctSpk parsed) myPqSignedPrePrivate;
      s3 ← kem_dec ct pqOtpkKeyPair.2;
      concatenated ← concat_secrets [s1; s2; s3];
      Ok (generichash 32 concatenated None)
  end.

End X3dh.

(** ** Both sides derive the same key *)
Section Agreement.
Context `{SodiumLaws}.

Lemma copy_secrets_ok secrets : forall acc,
  copy_secrets (acc ++ zeros (foldr (fun s sum => blen s + sum) 0 secrets)) (blen acc) secrets
    = Ok (acc ++ concat secrets).
Proof.
  assert (Hpos : forall l, 0 <= foldr (fun s sum => blen s + sum) 0 l).
  { induction l as [|s l IH]; cbn [foldr]; [lia|]. pose proof (blen_nonneg s). lia. }
  induction secrets as [|s l IH]; intros acc; [done|]. cbn [copy_secrets foldr concat].
  pose proof (blen_nonneg s). pose proof (Hpos l).
  rewrite u8_set_fill, bind_ok by lia.
  replace (_ + _ - blen s) with (foldr (fun s sum => blen s + sum) 0 l) by lia.
  rewrite <- blen_app, IH. by rewrite <- app_assoc.
Qed.

Lemma concat_secrets_ok secrets : concat_secrets secrets = Ok (concat secrets).
Proof. apply (copy_secrets_ok secrets []). Qed.

Lemma transcript_ok i :
  blen (initiatorSigningKeyV2 i) = 1952 -> blen (responderIdentityKey i) = 32 ->
  blen (t_ctId i) = 1120 -> blen (t_ctSpk i) = 1120 ->
  (forall c, t_ctOtpk i = Some c -> blen c = 1120) ->
  exists t, buildHandshakeV2Transcript i = Ok t.
Proof.
  intros H1 H2 H3 H4 H5. unfold buildHandshakeV2Transcript, assertOptLength.
  rewrite !assertLength_eq by done. rewrite !bind_ok.
  destruct (t_ctOtpk i) as [c|] eqn:Ec; rewrite ?assertLength_eq by auto;
    rewrite bind_ok, concatLengthPrefixed_ok; eauto.
Qed.

Lemma serializeHandshakeV2_ok h :
  blen (ctId h) = 1120 -> blen (ctSpk h) = 1120 ->
  (forall c, ctOtpk h = Some c -> blen c = 1120) -> blen (signature h) = 3309 ->
  exists b, serializeHandshakeV2 h = Ok b.
Proof.
  intros H1 H2 H3 H4. unfold serializeHandshakeV2, assertOptLength.
  rewrite !assertLength_eq by done. rewrite !bind_ok.
  change HANDSHAKE_V2_CT_BYTES with 1120. change HANDSHAKE_V2_HEADER_BYTES with 4.
  destruct (ctOtpk h) as [c|] eqn:Ec; rewrite ?assertLength_eq by auto; rewrite !bind_ok;
    rewrite is_some_size; cbn [is_some];
    rewrite u8_store_first by lia; rewrite !u8_store_fill by (done || lia);
    do 2 (rewrite u8_set_fill', bind_ok by (blia || lia)).
  - pose proof (H3 c eq_refl). rewrite u8_set_fill', bind_ok by (blia || lia).
    rewrite u8_set_fill' by (blia || lia). eauto.
  - rewrite u8_set_fill' by (blia || lia). eauto.
Qed.

(** The keys of an honest pair: everything generated by the library. *)
Record responder := mkResponder {
  r_identity : bytes; r_pqid_seed : bytes; r_spk_seed : bytes; r_otpk_seed : option bytes }.

Definition published (r : responder) : bundle :=
  mkBundle (r_identity r) (kem_keypair (r_pqid_seed r)).1 (kem_keypair (r_spk_seed r)).1
    ((fun s => (kem_keypair s).1) <$> r_otpk_seed r).

(** What an honest initiator computes, and what the recipient reads from it. *)
Lemma initiator_result seed r rnd :
  blen (r_identity r) = 32 ->
  exists ct1 ct2 s1 s2 o wire,
    let sgn := mlDsaKeygen seed in
    let cto := fst <$> o in
    x3dh_v2_initiator sgn (published r) rnd =
      Ok (generichash 32 (concat (s1 :: s2 :: match o with Some p => [p.2] | None => [] end)) None,
          wire) /\
    kem_dec ct1 (kem_keypair (r_pqid_seed r)).2 = Ok s1 /\
    kem_dec ct2 (kem_keypair (r_spk_seed r)).2 = Ok s2 /\
    (match r_otpk_seed r, o with
     | Some sd, Some p => kem_dec p.1 (kem_keypair sd).2 = Ok p.2
     | None, None => True
     | _, _ => False end) /\
    exists t sg, deserializeHandshakeV2 wire = Ok (mkHandshake ct1 ct2 cto sg) /\
      buildHandshakeV2Transcript (mkTranscript sgn.1 (r_identity r) ct1 ct2 cto) = Ok t /\
      mlDsaVerify sg t sgn.1 PQ_V2_DOMAINS_HANDSHAKE = true.
Proof.
  intros Hid.
  destruct (kem_correct (r_pqid_seed r) (rnd_id rnd)) as (ct1 & s1 & E1 & D1 & L1 & _).
  destruct (kem_correct (r_spk_seed r) (rnd_spk rnd)) as (ct2 & s2 & E2 & D2 & L2 & _).
  assert (exists o, match theirPqOneTimePreKey (published r) with
      | Some k => o ← kem_enc k (rnd_otpk rnd); Ok (Some o) | None => Ok None end = Ok o /\
      (match r_otpk_seed r, o with
       | Some sd, Some p => kem_dec p.1 (kem_keypair sd).2 = Ok p.2
       | None, None => True | _, _ => False end) /\
      (forall c, fst <$> o = Some c -> blen c = 1120)) as (o & Eo & Do & Lo).
  { unfold published; cbn. destruct (r_otpk_seed r) as [sd|]; cbn.
    - destruct (kem_correct sd (rnd_otpk rnd)) as (ct3 & s3 & E3 & D3 & L3 & _).
      exists (Some (ct3, s3)). rewrite E3. split_and!; [done|done|]. cbn. naive_solver.
    - by exists None. }
  destruct (transcript_ok (mkTranscript (mlDsaKeygen seed).1 (r_identity r) ct1 ct2 (fst <$> o))
    (sign_pk_length seed) Hid L1 L2 Lo) as [t Ht].
  set (sg := mlDsaSign t (mlDsaKeygen seed).2 PQ_V2_DOMAINS_HANDSHAKE).
  destruct (serializeHandshakeV2_ok (mkHandshake ct1 ct2 (fst <$> o) sg)
    L1 L2 Lo (sign_length _ _ _)) as [w Hw].
  exists ct1, ct2, s1, s2, o, w. cbn zeta. split_and!; try done.
  - unfold x3dh_v2_initiator.
    change (theirPqIdentityKey (published r)) with (kem_keypair (r_pqid_seed r)).1.
    change (theirPqSignedPreKey (published r)) with (kem_keypair (r_spk_seed r)).1.
    change (theirIdentityKey (published r)) with (r_identity r).
    rewrite E1, bind_ok, E2, bind_ok, Eo, bind_ok, concat_secrets_ok, bind_ok.
    cbn [fst snd]. rewrite Ht, bind_ok. fold sg. rewrite Hw. done.
  - exists t, sg. split_and!; [|done|apply sign_correct].
    apply serializeHandshakeV2_inv in Hw as (-> & Hi & Hs & Ho & Hg).
    by apply deserialize_handshake_bytes.
Qed.

(** The recipient, past the parsing and the signature. *)
Lemma recipient_run id k1 k2 spk wire h t s1 s2 otpk :
  deserializeHandshakeV2 wire = Ok h ->
  buildHandshakeV2Transcript (mkTranscript spk id (ctId h) (ctSpk h) (ctOtpk h)) = Ok t ->
  mlDsaVerify (signature h) t spk PQ_V2_DOMAINS_HANDSHAKE = true ->
  kem_dec (ctId h) k1 = Ok s1 -> kem_dec (ctSpk h) k2 = Ok s2 ->
  x3dh_v2_recipient id k1 k2 spk wire otpk =
    (s3 ← match ctOtpk h with
          | None => Ok []
          | Some ct =>
              match otpk with
              | None => throw "x3dh v2: pengirim memakai OTPK tetapi device tidak memilikinya"
              | Some k => s ← kem_dec ct k; Ok [s]
              end
          end;
     Ok (generichash 32 (concat (s1 :: s2 :: s3)) None)).
Proof.
  intros Hd Ht Hv D1 D2. unfold x3dh_v2_recipient.
  rewrite Hd, bind_ok, Ht, bind_ok, Hv. cbn [negb]. rewrite D1, bind_ok, D2, bind_ok.
  destruct (match ctOtpk h with Some _ => _ | None => _ end) as [s3|]; [|done].
  by rewrite !bind_ok, concat_secrets_ok.
Qed.

(** C5: X3DH v2 agreement. For every honest initiator and responder, with or
    without a one-time prekey, the initiator's run succeeds, the recipient accepts
    its ciphertexts and derives the same session key; a recipient that has lost
    the one-time prekey the initiator used gets an error, never another key. *)
Theorem x3dh_v2_agreement seed r rnd :
  blen (r_identity r) = 32 ->
  exists key wire,
    x3dh_v2_initiator (mlDsaKeygen seed) (published r) rnd = Ok (key, wire) /\
    x3dh_v2_recipient (r_identity r) (kem_keypair (r_pqid_seed r)).2
      (kem_keypair (r_spk_seed r)).2 (mlDsaKeygen seed).1 wire
      ((fun s => (kem_keypair s).2) <$> r_otpk_seed r) = Ok key /\
    (r_otpk_seed r <> None ->
     exists e, x3dh_v2_recipient (r_identity r) (kem_keypair (r_pqid_seed r)).2
      (kem_keypair (r_spk_seed r)).2 (mlDsaKeygen seed).1 wire None = Err e).
Proof.
  intros Hid.
  destruct (initiator_result seed r rnd Hid)
    as (ct1 & ct2 & s1 & s2 & o & w & Hrun & D1 & D2 & Do & t & sg & Hd & Ht & Hv).
  eexists _, w. split; [exact Hrun|].
  split; [|intros Hne; eexists]; rewrite (recipient_run _ _ _ _ _ _ _ _ _ _ Hd Ht Hv D1 D2);
    cbn [ctOtpk]; destruct (r_otpk_seed r) as [sd|], o as [[ct3 s3]|]; try done.
  cbn [fmap option_fmap option_map fst snd] in *. by rewrite Do.
Qed.

(** A one-time prekey that the device no longer stores can be regenerated:
    when the published prekey was the one derived from the master seed and
    [keyId], [x3dh_v2_recipient_regenerate] derives the initiator's session key
    from the master seed alone. *)
Theorem x3dh_v2_regenerate_agreement seed r rnd masterSeed keyId otpk :
  blen (r_identity r) = 32 ->
  otpk_seed masterSeed keyId = Ok otpk -> r_otpk_seed r = Some otpk ->
  exists key wire,
    x3dh_v2_initiator (mlDsaKeygen seed) (published r) rnd = Ok (key, wire) /\
    x3dh_v2_recipient_regenerate keyId masterSeed (r_identity r) (kem_keypair (r_pqid_seed r)).2
      (kem_keypair (r_spk_seed r)).2 (mlDsaKeygen seed).1 wire = Ok key.
Proof.
  intros Hid Hseed Hr.
  destruct (initiator_result seed r rnd Hid)
    as (ct1 & ct2 & s1 & s2 & o & w & Hrun & D1 & D2 & Do & t & sg & Hd & Ht & Hv).
  eexists _, w. split; [exact Hrun|]. unfold x3dh_v2_recipient_regenerate.
  rewrite Hseed, bind_ok, Hd, bind_ok. cbn [ctId ctSpk ctOtpk signature].
  rewrite Ht, bind_ok, Hv. cbn [negb]. rewrite Hr in Do. destruct o as [[ct3 s3]|]; [|done].
  cbn [fmap option_fmap option_map fst snd] in *.
  rewrite D1, bind_ok, D2, bind_ok, Do, bind_ok, concat_secrets_ok. done.
Qed.
End Agreement.

Section Witnesses.
Import Toy.

Definition sample_responder : responder :=
  mkResponder (replicate 32 x09) [x01] [x02] (Some (generichash 32 ([x0a] ++ ascii_bytes "pq-otpk" ++ le32 5) None)).
Definition sample_rnd : enc_rnd := mkRnd [x11] [x12] [x13].

Lemma x3dh_v2_agreement_witness :
  exists key wire,
    x3dh_v2_initiator (mlDsaKeygen [x07]) (published sample_responder) sample_rnd = Ok (key, wire).
Proof.
  destruct (x3dh_v2_agreement [x07] sample_responder sample_rnd eq_refl) as (k & w & Hk & _).
  exists k, w. exact Hk.
Defined.

Lemma x3dh_v2_regenerate_agreement_witness :
  exists key wire,
    x3dh_v2_initiator (mlDsaKeygen [x07]) (published sample_responder) sample_rnd = Ok (key, wire) /\
    x3dh_v2_recipient_regenerate 5 [x0a] (replicate 32 x09) (kem_keypair [x01]).2
      (kem_keypair [x02]).2 (mlDsaKeygen [x07]).1 wire = Ok key.
Proof.
  exact (x3dh_v2_regenerate_agreement [x07] sample_responder sample_rnd [x0a] 5
    (generichash 32 ([x0a] ++ ascii_bytes "pq-otpk" ++ le32 5) None) eq_refl eq_refl eq_refl).
Defined.
End Witnesses.
