(* ===== verification/DoubleRatchet.v ===== *)
(** The post-quantum double ratchet of web/src/workers/crypto.worker.ts:
    the at-rest form of a session, dr_init_alice, dr_init_bob,
    dr_ratchet_encrypt and dr_ratchet_decrypt. Zeroing of key buffers happens
    after the results are serialised and is left out; the randomness each
    operation draws is an argument. *)
From S2P Require Import Prelude Bytes PqWire Envelope Sodium.
Import Padding.

Module DR.

(** ** State *)

(** At rest: every key in base64url, as stored by the client. *)
Record DoubleRatchetState := mkDR {
  s_KEMs : option (string * string); s_KEMr : option string; s_savedCt : option string;
  s_RK : option string; s_CKs : option string; s_CKr : option string;
  s_Ns : Z; s_Nr : Z; s_PN : Z; s_skippedKeys : gmap string string;
  s_messageCount : option Z; s_lastActivityTime : option Z }.

(** In the worker: the same with keys as bytes. *)
Record RuntimeDoubleRatchetState := mkRT {
  KEMs : option (bytes * bytes); KEMr : option bytes; savedCt : option bytes;
  RK : option bytes; CKs : option bytes; CKr : option bytes;
  Ns : Z; Nr : Z; PN : Z; skippedKeys : gmap string string;
  messageCount : option Z; lastActivityTime : option Z }.

Record DoubleRatchetHeader := mkHeader { kemPk : string; ct : string; n : Z; pn : Z }.
Record skipped_key := mkSkipped { sk_kemPk : string; sk_n : Z; sk_mk : string }.

Section Ops.
Context `{Sodium}.

(** The empty string is falsy: it reads as [null]. *)
Definition b64ToBytes (str : option string) : result (option bytes) :=
  match str with
  | Some s => if bool_decide (s = ""%string) then Ok None else b ← from_base64 s; Ok (Some b)
  | None => Ok None
  end.
Definition bytesToB64 (b : option bytes) : option string := to_base64 <$> b.

Definition deserializeState (s : DoubleRatchetState) : result RuntimeDoubleRatchetState :=
  kems ← match s_KEMs s with
         | Some (pub, priv) => a ← from_base64 pub; b ← from_base64 priv; Ok (Some (a, b))
         | None => Ok None
         end;
  kemr ← b64ToBytes (s_KEMr s);
  saved ← b64ToBytes (s_savedCt s);
  rk ← b64ToBytes (s_RK s);
  cks ← b64ToBytes (s_CKs s);
  ckr ← b64ToBytes (s_CKr s);
  Ok (mkRT kems kemr saved rk cks ckr (s_Ns s) (s_Nr s) (s_PN s) (s_skippedKeys s)
        (s_messageCount s) (s_lastActivityTime s)).

Definition serializeState (r : RuntimeDoubleRatchetState) : DoubleRatchetState :=
  mkDR ((fun k => (to_base64 k.1, to_base64 k.2)) <$> KEMs r)
    (bytesToB64 (KEMr r)) (bytesToB64 (savedCt r)) (bytesToB64 (RK r)) (bytesToB64 (CKs r))
    (bytesToB64 (CKr r)) (Ns r) (Nr r) (PN r) (skippedKeys r) (messageCount r)
    (lastActivityTime r).

(** ** Initialisation *)

(** Root and chain key from the root and a KEM secret: [KDF.slice(0,32)] and
    [KDF.slice(32,64)]. *)
Definition split_kdf (kdf : bytes) : bytes * bytes := (slice kdf 0 32, slice kdf 32 64).

Definition dr_init_alice (seed rnd sk theirPqSpk : bytes) : result DoubleRatchetState :=
  let pqKeypair := kem_keypair seed in
  pqResult ← kem_enc theirPqSpk rnd;
  let sharedSecret := zeros (blen sk + blen pqResult.2) in
  sharedSecret ← u8_set sharedSecret 0 sk;
  sharedSecret ← u8_set sharedSecret (blen sk) pqResult.2;
  let '(rk, cks) := split_kdf (generichash 64 sharedSecret None) in
  Ok (serializeState (mkRT (Some pqKeypair) (Some theirPqSpk) (Some pqResult.1) (Some rk)
    (Some cks) None 0 0 0 ∅ None None)).

Definition dr_init_bob (sk : bytes) (myPqSignedPreKey : option bytes * bytes)
  : result DoubleRatchetState :=
  match myPqSignedPreKey.1 with
  | None => throw "Missing PQ public key"
  | Some pub =>
      Ok (serializeState (mkRT (Some (pub, myPqSignedPreKey.2)) None None (Some sk) None None
        0 0 0 ∅ None None))
  end.

(** ** Encryption *)

Definition FINAL_OVERHEAD : Z := 24 + 16.

Record encrypted := mkEncrypted {
  e_state : DoubleRatchetState; e_header : DoubleRatchetHeader; e_ciphertext : bytes; e_mk : bytes }.

Definition dr_ratchet_encrypt (nonce : bytes) (serializedState : DoubleRatchetState)
  (plaintext : bytes) : result encrypted :=
  state ← deserializeState serializedState;
  match CKs state with
  | None => throw "Cannot encrypt: CKs is null"
  | Some cks =>
      let '(newCKs, mk) := kdfChain cks in
      padded ← padBuffer plaintext (PADDING_BLOCK_SIZE - FINAL_OVERHEAD);
      let ciphertext := aead_encrypt padded nonce mk in
      combined ← combine nonce ciphertext;
      let header := mkHeader (default "" (bytesToB64 (fst <$> KEMs state)))
        (default "" (bytesToB64 (savedCt state))) (Ns state) (PN state) in
      let state := mkRT (KEMs state) (KEMr state) (savedCt state) (RK state) (Some newCKs)
        (CKr state) (Ns state + 1) (Nr state) (PN state) (skippedKeys state)
        (messageCount state) (lastActivityTime state) in
      Ok (mkEncrypted (serializeState state) header combined mk)
  end.

(** ** Decryption *)

Definition MAX_SKIP : Z := 1000.

(** [sodium.compare] refuses operands of different lengths. *)
Definition sodium_differs (a b : bytes) : result bool :=
  if negb (blen a =? blen b)
  then throw "Only instances of identical length can be compared"
  else Ok (negb (bool_decide (a = b))).

(** [while (state.Nr < bound)]: [k] iterations remain. *)
Fixpoint skip_loop (k : nat) (label : string) (ckr : option bytes) (nr : Z)
  (acc : list skipped_key) : result (option bytes * Z * list skipped_key) :=
  match k with
  | 0%nat => Ok (ckr, nr, acc)
  | S k' =>
      match ckr with
      | None => throw "CKr is missing"
      | Some ck =>
          let '(nextCKr, skippedMK) := kdfChain ck in
          skip_loop k' label (Some nextCKr) (nr + 1)
            (acc ++ [mkSkipped label nr (to_base64 skippedMK)])
      end
  end.

(** [new Uint8Array(32 + secret.length)] filled with the root key and the secret. *)
Definition root_input (rk secret : bytes) : result bytes :=
  b ← u8_set (zeros (32 + blen secret)) 0 rk; u8_set b 32 secret.

(** The receive side of a ratchet step: new root and receiving chain. *)
Definition recv_root (rk : bytes) (ckr : option bytes) (kems : option (bytes * bytes))
  (headerCt : bytes) : result (bytes * option bytes) :=
  match kems with
  | Some kp =>
      pqSharedSecret ← kem_dec headerCt kp.2;
      sharedSecret1 ← root_input rk pqSharedSecret;
      let '(rk', ckr') := split_kdf (generichash 64 sharedSecret1 None) in
      Ok (rk', Some ckr')
  | None => Ok (rk, ckr)
  end.

(** A header with an unknown KEM key starts a new chain. *)
Definition ratchet_step (seed rnd : bytes) (state : RuntimeDoubleRatchetState) (rk : bytes)
  (header : DoubleRatchetHeader) (headerKemPk : bytes) (headerCt : option bytes)
  : result (RuntimeDoubleRatchetState * list skipped_key) :=
  match headerCt with
  | None => throw "Missing ratchet key material (ct absent for new chain)"
  | Some hct =>
      if MAX_SKIP <? pn header - Nr state then throw "Too many skipped messages" else
      pre ← match CKr state, KEMr state with
            | Some ck, Some kemr =>
                skip_loop (Z.to_nat (pn header - Nr state)) (to_base64 kemr) (Some ck)
                  (Nr state) []
            | _, _ => Ok (CKr state, Nr state, [])
            end;
      let '(ckr, _, skipped) := pre in
      r ← recv_root rk ckr (KEMs state) hct;
      let '(rk1, ckr1) := r in
      let newKEMs := kem_keypair seed in
      pqResult ← kem_enc headerKemPk rnd;
      sharedSecret2 ← root_input rk1 pqResult.2;
      let '(rk2, cks2) := split_kdf (generichash 64 sharedSecret2 None) in
      Ok (mkRT (Some newKEMs) (Some headerKemPk) (Some pqResult.1) (Some rk2) (Some cks2) ckr1
            0 0 (Ns state) (skippedKeys state) (messageCount state) (lastActivityTime state),
          skipped)
  end.

Definition is_new_chain (state : RuntimeDoubleRatchetState) (headerKemPk : bytes) : result bool :=
  match KEMr state with
  | None => Ok true
  | Some kemr => sodium_differs headerKemPk kemr
  end.

Record decrypted := mkDecrypted {
  d_state : DoubleRatchetState; d_plaintext : bytes; d_skippedKeys : list skipped_key; d_mk : bytes }.

Definition with_recv (s : RuntimeDoubleRatchetState) (ckr : option bytes) (nr : Z)
  : RuntimeDoubleRatchetState :=
  mkRT (KEMs s) (KEMr s) (savedCt s) (RK s) (CKs s) ckr (Ns s) nr (PN s) (skippedKeys s)
    (messageCount s) (lastActivityTime s).

(** Past the ratchet step: catch up to [header.n], take its key, open. *)
Definition receive_message (state : RuntimeDoubleRatchetState) (header : DoubleRatchetHeader)
  (ciphertext : bytes) (skipped : list skipped_key) : result decrypted :=
  if MAX_SKIP <? n header - Nr state then throw "Too many skipped messages" else
  l ← skip_loop (Z.to_nat (n header - Nr state)) (kemPk header) (CKr state) (Nr state) skipped;
  let '(ckr, nr, skipped) := l in
  if negb (nr =? n header) then throw "Message N is older than current state" else
  match ckr with
  | None => throw "CKr is missing"
  | Some ck =>
      let '(nextCKr, mk) := kdfChain ck in
      let state := with_recv state (Some nextCKr) (nr + 1) in
      let nonce := slice ciphertext 0 24 in
      let ctext := slice_from ciphertext 24 in
      decrypted ← aead_decrypt ctext nonce mk;
      let plaintext := unpadBuffer decrypted (PADDING_BLOCK_SIZE - FINAL_OVERHEAD) in
      Ok (mkDecrypted (serializeState state) plaintext skipped mk)
  end.

Definition dr_ratchet_decrypt (seed rnd : bytes) (serializedState : DoubleRatchetState)
  (header : DoubleRatchetHeader) (ciphertext : bytes) : result decrypted :=
  state ← deserializeState serializedState;
  hk ← b64ToBytes (Some (kemPk header));
  headerCt ← b64ToBytes (Some (ct header));
  match hk, RK state with
  | None, _ => throw "Missing kemPk in header"
  | _, None => throw "RK is missing"
  | Some headerKemPk, Some rk =>
      fresh ← is_new_chain state headerKemPk;
      st ← (if fresh : bool then ratchet_step seed rnd state rk header headerKemPk headerCt
            else Ok (state, []));
      let '(state, skipped) := st in
      receive_message state header ciphertext skipped
  end.

End Ops.
End DR.

(** ** Functional behaviour of the operations *)
Section DRLemmas.
Import DR.
Context `{SodiumLaws}.

Definition some_nonempty (o : option bytes) : Prop := o <> Some [].

(** States whose keys are not empty buffers: what the worker ever produces. *)
Definition rt_ok (r : RuntimeDoubleRatchetState) : Prop :=
  some_nonempty (KEMr r) /\ some_nonempty (savedCt r) /\ some_nonempty (RK r) /\
  some_nonempty (CKs r) /\ some_nonempty (CKr r).

Lemma b64ToBytes_bytesToB64 o : some_nonempty o -> b64ToBytes (bytesToB64 o) = Ok o.
Proof.
  intros Ho. destruct o as [b|]; [|done]. cbn.
  rewrite bool_decide_eq_false_2 by (intros E; apply base64_empty in E; subst; by apply Ho).
  by rewrite base64_correct.
Qed.

Lemma b64ToBytes_some b : b <> [] -> b64ToBytes (Some (to_base64 b)) = Ok (Some b).
Proof. intros Hb. apply (b64ToBytes_bytesToB64 (Some b)). by intros [= ->]. Qed.

Lemma deserialize_serialize r : rt_ok r -> deserializeState (serializeState r) = Ok r.
Proof.
  intros (H1 & H2 & H3 & H4 & H5). destruct r as [kems kemr saved rk cks ckr ns nr pn0 sk mc la].
  unfold deserializeState, serializeState.
  cbn [s_KEMs s_KEMr s_savedCt s_RK s_CKs s_CKr s_Ns s_Nr s_PN s_skippedKeys s_messageCount
    s_lastActivityTime KEMs KEMr savedCt RK CKs CKr Ns Nr PN skippedKeys messageCount
    lastActivityTime] in *.
  rewrite !b64ToBytes_bytesToB64 by done.
  destruct kems as [[a b]|]; cbn; [by rewrite !base64_correct|done].
Qed.

(** One derivation of a root and a chain key. *)
Definition derive (rk ss : bytes) : bytes * bytes := split_kdf (generichash 64 (rk ++ ss) None).

Lemma derive_length rk ss : blen (derive rk ss).1 = 32 /\ blen (derive rk ss).2 = 32.
Proof.
  unfold derive, split_kdf. cbn. pose proof (hash_length 64 (rk ++ ss) None ltac:(lia)).
  rewrite !blen_slice by lia. done.
Qed.

Lemma root_input_ok rk ss : blen rk = 32 -> root_input rk ss = Ok (rk ++ ss).
Proof.
  intros Hr. unfold root_input. pose proof (blen_nonneg ss).
  rewrite u8_set_first, bind_ok by lia. rewrite u8_set_fill' by lia.
  rewrite zeros_nil by lia. by rewrite app_nil_r.
Qed.

Definition skipped_range (label : string) (ck : bytes) (i k : nat) : list skipped_key :=
  map (fun j => mkSkipped label (Z.of_nat j) (to_base64 (msg_key ck j))) (seq i k).

Lemma skip_loop_ok label ck k : forall i acc,
  skip_loop k label (Some (chain_key ck i)) (Z.of_nat i) acc =
    Ok (Some (chain_key ck (i + k)), Z.of_nat (i + k), acc ++ skipped_range label ck i k).
Proof.
  unfold skipped_range. induction k as [|k IH]; intros i acc.
  - cbn. by rewrite Nat.add_0_r, app_nil_r.
  - cbn [skip_loop seq map]. destruct (kdfChain (chain_key ck i)) as [nk mk] eqn:E.
    replace nk with (chain_key ck (S i)) by (cbn [chain_key]; by rewrite E).
    replace (Z.of_nat i + 1) with (Z.of_nat (S i)) by lia. rewrite IH.
    replace (S i + k)%nat with (i + S k)%nat by lia.
    replace mk with (msg_key ck i) by (unfold msg_key; by rewrite E).
    by rewrite <- app_assoc.
Qed.

(** The ciphertext of message number [j] of the chain that starts with [ck]. *)
Definition padded (p : bytes) : bytes := p ++ [x80] ++ zeros (8152 - blen p mod 8152 - 1).
Definition wire_ct (nonce p mk : bytes) : bytes := nonce ++ aead_encrypt (padded p) nonce mk.

Lemma open_wire nonce p mk :
  blen nonce = 24 ->
  (d ← aead_decrypt (slice_from (wire_ct nonce p mk) 24) (slice (wire_ct nonce p mk) 0 24) mk;
   Ok (unpadBuffer d 8152)) = Ok p.
Proof.
  intros Hn. unfold wire_ct.
  destruct (split_combined nonce (aead_encrypt (padded p) nonce mk) Hn) as [-> ->].
  rewrite aead_correct, bind_ok. f_equal. apply unpad_pad.
Qed.

(** Encryption takes the next message key of the sending chain. *)
Lemma encrypt_spec nonce r ck k kp p :
  rt_ok r -> KEMs r = Some kp -> CKs r = Some (chain_key ck k) -> Ns r = Z.of_nat k ->
  dr_ratchet_encrypt nonce (serializeState r) p =
    Ok (mkEncrypted
      (serializeState (mkRT (KEMs r) (KEMr r) (savedCt r) (RK r) (Some (chain_key ck (S k)))
         (CKr r) (Z.of_nat (S k)) (Nr r) (PN r) (skippedKeys r) (messageCount r)
         (lastActivityTime r)))
      (mkHeader (to_base64 kp.1) (default "" (bytesToB64 (savedCt r))) (Z.of_nat k) (PN r))
      (wire_ct nonce p (msg_key ck k)) (msg_key ck k)).
Proof.
  intros Hok Hk Hc Hn. unfold dr_ratchet_encrypt. rewrite deserialize_serialize, bind_ok by done.
  rewrite Hc. destruct (kdfChain (chain_key ck k)) as [nk mk] eqn:E.
  change (PADDING_BLOCK_SIZE - FINAL_OVERHEAD) with 8152.
  rewrite padBuffer_eq, bind_ok, combine_ok, bind_ok by lia. rewrite Hk, Hn.
  replace (Z.of_nat k + 1) with (Z.of_nat (S k)) by lia.
  unfold msg_key, wire_ct, padded. cbn [chain_key fst]. rewrite E. done.
Qed.

(** Decryption once the receiving chain is at or before [j]. *)
Lemma receive_spec r ck i j h acc nonce p :
  CKr r = Some (chain_key ck i) -> Nr r = Z.of_nat i -> n h = Z.of_nat j -> (i <= j)%nat ->
  Z.of_nat j - Z.of_nat i <= MAX_SKIP -> blen nonce = 24 ->
  receive_message r h (wire_ct nonce p (msg_key ck j)) acc =
  Ok (mkDecrypted (serializeState (with_recv r (Some (chain_key ck (S j))) (Z.of_nat (S j)))) p
        (acc ++ skipped_range (kemPk h) ck i (j - i)) (msg_key ck j)).
Proof.
  intros Hck Hnr Hh Hij Hmax Hn. unfold receive_message. rewrite Hh, Hnr, Hck.
  replace (MAX_SKIP <? _) with false by (symmetry; apply Z.ltb_ge; lia).
  replace (Z.to_nat (Z.of_nat j - Z.of_nat i)) with (j - i)%nat by lia.
  rewrite skip_loop_ok, bind_ok. replace (i + (j - i))%nat with j by lia.
  rewrite Z.eqb_refl. cbn [negb]. pose proof (open_wire nonce p (msg_key ck j) Hn) as Ho.
  destruct (kdfChain (chain_key ck j)) as [nk mk] eqn:E.
  replace nk with (chain_key ck (S j)) by (cbn [chain_key]; by rewrite E).
  assert (Hm : msg_key ck j = mk) by (unfold msg_key; by rewrite E). rewrite Hm in *.
  destruct (aead_decrypt _ _ mk) as [d|] eqn:Ed; [|done]. rewrite bind_ok in *.
  change (PADDING_BLOCK_SIZE - FINAL_OVERHEAD) with 8152. injection Ho as ->.
  replace (Z.of_nat j + 1) with (Z.of_nat (S j)) by lia. done.
Qed.

Lemma receive_too_many r h b acc :
  MAX_SKIP < n h - Nr r -> receive_message r h b acc = Err "Too many skipped messages".
Proof. intros Hm. unfold receive_message. by rewrite (proj2 (Z.ltb_lt _ _) Hm). Qed.

(** A message of the current receiving chain. *)
Lemma decrypt_current seed rnd r h pk rk b :
  rt_ok r -> RK r = Some rk -> KEMr r = Some pk -> pk <> [] -> kemPk h = to_base64 pk ->
  is_ok (b64ToBytes (Some (ct h))) = true ->
  dr_ratchet_decrypt seed rnd (serializeState r) h b = receive_message r h b [].
Proof.
  intros Hok Hrk Hkr Hpk Hk Hct. unfold dr_ratchet_decrypt.
  rewrite deserialize_serialize, bind_ok by done. rewrite Hk, b64ToBytes_some, bind_ok by done.
  destruct (b64ToBytes (Some (ct h))) as [hct|]; [|done]. rewrite bind_ok, Hrk.
  unfold is_new_chain, sodium_differs. rewrite Hkr, Z.eqb_refl. cbn [negb].
  by rewrite bool_decide_eq_true_2.
Qed.

(** The state after a ratchet step on the peer's key [pk]. *)
Definition stepped (r : RuntimeDoubleRatchetState) (kp : bytes * bytes) (pk ct2 rk2 cks2 ck1 : bytes)
  : RuntimeDoubleRatchetState :=
  mkRT (Some kp) (Some pk) (Some ct2) (Some rk2) (Some cks2) (Some ck1) 0 0 (Ns r)
    (skippedKeys r) (messageCount r) (lastActivityTime r).

(** The keys skipped on the receiving chain that a step closes. *)
Definition closed_range (r : RuntimeDoubleRatchetState) (old : option bytes) (i : nat) (m : Z)
  : list skipped_key :=
  match old, KEMr r with
  | Some ck, Some kemr => skipped_range (to_base64 kemr) ck i (Z.to_nat (m - Z.of_nat i))
  | _, _ => []
  end.

Section NewChain.
Context (seed rnd : bytes) (r : RuntimeDoubleRatchetState) (h : DoubleRatchetHeader).
Context (pk rk hct b : bytes).
Context (Hok : rt_ok r) (Hrk : RK r = Some rk) (Hrl : blen rk = 32).
Context (Hkemr : forall k, KEMr r = Some k -> blen k = blen pk /\ k <> pk) (Hpk : pk <> []).
Context (Hk : kemPk h = to_base64 pk) (Hct : ct h = to_base64 hct) (Hhct : hct <> []).

Lemma decrypt_new_step :
  dr_ratchet_decrypt seed rnd (serializeState r) h b =
    (st ← ratchet_step seed rnd r rk h pk (Some hct);
     let '(state, skipped) := st in receive_message state h b skipped).
Proof.
  unfold dr_ratchet_decrypt. rewrite deserialize_serialize, bind_ok by done.
  rewrite Hk, b64ToBytes_some, bind_ok by done. rewrite Hct, b64ToBytes_some, bind_ok by done.
  rewrite Hrk. replace (is_new_chain r pk) with (Ok true); [done|].
  unfold is_new_chain, sodium_differs. destruct (KEMr r) as [k|]; [|done].
  destruct (Hkemr k eq_refl) as [-> Hne]. rewrite Z.eqb_refl. cbn [negb].
  by rewrite bool_decide_eq_false_2.
Qed.

Lemma decrypt_new_too_many :
  MAX_SKIP < pn h - Nr r ->
  dr_ratchet_decrypt seed rnd (serializeState r) h b = Err "Too many skipped messages".
Proof.
  intros Hm. rewrite decrypt_new_step. unfold ratchet_step. by rewrite (proj2 (Z.ltb_lt _ _) Hm).
Qed.

(** The first message received of a new chain: the old receiving chain is closed
    at [pn], and both root keys of the step are derived. *)
Lemma decrypt_new_chain old i kpub sk ss ct2 ss2 :
  KEMs r = Some (kpub, sk) -> CKr r = (fun ck => chain_key ck i) <$> old -> Nr r = Z.of_nat i ->
  pn h - Nr r <= MAX_SKIP -> kem_dec hct sk = Ok ss -> kem_enc pk rnd = Ok (ct2, ss2) ->
  let d1 := derive rk ss in let d2 := derive d1.1 ss2 in
  dr_ratchet_decrypt seed rnd (serializeState r) h b =
  receive_message (stepped r (kem_keypair seed) pk ct2 d2.1 d2.2 d1.2) h b
    (closed_range r old i (pn h)).
Proof.
  intros Hkems Hck Hnr Hpn Hdec Henc d1 d2. rewrite decrypt_new_step. unfold ratchet_step.
  replace (MAX_SKIP <? _) with false by (symmetry; apply Z.ltb_ge; lia).
  assert (exists ckr nr, match CKr r, KEMr r with
      | Some ck, Some kemr => skip_loop (Z.to_nat (pn h - Nr r)) (to_base64 kemr) (Some ck) (Nr r) []
      | _, _ => Ok (CKr r, Nr r, []) end = Ok (ckr, nr, closed_range r old i (pn h)))
    as (ckr & nr & ->).
  { unfold closed_range. rewrite Hck, Hnr. destruct old as [ck|], (KEMr r) as [kemr|]; cbn;
      try (by eexists _, _). rewrite skip_loop_ok. by eexists _, _. }
  rewrite bind_ok. unfold recv_root. rewrite Hkems. cbn [snd]. rewrite Hdec, bind_ok.
  rewrite root_input_ok, bind_ok by done. fold (derive rk ss). fold d1.
  destruct d1 as [rk1 ck1] eqn:Ed1. rewrite bind_ok. rewrite Henc, bind_ok. cbn [fst snd].
  pose proof (derive_length rk ss) as [Hl1 _]. fold d1 in Hl1. rewrite Ed1 in Hl1. cbn in Hl1.
  rewrite root_input_ok, bind_ok by done. fold (derive rk1 ss2).
  subst d2. cbn [fst]. by destruct (derive rk1 ss2) as [rk2 cks2].
Qed.
End NewChain.
End DRLemmas.
