(* ===== verification/DrSession.v ===== *)
(** The client side of a 1:1 session: web/src/lib/drProtocol.ts (handshake until
    confirmed, omitted KEM ciphertext), the key tables of web/src/lib/keychainDb.ts
    and the double-ratchet branches of web/src/utils/crypto.ts
    (doEncryptMessage, decryptMessage). Tables hold the plaintext values: what
    goes to disk is wrapped by encrypt_session_key and unwrapped by
    decrypt_session_key (Sodium.session_key_roundtrip). *)
From S2P Require Import Prelude Bytes Base64 Utf8 PqWire Envelope Sodium DoubleRatchet Text.
From stdpp Require Import pretty.
From Stdlib Require Import Ascii.
#[local] Open Scope Z_scope.
Import DR.

(** ** Protocol fields kept by the client *)
Module DrProtocol.

Inductive RatchetWireVersion := v1 | v2.
Inductive Direction := A2B | B2A.

Record DrHandshakePayload := mkHandshakePayload {
  initiatorCiphertexts : string; otpkId : option Z; handshakeVersion : option Z;
  initiatorSigningKeyV2 : option string }.

(** The outer [option] is [undefined], the inner one [null]. *)
Record DrProtocolStateView := mkView {
  peerSessionConfirmed : option bool;
  pendingHandshake : option (option DrHandshakePayload);
  peerAckedKem : option (option string);
  ratchetVersion : option (option RatchetWireVersion);
  peerAckRatchetVersion : option (option RatchetWireVersion);
  spqrAuthKey : option string;
  spqrDirection : option Direction }.

Definition empty_view : DrProtocolStateView := mkView None None None None None None None.

Definition truthy (o : option bool) : bool := default false o.

Definition shouldIncludeHandshake (s : DrProtocolStateView) (justEstablished : bool) : bool :=
  if justEstablished then true else
  if truthy (peerSessionConfirmed s) then false else
  match pendingHandshake s with Some (Some _) => true | _ => false end.

Definition getHandshakePayload (s : DrProtocolStateView) : option DrHandshakePayload :=
  if truthy (peerSessionConfirmed s) then None else default None (pendingHandshake s).

Definition shouldOmitRatchetCt (acked current : option string) : bool :=
  match acked, current with
  | Some a, Some c =>
      if bool_decide (a = ""%string) || bool_decide (c = ""%string) then false
      else bool_decide (a = c)
  | _, _ => false
  end.

(** [patch ?? previous], [undefined] meaning absent. *)
Definition over {A} (patch previous : option A) : option A :=
  match patch with Some _ => patch | None => previous end.

Definition attachClientProtocolFields (previous patch : DrProtocolStateView)
  : DrProtocolStateView :=
  mkView
    (Some (default false (over (peerSessionConfirmed patch) (peerSessionConfirmed previous))))
    (Some (default None (over (pendingHandshake patch) (pendingHandshake previous))))
    (Some (default None (over (peerAckedKem patch) (peerAckedKem previous))))
    (match ratchetVersion patch with
     | Some v => Some v
     | None => Some (match ratchetVersion previous with Some (Some v) => Some v | _ => Some v1 end)
     end)
    (Some (default None (over (peerAckRatchetVersion patch) (peerAckRatchetVersion previous))))
    (over (spqrAuthKey patch) (spqrAuthKey previous))
    (over (spqrDirection patch) (spqrDirection previous)).

(** The client's copy of [unpadBuffer]. *)
Definition trimPaddedPlaintext (buf : bytes) : bytes :=
  match Padding.strip_zeros (rev buf) with
  | x80 :: rest => rev rest
  | _ => buf
  end.

End DrProtocol.
Import DrProtocol.

(** ** Tables of the local database *)
Module KeyTables.

(** An indexed table: records in the order of their primary key. *)
Abbreviation table V := (list (string * V)%type).

Fixpoint tbl_get {V} (t : table V) (k : string) : option V :=
  match t with
  | [] => None
  | (k', v) :: t' => if bool_decide (k' = k) then Some v else tbl_get t' k
  end.
Definition tbl_delete {V} (t : table V) (k : string) : table V := filter (fun e => e.1 <> k) t.
Fixpoint tbl_insert {V} (t : table V) (k : string) (v : V) : table V :=
  match t with
  | [] => [(k, v)]
  | (k', v') :: t' => if String.ltb k k' then (k, v) :: t else (k', v') :: tbl_insert t' k v
  end.
Definition tbl_put {V} (t : table V) (k : string) (v : V) : table V :=
  tbl_insert (tbl_delete t k) k v.

(** [s.split('_')] *)
Fixpoint split_us (s : string) : list string :=
  match s with
  | EmptyString => [""%string]
  | String c s' =>
      if Ascii.eqb c "_"%char then ""%string :: split_us s'
      else match split_us s' with
           | w :: ws => String c w :: ws
           | [] => [String c ""]
           end
  end.

Fixpoint join_us (l : list string) : string :=
  match l with
  | [] => ""
  | [w] => w
  | w :: ws => (w ++ "_" ++ join_us ws)%string
  end.

Definition is_digit (c : ascii) : bool := (48 <=? code c) && (code c <=? 57).
Fixpoint digits_value (s : string) (acc : Z) : Z :=
  match s with EmptyString => acc | String c s' => digits_value s' (acc * 10 + (code c - 48)) end.

(** [k.match(/_(\d+)$/)], [-1] when it does not match. *)
Definition parseN (k : string) : Z :=
  match last (split_us k), length (split_us k) with
  | Some w, S (S _) =>
      if negb (bool_decide (w = ""%string)) && str_forall is_digit w then digits_value w 0 else -1
  | _, _ => -1
  end.

(** [Array.prototype.sort] with a numeric key: stable, ascending. *)
Fixpoint insert_by {A} (f : A -> Z) (x : A) (l : list A) : list A :=
  match l with
  | [] => [x]
  | y :: l' => if f x <=? f y then x :: l else y :: insert_by f x l'
  end.
Definition sort_by {A} (f : A -> Z) (l : list A) : list A := foldr (insert_by f) [] l.

Definition MAX_SKIPPED_DR : Z := 200.

Definition storeSkippedKey {V} (t : table V) (headerKey : string) (key : V) : table V :=
  let convId := join_us (take 2 (split_us headerKey)) in
  let all := filter (fun e => String.prefix (convId ++ "_") e.1 = true) t in
  let t :=
    if MAX_SKIPPED_DR <=? Z.of_nat (length all) then
      let sorted := sort_by (fun e => parseN e.1) all in
      let toDelete := take (Z.to_nat (Z.of_nat (length all) - MAX_SKIPPED_DR + 1)) sorted in
      foldl (fun t e => tbl_delete t e.1) t toDelete
    else t in
  tbl_put t headerKey key.

Definition getSkippedKey {V} (t : table V) (headerKey : string) : option V := tbl_get t headerKey.

(** [`${conversationId}_${kemPk}_${n}`] *)
Definition headerKey (conv kemPk : string) (n : Z) : string :=
  (conv ++ "_" ++ kemPk ++ "_" ++ pretty n)%string.

Definition RATCHET_ARCHIVE_SLOTS : nat := 3.
Definition ratchetArchiveIds (conv : string) : list string :=
  map (fun i => (conv ++ "#archived_" ++ pretty (Z.of_nat i))%string)
    (seq 0 RATCHET_ARCHIVE_SLOTS).
Definition legacyArchiveId (conv : string) : string := (conv ++ "#archived")%string.

(** [for (let i = SLOTS - 1; i > 0; i--)]: slot [i-1] is copied to slot [i]. *)
Fixpoint shift_archive {V} (sessions : gmap string V) (ids : list string) : gmap string V :=
  match ids with
  | a :: ((b :: _) as rest) =>
      let sessions := shift_archive sessions rest in
      match sessions !! a with Some v => <[b := v]> sessions | None => sessions end
  | _ => sessions
  end.

Definition storeRatchetSession {V} (sessions : gmap string V) (conv : string) (st : V)
  : gmap string V :=
  let sessions :=
    match sessions !! conv with
    | Some existing =>
        let ids := ratchetArchiveIds conv in
        let sessions := shift_archive sessions ids in
        let sessions := <[default "" (head ids) := existing]> sessions in
        delete (legacyArchiveId conv) sessions
    | None => sessions
    end in
  <[conv := st]> sessions.

Definition getArchivedRatchetSessions {V} (sessions : gmap string V) (conv : string) : list V :=
  omap (fun id => sessions !! id) (ratchetArchiveIds conv ++ [legacyArchiveId conv]).

End KeyTables.
Import KeyTables.

(** ** Sending and receiving *)
Module Client.

Record Persisted := mkPersisted { worker : DoubleRatchetState; view : DrProtocolStateView }.

Record device := mkDevice {
  ratchetSessions : gmap string Persisted;
  skippedTable : table string;
  messageKeys : gmap string bytes }.

Record wire := mkWire {
  w_dr : DoubleRatchetHeader; w_ciphertext : bytes; w_x3dh : option DrHandshakePayload }.

Inductive decrypt_result (A : Type) :=
| Success (value : A)
| Pending (reason : string)
| Failed (error : string).
Arguments Success {A} value.
Arguments Pending {A} reason.
Arguments Failed {A} error.

Section Ops.
Context `{Sodium} {text : Type}.
(** [JSON.stringify({content, senderId, senderDeviceKey, ackKem, ...})] of a
    message, the [ackKem] string of a parsed payload, and [sodium.to_string]. *)
Context (sealPayload : text -> option string -> jstr).
Context (payloadAck : jstr -> option string).
Context (to_string : bytes -> result jstr).

Definition storeSkipped (t : table string) (conv : string) (l : list skipped_key) : table string :=
  foldl (fun t k => storeSkippedKey t (headerKey conv (sk_kemPk k) (sk_n k)) (sk_mk k)) t l.

Definition truthy_str (o : option string) : option string :=
  match o with Some s => if bool_decide (s = ""%string) then None else Some s | None => None end.

Definition extractPeerAck (p : jstr) : option string := truthy_str (payloadAck p).

(** [doEncryptMessage] on the v1 path, from the session it loaded or has just
    created ([x3dhData] is the handshake of a session created in this call). *)
Definition encrypt_v1 (nonce : bytes) (d : device) (conv : string) (messageId : option string)
  (state : Persisted) (x3dhData : option DrHandshakePayload) (version : RatchetWireVersion)
  (t : text) : result (device * wire) :=
  let sealedPayload := sealPayload t (truthy_str (s_KEMr (worker state))) in
  let clientFieldsPatch :=
    mkView (match x3dhData with Some _ => Some false | None => None end)
      (match x3dhData with Some h => Some (Some h) | None => None end)
      None (Some (Some version)) None None None in
  res ← dr_ratchet_encrypt nonce (worker state) (utf8_encode sealedPayload);
  let mks := match messageId with
             | Some id => <[id := e_mk res]> (messageKeys d)
             | None => messageKeys d
             end in
  let persisted := mkPersisted (e_state res)
                     (attachClientProtocolFields (view state) clientFieldsPatch) in
  let sessions := storeRatchetSession (ratchetSessions d) conv persisted in
  let handshakeForWire := getHandshakePayload (view persisted) in
  let omitCt := shouldOmitRatchetCt (default None (peerAckedKem (view persisted)))
                  (fst <$> s_KEMs (worker persisted)) in
  let h := e_header res in
  let wireHeader := if omitCt then mkHeader (kemPk h) "" (n h) (pn h) else h in
  Ok (mkDevice sessions (skippedTable d) mks, mkWire wireHeader (e_ciphertext res) handshakeForWire).

(** [worker_crypto_secretbox_xchacha20poly1305_open_easy] on nonce and ciphertext,
    trimmed and decoded. *)
Definition open_with (mk combined : bytes) : result jstr :=
  d ← aead_decrypt (slice_from combined 24) (slice combined 0 24) mk;
  to_string (trimPaddedPlaintext d).

Fixpoint str_includes (hay needle : string) : bool :=
  String.prefix needle hay
  || match hay with EmptyString => false | String _ rest => str_includes rest needle end.

Definition isEraMiss (errMsg : string) : bool :=
  str_includes errMsg "Ratchet Advanced" || str_includes errMsg "older than current state"
  || str_includes errMsg "Decryption failed"
  || str_includes errMsg "Missing ratchet key material".

(** The first archived session that opens the message. *)
Fixpoint try_archived (rnds : list (bytes * bytes)) (archived : list Persisted)
  (h : DoubleRatchetHeader) (combined : bytes) : option decrypted :=
  match archived with
  | [] => None
  | st :: rest =>
      let r := default ([], []) (head rnds) in
      match dr_ratchet_decrypt r.1 r.2 (worker st) h combined with
      | Ok d => Some d
      | Err _ => try_archived (tail rnds) rest h combined
      end
  end.

Definition of_result {A} (r : result A) : decrypt_result A :=
  match r with Ok v => Success v | Err e => Failed e end.

(** The message did not open with the current session. *)
Definition archived_path (rnds : list (bytes * bytes)) (d : device) (conv : string)
  (messageId : option string) (h : DoubleRatchetHeader) (combined : bytes) (err : string)
  : device * decrypt_result jstr :=
  if negb (isEraMiss err) then (d, Failed err) else
  match try_archived rnds (getArchivedRatchetSessions (ratchetSessions d) conv) h combined with
  | None => (d, Failed err)
  | Some res =>
      let t := storeSkipped (skippedTable d) conv (d_skippedKeys res) in
      let mks := match messageId with
                 | Some id => <[id := d_mk res]> (messageKeys d)
                 | None => messageKeys d
                 end in
      (mkDevice (ratchetSessions d) t mks, of_result (to_string (d_plaintext res)))
  end.

(** The message opened with the current session: keys first, then the state. *)
Definition current_path (d : device) (conv : string) (messageId : option string)
  (state : Persisted) (res : decrypted) (peerVersion : jstr -> option RatchetWireVersion)
  : device * decrypt_result jstr :=
  let t := storeSkipped (skippedTable d) conv (d_skippedKeys res) in
  let mks := match messageId with
             | Some id => <[id := d_mk res]> (messageKeys d)
             | None => messageKeys d
             end in
  match to_string (d_plaintext res) with
  | Err e => (mkDevice (ratchetSessions d) t mks, Failed e)
  | Ok p =>
      let patch := mkView (Some true) None (Some <$> extractPeerAck p) None
                     (Some <$> peerVersion p) None None in
      let persisted := mkPersisted (d_state res)
                         (attachClientProtocolFields (view state) patch) in
      (mkDevice (storeRatchetSession (ratchetSessions d) conv persisted) t mks, Success p)
  end.

(** [decryptMessage] for a v1 double-ratchet header: cached message key, skipped
    key, current session, archived sessions. *)
Definition decrypt_v1 (seed rnd : bytes) (rnds : list (bytes * bytes)) (d : device)
  (conv : string) (messageId : option string) (peerVersion : jstr -> option RatchetWireVersion)
  (h : DoubleRatchetHeader) (combined : bytes) : device * decrypt_result jstr :=
  let hk := headerKey conv (kemPk h) (n h) in
  let cached := match messageId with Some id => messageKeys d !! id | None => None end in
  match (match cached with Some mk => Some (open_with mk combined) | None => None end) with
  | Some (Ok p) => (d, Success p)
  | _ =>
      match truthy_str (getSkippedKey (skippedTable d) hk) with
      | Some s => (d, of_result (mk ← from_base64 s; open_with mk combined))
      | None =>
          match ratchetSessions d !! conv with
          | None => (d, Pending "waiting_for_ratchet_state")
          | Some state =>
              match dr_ratchet_decrypt seed rnd (worker state) h combined with
              | Err e => archived_path rnds d conv messageId h combined e
              | Ok res => current_path d conv messageId state res peerVersion
              end
          end
      end
  end.

End Ops.
End Client.

(** ** Lemmas on header keys *)
#[local] Arguments String.append : simpl nomatch.

Definition no_us (s : string) : bool := str_forall (fun c => negb (Ascii.eqb c "_"%char)) s.

Lemma no_us_app_us a b : no_us (a ++ "_" ++ b)%string = false.
Proof. induction a as [|c a IH]; [done|]. unfold no_us in *.
  change (negb (Ascii.eqb c "_"%char) && str_forall (fun c => negb (Ascii.eqb c "_"%char))
    (a ++ "_" ++ b)%string = false). rewrite IH. apply andb_false_r. Qed.

Lemma last_us_inj a : forall b p q,
  no_us p = true -> no_us q = true -> (a ++ "_" ++ p = b ++ "_" ++ q)%string -> a = b /\ p = q.
Proof.
  induction a as [|c a IH]; intros [|e b] p q Hp Hq H.
  - by injection H as ->.
  - injection H as <- H. rewrite H in Hp.
    change (no_us (b ++ "_" ++ q)%string = true) in Hp. by rewrite no_us_app_us in Hp.
  - injection H as -> H. rewrite <- H in Hq.
    change (no_us (a ++ "_" ++ p)%string = true) in Hq. by rewrite no_us_app_us in Hq.
  - injection H as -> H. apply IH in H as [-> ->]; done.
Qed.

Lemma no_us_pretty k : 0 <= k -> no_us (pretty k) = true.
Proof. intros Hk. by apply (decimal_free_of "_"), pretty_decimal. Qed.

Lemma headerKey_inj conv a b i j :
  0 <= i -> 0 <= j -> headerKey conv a i = headerKey conv b j -> a = b /\ i = j.
Proof.
  intros Hi Hj H. unfold headerKey in H. apply str_app_inj_l in H.
  injection H as H.
  apply last_us_inj in H as [-> H]; [|by apply no_us_pretty..]. split; [done|].
  by apply (inj pretty) in H.
Qed.

(** ** Lemmas on tables *)
Section Tables.
Context {V : Type}.
Implicit Types t : table V.

Lemma tbl_delete_get t k k' :
  tbl_get (tbl_delete t k) k' = if bool_decide (k = k') then None else tbl_get t k'.
Proof.
  unfold tbl_delete. induction t as [|[a b] t IH]; [by case_bool_decide|].
  rewrite filter_cons. cbn [fst tbl_get]. destruct (decide (a <> k)) as [Hne|Heq].
  - cbn [tbl_get]. rewrite IH. destruct (bool_decide (a = k')) eqn:E; [|done].
    apply bool_decide_eq_true in E as ->. by rewrite bool_decide_eq_false_2.
  - apply dec_stable in Heq as ->. rewrite IH. by destruct (bool_decide (k = k')).
Qed.

Lemma tbl_insert_get t k v k' :
  tbl_get t k = None ->
  tbl_get (tbl_insert t k v) k' = if bool_decide (k = k') then Some v else tbl_get t k'.
Proof.
  induction t as [|[a b] t IH]; cbn [tbl_get tbl_insert]; [done|]. intros Hk.
  destruct (bool_decide (a = k)) eqn:E; [done|]. apply bool_decide_eq_false in E.
  destruct (String.ltb k a); [done|]. cbn [tbl_get]. rewrite IH by done.
  destruct (bool_decide (a = k')) eqn:E'; [|done]. apply bool_decide_eq_true in E' as ->.
  by rewrite bool_decide_eq_false_2.
Qed.

Lemma tbl_put_get t k v k' :
  tbl_get (tbl_put t k v) k' = if bool_decide (k = k') then Some v else tbl_get t k'.
Proof.
  unfold tbl_put. rewrite tbl_insert_get, tbl_delete_get; [by case_bool_decide|].
  rewrite tbl_delete_get. by rewrite bool_decide_eq_true_2.
Qed.

(** Tables with one record per key. *)
Definition tbl_ok t : Prop := NoDup t.*1.

Lemma tbl_delete_ok t k : tbl_ok t -> tbl_ok (tbl_delete t k).
Proof.
  unfold tbl_ok, tbl_delete. induction t as [|[a b] t IH]; [done|].
  cbn [fmap list_fmap]. intros [Ha Ht]%NoDup_cons. rewrite filter_cons. cbn [fst].
  destruct (decide (a <> k)); [|auto]. cbn [fmap list_fmap]. apply NoDup_cons. split; [|auto].
  intros (e & Heq & [_ He]%list_elem_of_filter)%list_elem_of_fmap. apply Ha.
  apply list_elem_of_fmap. eauto.
Qed.

Lemma tbl_insert_perm t k v : tbl_insert t k v ≡ₚ (k, v) :: t.
Proof.
  induction t as [|[a b] t IH]; cbn; [done|]. destruct (String.ltb k a); [done|].
  rewrite IH. apply Permutation_swap.
Qed.

Lemma tbl_delete_not_in t k : k ∉ (tbl_delete t k).*1.
Proof. unfold tbl_delete. intros (e & Heq & [He _]%list_elem_of_filter)%list_elem_of_fmap. by subst. Qed.

Lemma tbl_put_ok t k v : tbl_ok t -> tbl_ok (tbl_put t k v).
Proof.
  intros Ht. unfold tbl_ok, tbl_put. rewrite tbl_insert_perm. cbn.
  apply NoDup_cons. split; [apply tbl_delete_not_in|by apply tbl_delete_ok].
Qed.

Lemma tbl_delete_length t k : tbl_ok t -> (length t <= length (tbl_delete t k) + 1)%nat.
Proof.
  unfold tbl_ok, tbl_delete. induction t as [|[a b] t IH]; [cbn; lia|].
  cbn [fmap list_fmap]. intros [Ha Ht]%NoDup_cons. rewrite filter_cons. cbn [fst].
  destruct (decide (a <> k)) as [Hne|Heq]; cbn [length]; [specialize (IH Ht); lia|].
  apply dec_stable in Heq as ->.
  assert (Hf : filter (fun e => e.1 <> k) t = t); [|rewrite Hf; lia].
  clear IH Ht. induction t as [|[a c] t IH]; [done|]. cbn [fmap list_fmap fst] in Ha.
  rewrite filter_cons. cbn [fst]. rewrite decide_True by set_solver. f_equal. apply IH. set_solver.
Qed.

Lemma tbl_put_length t k v : tbl_ok t -> (length t <= length (tbl_put t k v))%nat.
Proof.
  intros Ht. unfold tbl_put. rewrite tbl_insert_perm. cbn. pose proof (tbl_delete_length t k Ht). lia.
Qed.

Definition deletes {A} (t : table V) (l : list (string * A)) : table V :=
  foldl (fun t e => tbl_delete t e.1) t l.

Lemma deletes_spec {A} (l : list (string * A)) : forall t, tbl_ok t ->
  tbl_ok (deletes t l) /\ (length t <= length (deletes t l) + length l)%nat /\
  (forall k v, tbl_get (deletes t l) k = Some v -> tbl_get t k = Some v).
Proof.
  unfold deletes. induction l as [|e l IH]; intros t Ht; cbn; [split_and!; [done|lia|done]|].
  destruct (IH (tbl_delete t e.1) (tbl_delete_ok _ _ Ht)) as (H1 & H2 & H3).
  pose proof (tbl_delete_length t e.1 Ht). split_and!; [done|lia|].
  intros k v Hk. apply H3 in Hk. rewrite tbl_delete_get in Hk. by case_bool_decide.
Qed.

Lemma insert_by_length {A} (f : A -> Z) x l : length (insert_by f x l) = S (length l).
Proof. induction l as [|y l IH]; cbn; [done|]. destruct (f x <=? f y); cbn; lia. Qed.

Lemma sort_by_length {A} (f : A -> Z) l : length (sort_by f l) = length l.
Proof.
  induction l as [|x l IH]; [done|]. change (sort_by f (x :: l)) with (insert_by f x (sort_by f l)).
  by rewrite insert_by_length, IH.
Qed.

(** Storing a skipped key: it is there afterwards, nothing is made up, and as
    long as the table stays below 199 records nothing was evicted. *)
Lemma storeSkippedKey_spec t k v : tbl_ok t ->
  let t' := storeSkippedKey t k v in
  tbl_ok t' /\ tbl_get t' k = Some v /\
  (forall k' v', tbl_get t' k' = Some v' -> (k' = k /\ v' = v) \/ tbl_get t k' = Some v') /\
  ((length t' < 199)%nat -> (length t <= length t')%nat /\
     forall k' v', k' <> k -> tbl_get t k' = Some v' -> tbl_get t' k' = Some v').
Proof.
  intros Ht t'. subst t'. unfold storeSkippedKey, MAX_SKIPPED_DR.
  set (all := filter _ t).
  destruct (200 <=? Z.of_nat (length all)) eqn:Ec.
  - bools. set (del := take _ _).
    destruct (deletes_spec del t Ht) as (D1 & D2 & D3). fold (deletes t del).
    split_and!.
    + by apply tbl_put_ok.
    + rewrite tbl_put_get. by rewrite bool_decide_eq_true_2.
    + intros k' v'. rewrite tbl_put_get. case_bool_decide; naive_solver.
    + intros Hlen. exfalso. pose proof (tbl_put_length _ k v D1).
      assert (length del <= length all - 199)%nat by (subst del; rewrite length_take; lia).
      assert (length all <= length t)%nat by apply length_filter. lia.
  - split_and!.
    + by apply tbl_put_ok.
    + rewrite tbl_put_get. by rewrite bool_decide_eq_true_2.
    + intros k' v'. rewrite tbl_put_get. case_bool_decide; naive_solver.
    + intros Hlen. split; [by apply tbl_put_length|].
      intros k' v' Hne Hg. rewrite tbl_put_get. by rewrite bool_decide_eq_false_2.
Qed.
End Tables.

(** Storing a whole list of skipped keys. *)
Lemma storeSkipped_spec conv l : forall t, tbl_ok t ->
  let t' := Client.storeSkipped t conv l in
  let hk e := headerKey conv (sk_kemPk e) (sk_n e) in
  tbl_ok t' /\
  (forall k v, tbl_get t' k = Some v ->
     tbl_get t k = Some v \/ exists e, e ∈ l /\ k = hk e /\ v = sk_mk e) /\
  ((length t' < 199)%nat -> (length t < 199)%nat /\
     (forall k, is_Some (tbl_get t k) -> is_Some (tbl_get t' k)) /\
     (forall e, e ∈ l -> is_Some (tbl_get t' (hk e)))).
Proof.
  unfold Client.storeSkipped. induction l as [|e l IH]; intros t Ht; cbn [foldl].
  { split_and!; [done|naive_solver|]. intros Hl. split_and!; [done|done|set_solver]. }
  destruct (storeSkippedKey_spec t (headerKey conv (sk_kemPk e) (sk_n e)) (sk_mk e) Ht)
    as (S1 & S2 & S3 & S4).
  destruct (IH _ S1) as (I1 & I2 & I3). split_and!; [done| |].
  - intros k v Hk. destruct (I2 k v Hk) as [Hk'|(e' & He & Hk' & Hv)]; [|set_solver].
    destruct (S3 k v Hk') as [[-> ->]|]; set_solver.
  - intros Hl. destruct (I3 Hl) as (L1 & L2 & L3). destruct (S4 L1) as [L4 L5]. split_and!.
    + lia.
    + intros k [v Hv]. apply L2.
      destruct (decide (k = headerKey conv (sk_kemPk e) (sk_n e))) as [->|Hne];
        [rewrite S2; by eexists|]. rewrite (L5 k v Hne Hv). by eexists.
    + intros e' [->|He]%elem_of_cons; [apply L2; rewrite S2; by eexists|by apply L3].
Qed.

(** ** The session table and its archive *)
Section Archive.
Context {V : Type} (conv : string).
Implicit Types m : gmap string V.

Definition slot (i : nat) : string := (conv ++ "#archived_" ++ pretty (Z.of_nat i))%string.

Lemma app_length_str (a b : string) : String.length (a ++ b) = (String.length a + String.length b)%nat.
Proof. induction a as [|c a IH]; [done|]. cbn. by rewrite IH. Qed.

Lemma slot_ne_conv i : slot i <> conv.
Proof.
  intros E. assert (L : String.length (slot i) = String.length conv) by (by rewrite E).
  unfold slot in L. rewrite !app_length_str in L. cbn in L. lia.
Qed.
Lemma legacy_ne_conv : legacyArchiveId conv <> conv.
Proof.
  intros E. assert (L : String.length (legacyArchiveId conv) = String.length conv) by (by rewrite E).
  unfold legacyArchiveId in L. rewrite app_length_str in L. cbn in L. lia.
Qed.
Lemma slot_inj i j : slot i = slot j -> i = j.
Proof.
  intros E. unfold slot in E. apply str_app_inj_l in E.
  change ("#archived_" ++ pretty (Z.of_nat i))%string
    with (String.append "#archived_" (pretty (Z.of_nat i))) in E.
  apply (str_app_inj_l "#archived_") in E. apply (inj pretty) in E. lia.
Qed.
Lemma slot_ne_legacy i : slot i <> legacyArchiveId conv.
Proof.
  intros E. unfold slot, legacyArchiveId in E. apply str_app_inj_l in E. discriminate E.
Qed.

(** The rows that stand for a history of stored states, latest first. *)
Record holds m (h : list V) : Prop := {
  ho_current : m !! conv = h !! 0%nat;
  ho_slots : forall i, (i < 3)%nat -> m !! slot i = h !! S i;
  ho_legacy : m !! legacyArchiveId conv = None }.

Lemma ids_eq : ratchetArchiveIds conv = [slot 0; slot 1; slot 2].
Proof. done. Qed.

Lemma store_holds m h st : holds m h -> holds (storeRatchetSession m conv st) (st :: h).
Proof.
  intros [Hc Hs Hl]. unfold storeRatchetSession.
  pose proof (slot_ne_conv 0). pose proof (slot_ne_conv 1). pose proof (slot_ne_conv 2).
  pose proof (slot_ne_legacy 0). pose proof (slot_ne_legacy 1). pose proof (slot_ne_legacy 2).
  assert (slot 0 <> slot 1) by (intros E; by apply slot_inj in E).
  assert (slot 0 <> slot 2) by (intros E; by apply slot_inj in E).
  assert (slot 1 <> slot 2) by (intros E; by apply slot_inj in E).
  pose proof legacy_ne_conv.
  destruct h as [|a h]; cbn [lookup list_lookup] in Hc; rewrite Hc.
  - split; [by rewrite lookup_insert_eq| |by rewrite lookup_insert_ne].
    intros i Hi. rewrite lookup_insert_ne by (apply not_eq_sym, slot_ne_conv). by rewrite Hs.
  - rewrite ids_eq. cbn [head default from_option shift_archive]. unfold Datatypes.id.
    pose proof (Hs 0%nat ltac:(lia)) as S0. pose proof (Hs 1%nat ltac:(lia)) as S1.
    pose proof (Hs 2%nat ltac:(lia)) as S2. cbn [lookup list_lookup] in S0, S1, S2.
    assert (Hsh : forall k, shift_archive m [slot 0; slot 1; slot 2] !! k =
      if decide (k = slot 1) then h !! 0%nat else
      if decide (k = slot 2) then h !! 1%nat else m !! k).
    { intros k. cbn [shift_archive]. rewrite S1.
      destruct h as [|b [|c h]]; cbn [lookup list_lookup] in *; rewrite ?S0;
        repeat case_decide; subst; by simplify_map_eq. }
    split.
    + by rewrite lookup_insert_eq.
    + intros i Hi. rewrite lookup_insert_ne by (apply not_eq_sym, slot_ne_conv).
      rewrite lookup_delete_ne by (apply not_eq_sym, slot_ne_legacy).
      destruct i as [|[|[|i]]]; [| | |lia]; cbn [lookup list_lookup];
        [by rewrite lookup_insert_eq|..]; rewrite lookup_insert_ne by done; rewrite Hsh;
        repeat case_decide; done.
    + rewrite lookup_insert_ne by (by apply not_eq_sym). apply lookup_delete_eq.
Qed.

(** The session archive is a FIFO of the last three stored states. Storing
    states one after the other into an empty table leaves the last one current and
    [getArchivedRatchetSessions] returning the three before it, latest first; in
    particular every stored state is archived, not only those of an earlier era,
    so after four messages of one era nothing of the previous era is left. *)
Theorem ratchet_archive_fifo (l : list V) st :
  let m := foldl (fun m v => storeRatchetSession m conv v) ∅ (l ++ [st]) in
  m !! conv = Some st /\ getArchivedRatchetSessions m conv = take 3 (rev l).
Proof.
  assert (Hh : forall l, holds (foldl (fun m v => storeRatchetSession m conv v) ∅ l) (rev l)).
  { intros l'. induction l' as [|x l' IH] using rev_ind.
    - split; [done|intros i _; done|done].
    - rewrite foldl_app, rev_app_distr. cbn [foldl rev app]. by apply store_holds. }
  cbn zeta. destruct (Hh (l ++ [st])) as [Hc Hs Hl]. rewrite rev_app_distr in Hc, Hs.
  cbn [rev app lookup list_lookup] in Hc, Hs. split; [done|].
  unfold getArchivedRatchetSessions. rewrite ids_eq. cbn [app omap list_omap].
  rewrite (Hs 0%nat), (Hs 1%nat), (Hs 2%nat), Hl by lia. cbn [lookup list_lookup].
  by destruct (rev l) as [|a [|b [|c ?]]].
Qed.
End Archive.
