(* ===== verification/DrSystem.v ===== *)
(** Two devices in a double-ratchet session over a network that may delay,
    reorder and duplicate messages: the step relation, its invariant, and the
    delivery theorem. The operations are those of DrSession. *)
From S2P Require Import Prelude Bytes Base64 Utf8 PqWire Envelope Sodium DoubleRatchet DrSession.
Import DR DrProtocol KeyTables Client.

Inductive role := Alice | Bob.
#[global] Instance role_eq_dec : EqDecision role.
Proof. solve_decision. Defined.
Definition other (r : role) : role := match r with Alice => Bob | Bob => Alice end.

Record sent := mkSent { m_from : role; m_id : string; m_wire : wire; m_text : jstr }.

Record sys := mkSys { dev : role -> device; net : list sent; keys : list bytes }.

Definition upd {A} (f : role -> A) (r : role) (a : A) : role -> A :=
  fun r' => if decide (r' = r) then a else f r'.

Section System.
Context `{SodiumLaws} {text : Type}.
Context (sealPayload : text -> option string -> jstr).
Context (payloadAck : jstr -> option string).
Context (to_string : bytes -> result jstr).
Context (peerVersion : jstr -> option RatchetWireVersion).
Context (conv : string).

Abbreviation encrypt := (encrypt_v1 sealPayload).
Abbreviation decrypt := (decrypt_v1 payloadAck to_string).

(** Sending appends to the network; delivering hands any message ever sent to
    its addressee, and leaves it in the network. A generated KEM key is new, and
    the addressee's table of skipped keys stays below its cap. *)
Inductive step (σ : sys) : sys -> Prop :=
| step_send r nonce mid t version state d' w :
    ratchetSessions (dev σ r) !! conv = Some state -> blen nonce = 24 ->
    mid ∉ m_id <$> net σ ->
    encrypt nonce (dev σ r) conv (Some mid) state None version t = Ok (d', w) ->
    step σ (mkSys (upd (dev σ) r d')
      (mkSent r mid w (sealPayload t (truthy_str (s_KEMr (worker state)))) :: net σ) (keys σ))
| step_deliver m seed rnd rnds d' res :
    m ∈ net σ -> (kem_keypair seed).1 ∉ keys σ ->
    decrypt seed rnd rnds (dev σ (other (m_from m))) conv (Some (m_id m)) peerVersion
      (w_dr (m_wire m)) (w_ciphertext (m_wire m)) = (d', res) ->
    (length (skippedTable d') < 199)%nat ->
    step σ (mkSys (upd (dev σ) (other (m_from m)) d') (net σ) ((kem_keypair seed).1 :: keys σ)).

(** The two ends after X3DH: the initiator ran [dr_init_alice], the responder
    [dr_init_bob], on the same session key. *)
Definition fresh_device (st : DoubleRatchetState) (v : DrProtocolStateView) : device :=
  mkDevice {[ conv := mkPersisted st v ]} [] ∅.

Definition initial (σ : sys) : Prop :=
  exists seedA seedB rnd sk sa sb va vb,
    blen sk = 32 /\ (kem_keypair seedA).1 <> (kem_keypair seedB).1 /\
    dr_init_alice seedA rnd sk (kem_keypair seedB).1 = Ok sa /\
    dr_init_bob sk (Some (kem_keypair seedB).1, (kem_keypair seedB).2) = Ok sb /\
    default None (peerAckedKem va) = None /\ default None (peerAckedKem vb) = None /\
    dev σ Alice = fresh_device sa va /\ dev σ Bob = fresh_device sb vb /\ net σ = [] /\
    keys σ = [(kem_keypair seedA).1; (kem_keypair seedB).1].

(** ** Ghost state *)

(** Chain [i] is sent by Alice when [i] is odd and by Bob when it is even; chain
    0 stands for Bob's signed prekey and carries no messages. *)
Record chain := mkChain { c_seed : bytes; c_ct : bytes; c_rk : bytes; c_ck : bytes }.
Definition c_pk (c : chain) : bytes := (kem_keypair (c_seed c)).1.
Definition c_pkB64 (c : chain) : string := to_base64 (c_pk c).
Definition owner (i : nat) : role := if Nat.even i then Bob else Alice.

Definition prev (cs : list chain) (s : nat) : option chain :=
  match s with S i => cs !! i | 0%nat => None end.
Definition recv_chain (cs : list chain) (s : nat) : option chain :=
  match s with S (S i) => cs !! S i | _ => None end.
Definition send_chain (cs : list chain) (s : nat) : option chain :=
  match s with S _ => cs !! s | 0%nat => None end.
(** How many messages were sent on the chain before the one of this party. *)
Definition count_before (cnt : nat -> nat) (s : nat) : nat :=
  match s with S (S i) => cnt i | _ => 0%nat end.

Record chains_ok (ks : list bytes) (cs : list chain) (cnt : nat -> nat) : Prop := {
  co_link : forall i c c', cs !! i = Some c -> cs !! S i = Some c' ->
    exists ss, kem_dec (c_ct c') (kem_keypair (c_seed c)).2 = Ok ss /\
      (c_rk c', c_ck c') = derive (c_rk c) ss /\ c_ct c' <> [];
  co_rk : forall c, c ∈ cs -> blen (c_rk c) = 32 /\ c_pk c ∈ ks;
  co_nodup : NoDup (map c_pk cs);
  co_zero : cnt 0%nat = 0%nat;
  co_out : forall i, (length cs <= i)%nat -> cnt i = 0%nat }.

Definition runtime (cs : list chain) (cnt : nat -> nat) (s nr : nat)
  (sk : gmap string string) (mc la : option Z) (c : chain) : RuntimeDoubleRatchetState :=
  mkRT (Some (kem_keypair (c_seed c))) (c_pk <$> prev cs s) (c_ct <$> send_chain cs s)
    (Some (c_rk c)) ((fun c => chain_key (c_ck c) (cnt s)) <$> send_chain cs s)
    ((fun c => chain_key (c_ck c) nr) <$> recv_chain cs s)
    (Z.of_nat (cnt s)) (Z.of_nat nr) (Z.of_nat (count_before cnt s)) sk mc la.

Definition recv_bound (cnt : nat -> nat) (s : nat) : nat :=
  match s with S (S i) => cnt (S i) | _ => 0%nat end.

(** The session stored by a party that sends on chain [s] and expects message
    [nr] of chain [s - 1]; [peer] is the chain the other party sends on. *)
Definition party_ok (d : device) (cs : list chain) (cnt : nat -> nat) (s nr peer : nat) : Prop :=
  (nr <= recv_bound cnt s)%nat /\
  exists c st sk mc la,
    cs !! s = Some c /\ ratchetSessions d !! conv = Some st /\
    worker st = serializeState (runtime cs cnt s nr sk mc la c) /\
    (forall a, default None (peerAckedKem (view st)) = Some a ->
       exists i ci, cs !! i = Some ci /\ a = c_pkB64 ci /\ (i < peer)%nat).

(** Message number [j] of chain [i]. *)
Definition msg_at (cs : list chain) (cnt : nat -> nat) (idx : role -> nat) (m : sent)
  (i j : nat) (c : chain) : Prop :=
  cs !! i = Some c /\ i <> 0%nat /\ owner i = m_from m /\ (j < cnt i)%nat /\
  kemPk (w_dr (m_wire m)) = c_pkB64 c /\ n (w_dr (m_wire m)) = Z.of_nat j /\
  pn (w_dr (m_wire m)) = Z.of_nat (count_before cnt i) /\
  (ct (w_dr (m_wire m)) = to_base64 (c_ct c) \/
   (ct (w_dr (m_wire m)) = ""%string /\ (i < idx (other (m_from m)))%nat)) /\
  (exists nonce, blen nonce = 24 /\
     w_ciphertext (m_wire m) = wire_ct nonce (utf8_encode (m_text m)) (msg_key (c_ck c) j)) /\
  exists t c', prev cs i = Some c' /\ m_text m = sealPayload t (Some (c_pkB64 c')).

Definition passed (s nr i j : nat) : Prop := (S i < s)%nat \/ (S i = s /\ (j < nr)%nat).

Definition hk_of (c : chain) (j : nat) : string := headerKey conv (c_pkB64 c) (Z.of_nat j).

(** The key tables: every entry is right, and every passed message is kept. *)
Record keys_ok (d : device) (r : role) (cs : list chain) (cnt : nat -> nat) (idx : role -> nat)
  (s nr : nat) (msgs : list sent) : Prop := {
  ko_table : tbl_ok (skippedTable d);
  ko_skipped : forall k v, tbl_get (skippedTable d) k = Some v ->
    exists i j c, cs !! i = Some c /\ k = hk_of c j /\ v = to_base64 (msg_key (c_ck c) j);
  ko_cached : forall id mk, messageKeys d !! id = Some mk ->
    exists m i j c, m ∈ msgs /\ m_id m = id /\ msg_at cs cnt idx m i j c /\
      mk = msg_key (c_ck c) j;
  ko_kept : forall m i j c, m ∈ msgs -> m_from m <> r -> msg_at cs cnt idx m i j c ->
    passed s nr i j ->
    is_Some (messageKeys d !! m_id m) \/ is_Some (tbl_get (skippedTable d) (hk_of c j)) }.

Record inv_at (σ : sys) (cs : list chain) (cnt : nat -> nat) (idx nr : role -> nat) : Prop := {
  iv_chains : chains_ok (keys σ) cs cnt;
  iv_owner : forall r, owner (idx r) = r;
  iv_ahead : forall r, idx r = S (idx (other r)) \/ idx (other r) = S (idx r);
  iv_len : forall r, length cs = S (Nat.max (idx r) (idx (other r)));
  iv_party : forall r, party_ok (dev σ r) cs cnt (idx r) (nr r) (idx (other r));
  iv_ids : NoDup (m_id <$> net σ);
  iv_msgs : forall m, m ∈ net σ -> exists i j c, msg_at cs cnt idx m i j c;
  iv_uniq : forall m m' i j c c', m ∈ net σ -> m' ∈ net σ ->
    msg_at cs cnt idx m i j c -> msg_at cs cnt idx m' i j c' -> m = m';
  iv_keys : forall r, keys_ok (dev σ r) r cs cnt idx (idx r) (nr r) (net σ) }.

Definition inv (σ : sys) : Prop := exists cs cnt idx nr, inv_at σ cs cnt idx nr.

(** ** Chains *)

Lemma other_other r : other (other r) = r.
Proof. by destruct r. Qed.
Lemma other_neq r : other r <> r.
Proof. by destruct r. Qed.
Lemma neq_other r r' : r' <> r -> r' = other r.
Proof. by destruct r, r'. Qed.
Lemma owner_S i : owner (S i) = other (owner i).
Proof. unfold owner. rewrite Nat.even_succ, <- Nat.negb_even. by destruct (Nat.even i). Qed.
Lemma owner_neq i : owner (S i) <> owner i.
Proof. rewrite owner_S. apply other_neq. Qed.

Lemma upd_same {A} (f : role -> A) r a : upd f r a r = a.
Proof. unfold upd. by rewrite decide_True. Qed.
Lemma upd_other {A} (f : role -> A) r r' a : r' <> r -> upd f r a r' = f r'.
Proof. intros. unfold upd. by rewrite decide_False. Qed.

Section ChainLemmas.
Context (ks : list bytes) (cs : list chain) (cnt : nat -> nat) (Hcs : chains_ok ks cs cnt).

Lemma pk_nonempty c : c_pk c <> [].
Proof. unfold c_pk. intros E. pose proof (kem_pk_length (c_seed c)). by rewrite E in *. Qed.

Lemma chain_pos i c : cs !! i = Some c -> i <> 0%nat -> blen (c_ck c) = 32 /\ c_ct c <> [].
Proof.
  intros Hi Hp. destruct i as [|i]; [done|].
  assert (Hlt : (i < length cs)%nat) by (apply lookup_lt_Some in Hi; lia).
  destruct (lookup_lt_is_Some_2 cs i Hlt) as [c' Hc'].
  destruct (co_link _ _ _ Hcs i c' c Hc' Hi) as (ss & _ & Hd & Hct).
  split; [|done]. pose proof (derive_length (c_rk c') ss). rewrite <- Hd in *. cbn in *. tauto.
Qed.

Lemma pk_inj i j c c' : cs !! i = Some c -> cs !! j = Some c' -> c_pk c = c_pk c' -> i = j.
Proof.
  intros Hi Hj Hpk. eapply (NoDup_lookup (map c_pk cs)); [apply (co_nodup _ _ _ Hcs)| |];
    change (map c_pk cs) with (c_pk <$> cs); rewrite list_lookup_fmap;
    [by rewrite Hi|rewrite Hj; cbn; by rewrite Hpk].
Qed.

Lemma pkB64_inj i j c c' : cs !! i = Some c -> cs !! j = Some c' -> c_pkB64 c = c_pkB64 c' -> i = j.
Proof. intros Hi Hj Hpk. apply to_base64_inj in Hpk. by eapply pk_inj. Qed.

Lemma hk_of_inj i i' j j' c c' :
  cs !! i = Some c -> cs !! i' = Some c' -> hk_of c j = hk_of c' j' -> i = i' /\ j = j'.
Proof.
  intros Hi Hi' Hk. unfold hk_of in Hk. apply headerKey_inj in Hk as [Hpk Hj]; [|lia..].
  split; [by eapply pkB64_inj|lia].
Qed.

Lemma msg_at_inj idx m i j c i' j' c' :
  msg_at cs cnt idx m i j c -> msg_at cs cnt idx m i' j' c' -> i = i' /\ j = j' /\ c = c'.
Proof.
  intros (Hc & _ & _ & _ & Hk & Hn & _) (Hc' & _ & _ & _ & Hk' & Hn' & _).
  assert (i = i') as -> by (eapply pkB64_inj; [done..|congruence]).
  split_and!; [done|lia|congruence].
Qed.

(** What the worker stores has no empty key. *)
Lemma runtime_ok s nr sk mc la c : cs !! s = Some c -> rt_ok (runtime cs cnt s nr sk mc la c).
Proof.
  intros Hc. unfold rt_ok, some_nonempty, runtime. cbn.
  split_and!.
  - destruct (prev cs s); [|done]. cbn. intros [= E]. by eapply pk_nonempty.
  - destruct s as [|s]; [done|]. cbn. rewrite Hc. cbn.
    destruct (chain_pos _ _ Hc ltac:(done)). congruence.
  - intros [= E]. assert (c ∈ cs) as Hin by (by eapply list_elem_of_lookup_2).
    destruct (co_rk _ _ _ Hcs c Hin) as [Hl _]. by rewrite E in Hl.
  - destruct s as [|s]; [done|]. cbn. rewrite Hc. cbn. intros [= E].
    destruct (chain_pos _ _ Hc ltac:(done)) as [Hl _].
    pose proof (chain_key_length (c_ck c) (cnt (S s)) Hl) as Hk. by rewrite E in Hk.
  - destruct s as [|[|s]]; [done..|]. cbn. destruct (cs !! S s) as [c'|] eqn:Hc'; [|done].
    cbn. intros [= E]. destruct (chain_pos _ _ Hc' ltac:(done)) as [Hl _].
    pose proof (chain_key_length (c_ck c') nr Hl) as Hk. by rewrite E in Hk.
Qed.
End ChainLemmas.

(** Messages to a party are of the chain it receives on, of an older one, or of
    the chain that follows its own. *)
Lemma chain_cases σ cs cnt idx nr m i j c :
  inv_at σ cs cnt idx nr -> msg_at cs cnt idx m i j c ->
  let s := idx (other (m_from m)) in
  (i = S s /\ idx (m_from m) = S s) \/ S i = s \/ (S i < s)%nat.
Proof.
  intros Hinv Hm s. destruct Hm as (Hc & _ & Ho & _).
  pose proof (iv_ahead _ _ _ _ _ Hinv (m_from m)) as Ha.
  pose proof (iv_len _ _ _ _ _ Hinv (m_from m)) as Hl.
  pose proof (iv_owner _ _ _ _ _ Hinv (other (m_from m))) as Hs. fold s in Ha, Hl, Hs.
  apply lookup_lt_Some in Hc.
  assert (i <> s) by (intros ->; rewrite Ho in Hs; by apply (other_neq (m_from m))).
  assert (i = S s -> idx (m_from m) = S s) by lia. lia.
Qed.

(** ** One delivery *)
Context (Htext : forall t a, to_string (utf8_encode (sealPayload t a)) = Ok (sealPayload t a)).
Context (Hack : forall t a, payloadAck (sealPayload t a) = a).

Lemma msg_key_nonempty c j : to_base64 (msg_key (c_ck c) j) <> ""%string.
Proof.
  intros E. apply base64_empty in E. pose proof (proj2 (kdfChain_length (chain_key (c_ck c) j))) as Hl.
  unfold msg_key in E. by rewrite E in Hl.
Qed.

Lemma msg_text_decodes cs cnt idx m i j c :
  msg_at cs cnt idx m i j c -> to_string (utf8_encode (m_text m)) = Ok (m_text m).
Proof. intros (_ & _ & _ & _ & _ & _ & _ & _ & _ & t & c' & _ & ->). apply Htext. Qed.

Lemma open_with_ok cs cnt idx m i j c :
  msg_at cs cnt idx m i j c ->
  open_with to_string (msg_key (c_ck c) j) (w_ciphertext (m_wire m)) = Ok (m_text m).
Proof.
  intros Hm. pose proof (msg_text_decodes _ _ _ _ _ _ _ Hm) as Ht.
  destruct Hm as (_ & _ & _ & _ & _ & _ & _ & _ & (nonce & Hn & ->) & _).
  pose proof (open_wire nonce (utf8_encode (m_text m)) (msg_key (c_ck c) j) Hn) as Ho.
  unfold open_with. destruct (aead_decrypt _ _ _) as [d|]; [|done]. rewrite bind_ok in *.
  change (trimPaddedPlaintext d) with (Padding.unpadBuffer d 8152). injection Ho as ->. done.
Qed.

(** The two ways to open a message without the worker's state. *)
Lemma decrypt_kept σ cs cnt idx nr m i j c seed rnd rnds :
  inv_at σ cs cnt idx nr -> m ∈ net σ -> msg_at cs cnt idx m i j c ->
  let d := dev σ (other (m_from m)) in
  is_Some (messageKeys d !! m_id m) \/ is_Some (tbl_get (skippedTable d) (hk_of c j)) ->
  decrypt seed rnd rnds d conv (Some (m_id m)) peerVersion (w_dr (m_wire m))
    (w_ciphertext (m_wire m)) = (d, Success (m_text m)).
Proof.
  intros Hinv Hin Hm d Hkept. pose proof (iv_keys _ _ _ _ _ Hinv (other (m_from m))) as Hk.
  fold d in Hk. unfold decrypt_v1.
  destruct (messageKeys d !! m_id m) as [mk|] eqn:Emk.
  - destruct (ko_cached _ _ _ _ _ _ _ _ Hk _ _ Emk) as (m' & i' & j' & c' & Hin' & Hid & Hm' & ->).
    assert (m' = m) as ->.
    { apply list_elem_of_lookup in Hin as [a Ha], Hin' as [b Hb].
      assert (b = a) as ->; [|congruence].
      eapply (NoDup_lookup (m_id <$> net σ)); [apply (iv_ids _ _ _ _ _ Hinv)| |];
        rewrite list_lookup_fmap; [by rewrite Hb|rewrite Ha; cbn; by rewrite Hid]. }
    by rewrite (open_with_ok _ _ _ _ _ _ _ Hm').
  - destruct Hkept as [[? ?]|[v Hv]]; [done|].
    pose proof Hm as (Hc & _ & _ & _ & Hkp & Hnn & _). rewrite Hkp, Hnn.
    change (headerKey conv (c_pkB64 c) (Z.of_nat j)) with (hk_of c j).
    unfold getSkippedKey. rewrite Hv.
    destruct (ko_skipped _ _ _ _ _ _ _ _ Hk _ _ Hv) as (i' & j' & c' & Hc' & Hkk & ->).
    destruct (hk_of_inj _ _ _ (iv_chains _ _ _ _ _ Hinv) _ _ _ _ _ _ Hc Hc' Hkk) as [<- <-].
    replace c' with c by congruence. unfold truthy_str.
    rewrite bool_decide_eq_false_2 by apply msg_key_nonempty.
    rewrite base64_correct, bind_ok, (open_with_ok _ _ _ _ _ _ _ Hm). done.
Qed.

(** Otherwise the worker decides. *)
Lemma decrypt_worker σ cs cnt idx nr m i j c seed rnd rnds st :
  inv_at σ cs cnt idx nr -> msg_at cs cnt idx m i j c ->
  let d := dev σ (other (m_from m)) in
  messageKeys d !! m_id m = None -> tbl_get (skippedTable d) (hk_of c j) = None ->
  ratchetSessions d !! conv = Some st ->
  decrypt seed rnd rnds d conv (Some (m_id m)) peerVersion (w_dr (m_wire m))
    (w_ciphertext (m_wire m)) =
  match dr_ratchet_decrypt seed rnd (worker st) (w_dr (m_wire m)) (w_ciphertext (m_wire m)) with
  | Err e => archived_path to_string rnds d conv (Some (m_id m)) (w_dr (m_wire m))
               (w_ciphertext (m_wire m)) e
  | Ok res => current_path payloadAck to_string d conv (Some (m_id m)) st res peerVersion
  end.
Proof.
  intros Hinv Hm d Hmk Hsk Hst. unfold decrypt_v1. rewrite Hmk.
  pose proof Hm as (_ & _ & _ & _ & Hkp & Hnn & _). rewrite Hkp, Hnn.
  change (headerKey conv (c_pkB64 c) (Z.of_nat j)) with (hk_of c j).
  unfold getSkippedKey. rewrite Hsk, Hst. done.
Qed.

(** A gap the worker refuses is reported as such by the client. *)
Lemma too_many rnds d mid h cb :
  archived_path to_string rnds d conv mid h cb "Too many skipped messages"
    = (d, Failed "Too many skipped messages").
Proof. unfold archived_path. by replace (isEraMiss _) with false. Qed.

(** *** What the worker does with the next messages *)
Section Worker.
Context (ks : list bytes) (cs : list chain) (cnt : nat -> nat) (Hcs : chains_ok ks cs cnt).
Context (idx : role -> nat) (m : sent) (i j : nat) (c : chain) (Hm : msg_at cs cnt idx m i j c).
Context (s nr : nat) (sk : gmap string string) (mc la : option Z) (cc : chain).
Context (Hcc : cs !! s = Some cc).
Context (seed rnd : bytes).

Definition big_gap (h : DoubleRatchetHeader) : Prop := MAX_SKIP < n h \/ MAX_SKIP < pn h.

Abbreviation run := (dr_ratchet_decrypt seed rnd (serializeState (runtime cs cnt s nr sk mc la cc))
  (w_dr (m_wire m)) (w_ciphertext (m_wire m))).

Definition outcome (cs' : list chain) (s' : nat) (cc' : chain) (skipped : list skipped_key) : decrypted :=
  mkDecrypted (serializeState (runtime cs' cnt s' (S j) sk mc la cc')) (utf8_encode (m_text m))
    skipped (msg_key (c_ck c) j).

Lemma ct_readable : is_ok (b64ToBytes (Some (ct (w_dr (m_wire m))))) = true.
Proof.
  destruct Hm as (_ & _ & _ & _ & _ & _ & _ & [->|[-> _]] & _); [|done].
  cbn. case_bool_decide; [done|]. by rewrite base64_correct.
Qed.

Lemma worker_current :
  S i = s -> (nr <= j)%nat ->
  (run = Err "Too many skipped messages" /\ big_gap (w_dr (m_wire m))) \/
  run = Ok (outcome cs s cc (skipped_range (c_pkB64 c) (c_ck c) nr (j - nr))).
Proof.
  intros Hs Hj. pose proof ct_readable as Hr. subst s.
  destruct Hm as (Hc & Hi & _ & _ & Hkp & Hn & _ & _ & (nonce & Hnon & Hw) & _).
  destruct i as [|i']; [done|].
  rewrite (decrypt_current _ _ _ _ (c_pk c) (c_rk cc)); [|by eapply runtime_ok|done| | |done|].
  - destruct (Z.le_gt_cases (Z.of_nat j - Z.of_nat nr) MAX_SKIP) as [Hle|Hgt].
    + right. rewrite Hw, (receive_spec _ (c_ck c) nr j _ [] nonce); try done; try lia.
      * rewrite Hkp. unfold outcome, runtime, with_recv. cbn. by rewrite Hc.
      * cbn. by rewrite Hc.
    + left. split; [apply receive_too_many; rewrite Hn; cbn; lia|left; rewrite Hn; lia].
  - cbn. by rewrite Hc.
  - apply pk_nonempty.
  - apply Hr.
Qed.

Lemma worker_new :
  i = S s -> ct (w_dr (m_wire m)) = to_base64 (c_ct c) -> length cs = S i ->
  exists c2, c_seed c2 = seed /\ blen (c_rk c2) = 32 /\
    (exists ss, kem_dec (c_ct c2) (kem_keypair (c_seed c)).2 = Ok ss /\
       (c_rk c2, c_ck c2) = derive (c_rk c) ss /\ c_ct c2 <> []) /\
    ((run = Err "Too many skipped messages" /\ big_gap (w_dr (m_wire m))) \/
     run = Ok (outcome (cs ++ [c2]) (S i) c2
       (match recv_chain cs s with
        | Some cr => skipped_range (c_pkB64 cr) (c_ck cr) nr (count_before cnt i - nr)
        | None => []
        end ++ skipped_range (c_pkB64 c) (c_ck c) 0 j))).
Proof.
  intros Hi Hct Hlen. subst i.
  destruct Hm as (Hc & _ & _ & _ & Hkp & Hn & Hpn & _ & (nonce & Hnon & Hw) & _).
  destruct (co_link _ _ _ Hcs s cc c Hcc Hc) as (ss & Hdec & Hder & Hctne).
  destruct (kem_correct (c_seed c) rnd) as (ct2 & ss2 & Henc & Hdec2 & Hl2 & _).
  change ((kem_keypair (c_seed c)).1) with (c_pk c) in Henc.
  pose proof (derive_length (c_rk c) ss2) as [Hlr _].
  exists (mkChain seed ct2 (derive (c_rk c) ss2).1 (derive (c_rk c) ss2).2).
  cbn [c_seed c_rk c_ct c_ck]. split; [done|]. split; [done|]. split.
  { exists ss2. split_and!; [done|by destruct (derive _ _)|]. by intros ->. }
  assert (Hrl : blen (c_rk cc) = 32) by (apply (co_rk _ _ _ Hcs); by eapply list_elem_of_lookup_2).
  set (r := runtime cs cnt s nr sk mc la cc).
  assert (Hok : rt_ok r) by (by eapply runtime_ok).
  assert (Hkr : forall k, KEMr r = Some k -> blen k = blen (c_pk c) /\ k <> c_pk c).
  { cbn. destruct s as [|s']; cbn; [done|]. destruct (cs !! s') as [cp|] eqn:Hp; cbn; [|done].
    intros k [= <-]. split; [unfold c_pk; by rewrite !kem_pk_length|]. intros Hpk.
    pose proof (pk_inj _ _ _ Hcs _ _ _ _ Hp Hc Hpk). lia. }
  destruct (Z.le_gt_cases (pn (w_dr (m_wire m)) - Nr r) MAX_SKIP) as [Hpl|Hpg];
    [|left; split; [|right; cbn in Hpg; lia];
      eapply (decrypt_new_too_many seed rnd r _ (c_pk c) (c_rk cc) (c_ct c));
      eauto using pk_nonempty].
  rewrite (decrypt_new_chain seed rnd r _ (c_pk c) (c_rk cc) (c_ct c) _ Hok eq_refl Hrl Hkr
    (pk_nonempty c) Hkp Hct Hctne (c_ck <$> recv_chain cs s) nr
    (kem_keypair (c_seed cc)).1 (kem_keypair (c_seed cc)).2 ss ct2 ss2);
    [|cbn; by destruct (kem_keypair (c_seed cc))| |done|done|done|done].
  2:{ cbn. by destruct (recv_chain cs s). }
  rewrite <- Hder. cbn [fst snd].
  destruct (Z.le_gt_cases (Z.of_nat j) MAX_SKIP) as [Hle|Hgt];
    [right|left; split; [apply receive_too_many; rewrite Hn; cbn; lia|left; rewrite Hn; lia]].
  rewrite Hw, (receive_spec _ (c_ck c) 0 j _ _ nonce); try done; try lia.
  unfold outcome. rewrite Hkp, Nat.sub_0_r. do 2 f_equal.
  - unfold with_recv, stepped, runtime. cbn.
    assert (Hz : cnt (S (S s)) = 0%nat) by (apply (co_out _ _ _ Hcs); lia).
    rewrite !lookup_app_l by lia. rewrite Hc, Hz. cbn.
    rewrite lookup_app_r by lia. rewrite Hlen, Nat.sub_diag. done.
  - f_equal. unfold closed_range. cbn. destruct s as [|[|s']]; cbn; try done.
    destruct (cs !! S s') as [cr|] eqn:Hcr; cbn; [|done]. rewrite Hpn. cbn.
    by replace (Z.to_nat _) with (cnt (S s') - nr)%nat by lia.
Qed.
End Worker.

(** How a delivered message moves its addressee from chain [s], position [nr], to
    chain [S i], position [S j], and which keys it leaves behind. *)
Inductive advance (ks : list bytes) (cs : list chain) (cnt : nat -> nat) (seed : bytes)
  (s nr i j : nat) (c : chain) : list chain -> chain -> list skipped_key -> Prop :=
| adv_current cc :
    s = S i -> (nr <= j)%nat -> cs !! s = Some cc ->
    advance ks cs cnt seed s nr i j c cs cc (skipped_range (c_pkB64 c) (c_ck c) nr (j - nr))
| adv_new c2 :
    i = S s -> length cs = S i -> c_seed c2 = seed -> blen (c_rk c2) = 32 ->
    (exists ss, kem_dec (c_ct c2) (kem_keypair (c_seed c)).2 = Ok ss /\
       (c_rk c2, c_ck c2) = derive (c_rk c) ss /\ c_ct c2 <> []) ->
    advance ks cs cnt seed s nr i j c (cs ++ [c2]) c2
      (match recv_chain cs s with
       | Some cr => skipped_range (c_pkB64 cr) (c_ck cr) nr (count_before cnt i - nr)
       | None => []
       end ++ skipped_range (c_pkB64 c) (c_ck c) 0 j).

Definition ack_view (v : DrProtocolStateView) (a : option string) (p : jstr) : DrProtocolStateView :=
  attachClientProtocolFields v
    (mkView (Some true) None (Some <$> a) None (Some <$> peerVersion p) None None).

(** The addressee's device after an advance. *)
Definition advanced (d : device) (st : Persisted) (m : sent) (cs' : list chain) (cnt : nat -> nat)
  (i j : nat) (c cc' : chain) (sk : gmap string string) (mc la : option Z)
  (skl : list skipped_key) : device :=
  mkDevice
    (storeRatchetSession (ratchetSessions d) conv
       (mkPersisted (serializeState (runtime cs' cnt (S i) (S j) sk mc la cc'))
          (ack_view (view st) (extractPeerAck payloadAck (m_text m)) (m_text m))))
    (storeSkipped (skippedTable d) conv skl)
    (<[m_id m := msg_key (c_ck c) j]> (messageKeys d)).

Lemma deliver_outcome σ cs cnt idx nr m i j c seed rnd rnds :
  inv_at σ cs cnt idx nr -> m ∈ net σ -> msg_at cs cnt idx m i j c ->
  let r := other (m_from m) in let d := dev σ r in
  let out := decrypt seed rnd rnds d conv (Some (m_id m)) peerVersion (w_dr (m_wire m))
               (w_ciphertext (m_wire m)) in
  out = (d, Success (m_text m)) \/
  (out = (d, Failed "Too many skipped messages") /\ big_gap (w_dr (m_wire m))) \/
  exists st sk mc la cs' cc' skl,
    ratchetSessions d !! conv = Some st /\
    advance (keys σ) cs cnt seed (idx r) (nr r) i j c cs' cc' skl /\
    out = (advanced d st m cs' cnt i j c cc' sk mc la skl, Success (m_text m)).
Proof.
  intros Hinv Hin Hm r d out. subst out.
  destruct (messageKeys d !! m_id m) as [mk|] eqn:Emk;
    [left; apply (decrypt_kept σ cs cnt idx nr m i j c); try done; left; by exists mk|].
  destruct (tbl_get (skippedTable d) (hk_of c j)) as [v|] eqn:Ev;
    [left; apply (decrypt_kept σ cs cnt idx nr m i j c); try done; right; by exists v|].
  assert (Hnp : ~ passed (idx r) (nr r) i j).
  { intros Hp. destruct (ko_kept _ _ _ _ _ _ _ _ (iv_keys _ _ _ _ _ Hinv r) m i j c Hin
      (not_eq_sym (other_neq _)) Hm Hp) as [[x Hx]|[x Hx]]; fold d in Hx; congruence. }
  destruct (iv_party _ _ _ _ _ Hinv r) as (Hnr & cc & st & sk & mc & la & Hcc & Hst & Hw & _).
  fold d in Hst. right.
  pose proof (decrypt_worker σ cs cnt idx nr m i j c seed rnd rnds st Hinv Hm Emk Ev Hst) as Hd.
  cbn zeta in Hd. fold r in Hd. fold d in Hd. rewrite Hd, Hw.
  pose proof (iv_chains _ _ _ _ _ Hinv) as Hcs.
  assert (Hcp : forall cs' cc' skl,
    current_path payloadAck to_string d conv (Some (m_id m)) st
      (outcome cnt m j c sk mc la cs' (S i) cc' skl) peerVersion =
    (advanced d st m cs' cnt i j c cc' sk mc la skl, Success (m_text m))).
  { intros cs' cc' skl. unfold current_path, outcome. cbn [d_plaintext].
    rewrite (msg_text_decodes _ _ _ _ _ _ _ Hm). done. }
  destruct (chain_cases _ _ _ _ _ _ _ _ _ Hinv Hm) as [[Hi Hidx]|[Hi|Hi]]; fold r in Hi.
  - fold r in Hidx. assert (Hct : ct (w_dr (m_wire m)) = to_base64 (c_ct c)).
    { destruct Hm as (_ & _ & _ & _ & _ & _ & _ & [?|[_ Hlt]] & _); [done|]. fold r in Hlt. lia. }
    assert (Hlen : length cs = S i).
    { rewrite (iv_len _ _ _ _ _ Hinv (m_from m)). fold r. lia. }
    destruct (worker_new (keys σ) cs cnt Hcs idx m i j c Hm (idx r) (nr r) sk mc la cc Hcc seed rnd
      Hi Hct Hlen) as (c2 & Hs2 & Hr2 & Hl2 & [[-> Hg]| ->]); [left; split; [apply too_many|done]|right].
    eexists st, sk, mc, la, (cs ++ [c2]), c2, _. split; [done|]. split; [by apply adv_new|].
    apply Hcp.
  - assert (Hj : (nr r <= j)%nat).
    { destruct (Nat.le_gt_cases (nr r) j) as [|Hlt]; [done|]. destruct Hnp. right. lia. }
    destruct (worker_current (keys σ) cs cnt Hcs idx m i j c Hm (idx r) (nr r) sk mc la cc Hcc
      seed rnd Hi Hj) as [[-> Hg]| ->]; [left; split; [apply too_many|done]|right].
    eexists st, sk, mc, la, cs, cc, _. split; [done|]. split; [by apply adv_current|].
    rewrite <- Hi. apply Hcp.
  - destruct Hnp. by left.
Qed.

(** ** Preservation *)

Lemma runtime_prefix cs cs' cnt s nr sk mc la c :
  cs `prefix_of` cs' -> cs !! s = Some c ->
  runtime cs' cnt s nr sk mc la c = runtime cs cnt s nr sk mc la c.
Proof.
  intros Hp Hs. assert (Hl : forall k, (k <= s)%nat -> cs' !! k = cs !! k).
  { intros k Hk. apply lookup_lt_Some in Hs. destruct Hp as [l ->]. by rewrite lookup_app_l by lia. }
  unfold runtime. f_equal.
  - destruct s; [done|]. cbn. by rewrite Hl by lia.
  - destruct s; [done|]. cbn. by rewrite Hl by lia.
  - destruct s; [done|]. cbn. by rewrite Hl by lia.
  - destruct s as [|[|s]]; [done..|]. cbn. by rewrite Hl by lia.
Qed.

Lemma msg_at_mono cs cs' cnt idx idx' m i j c :
  cs `prefix_of` cs' -> (forall r, idx r <= idx' r)%nat ->
  msg_at cs cnt idx m i j c -> msg_at cs' cnt idx' m i j c.
Proof.
  intros Hp Hidx (Hc & Hi & Ho & Hj & Hk & Hn & Hpn & Hct & Hw & t & c' & Hprev & Ht).
  unfold msg_at. split_and!; try done.
  - by eapply prefix_lookup_Some.
  - destruct Hct as [?|[? ?]]; [by left|right]. split; [done|].
    pose proof (Hidx (other (m_from m))). lia.
  - exists t, c'. split; [|done]. destruct i as [|i]; [done|]. cbn in *.
    by eapply prefix_lookup_Some.
Qed.

(** Messages known before are the messages known after. *)
Lemma msg_at_back ks σ cs cs' cnt idx idx' nr m i j c :
  inv_at σ cs cnt idx nr -> chains_ok ks cs' cnt -> cs `prefix_of` cs' ->
  (forall r, idx r <= idx' r)%nat -> m ∈ net σ ->
  msg_at cs' cnt idx' m i j c -> msg_at cs cnt idx m i j c.
Proof.
  intros Hinv Hcs' Hp Hidx Hin Hm. destruct (iv_msgs _ _ _ _ _ Hinv m Hin) as (i0 & j0 & c0 & H0').
  pose proof (msg_at_mono _ _ _ _ _ _ _ _ _ Hp Hidx H0') as H1.
  destruct (msg_at_inj _ _ _ Hcs' _ _ _ _ _ _ _ _ Hm H1) as (-> & -> & ->). done.
Qed.

Section Advance.
Context (ks : list bytes) (cs : list chain) (cnt : nat -> nat) (seed : bytes) (s nr i j : nat).
Context (c : chain) (cs' : list chain) (cc' : chain) (skl : list skipped_key).
Context (Hcs : chains_ok ks cs cnt) (Hfresh : (kem_keypair seed).1 ∉ ks).
Context (Hc : cs !! i = Some c) (Hadv : advance ks cs cnt seed s nr i j c cs' cc' skl).

Lemma advance_chains :
  chains_ok ((kem_keypair seed).1 :: ks) cs' cnt /\ cs `prefix_of` cs' /\ cs' !! S i = Some cc' /\
  (s <= S i)%nat.
Proof.
  destruct Hadv as [cc -> Hnr Hcc|c2 Hi Hlen <- Hrk Hlink].
  - split_and!; [|done|done|lia]. destruct Hcs as [L1 L2 L3 L4 L5]. split; try done.
    intros x Hx. destruct (L2 x Hx). split; [done|set_solver].
  - assert (Hlast : (cs ++ [c2]) !! S i = Some c2)
      by (rewrite lookup_app_r by lia; by rewrite Hlen, Nat.sub_diag).
    split_and!; [|by exists [c2]|done|lia]. destruct Hcs as [L1 L2 L3 L4 L5]. split.
    + intros k x y Hx Hy. destruct (decide (k = i)) as [->|Hne].
      * rewrite Hlast in Hy. injection Hy as <-. rewrite lookup_app_l in Hx by lia.
        by replace x with c by congruence.
      * assert (k < i)%nat by (apply lookup_lt_Some in Hy; rewrite length_app in Hy; cbn in Hy; lia).
        rewrite lookup_app_l in Hx by lia. rewrite lookup_app_l in Hy by lia. by eapply L1.
    + intros x [Hx|Hx]%elem_of_app; [destruct (L2 x Hx); split; [done|set_solver]|].
      apply list_elem_of_singleton in Hx as ->. split; [done|]. left.
    + rewrite map_app. apply NoDup_app. split_and!; [done| |apply NoDup_singleton].
      intros p Hp Hp2. apply list_elem_of_singleton in Hp2 as ->. apply Hfresh.
      apply list_elem_of_fmap in Hp as (x & Hpk & Hx). destruct (L2 x Hx) as [_ Hin].
      change ((kem_keypair (c_seed c2)).1) with (c_pk c2). by rewrite Hpk.
    + done.
    + intros k Hk. apply L5. rewrite length_app in Hk. cbn in Hk. lia.
Qed.

Lemma skipped_range_elem label ck a k e :
  e ∈ skipped_range label ck a k <->
  exists x, (a <= x < a + k)%nat /\ e = mkSkipped label (Z.of_nat x) (to_base64 (msg_key ck x)).
Proof.
  unfold skipped_range. rewrite list_elem_of_fmap. setoid_rewrite elem_of_seq. naive_solver.
Qed.

(** Every key left behind belongs to its chain. *)
Lemma advance_sound e :
  e ∈ skl -> exists x y cx, cs !! x = Some cx /\
    e = mkSkipped (c_pkB64 cx) (Z.of_nat y) (to_base64 (msg_key (c_ck cx) y)).
Proof.
  destruct Hadv as [cc -> Hnr Hcc|c2 Hi Hlen <- Hrk Hlink].
  - intros (y & Hy & ->)%skipped_range_elem. eauto.
  - intros [He|(y & Hy & ->)%skipped_range_elem]%elem_of_app; [|eauto].
    destruct (recv_chain cs s) as [cr|] eqn:Hr; [|by apply elem_of_nil in He].
    apply skipped_range_elem in He as (y & Hy & ->). destruct s as [|[|s']]; try done. eauto.
Qed.

(** What becomes passed was passed before, is the delivered message, or has its
    key left behind. *)
Lemma advance_complete x y cx :
  cs !! x = Some cx -> x <> 0%nat -> owner x = owner i -> (y < cnt x)%nat ->
  owner s <> owner i ->
  passed (S i) (S j) x y ->
  passed s nr x y \/ (x = i /\ y = j) \/
  mkSkipped (c_pkB64 cx) (Z.of_nat y) (to_base64 (msg_key (c_ck cx) y)) ∈ skl.
Proof.
  intros Hx Hx0 Hox Hy Hsi Hp.
  destruct Hadv as [cc -> Hnr Hcc|c2 Hi Hlen <- Hrk Hlink].
  - destruct Hp as [?|[[= ->] Hlt]]; [left; left; lia|].
    destruct (decide (y = j)) as [->|]; [right; by left|].
    destruct (decide (y < nr)%nat) as [|]; [left; right; lia|].
    right; right. replace cx with c by congruence. apply skipped_range_elem.
    exists y. split; [lia|done].
  - destruct Hp as [Hlt|[[= ->] Hlt]].
    + assert (x <> s) by (by intros ->). assert (Hle : (S x <= s)%nat) by lia.
      destruct (decide (S x = s)) as [Hxs|]; [|left; left; lia].
      destruct (decide (y < nr)%nat) as [|]; [left; right; lia|].
      right; right. apply elem_of_app. left. subst s. destruct x as [|x]; [done|].
      cbn [recv_chain]. rewrite Hx. apply skipped_range_elem. exists y. split; [|done].
      subst i. cbn [count_before]. lia.
    + destruct (decide (y = j)) as [->|]; [right; by left|]. right; right.
      apply elem_of_app. right. replace cx with c by congruence. apply skipped_range_elem.
      exists y. split; [lia|done].
Qed.
End Advance.

Lemma advance_index ks cs cnt seed s nr i j c cs' cc' skl :
  advance ks cs cnt seed s nr i j c cs' cc' skl ->
  (s = S i /\ cs' = cs) \/ (i = S s /\ length cs = S i /\ length cs' = S (S i)).
Proof.
  intros [cc -> Hnr Hcc|c2 Hi Hlen <- Hrk Hlink]; [by left|right].
  rewrite length_app, Hlen. cbn. lia.
Qed.

Lemma party_unchanged d cs cs' cnt s nr peer peer' :
  cs `prefix_of` cs' -> (peer <= peer')%nat ->
  party_ok d cs cnt s nr peer -> party_ok d cs' cnt s nr peer'.
Proof.
  intros Hp Hle (Hnr & c & st & sk & mc & la & Hc & Hst & Hw & Ha). split; [done|].
  exists c, st, sk, mc, la. split_and!; [by eapply prefix_lookup_Some|done| |].
  - by rewrite (runtime_prefix cs cs').
  - intros a Hav. destruct (Ha a Hav) as (x & cx & Hx & -> & Hlt). exists x, cx.
    split_and!; [by eapply prefix_lookup_Some|done|lia].
Qed.

Lemma keys_unchanged ks σ cs cs' cnt idx idx' nr r :
  inv_at σ cs cnt idx nr -> chains_ok ks cs' cnt -> cs `prefix_of` cs' ->
  (forall r, idx r <= idx' r)%nat ->
  keys_ok (dev σ r) r cs cnt idx (idx r) (nr r) (net σ) ->
  keys_ok (dev σ r) r cs' cnt idx' (idx r) (nr r) (net σ).
Proof.
  intros Hinv Hcs' Hp Hidx [K1 K2 K3 K4]. split; [done|..].
  - intros k v Hk. destruct (K2 k v Hk) as (x & y & cx & Hx & -> & ->).
    exists x, y, cx. split_and!; [by eapply prefix_lookup_Some|done..].
  - intros id mk Hid. destruct (K3 id mk Hid) as (m & x & y & cx & Hin & Hid' & Hm & ->).
    exists m, x, y, cx. split_and!; [done|done|by eapply msg_at_mono|done].
  - intros m x y cx Hin Hf Hm Hpass. apply (K4 m x y cx); try done. by eapply msg_at_back.
Qed.

Lemma keys_advance σ cs cnt idx nr m i j c seed cs' cc' skl st sk mc la :
  inv_at σ cs cnt idx nr -> m ∈ net σ -> msg_at cs cnt idx m i j c ->
  let r := other (m_from m) in
  (kem_keypair seed).1 ∉ keys σ ->
  advance (keys σ) cs cnt seed (idx r) (nr r) i j c cs' cc' skl ->
  (length (storeSkipped (skippedTable (dev σ r)) conv skl) < 199)%nat ->
  keys_ok (advanced (dev σ r) st m cs' cnt i j c cc' sk mc la skl) r cs' cnt
    (upd idx r (S i)) (S i) (S j) (net σ).
Proof.
  intros Hinv Hin Hm r Hfresh Hadv Hlen. pose proof (iv_chains _ _ _ _ _ Hinv) as Hcs.
  pose proof Hm as (Hc & _ & Hoi & _).
  destruct (advance_chains _ _ _ _ _ _ _ _ _ _ _ _ Hcs Hfresh Hc Hadv) as (Hcs' & Hp & Hcc' & Hle).
  assert (Hidx : forall r', (idx r' <= upd idx r (S i) r')%nat).
  { intros r'. unfold upd. destruct (decide (r' = r)) as [->|]; lia. }
  destruct (iv_keys _ _ _ _ _ Hinv r) as [K1 K2 K3 K4].
  destruct (storeSkipped_spec conv skl (skippedTable (dev σ r)) K1) as (T1 & T2 & T3).
  destruct (T3 Hlen) as (_ & T4 & T5). split; cbn [advanced skippedTable messageKeys]; [done|..].
  - intros k v Hk. destruct (T2 k v Hk) as [Hk'|(e & He & -> & ->)].
    + destruct (K2 k v Hk') as (x & y & cx & Hx & -> & ->). exists x, y, cx.
      split_and!; [by eapply prefix_lookup_Some|done..].
    + destruct (advance_sound _ _ _ _ _ _ _ _ _ _ _ _ Hfresh Hc Hadv e He) as (x & y & cx & Hx & ->).
      exists x, y, cx. split_and!; [by eapply prefix_lookup_Some|done..].
  - intros id mk. rewrite lookup_insert_Some. intros [[<- <-]|[_ Hid]].
    + exists m, i, j, c. split_and!; [done..|by eapply msg_at_mono|done].
    + destruct (K3 id mk Hid) as (m' & x & y & cx & Hin' & Hid' & Hm' & ->).
      exists m', x, y, cx. split_and!; [done..|by eapply msg_at_mono|done].
  - intros m' x y cx Hin' Hf Hm' Hpass.
    apply (msg_at_back _ _ _ _ _ _ _ _ _ _ _ _ Hinv Hcs' Hp Hidx Hin') in Hm'.
    pose proof Hm' as (Hx & Hx0 & Hox & Hy & _). apply neq_other in Hf.
    rewrite Hf in Hox. unfold r in Hox. rewrite other_other in Hox.
    destruct (advance_complete (keys σ) cs cnt seed (idx r) (nr r) i j c cs' cc' skl Hfresh Hc Hadv
      x y cx)
      as [Hold|[[-> ->]|Hskl]]; try done.
    + congruence.
    + rewrite Hoi, (iv_owner _ _ _ _ _ Hinv r). apply other_neq.
    + destruct (K4 m' x y cx Hin') as [Hk|Hk]; [by rewrite Hf; apply other_neq|done|done|left|right].
      * destruct Hk as [mk Hk]. destruct (decide (m_id m = m_id m')) as [->|];
          [rewrite lookup_insert_eq|rewrite lookup_insert_ne by done]; by eexists.
      * by apply T4.
    + left. rewrite (iv_uniq _ _ _ _ _ Hinv m' m i j cx c) by done.
      rewrite lookup_insert_eq. by eexists.
    + right. apply (T5 _ Hskl).
Qed.

Lemma chains_keys_mono ks ks' cs cnt : ks ⊆ ks' -> chains_ok ks cs cnt -> chains_ok ks' cs cnt.
Proof.
  intros Hsub [L1 L2 L3 L4 L5]. split; try done. intros c Hc. destruct (L2 c Hc). auto.
Qed.

Lemma inv_same σ d ks cs cnt idx nr :
  inv_at σ cs cnt idx nr -> (forall r, d r = dev σ r) -> keys σ ⊆ ks ->
  inv_at (mkSys d (net σ) ks) cs cnt idx nr.
Proof.
  intros [L1 L2 L3 L4 L5 L6 L7 L8 L9] Hd Hks. split; cbn; try done.
  - by eapply chains_keys_mono.
  - intros r. rewrite Hd. apply L5.
  - intros r. rewrite Hd. apply L9.
Qed.

Lemma lookup_stored {V} (m : gmap string V) k v : storeRatchetSession m k v !! k = Some v.
Proof. apply lookup_insert_eq. Qed.

(** The device of the addressee after an advance holds a state of the new chain. *)
Lemma party_advance σ cs cnt idx nr m i j c seed cs' cc' skl st sk mc la :
  inv_at σ cs cnt idx nr -> msg_at cs cnt idx m i j c ->
  let r := other (m_from m) in
  (kem_keypair seed).1 ∉ keys σ -> ratchetSessions (dev σ r) !! conv = Some st ->
  advance (keys σ) cs cnt seed (idx r) (nr r) i j c cs' cc' skl ->
  party_ok (advanced (dev σ r) st m cs' cnt i j c cc' sk mc la skl) cs' cnt (S i) (S j)
    (idx (m_from m)).
Proof.
  intros Hinv Hm r Hfresh Hst Hadv. pose proof Hm as (Hc & Hi & Hoi & Hj & _).
  destruct (advance_chains _ _ _ _ _ _ _ _ _ _ _ _ (iv_chains _ _ _ _ _ Hinv) Hfresh Hc Hadv)
    as (Hcs' & Hp & Hcc' & Hle).
  split; [destruct i; [done|]; cbn; lia|].
  eexists cc', _, sk, mc, la. cbn [advanced ratchetSessions].
  split; [done|]. split; [apply lookup_stored|]. split; [done|].
  intros a. cbn [view ack_view attachClientProtocolFields peerAckedKem].
  destruct Hm as (_ & _ & _ & _ & _ & _ & _ & _ & _ & t & c' & Hprev & Ht).
  rewrite Ht. unfold extractPeerAck. rewrite Hack. cbn.
  rewrite bool_decide_eq_false_2.
  2:{ intros E. apply base64_empty in E. by apply pk_nonempty in E. }
  cbn. intros [= <-]. destruct i as [|i']; [done|]. exists i', c'. cbn in Hprev.
  split_and!; [by eapply prefix_lookup_Some|done|].
  pose proof (iv_ahead _ _ _ _ _ Hinv (m_from m)) as Ha. fold r in Ha.
  pose proof (iv_len _ _ _ _ _ Hinv (m_from m)) as Hl. fold r in Hl.
  destruct (advance_index _ _ _ _ _ _ _ _ _ _ _ _ Hadv) as [[? _]|[? [? _]]]; lia.
Qed.

Lemma inv_deliver σ m seed rnd rnds d' res :
  inv σ -> m ∈ net σ -> (kem_keypair seed).1 ∉ keys σ ->
  decrypt seed rnd rnds (dev σ (other (m_from m))) conv (Some (m_id m)) peerVersion
    (w_dr (m_wire m)) (w_ciphertext (m_wire m)) = (d', res) ->
  (length (skippedTable d') < 199)%nat ->
  inv (mkSys (upd (dev σ) (other (m_from m)) d') (net σ) ((kem_keypair seed).1 :: keys σ)).
Proof.
  intros (cs & cnt & idx & nr & Hinv) Hin Hfresh Hdec Hlen.
  destruct (iv_msgs _ _ _ _ _ Hinv m Hin) as (i & j & c & Hm).
  assert (Hsub : keys σ ⊆ (kem_keypair seed).1 :: keys σ) by set_solver.
  destruct (deliver_outcome σ cs cnt idx nr m i j c seed rnd rnds Hinv Hin Hm)
    as [E|[[E _]|(st & sk & mc & la & cs' & cc' & skl & Hst & Hadv & E)]];
    rewrite E in Hdec; injection Hdec as <- <-.
  1,2: exists cs, cnt, idx, nr; apply inv_same; [done| |done];
       intros r; unfold upd; by destruct (decide _) as [->|].
  set (r := other (m_from m)) in *. pose proof Hm as (Hc & Hi & Hoi & _).
  destruct (advance_chains _ _ _ _ _ _ _ _ _ _ _ _ (iv_chains _ _ _ _ _ Hinv) Hfresh Hc Hadv)
    as (Hcs' & Hp & Hcc' & Hle).
  pose proof (advance_index _ _ _ _ _ _ _ _ _ _ _ _ Hadv) as Hix.
  pose proof (iv_ahead _ _ _ _ _ Hinv r) as Ha. pose proof (iv_len _ _ _ _ _ Hinv r) as Hl.
  assert (Hro : other r = m_from m) by apply other_other. rewrite Hro in Ha, Hl.
  assert (Hidx : forall r', (idx r' <= upd idx r (S i) r')%nat).
  { intros r'. unfold upd. destruct (decide (r' = r)) as [->|]; lia. }
  assert (Hf : upd idx r (S i) (m_from m) = idx (m_from m))
    by (apply upd_other; rewrite <- Hro; apply other_neq).
  exists cs', cnt, (upd idx r (S i)), (upd nr r (S j)). split; cbn [dev net keys].
  - done.
  - intros r'. destruct (decide (r' = r)) as [->|Hne]; [|rewrite upd_other by done; apply Hinv].
    by rewrite upd_same, owner_S, Hoi.
  - assert (upd idx r (S i) r = S (upd idx r (S i) (m_from m)) \/
      upd idx r (S i) (m_from m) = S (upd idx r (S i) r)).
    { rewrite upd_same, Hf. destruct Hix as [[? _]|[? [? _]]]; lia. }
    intros r'. destruct (decide (r' = r)) as [->|Hne]; [by rewrite Hro|].
    apply neq_other in Hne as ->. rewrite other_other, Hro. tauto.
  - assert (length cs' = S (Nat.max (upd idx r (S i) r) (upd idx r (S i) (m_from m)))).
    { rewrite upd_same, Hf. destruct Hix as [[? ->]|[? [? ?]]]; lia. }
    intros r'. destruct (decide (r' = r)) as [->|Hne]; [by rewrite Hro|].
    apply neq_other in Hne as ->. rewrite other_other, Hro. lia.
  - intros r'. destruct (decide (r' = r)) as [->|Hne].
    + rewrite !upd_same, Hro, Hf. by eapply party_advance.
    + rewrite !upd_other by done. eapply party_unchanged; [done|apply Hidx|apply Hinv].
  - apply Hinv.
  - intros m' Hm'. destruct (iv_msgs _ _ _ _ _ Hinv m' Hm') as (x & y & cx & Hx).
    exists x, y, cx. by eapply msg_at_mono.
  - intros m1 m2 x y c1 c2 H1 H2 Hm1 Hm2. eapply (iv_uniq _ _ _ _ _ Hinv m1 m2 x y c1 c2); try done;
      by eapply msg_at_back.
  - intros r'. destruct (decide (r' = r)) as [->|Hne].
    + rewrite !upd_same. by eapply keys_advance.
    + rewrite !upd_other by done. eapply keys_unchanged; try done. apply Hinv.
Qed.

(** *** Sending *)

Definition bump (cnt : nat -> nat) (s : nat) : nat -> nat :=
  fun k => if decide (k = s) then S (cnt k) else cnt k.

Lemma bump_same cnt s : bump cnt s s = S (cnt s).
Proof. unfold bump. by rewrite decide_True. Qed.
Lemma bump_ne cnt s k : k <> s -> bump cnt s k = cnt k.
Proof. intros. unfold bump. by rewrite decide_False. Qed.
Lemma bump_le cnt s k : (cnt k <= bump cnt s k)%nat.
Proof. unfold bump. destruct (decide _); lia. Qed.

Lemma count_before_bump cnt s i : (i < S (S s))%nat -> count_before (bump cnt s) i = count_before cnt i.
Proof. intros Hi. destruct i as [|[|i]]; cbn; [done..|]. apply bump_ne. lia. Qed.

Lemma recv_bound_bump cnt s i : (recv_bound cnt i <= recv_bound (bump cnt s) i)%nat.
Proof. destruct i as [|[|i]]; cbn; [done..|]. apply bump_le. Qed.

Lemma chains_bump ks cs cnt s :
  s <> 0%nat -> (s < length cs)%nat -> chains_ok ks cs cnt -> chains_ok ks cs (bump cnt s).
Proof.
  intros Hs Hl [L1 L2 L3 L4 L5]. split; try done.
  - by rewrite bump_ne.
  - intros i Hi. rewrite bump_ne by lia. by apply L5.
Qed.

Lemma msg_at_bump cs cnt s idx m i j c :
  (i < S (S s))%nat -> msg_at cs cnt idx m i j c -> msg_at cs (bump cnt s) idx m i j c.
Proof.
  intros Hi (Hc & H1 & H2 & Hj & H3 & H4 & Hpn & H5).
  pose proof (bump_le cnt s i).
  refine (conj Hc (conj H1 (conj H2 (conj _ (conj H3 (conj H4 (conj _ H5))))))); [lia|].
  by rewrite count_before_bump by done.
Qed.

(** What the sender's device and the wire look like. *)
Lemma encrypt_outcome ks d cs cnt s nr sk mc la c st mid version t nonce d' w :
  chains_ok ks cs cnt -> cs !! s = Some c -> ratchetSessions d !! conv = Some st ->
  worker st = serializeState (runtime cs cnt s nr sk mc la c) ->
  encrypt nonce d conv (Some mid) st None version t = Ok (d', w) ->
  s <> 0%nat /\
  exists v, default None (peerAckedKem v) = default None (peerAckedKem (view st)) /\
  d' = mkDevice (storeRatchetSession (ratchetSessions d) conv
         (mkPersisted (serializeState (runtime cs (bump cnt s) s nr sk mc la c)) v))
         (skippedTable d) (<[mid := msg_key (c_ck c) (cnt s)]> (messageKeys d)) /\
  kemPk (w_dr w) = c_pkB64 c /\ n (w_dr w) = Z.of_nat (cnt s) /\
  pn (w_dr w) = Z.of_nat (count_before cnt s) /\
  (ct (w_dr w) = to_base64 (c_ct c) \/
   (ct (w_dr w) = ""%string /\ default None (peerAckedKem (view st)) = Some (c_pkB64 c))) /\
  w_ciphertext w = wire_ct nonce
    (utf8_encode (sealPayload t (truthy_str (s_KEMr (worker st))))) (msg_key (c_ck c) (cnt s)).
Proof.
  intros Hcs Hc Hst Hw. unfold encrypt_v1. rewrite Hw.
  set (p := utf8_encode _). set (r := runtime cs cnt s nr sk mc la c).
  assert (Hok : rt_ok r) by (by eapply runtime_ok).
  destruct s as [|s'].
  { assert (Hbad : dr_ratchet_encrypt nonce (serializeState r) p = Err "Cannot encrypt: CKs is null").
    { unfold dr_ratchet_encrypt. by rewrite deserialize_serialize. }
    rewrite Hbad. done. }
  rewrite (encrypt_spec nonce r (c_ck c) (cnt (S s')) (kem_keypair (c_seed c)) p);
    [|done|done|cbn; by rewrite Hc|done].
  rewrite bind_ok. cbn [e_state e_header e_ciphertext e_mk].
  intros [= <- <-]. split; [done|]. eexists. split; [|split; [|cbn; split_and!]]; cycle 1.
  - f_equal. f_equal. f_equal. f_equal. unfold runtime. cbn [send_chain].
    rewrite count_before_bump, bump_same by lia. cbn. by rewrite Hc.
  - by destruct (shouldOmitRatchetCt _ _).
  - by destruct (shouldOmitRatchetCt _ _).
  - by destruct (shouldOmitRatchetCt _ _).
  - destruct (shouldOmitRatchetCt _ _) eqn:Eo; cbn; [right|left; by rewrite Hc].
    split; [done|]. cbn in Eo. unfold shouldOmitRatchetCt in Eo.
    destruct (default None (peerAckedKem (view st))) as [a|] eqn:Ea; [|done].
    destruct (_ || _); [done|]. apply bool_decide_eq_true in Eo. by rewrite Eo.
  - done.
  - done.
Qed.

Lemma msg_index_bound σ cs cnt idx nr m i j c r :
  inv_at σ cs cnt idx nr -> msg_at cs cnt idx m i j c -> (i < S (S (idx r)))%nat.
Proof.
  intros Hinv (Hc & _). apply lookup_lt_Some in Hc. rewrite (iv_len _ _ _ _ _ Hinv r) in Hc.
  pose proof (iv_ahead _ _ _ _ _ Hinv r). lia.
Qed.

Lemma msg_at_unbump σ cs cnt idx nr m i j c r :
  inv_at σ cs cnt idx nr -> idx r <> 0%nat -> m ∈ net σ ->
  msg_at cs (bump cnt (idx r)) idx m i j c -> msg_at cs cnt idx m i j c.
Proof.
  intros Hinv Hs Hin Hm. destruct (iv_msgs _ _ _ _ _ Hinv m Hin) as (i0 & j0 & c0 & Hm0).
  pose proof (msg_at_bump cs cnt (idx r) _ _ _ _ _ (msg_index_bound _ _ _ _ _ _ _ _ _ r Hinv Hm0) Hm0)
    as Hb.
  assert (Hcs : chains_ok (keys σ) cs (bump cnt (idx r))).
  { apply chains_bump; [done| |apply Hinv]. rewrite (iv_len _ _ _ _ _ Hinv r). lia. }
  by destruct (msg_at_inj _ _ _ Hcs _ _ _ _ _ _ _ _ Hm Hb) as (-> & -> & ->).
Qed.

Lemma keys_send_other σ cs cnt idx nr r m :
  inv_at σ cs cnt idx nr -> idx r <> 0%nat -> m_from m = r ->
  (forall i j c, msg_at cs (bump cnt (idx r)) idx m i j c -> i = idx r /\ j = cnt (idx r)) ->
  keys_ok (dev σ (other r)) (other r) cs (bump cnt (idx r)) idx (idx (other r)) (nr (other r))
    (m :: net σ).
Proof.
  intros Hinv Hs Hr Hnew. destruct (iv_keys _ _ _ _ _ Hinv (other r)) as [K1 K2 K3 K4].
  split; [done|done|..].
  - intros id mk Hid. destruct (K3 id mk Hid) as (m' & x & y & cx & Hin & Hid' & Hm & ->).
    exists m', x, y, cx. split_and!; [by right|done| |done].
    apply msg_at_bump; [by eapply msg_index_bound|done].
  - intros m' x y cx [->|Hin]%elem_of_cons Hf Hm Hpass.
    + exfalso. destruct (Hnew _ _ _ Hm) as [-> ->]. pose proof (iv_ahead _ _ _ _ _ Hinv r) as Ha.
      destruct (iv_party _ _ _ _ _ Hinv (other r)) as [Hnr _].
      destruct Hpass as [?|[Heq Hlt]]; [lia|]. rewrite <- Heq in Hnr.
      destruct (idx r) as [|s']; [done|]. cbn in Hnr. lia.
    + apply (K4 m' x y cx); try done. by eapply msg_at_unbump.
Qed.

(** The device that sends keeps its own key tables consistent. *)
Lemma keys_send_self σ cs cnt idx nr r m c d mk :
  inv_at σ cs cnt idx nr -> idx r <> 0%nat -> m_from m = r ->
  msg_at cs (bump cnt (idx r)) idx m (idx r) (cnt (idx r)) c ->
  mk = msg_key (c_ck c) (cnt (idx r)) ->
  skippedTable d = skippedTable (dev σ r) -> messageKeys d = <[m_id m := mk]> (messageKeys (dev σ r)) ->
  keys_ok d r cs (bump cnt (idx r)) idx (idx r) (nr r) (m :: net σ).
Proof.
  intros Hinv Hs Hr Hm -> Hsk Hmk. destruct (iv_keys _ _ _ _ _ Hinv r) as [K1 K2 K3 K4].
  split; rewrite ?Hsk, ?Hmk; [done|done|..].
  - intros id mk. rewrite lookup_insert_Some. intros [[<- <-]|[_ Hid]].
    + exists m, (idx r), (cnt (idx r)), c. split_and!; [by left|done..].
    + destruct (K3 id mk Hid) as (m' & x & y & cx & Hin & Hid' & Hx & ->).
      exists m', x, y, cx. split_and!; [by right|done| |done].
      apply msg_at_bump; [by eapply msg_index_bound|done].
  - intros m' x y cx [->|Hin]%elem_of_cons Hf Hx Hpass; [done|].
    destruct (K4 m' x y cx Hin Hf) as [Hk'|Hk']; [by eapply msg_at_unbump|done|left|by right].
    destruct (decide (m_id m = m_id m')) as [->|];
      [rewrite lookup_insert_eq; by eexists|by rewrite lookup_insert_ne].
Qed.

(** The other device is in the same state while a message is sent. *)
Lemma party_send_other σ cs cnt idx nr r :
  inv_at σ cs cnt idx nr ->
  party_ok (dev σ (other r)) cs (bump cnt (idx r)) (idx (other r)) (nr (other r)) (idx r).
Proof.
  intros Hinv. pose proof (iv_party _ _ _ _ _ Hinv (other r)) as Hp. rewrite other_other in Hp.
  destruct Hp as (Hnr & c & st & sk & mc & la & Hc & H1 & H2 & H3).
  pose proof (iv_ahead _ _ _ _ _ Hinv r) as Had.
  split; [pose proof (recv_bound_bump cnt (idx r) (idx (other r))); lia|].
  exists c, st, sk, mc, la. split_and!; try done. rewrite H2. unfold runtime.
  by rewrite (bump_ne cnt (idx r) (idx (other r))), count_before_bump by lia.
Qed.

Lemma inv_send σ r nonce mid t version state d' w :
  inv σ -> ratchetSessions (dev σ r) !! conv = Some state -> blen nonce = 24 ->
  mid ∉ m_id <$> net σ ->
  encrypt nonce (dev σ r) conv (Some mid) state None version t = Ok (d', w) ->
  inv (mkSys (upd (dev σ) r d')
    (mkSent r mid w (sealPayload t (truthy_str (s_KEMr (worker state)))) :: net σ) (keys σ)).
Proof.
  intros (cs & cnt & idx & nr & Hinv) Hst Hnonce Hmid Henc.
  destruct (iv_party _ _ _ _ _ Hinv r) as (Hnr & c & st & sk & mc & la & Hc & Hst' & Hw & Ha).
  assert (state = st) as -> by congruence. pose proof (iv_chains _ _ _ _ _ Hinv) as Hcs.
  destruct (encrypt_outcome _ _ _ _ _ _ _ _ _ _ _ _ _ _ _ _ _ Hcs Hc Hst Hw Henc)
    as (Hs & v & Hv & -> & Hk & Hn & Hpn & Hct & Hcipher).
  set (m := mkSent r mid w _).
  assert (Hlt : (idx r < length cs)%nat) by (rewrite (iv_len _ _ _ _ _ Hinv r); lia).
  assert (Hcs' : chains_ok (keys σ) cs (bump cnt (idx r))) by (by apply chains_bump).
  assert (Hm : msg_at cs (bump cnt (idx r)) idx m (idx r) (cnt (idx r)) c).
  { unfold msg_at. cbn [m_wire m_from m_text m]. rewrite count_before_bump, bump_same by lia.
    split_and!; try done; [apply Hinv|lia| | |].
    - destruct Hct as [?|[He Hak]]; [by left|right]. split; [done|].
      destruct (Ha _ Hak) as (x & cx & Hx & Hpk & Hlx).
      by rewrite (pkB64_inj _ _ _ Hcs _ _ _ _ Hc Hx Hpk) in *.
    - by exists nonce.
    - assert (exists c', prev cs (idx r) = Some c') as [c' Hp].
      { destruct (idx r) as [|s']; [done|]. cbn. apply lookup_lt_is_Some_2. lia. }
      exists t, c'. split; [done|]. f_equal. rewrite Hw. cbn. rewrite Hp. cbn.
      rewrite bool_decide_eq_false_2; [done|]. intros E. apply base64_empty in E.
      by apply pk_nonempty in E. }
  assert (Hnew : forall x y cx, msg_at cs (bump cnt (idx r)) idx m x y cx ->
    x = idx r /\ y = cnt (idx r)).
  { intros x y cx Hx. by destruct (msg_at_inj _ _ _ Hcs' _ _ _ _ _ _ _ _ Hx Hm) as (-> & -> & _). }
  assert (Hold : forall m' x y cx, m' ∈ net σ -> msg_at cs (bump cnt (idx r)) idx m' x y cx ->
    ~ (x = idx r /\ y = cnt (idx r))).
  { intros m' x y cx Hin Hx [-> ->]. apply (msg_at_unbump _ _ _ _ _ _ _ _ _ r Hinv Hs Hin) in Hx.
    destruct Hx as (_ & _ & _ & Hj & _). lia. }
  exists cs, (bump cnt (idx r)), idx, nr. split; cbn [dev net keys]; try apply Hinv; try done.
  - intros r'. destruct (decide (r' = r)) as [->|Hne].
    + rewrite upd_same. split; [pose proof (recv_bound_bump cnt (idx r) (idx r)); lia|].
      eexists c, _, sk, mc, la. split; [done|]. split; [apply lookup_stored|]. split; [done|].
      cbn. intros a Hav. apply Ha. by rewrite <- Hv.
    + rewrite upd_other by done. apply neq_other in Hne as ->.
      rewrite other_other. by apply party_send_other.
  - cbn. apply NoDup_cons. split; [done|apply Hinv].
  - intros m' [->|Hin]%elem_of_cons; [by eexists _, _, _|].
    destruct (iv_msgs _ _ _ _ _ Hinv m' Hin) as (x & y & cx & Hx). exists x, y, cx.
    apply msg_at_bump; [by eapply msg_index_bound|done].
  - intros m1 m2 x y c1 c2 [->|H1]%elem_of_cons [->|H2]%elem_of_cons Hm1 Hm2; [done|..].
    + destruct (Hold m2 x y c2 H2 Hm2). by eapply Hnew.
    + destruct (Hold m1 x y c1 H1 Hm1). by eapply Hnew.
    + eapply (iv_uniq _ _ _ _ _ Hinv); eauto using msg_at_unbump.
  - intros r'. destruct (decide (r' = r)) as [->|Hne].
    + rewrite upd_same. by apply (keys_send_self _ _ _ _ _ _ m c _ (msg_key (c_ck c) (cnt (idx r)))).
    + rewrite upd_other by done. apply neq_other in Hne as ->. by apply keys_send_other.
Qed.

(** *** The start of a session *)

Lemma inv_initial σ : initial σ -> inv σ.
Proof.
  intros (seedA & seedB & rnd & sk & sa & sb & va & vb & Hsk & Hne & Ha & Hb & Hva & Hvb & HdA & HdB
    & Hnet & Hkeys).
  destruct (kem_correct seedB rnd) as (ct1 & ss1 & Henc & Hdec & Hl1 & _).
  pose (c0 := mkChain seedB [] sk []).
  pose (c1 := mkChain seedA ct1 (derive sk ss1).1 (derive sk ss1).2).
  assert (Hsa : sa = serializeState (runtime [c0; c1] (fun _ => 0%nat) 1 0 ∅ None None c1)).
  { unfold dr_init_alice in Ha. rewrite Henc, bind_ok in Ha. cbn [fst snd] in Ha.
    pose proof (blen_nonneg ss1). rewrite u8_set_first, bind_ok in Ha by lia.
    rewrite u8_set_fill' in Ha by lia. rewrite bind_ok, zeros_nil, app_nil_r in Ha by lia.
    fold (derive sk ss1) in Ha. unfold runtime, c1. cbn [c_seed c_rk]. injection Ha as <-. done. }
  assert (Hsb : sb = serializeState (runtime [c0; c1] (fun _ => 0%nat) 0 0 ∅ None None c0)).
  { unfold dr_init_bob in Hb. cbn [fst snd] in Hb. injection Hb as <-. unfold runtime, c0. cbn.
    by destruct (kem_keypair seedB). }
  pose (idx r := match r with Alice => 1%nat | Bob => 0%nat end).
  exists [c0; c1], (fun _ => 0%nat), idx, (fun _ => 0%nat). split.
  - split; [| |..]; try done.
    + intros [|[|i]] c c' Hc Hc'; try done. cbn in Hc, Hc'. injection Hc as <-. injection Hc' as <-.
      exists ss1. split_and!; [done|exact (eq_sym (surjective_pairing (derive sk ss1)))|]. cbn. by intros ->.
    + rewrite Hkeys. intros c [->|[->|[]%elem_of_nil]%elem_of_cons]%elem_of_cons;
        (split; [|set_solver]); [done|apply derive_length].
    + cbn. apply NoDup_cons. split; [set_solver|apply NoDup_singleton].
  - by intros [].
  - intros []; auto.
  - by intros [].
  - intros []; (split; [done|]).
    + exists c1, (mkPersisted sa va), ∅, None, None. rewrite HdA. split; [done|].
      split; [apply lookup_singleton_eq|]. split; [done|]. cbn. intros a Hav. by rewrite Hva in Hav.
    + exists c0, (mkPersisted sb vb), ∅, None, None. rewrite HdB. split; [done|].
      split; [apply lookup_singleton_eq|]. split; [done|]. cbn. intros a Hav. by rewrite Hvb in Hav.
  - rewrite Hnet. apply NoDup_nil_2.
  - rewrite Hnet. by intros m Hm%elem_of_nil.
  - rewrite Hnet. by intros m m' i j c c' Hm%elem_of_nil.
  - rewrite Hnet. intros r.
    assert (skippedTable (dev σ r) = [] /\ messageKeys (dev σ r) = ∅) as [Ht Hk]
      by (destruct r; rewrite ?HdA, ?HdB; done).
    split; rewrite ?Ht, ?Hk; [apply NoDup_nil_2|done| |].
    + by intros id mk Hid%lookup_empty_Some.
    + by intros m i j c Hm%elem_of_nil.
Qed.

Lemma inv_reachable σ0 σ : initial σ0 -> rtc step σ0 σ -> inv σ.
Proof.
  intros Hi Hr. apply (rtc_invariant step inv) with σ0; [|done|by apply inv_initial].
  intros x y Hx [r nonce mid t version state d' w Hst Hn Hmid Henc|m seed rnd rnds d' res Hin Hf Hd Hl].
  - by eapply inv_send.
  - by eapply inv_deliver.
Qed.

(** C1: delivery in the double ratchet. After any interleaving of sends and
    deliveries, with messages delayed, reordered, lost or duplicated and the KEM
    ciphertext omitted from headers whenever the sender has seen the peer's
    acknowledgement, every message ever sent opens to exactly what was sealed: by
    its cached key, by its skipped key, or by advancing the session. The only
    exception is a header number beyond MAX_SKIP, which is refused and leaves the
    device as it was. (While the skipped-key table stays below its cap.) *)
Theorem dr_delivery σ0 σ m seed rnd rnds :
  initial σ0 -> rtc step σ0 σ -> m ∈ net σ ->
  let d := dev σ (other (m_from m)) in
  let out := decrypt seed rnd rnds d conv (Some (m_id m)) peerVersion (w_dr (m_wire m))
               (w_ciphertext (m_wire m)) in
  out.2 = Success (m_text m) \/
  (out = (d, Failed "Too many skipped messages") /\
   (MAX_SKIP < n (w_dr (m_wire m)) \/ MAX_SKIP < pn (w_dr (m_wire m)))).
Proof.
  intros Hi Hr Hin. destruct (inv_reachable σ0 σ Hi Hr) as (cs & cnt & idx & nr & Hinv).
  destruct (iv_msgs _ _ _ _ _ Hinv m Hin) as (i & j & c & Hm). cbn zeta.
  destruct (deliver_outcome σ cs cnt idx nr m i j c seed rnd rnds Hinv Hin Hm)
    as [E|[[E Hg]|(st & sk & mc & la & cs' & cc' & skl & Hst & Hadv & E)]]; rewrite E;
    [by left|by right|by left].
Qed.
End System.

(** ** A concrete run *)
Section Witness.
Import Toy.

(** Payloads for the run: a tag and the acknowledged key. *)
Definition w_seal (t : unit) (a : option string) : jstr :=
  match a with None => [0] | Some s => 1 :: js s end.
Fixpoint unjs (l : jstr) : string :=
  match l with [] => "" | c :: r => String (chr c) (unjs r) end.
Definition w_ack (p : jstr) : option string := match p with 1 :: r => Some (unjs r) | _ => None end.
Definition w_to_string (b : bytes) : result jstr := Ok (utf8_decode b).

Lemma unjs_js s : unjs (js s) = s.
Proof.
  induction s as [|c s IH]; [done|]. cbn [js unjs]. rewrite IH. f_equal.
  unfold chr, code. by rewrite N2Z.id, Ascii.ascii_N_embedding.
Qed.

Lemma w_text_law t a : w_to_string (utf8_encode (w_seal t a)) = Ok (w_seal t a).
Proof.
  unfold w_to_string. f_equal. apply utf8_decode_encode. destruct a as [s|]; [|done].
  unfold text_ok. cbn. by rewrite js_scalar.
Qed.

Lemma w_ack_law t a : w_ack (w_seal t a) = a.
Proof. destruct a as [s|]; [|done]. cbn. by rewrite unjs_js. Qed.

Definition w_alice : result DoubleRatchetState :=
  dr_init_alice [x01] [x05] (replicate 32 x07) (kem_keypair [x02]).1.
Definition w_bob : result DoubleRatchetState :=
  dr_init_bob (replicate 32 x07) (Some (kem_keypair [x02]).1, (kem_keypair [x02]).2).

Lemma dr_delivery_witness :
  exists (σ0 σ : sys) m, initial "c" σ0 /\
    rtc (step w_seal w_ack w_to_string (fun _ => None) "c") σ0 σ /\ m ∈ net σ /\
    (decrypt_v1 w_ack w_to_string [x09] [x0a] [] (dev σ (other (m_from m))) "c" (Some (m_id m))
       (fun _ => None) (w_dr (m_wire m)) (w_ciphertext (m_wire m))).2 = Success (m_text m).
Proof.
  destruct w_alice as [sa|] eqn:Ea; [|discriminate Ea].
  destruct w_bob as [sb|] eqn:Eb; [|discriminate Eb].
  pose (σ0 := mkSys (fun r => fresh_device "c" (match r with Alice => sa | Bob => sb end) empty_view)
    [] [(kem_keypair [x01]).1; (kem_keypair [x02]).1]).
  assert (Hi : initial "c" σ0).
  { exists [x01], [x02], [x05], (replicate 32 x07), sa, sb, empty_view, empty_view.
    by split_and!. }
  destruct (encrypt_v1 w_seal (zeros 24) (dev σ0 Alice) "c" (Some "m1")
    (mkPersisted sa empty_view) None v1 tt) as [[d' w]|] eqn:Ee.
  2:{ exfalso. vm_compute in Ea. injection Ea as <-. vm_compute in Ee. discriminate Ee. }
  eexists σ0, _, _. split; [exact Hi|].
  assert (Hs : rtc (step w_seal w_ack w_to_string (fun _ => None) "c") σ0
    (mkSys (upd (dev σ0) Alice d')
      [mkSent Alice "m1" w (w_seal tt (truthy_str (s_KEMr sa)))] (keys σ0))).
  { apply rtc_once. apply (step_send w_seal w_ack w_to_string (fun _ => None) "c" σ0 Alice (zeros 24)
      "m1" tt v1 (mkPersisted sa empty_view) d' w); [apply lookup_singleton_eq|done|set_solver|exact Ee]. }
  split; [exact Hs|]. split; [left|].
  destruct (dr_delivery w_seal w_ack w_to_string (fun _ => None) "c" w_text_law w_ack_law σ0 _
    (mkSent Alice "m1" w (w_seal tt (truthy_str (s_KEMr sa)))) [x09] [x0a] [] Hi Hs
    ltac:(left)) as [E|[_ Hbad]]; [exact E|].
  exfalso. vm_compute in Ea. injection Ea as <-. vm_compute in Ee. injection Ee as <- <-.
  destruct Hbad as [Hbad|Hbad]; vm_compute in Hbad; discriminate Hbad.
Defined.
End Witness.
