(* ===== verification/GroupRatchet.v ===== *)
(** Sender keys for groups: group_ratchet_encrypt, group_ratchet_decrypt and
    group_decrypt_skipped of web/src/workers/crypto.worker.ts, against an
    abstract receiver that remembers which message numbers are still open. *)
From stdpp Require Import pretty.
From S2P Require Import Prelude Bytes PqWire Envelope Sodium DoubleRatchet.
#[local] Open Scope Z_scope.
Import Padding.

Module Group.

Record GroupRatchetState := mkGroup { CK : string; N : Z; skippedKeys : gmap string string }.
Record group_skipped := mkGSkipped { gs_n : Z; gs_mk : string }.

Record group_encrypted := mkGEnc {
  ge_state : GroupRatchetState; ge_n : Z; ge_ciphertext : bytes; ge_signature : string;
  ge_signatureVersion : Z; ge_mk : bytes }.
Record group_decrypted := mkGDec {
  gd_state : GroupRatchetState; gd_plaintext : bytes; gd_skippedKeys : list group_skipped;
  gd_mk : bytes }.

Section Ops.
Context `{Sodium}.

Definition PQ_V2_DOMAINS_GROUP : string := "NYX-PQ-GROUP-V4".
Definition MAX_SKIP : Z := 2000.

(** The signed bytes: the message number, big-endian, then nonce and ciphertext. *)
Definition data_to_sign (n : Z) (combined : bytes) : result bytes :=
  b ← set_u32 (zeros (4 + blen combined)) 0 n; u8_set b 4 combined.

Definition group_ratchet_encrypt (nonce : bytes) (s : GroupRatchetState) (plaintext : bytes)
  (signingV2PrivateKey : option bytes) : result group_encrypted :=
  ck ← DR.b64ToBytes (Some (CK s));
  match ck return result group_encrypted with
  | None => throw "Invalid Group Chain Key"
  | Some ckBytes =>
      let '(newCK, mk) := kdfChain ckBytes in
      let currentN := N s in
      padded ← padBuffer plaintext (PADDING_BLOCK_SIZE - DR.FINAL_OVERHEAD);
      combined ← combine nonce (aead_encrypt padded nonce mk);
      dataToSign ← data_to_sign currentN combined;
      match signingV2PrivateKey return result group_encrypted with
      | None => throw "Group ratchet encrypt: signingKeyV2 wajib (PQ-only)"
      | Some key =>
          let signature := mlDsaSign dataToSign key PQ_V2_DOMAINS_GROUP in
          Ok (mkGEnc (mkGroup (to_base64 newCK) (currentN + 1) ∅) currentN combined
                (to_base64 signature) 2 mk)
      end
  end.

(** Signature checks shared by both receive operations. *)
Definition check_signature (n : Z) (ciphertext : bytes) (signatureBytes : bytes)
  (signatureVersion : option Z) (senderSigningKeyV2 : option bytes) (invalid : string)
  : result unit :=
  dataToVerify ← data_to_sign n ciphertext;
  if negb (default 1 signatureVersion =? 2)
  then throw "Group message signature v1 tidak lagi didukung (PQ-only)" else
  match senderSigningKeyV2 with
  | None => throw "Missing sender signing key v2"
  | Some pk =>
      guard_not (negb (mlDsaVerify signatureBytes dataToVerify pk PQ_V2_DOMAINS_GROUP)) invalid
  end.

(** [while (currentN < header.n)] *)
Fixpoint group_skip (k : nat) (ck : bytes) (currentN : Z) (acc : list group_skipped)
  : bytes * Z * list group_skipped :=
  match k with
  | 0%nat => (ck, currentN, acc)
  | S k' =>
      let '(nextCK, skippedMK) := kdfChain ck in
      group_skip k' nextCK (currentN + 1) (acc ++ [mkGSkipped currentN (to_base64 skippedMK)])
  end.

Definition group_open (mk ciphertext : bytes) : result bytes :=
  decrypted ← aead_decrypt (slice_from ciphertext 24) (slice ciphertext 0 24) mk;
  Ok (unpadBuffer decrypted (PADDING_BLOCK_SIZE - DR.FINAL_OVERHEAD)).

Definition group_ratchet_decrypt (s : GroupRatchetState) (headerN : Z) (ciphertext : bytes)
  (signature : string) (signatureVersion : option Z) (senderSigningKeyV2 : option bytes)
  : result group_decrypted :=
  ck ← DR.b64ToBytes (Some (CK s));
  match ck return result group_decrypted with
  | None => throw "Invalid Group Chain Key"
  | Some ckBytes =>
      sg ← DR.b64ToBytes (Some signature);
      match sg return result group_decrypted with
      | None => throw "Missing signature"
      | Some signatureBytes =>
          _ ← check_signature headerN ciphertext signatureBytes signatureVersion senderSigningKeyV2
                "Invalid group message signature (v2). Potential spoofing detected!";
          if MAX_SKIP <? headerN - N s
          then throw "Too many skipped messages. Potential DoS attack." else
          let '(ckBytes, currentN, skipped) :=
            group_skip (Z.to_nat (headerN - N s)) ckBytes (N s) [] in
          r ← (if currentN =? headerN then
                 let '(nextCK, messageKey) := kdfChain ckBytes in
                 Ok (nextCK, currentN + 1, messageKey, skippedKeys s)
               else if headerN <? currentN then
                 match skippedKeys s !! pretty headerN with
                 | Some skippedMk =>
                     if bool_decide (skippedMk = ""%string)
                     then throw "Ratchet Advanced! Cannot decrypt old message" else
                     mk ← from_base64 skippedMk;
                     Ok (ckBytes, currentN, mk, delete (pretty headerN) (skippedKeys s))
                 | None => throw "Ratchet Advanced! Cannot decrypt old message"
                 end
               else throw "Message N is older than current state. Possibly replayed or already decrypted.");
          let '(ckBytes, currentN, mk, keys) := r in
          plaintext ← group_open mk ciphertext;
          let keys := foldl (fun m sk => <[pretty (gs_n sk) := gs_mk sk]> m) keys skipped in
          Ok (mkGDec (mkGroup (to_base64 ckBytes) currentN keys) plaintext skipped mk)
      end
  end.

Definition group_decrypt_skipped (mk : option string) (headerN : Z) (ciphertext : bytes)
  (signature : string) (signatureVersion : option Z) (senderSigningKeyV2 : option bytes)
  : result bytes :=
  mkb ← DR.b64ToBytes mk;
  sg ← DR.b64ToBytes (Some signature);
  match mkb, sg with
  | None, _ => throw "Invalid skipped message key"
  | _, None => throw "Missing signature"
  | Some mkBytes, Some signatureBytes =>
      _ ← check_signature headerN ciphertext signatureBytes signatureVersion senderSigningKeyV2
            "Invalid group message signature (v2, skipped key). Potential spoofing detected!";
      group_open mkBytes ciphertext
  end.

End Ops.
End Group.

(** ** The abstract receiver *)
Module GroupSpec.

(** [next] is the first number not seen; [open] are smaller numbers whose
    message has not arrived yet. *)
Record receiver := mkReceiver { next : nat; open : gset nat }.

Inductive verdict := Accept | Replay | TooFar.

Definition receive (r : receiver) (k : nat) : receiver * verdict :=
  if decide (next r <= k)%nat then
    if decide (k - next r <= 2000)%nat
    then (mkReceiver (S k) (open r ∪ list_to_set (seq (next r) (k - next r))), Accept)
    else (r, TooFar)
  else if decide (k ∈ open r) then (mkReceiver (next r) (open r ∖ {[k]}), Accept)
  else (r, Replay).

Fixpoint receive_all (r : receiver) (ks : list nat) : receiver * list verdict :=
  match ks with
  | [] => (r, [])
  | k :: ks' =>
      let '(r', v) := receive r k in
      let '(r'', vs) := receive_all r' ks' in (r'', v :: vs)
  end.
End GroupSpec.

(** ** Refinement *)
Section GroupLemmas.
Import Group GroupSpec.
Context `{SodiumLaws}.

Lemma data_to_sign_ok n c : data_to_sign n c = Ok (be32 n ++ c).
Proof.
  unfold data_to_sign. pose proof (blen_nonneg c). rewrite set_u32_first, bind_ok by lia.
  rewrite u8_set_fill' by (done || lia). rewrite zeros_nil by lia. by rewrite app_nil_r.
Qed.

Lemma group_skip_ok ck k : forall i acc,
  group_skip k (chain_key ck i) (Z.of_nat i) acc =
    (chain_key ck (i + k), Z.of_nat (i + k),
     acc ++ map (fun j => mkGSkipped (Z.of_nat j) (to_base64 (msg_key ck j))) (seq i k)).
Proof.
  induction k as [|k IH]; intros i acc.
  - cbn. by rewrite Nat.add_0_r, app_nil_r.
  - cbn [group_skip seq map]. destruct (kdfChain (chain_key ck i)) as [nk mk] eqn:E.
    replace nk with (chain_key ck (S i)) by (cbn [chain_key]; by rewrite E).
    replace (Z.of_nat i + 1) with (Z.of_nat (S i)) by lia. rewrite IH.
    replace (S i + k)%nat with (i + S k)%nat by lia.
    replace mk with (msg_key ck i) by (unfold msg_key; by rewrite E). by rewrite <- app_assoc.
Qed.

Lemma group_open_ok nonce p mk : blen nonce = 24 -> group_open mk (wire_ct nonce p mk) = Ok p.
Proof. apply open_wire. Qed.

(** One sender: its first chain key, and its signing key. *)
Context (ck seed : bytes) (Hck : blen ck = 32).

Definition signed (n : nat) (c : bytes) : string :=
  to_base64 (mlDsaSign (be32 (Z.of_nat n) ++ c) (mlDsaKeygen seed).2 PQ_V2_DOMAINS_GROUP).

(** Message number [k], as the sender emits it. *)
Definition message (k : nat) (np : bytes * bytes) : group_encrypted :=
  let c := wire_ct np.1 np.2 (msg_key ck k) in
  mkGEnc (mkGroup (to_base64 (chain_key ck (S k))) (Z.of_nat k + 1) ∅) (Z.of_nat k) c
    (signed k c) 2 (msg_key ck k).

Lemma b64_chain k : DR.b64ToBytes (Some (to_base64 (chain_key ck k))) = Ok (Some (chain_key ck k)).
Proof. apply b64ToBytes_some. auto with nyx. Qed.

Lemma group_encrypt_spec k sk np :
  group_ratchet_encrypt np.1 (mkGroup (to_base64 (chain_key ck k)) (Z.of_nat k) sk) np.2
    (Some (mlDsaKeygen seed).2) = Ok (message k np).
Proof.
  unfold group_ratchet_encrypt. cbn [CK N]. rewrite b64_chain, bind_ok.
  destruct (kdfChain (chain_key ck k)) as [nk mk] eqn:E.
  change (PADDING_BLOCK_SIZE - DR.FINAL_OVERHEAD) with 8152.
  rewrite padBuffer_eq, bind_ok, combine_ok, bind_ok, data_to_sign_ok, bind_ok by lia.
  unfold message, signed, wire_ct, padded.
  assert (Hm : msg_key ck k = mk) by (unfold msg_key; by rewrite E).
  assert (Hn : chain_key ck (S k) = nk) by (cbn [chain_key]; by rewrite E). rewrite Hm, Hn. done.
Qed.

(** A sender's whole run. *)
Fixpoint send_all (s : GroupRatchetState) (l : list (bytes * bytes)) : result (list group_encrypted) :=
  match l with
  | [] => Ok []
  | np :: l' =>
      e ← group_ratchet_encrypt np.1 s np.2 (Some (mlDsaKeygen seed).2);
      es ← send_all (ge_state e) l'; Ok (e :: es)
  end.

Lemma send_all_from l : forall k sk,
  send_all (mkGroup (to_base64 (chain_key ck k)) (Z.of_nat k) sk) l = Ok (imap (fun i => message (k + i)) l).
Proof.
  induction l as [|np l IH]; intros k sk; [done|]. cbn [send_all].
  rewrite group_encrypt_spec, bind_ok.
  change (ge_state (message k np))
    with (mkGroup (to_base64 (chain_key ck (S k))) (Z.of_nat k + 1) ∅).
  replace (Z.of_nat k + 1) with (Z.of_nat (S k)) by lia. rewrite IH, bind_ok.
  cbn [imap]. rewrite Nat.add_0_r. do 2 f_equal. apply imap_ext. intros i x _. cbn. f_equal. lia.
Qed.

(** The receiver's state stands for an abstract receiver. *)
Record represents (s : GroupRatchetState) (r : receiver) : Prop := {
  rep_CK : CK s = to_base64 (chain_key ck (next r));
  rep_N : N s = Z.of_nat (next r);
  rep_keys : forall k, skippedKeys s !! pretty (Z.of_nat k) =
    if decide (k ∈ open r) then Some (to_base64 (msg_key ck k)) else None;
  rep_open : forall k, k ∈ open r -> (k < next r)%nat }.

Definition deliver (s : GroupRatchetState) (m : group_encrypted) : result group_decrypted :=
  group_ratchet_decrypt s (ge_n m) (ge_ciphertext m) (ge_signature m)
    (Some (ge_signatureVersion m)) (Some (mlDsaKeygen seed).1).

Definition deliver_step (s : GroupRatchetState) (m : group_encrypted)
  : GroupRatchetState * result bytes :=
  match deliver s m with
  | Ok d => (gd_state d, Ok (gd_plaintext d))
  | Err e => (s, Err e)
  end.

(** What the caller sees of a verdict on message [k]. *)
Definition shown (v : verdict) (p : bytes) : result bytes :=
  match v with
  | Accept => Ok p
  | Replay => Err "Ratchet Advanced! Cannot decrypt old message"
  | TooFar => Err "Too many skipped messages. Potential DoS attack."
  end.

Lemma signature_checks k c invalid :
  check_signature (Z.of_nat k) c
    (mlDsaSign (be32 (Z.of_nat k) ++ c) (mlDsaKeygen seed).2 PQ_V2_DOMAINS_GROUP)
    (Some 2) (Some (mlDsaKeygen seed).1) invalid = Ok tt.
Proof. unfold check_signature. rewrite data_to_sign_ok, bind_ok. cbn. by rewrite sign_correct. Qed.

Lemma insert_skipped ck' l : forall (m : gmap string string) x,
  foldl (fun m sk => <[pretty (gs_n sk) := gs_mk sk]> m) m
    (map (fun j => mkGSkipped (Z.of_nat j) (to_base64 (msg_key ck' j))) l) !! pretty (Z.of_nat x)
  = if decide (x ∈ l) then Some (to_base64 (msg_key ck' x)) else m !! pretty (Z.of_nat x).
Proof.
  induction l as [|j l IH]; intros m x; [done|]. cbn [map foldl gs_n gs_mk]. rewrite IH.
  destruct (decide (x ∈ l)) as [Hx|Hx]; [by rewrite decide_True by set_solver|].
  destruct (decide (x = j)) as [->|Hne].
  - rewrite decide_True by set_solver. by rewrite lookup_insert_eq.
  - rewrite decide_False by set_solver. rewrite lookup_insert_ne; [done|].
    intros E. apply (inj pretty) in E. lia.
Qed.

Lemma mk_truthy k : to_base64 (msg_key ck k) <> ""%string.
Proof.
  intros E. apply base64_empty in E. pose proof (proj2 (kdfChain_length (chain_key ck k))) as Hl.
  unfold msg_key in E. by rewrite E in Hl.
Qed.

(** One delivery refines one abstract step. *)
Lemma deliver_refines s r k np :
  represents s r -> blen np.1 = 24 ->
  let '(r', v) := receive r k in
  let '(s', o) := deliver_step s (message k np) in
  represents s' r' /\ o = shown v np.2.
Proof.
  intros Hrep Hn. pose proof Hrep as [Hc HN Hk Ho]. unfold deliver_step, deliver, message, signed.
  cbn [ge_n ge_ciphertext ge_signature ge_signatureVersion].
  unfold group_ratchet_decrypt. rewrite Hc, HN, b64_chain, bind_ok.
  rewrite b64ToBytes_some, bind_ok.
  2:{ intros E. pose proof (sign_length (be32 (Z.of_nat k) ++ wire_ct np.1 np.2 (msg_key ck k))
        (mlDsaKeygen seed).2 PQ_V2_DOMAINS_GROUP) as Hl. by rewrite E in Hl. }
  rewrite signature_checks, bind_ok. unfold receive.
  destruct (decide (next r <= k)%nat) as [Hle|Hgt].
  - destruct (decide (k - next r <= 2000)%nat) as [Hs|Hs].
    + replace (MAX_SKIP <? _) with false by (symmetry; apply Z.ltb_ge; unfold MAX_SKIP; lia).
      replace (Z.to_nat (Z.of_nat k - Z.of_nat (next r))) with (k - next r)%nat by lia.
      rewrite group_skip_ok. replace (next r + (k - next r))%nat with k by lia.
      rewrite Z.eqb_refl. destruct (kdfChain (chain_key ck k)) as [nk mk] eqn:E.
      assert (Hm : msg_key ck k = mk) by (unfold msg_key; by rewrite E).
      rewrite bind_ok, Hm, group_open_ok, bind_ok by done. cbn [gd_state gd_plaintext].
      split; [|done]. split; cbn [CK N skippedKeys next open].
      * cbn [chain_key]. by rewrite E.
      * lia.
      * intros x. rewrite app_nil_l, insert_skipped.
        destruct (decide (x ∈ seq (next r) (k - next r))) as [Hx|Hx];
          [by rewrite decide_True by set_solver|]. rewrite Hk.
        destruct (decide (x ∈ open r)); [by rewrite decide_True by set_solver|].
        by rewrite decide_False by set_solver.
      * intros x [Hx|Hx]%elem_of_union; [apply Ho in Hx; lia|].
        apply elem_of_list_to_set, elem_of_seq in Hx. lia.
    + replace (MAX_SKIP <? _) with true by (symmetry; apply Z.ltb_lt; unfold MAX_SKIP; lia). done.
  - replace (MAX_SKIP <? _) with false by (symmetry; apply Z.ltb_ge; unfold MAX_SKIP; lia).
    replace (Z.to_nat (Z.of_nat k - Z.of_nat (next r))) with 0%nat by lia. cbn [group_skip].
    replace (_ =? _) with false by (symmetry; apply Z.eqb_neq; lia).
    replace (_ <? _) with true by (symmetry; apply Z.ltb_lt; lia). rewrite Hk.
    destruct (decide (k ∈ open r)) as [Hin|Hout]; [|done].
    rewrite bool_decide_eq_false_2 by apply mk_truthy.
    rewrite base64_correct, !bind_ok, group_open_ok, bind_ok by done.
    cbn [gd_state gd_plaintext foldl]. split; [|done]. split; cbn [CK N skippedKeys next open]; try done.
    + intros x. destruct (decide (x = k)) as [->|Hne].
      * rewrite lookup_delete_eq. by rewrite decide_False by set_solver.
      * rewrite lookup_delete_ne by (intros E; apply (inj pretty) in E; lia). rewrite Hk.
        destruct (decide (x ∈ open r)); [by rewrite decide_True by set_solver|].
        by rewrite decide_False by set_solver.
    + intros x Hx. apply Ho. set_solver.
Qed.

(** Deliveries in the order [ks] (numbers into the list of sent messages). *)
Fixpoint deliver_all (s : GroupRatchetState) (ms : list group_encrypted) (ks : list nat)
  : GroupRatchetState * list (result bytes) :=
  match ks with
  | [] => (s, [])
  | k :: ks' =>
      match ms !! k with
      | None => deliver_all s ms ks'
      | Some m =>
          let '(s', o) := deliver_step s m in
          let '(s'', os) := deliver_all s' ms ks' in (s'', o :: os)
      end
  end.

Definition plain (l : list (bytes * bytes)) (k : nat) : bytes := default [] (snd <$> l !! k).

Lemma deliver_all_refines l ks : forall s r,
  represents s r -> Forall (fun np => blen np.1 = 24) l -> Forall (fun k => k < length l)%nat ks ->
  let '(r', vs) := receive_all r ks in
  let '(s', os) := deliver_all s (imap message l) ks in
  represents s' r' /\ os = zip_with (fun v k => shown v (plain l k)) vs ks.
Proof.
  induction ks as [|k ks IH]; intros s r Hrep Hl Hks; [done|].
  apply Forall_cons in Hks as [Hk Hks]. cbn [receive_all deliver_all].
  destruct (lookup_lt_is_Some_2 l k Hk) as [np Hnp]. rewrite list_lookup_imap, Hnp.
  cbn [fmap option_fmap option_map].
  pose proof (deliver_refines s r k np Hrep (Forall_lookup_1 _ _ _ _ Hl Hnp)) as Hd.
  destruct (receive r k) as [r' v], (deliver_step s (message k np)) as [s' o].
  destruct Hd as [Hrep' ->]. specialize (IH s' r' Hrep' Hl Hks).
  destruct (receive_all r' ks) as [r'' vs], (deliver_all s' (imap message l) ks) as [s'' os].
  destruct IH as [Hrep'' ->]. split; [done|]. cbn [zip_with]. unfold plain at 2. by rewrite Hnp.
Qed.

Definition fresh_receiver (j : nat) : GroupRatchetState :=
  mkGroup (to_base64 (chain_key ck j)) (Z.of_nat j) ∅.

Lemma fresh_represents j : represents (fresh_receiver j) (mkReceiver j ∅).
Proof.
  split; cbn; [done..| |set_solver]. intros k. rewrite lookup_empty. by rewrite decide_False by set_solver.
Qed.

(** *** Facts about the abstract receiver *)

Definition wf (r : receiver) : Prop := forall k, k ∈ open r -> (k < next r)%nat.
Definition seen (r : receiver) (k : nat) : Prop := (k < next r)%nat /\ k ∉ open r.

Lemma receive_fresh r k :
  wf r -> (k < 2001)%nat -> ~ seen r k ->
  exists r', receive r k = (r', Accept) /\ wf r' /\ forall x, seen r' x <-> seen r x \/ x = k.
Proof.
  intros Hwf Hk Hns. unfold receive, seen, wf in *. destruct (decide (next r <= k)%nat) as [Hle|Hgt].
  - rewrite decide_True by lia. eexists. split; [done|]. cbn [next open].
    assert (Hin : forall x, x ∈ open r ∪ list_to_set (seq (next r) (k - next r)) <->
      x ∈ open r \/ (next r <= x < k)%nat).
    { intros x. rewrite elem_of_union, elem_of_list_to_set, elem_of_seq.
      replace (next r + (k - next r))%nat with k by lia. done. }
    setoid_rewrite Hin. split; [intros x [Hx|]; [apply Hwf in Hx|]; lia|].
    intros x. destruct (decide (x ∈ open r)) as [Hx|Hx].
    + apply Hwf in Hx as Hlt. split; [tauto|]. intros [[_ ?]| ->]; [done|lia].
    + split; [intros [? Hno]; destruct (decide (x < next r)%nat); [by left|right]; lia|].
      intros [[? _]| ->]; (split; [lia|]); intros [?|?]; [done|lia|done|lia].
  - destruct (decide (k ∈ open r)) as [Hin|Hout]; [|destruct Hns; split; [lia|done]].
    eexists. split; [done|]. cbn [next open]. split; [set_solver|]. intros x.
    rewrite not_elem_of_difference, elem_of_singleton. split.
    + intros [? [?|?]]; tauto.
    + intros [[? ?]| ->]; [tauto|]. split; [lia|by right].
Qed.

Lemma receive_seen r k : seen r k -> receive r k = (r, Replay).
Proof.
  intros [Hlt Hno]. unfold receive. rewrite decide_False by lia. by rewrite decide_False.
Qed.

Lemma receive_all_fresh ks : forall r,
  wf r -> NoDup ks -> (forall k, k ∈ ks -> (k < 2001)%nat /\ ~ seen r k) ->
  exists r', receive_all r ks = (r', map (fun _ => Accept) ks) /\
    (forall x, seen r' x <-> seen r x \/ x ∈ ks).
Proof.
  induction ks as [|k ks IH]; intros r Hwf Hnd Hks.
  { exists r. split; [done|]. set_solver. }
  apply NoDup_cons in Hnd as [Hk Hnd]. destruct (Hks k) as [Hlt Hns]; [by left|].
  destruct (receive_fresh r k Hwf Hlt Hns) as (r1 & E1 & Hwf1 & Hs1).
  destruct (IH r1 Hwf1 Hnd) as (r2 & E2 & Hs2).
  { intros x Hx. destruct (Hks x) as [? ?]; [by right|]. split; [done|]. rewrite Hs1.
    intros [?| ->]; [tauto|done]. }
  exists r2. cbn [receive_all map]. rewrite E1, E2. split; [done|].
  intros x. rewrite Hs2, Hs1, elem_of_cons. tauto.
Qed.

(** C3: sender keys refine the abstract receiver. From the state a receiver
    joins with, for every list of messages a sender emits and every order of
    deliveries, repetitions included, the worker accepts exactly the messages the
    abstract receiver accepts and returns their plaintexts, and reports the
    others as already decrypted or too far ahead. *)
Theorem group_ratchet_refines l ks j :
  Forall (fun np => blen np.1 = 24) l -> Forall (fun k => k < length l)%nat ks ->
  exists ms, send_all (mkGroup (to_base64 ck) 0 ∅) l = Ok ms /\
    let '(r, vs) := receive_all (mkReceiver j ∅) ks in
    let '(s, os) := deliver_all (fresh_receiver j) ms ks in
    represents s r /\ os = zip_with (fun v k => shown v (plain l k)) vs ks.
Proof.
  intros Hl Hks. exists (imap message l). split; [apply (send_all_from l 0 ∅)|].
  apply (deliver_all_refines l ks _ _ (fresh_represents j) Hl Hks).
Qed.

(** C2: sender keys work in any order, once. Whatever the order in which up to
    2001 messages of a sender arrive, each opens to its plaintext the first time;
    delivering any of them again is refused and changes nothing. *)
Theorem group_any_order_once l ks k :
  Forall (fun np => blen np.1 = 24) l -> (length l <= 2001)%nat -> NoDup ks ->
  Forall (fun k => k < length l)%nat ks -> k ∈ ks ->
  let '(s, os) := deliver_all (fresh_receiver 0) (imap message l) ks in
  os = map (fun k => Ok (plain l k)) ks /\
  forall np, l !! k = Some np ->
    deliver_step s (message k np) = (s, Err "Ratchet Advanced! Cannot decrypt old message").
Proof.
  intros Hl Hlen Hnd Hks Hin.
  pose proof (deliver_all_refines l ks _ _ (fresh_represents 0) Hl Hks) as Hd.
  destruct (receive_all_fresh ks (mkReceiver 0 ∅)) as (r & E & Hs); [set_solver|done| |].
  { rewrite Forall_forall in Hks. intros x Hx. split; [apply Hks in Hx; lia|]. intros [? _]. cbn in *. lia. }
  rewrite E in Hd. destruct (deliver_all _ _ _) as [s os]. destruct Hd as [Hrep ->]. split.
  - clear. induction ks as [|x ks IH]; [done|]. cbn. by f_equal.
  - intros np Hnp. pose proof (deliver_refines s r k np Hrep (Forall_lookup_1 _ _ _ _ Hl Hnp)) as Hd.
    rewrite receive_seen in Hd by (apply Hs; by right).
    unfold deliver_step in *. destruct (deliver s (message k np)) as [d|e];
      [by destruct Hd|]. destruct Hd as [_ Hd]. cbn in Hd. by rewrite Hd.
Qed.
End GroupLemmas.

Section GroupWitness.
Import Toy.

Definition sample_msgs : list (bytes * bytes) :=
  [(zeros 24, [x41]); (replicate 24 x01, [x42]); (zeros 24, [x43; x80])].

Lemma group_ratchet_refines_witness :
  exists ms, send_all [x07] (Group.mkGroup (to_base64 (replicate 32 x05)) 0 ∅) sample_msgs = Ok ms.
Proof.
  destruct (group_ratchet_refines (replicate 32 x05) [x07] eq_refl sample_msgs [2; 0; 2; 1]%nat 0)
    as (ms & Hms & _); [repeat constructor|repeat constructor; cbn; lia|].
  exists ms. exact Hms.
Defined.

Lemma group_any_order_once_witness :
  let '(s, os) := deliver_all [x07] (fresh_receiver (replicate 32 x05) 0)
    (imap (message (replicate 32 x05) [x07]) sample_msgs) [2; 0; 1]%nat in
  os = [Ok [x43; x80]; Ok [x41]; Ok [x42]].
Proof.
  pose proof (group_any_order_once (replicate 32 x05) [x07] eq_refl sample_msgs [2; 0; 1]%nat 0
    ltac:(repeat constructor) ltac:(cbn; lia)
    (bool_decide_unpack (NoDup [2; 0; 1]%nat) I) ltac:(repeat constructor; cbn; lia) ltac:(set_solver)) as Hw.
  destruct (deliver_all _ _ _ _) as [s os]. exact (proj1 Hw).
Defined.
End GroupWitness.
