(* ===== verification/BurnerRatchet.v ===== *)
(** The double ratchet of burner chats (burner_dr_init_guest, burner_dr_init_host,
    burner_dr_encrypt and burner_dr_decrypt of web/src/workers/crypto.worker.ts).
    It works on the at-rest state and keeps skipped keys in it. *)
From stdpp Require Import pretty.
From S2P Require Import Prelude Bytes PqWire Envelope Sodium DoubleRatchet.
#[local] Open Scope Z_scope.
Import Padding.

Module Burner.

Record BurnerState := mkBurner {
  RK : option string; CKs : option string; CKr : option string;
  KEMs_pub : option string; KEMs_priv : option string; KEMr : option string;
  savedCt : option string; Ns : Z; Nr : Z; PN : Z; skippedKeys : option (gmap string string) }.

Record burner_decrypted := mkBDec {
  bd_state : BurnerState; bd_plaintext : bytes; bd_skippedKeys : list DR.skipped_key; bd_mk : bytes }.

Section Ops.
Context `{Sodium}.

(** [bytesToB64(b) || null] *)
Definition b64_or_null (b : bytes) : option string :=
  let s := to_base64 b in if bool_decide (s = ""%string) then None else Some s.

Definition burner_dr_init_guest (seed rnd hostPqPk : bytes) : result BurnerState :=
  let pqKeypair := kem_keypair seed in
  pqResult ← kem_enc hostPqPk rnd;
  let KDF := generichash 64 pqResult.2 None in
  Ok (mkBurner (b64_or_null (slice KDF 0 32)) (b64_or_null (slice KDF 32 64)) None
        (b64_or_null pqKeypair.1) (b64_or_null pqKeypair.2) (b64_or_null hostPqPk)
        (b64_or_null pqResult.1) 0 0 0 None).

Definition burner_dr_init_host (ct hostPqSk : bytes) : result BurnerState :=
  pqSharedSecret ← kem_dec ct hostPqSk;
  let KDF := generichash 64 pqSharedSecret None in
  Ok (mkBurner (b64_or_null (slice KDF 0 32)) None (b64_or_null (slice KDF 32 64))
        None None None None 0 0 0 (Some ∅)).

Definition burner_dr_encrypt (nonce : bytes) (s : BurnerState) (plaintext : bytes)
  : result (BurnerState * DR.DoubleRatchetHeader * bytes * bytes) :=
  cks ← DR.b64ToBytes (CKs s);
  match cks return result (BurnerState * DR.DoubleRatchetHeader * bytes * bytes) with
  | None => throw "Cannot encrypt: CKs is null"
  | Some cksBytes =>
      let '(newCKs, mk) := kdfChain cksBytes in
      let ciphertext := aead_encrypt plaintext nonce mk in
      combined ← combine nonce ciphertext;
      let header := DR.mkHeader (default "" (KEMs_pub s)) (default "" (savedCt s)) (Ns s) (PN s) in
      Ok (mkBurner (RK s) (b64_or_null newCKs) (CKr s) (KEMs_pub s) (KEMs_priv s) (KEMr s)
            (savedCt s) (Ns s + 1) (Nr s) (PN s) (skippedKeys s), header, combined, mk)
  end.

(** [!stateKemR || length differs || compare !== 0] *)
Definition is_new_key (headerKemPk : bytes) (stateKemR : option bytes) : bool :=
  match stateKemR with
  | None => true
  | Some k => negb (blen headerKemPk =? blen k) || negb (bool_decide (headerKemPk = k))
  end.

(** [headerCt && state.KEMs_priv]: receive side of the step on the root key. *)
Definition burner_recv (rk : bytes) (s : BurnerState) (ckr : option string) (headerCt : option bytes)
  : result (bytes * option string) :=
  priv ← DR.b64ToBytes (KEMs_priv s);
  match headerCt, priv with
  | Some hct, Some kemsPrivBytes =>
      pqSharedSecret ← kem_dec hct kemsPrivBytes;
      sharedSecret1 ← DR.root_input rk pqSharedSecret;
      let KDF1 := generichash 64 sharedSecret1 None in
      rk' ← u8_set rk 0 (slice KDF1 0 32);
      Ok (rk', b64_or_null (slice KDF1 32 64))
  | _, _ => Ok (rk, ckr)
  end.

Definition burner_step (seed rnd : bytes) (s : BurnerState) (rk : bytes) (h : DR.DoubleRatchetHeader)
  (headerKemPk : bytes) (headerCt : option bytes) : result (BurnerState * list DR.skipped_key) :=
  if DR.MAX_SKIP <? DR.pn h - Nr s then throw "Too many skipped messages" else
  ckrBytes ← DR.b64ToBytes (CKr s);
  pre ← match ckrBytes, KEMr s with
        | Some ck, Some kemr =>
            if bool_decide (kemr = ""%string) then Ok (CKr s, []) else
            l ← DR.skip_loop (Z.to_nat (DR.pn h - Nr s)) kemr (Some ck) (Nr s) [];
            let '(ck', _, skipped) := l in
            Ok (ck' ≫= b64_or_null, skipped)
        | _, _ => Ok (CKr s, [])
        end;
  let '(ckr, skipped) := pre in
  r ← burner_recv rk s ckr headerCt;
  let '(rk1, ckr1) := r in
  let newKEMs := kem_keypair seed in
  pqResult ← kem_enc headerKemPk rnd;
  sharedSecret2 ← DR.root_input rk1 pqResult.2;
  let KDF2 := generichash 64 sharedSecret2 None in
  rk2 ← u8_set rk1 0 (slice KDF2 0 32);
  Ok (mkBurner (b64_or_null rk2) (b64_or_null (slice KDF2 32 64)) ckr1
        (b64_or_null newKEMs.1) (b64_or_null newKEMs.2) (Some (DR.kemPk h))
        (b64_or_null pqResult.1) 0 0 (Ns s) (skippedKeys s), skipped).

Definition skip_id (kemPk : string) (n : Z) : string := (kemPk ++ "_" ++ pretty n)%string.

(** The message key: the next of the chain, or a key skipped earlier. *)
Definition burner_key (ckr : option bytes) (nr : Z) (h : DR.DoubleRatchetHeader)
  (keys : option (gmap string string))
  : result (option bytes * Z * bytes * option (gmap string string)) :=
  if nr =? DR.n h then
    match ckr with
    | None => throw "CKr is missing"
    | Some ck => let '(nextCKr, mk) := kdfChain ck in Ok (Some nextCKr, nr + 1, mk, keys)
    end
  else if DR.n h <? nr then
    match (keys ≫= fun m => m !! skip_id (DR.kemPk h) (DR.n h)) with
    | Some b64 =>
        if bool_decide (b64 = ""%string) then throw "Ratchet Advanced! Cannot decrypt old message" else
        mk ← from_base64 b64;
        Ok (ckr, nr, mk, delete (skip_id (DR.kemPk h) (DR.n h)) <$> keys)
    | None => throw "Ratchet Advanced! Cannot decrypt old message"
    end
  else throw "Message N is older than current state".

Definition burner_receive (s : BurnerState) (h : DR.DoubleRatchetHeader) (ciphertext : bytes)
  (skipped : list DR.skipped_key) : result burner_decrypted :=
  if DR.MAX_SKIP <? DR.n h - Nr s then throw "Too many skipped messages" else
  ckrBytes ← DR.b64ToBytes (CKr s);
  l ← DR.skip_loop (Z.to_nat (DR.n h - Nr s)) (DR.kemPk h) ckrBytes (Nr s) skipped;
  let '(ckr, nr, skipped) := l in
  k ← burner_key ckr nr h (skippedKeys s);
  let '(ckr, nr, mk, keys) := k in
  decrypted ← aead_decrypt (slice_from ciphertext 24) (slice ciphertext 0 24) mk;
  let plaintext := unpadBuffer decrypted (PADDING_BLOCK_SIZE - DR.FINAL_OVERHEAD) in
  let keys := foldl (fun m sk => <[skip_id (DR.sk_kemPk sk) (DR.sk_n sk) := DR.sk_mk sk]> m)
                (default ∅ keys) skipped in
  Ok (mkBDec (mkBurner (RK s) (CKs s) (ckr ≫= b64_or_null) (KEMs_pub s) (KEMs_priv s) (KEMr s)
                (savedCt s) (Ns s) nr (PN s) (Some keys)) plaintext skipped mk).

Definition burner_dr_decrypt (seed rnd : bytes) (s : BurnerState) (h : DR.DoubleRatchetHeader)
  (ciphertext : bytes) : result burner_decrypted :=
  hk ← DR.b64ToBytes (Some (DR.kemPk h));
  headerCt ← DR.b64ToBytes (Some (DR.ct h));
  match hk return result burner_decrypted with
  | None => throw "Missing kemPk in header"
  | Some headerKemPk =>
      rkb ← DR.b64ToBytes (RK s);
      match rkb return result burner_decrypted with
      | None => throw "RK is missing"
      | Some rk =>
          stateKemR ← DR.b64ToBytes (KEMr s);
          st ← (if is_new_key headerKemPk stateKemR
                then burner_step seed rnd s rk h headerKemPk headerCt else Ok (s, []));
          let '(s, skipped) := st in
          burner_receive s h ciphertext skipped
      end
  end.

End Ops.
End Burner.

(** ** Behaviour *)
Section BurnerLemmas.
Import Burner.
Context `{SodiumLaws}.

Lemma b64_or_null_some b : b <> [] -> b64_or_null b = Some (to_base64 b).
Proof.
  intros Hb. unfold b64_or_null. rewrite bool_decide_eq_false_2; [done|].
  intros E. by apply base64_empty in E.
Qed.

Lemma read_some b : b <> [] -> DR.b64ToBytes (Some (to_base64 b)) = Ok (Some b).
Proof. apply b64ToBytes_some. Qed.

(** A guest's run: the state after sending a list of messages. *)
Fixpoint sends (s : BurnerState) (l : list (bytes * bytes)) : result BurnerState :=
  match l with
  | [] => Ok s
  | (nonce, p) :: l' => r ← burner_dr_encrypt nonce s p; sends r.1.1.1 l'
  end.

Definition at_position (s : BurnerState) (ck : bytes) (k : nat) : BurnerState :=
  mkBurner (RK s) (Some (to_base64 (chain_key ck k))) (CKr s) (KEMs_pub s) (KEMs_priv s) (KEMr s)
    (savedCt s) (Z.of_nat k) (Nr s) (PN s) (skippedKeys s).

Lemma burner_encrypt_spec nonce s ck k p :
  blen ck = 32 ->
  burner_dr_encrypt nonce (at_position s ck k) p =
    Ok (at_position s ck (S k),
        DR.mkHeader (default "" (KEMs_pub s)) (default "" (savedCt s)) (Z.of_nat k) (PN s),
        nonce ++ aead_encrypt p nonce (msg_key ck k), msg_key ck k).
Proof.
  intros Hck. unfold burner_dr_encrypt, at_position. cbn [CKs KEMs_pub savedCt Ns PN].
  rewrite read_some, bind_ok by auto with nyx.
  destruct (kdfChain (chain_key ck k)) as [nk mk] eqn:E.
  assert (Hm : msg_key ck k = mk) by (unfold msg_key; by rewrite E).
  assert (Hn : chain_key ck (S k) = nk) by (cbn [chain_key]; by rewrite E).
  rewrite combine_ok, bind_ok, Hm, Hn, b64_or_null_some.
  - replace (Z.of_nat k + 1) with (Z.of_nat (S k)) by lia. done.
  - rewrite <- Hn. auto with nyx.
Qed.

Lemma sends_spec s ck l : forall k,
  blen ck = 32 -> sends (at_position s ck k) l = Ok (at_position s ck (k + length l)).
Proof.
  induction l as [|[nonce p] l IH]; intros k Hck; cbn [sends length]; [by rewrite Nat.add_0_r|].
  rewrite burner_encrypt_spec, bind_ok by done. cbn [fst]. rewrite IH by done. do 2 f_equal. lia.
Qed.

(** What both ends know after the handshake. *)
Definition kdf64 (ss : bytes) : bytes := generichash 64 ss None.
Lemma kdf64_parts ss : blen (slice (kdf64 ss) 0 32) = 32 /\ blen (slice (kdf64 ss) 32 64) = 32.
Proof.
  pose proof (hash_length 64 ss None ltac:(lia)). unfold kdf64. by rewrite !blen_slice by lia.
Qed.

(** The state of a host that has not received anything yet. *)
Definition host_state (ss : bytes) : BurnerState :=
  mkBurner (Some (to_base64 (slice (kdf64 ss) 0 32))) None
    (Some (to_base64 (slice (kdf64 ss) 32 64))) None None None None 0 0 0 (Some ∅).

Lemma burner_key_next ck k h keys :
  DR.n h = Z.of_nat k ->
  burner_key (Some (chain_key ck k)) (Z.of_nat k) h keys =
    Ok (Some (chain_key ck (S k)), Z.of_nat (S k), msg_key ck k, keys).
Proof.
  intros Hh. unfold burner_key. rewrite Hh, Z.eqb_refl.
  destruct (kdfChain (chain_key ck k)) as [nk mk] eqn:E.
  assert (Hm : msg_key ck k = mk) by (unfold msg_key; by rewrite E).
  assert (Hn : chain_key ck (S k) = nk) by (cbn [chain_key]; by rewrite E).
  rewrite Hm, Hn. do 2 f_equal. f_equal. f_equal. lia.
Qed.

Lemma burner_receive_next s ck k h nonce p skipped :
  blen ck = 32 -> CKr s = Some (to_base64 ck) -> Nr s = 0 -> DR.n h = Z.of_nat k ->
  Z.of_nat k <= DR.MAX_SKIP -> blen nonce = 24 ->
  exists d, burner_receive s h (nonce ++ aead_encrypt p nonce (msg_key ck k)) skipped = Ok d /\
    bd_plaintext d = unpadBuffer p 8152.
Proof.
  intros Hck Hckr Hnr Hn Hmax Hnon. unfold burner_receive. rewrite Hckr, Hnr, Hn, Z.sub_0_r.
  replace (DR.MAX_SKIP <? _) with false by (symmetry; apply Z.ltb_ge; lia).
  rewrite read_some, bind_ok by auto with nyx. rewrite Nat2Z.id.
  pose proof (skip_loop_ok (DR.kemPk h) ck k 0 skipped) as Hl. 
  cbn [chain_key Nat.add] in Hl. change (Z.of_nat 0) with 0 in Hl.
  rewrite Hl, bind_ok. rewrite burner_key_next, bind_ok by done.
  destruct (split_combined nonce (aead_encrypt p nonce (msg_key ck k)) Hnon) as [-> ->].
  rewrite aead_correct, bind_ok. eexists. split; [reflexivity|]. done.
Qed.

Lemma u8_set_whole a b : blen a = blen b -> u8_set a 0 b = Ok b.
Proof.
  intros Hl. unfold u8_set. rewrite Hl, Z.add_0_l, !Z.ltb_irrefl. cbn [orb].
  rewrite drop_ge by (unfold blen in *; lia). by rewrite app_nil_r.
Qed.

(** The host's first ratchet step keeps the receiving chain of the handshake. *)
Lemma host_first_step seed rnd ss gseed hct h :
  DR.pn h = 0 ->
  exists s', burner_step seed rnd (host_state ss) (slice (kdf64 ss) 0 32) h
    (kem_keypair gseed).1 (Some hct) = Ok (s', []) /\
    CKr s' = Some (to_base64 (slice (kdf64 ss) 32 64)) /\ Nr s' = 0.
Proof.
  intros Hpn. destruct (kdf64_parts ss) as [L1 L2].
  destruct (kem_correct gseed rnd) as (ct2 & ss2 & Henc & _ & _ & _).
  unfold burner_step, host_state. cbn [CKr KEMr Nr Ns skippedKeys]. rewrite Hpn.
  rewrite read_some, bind_ok by auto with nyx. rewrite bind_ok.
  change (DR.MAX_SKIP <? 0 - 0) with false. unfold burner_recv. cbn [KEMs_priv].
  change (DR.b64ToBytes None) with (@Ok (option bytes) None).
  rewrite !bind_ok, Henc, bind_ok. cbn [snd fst].
  rewrite root_input_ok, bind_ok by done.
  set (k2 := generichash 64 _ None).
  assert (Hk2 : blen (slice k2 0 32) = 32).
  { pose proof (hash_length 64 (slice (kdf64 ss) 0 32 ++ ss2) None ltac:(lia)).
    apply blen_slice; subst k2; lia. }
  rewrite u8_set_whole, bind_ok by lia. by eexists.
Qed.

(** The handshake and the guest's messages of the first chain. *)
Lemma first_flight hostSeed guestSeed rnd l nonce p seed' rnd' :
  Z.of_nat (length l) <= 1000 -> blen nonce = 24 ->
  exists g ct h0 gk r,
    burner_dr_init_guest guestSeed rnd (kem_keypair hostSeed).1 = Ok g /\
    DR.b64ToBytes (savedCt g) = Ok (Some ct) /\
    burner_dr_init_host ct (kem_keypair hostSeed).2 = Ok h0 /\
    sends g l = Ok gk /\ burner_dr_encrypt nonce gk p = Ok r /\
    exists d, burner_dr_decrypt seed' rnd' h0 r.1.1.2 r.1.2 = Ok d /\
      bd_plaintext d = unpadBuffer p 8152.
Proof.
  intros Hk Hnon.
  destruct (kem_correct hostSeed rnd) as (ct & ss & Henc & Hdec & Hlc & _).
  destruct (kdf64_parts ss) as [L1 L2].
  assert (Hct : ct <> []) by (by intros ->).
  assert (Hpk : forall sd, (kem_keypair sd).1 <> []).
  { intros sd E. pose proof (kem_pk_length sd). by rewrite E in *. }
  set (ck := slice (kdf64 ss) 32 64) in *.
  pose (g := mkBurner (Some (to_base64 (slice (kdf64 ss) 0 32))) (Some (to_base64 ck)) None
    (Some (to_base64 (kem_keypair guestSeed).1)) (Some (to_base64 (kem_keypair guestSeed).2))
    (Some (to_base64 (kem_keypair hostSeed).1)) (Some (to_base64 ct)) 0 0 0 None).
  assert (Hgp : g = at_position g ck 0) by done.
  exists g, ct, (host_state ss), (at_position g ck (length l)). eexists. split_and!.
  - unfold burner_dr_init_guest. rewrite Henc, bind_ok. cbn [fst snd]. fold (kdf64 ss).
    by rewrite !b64_or_null_some by (auto using kem_sk_nonempty with nyx).
  - by apply read_some.
  - unfold burner_dr_init_host. rewrite Hdec, bind_ok. fold (kdf64 ss).
    by rewrite !b64_or_null_some by auto with nyx.
  - rewrite Hgp at 1. by apply sends_spec.
  - by apply burner_encrypt_spec.
  - cbn [fst snd g KEMs_pub savedCt PN default from_option]. unfold burner_dr_decrypt, Datatypes.id.
    cbn [DR.kemPk DR.ct].
    rewrite (read_some (kem_keypair guestSeed).1), bind_ok by done.
    rewrite (read_some ct), bind_ok by done.
    cbn [host_state RK KEMr]. rewrite read_some, bind_ok by auto with nyx.
    change (DR.b64ToBytes None) with (@Ok (option bytes) None).
    rewrite bind_ok. cbn [is_new_key].
    destruct (host_first_step seed' rnd' ss guestSeed ct (DR.mkHeader
      (to_base64 (kem_keypair guestSeed).1) (to_base64 ct) (Z.of_nat (length l)) 0) eq_refl)
      as (s' & Es & Hckr & Hnr).
    rewrite Es, bind_ok.
    by apply (burner_receive_next s' ck (length l)).
Qed.

(** The first flight of a burner chat. The handshake of guest and host always
    succeeds on both sides; message number [k] of the guest, for any [k] up to
    1000 and whether or not the earlier ones arrive, is then accepted by the host,
    and what the host shows is the plaintext with a trailing padding marker
    (0x80 and zeros) cut off. *)
Theorem burner_first_flight hostSeed guestSeed rnd l nonce p seed' rnd' :
  Z.of_nat (length l) <= 1000 -> blen nonce = 24 ->
  exists g ct h0 gk r,
    burner_dr_init_guest guestSeed rnd (kem_keypair hostSeed).1 = Ok g /\
    DR.b64ToBytes (savedCt g) = Ok (Some ct) /\
    burner_dr_init_host ct (kem_keypair hostSeed).2 = Ok h0 /\
    sends g l = Ok gk /\ burner_dr_encrypt nonce gk p = Ok r /\
    exists d, burner_dr_decrypt seed' rnd' h0 r.1.1.2 r.1.2 = Ok d /\
      bd_plaintext d = unpadBuffer p 8152.
Proof. apply first_flight. Qed.

(** A burner message whose text ends in the byte 0x80 is cut short: the
    sender does not pad, the receiver still strips the padding marker, so the
    message "À" (bytes C3 80) arrives as the single byte C3. *)
Theorem burner_truncates hostSeed guestSeed rnd nonce seed' rnd' :
  blen nonce = 24 ->
  exists g ct h0 r d,
    burner_dr_init_guest guestSeed rnd (kem_keypair hostSeed).1 = Ok g /\
    DR.b64ToBytes (savedCt g) = Ok (Some ct) /\
    burner_dr_init_host ct (kem_keypair hostSeed).2 = Ok h0 /\
    burner_dr_encrypt nonce g [xc3; x80] = Ok r /\
    burner_dr_decrypt seed' rnd' h0 r.1.1.2 r.1.2 = Ok d /\ bd_plaintext d = [xc3].
Proof.
  intros Hnon.
  destruct (first_flight hostSeed guestSeed rnd [] nonce [xc3; x80] seed' rnd' ltac:(cbn; lia) Hnon)
    as (g & ct & h0 & gk & r & Hg & Hct & Hh & Hs & He & d & Hd & Hp).
  injection Hs as <-. exists g, ct, h0, r, d. split_and!; done.
Qed.

Definition with_keys (s : BurnerState) (keys : option (gmap string string)) : BurnerState :=
  mkBurner (RK s) (CKs s) (CKr s) (KEMs_pub s) (KEMs_priv s) (KEMr s) (savedCt s) (Ns s) (Nr s)
    (PN s) keys.

(** The plaintext and the message key of a run, or its error. *)
Definition visible (r : result burner_decrypted) : result (bytes * bytes) :=
  d ← r; Ok (bd_plaintext d, bd_mk d).

Lemma step_keys seed rnd s keys rk h hk hct :
  burner_step seed rnd (with_keys s keys) rk h hk hct =
    (r ← burner_step seed rnd s rk h hk hct; Ok (with_keys r.1 keys, r.2)).
Proof.
  unfold burner_step, burner_recv, with_keys. cbn [CKr KEMr Nr Ns KEMs_priv skippedKeys].
  destruct (DR.MAX_SKIP <? _); [done|].
  destruct (DR.b64ToBytes (CKr s)) as [ckb|]; [|done]. rewrite !bind_ok.
  destruct (match ckb, KEMr s with Some _, Some _ => _ | _, _ => _ end) as [[ckr sk]|]; [|done].
  rewrite !bind_ok.
  destruct (DR.b64ToBytes (KEMs_priv s) ≫= _) as [[rk1 ckr1]|]; [|done]. rewrite !bind_ok.
  destruct (kem_enc hk rnd) as [r|]; [|done]. rewrite !bind_ok.
  destruct (DR.root_input rk1 r.2) as [i|]; [|done]. rewrite !bind_ok.
  by destruct (u8_set rk1 0 _).
Qed.

Lemma skip_loop_position label k : forall ckr nr acc ckr' nr' l,
  DR.skip_loop k label ckr nr acc = Ok (ckr', nr', l) -> nr' = nr + Z.of_nat k.
Proof.
  induction k as [|k IH]; intros ckr nr acc ckr' nr' l Hs; cbn [DR.skip_loop] in Hs; [by simplify_eq; lia|].
  destruct ckr as [ck|]; [|done]. destruct (kdfChain ck) as [a b]. apply IH in Hs. lia.
Qed.

Lemma receive_keys s keys1 keys2 h c skipped :
  Nr s = 0 -> 0 <= DR.n h ->
  visible (burner_receive (with_keys s keys1) h c skipped) =
  visible (burner_receive (with_keys s keys2) h c skipped).
Proof.
  intros Hnr Hn. unfold burner_receive, with_keys. cbn [CKr Nr RK CKs KEMs_pub KEMs_priv KEMr
    savedCt Ns PN skippedKeys]. rewrite Hnr.
  destruct (DR.MAX_SKIP <? _); [done|].
  destruct (DR.b64ToBytes (CKr s)) as [ckb|]; [|done]. rewrite !bind_ok.
  destruct (DR.skip_loop _ _ _ _ _) as [[[ckr nr] sk]|] eqn:El; [|done]. rewrite !bind_ok.
  apply skip_loop_position in El. unfold burner_key.
  replace (nr =? DR.n h) with true by (symmetry; apply Z.eqb_eq; lia).
  destruct ckr as [ck|]; [|done]. destruct (kdfChain ck) as [nk mk]. rewrite !bind_ok.
  by destruct (aead_decrypt _ _ _).
Qed.

Lemma step_resets seed rnd s rk h hk hct r :
  burner_step seed rnd s rk h hk hct = Ok r -> Nr r.1 = 0.
Proof.
  unfold burner_step, burner_recv. intros Hs. destruct (DR.MAX_SKIP <? _); [done|].
  destruct (DR.b64ToBytes (CKr s)) as [ckb|]; [|done]. rewrite bind_ok in Hs.
  destruct (match ckb, KEMr s with Some _, Some _ => _ | _, _ => _ end) as [[ckr sk]|]; [|done].
  rewrite bind_ok in Hs.
  destruct (DR.b64ToBytes (KEMs_priv s) ≫= _) as [[rk1 ckr1]|]; [|done]. rewrite bind_ok in Hs.
  destruct (kem_enc hk rnd) as [p|]; [|done]. rewrite bind_ok in Hs.
  destruct (DR.root_input rk1 p.2) as [i|]; [|done]. rewrite bind_ok in Hs.
  destruct (u8_set rk1 0 _); [|done]. rewrite bind_ok in Hs. by injection Hs as <-.
Qed.

(** A late message of an earlier chain never sees the skipped keys: for a
    header whose KEM key differs from the current one, the outcome of
    [burner_dr_decrypt] (plaintext and message key, or the error) is the same
    whatever skipped keys the state holds, so a key the pre-ratchet loop stored
    for a message still in flight cannot open it. *)
Theorem burner_old_chain_ignores_skipped seed rnd s keys1 keys2 h hk kr c :
  DR.b64ToBytes (Some (DR.kemPk h)) = Ok (Some hk) ->
  DR.b64ToBytes (KEMr s) = Ok (Some kr) -> hk <> kr -> 0 <= DR.n h ->
  visible (burner_dr_decrypt seed rnd (with_keys s keys1) h c) =
  visible (burner_dr_decrypt seed rnd (with_keys s keys2) h c).
Proof.
  intros Hhk Hkr Hne Hn. unfold burner_dr_decrypt. cbn [with_keys RK KEMr]. rewrite Hhk, !bind_ok.
  destruct (DR.b64ToBytes (Some (DR.ct h))) as [hct|]; [|done]. rewrite !bind_ok.
  destruct (DR.b64ToBytes (RK s)) as [[rk|]|]; [|done..]. rewrite !bind_ok, Hkr, !bind_ok.
  assert (Hnew : is_new_key hk (Some kr) = true).
  { unfold is_new_key. rewrite (bool_decide_eq_false_2 (hk = kr)) by done. apply orb_true_r. }
  rewrite Hnew, !step_keys.
  destruct (burner_step seed rnd s rk h hk hct) as [[s' sk]|] eqn:Es; [|done]. rewrite !bind_ok.
  apply step_resets in Es. by apply receive_keys.
Qed.
End BurnerLemmas.

Section BurnerWitness.
Import Toy Burner.

Lemma burner_first_flight_witness :
  exists g, burner_dr_init_guest [x01] [x02] (kem_keypair [x03]).1 = Ok g.
Proof.
  destruct (burner_first_flight [x03] [x01] [x02] [(zeros 24, [x41])] (zeros 24) [x42] [x04] [x05]
    ltac:(cbn; lia) eq_refl) as (g & ct & h0 & gk & r & Hg & _).
  exists g. exact Hg.
Defined.

Lemma burner_truncates_witness :
  exists g, burner_dr_init_guest [x01] [x02] (kem_keypair [x03]).1 = Ok g.
Proof.
  destruct (burner_truncates [x03] [x01] [x02] (zeros 24) [x04] [x05] eq_refl)
    as (g & ct & h0 & r & d & Hg & _).
  exists g. exact Hg.
Defined.

Definition late_state : BurnerState :=
  mkBurner (Some (to_base64 (zeros 32))) None None None None (Some (to_base64 [x01])) None 0 0 0 None.
Definition late_header : DR.DoubleRatchetHeader := DR.mkHeader (to_base64 [x02]) "" 4 0.

Lemma burner_old_chain_ignores_skipped_witness :
  visible (burner_dr_decrypt [x04] [x05] (with_keys late_state None) late_header [x06]) =
  visible (burner_dr_decrypt [x04] [x05]
    (with_keys late_state (Some {[ skip_id (DR.kemPk late_header) 4 := "bWs"%string ]}))
    late_header [x06]).
Proof.
  apply (burner_old_chain_ignores_skipped [x04] [x05] late_state None
    (Some {[ skip_id (DR.kemPk late_header) 4 := "bWs"%string ]}) late_header [x02] [x01] [x06]);
    [vm_compute; reflexivity|vm_compute; reflexivity|discriminate|cbn; lia].
Defined.
End BurnerWitness.
