(* ===== verification/SwMutex.v ===== *)
(** The cross-tab mutex of web/src/lib/swMutexCore.ts: the registry kept by the
    service worker, its requests, and lease safety and liveness. *)
From S2P Require Import Prelude.

Module SwMutex.

Definition LOCK_STALE_MS : Z := 4000.

Record MutexEntry := mkEntry { holderId : string; lastBeat : Z }.
Abbreviation MutexRegistry := (gmap string MutexEntry).

Inductive request_kind := ACQUIRE | HEARTBEAT | RELEASE.
Record MutexRequest := mkReq { kind : request_kind; lockName : string; req_holder : string; now : Z }.

Inductive holder_view := You | OtherTab | Nobody.
Record MutexResponse := mkResp { granted : bool; holder : holder_view }.

Definition createMutexRegistry : MutexRegistry := ∅.

Definition sweepStaleLocks (r : MutexRegistry) (t : Z) : MutexRegistry :=
  filter (fun e => ~ (t - lastBeat e.2 > LOCK_STALE_MS)) r.

Definition acquireLock (r : MutexRegistry) (q : MutexRequest) : MutexRegistry * MutexResponse :=
  let r := sweepStaleLocks r (now q) in
  match r !! lockName q with
  | Some existing =>
      if negb (bool_decide (holderId existing = req_holder q)) then (r, mkResp false OtherTab)
      else (<[lockName q := mkEntry (req_holder q) (now q)]> r, mkResp true You)
  | None => (<[lockName q := mkEntry (req_holder q) (now q)]> r, mkResp true You)
  end.

Definition heartbeatLock (r : MutexRegistry) (q : MutexRequest) : MutexRegistry * MutexResponse :=
  let r := sweepStaleLocks r (now q) in
  match r !! lockName q with
  | None => (r, mkResp false Nobody)
  | Some existing =>
      if negb (bool_decide (holderId existing = req_holder q)) then (r, mkResp false OtherTab)
      else (<[lockName q := mkEntry (holderId existing) (now q)]> r, mkResp true You)
  end.

Definition releaseLock (r : MutexRegistry) (q : MutexRequest) : MutexRegistry * MutexResponse :=
  let r := sweepStaleLocks r (now q) in
  match r !! lockName q with
  | None => (r, mkResp false Nobody)
  | Some existing =>
      if negb (bool_decide (holderId existing = req_holder q)) then (r, mkResp false OtherTab)
      else (delete (lockName q) r, mkResp true You)
  end.

Definition handleMutexRequest (r : MutexRegistry) (q : MutexRequest) : MutexRegistry * MutexResponse :=
  match kind q with
  | ACQUIRE => acquireLock r q
  | HEARTBEAT => heartbeatLock r q
  | RELEASE => releaseLock r q
  end.

(** The service worker handles messages one at a time. *)
Fixpoint run (r : MutexRegistry) (qs : list MutexRequest) : MutexRegistry * list MutexResponse :=
  match qs with
  | [] => (r, [])
  | q :: qs' =>
      let '(r', a) := handleMutexRequest r q in
      let '(r'', l) := run r' qs' in (r'', a :: l)
  end.

End SwMutex.

Section MutexLemmas.
Import SwMutex.

Lemma sweep_lookup r t k :
  sweepStaleLocks r t !! k =
    match r !! k with
    | Some e => if decide (t - lastBeat e > LOCK_STALE_MS) then None else Some e
    | None => None
    end.
Proof.
  unfold sweepStaleLocks. destruct (r !! k) as [e|] eqn:E.
  - destruct (decide (t - lastBeat e > LOCK_STALE_MS)) as [Hs|Hs].
    + apply map_lookup_filter_None. right. intros x Hx. rewrite E in Hx. injection Hx as <-. cbn. tauto.
    + by apply map_lookup_filter_Some.
  - apply map_lookup_filter_None. by left.
Qed.

(** What tab [h] may rely on: it holds [l], last confirmed at [b]. *)
Definition leased (r : MutexRegistry) (l h : string) (b : Z) : Prop := r !! l = Some (mkEntry h b).

(** A request that does not give the lock away, handled within the lease. *)
Lemma lease_step r l h b q :
  leased r l h b -> now q - b <= LOCK_STALE_MS ->
  ~ (kind q = RELEASE /\ lockName q = l /\ req_holder q = h) ->
  let '(r', a) := handleMutexRequest r q in
  (exists b', leased r' l h b' /\ (b' = b \/ b' = now q)) /\
  (lockName q = l -> req_holder q <> h -> granted a = false).
Proof.
  intros Hl Hlease Hrel. unfold leased in *.
  assert (Hs : sweepStaleLocks r (now q) !! l = Some (mkEntry h b)).
  { rewrite sweep_lookup, Hl. cbn. by rewrite decide_False by lia. }
  unfold handleMutexRequest, acquireLock, heartbeatLock, releaseLock.
  destruct (decide (lockName q = l)) as [Hln|Hne].
  - rewrite Hln, Hs. cbn [holderId].
    destruct (decide (h = req_holder q)) as [->|Hh].
    + rewrite bool_decide_eq_true_2 by done. cbn [negb].
      destruct (kind q) eqn:Ek; [| |by destruct Hrel]; (split; [|done]); eexists;
        (split; [apply lookup_insert_eq|by right]).
    + rewrite bool_decide_eq_false_2 by done. cbn [negb].
      destruct (kind q); (split; [exists b; auto|done]).
  - assert (Hno : forall e, <[lockName q := e]> (sweepStaleLocks r (now q)) !! l = Some (mkEntry h b))
      by (intros e; by rewrite lookup_insert_ne).
    destruct (kind q); destruct (sweepStaleLocks r (now q) !! lockName q) as [x|];
      try destruct (negb _); (split; [exists b; split; [|by left]|done]); try done.
    by rewrite lookup_delete_ne.
Qed.

Lemma lease_run qs : forall r l h b t,
  leased r l h b -> b >= t ->
  Forall (fun q => t <= now q <= t + LOCK_STALE_MS) qs ->
  Forall (fun q => ~ (kind q = RELEASE /\ lockName q = l /\ req_holder q = h)) qs ->
  let '(r', answers) := run r qs in
  (exists b', leased r' l h b' /\ b' >= t) /\
  Forall2 (fun q a => lockName q = l -> req_holder q <> h -> granted a = false) qs answers.
Proof.
  induction qs as [|q qs IH]; intros r l h b t Hl Hb Ht Hr; [split; [by exists b|constructor]|].
  apply Forall_cons in Ht as [Hq Ht], Hr as [Hrq Hr]. cbn [run].
  pose proof (lease_step r l h b q Hl ltac:(lia) Hrq) as Hs.
  destruct (handleMutexRequest r q) as [r' a]. destruct Hs as [(b' & Hl' & Hb') Ha].
  specialize (IH r' l h b' t Hl' ltac:(lia) Ht Hr).
  destruct (run r' qs) as [r'' answers]. destruct IH as [Hex Hall]. split; [done|by constructor].
Qed.

(** C10: mutual exclusion of the cross-tab lock. After tab [h] was granted lock [l]
    at time [t] (by acquiring it or by a heartbeat), and as long as it does not
    release it, no other tab is granted [l] by any sequence of requests handled
    within the lease [t, t + LOCK_STALE_MS], and [h] still holds it afterwards. *)
Theorem mutex_exclusion r l h t qs k :
  (k = ACQUIRE \/ k = HEARTBEAT) ->
  granted (handleMutexRequest r (mkReq k l h t)).2 = true ->
  Forall (fun q => t <= now q <= t + LOCK_STALE_MS) qs ->
  Forall (fun q => ~ (kind q = RELEASE /\ lockName q = l /\ req_holder q = h)) qs ->
  let '(r', answers) := run (handleMutexRequest r (mkReq k l h t)).1 qs in
  (exists b, r' !! l = Some (mkEntry h b)) /\
  Forall2 (fun q a => lockName q = l -> req_holder q <> h -> granted a = false) qs answers.
Proof.
  intros Hk Hg Ht Hr.
  assert (Hl : leased (handleMutexRequest r (mkReq k l h t)).1 l h t).
  { revert Hg. unfold leased, handleMutexRequest, acquireLock, heartbeatLock.
    cbn [kind lockName req_holder now]. destruct Hk as [-> | ->];
      destruct (sweepStaleLocks r t !! l) as [[h' b']|]; cbn; try done.
    - destruct (bool_decide (h' = h)); cbn; [|done]. intros _. apply lookup_insert_eq.
    - intros _. apply lookup_insert_eq.
    - case_bool_decide as Hh; cbn; [|done]. intros _. subst. apply lookup_insert_eq. }
  pose proof (lease_run qs _ l h t t Hl ltac:(lia) Ht Hr) as H.
  destruct (run _ qs) as [r' answers]. destruct H as [(b & Hb & _) Hall]. split; [by exists b|done].
Qed.

(** A crashed tab does not block the others: when the last heartbeat of the
    holder is older than LOCK_STALE_MS, or nobody holds the lock, the next request
    to acquire it is granted, whoever sends it. *)
Theorem mutex_takeover r l h t :
  (forall e, r !! l = Some e -> t - lastBeat e > LOCK_STALE_MS) ->
  handleMutexRequest r (mkReq ACQUIRE l h t) =
    (<[l := mkEntry h t]> (sweepStaleLocks r t), mkResp true You).
Proof.
  intros Hstale. unfold handleMutexRequest, acquireLock. cbn [kind lockName req_holder now].
  rewrite sweep_lookup. destruct (r !! l) as [e|] eqn:E; [|done].
  rewrite decide_True by (by apply Hstale). done.
Qed.

Lemma mutex_exclusion_witness :
  let '(r', answers) := run (handleMutexRequest ∅ (mkReq ACQUIRE "k" "tab1" 100)).1
    [mkReq ACQUIRE "k" "tab2" 4100] in
  (exists b, r' !! "k"%string = Some (mkEntry "tab1" b)) /\
  Forall2 (fun q a => lockName q = "k"%string -> req_holder q <> "tab1"%string -> granted a = false)
    [mkReq ACQUIRE "k" "tab2" 4100] answers.
Proof.
  apply (mutex_exclusion ∅ "k" "tab1" 100 [mkReq ACQUIRE "k" "tab2" 4100] ACQUIRE).
  - by left.
  - vm_compute. reflexivity.
  - apply Forall_cons. split; [unfold LOCK_STALE_MS; cbn; lia|constructor].
  - apply Forall_cons. split; [cbn; intros [E _]; discriminate E|constructor].
Defined.

Lemma mutex_takeover_witness :
  handleMutexRequest {[ "k"%string := mkEntry "tab1" 100 ]} (mkReq ACQUIRE "k" "tab2" 4101) =
    (<[ "k"%string := mkEntry "tab2" 4101 ]>
       (sweepStaleLocks {[ "k"%string := mkEntry "tab1" 100 ]} 4101), mkResp true You).
Proof.
  apply (mutex_takeover {[ "k"%string := mkEntry "tab1" 100 ]} "k" "tab2" 4101).
  intros e He. apply lookup_singleton_Some in He as [_ <-]. cbn. unfold LOCK_STALE_MS. lia.
Defined.
End MutexLemmas.
