(* ===== verification/Presence.v ===== *)
(** Opt-in presence of the server: the two in-memory maps of
    server/src/utils/presenceSubscriptions.ts and the peer computations of
    server/src/utils/presencePeers.ts. *)
From S2P Require Import Prelude.

Module Presence.

Definition MAX_PRESENCE_SUBSCRIPTIONS : nat := 1000.

(** [subscriptions]: subscriber to peers; [watchers]: peer to subscribers. *)
Record registry := mkRegistry {
  subscriptions : gmap string (gset string);
  watchers : gmap string (gset string) }.

(** A [Set] filled in order: first occurrences, in order. *)
Fixpoint dedupe (seen : list string) (ids : list string) : list string :=
  match ids with
  | [] => []
  | id :: rest =>
      if bool_decide (id ∈ seen) then dedupe seen rest else id :: dedupe (id :: seen) rest
  end.

Definition normalize (ids : list string) (selfId : string) : list string :=
  dedupe [] (filter (fun id => id <> ""%string /\ id <> selfId) ids).

(** One iteration of the loop over the peers that are dropped. *)
Definition drop_watcher (subscriberId : string) (w : gmap string (gset string)) (peerId : string)
  : gmap string (gset string) :=
  match w !! peerId with
  | None => w
  | Some set =>
      let set := set ∖ {[ subscriberId ]} in
      if bool_decide (set = ∅) then delete peerId w else <[peerId := set]> w
  end.

Definition clearPresenceSubscriptions (r : registry) (subscriberId : string) : registry :=
  match subscriptions r !! subscriberId with
  | None => r
  | Some current =>
      mkRegistry (delete subscriberId (subscriptions r))
        (foldl (drop_watcher subscriberId) (watchers r) (elements current))
  end.

Definition add_watcher (subscriberId : string) (w : gmap string (gset string)) (peerId : string)
  : gmap string (gset string) :=
  <[peerId := default ∅ (w !! peerId) ∪ {[ subscriberId ]}]> w.

Definition subscribePresence (r : registry) (subscriberId : string) (peerIds : list string)
  : registry * list string :=
  let next := take MAX_PRESENCE_SUBSCRIPTIONS (normalize peerIds subscriberId) in
  let r := clearPresenceSubscriptions r subscriberId in
  match next with
  | [] => (r, next)
  | _ =>
      (mkRegistry (<[subscriberId := list_to_set next]> (subscriptions r))
         (foldl (add_watcher subscriberId) (watchers r) next), next)
  end.

Definition isWatchingPresence (r : registry) (subscriberId peerId : string) : bool :=
  match subscriptions r !! subscriberId with
  | Some set => bool_decide (peerId ∈ set)
  | None => false
  end.

Definition presenceWatchersOf (r : registry) (peerId : string) : list string :=
  match watchers r !! peerId with Some set => elements set | None => [] end.

Definition clearAllPresenceSubscriptions (r : registry) : registry := mkRegistry ∅ ∅.

(** [send] may throw for a target; the count is of the sends that did not. *)
Definition notifyPresenceWatchers (r : registry) (peerId : string) (send : string -> bool) : nat :=
  foldl (fun sent target => if send target then S sent else sent) 0%nat (presenceWatchersOf r peerId).

(** presencePeers.ts: rows carry a user id or [null]. *)
Definition dedupePeers (mine : list string) (peers : list (option string)) (selfId : string)
  : list string :=
  match mine with
  | [] => []
  | _ =>
      dedupe [] (omap (fun row => match row with
        | Some candidate =>
            if bool_decide (candidate = ""%string) then None
            else if bool_decide (candidate = selfId) then None else Some candidate
        | None => None end) peers)
  end.

Definition intersectOnline (peers : list string) (online : gset string) : list string :=
  filter (fun p => p ∈ online) peers.

End Presence.

Section PresenceLemmas.
Import Presence.

Definition watch_set (m : gmap string (gset string)) (k : string) : gset string := default ∅ (m !! k).

(** [watchers] is the inverse of [subscriptions]; neither keeps empty sets; nobody
    watches itself or more than the cap. *)
Record presence_ok (r : registry) : Prop := {
  po_inverse : forall s p, s ∈ watch_set (watchers r) p <-> p ∈ watch_set (subscriptions r) s;
  po_subs : forall s set, subscriptions r !! s = Some set ->
    set <> ∅ /\ s ∉ set /\ (size set <= MAX_PRESENCE_SUBSCRIPTIONS)%nat;
  po_watch : forall p set, watchers r !! p = Some set -> set <> ∅ }.

Lemma drop_watcher_set s w p q :
  watch_set (drop_watcher s w p) q =
    if decide (p = q) then watch_set w q ∖ {[ s ]} else watch_set w q.
Proof.
  unfold drop_watcher, watch_set. destruct (w !! p) as [set|] eqn:E.
  - case_bool_decide as He; destruct (decide (p = q)) as [->|Hne].
    + rewrite lookup_delete_eq, E. cbn. done.
    + by rewrite lookup_delete_ne.
    + by rewrite lookup_insert_eq, E.
    + by rewrite lookup_insert_ne.
  - destruct (decide (p = q)) as [->|]; [|done]. rewrite E. cbn. set_solver.
Qed.

Lemma drop_watchers_set s l : forall w q,
  watch_set (foldl (drop_watcher s) w l) q =
    if decide (q ∈ l) then watch_set w q ∖ {[ s ]} else watch_set w q.
Proof.
  induction l as [|p l IH]; intros w q; [done|]. cbn [foldl]. rewrite IH, drop_watcher_set.
  destruct (decide (q ∈ l)), (decide (p = q)) as [->|]; repeat case_decide; set_solver.
Qed.

Lemma drop_watchers_nonempty s l : forall w,
  (forall p set, w !! p = Some set -> set <> ∅) ->
  forall p set, foldl (drop_watcher s) w l !! p = Some set -> set <> ∅.
Proof.
  induction l as [|x l IH]; intros w Hw; [done|]. cbn [foldl]. apply IH. intros p set.
  unfold drop_watcher. destruct (w !! x) as [sx|] eqn:E; [|apply Hw].
  case_bool_decide as He; [rewrite lookup_delete_Some; naive_solver|].
  rewrite lookup_insert_Some. naive_solver.
Qed.

Lemma add_watcher_set s w p q :
  watch_set (add_watcher s w p) q =
    if decide (p = q) then watch_set w q ∪ {[ s ]} else watch_set w q.
Proof.
  unfold add_watcher, watch_set. destruct (decide (p = q)) as [->|].
  - by rewrite lookup_insert_eq.
  - by rewrite lookup_insert_ne.
Qed.

Lemma add_watchers_set s l : forall w q,
  watch_set (foldl (add_watcher s) w l) q =
    if decide (q ∈ l) then watch_set w q ∪ {[ s ]} else watch_set w q.
Proof.
  induction l as [|p l IH]; intros w q; [done|]. cbn [foldl]. rewrite IH, add_watcher_set.
  destruct (decide (q ∈ l)), (decide (p = q)) as [->|]; repeat case_decide; set_solver.
Qed.

Lemma add_watchers_nonempty s l : forall w,
  (forall p set, w !! p = Some set -> set <> ∅) ->
  forall p set, foldl (add_watcher s) w l !! p = Some set -> set <> ∅.
Proof.
  induction l as [|x l IH]; intros w Hw; [done|]. cbn [foldl]. apply IH. intros p set.
  unfold add_watcher. rewrite lookup_insert_Some. set_solver.
Qed.

Lemma dedupe_elem ids : forall seen x, x ∈ dedupe seen ids <-> x ∈ ids /\ x ∉ seen.
Proof.
  induction ids as [|id ids IH]; intros seen x; cbn [dedupe]; [set_solver|].
  case_bool_decide; rewrite ?elem_of_cons, IH; [|rewrite not_elem_of_cons];
    destruct (decide (x = id)) as [->|]; set_solver.
Qed.

Lemma dedupe_nodup ids : forall seen, NoDup (dedupe seen ids).
Proof.
  induction ids as [|id ids IH]; intros seen; cbn [dedupe]; [constructor|].
  case_bool_decide; [apply IH|]. constructor; [|apply IH]. rewrite dedupe_elem. set_solver.
Qed.

Lemma normalize_elem ids self x :
  x ∈ normalize ids self <-> x ∈ ids /\ x <> ""%string /\ x <> self.
Proof. unfold normalize. rewrite dedupe_elem, list_elem_of_filter. set_solver. Qed.

(** Clearing forgets exactly the subscriptions of one client. *)
Lemma clear_spec r s :
  presence_ok r ->
  presence_ok (clearPresenceSubscriptions r s) /\
  forall x, watch_set (subscriptions (clearPresenceSubscriptions r s)) x =
    if decide (x = s) then ∅ else watch_set (subscriptions r) x.
Proof.
  intros [Hi Hs Hw]. unfold clearPresenceSubscriptions.
  destruct (subscriptions r !! s) as [current|] eqn:E.
  - assert (Hsub : forall x, watch_set (delete s (subscriptions r)) x =
      if decide (x = s) then ∅ else watch_set (subscriptions r) x).
    { intros x. unfold watch_set. destruct (decide (x = s)) as [->|];
        [by rewrite lookup_delete_eq|by rewrite lookup_delete_ne]. }
    assert (Hc : watch_set (subscriptions r) s = current) by (unfold watch_set; by rewrite E).
    split; [|exact Hsub]. split; cbn [subscriptions watchers].
    + intros x p. rewrite Hsub, drop_watchers_set. specialize (Hi x p) as Hxp.
      destruct (decide (x = s)) as [->|]; case_decide as Hp; rewrite elem_of_elements in Hp;
        set_solver.
    + intros x set Hx. apply lookup_delete_Some in Hx as [_ Hx]. by apply Hs in Hx.
    + by apply drop_watchers_nonempty.
  - split; [done|]. intros x. destruct (decide (x = s)) as [->|]; [|done].
    unfold watch_set. by rewrite E.
Qed.

Lemma subscribe_ok r s peers : presence_ok r -> presence_ok (subscribePresence r s peers).1.
Proof.
  intros Hr. destruct (clear_spec r s Hr) as [Hc Hsub]. unfold subscribePresence.
  set (next := take _ (normalize peers s)). destruct next as [|a l] eqn:En; [exact Hc|].
  rewrite <- En. destruct Hc as [Hi Hs Hw].
  assert (Hin : forall x, x ∈ next -> x <> s).
  { intros x Hx. subst next. apply elem_of_take in Hx as (i & Hx & _).
    apply list_elem_of_lookup_2, normalize_elem in Hx. tauto. }
  cbn [fst]. split; cbn [subscriptions watchers].
  - intros x p. rewrite add_watchers_set. unfold watch_set at 3.
    destruct (decide (x = s)) as [->|Hne].
    + rewrite lookup_insert_eq. cbn. rewrite elem_of_list_to_set.
      specialize (Hi s p). rewrite Hsub, decide_True in Hi by done. case_decide; set_solver.
    + rewrite lookup_insert_ne by done. specialize (Hi x p). unfold watch_set in Hi at 2.
      rewrite <- Hi. case_decide; set_solver.
  - intros x set Hx. apply lookup_insert_Some in Hx as [[-> <-]|[Hne Hx]]; [|by apply Hs in Hx].
    split_and!.
    + rewrite En. set_solver.
    + rewrite elem_of_list_to_set. intros Hx. by apply Hin in Hx.
    + rewrite size_list_to_set; [subst next; rewrite length_take; lia|].
      eapply sublist_NoDup; [|apply sublist_take]. apply dedupe_nodup.
  - by apply add_watchers_nonempty.
Qed.

(** Operations a connected client or the server may perform. *)
Inductive presence_step (r : registry) : registry -> Prop :=
| ps_subscribe s peers : presence_step r (subscribePresence r s peers).1
| ps_clear s : presence_step r (clearPresenceSubscriptions r s)
| ps_clear_all : presence_step r (clearAllPresenceSubscriptions r).

Lemma presence_ok_empty : presence_ok (mkRegistry ∅ ∅).
Proof.
  split; [done|intros ? ? Hs; cbn in Hs; by rewrite lookup_empty in Hs..].
Qed.

(** The two presence maps never drift apart. In every state the server can
    reach, a client is notified about exactly the peers it asked for: [s] is among
    the watchers of [p] if and only if [s] is subscribed to [p]; nobody watches
    itself, nobody watches more than the cap, and no empty entry is kept. *)
Theorem presence_consistent r :
  rtc presence_step (mkRegistry ∅ ∅) r ->
  (forall s p, s ∈ presenceWatchersOf r p <-> isWatchingPresence r s p = true) /\
  (forall s set, subscriptions r !! s = Some set ->
     set <> ∅ /\ s ∉ set /\ (size set <= MAX_PRESENCE_SUBSCRIPTIONS)%nat).
Proof.
  intros Hr. assert (Hok : presence_ok r).
  { apply (rtc_invariant presence_step presence_ok) with (mkRegistry ∅ ∅);
      [|done|apply presence_ok_empty].
    intros x y Hx [s peers|s|]; [by apply subscribe_ok|by apply clear_spec|apply presence_ok_empty]. }
  split; [|apply Hok]. intros s p. pose proof (po_inverse r Hok s p) as Hi.
  unfold presenceWatchersOf, isWatchingPresence, watch_set in *.
  destruct (watchers r !! p) as [w|], (subscriptions r !! s) as [c|]; cbn in *;
    rewrite ?elem_of_elements, ?bool_decide_eq_true; set_solver.
Qed.

(** Subscribing replaces: afterwards the client watches exactly the ids it
    sent, less itself, empty ids, repetitions and whatever exceeds the cap, and
    the subscriptions of every other client are unchanged. *)
Theorem subscribe_replaces r s peers :
  presence_ok r ->
  let '(r', stored) := subscribePresence r s peers in
  stored = take MAX_PRESENCE_SUBSCRIPTIONS (normalize peers s) /\
  (forall p, isWatchingPresence r' s p = true <-> p ∈ stored) /\
  (forall x p, x <> s -> isWatchingPresence r' x p = isWatchingPresence r x p).
Proof.
  intros Hr. destruct (clear_spec r s Hr) as [_ Hsub].
  assert (Hw : forall r x p, isWatchingPresence r x p = bool_decide (p ∈ watch_set (subscriptions r) x)).
  { intros q x p. unfold isWatchingPresence, watch_set.
    destruct (subscriptions q !! x); [done|]. by rewrite bool_decide_eq_false_2 by set_solver. }
  unfold subscribePresence. set (next := take _ _).
  destruct next as [|a l] eqn:En; split; try done; (split; [|intros x p Hne]).
  - intros p. rewrite Hw, Hsub, decide_True, bool_decide_eq_true by done. set_solver.
  - rewrite !Hw, Hsub. by rewrite decide_False.
  - intros p. rewrite Hw, bool_decide_eq_true. unfold watch_set. cbn [subscriptions].
    rewrite lookup_insert_eq. cbn [default from_option Datatypes.id]. apply elem_of_list_to_set.
  - rewrite !Hw. cbn [subscriptions].
    assert (Hx : forall m (set : gset string), watch_set (<[s := set]> m) x = watch_set m x)
      by (intros m set; unfold watch_set; by rewrite lookup_insert_ne).
    rewrite Hx, Hsub. by rewrite decide_False.
Qed.

Lemma presence_consistent_witness :
  let r := (subscribePresence (mkRegistry ∅ ∅) "a" ["b"; "a"; "b"; "c"]%string).1 in
  ("a"%string ∈ presenceWatchersOf r "c" <-> isWatchingPresence r "a" "c" = true) /\
  isWatchingPresence r "a" "c" = true /\ isWatchingPresence r "a" "a" = false.
Proof.
  split; [ | split; reflexivity ].
  exact (proj1 (presence_consistent
    (subscribePresence (mkRegistry ∅ ∅) "a" ["b"; "a"; "b"; "c"]%string).1
    (rtc_once _ _ (ps_subscribe (mkRegistry ∅ ∅) "a" ["b"; "a"; "b"; "c"]%string))) "a"%string "c"%string).
Defined.

Lemma subscribe_replaces_witness :
  (subscribePresence (mkRegistry ∅ ∅) "a" ["b"; "a"; "b"; "c"]%string).2 = ["b"; "c"]%string.
Proof.
  pose proof (subscribe_replaces (mkRegistry ∅ ∅) "a" ["b"; "a"; "b"; "c"]%string
    presence_ok_empty) as H.
  destruct (subscribePresence _ _ _) as [r' stored]. destruct H as [-> _]. vm_compute. reflexivity.
Defined.
End PresenceLemmas.
