(* ===== verification/AtRest.v ===== *)
(** Values kept in the server's database in a form a dump does not reveal:
    server/src/utils/atRestSecrets.ts. Blind indexes (keyed hashes), token hashes
    and the deterministic sealing under a key ring that can be rotated. *)
From S2P Require Import Prelude Bytes Base64 Utf8 Js PqWire Sodium.
From Stdlib Require Import Ascii.

(** What the server uses of node:crypto and of libsodium's text helpers. *)
Class ServerCrypto := {
  (** [createHmac('sha256', key).update(data).digest()] *)
  hmac_sha256 : bytes -> bytes -> bytes;
  sha256 : bytes -> bytes;
  (** [sodium.to_string] *)
  to_string : bytes -> result jstr }.

Class ServerCryptoLaws `{ServerCrypto, Sodium} := {
  hmac_length : forall k m, blen (hmac_sha256 k m) = 32;
  sha256_length : forall m, blen (sha256 m) = 32;
  to_string_utf8 : forall s, text_ok s = true -> to_string (utf8_encode s) = Ok s;
  (** URLSAFE_NO_PADDING *)
  to_base64_charset : forall b, str_forall is_b64url_char (to_base64 b) = true }.

Module AtRest.
Section Model.
Context `{ServerCrypto, Sodium}.

Definition SEAL_KEY_INFO : jstr := js "NYX_AT_REST_SEAL_V1".
Definition SEAL_KEY_INFO_V2 : jstr := js "NYX_AT_REST_SEAL_V2".
Definition NONCE_BYTES : Z := 24.
Definition SEAL_KEY_MAX : Z := 32.
Definition AT_REST_ENVELOPE_V2 : jstr := js "ENC2".
Definition LEGACY_SEAL_KEY_ID : jstr := js "0".
Definition colon : jstr := js ":".

(** [KEY_ID_RE] *)
Definition key_id_ok (id : jstr) : bool :=
  forallb url_char id && (1 <=? Z.of_nat (length id)) && (Z.of_nat (length id) <=? 16).

Record AtRestSealKey := mkSealKey { sk_id : jstr; sk_key : bytes; sk_nonceKey : bytes }.
Record AtRestKeyring := mkRing { activeId : jstr; ring_keys : list (jstr * AtRestSealKey) }.

(** The environment is read once: [NYX_AT_REST_PEPPER], [NODE_ENV], [JWT_SECRET]. *)
Definition getAtRestPepper (pepper : jstr) (production : bool) (jwtSecret : jstr) : result jstr :=
  let explicit := trim pepper in
  if negb (bool_decide (explicit = [])) then Ok explicit
  else if production then throw "NYX_AT_REST_PEPPER wajib diset di production"
  else Ok (js "dev-pepper:" ++ jwtSecret).

Definition hex_digit (v : Z) : Z := if v <? 10 then 48 + v else 87 + v.
Definition hex (b : bytes) : jstr :=
  concat (map (fun x => [hex_digit (b2z x / 16); hex_digit (b2z x mod 16)]) b).

Definition pepperedIdentifier (pepper value : jstr) : jstr :=
  hex (hmac_sha256 (utf8_encode pepper) (utf8_encode value)).

Definition SHARE_ID_PREFIX : jstr := js "s1_".
Definition SHARE_ID_BODY_LENGTH : Z := 43.

Definition isShareId (value : jsval) : bool :=
  match value with
  | JStr s =>
      let trimmed := trim s in
      startsWith SHARE_ID_PREFIX trimmed &&
      (js_length trimmed =? js_length SHARE_ID_PREFIX + SHARE_ID_BODY_LENGTH) &&
      let body := drop 3 trimmed in forallb url_char body && (Z.of_nat (length body) =? 43)
  | _ => false
  end.

(** [HEX64_RE] *)
Definition hex64 (s : jstr) : bool :=
  forallb (fun c => ((97 <=? c) && (c <=? 102)) || ((48 <=? c) && (c <=? 57))) s &&
  (Z.of_nat (length s) =? 64).

Definition isSearchableIdentifier (value : jsval) : bool :=
  match value with
  | JStr s =>
      let trimmed := trim s in
      if isShareId (JStr trimmed) then true
      else ((js_length trimmed =? 43) && forallb url_char trimmed) || hex64 (toLowerCase trimmed)
  | _ => false
  end.

Definition identifierLookupCandidates (pepper value : jstr) : list jstr :=
  let trimmed := trim value in
  if hex64 (toLowerCase trimmed) then [toLowerCase trimmed] else [pepperedIdentifier pepper trimmed].

Definition hashCredentialToken (token : jstr) : jstr := hex (sha256 (utf8_encode token)).

Definition timingSafeEqualStr (a b : jstr) : bool :=
  if negb (blen (utf8_encode a) =? blen (utf8_encode b)) then false
  else bool_decide (utf8_encode a = utf8_encode b).

Definition credentialTokenMatches (stored : option jstr) (presented : jstr) : bool :=
  match stored with
  | None | Some [] => false
  | Some stored =>
      if bool_decide (presented = []) then false
      else timingSafeEqualStr stored (hashCredentialToken presented)
  end.

Definition isHashedToken (stored : option jstr) : bool :=
  match stored with Some s => hex64 s | None => false end.

(** ** The key ring *)
Definition legacySealKey (pepper : jstr) : AtRestSealKey :=
  let key := slice (hmac_sha256 (utf8_encode pepper) (utf8_encode SEAL_KEY_INFO)) 0 SEAL_KEY_MAX in
  mkSealKey LEGACY_SEAL_KEY_ID key (utf8_encode pepper).

Definition sealKeyFromMaterial (id material : jstr) : AtRestSealKey :=
  let seed := utf8_encode material in
  let key := slice (hmac_sha256 seed (utf8_encode SEAL_KEY_INFO_V2)) 0 SEAL_KEY_MAX in
  let nonceKey := hmac_sha256 seed (utf8_encode (SEAL_KEY_INFO_V2 ++ js ":nonce")) in
  mkSealKey id key nonceKey.

(** The loop over [Object.entries(keysRaw)]. *)
Fixpoint parse_keys (entries : list (jstr * jsval)) (keys : list (jstr * AtRestSealKey))
  : result (list (jstr * AtRestSealKey)) :=
  match entries with
  | [] => Ok keys
  | (id, material) :: rest =>
      if negb (key_id_ok id) then throw "id kunci tidak valid"
      else if bool_decide (id = LEGACY_SEAL_KEY_ID) then throw "id 0 dicadangkan untuk kunci legacy pepper"
      else match material with
      | JStr m =>
          if js_length (trim m) <? 16 then throw "materi kunci harus string >=16 karakter"
          else parse_keys rest (map_set id (sealKeyFromMaterial id (trim m)) keys)
      | _ => throw "materi kunci harus string >=16 karakter"
      end
  end.

(** [parsed] is the value of [JSON.parse(raw)], [None] when it throws. *)
Definition parseKeyring (parsed : option jsval) : result (jstr * list (jstr * AtRestSealKey)) :=
  match parsed with
  | None => throw "bukan JSON yang valid"
  | Some (JObj fields as obj) =>
      let activeId := match prop obj "active" with JStr s => trim s | _ => [] end in
      if negb (key_id_ok activeId) then throw "field active wajib berupa id 1-16 karakter"
      else if bool_decide (activeId = LEGACY_SEAL_KEY_ID)
      then throw "id 0 dicadangkan untuk kunci legacy pepper"
      else match prop obj "keys" with
      | JObj keysRaw =>
          keys ← parse_keys keysRaw [];
          match assoc activeId keys with
          | None => throw "kunci aktif tidak ada di keys"
          | Some _ => Ok (activeId, keys)
          end
      | _ => throw "field keys wajib objek id -> materi"
      end
  | Some _ => throw "harus objek JSON"
  end.

(** [custody] is the key-ring material, [None] when neither the variable nor the
    file is set. *)
Definition getAtRestKeyring (pepper : jstr) (custody : option (option jsval)) : result AtRestKeyring :=
  let legacy := legacySealKey pepper in
  match custody with
  | None => Ok (mkRing LEGACY_SEAL_KEY_ID [(LEGACY_SEAL_KEY_ID, legacy)])
  | Some material =>
      match parseKeyring material with
      | Err _ => throw "[atRestSecrets] NYX_AT_REST_KEYRING tidak valid"
      | Ok (activeId, keys) => Ok (mkRing activeId (map_set LEGACY_SEAL_KEY_ID legacy keys))
      end
  end.

(** ** Sealing *)
Definition deterministicNonce (sealKey : AtRestSealKey) (plaintext : jstr) : bytes :=
  let info :=
    if bool_decide (sk_id sealKey = LEGACY_SEAL_KEY_ID) then SEAL_KEY_INFO ++ js ":nonce:"
    else SEAL_KEY_INFO_V2 ++ js ":nonce:" ++ sk_id sealKey ++ colon in
  let digest := hmac_sha256 (sk_nonceKey sealKey) (utf8_encode info ++ utf8_encode plaintext) in
  slice digest 0 NONCE_BYTES.

Definition sealWith (sealKey : AtRestSealKey) (plaintext : jstr) : result jstr :=
  let nonce := deterministicNonce sealKey plaintext in
  let ciphertext := aead_encrypt (utf8_encode plaintext) nonce (sk_key sealKey) in
  combined ← combine nonce ciphertext;
  Ok (js (to_base64 combined)).

Definition sealEnvelope (sealKey : AtRestSealKey) (plaintext : jstr) : result jstr :=
  body ← sealWith sealKey plaintext;
  Ok (if bool_decide (sk_id sealKey = LEGACY_SEAL_KEY_ID) then body
      else AT_REST_ENVELOPE_V2 ++ colon ++ sk_id sealKey ++ colon ++ body).

Definition sealAtRest (ring : AtRestKeyring) (plaintext : jstr) : result jstr :=
  match assoc (activeId ring) (ring_keys ring) with
  | None => throw "[atRestSecrets] kunci aktif hilang dari key ring"
  | Some sealKey => sealEnvelope sealKey plaintext
  end.

Definition sealedKeyId (sealed : option jstr) : option jstr :=
  match sealed with
  | None | Some [] => None
  | Some sealed =>
      if negb (startsWith (AT_REST_ENVELOPE_V2 ++ colon) sealed) then Some LEGACY_SEAL_KEY_ID
      else let parts := split 58 sealed in
      if negb (Z.of_nat (length parts) =? 3) then None
      else let id := default [] (parts !! 1%nat) in
      if key_id_ok id then Some id else None
  end.

Definition openAtRest (ring : AtRestKeyring) (sealed : option jstr) : option jstr :=
  match sealed with
  | None | Some [] => None
  | Some sealed =>
      keyId ← sealedKeyId (Some sealed);
      sealKey ← assoc keyId (ring_keys ring);
      let body :=
        if startsWith (AT_REST_ENVELOPE_V2 ++ colon) sealed
        then default [] (split 58 sealed !! 2%nat) else sealed in
      if bool_decide (body = []) then None else
      text ← of_js body;
      match from_base64 text with
      | Err _ => None
      | Ok raw =>
          if blen raw <=? NONCE_BYTES then None else
          match aead_decrypt (slice_from raw NONCE_BYTES) (slice raw 0 NONCE_BYTES) (sk_key sealKey) with
          | Err _ => None
          | Ok plaintext => match to_string plaintext with Ok s => Some s | Err _ => None end
          end
      end
  end.

Definition sealedLookupCandidates (ring : AtRestKeyring) (value : jstr) : result (list jstr) :=
  match assoc (activeId ring) (ring_keys ring) with
  | None => throw "[atRestSecrets] kunci aktif hilang dari key ring"
  | Some active =>
      let ordered := active ::
        filter (fun k => sk_id k <> sk_id active) (map snd (ring_keys ring)) in
      candidates ← mapR (fun k => sealEnvelope k value) ordered;
      Ok (set_of candidates)
  end.

Definition conversationScopedTag (pepper conversationId userId : jstr) : jstr :=
  pepperedIdentifier pepper (js "receipt:" ++ conversationId ++ colon ++ userId).

Definition deviceInstallationTag (pepper raw : jstr) : jstr :=
  pepperedIdentifier pepper (js "install:" ++ raw).

End Model.
End AtRest.

Section AtRestLemmas.
Import AtRest.
Context `{SC : ServerCrypto, SL : SodiumLaws, !ServerCryptoLaws}.

(** What every key ring the server loads satisfies. *)
Record ring_ok (r : AtRestKeyring) : Prop := {
  ro_active : is_Some (assoc (activeId r) (ring_keys r));
  ro_nodup : NoDup (ring_keys r).*1;
  ro_ids : forall id k, (id, k) ∈ ring_keys r -> sk_id k = id /\ key_id_ok id = true }.

Lemma parse_keys_ok entries : forall keys keys',
  NoDup keys.*1 -> (forall id k, (id, k) ∈ keys -> sk_id k = id /\ key_id_ok id = true) ->
  parse_keys entries keys = Ok keys' ->
  NoDup keys'.*1 /\ (forall id k, (id, k) ∈ keys' -> sk_id k = id /\ key_id_ok id = true).
Proof.
  induction entries as [|[id m] entries IH]; cbn; intros keys keys' Hn Hi Hp; [by simplify_eq|].
  destruct (key_id_ok id) eqn:Hid; cbn in Hp; [|done]. case_bool_decide; [done|].
  destruct m; try done. destruct (js_length _ <? 16); [done|]. apply IH in Hp; [done| |].
  - auto with nyx.
  - intros i k Hik. apply map_set_elem in Hik as [[-> ->]|Hik]; [done|by apply Hi].
Qed.

Lemma getAtRestKeyring_ok pepper custody r :
  getAtRestKeyring pepper custody = Ok r -> ring_ok r.
Proof.
  unfold getAtRestKeyring. destruct custody as [material|].
  - destruct (parseKeyring material) as [[active keys]|] eqn:Hp; [|done]. intros [= <-].
    unfold parseKeyring in Hp. destruct material as [[]|]; try done.
    destruct (key_id_ok _) eqn:Ha; cbn [negb] in Hp; [|done]. case_bool_decide; [done|].
    destruct (prop _ "keys"); try done. unbind. destruct (assoc _ _) eqn:Has in Hp; [|done].
    simplify_eq. apply parse_keys_ok in E as [Hn Hi]; [|constructor|set_solver].
    split; cbn [activeId ring_keys].
    + rewrite assoc_set. case_bool_decide; [done|]. by eexists.
    + auto with nyx.
    + intros i k Hik. apply map_set_elem in Hik as [[-> ->]|Hik]; [done|by apply Hi].
  - intros [= <-]. split; cbn; [done|apply NoDup_singleton|].
    intros i k Hik. apply list_elem_of_singleton in Hik as [= -> ->]. done.
Qed.

(** Hex text is ASCII, so its UTF-8 bytes determine it. *)
Lemma hex_text b : forallb scalar (hex b) = true.
Proof.
  induction b as [|x b IH]; [done|]. cbn [hex map concat] in *. rewrite forallb_app.
  fold (hex b). rewrite IH, andb_true_r. revert x. clear. intros [] ; vm_compute; reflexivity.
Qed.

Lemma hex_length b : length (hex b) = (2 * length b)%nat.
Proof. induction b as [|x b IH]; [done|]. cbn in *. fold (hex b). rewrite IH. lia. Qed.

(** A presented token is accepted exactly when it hashes to the stored value. *)
Lemma token_matches_hash token presented :
  credentialTokenMatches (Some (hashCredentialToken token)) presented = true <->
  presented <> [] /\ hashCredentialToken presented = hashCredentialToken token.
Proof.
  unfold credentialTokenMatches. destruct (hashCredentialToken token) as [|c l] eqn:Eh.
  { exfalso. apply (f_equal length) in Eh. unfold hashCredentialToken in Eh. rewrite hex_length in Eh.
    pose proof (sha256_length (utf8_encode token)) as Hl. unfold blen in Hl. cbn in Eh. lia. }
  rewrite <- Eh. clear Eh. case_bool_decide as Hp; [naive_solver|].
  assert (Hs : forall t, utf8_dec (utf8_encode (hashCredentialToken t)) = hashCredentialToken t)
    by (intros; apply utf8_dec_encode, hex_text).
  unfold timingSafeEqualStr. destruct (_ =? _) eqn:El; cbn [negb].
  - rewrite bool_decide_eq_true. split; [|by intros [_ ->]]. intros E. split; [done|].
    rewrite <- (Hs presented), <- E. apply Hs.
  - split; [done|]. intros [_ E]. rewrite E, Z.eqb_refl in El. done.
Qed.

Lemma nonce_length k v : blen (deterministicNonce k v) = 24.
Proof. unfold deterministicNonce, NONCE_BYTES. rewrite blen_slice; rewrite ?hmac_length; done. Qed.

(** The body every envelope carries. *)
Definition seal_body (k : AtRestSealKey) (v : jstr) : bytes :=
  deterministicNonce k v ++ aead_encrypt (utf8_encode v) (deterministicNonce k v) (sk_key k).

Lemma sealEnvelope_eq k v :
  sealEnvelope k v =
    Ok (if bool_decide (sk_id k = LEGACY_SEAL_KEY_ID) then js (to_base64 (seal_body k v))
        else (AT_REST_ENVELOPE_V2 ++ colon) ++ sk_id k ++ colon ++ js (to_base64 (seal_body k v))).
Proof.
  unfold sealEnvelope, sealWith. rewrite combine_ok, !bind_ok. fold (seal_body k v).
  case_bool_decide; [done|]. by rewrite <- app_assoc.
Qed.

Lemma seal_body_length k v : 40 <= blen (seal_body k v).
Proof.
  unfold seal_body. rewrite blen_app, nonce_length, aead_length.
  pose proof (blen_nonneg (utf8_encode v)). lia.
Qed.

Lemma body_text_not_nil k v : js (to_base64 (seal_body k v)) <> [].
Proof.
  intros E. change [] with (js "") in E. apply js_inj, base64_empty in E.
  pose proof (seal_body_length k v) as Hl. rewrite E in Hl. rewrite blen_nil in Hl. lia.
Qed.

Lemma body_text_url k v : forallb url_char (js (to_base64 (seal_body k v))) = true.
Proof. apply url_char_js, to_base64_charset. Qed.

Lemma legacy_not_v2 s : forallb url_char s = true -> startsWith (AT_REST_ENVELOPE_V2 ++ colon) s = false.
Proof.
  intros Hs. destruct (startsWith _ s) eqn:E; [|done]. exfalso.
  assert (H58 : 58 ∈ s) by (apply (startsWith_elem _ _ 58 E); cbn; set_solver).
  rewrite forallb_forall in Hs. apply list_elem_of_In, Hs in H58. vm_compute in H58. discriminate.
Qed.

(** What both readers do with a sealed body they found the key for. *)
Lemma open_body k v :
  text_ok v = true ->
  (text ← of_js (js (to_base64 (seal_body k v)));
   match from_base64 text with
   | Err _ => None
   | Ok raw =>
       if blen raw <=? NONCE_BYTES then None else
       match aead_decrypt (slice_from raw NONCE_BYTES) (slice raw 0 NONCE_BYTES) (sk_key k) with
       | Err _ => None
       | Ok plaintext => match to_string plaintext with Ok s => Some s | Err _ => None end
       end
   end) = Some v.
Proof.
  intros Hv. rewrite of_js_js. cbn [mbind option_bind]. rewrite base64_correct.
  pose proof (seal_body_length k v). unfold NONCE_BYTES. ztest. unfold seal_body.
  destruct (split_combined (deterministicNonce k v)
    (aead_encrypt (utf8_encode v) (deterministicNonce k v) (sk_key k)) (nonce_length k v)) as [-> ->].
  rewrite aead_correct. by rewrite to_string_utf8.
Qed.

Lemma v2_split id body :
  forallb url_char id = true -> forallb url_char body = true ->
  split 58 ((AT_REST_ENVELOPE_V2 ++ colon) ++ id ++ colon ++ body) = [AT_REST_ENVELOPE_V2; id; body].
Proof.
  intros Hid Hb.
  change ((AT_REST_ENVELOPE_V2 ++ colon) ++ id ++ colon ++ body)
    with (AT_REST_ENVELOPE_V2 ++ 58 :: (id ++ 58 :: body)).
  rewrite split_word by done. rewrite split_word by by apply url_not_colon.
  by rewrite split_last by by apply url_not_colon.
Qed.

(** Opening what any key of the ring sealed. *)
Lemma open_sealed r k v s :
  assoc (sk_id k) (ring_keys r) = Some k -> key_id_ok (sk_id k) = true -> text_ok v = true ->
  sealEnvelope k v = Ok s -> openAtRest r (Some s) = Some v.
Proof.
  intros Hk Hid Hv. rewrite sealEnvelope_eq. pose proof (body_text_url k v) as Hu.
  pose proof (body_text_not_nil k v) as Hne. pose proof (open_body k v Hv) as Ho.
  case_bool_decide as Hl; intros Hs.
  - injection Hs as <-. destruct (js (to_base64 (seal_body k v))) as [|c l] eqn:Eb; [done|].
    unfold openAtRest, sealedKeyId. rewrite (legacy_not_v2 _ Hu). cbn [negb mbind option_bind].
    rewrite <- Hl, Hk. cbn [option_bind]. rewrite bool_decide_eq_false_2 by done. exact Ho.
  - assert (Hu' : forallb url_char (sk_id k) = true) by (unfold key_id_ok in Hid; by bools).
    pose proof (v2_split _ _ Hu' Hu) as Hsp.
    pose proof (startsWith_app (AT_REST_ENVELOPE_V2 ++ colon)
      (sk_id k ++ colon ++ js (to_base64 (seal_body k v)))) as Hst.
    assert (Hs' : s = (AT_REST_ENVELOPE_V2 ++ colon) ++ sk_id k ++ colon ++ js (to_base64 (seal_body k v)))
      by congruence.
    rewrite <- Hs' in Hsp, Hst. destruct s as [|c l]; [done|].
    unfold openAtRest, sealedKeyId. rewrite Hsp, Hst.
    cbn -[assoc key_id_ok of_js]. rewrite Hid.
    change (Z.of_nat 3 =? 3) with true. cbn [negb mbind option_bind]. rewrite Hk. cbn [option_bind].
    rewrite bool_decide_eq_false_2 by done. exact Ho.
Qed.

Lemma mapR_elem {A B} (f : A -> result B) l l' b :
  mapR f l = Ok l' -> (b ∈ l' <-> exists a, a ∈ l /\ f a = Ok b).
Proof.
  revert l'; induction l as [|a l IH]; cbn; intros l' Hm.
  - simplify_eq. set_solver.
  - unbind. rewrite elem_of_cons, IH by done. split.
    + intros [->|(x & Hx & Hf)]; [exists a|exists x]; set_solver.
    + intros (x & [->|Hx]%elem_of_cons & Hf); [left; congruence|right; by exists x].
Qed.

Lemma candidates_ok r v : ring_ok r -> exists cs, sealedLookupCandidates r v = Ok cs.
Proof.
  intros [[k Hk] _ _]. unfold sealedLookupCandidates. rewrite Hk.
  rewrite (mapR_ok _ (fun k => if bool_decide (sk_id k = LEGACY_SEAL_KEY_ID) then
    js (to_base64 (seal_body k v)) else
    (AT_REST_ENVELOPE_V2 ++ colon) ++ sk_id k ++ colon ++ js (to_base64 (seal_body k v))))
    by (intros; apply sealEnvelope_eq). by eexists.
Qed.

(** The candidates are the envelopes of the value under the keys of the ring. *)
Lemma candidates_elem r v cs s :
  ring_ok r -> sealedLookupCandidates r v = Ok cs ->
  s ∈ cs <-> exists id k, (id, k) ∈ ring_keys r /\ sealEnvelope k v = Ok s.
Proof.
  intros [[k Hk] Hn Hi] Hc. unfold sealedLookupCandidates in Hc. rewrite Hk in Hc. unbind.
  rewrite set_of_elem, (mapR_elem _ _ _ _ E). pose proof (assoc_elem _ _ _ Hk) as Hke. split.
  - intros (x & Hx & Hs). apply elem_of_cons in Hx as [->|Hx]; [by exists (activeId r), k|].
    apply list_elem_of_filter in Hx as [_ Hx]. apply list_elem_of_In, in_map_iff in Hx as ([id y] & <- & Hx).
    apply list_elem_of_In in Hx. by exists id, y.
  - intros (id & x & Hx & Hs). exists x. split; [|done]. apply elem_of_cons.
    destruct (decide (sk_id x = sk_id k)) as [He|He].
    + left. apply Hi in Hke as [Hke _]. pose proof (Hi _ _ Hx) as [Hx' _].
      apply assoc_nodup in Hx; [|done]. congruence.
    + right. apply list_elem_of_filter. split; [done|]. apply list_elem_of_In, in_map_iff.
      exists (id, x). split; [done|]. by apply list_elem_of_In.
Qed.

Lemma ring_key r id k : ring_ok r -> (id, k) ∈ ring_keys r ->
  assoc (sk_id k) (ring_keys r) = Some k /\ key_id_ok (sk_id k) = true.
Proof.
  intros [_ Hn Hi] Hk. destruct (Hi _ _ Hk) as [-> Hid]. split; [by apply assoc_nodup|done].
Qed.

(** C32: rotating the key ring loses nothing. A value sealed under one key ring is
    still opened, and still found by the lookup candidates, under any later key
    ring that keeps the key which was active then. *)
Theorem at_rest_rotation pepper custody1 custody2 r1 r2 v :
  getAtRestKeyring pepper custody1 = Ok r1 ->
  getAtRestKeyring pepper custody2 = Ok r2 ->
  assoc (activeId r1) (ring_keys r2) = assoc (activeId r1) (ring_keys r1) ->
  text_ok v = true ->
  exists s cs, sealAtRest r1 v = Ok s /\ openAtRest r2 (Some s) = Some v /\
    sealedLookupCandidates r2 v = Ok cs /\ s ∈ cs.
Proof.
  intros H1%getAtRestKeyring_ok H2%getAtRestKeyring_ok Hkeep Hv.
  destruct (ro_active _ H1) as [k Hk]. destruct (candidates_ok r2 v H2) as [cs Hcs].
  rewrite Hk in Hkeep. pose proof (assoc_elem _ _ _ Hkeep) as Hin.
  destruct (ring_key _ _ _ H2 Hin) as [Ha Hid].
  unfold sealAtRest. rewrite Hk. destruct (sealEnvelope k v) as [s|] eqn:Hs;
    [|by rewrite sealEnvelope_eq in Hs].
  exists s, cs. split_and!; [done|by eapply open_sealed|done|].
  rewrite (candidates_elem _ _ _ _ H2 Hcs). eauto.
Qed.

(** A lookup by sealed candidates never returns another value's row: a
    database value that is a candidate of [v] opens to [v], so no value shares a
    candidate with a different one. *)
Theorem candidates_identify pepper custody r v w cs ds s :
  getAtRestKeyring pepper custody = Ok r ->
  text_ok v = true -> text_ok w = true ->
  sealedLookupCandidates r v = Ok cs -> sealedLookupCandidates r w = Ok ds ->
  s ∈ cs -> openAtRest r (Some s) = Some v /\ (s ∈ ds -> v = w).
Proof.
  intros Hr%getAtRestKeyring_ok Hv Hw Hc Hd Hs.
  assert (Ho : forall x xs, text_ok x = true -> sealedLookupCandidates r x = Ok xs -> s ∈ xs ->
    openAtRest r (Some s) = Some x).
  { intros x xs Hx Hxs Hin. rewrite (candidates_elem _ _ _ _ Hr Hxs) in Hin.
    destruct Hin as (id & k & Hk & Hseal). destruct (ring_key _ _ _ Hr Hk). by eapply open_sealed. }
  split; [by apply (Ho v cs)|]. intros Hs'.
  pose proof (Ho v cs Hv Hc Hs). pose proof (Ho w ds Hw Hd Hs'). congruence.
Qed.
End AtRestLemmas.

(** A concrete instance: not secure, but with the documented laws. *)
Module ToyServer.
Import Toy.

Definition toy_mac (k m : bytes) : bytes := slice (k ++ m ++ zeros 32) 0 32.

#[export] Instance toy_server : ServerCrypto := {|
  hmac_sha256 := toy_mac;
  sha256 := toy_mac [];
  to_string b := Ok (utf8_decode b) |}.

#[export] Instance toy_server_laws : @ServerCryptoLaws toy_server toy_sodium.
Proof.
  assert (Hm : forall k m, blen (toy_mac k m) = 32).
  { intros k m. unfold toy_mac. pose proof (blen_nonneg k). pose proof (blen_nonneg m).
    rewrite blen_slice; [done|lia|]. rewrite !blen_app, blen_zeros by lia. lia. }
  split.
  - exact Hm.
  - exact (Hm []).
  - intros s Hs. cbn. by rewrite utf8_decode_encode.
  - intros b. apply base64Url_charset.
Qed.
End ToyServer.

Section AtRestWitnesses.
Import AtRest Toy ToyServer.

Definition ring_json (active : string) (ids : list string) : option jsval :=
  Some (JObj [(js "active", JStr (js active));
              (js "keys", JObj (map (fun i => (js i, JStr (js "0123456789abcdef"))) ids))]).

Definition demo_ring1 := getAtRestKeyring (js "pepper") (Some (ring_json "k1" ["k1"%string])).
Definition demo_ring2 := getAtRestKeyring (js "pepper") (Some (ring_json "k2" ["k1"; "k2"]%string)).

Lemma at_rest_rotation_witness :
  match demo_ring1, demo_ring2 with
  | Ok r1, Ok r2 => exists s cs, sealAtRest r1 (js "user-1") = Ok s /\
      openAtRest r2 (Some s) = Some (js "user-1") /\
      sealedLookupCandidates r2 (js "user-1") = Ok cs /\ s ∈ cs
  | _, _ => False
  end.
Proof.
  destruct demo_ring1 as [r1|] eqn:E1; [|vm_compute in E1; discriminate E1].
  destruct demo_ring2 as [r2|] eqn:E2; [|vm_compute in E2; discriminate E2].
  apply (at_rest_rotation (js "pepper") (Some (ring_json "k1" ["k1"%string]))
    (Some (ring_json "k2" ["k1"; "k2"]%string)) r1 r2 (js "user-1") E1 E2).
  - vm_compute in E1, E2. injection E1 as <-. injection E2 as <-. vm_compute. reflexivity.
  - vm_compute. reflexivity.
Defined.

Lemma candidates_identify_witness :
  match demo_ring2 with
  | Ok r => match sealedLookupCandidates r (js "user-1"), sealedLookupCandidates r (js "user-2") with
    | Ok (s :: _ as cs), Ok ds =>
        openAtRest r (Some s) = Some (js "user-1") /\ (s ∈ ds -> js "user-1" = js "user-2")
    | _, _ => False
    end
  | _ => False
  end.
Proof.
  destruct demo_ring2 as [r|] eqn:E; [|vm_compute in E; discriminate E].
  destruct (sealedLookupCandidates r (js "user-1")) as [[|s cs]|] eqn:Ec.
  1,3: vm_compute in E; injection E as <-; vm_compute in Ec; discriminate Ec.
  destruct (sealedLookupCandidates r (js "user-2")) as [ds|] eqn:Ed.
  2: vm_compute in E; injection E as <-; vm_compute in Ed; discriminate Ed.
  apply (candidates_identify (js "pepper") (Some (ring_json "k2" ["k1"; "k2"]%string)) r
    (js "user-1") (js "user-2") (s :: cs) ds s E); try done; [vm_compute; reflexivity..|left].
Defined.
End AtRestWitnesses.
