(* ===== verification/Membership.v ===== *)
(** Membership of conversations on the server: the sealed routing rows of
    server/src/utils/routingIdentity.ts and the token rules of
    server/src/utils/groupTokens.ts. Prisma and PostgreSQL are an interface with
    the documented meaning of the queries; a table is the list of its rows. *)
From S2P Require Import Prelude Bytes Base64 Utf8 Js PqWire Sodium AtRest.
From Stdlib Require Import Ascii.

(** A row of UserHiddenConversation; times are milliseconds. *)
Record member_row := mkMember {
  mr_id : jstr; mr_userId : option jstr; mr_conversationId : jstr;
  mr_tokenHash : jstr; mr_tokenEpoch : Z; mr_expiresAt : Z }.

(** [where: { conversationId, userId: { in: cs } }]; NULL is in no list. *)
Definition row_matches (c : jstr) (cs : list jstr) (r : member_row) : Prop :=
  mr_conversationId r = c /\ match mr_userId r with Some u => u ∈ cs | None => False end.

#[export] Instance row_matches_dec c cs r : Decision (row_matches c cs r).
Proof. unfold row_matches. destruct (mr_userId r); apply _. Defined.

Class MembershipDb := {
  findMany_members : list member_row -> jstr -> list jstr -> list member_row;
  findFirst_member : list member_row -> jstr -> list jstr -> option member_row;
  update_member : list member_row -> jstr -> jstr -> Z -> Z -> result (list member_row);
  create_member : list member_row -> jstr -> jstr -> jstr -> Z -> Z -> result (list member_row);
  deleteMany_members : list member_row -> jstr -> list jstr -> list member_row * Z }.

Class MembershipDbLaws `{MembershipDb} := {
  findMany_members_law : forall t c cs,
    findMany_members t c cs ≡ₚ filter (row_matches c cs) t;
  findFirst_member_some : forall t c cs r,
    findFirst_member t c cs = Some r -> r ∈ t /\ row_matches c cs r;
  findFirst_member_none : forall t c cs r,
    findFirst_member t c cs = None -> r ∈ t -> ~ row_matches c cs r;
  update_member_law : forall t id h e x t',
    update_member t id h e x = Ok t' ->
    t' ≡ₚ map (fun r => if bool_decide (mr_id r = id)
                         then mkMember (mr_id r) (mr_userId r) (mr_conversationId r) h e x else r) t;
  create_member_law : forall t u c h e x t',
    create_member t u c h e x = Ok t' ->
    exists id, t' ≡ₚ mkMember id (Some u) c h e x :: t;
  deleteMany_members_law : forall t c cs,
    (deleteMany_members t c cs).1 ≡ₚ filter (fun r => ~ row_matches c cs r) t /\
    (deleteMany_members t c cs).2 = Z.of_nat (length (filter (row_matches c cs) t)) }.

Module GroupTokens.
Section Model.
Context `{ServerCrypto}.

Definition MEMBER_TOKEN_TTL_MS : Z := 7 * 24 * 60 * 60 * 1000.
Definition GROUP_TOKEN_TTL_MS : Z := 24 * 60 * 60 * 1000.
Definition TOKEN_REFRESH_GRACE_MS : Z := 24 * 60 * 60 * 1000.

Definition isOpaqueToken (value : jsval) : bool :=
  match value with
  | JStr s => forallb url_char s && (Z.of_nat (length s) =? 43)
  | _ => false
  end.

Definition hashGroupToken (token : jstr) : jstr := AtRest.hashCredentialToken token.
Definition memberTokenExpiry (now : Z) : Z := now + MEMBER_TOKEN_TTL_MS.
Definition groupTokenExpiry (now : Z) : Z := now + GROUP_TOKEN_TTL_MS.
Definition groupTokenMatches (storedHash : option jstr) (presented : jstr) : bool :=
  AtRest.credentialTokenMatches storedHash presented.

Inductive MemberTokenStatus := ok | refresh | stale.

(** [remaining <= TTL / 4], the quotient being a whole number of milliseconds. *)
Definition evaluateMemberToken (tokenEpoch expiresAt groupEpoch now : Z) : MemberTokenStatus :=
  if negb (tokenEpoch =? groupEpoch) then stale
  else if expiresAt <=? now - TOKEN_REFRESH_GRACE_MS then stale
  else let remaining := expiresAt - now in
  if remaining <=? MEMBER_TOKEN_TTL_MS / 4 then refresh else ok.

(** The columns of Conversation the tokens use. *)
Record conversation := mkConversation {
  authSecret : option jstr; groupEpoch : Z; groupTokenExpiresAt : option Z; epochRotatedAt : option Z }.

(** [credentialGroupTokenValid] of routes/groups.ts. *)
Definition credentialGroupTokenValid (conv : conversation) (presented : jstr) (now : Z) : bool :=
  if negb (groupTokenMatches (authSecret conv) presented) then false
  else match groupTokenExpiresAt conv with
  | Some expiresAt => negb (expiresAt <=? now)
  | None => true
  end.

(** [token] is the fresh random token. The two updates are the conversation row
    and every membership row of the conversation. *)
Definition rotateGroupToken (conv : conversation) (t : list member_row) (conversationId token : jstr)
    (now : Z) : conversation * list member_row * Z :=
  let expiresAt := groupTokenExpiry now in
  let conv' := mkConversation (Some (hashGroupToken token)) (groupEpoch conv + 1) (Some expiresAt) (Some now) in
  let epoch := groupEpoch conv' in
  (conv',
   map (fun r => if bool_decide (mr_conversationId r = conversationId)
     then mkMember (mr_id r) (mr_userId r) (mr_conversationId r) (mr_tokenHash r) epoch (mr_expiresAt r)
     else r) t,
   expiresAt).

Definition refreshMemberToken (t : list member_row) (rowId : jstr) (now : Z) : list member_row * Z :=
  let expiresAt := memberTokenExpiry now in
  (map (fun r => if bool_decide (mr_id r = rowId)
     then mkMember (mr_id r) (mr_userId r) (mr_conversationId r) (mr_tokenHash r) (mr_tokenEpoch r) expiresAt
     else r) t, expiresAt).
End Model.
End GroupTokens.

Module Routing.
Section Model.
Context `{ServerCrypto, Sodium, MembershipDb}.

Definition routingIdentity (ring : AtRest.AtRestKeyring) (userId : jstr) : result jstr :=
  AtRest.sealAtRest ring userId.
Definition routingCandidates (ring : AtRest.AtRestKeyring) (userId : jstr) : result (list jstr) :=
  AtRest.sealedLookupCandidates ring userId.
Definition resolveRoutingUser (ring : AtRest.AtRestKeyring) (stored : option jstr) : option jstr :=
  match stored with None | Some [] => None | Some _ => AtRest.openAtRest ring stored end.

(** [tokenEpoch] and [expiresAt] are optional arguments; [now] is the clock. *)
Definition upsertMembership (ring : AtRest.AtRestKeyring) (t : list member_row)
    (userId conversationId token : jstr) (tokenEpoch expiresAt : option Z) (now : Z)
  : result (list member_row) :=
  candidates ← routingCandidates ring userId;
  let existing := findFirst_member t conversationId candidates in
  let tokenHash := GroupTokens.hashGroupToken token in
  let tokenEpoch := default 0 tokenEpoch in
  let expiresAt := default (GroupTokens.memberTokenExpiry now) expiresAt in
  let create := create_member t (default [] (head candidates)) conversationId tokenHash tokenEpoch expiresAt in
  match existing with
  | Some row =>
      (* [existing?.id]: an empty id is falsy *)
      if bool_decide (mr_id row = []) then create
      else update_member t (mr_id row) tokenHash tokenEpoch expiresAt
  | None => create
  end.

Definition wanted_ids (userIds : list jsval) : list jstr :=
  set_of (omap (fun id => match id with
    | JStr s => if (0 <? js_length s) && (js_length s <=? 64) then Some s else None
    | _ => None end) userIds).

(** The two nested loops that fill [candidateToUser]. *)
Fixpoint candidate_map (ring : AtRest.AtRestKeyring) (wanted : list jstr) (m : list (jstr * jstr))
  : result (list (jstr * jstr)) :=
  match wanted with
  | [] => Ok m
  | userId :: rest =>
      cs ← routingCandidates ring userId;
      candidate_map ring rest (foldl (fun m c => map_set c userId m) m cs)
  end.

Definition filterConversationMembers (ring : AtRest.AtRestKeyring) (t : list member_row)
    (conversationId : jstr) (userIds : list jsval) : result (list jstr) :=
  let wanted := wanted_ids userIds in
  match wanted with
  | [] => Ok []
  | _ =>
      candidateToUser ← candidate_map ring wanted [];
      match candidateToUser with
      | [] => Ok []
      | _ =>
          let rows := findMany_members t conversationId (candidateToUser.*1) in
          let allowed := foldl (fun allowed row =>
            match mr_userId row with
            | None => allowed
            | Some stored =>
                let userId := match assoc stored candidateToUser with
                  | Some u => Some u | None => resolveRoutingUser ring (Some stored) end in
                match userId with
                | None | Some [] => allowed
                | Some u => if bool_decide (u ∈ wanted) then set_add allowed u else allowed
                end
            end) [] rows in
          Ok (filter (fun u => u ∈ allowed) wanted)
      end
  end.

Definition findMembership (ring : AtRest.AtRestKeyring) (t : list member_row)
    (userId conversationId : jstr) (requireFresh : bool) (groupEpoch : option Z) (now : Z) : result bool :=
  candidates ← routingCandidates ring userId;
  match findFirst_member t conversationId candidates with
  | None => Ok false
  | Some row =>
      if negb requireFresh then Ok true
      else Ok (match GroupTokens.evaluateMemberToken (mr_tokenEpoch row) (mr_expiresAt row)
                       (default 0 groupEpoch) now with
               | GroupTokens.stale => false | _ => true end)
  end.

Definition deleteMembership (ring : AtRest.AtRestKeyring) (t : list member_row)
    (userId conversationId : jstr) : result (list member_row * Z) :=
  candidates ← routingCandidates ring userId;
  Ok (deleteMany_members t conversationId candidates).
End Model.
End Routing.

(** ** The relation the rows stand for *)
Section MembershipLemmas.
Import AtRest Routing GroupTokens.
Context `{SC : ServerCrypto, SL : SodiumLaws, !ServerCryptoLaws, MD : MembershipDbLaws}.

Definition cands (ring : AtRestKeyring) (u : jstr) : list jstr :=
  match sealedLookupCandidates ring u with Ok cs => cs | Err _ => [] end.

(** [u] is a member of [c]: some row of [c] carries a seal of [u]. *)
Definition is_member (ring : AtRestKeyring) (t : list member_row) (c u : jstr) : Prop :=
  exists r, r ∈ t /\ row_matches c (cands ring u) r.

Lemma routingCandidates_eq ring u : ring_ok ring -> routingCandidates ring u = Ok (cands ring u).
Proof.
  intros Hr. unfold routingCandidates, cands. by destruct (candidates_ok ring u Hr) as [cs ->].
Qed.

Lemma cands_nonempty ring u : ring_ok ring -> exists s cs, cands ring u = s :: cs.
Proof.
  intros Hr. pose proof (routingCandidates_eq ring u Hr) as Hc. unfold routingCandidates in Hc.
  destruct (cands ring u) as [|s cs]; [|eauto]. exfalso.
  destruct (ro_active _ Hr) as [k Hk]. pose proof (assoc_elem _ _ _ Hk) as Hin.
  destruct (sealEnvelope k u) as [s|] eqn:Hs; [|by rewrite sealEnvelope_eq in Hs].
  assert (Hsn : s ∈ []) by (apply (candidates_elem _ _ _ _ Hr Hc); eauto).
  by apply not_elem_of_nil in Hsn.
Qed.

Lemma cands_inj ring u v s :
  ring_ok ring -> text_ok u = true -> text_ok v = true ->
  s ∈ cands ring u -> s ∈ cands ring v -> u = v.
Proof.
  intros Hr Hu Hv Hsu Hsv.
  assert (Ho : forall w, text_ok w = true -> s ∈ cands ring w -> openAtRest ring (Some s) = Some w).
  { intros w Hw Hs. apply (candidates_elem ring w _ s Hr) in Hs; [|by apply routingCandidates_eq].
    destruct Hs as (id & k & Hk & Hseal). destruct (ring_key _ _ _ Hr Hk). by eapply open_sealed. }
  pose proof (Ho u Hu Hsu). pose proof (Ho v Hv Hsv). congruence.
Qed.

Lemma is_member_perm ring t t' c u : t ≡ₚ t' -> is_member ring t c u <-> is_member ring t' c u.
Proof. intros Hp. unfold is_member. by setoid_rewrite Hp. Qed.

Lemma is_member_cons ring r t c u :
  is_member ring (r :: t) c u <-> row_matches c (cands ring u) r \/ is_member ring t c u.
Proof. unfold is_member. setoid_rewrite elem_of_cons. naive_solver. Qed.

(** Changing columns that no lookup reads changes nobody's membership. *)
Lemma is_member_map ring f t c u :
  (forall r, mr_conversationId (f r) = mr_conversationId r /\ mr_userId (f r) = mr_userId r) ->
  is_member ring (map f t) c u <-> is_member ring t c u.
Proof.
  intros Hf. unfold is_member, row_matches. split.
  - intros (r & Hr & Hm). apply list_elem_of_In, in_map_iff in Hr as (x & <- & Hx).
    apply list_elem_of_In in Hx. destruct (Hf x) as [-> ->] in Hm. eauto.
  - intros (r & Hr & Hm). exists (f r). destruct (Hf r) as [-> ->]. split; [|done].
    apply list_elem_of_In, in_map_iff. exists r. split; [done|]. by apply list_elem_of_In.
Qed.

Lemma create_member_spec ring t t' u c h e x :
  ring_ok ring -> text_ok u = true ->
  create_member t (default [] (head (cands ring u))) c h e x = Ok t' ->
  forall c' v, text_ok v = true ->
    is_member ring t' c' v <-> (c' = c /\ v = u) \/ is_member ring t c' v.
Proof.
  intros Hr Hu Ht c' v Hv. apply create_member_law in Ht as [id Ht].
  rewrite (is_member_perm _ _ _ _ _ Ht), is_member_cons.
  destruct (cands_nonempty ring u Hr) as (s & cs & Hs). unfold row_matches. cbn. rewrite Hs. cbn.
  assert (Hsu : s ∈ cands ring u) by (rewrite Hs; left).
  split; (intros [Hm|Hm]; [left|by right]).
  - destruct Hm as [-> Hm]. split; [done|]. symmetry. by apply (cands_inj ring u v s).
  - by destruct Hm as [-> ->].
Qed.

Lemma upsert_spec ring t u c token te ex now t1 :
  ring_ok ring -> text_ok u = true ->
  upsertMembership ring t u c token te ex now = Ok t1 ->
  forall c' v, text_ok v = true ->
    is_member ring t1 c' v <-> (c' = c /\ v = u) \/ is_member ring t c' v.
Proof.
  intros Hr Hu Hup. unfold upsertMembership in Hup. rewrite routingCandidates_eq in Hup by done.
  cbn [mbind result_bind] in Hup.
  destruct (findFirst_member t c (cands ring u)) as [row|] eqn:Hf; [case_bool_decide|].
  1,3: by eapply create_member_spec.
  apply findFirst_member_some in Hf as [Hin Hm]. intros c' v Hv.
  apply update_member_law in Hup. rewrite (is_member_perm _ _ _ _ _ Hup), is_member_map
    by (intros; by case_bool_decide).
  split; [by right|]. intros [[-> ->]|]; [by exists row|done].
Qed.


(** The map from candidates to users. *)
Lemma fold_map_set_elem (cs : list jstr) (u : jstr) : forall m s,
  s ∈ (foldl (fun m c => map_set c u m) m cs).*1 <-> s ∈ cs \/ s ∈ m.*1.
Proof.
  induction cs as [|c cs IH]; intros m s; cbn; [set_solver|]. rewrite IH, map_set_keys. set_solver.
Qed.

Lemma fold_map_set_assoc (cs : list jstr) (u : jstr) : forall m s,
  assoc s (foldl (fun m c => map_set c u m) m cs) = if bool_decide (s ∈ cs) then Some u else assoc s m.
Proof.
  induction cs as [|c cs IH]; intros m s; cbn [foldl]; [done|]. rewrite IH, assoc_set.
  repeat case_bool_decide; set_solver.
Qed.

Lemma candidate_map_spec ring wanted : ring_ok ring -> forall m,
  exists m', candidate_map ring wanted m = Ok m' /\
    (forall s, s ∈ m'.*1 <-> (exists u, u ∈ wanted /\ s ∈ cands ring u) \/ s ∈ m.*1) /\
    (forall s u, assoc s m' = Some u -> (u ∈ wanted /\ s ∈ cands ring u) \/ assoc s m = Some u).
Proof.
  intros Hr. induction wanted as [|w wanted IH]; intros m; cbn [candidate_map].
  - exists m. split_and!; [done| |by right]. set_solver.
  - rewrite routingCandidates_eq by done. cbn [mbind result_bind].
    destruct (IH (foldl (fun m c => map_set c w m) m (cands ring w))) as (m' & Hm & Hk & Ha).
    exists m'. split_and!; [done| |].
    + intros s. rewrite Hk, fold_map_set_elem. set_solver.
    + intros s u Hs. apply Ha in Hs as [[Hu Hs]|Hs]; [left; set_solver|].
      rewrite fold_map_set_assoc in Hs. case_bool_decide; [|by right]. simplify_eq. left. set_solver.
Qed.

Lemma fold_elem {A} (f : list jstr -> A -> list jstr) (P : A -> jstr -> Prop) rows :
  (forall acc r u, u ∈ f acc r <-> u ∈ acc \/ P r u) ->
  forall acc u, u ∈ foldl f acc rows <-> u ∈ acc \/ exists r, r ∈ rows /\ P r u.
Proof.
  intros Hf. induction rows as [|r rows IH]; intros acc u; cbn [foldl]; [set_solver|].
  rewrite IH, Hf. set_solver.
Qed.

Lemma assoc_key {A} s (m : list (jstr * A)) : s ∈ m.*1 -> is_Some (assoc s m).
Proof.
  induction m as [|[k a] m IH]; cbn; [intros Hs; by apply not_elem_of_nil in Hs|].
  case_bool_decide; [eauto|]. intros [->|Hs]%elem_of_cons; [done|by apply IH].
Qed.

Lemma wanted_ids_elem ids u :
  u ∈ wanted_ids ids <-> JStr u ∈ ids /\ 0 < js_length u <= 64.
Proof.
  unfold wanted_ids. rewrite set_of_elem, list_elem_of_omap. split.
  - intros (v & Hv & Hu). destruct v; try done. destruct (_ && _) eqn:E; [|done].
    simplify_eq. bools. split; [done|lia].
  - intros [Hu Hl]. exists (JStr u). split; [done|].
    by replace ((0 <? js_length u) && (js_length u <=? 64)) with true by lia.
Qed.

Lemma wanted_not_nil ids u : u ∈ wanted_ids ids -> u <> [].
Proof. rewrite wanted_ids_elem. intros [_ Hl] ->. cbn in Hl. lia. Qed.

(** [filterConversationMembers] as the membership relation sees it. *)
Lemma filter_members_eq ring t c ids :
  ring_ok ring -> (forall u, u ∈ wanted_ids ids -> text_ok u = true) ->
  exists res, filterConversationMembers ring t c ids = Ok res /\
    sublist res (wanted_ids ids) /\
    forall u, u ∈ res <-> u ∈ wanted_ids ids /\ is_member ring t c u.
Proof.
  intros Hr Htext. unfold filterConversationMembers.
  pose proof (wanted_not_nil ids) as Hnil. destruct (wanted_ids ids) as [|w0 ws] eqn:Ew.
  { exists []. split_and!; [done|constructor|set_solver]. }
  set (wanted := w0 :: ws) in *.
  destruct (candidate_map_spec ring wanted Hr []) as (m & Hm & Hk & Ha). rewrite Hm, bind_ok.
  assert (Hkeys : forall s, s ∈ m.*1 <-> exists u, u ∈ wanted /\ s ∈ cands ring u) by set_solver.
  assert (Hassoc : forall s u, assoc s m = Some u -> u ∈ wanted /\ s ∈ cands ring u).
  { intros s u Hs. destruct (Ha s u Hs); [done|]. done. }
  destruct m as [|p m]; [exfalso|].
  { destruct (cands_nonempty ring w0 Hr) as (s & cs & Hs).
    apply (not_elem_of_nil s), Hkeys. exists w0. rewrite Hs. set_solver. }
  set (m' := p :: m) in *. eexists. split; [reflexivity|]. split; [apply sublist_filter|].
  set (row_user row := match mr_userId row with
    | None => None
    | Some stored =>
        match (match assoc stored m' with Some u => Some u | None => resolveRoutingUser ring (Some stored) end) with
        | None | Some [] => None
        | Some u => if bool_decide (u ∈ wanted) then Some u else None
        end
    end).
  intros u. rewrite list_elem_of_filter, (fold_elem _ (fun row u => row_user row = Some u)).
  2: { intros acc row v. unfold row_user. destruct (mr_userId row) as [s|]; [|naive_solver].
       destruct (match assoc s m' with Some _ => _ | None => _ end) as [[|x l]|]; [naive_solver| |naive_solver].
       case_bool_decide; rewrite ?set_add_elem; naive_solver. }
  setoid_rewrite findMany_members_law. setoid_rewrite list_elem_of_filter. split.
  - intros [[Hin|(row & [Hmatch Hrow] & Hru)] Hu]; [by apply not_elem_of_nil in Hin|].
    split; [done|]. exists row. split; [done|]. unfold row_matches, row_user in *.
    destruct (mr_userId row) as [s|]; [|tauto]. destruct Hmatch as [Hc Hs]. split; [done|].
    destruct (assoc_key s m' Hs) as [x Hx]. rewrite Hx in Hru.
    destruct x; [done|]. case_bool_decide; [|done]. simplify_eq. by apply Hassoc in Hx as [_ Hx].
  - intros [Hu (row & Hrow & Hmatch)]. split; [|done]. right. exists row.
    unfold row_matches, row_user in *. destruct (mr_userId row) as [s|]; [|tauto].
    destruct Hmatch as [Hc Hs].
    assert (Hs' : s ∈ m'.*1) by (apply Hkeys; by exists u).
    destruct (assoc_key s m' Hs') as [x Hx]. pose proof (Hassoc _ _ Hx) as [Hxw Hxs].
    assert (x = u) as -> by (eapply (cands_inj ring x u s); eauto).
    split_and!; [done|done|done|]. rewrite Hx. pose proof (Hnil u Hu). destruct u; [done|].
    by rewrite bool_decide_eq_true_2.
Qed.

(** A later key ring that keeps every key recognises the old rows. *)
Lemma is_member_keep ring1 ring2 t c u :
  ring_ok ring1 -> ring_ok ring2 -> (forall p, p ∈ ring_keys ring1 -> p ∈ ring_keys ring2) ->
  is_member ring1 t c u -> is_member ring2 t c u.
Proof.
  intros H1' H2' Hkeep (r & Hin & Hc & Hu). exists r. split; [done|]. split; [done|].
  destruct (mr_userId r) as [s|]; [|done].
  apply (candidates_elem ring1 u _ s H1' (routingCandidates_eq _ _ H1')) in Hu as (id & k & Hk & Hs).
  apply (candidates_elem ring2 u _ s H2' (routingCandidates_eq _ _ H2')). eauto.
Qed.

(** The membership filter of the realtime and relay paths answers exactly the
    members among the well-formed ids it is asked about, in the order asked and
    without repetition, and a member whose row was written before a key rotation
    is still found after it. *)
Theorem members_found_after_rotation ring1 ring2 t u c token te ex now t1 ids :
  ring_ok ring1 -> ring_ok ring2 -> (forall p, p ∈ ring_keys ring1 -> p ∈ ring_keys ring2) ->
  text_ok u = true -> (forall v, v ∈ wanted_ids ids -> text_ok v = true) ->
  upsertMembership ring1 t u c token te ex now = Ok t1 ->
  exists res, filterConversationMembers ring2 t1 c ids = Ok res /\ NoDup res /\
    sublist res (wanted_ids ids) /\
    (forall v, v ∈ res <-> v ∈ wanted_ids ids /\ is_member ring2 t1 c v) /\
    (u ∈ wanted_ids ids -> u ∈ res).
Proof.
  intros H1' H2' Hkeep Hu Hids Hup.
  destruct (filter_members_eq ring2 t1 c ids H2' Hids) as (res & Hres & Hsub & Hel).
  exists res. split_and!; [done| |done|done|].
  - eapply sublist_NoDup; [|exact Hsub]. apply set_of_nodup.
  - intros Hw. apply Hel. split; [done|]. apply (is_member_keep ring1 ring2); [done..|].
    apply (upsert_spec ring1 t u c token te ex now t1); [done..|]. by left.
Qed.

(** Rotating the group token makes every other token useless and keeps the
    members. Afterwards a presented group token is valid exactly when it hashes to
    the new token's hash and the day has not passed; every remaining row of the
    conversation is judged by its expiry alone, and every other row is untouched. *)
Theorem rotation_effect conv t c token now conv' t' expires :
  rotateGroupToken conv t c token now = (conv', t', expires) ->
  (forall presented at_, credentialGroupTokenValid conv' presented at_ = true <->
     presented <> [] /\ hashGroupToken presented = hashGroupToken token /\ at_ < now + GROUP_TOKEN_TTL_MS) /\
  groupEpoch conv' = groupEpoch conv + 1 /\
  length t' = length t /\
  (forall i r r' at_, t !! i = Some r -> t' !! i = Some r' ->
     (mr_conversationId r <> c -> r' = r) /\
     (mr_conversationId r = c ->
        mr_userId r' = mr_userId r /\ mr_tokenHash r' = mr_tokenHash r /\
        (evaluateMemberToken (mr_tokenEpoch r') (mr_expiresAt r') (groupEpoch conv') at_ = stale <->
         mr_expiresAt r <= at_ - TOKEN_REFRESH_GRACE_MS))).
Proof.
  unfold rotateGroupToken. intros [= <- <- <-]. split_and!.
  - intros presented at_. unfold credentialGroupTokenValid, groupTokenMatches.
    cbn [authSecret groupTokenExpiresAt].
    pose proof (token_matches_hash token presented) as Hm. fold (hashGroupToken token) in Hm.
    unfold groupTokenExpiry. destruct (credentialTokenMatches _ _); cbn [negb].
    + rewrite negb_true_iff, Z.leb_gt. unfold hashGroupToken. naive_solver lia.
    + split; [done|]. intros (Hp & Hh & _). unfold hashGroupToken in Hh. naive_solver.
  - done.
  - apply length_map.
  - intros i r r' at_ Hr Hr'. rewrite list_lookup_fmap, Hr in Hr'. cbn in Hr'. simplify_eq.
    split; intros Hc; [by rewrite bool_decide_eq_false_2|]. rewrite bool_decide_eq_true_2 by done.
    split_and!; [done..|]. unfold evaluateMemberToken. cbn. rewrite Z.eqb_refl. cbn [negb].
    destruct (_ <=? at_ - _) eqn:E; bools; [done|]. destruct (_ <=? _); split; try done; lia.
Qed.
End MembershipLemmas.

(** An in-memory table, for the concrete runs. *)
Module ToyMembers.
#[export] Instance toy_members : MembershipDb := {|
  findMany_members t c cs := filter (row_matches c cs) t;
  findFirst_member t c cs := head (filter (row_matches c cs) t);
  update_member t id h e x := Ok (map (fun r => if bool_decide (mr_id r = id)
    then mkMember (mr_id r) (mr_userId r) (mr_conversationId r) h e x else r) t);
  create_member t u c h e x := Ok (mkMember (js "row") (Some u) c h e x :: t);
  deleteMany_members t c cs := (filter (fun r => ~ row_matches c cs r) t,
    Z.of_nat (length (filter (row_matches c cs) t))) |}.

#[export] Instance toy_members_laws : MembershipDbLaws.
Proof.
  split; cbn.
  - done.
  - intros t c cs r Hr. apply head_Some_elem_of in Hr. by apply list_elem_of_filter in Hr as [? ?].
  - intros t c cs r Hn Hr Hm. apply head_None in Hn.
    assert (Hin : r ∈ filter (row_matches c cs) t) by by apply list_elem_of_filter.
    rewrite Hn in Hin. by apply not_elem_of_nil in Hin.
  - intros. by simplify_eq.
  - intros. simplify_eq. by eexists.
  - done.
Qed.
End ToyMembers.

Section MembershipWitnesses.
Import AtRest Routing GroupTokens Toy ToyServer ToyMembers.

Lemma demo_ring_ok r : demo_ring2 = Ok r -> ring_ok r.
Proof. apply getAtRestKeyring_ok. Qed.


Lemma members_found_after_rotation_witness :
  match demo_ring2 with
  | Ok r => match upsertMembership r [] (js "user-1") (js "conv") (js "tok") None None 5 with
    | Ok t1 => exists res, filterConversationMembers r t1 (js "conv") [JStr (js "user-1"); JNull] = Ok res
        /\ js "user-1" ∈ res
    | Err _ => False end
  | Err _ => False
  end.
Proof.
  destruct demo_ring2 as [r|] eqn:E; [|vm_compute in E; discriminate E].
  destruct (upsertMembership r [] (js "user-1") (js "conv") (js "tok") None None 5) as [t1|] eqn:Et.
  2: { vm_compute in E. injection E as <-. vm_compute in Et. discriminate Et. }
  destruct (members_found_after_rotation r r [] (js "user-1") (js "conv") (js "tok") None None 5 t1
    [JStr (js "user-1"); JNull] (demo_ring_ok r E) (demo_ring_ok r E) (fun p Hp => Hp) eq_refl)
    as (res & Hres & _ & _ & _ & Hin); [|exact Et|].
  - intros v Hv. change (wanted_ids _) with [js "user-1"] in Hv.
    apply list_elem_of_singleton in Hv as ->. vm_compute. reflexivity.
  - exists res. split; [exact Hres|]. apply Hin. vm_compute. left.
Defined.

Lemma rotation_effect_witness :
  let '(conv', _, _) := rotateGroupToken (mkConversation None 3 None None) [] (js "c") (js "tok") 10 in
  groupEpoch conv' = 4.
Proof.
  exact (proj1 (proj2 (rotation_effect (mkConversation None 3 None None) [] (js "c") (js "tok") 10
    _ _ _ eq_refl))).
Defined.
End MembershipWitnesses.
