(* ===== verification/SessionKeyGuard.v ===== *)
(** Who may write SessionKey rows: server/src/utils/sessionKeyRelayGuard.ts with
    the writer of server/src/utils/sessionKeys.ts and the ratchet endpoint of
    server/src/routes/sessionKeys.ts. A SessionKey row is itself evidence of
    membership elsewhere, so the guard must not accept evidence a client can write
    for itself. *)
From S2P Require Import Prelude Bytes Base64 Utf8 Js PqWire Sodium AtRest Membership.

(** The tables the guard reads. *)
Record sk_row := mkSk {
  sr_conversation : jstr; sr_session : jstr; sr_device : jstr; sr_key : bytes;
  sr_ciphertexts : option bytes; sr_initiator : bool; sr_issuedByServer : bool }.
Record device_row := mkDeviceRow { dv_id : jstr; dv_userId : option jstr }.
Record receipt_row := mkReceipt { rc_conversation : jstr; rc_userTag : option jstr }.
Record guard_tables := mkTables {
  tb_members : list member_row; tb_receipts : list receipt_row;
  tb_devices : list device_row; tb_sessionKeys : list sk_row }.

(** [row.device?.userId] *)
Definition owner_of (ds : list device_row) (d : jstr) : option jstr :=
  x ← list_find (fun r => dv_id r = d) ds; dv_userId x.2.

(** The queries, each of which may throw, and the insertion. *)
Class GuardDb := {
  find_bootstrapOwners : guard_tables -> jstr -> result (list (option jstr));
  find_receipts : guard_tables -> jstr -> list jstr -> result (list (option jstr));
  find_devices : guard_tables -> list jstr -> result (list device_row);
  find_enrolled : guard_tables -> jstr -> list jstr -> result (list jstr);
  createMany_sessionKeys : list sk_row -> list sk_row -> result (list sk_row);
  (** [Buffer.from(text, 'base64url')], which never throws. *)
  buffer_base64url : jstr -> bytes }.

Class GuardDbLaws `{GuardDb} := {
  find_bootstrapOwners_law : forall t c l o, find_bootstrapOwners t c = Ok l ->
    o ∈ l <-> exists r, r ∈ tb_sessionKeys t /\ sr_conversation r = c /\
      sr_issuedByServer r = true /\ o = owner_of (tb_devices t) (sr_device r);
  find_receipts_law : forall t c tags l o, find_receipts t c tags = Ok l ->
    o ∈ l <-> exists r tag, r ∈ tb_receipts t /\ rc_conversation r = c /\
      rc_userTag r = Some tag /\ tag ∈ tags /\ o = Some tag;
  find_devices_law : forall t ids l r, find_devices t ids = Ok l ->
    r ∈ l <-> r ∈ tb_devices t /\ dv_id r ∈ ids;
  find_enrolled_law : forall t c ids l d, find_enrolled t c ids = Ok l ->
    d ∈ l <-> d ∈ ids /\ exists r, r ∈ tb_sessionKeys t /\ sr_conversation r = c /\ sr_device r = d;
  createMany_law : forall t rows t', createMany_sessionKeys t rows = Ok t' -> t' ≡ₚ rows ++ t }.

Module Guard.
Section Model.
Context `{ServerCrypto, Sodium, MembershipDb, GuardDb}.

Definition MAX_RELAY_KEYS : Z := 500.
Definition MAX_INITIAL_SESSION_KEYS : Z := MAX_RELAY_KEYS.
Definition MAX_SESSION_ID : Z := 128.
Definition MAX_DEVICE_ID : Z := 128.
Definition MAX_KEY_B64 : Z := 8192.

Record ClientSessionKeyPayload := mkPayload {
  pl_deviceId : jstr; pl_encryptedKey : jstr;
  pl_initiatorCiphertexts : option jstr; pl_isInitiator : bool }.
Record InitialSessionEntry := mkEntry {
  in_deviceId : jstr; in_encryptedKey : jstr; in_initiatorCiphertexts : option jstr }.

(** [{ ok: true, ... }] or [{ ok: false, status, error }]. *)
Inductive decision (A : Type) :=
| Granted (a : A)
| Denied (status : Z) (error : string).
Arguments Granted {A} a.
Arguments Denied {A} status error.

Definition std_char (c : Z) : bool :=
  ((65 <=? c) && (c <=? 90)) || ((97 <=? c) && (c <=? 122)) || ((48 <=? c) && (c <=? 57)) ||
  (c =? 43) || (c =? 47).

(** [/^[A-Za-z0-9+/]+={0,2}$/]: at least one character, then at most two [=]. *)
Fixpoint std_tail (s : jstr) : bool :=
  match s with
  | [] => true
  | [61] => true
  | [61; 61] => true
  | c :: s' => std_char c && std_tail s'
  end.
Definition BASE64_STANDARD (s : jstr) : bool :=
  match s with c :: s' => std_char c && std_tail s' | [] => false end.

Definition isBase64Standard (value : jsval) (max : Z) : bool :=
  match value with
  | JStr s => (0 <? js_length s) && (js_length s <=? max) && BASE64_STANDARD s
  | _ => false
  end.

Definition isBase64Url (value : jsval) (max : Z) : bool :=
  match value with
  | JStr s => (0 <? js_length s) && (js_length s <=? max) && forallb url_char s
  | _ => false
  end.

(** [undefined] or [null], or a text of the right shape. *)
Definition absent_or (test : jsval -> Z -> bool) (v : jsval) (max : Z) : bool :=
  match v with JUndef | JNull => true | _ => test v max end.

Definition text_of (v : jsval) : option jstr := match v with JStr s => Some s | _ => None end.

(** The loop of [normalizeKeys], [byDevice] in insertion order. *)
Fixpoint normalize_loop (keys : list jsval) (byDevice : list (jstr * ClientSessionKeyPayload))
  : result (list (jstr * ClientSessionKeyPayload)) :=
  match keys with
  | [] => Ok byDevice
  | raw :: rest =>
      if negb (match raw with JObj _ | JArr _ => true | _ => false end) then throw "invalid key entry"
      else match prop raw "deviceId" with
      | JStr deviceId =>
          if (js_length deviceId =? 0) || (MAX_DEVICE_ID <? js_length deviceId)
          then throw "invalid deviceId"
          else match prop raw "encryptedKey" with
          | JStr encryptedKey =>
              if negb (isBase64Url (JStr encryptedKey) MAX_KEY_B64) then throw "invalid encryptedKey"
              else if negb (absent_or isBase64Url (prop raw "initiatorCiphertexts") MAX_KEY_B64)
              then throw "invalid initiatorCiphertexts"
              else match assoc deviceId byDevice with
              | Some _ => normalize_loop rest byDevice
              | None =>
                  normalize_loop rest (map_set deviceId
                    (mkPayload deviceId encryptedKey (text_of (prop raw "initiatorCiphertexts"))
                       (match prop raw "isInitiator" with JBool true => true | _ => false end)) byDevice)
              end
          | _ => throw "invalid encryptedKey"
          end
      | _ => throw "invalid deviceId"
      end
  end.

Definition normalizeKeys (keys : jsval) : result (list ClientSessionKeyPayload) :=
  match keys with
  | JArr keys =>
      if Z.of_nat (length keys) =? 0 then throw "keys must not be empty"
      else if MAX_RELAY_KEYS <? Z.of_nat (length keys) then throw "too many keys"
      else byDevice ← normalize_loop keys []; Ok byDevice.*2
  | _ => throw "keys must be an array"
  end.

(** [.catch(() => [])] *)
Definition or_empty {A} (r : result (list A)) : list A := match r with Ok l => l | Err _ => [] end.

(** [pepper] and [ring] are the server's at-rest secrets. *)
Definition provenParticipants (pepper : jstr) (ring : AtRest.AtRestKeyring) (t : guard_tables)
    (conversationId : jstr) (userIds : list jstr) : list jstr :=
  let wanted := set_of (filter (fun id => id <> []) userIds) in
  match wanted with
  | [] => []
  | _ =>
      let members := set_of (or_empty
        (Routing.filterConversationMembers ring (tb_members t) conversationId (map JStr wanted))) in
      let members := foldl (fun members owner =>
        match owner with
        | Some o => if bool_decide (o ∈ wanted) then set_add members o else members
        | None => members
        end) members (or_empty (find_bootstrapOwners t conversationId)) in
      let remaining := filter (fun id => id ∉ members) wanted in
      match remaining with
      | [] => members
      | _ =>
          let tag := AtRest.conversationScopedTag pepper conversationId in
          let tags := omap (fun row => row) (or_empty (find_receipts t conversationId (map tag remaining))) in
          foldl (fun members userId =>
            if bool_decide (tag userId ∈ tags) then set_add members userId else members)
            members remaining
      end
  end.

(** [new Map(devices.map(...))] *)
Definition owner_map (devices : list device_row) : list (jstr * option jstr) :=
  foldl (fun m d => map_set (dv_id d) (dv_userId d) m) [] devices.

(** The loop over [Object.entries(initialKeysPerDevice)]. *)
Fixpoint initial_loop (entries ciphertexts : list (jstr * jsval))
    (byDevice : list (jstr * InitialSessionEntry))
  : decision (list (jstr * InitialSessionEntry)) :=
  match entries with
  | [] => Granted byDevice
  | (deviceId, encryptedKey) :: rest =>
      if (js_length deviceId =? 0) || (MAX_DEVICE_ID <? js_length deviceId)
      then Denied 400 "INVALID_DEVICE_ID: deviceId must be 1-128 chars"
      else if negb (isBase64Standard encryptedKey MAX_KEY_B64)
      then Denied 400 "INVALID_ENCRYPTED_KEY: expected base64 up to 8 KB"
      else let cipher := default JUndef (assoc deviceId ciphertexts) in
      if negb (absent_or isBase64Standard cipher MAX_KEY_B64)
      then Denied 400 "INVALID_INITIATOR_CIPHERTEXT: expected base64 up to 8 KB"
      else if (MAX_INITIAL_SESSION_KEYS <=? Z.of_nat (length byDevice)) &&
              negb (bool_decide (is_Some (assoc deviceId byDevice)))
      then Denied 400 "too many initial keys"
      else initial_loop rest ciphertexts (map_set deviceId
             (mkEntry deviceId (default [] (text_of encryptedKey)) (text_of cipher)) byDevice)
  end.

(** The loop over the entries with the owners found. *)
Fixpoint check_owners (allowed : list jstr) (owners : list (jstr * option jstr))
    (entries : list InitialSessionEntry) : decision (list InitialSessionEntry) :=
  match entries with
  | [] => Granted []
  | entry :: rest =>
      match assoc (in_deviceId entry) owners with
      | None => Denied 403 "SESSION_KEY_UNKNOWN_DEVICE: device not found"
      | Some None => Denied 403 "SESSION_KEY_FOREIGN_DEVICE: device owner is not in this conversation"
      | Some (Some owner) =>
          if negb (bool_decide (owner ∈ allowed))
          then Denied 403 "SESSION_KEY_FOREIGN_DEVICE: device owner is not in this conversation"
          else match check_owners allowed owners rest with
          | Granted l => Granted (entry :: l)
          | Denied s e => Denied s e
          end
      end
  end.

Definition authorizeInitialSessionKeys (t : guard_tables) (allowedUserIds : list jstr)
    (initialKeysPerDevice initiatorCiphertextsPerDevice : list (jstr * jsval))
  : decision (list InitialSessionEntry) :=
  let allowed := set_of (filter (fun id => id <> []) allowedUserIds) in
  match initial_loop initialKeysPerDevice initiatorCiphertextsPerDevice [] with
  | Denied s e => Denied s e
  | Granted byDevice =>
      let deviceIds := initialKeysPerDevice.*1 in
      match deviceIds with
      | [] => Denied 400 "INITIAL_SESSION_EMPTY: no device keys provided"
      | _ => check_owners allowed (owner_map (or_empty (find_devices t deviceIds))) byDevice.*2
      end
  end.

Definition authorizeSessionKeyRelay (pepper : jstr) (ring : AtRest.AtRestKeyring) (t : guard_tables)
    (conversationId callerId : jstr) (sessionId keys : jsval)
  : decision (list ClientSessionKeyPayload) :=
  if bool_decide (conversationId = []) then Denied 400 "conversationId required" else
  match sessionId with
  | JStr sid =>
      if (js_length sid =? 0) || (MAX_SESSION_ID <? js_length sid) then Denied 400 "invalid sessionId" else
      match normalizeKeys keys with
      | Err error => Denied 400 error
      | Ok normalized =>
          if negb (bool_decide (callerId ∈ provenParticipants pepper ring t conversationId [callerId]))
          then Denied 403 "SESSION_KEY_NOT_PARTICIPANT: caller has no proof of membership in this conversation"
          else
          let deviceIds := map pl_deviceId normalized in
          let owners := owner_map (or_empty (find_devices t deviceIds)) in
          if existsb (fun id => negb (bool_decide (is_Some (assoc id owners)))) deviceIds
          then Denied 403 "SESSION_KEY_UNKNOWN_DEVICE: device not found" else
          let enrolled := set_of (or_empty (find_enrolled t conversationId deviceIds)) in
          if existsb (fun key => negb (bool_decide (assoc (pl_deviceId key) owners = Some (Some callerId))) &&
                                 negb (bool_decide (pl_deviceId key ∈ enrolled))) normalized
          then Denied 403 "SESSION_KEY_NOT_ENROLLED: device was never part of this conversation" else
          let peerIds := set_of (filter (fun o => o <> [] /\ o <> callerId)
            (map (fun key => default [] (default None (assoc (pl_deviceId key) owners))) normalized)) in
          let peerProven := provenParticipants pepper ring t conversationId (peerIds ++ [callerId]) in
          if negb (bool_decide (peerIds = [])) &&
             existsb (fun id => negb (bool_decide (id ∈ peerProven))) peerIds
          then Denied 403 "SESSION_KEY_UNKNOWN_PEER: target device owner is not a proven participant"
          else Granted normalized
      end
  | _ => Denied 400 "invalid sessionId"
  end.

(** [relaySessionKeys]: the rows of one request; [issuedByServer] keeps its
    default, [false]. *)
Definition key_record (conversationId sessionId : jstr) (k : ClientSessionKeyPayload) : sk_row :=
  mkSk conversationId sessionId (pl_deviceId k) (buffer_base64url (pl_encryptedKey k))
    (match pl_initiatorCiphertexts k with
     | None | Some [] => None | Some c => Some (buffer_base64url c) end)
    (pl_isInitiator k) false.

Definition relaySessionKeys (rows : list sk_row) (conversationId sessionId : jstr)
    (keys : list ClientSessionKeyPayload) : result (list sk_row) :=
  match keys with
  | [] => throw "No session keys provided for conversation"
  | _ => createMany_sessionKeys rows (map (key_record conversationId sessionId) keys)
  end.

(** POST /:conversationId/ratchet: [user] is the authenticated user, if any, and
    [known] whether the conversation exists. The tables afterwards, or the error of
    the response. *)
Definition post_ratchet (pepper : jstr) (ring : AtRest.AtRestKeyring) (t : guard_tables)
    (user : option jstr) (known : bool) (conversationId : jstr) (sessionId keys : jsval)
  : result guard_tables :=
  match user with
  | None => throw "Authentication required."
  | Some callerId =>
      if negb known then throw "Conversation not found" else
      match authorizeSessionKeyRelay pepper ring t conversationId callerId sessionId keys with
      | Denied _ error => Err error
      | Granted normalized =>
          rows ← relaySessionKeys (tb_sessionKeys t) conversationId (default [] (text_of sessionId)) normalized;
          Ok (mkTables (tb_members t) (tb_receipts t) (tb_devices t) rows)
      end
  end.
End Model.
Arguments Granted {A} a.
Arguments Denied {A} status error.
End Guard.

Section DeviceLemmas.
Import Guard.

Lemma owner_map_sound ds d o : assoc d (owner_map ds) = Some o -> mkDeviceRow d o ∈ ds.
Proof.
  intros Ha. apply assoc_elem in Ha. revert Ha. unfold owner_map.
  assert (Hg : forall m, (d, o) ∈ foldl (fun m r => map_set (dv_id r) (dv_userId r) m) m ds ->
    (d, o) ∈ m \/ mkDeviceRow d o ∈ ds).
  { induction ds as [|r ds IH]; intros m Hm; [by left|]. cbn [foldl] in Hm.
    apply IH in Hm as [Hm|Hm]; [|right; set_solver].
    apply map_set_elem in Hm as [[-> ->]|Hm]; [right; destruct r; set_solver|by left]. }
  intros Ha. destruct (Hg [] Ha) as [Hn|Hn]; [by apply not_elem_of_nil in Hn|done].
Qed.

Lemma owner_of_elem ds r : NoDup (map dv_id ds) -> r ∈ ds -> owner_of ds (dv_id r) = dv_userId r.
Proof.
  intros Hn Hin. unfold owner_of.
  destruct (list_find_elem_of (fun x => dv_id x = dv_id r) ds r Hin eq_refl) as [[i x] Ef].
  rewrite Ef. cbn. apply list_find_Some in Ef as (Hi & He & _).
  apply list_elem_of_lookup_1 in Hin as [j Hj].
  assert (Hij : i = j).
  { eapply (NoDup_lookup (map dv_id ds)); [done| |]; rewrite list_lookup_fmap;
      [by rewrite Hi; cbn; rewrite He|by rewrite Hj]. }
  subst j. rewrite Hi in Hj. by injection Hj as ->.
Qed.

Lemma existsb_false {A} (f : A -> bool) l x : existsb f l = false -> x ∈ l -> f x = false.
Proof.
  intros Hf Hx. destruct (f x) eqn:E; [|done]. rewrite <- Hf. symmetry. apply existsb_exists.
  exists x. split; [by apply list_elem_of_In|done].
Qed.
End DeviceLemmas.

Section GuardLemmas.
Import Guard.
Context `{SC : ServerCrypto, SL : SodiumLaws, !ServerCryptoLaws, MD : MembershipDbLaws, GD : GuardDbLaws}.
Context (pepper : jstr) (ring : AtRest.AtRestKeyring) (Hring : ring_ok ring).

(** The evidence of membership a client cannot write for itself. *)
Definition proven (t : guard_tables) (c u : jstr) : Prop :=
  is_member ring (tb_members t) c u \/
  (exists r, r ∈ tb_sessionKeys t /\ sr_conversation r = c /\ sr_issuedByServer r = true /\
     owner_of (tb_devices t) (sr_device r) = Some u) \/
  (exists r, r ∈ tb_receipts t /\ rc_conversation r = c /\
     rc_userTag r = Some (AtRest.conversationScopedTag pepper c u)).

(** Device ids are a primary key, and every device has an owner. *)
Definition tables_ok (t : guard_tables) : Prop :=
  NoDup (map dv_id (tb_devices t)) /\
  forall d, d ∈ tb_devices t -> exists o, dv_userId d = Some o /\ o <> [] /\ text_ok o = true.

Lemma members_sound t c wanted u :
  (forall v, v ∈ wanted -> text_ok v = true) ->
  u ∈ or_empty (Routing.filterConversationMembers ring (tb_members t) c (map JStr wanted)) ->
  u ∈ wanted /\ is_member ring (tb_members t) c u.
Proof.
  intros Htext. destruct (filter_members_eq ring (tb_members t) c (map JStr wanted) Hring)
    as (res & -> & _ & Hel).
  - intros v Hv. apply wanted_ids_elem in Hv as [Hv _]. apply Htext.
    apply list_elem_of_In, in_map_iff in Hv as (x & [= ->] & Hx). by apply list_elem_of_In.
  - cbn. rewrite Hel, wanted_ids_elem. intros [[Hu _] Hm]. split; [|done].
    apply list_elem_of_In, in_map_iff in Hu as (x & [= ->] & Hx). by apply list_elem_of_In.
Qed.

Lemma bootstrap_sound t c (wanted : list jstr) : forall members u,
  u ∈ foldl (fun members owner =>
        match owner with
        | Some o => if bool_decide (o ∈ wanted) then set_add members o else members
        | None => members
        end) members (or_empty (find_bootstrapOwners t c)) ->
  u ∈ members \/ (u ∈ wanted /\ proven t c u).
Proof.
  intros members u. rewrite (fold_elem _ (fun o u => o = Some u /\ u ∈ wanted)).
  - intros [Hu|(o & Ho & -> & Hw)]; [by left|right]. split; [done|]. right; left.
    destruct (find_bootstrapOwners t c) as [l|] eqn:El; cbn in Ho; [|by apply not_elem_of_nil in Ho].
    apply (find_bootstrapOwners_law t c l _ El) in Ho as (r & Hr & Hc & Hi & Ho). eauto.
  - intros acc [o|] v; [|naive_solver]. case_bool_decide; rewrite ?set_add_elem; naive_solver.
Qed.

Lemma receipts_sound t c remaining : forall members u,
  let tag := AtRest.conversationScopedTag pepper c in
  let tags := omap (fun row => row) (or_empty (find_receipts t c (map tag remaining))) in
  u ∈ foldl (fun members userId =>
        if bool_decide (tag userId ∈ tags) then set_add members userId else members) members remaining ->
  u ∈ members \/ (u ∈ remaining /\ proven t c u).
Proof.
  intros members u tag tags. rewrite (fold_elem _ (fun x u => x = u /\ tag u ∈ tags)).
  - intros [Hu|(x & Hx & -> & Ht)]; [by left|right]. split; [done|]. right; right.
    unfold tags in Ht. apply list_elem_of_omap in Ht as (o & Ho & ->).
    destruct (find_receipts t c _) as [l|] eqn:El; cbn in Ho; [|by apply not_elem_of_nil in Ho].
    apply (find_receipts_law _ _ _ _ _ El) in Ho as (r & g & Hr & Hc & Hg & _ & [= <-]). eauto.
  - intros acc x v. case_bool_decide; rewrite ?set_add_elem; naive_solver.
Qed.

(** The guard's positive answers are backed by evidence. *)
Lemma provenParticipants_sound t c ids u :
  (forall v, v ∈ ids -> v <> [] -> text_ok v = true) ->
  u ∈ provenParticipants pepper ring t c ids -> proven t c u.
Proof.
  intros Htext. unfold provenParticipants. set (wanted := set_of _).
  assert (Hw : forall v, v ∈ wanted -> text_ok v = true).
  { intros v Hv. apply set_of_elem, list_elem_of_filter in Hv as [Hne Hv]. by apply Htext. }
  destruct wanted as [|w ws] eqn:Ew; [intros Hu; by apply not_elem_of_nil in Hu|]. rewrite <- Ew in *.
  assert (Hmem : forall x, x ∈ set_of (or_empty
    (Routing.filterConversationMembers ring (tb_members t) c (map JStr wanted))) -> proven t c x).
  { intros x Hx. rewrite set_of_elem in Hx. apply members_sound in Hx as [_ Hx]; [by left|done]. }
  revert Hmem. generalize (set_of (or_empty
    (Routing.filterConversationMembers ring (tb_members t) c (map JStr wanted)))) as m0.
  intros m0 Hm0. pose proof (bootstrap_sound t c wanted m0) as Hb. revert Hb.
  match goal with |- context [foldl ?f m0 ?l] => generalize (foldl f m0 l) as m1 end.
  intros m1 Hm1. assert (Hp1 : forall x, x ∈ m1 -> proven t c x) by naive_solver.
  destruct (filter _ wanted) as [|x xs]; [apply Hp1|]. intros Hu.
  apply receipts_sound in Hu as [Hu|[_ Hu]]; [by apply Hp1|done].
Qed.

(** A device the guard found: it is real, and its owner is the table's. *)
Lemma found_owner t ids d o :
  tables_ok t -> assoc d (owner_map (or_empty (find_devices t ids))) = Some o ->
  exists u, o = Some u /\ u <> [] /\ text_ok u = true /\ owner_of (tb_devices t) d = Some u.
Proof.
  intros [Hn Ho] Ha. apply owner_map_sound in Ha.
  destruct (find_devices t ids) as [l|] eqn:El; cbn in Ha; [|by apply not_elem_of_nil in Ha].
  apply (find_devices_law _ _ _ _ El) in Ha as [Hin _].
  destruct (Ho _ Hin) as (u & Hu & Hne & Ht). cbn in Hu. exists u. split_and!; [done..|].
  pose proof (owner_of_elem _ _ Hn Hin) as He. cbn in He. congruence.
Qed.

(** What a granted relay request guarantees of the caller and of every key. *)
Lemma relay_granted t c caller sid keys granted :
  tables_ok t -> text_ok caller = true ->
  authorizeSessionKeyRelay pepper ring t c caller sid keys = Granted granted ->
  normalizeKeys keys = Ok granted /\ proven t c caller /\
  forall k, k ∈ granted -> exists o, owner_of (tb_devices t) (pl_deviceId k) = Some o /\ proven t c o /\
    (o = caller \/ exists r, r ∈ tb_sessionKeys t /\ sr_conversation r = c /\ sr_device r = pl_deviceId k).
Proof.
  intros Ht Hcaller. unfold authorizeSessionKeyRelay. case_bool_decide; [done|].
  destruct sid as [| | | |s| |]; try done. destruct (_ || _); [done|].
  destruct (normalizeKeys keys) as [norm|]; [|done].
  set (ids := map pl_deviceId norm). set (owners := owner_map _).
  case_bool_decide as Hcp; cbn [negb]; [|done].
  destruct (existsb _ ids) eqn:Hunk; [done|]. destruct (existsb _ norm) eqn:Henr; [done|].
  set (peers := set_of _). destruct (_ && _) eqn:Hpeer; [done|]. intros [= <-].
  assert (Hc : proven t c caller).
  { eapply provenParticipants_sound; [|exact Hcp].
    intros v Hv _. apply list_elem_of_singleton in Hv as ->. done. }
  split_and!; [done|done|]. intros k Hk.
  assert (Hid : pl_deviceId k ∈ ids) by (by apply list_elem_of_In, in_map, list_elem_of_In).
  apply (existsb_false _ _ _ Hunk) in Hid. apply negb_false_iff, bool_decide_eq_true in Hid as [o Ho].
  destruct (found_owner t _ _ _ Ht Ho) as (u & -> & Hne & Hu & Hown). exists u. split; [done|].
  apply (existsb_false _ _ _ Henr) in Hk as Hen. rewrite Ho in Hen.
  destruct (decide (u = caller)) as [->|Hnc]; [auto|].
  rewrite bool_decide_eq_false_2 in Hen by congruence. cbn [negb andb] in Hen.
  apply negb_false_iff, bool_decide_eq_true in Hen. rewrite set_of_elem in Hen. split.
  - assert (Hup : u ∈ peers).
    { apply set_of_elem, list_elem_of_filter. split; [done|]. apply list_elem_of_In, in_map_iff.
      exists k. rewrite Ho. split; [done|]. by apply list_elem_of_In. }
    rewrite bool_decide_eq_false_2 in Hpeer by (intros E; rewrite E in Hup; by apply not_elem_of_nil in Hup).
    cbn [negb andb] in Hpeer. apply (existsb_false _ _ _ Hpeer) in Hup.
    apply negb_false_iff, bool_decide_eq_true in Hup. eapply provenParticipants_sound; [|exact Hup].
    intros v Hv _. apply elem_of_app in Hv as [Hv|Hv]; [|by apply list_elem_of_singleton in Hv as ->].
    apply set_of_elem, list_elem_of_filter in Hv as [[Hv0 _] Hv].
    apply list_elem_of_In, in_map_iff in Hv as (k' & <- & _).
    destruct (assoc (pl_deviceId k') owners) as [o'|] eqn:Eo; [|done].
    destruct (found_owner t _ _ _ Ht Eo) as (w & -> & _ & Hw & _). done.
  - right. destruct (find_enrolled t c ids) as [l|] eqn:El; cbn in Hen; [|by apply not_elem_of_nil in Hen].
    apply (find_enrolled_law _ _ _ _ _ El) in Hen as [_ Hr]. done.
Qed.

(** One accepted request of the ratchet endpoint, by any caller. *)
Inductive ratchet_step (t : guard_tables) : guard_tables -> Prop :=
| rs_post user known c sid keys t' :
    (forall caller, user = Some caller -> text_ok caller = true) ->
    post_ratchet pepper ring t user known c sid keys = Ok t' -> ratchet_step t t'.

Lemma post_ratchet_rows t user known c sid keys t' :
  tables_ok t -> (forall caller, user = Some caller -> text_ok caller = true) ->
  post_ratchet pepper ring t user known c sid keys = Ok t' ->
  tb_members t' = tb_members t /\ tb_receipts t' = tb_receipts t /\ tb_devices t' = tb_devices t /\
  (forall row, row ∈ tb_sessionKeys t -> row ∈ tb_sessionKeys t') /\
  (forall row, row ∈ tb_sessionKeys t' -> row ∈ tb_sessionKeys t \/
    (sr_issuedByServer row = false /\ sr_conversation row = c /\
     exists o, owner_of (tb_devices t) (sr_device row) = Some o /\ proven t c o)).
Proof.
  intros Ht Hcaller. unfold post_ratchet. destruct user as [caller|]; [|done].
  specialize (Hcaller caller eq_refl). destruct known; [|done]. cbn [negb].
  destruct (authorizeSessionKeyRelay _ _ _ _ _ _ _) as [granted|] eqn:Eg; [|done].
  apply relay_granted in Eg as (_ & _ & Hg); [|done..]. intros Hp. unbind. cbn.
  unfold relaySessionKeys in E. destruct granted as [|k0 ks] eqn:Ek; [done|]. rewrite <- Ek in *.
  apply createMany_law in E. split_and!; [done..| |]; intros row; rewrite E, elem_of_app; [by right|].
  intros [Hrow|Hrow]; [|by left]. right.
  apply list_elem_of_In, in_map_iff in Hrow as (k & <- & Hk). apply list_elem_of_In in Hk.
  split_and!; [done..|]. destruct (Hg k Hk) as (o & Ho & Hpo & _). exists o. done.
Qed.

Lemma proven_ratchet t t' c u :
  tables_ok t -> ratchet_step t t' -> proven t' c u <-> proven t c u.
Proof.
  intros Ht [user known c0 sid keys t1 Hcaller Hp].
  destruct (post_ratchet_rows _ _ _ _ _ _ _ Ht Hcaller Hp) as (Hm & Hr & Hd & Hold & Hnew).
  unfold proven. rewrite Hm, Hr, Hd. do 2 f_equiv.
  split; intros (r & Hin & Hc & Hi & Ho); exists r; [|auto].
  apply Hnew in Hin as [Hin|(Hf & _)]; [done|congruence].
Qed.

(** C4: nobody can mint membership through the ratchet endpoint. However many
    requests are accepted, from whatever callers, the set of proven participants
    of every conversation is the one from before, and every row that was added is
    for a real device whose owner was already a proven participant; no added row
    counts as server-issued evidence. *)
Theorem relay_cannot_mint_membership t t' :
  tables_ok t -> rtc ratchet_step t t' ->
  (forall c u, proven t' c u <-> proven t c u) /\
  (forall row, row ∈ tb_sessionKeys t' -> row ∈ tb_sessionKeys t \/
     (sr_issuedByServer row = false /\
      exists o, owner_of (tb_devices t) (sr_device row) = Some o /\ proven t (sr_conversation row) o)).
Proof.
  intros Ht Hrtc. induction Hrtc as [t|t t1 t' Hs Hrtc IH]; [naive_solver|].
  assert (Hd : tb_devices t1 = tb_devices t /\ forall row, row ∈ tb_sessionKeys t1 ->
    row ∈ tb_sessionKeys t \/ (sr_issuedByServer row = false /\
      exists o, owner_of (tb_devices t) (sr_device row) = Some o /\ proven t (sr_conversation row) o)).
  { destruct Hs as [user known c sid keys t1 Hcaller Hp].
    destruct (post_ratchet_rows _ _ _ _ _ _ _ Ht Hcaller Hp) as (_ & _ & Hd & _ & Hrows).
    split; [done|]. intros row Hrow. apply Hrows in Hrow as [|(? & <- & ?)]; auto. }
  destruct Hd as [Hd Hrows]. destruct IH as [IHp IHr].
  { unfold tables_ok in *. by rewrite Hd. }
  split; [intros c u; rewrite IHp; by apply proven_ratchet|].
  intros row Hrow. apply IHr in Hrow as [Hrow|(Hi & o & Ho & Hpo)]; [by apply Hrows|].
  right. split; [done|]. exists o. rewrite Hd in Ho. split; [done|]. by apply (proven_ratchet t t1).
Qed.

(** Shape of a normalized key. *)
Definition payload_ok (k : ClientSessionKeyPayload) : Prop :=
  0 < js_length (pl_deviceId k) <= MAX_DEVICE_ID /\
  isBase64Url (JStr (pl_encryptedKey k)) MAX_KEY_B64 = true /\
  match pl_initiatorCiphertexts k with
  | Some c => isBase64Url (JStr c) MAX_KEY_B64 = true
  | None => True
  end.

Lemma normalize_loop_ok keys : forall m m',
  NoDup m.*1 -> (forall d k, (d, k) ∈ m -> d = pl_deviceId k /\ payload_ok k) ->
  normalize_loop keys m = Ok m' ->
  NoDup m'.*1 /\ (length m' <= length m + length keys)%nat /\
  (m = [] -> keys <> [] -> m' <> []) /\ (m <> [] -> m' <> []) /\
  forall d k, (d, k) ∈ m' -> d = pl_deviceId k /\ payload_ok k.
Proof.
  induction keys as [|raw keys IH]; cbn [normalize_loop]; intros m m' Hn Hm Hl.
  { simplify_eq. split_and!; auto with lia. }
  destruct (negb _) eqn:E0; [done|]. destruct (prop raw "deviceId") as [| | | |d| |]; try done.
  destruct (_ || _) eqn:E1; [done|]. destruct (prop raw "encryptedKey") as [| | | |ek| |]; try done.
  destruct (negb (isBase64Url (JStr ek) _)) eqn:E2; [done|].
  destruct (negb (absent_or _ _ _)) eqn:E3; [done|].
  apply orb_false_iff in E1 as [E1 E1']. apply negb_false_iff in E2, E3.
  apply Z.eqb_neq in E1. apply Z.ltb_ge in E1'.
  destruct (assoc d m) as [k0|] eqn:Ea.
  - apply IH in Hl as (Hn' & Hlen & _ & Hne & Hel); [|done..]. split_and!; [done|cbn; lia| |done|done].
    intros ->. discriminate.
  - apply IH in Hl as (Hn' & Hlen & _ & Hne & Hel).
    + rewrite map_set_new in Hlen, Hne by done. rewrite length_app in Hlen. cbn in Hlen.
      assert (Hm' : m' <> []) by (apply Hne; destruct m; discriminate).
      split_and!; [done|cbn; lia|done|done|done].
    + auto with nyx.
    + intros d' k' Hin. apply map_set_elem in Hin as [[-> ->]|Hin]; [|by apply Hm].
      split; [done|]. split; cbn [pl_deviceId pl_initiatorCiphertexts]; [|split; [done|]].
      * pose proof (js_length_nonneg d). unfold MAX_DEVICE_ID in *. lia.
      * destruct (prop raw "initiatorCiphertexts"); done.
Qed.

Lemma normalizeKeys_ok keys l :
  normalizeKeys keys = Ok l ->
  l <> [] /\ Z.of_nat (length l) <= MAX_RELAY_KEYS /\ NoDup (map pl_deviceId l) /\
  forall k, k ∈ l -> payload_ok k.
Proof.
  unfold normalizeKeys. destruct keys as [| | | | |keys|]; try done.
  destruct (_ =? 0) eqn:E0; [done|]. destruct (_ <? _) eqn:E1; [done|]. intros Hl. unbind. bools.
  apply normalize_loop_ok in E as (Hn & Hlen & Hne & _ & Hel); [|constructor|set_solver].
  assert (Hd : map pl_deviceId a.*2 = a.*1).
  { clear -Hel. induction a as [|[d k] a IH]; [done|]. cbn.
    rewrite IH by (intros; apply Hel; set_solver). destruct (Hel d k) as [-> _]; [set_solver|done]. }
  split_and!.
  - assert (Ha : a <> []) by (apply Hne; [done|]; intros ->; cbn in E0; lia). by destruct a.
  - rewrite length_fmap. cbn in Hlen. lia.
  - by rewrite Hd.
  - intros k Hk. apply list_elem_of_fmap in Hk as ([d x] & -> & Hk). by apply Hel in Hk as [_ Hk].
Qed.

(** A ratchet request passes the guard only when the caller is a proven
    participant and the request is well formed: between one and 500 keys, at most
    one per device, every text in the base64url alphabet and within its bound, and
    every device either the caller's own or one already enrolled in the
    conversation that belongs to a proven participant. *)
Theorem relay_request_checked t c caller sid keys granted :
  tables_ok t -> text_ok caller = true ->
  authorizeSessionKeyRelay pepper ring t c caller sid keys = Granted granted ->
  proven t c caller /\
  1 <= Z.of_nat (length granted) <= MAX_RELAY_KEYS /\
  NoDup (map pl_deviceId granted) /\
  forall k, k ∈ granted -> payload_ok k /\
    exists o, owner_of (tb_devices t) (pl_deviceId k) = Some o /\ proven t c o /\
      (o = caller \/ exists r, r ∈ tb_sessionKeys t /\ sr_conversation r = c /\ sr_device r = pl_deviceId k).
Proof.
  intros Ht Hcaller Hg. apply relay_granted in Hg as (Hn & Hp & Hk); [|done..].
  apply normalizeKeys_ok in Hn as (Hne & Hlen & Hnd & Hok). split_and!; [done| |done|done|].
  - destruct granted; [done|]. cbn. lia.
  - intros k Hin. split; [by apply Hok|by apply Hk].
Qed.

Lemma initial_loop_ok entries cts : forall m m',
  NoDup m.*1 -> (forall d e, (d, e) ∈ m -> d = in_deviceId e /\
    isBase64Standard (JStr (in_encryptedKey e)) MAX_KEY_B64 = true) ->
  Z.of_nat (length m) <= MAX_INITIAL_SESSION_KEYS ->
  initial_loop entries cts m = Granted m' ->
  NoDup m'.*1 /\ Z.of_nat (length m') <= MAX_INITIAL_SESSION_KEYS /\
  (m <> [] \/ entries <> [] -> m' <> []) /\
  (forall d e, (d, e) ∈ m' -> d = in_deviceId e /\
    isBase64Standard (JStr (in_encryptedKey e)) MAX_KEY_B64 = true).
Proof.
  induction entries as [|[d v] entries IH]; cbn [initial_loop]; intros m m' Hn Hm Hl Hg.
  { simplify_eq. split_and!; naive_solver. }
  destruct (_ || _); [done|]. destruct (negb (isBase64Standard v _)) eqn:E2; [done|].
  destruct (negb (absent_or _ _ _)); [done|]. destruct (_ && negb _) eqn:E4; [done|].
  apply negb_false_iff in E2. destruct v as [| | | |ek| |]; try done. cbn [text_of default] in Hg.
  apply IH in Hg as (Hn' & Hlen & Hne & Hel).
  - split_and!; [done|done| |done]. intros _. apply Hne. left. apply map_set_not_nil.
  - auto with nyx.
  - intros d' e Hin. apply map_set_elem in Hin as [[-> ->]|Hin]; [|by apply Hm]. done.
  - apply andb_false_iff in E4 as [E4|E4].
    + bools. match goal with |- context [map_set d ?e m] => destruct (map_set_length d e m) end; lia.
    + apply negb_false_iff, bool_decide_eq_true in E4 as [y Hy]. rewrite (map_set_old _ _ _ _ Hy). done.
Qed.

Lemma check_owners_ok allowed owners entries l :
  check_owners allowed owners entries = Granted l ->
  l = entries /\ forall e, e ∈ entries -> exists o, assoc (in_deviceId e) owners = Some (Some o) /\ o ∈ allowed.
Proof.
  revert l; induction entries as [|e entries IH]; cbn [check_owners]; intros l Hc.
  { simplify_eq. split; [done|]. intros e He. by apply not_elem_of_nil in He. }
  destruct (assoc (in_deviceId e) owners) as [[o|]|] eqn:Ea; try done. case_bool_decide as Ho; [|done].
  cbn [negb] in Hc. destruct (check_owners _ _ entries) as [l'|]; [|done]. simplify_eq.
  destruct (IH l' eq_refl) as [-> Hall]. split; [done|].
  intros x [->|Hx]%elem_of_cons; [by exists o|by apply Hall].
Qed.

(** Creating a conversation enrols only devices of its participants. When the
    initial session keys are accepted there is at least one and at most 500, one
    per device, each key is standard base64 of at most 8 KB, and every device
    exists and belongs to one of the users the conversation is created for. *)
Theorem initial_keys_owned t allowed ks cts entries :
  tables_ok t ->
  authorizeInitialSessionKeys t allowed ks cts = Granted entries ->
  1 <= Z.of_nat (length entries) <= MAX_INITIAL_SESSION_KEYS /\
  NoDup (map in_deviceId entries) /\
  forall e, e ∈ entries ->
    isBase64Standard (JStr (in_encryptedKey e)) MAX_KEY_B64 = true /\
    exists o, owner_of (tb_devices t) (in_deviceId e) = Some o /\ o ∈ allowed.
Proof.
  intros Ht. unfold authorizeInitialSessionKeys.
  destruct (initial_loop _ _ _) as [m|] eqn:Em; [|done].
  destruct (ks.*1) as [|d ds] eqn:Ek; [done|]. rewrite <- Ek. intros Hc.
  apply check_owners_ok in Hc as [-> Hall].
  apply initial_loop_ok in Em as (Hn & Hlen & Hne & Hel);
    [|constructor|by intros ? ? ?%not_elem_of_nil|done].
  assert (Hd : map in_deviceId m.*2 = m.*1).
  { clear -Hel. induction m as [|[x e] m IH]; [done|]. cbn.
    rewrite IH by (intros; apply Hel; set_solver). destruct (Hel x e) as [-> _]; [set_solver|done]. }
  split_and!.
  - rewrite length_fmap. assert (m <> []) by (apply Hne; right; by destruct ks). destruct m; [done|cbn; lia].
  - by rewrite length_fmap.
  - by rewrite Hd.
  - intros e He. split.
    + apply list_elem_of_fmap in He as ([x y] & -> & He). by apply Hel in He as [_ He].
    + destruct (Hall e He) as (o & Ho & Hin). destruct (found_owner t _ _ _ Ht Ho) as (u & [= <-] & _ & _ & Hu).
      exists o. split; [done|]. rewrite set_of_elem in Hin. by apply list_elem_of_filter in Hin as [_ ?].
Qed.
End GuardLemmas.

(** In-memory tables, for the concrete runs. *)
Module ToyGuard.
#[export] Instance toy_guard : GuardDb := {|
  find_bootstrapOwners t c := Ok (map (fun r => owner_of (tb_devices t) (sr_device r))
    (filter (fun r => sr_conversation r = c /\ sr_issuedByServer r = true) (tb_sessionKeys t)));
  find_receipts t c tags := Ok (map rc_userTag (filter (fun r => rc_conversation r = c /\
    match rc_userTag r with Some g => bool_decide (g ∈ tags) | None => false end = true) (tb_receipts t)));
  find_devices t ids := Ok (filter (fun r => dv_id r ∈ ids) (tb_devices t));
  find_enrolled t c ids := Ok (map sr_device
    (filter (fun r => sr_conversation r = c /\ sr_device r ∈ ids) (tb_sessionKeys t)));
  createMany_sessionKeys t rows := Ok (rows ++ t);
  buffer_base64url s := match of_js s with
    | Some text => match bytesFromBase64Url text with Ok b => b | Err _ => [] end
    | None => [] end |}.

Lemma map_filter_elem {A B} (f : A -> B) (P : A -> Prop) `{forall x, Decision (P x)} l y :
  y ∈ map f (filter P l) <-> exists x, x ∈ l /\ P x /\ y = f x.
Proof. rewrite list_elem_of_fmap. setoid_rewrite list_elem_of_filter. naive_solver. Qed.

#[export] Instance toy_guard_laws : GuardDbLaws.
Proof.
  split; cbn.
  - intros t c l o [= <-]. rewrite map_filter_elem. naive_solver.
  - intros t c tags l o [= <-]. rewrite map_filter_elem. split.
    + intros (r & Hr & [Hc Hg] & ->). destruct (rc_userTag r) as [g|] eqn:E; [|done].
      apply bool_decide_eq_true in Hg. exists r, g. auto.
    + intros (r & g & Hr & Hc & Hg & Hin & ->). exists r. rewrite Hg, bool_decide_eq_true. auto.
  - intros t ids l r [= <-]. rewrite list_elem_of_filter. tauto.
  - intros t c ids l d [= <-]. rewrite map_filter_elem. naive_solver.
  - intros t rows t' [= <-]. done.
Qed.
End ToyGuard.

Section GuardWitnesses.
Import Guard Toy ToyServer ToyMembers ToyGuard.

(** One device of one user, enrolled when the conversation was created. *)
Definition demo_tables : guard_tables :=
  mkTables [] [] [mkDeviceRow (js "dev") (Some (js "user-1"))]
    [mkSk (js "conv") (js "s0") (js "dev") [] None true true].

Definition demo_key : jsval :=
  JObj [(js "deviceId", JStr (js "dev")); (js "encryptedKey", JStr (js "QUJD"))].

Lemma demo_tables_ok : tables_ok demo_tables.
Proof.
  split; [apply NoDup_singleton|]. intros d Hd. apply list_elem_of_singleton in Hd as ->.
  exists (js "user-1"). repeat split. discriminate.
Qed.

Lemma relay_cannot_mint_membership_witness :
  match demo_ring2 with
  | Ok r => exists t', post_ratchet (js "p") r demo_tables (Some (js "user-1")) true (js "conv") (JStr (js "s1"))
        (JArr [demo_key]) = Ok t' /\
      forall c u, proven (js "p") r t' c u <-> proven (js "p") r demo_tables c u
  | Err _ => False
  end.
Proof.
  destruct demo_ring2 as [r|] eqn:E; [|vm_compute in E; discriminate E].
  destruct (post_ratchet (js "p") r demo_tables (Some (js "user-1")) true (js "conv") (JStr (js "s1"))
    (JArr [demo_key])) as [t'|] eqn:Et.
  2: { vm_compute in E. injection E as <-. vm_compute in Et. discriminate Et. }
  exists t'. split; [reflexivity|].
  refine (proj1 (relay_cannot_mint_membership (js "p") r (demo_ring_ok r E) demo_tables t' demo_tables_ok _)).
  apply rtc_once. refine (rs_post _ _ _ _ _ _ _ _ _ _ Et). intros caller [= <-]. vm_compute. reflexivity.
Defined.

Lemma relay_request_checked_witness :
  match demo_ring2 with
  | Ok r => match authorizeSessionKeyRelay (js "p") r demo_tables (js "conv") (js "user-1")
        (JStr (js "s1")) (JArr [demo_key]) with
    | Granted granted => proven (js "p") r demo_tables (js "conv") (js "user-1")
    | Denied _ _ => False end
  | Err _ => False
  end.
Proof.
  destruct demo_ring2 as [r|] eqn:E; [|vm_compute in E; discriminate E].
  destruct (authorizeSessionKeyRelay (js "p") r demo_tables (js "conv") (js "user-1")
    (JStr (js "s1")) (JArr [demo_key])) as [granted|] eqn:Eg.
  - exact (proj1 (relay_request_checked (js "p") r (demo_ring_ok r E) demo_tables (js "conv")
      (js "user-1") (JStr (js "s1")) (JArr [demo_key]) granted demo_tables_ok eq_refl Eg)).
  - vm_compute in E. injection E as <-. vm_compute in Eg. discriminate Eg.
Defined.

Lemma initial_keys_owned_witness :
  exists entries, authorizeInitialSessionKeys demo_tables [js "user-1"]
      [(js "dev", JStr (js "QUJD"))] [] = Granted entries /\ NoDup (map in_deviceId entries).
Proof.
  destruct (authorizeInitialSessionKeys demo_tables [js "user-1"] [(js "dev", JStr (js "QUJD"))] [])
    as [entries|] eqn:E; [|vm_compute in E; discriminate E].
  exists entries. split; [reflexivity|].
  exact (proj1 (proj2 (initial_keys_owned demo_tables [js "user-1"] [(js "dev", JStr (js "QUJD"))] []
    entries demo_tables_ok E))).
Defined.
End GuardWitnesses.
