(* ===== verification/JsDate.v ===== *)
(** Dates: the ISO text of a time value ([Date.prototype.toISOString]) and its
    reading back by [new Date(text)]. A time value is a number of milliseconds
    since 1970; the calendar is the proleptic Gregorian one. *)
From S2P Require Import Prelude Bytes Base64 Utf8 Js.

(** Year, month and day of a day number, by 400-year eras starting in March. *)
Definition civil_from_days (days : Z) : Z * Z * Z :=
  let z := days + 719468 in
  let era := z / 146097 in
  let doe := z mod 146097 in
  let yoe := (doe - doe / 1460 + doe / 36524 - doe / 146096) / 365 in
  let doy := doe - (365 * yoe + yoe / 4 - yoe / 100) in
  let mp := (5 * doy + 2) / 153 in
  let d := doy - (153 * mp + 2) / 5 + 1 in
  let m := if mp <? 10 then mp + 3 else mp - 9 in
  let y := yoe + era * 400 + (if m <=? 2 then 1 else 0) in
  (y, m, d).

Definition days_from_civil (y m d : Z) : Z :=
  let y := if m <=? 2 then y - 1 else y in
  let era := y / 400 in
  let yoe := y mod 400 in
  let doy := (153 * (if 2 <? m then m - 3 else m + 9) + 2) / 5 + d - 1 in
  let doe := yoe * 365 + yoe / 4 - yoe / 100 + doy in
  era * 146097 + doe - 719468.

(** The last [n] decimal digits of a number. *)
Fixpoint digits (n : nat) (v : Z) : jstr :=
  match n with 0%nat => [] | S k => digits k (v / 10) ++ [48 + v mod 10] end.
Definition number (s : jstr) : Z := foldl (fun acc c => 10 * acc + (c - 48)) 0 s.

(** The largest time value, 8.64e15 ms on either side of 1970. *)
Definition MAX_TIME : Z := 8640000000000000.

(** [toISOString]: [None] is the RangeError of an invalid time value. *)
Definition toISOString (t : Z) : option jstr :=
  if Z.abs t <=? MAX_TIME then
    let days := t / 86400000 in
    let ms := t mod 86400000 in
    let '(y, m, d) := civil_from_days days in
    let year := if (0 <=? y) && (y <=? 9999) then digits 4 y
                else (if y <? 0 then js "-" else js "+") ++ digits 6 (Z.abs y) in
    Some (year ++ js "-" ++ digits 2 m ++ js "-" ++ digits 2 d ++ js "T" ++
          digits 2 (ms / 3600000) ++ js ":" ++ digits 2 (ms / 60000 mod 60) ++ js ":" ++
          digits 2 (ms / 1000 mod 60) ++ js "." ++ digits 3 (ms mod 1000) ++ js "Z")
  else None.

(** The time value of a 24-character text read at the positions of the format. *)
Definition iso_time (s : jstr) : Z :=
  let field (i n : nat) := number (take n (drop i s)) in
  days_from_civil (field 0%nat 4%nat) (field 5%nat 2%nat) (field 8%nat 2%nat) * 86400000 +
  field 11%nat 2%nat * 3600000 + field 14%nat 2%nat * 60000 + field 17%nat 2%nat * 1000 +
  field 20%nat 3%nat.

(** [new Date(s).getTime()], [None] for NaN. A text in the format of
    [toISOString] is read as the standard prescribes; what an engine makes of any
    other text is [other]. *)
Definition date_parse (other : jstr -> option Z) (s : jstr) : option Z :=
  if bool_decide (toISOString (iso_time s) = Some s) then Some (iso_time s) else other s.

(** ** Round trip *)

Lemma era_bounds doe :
  0 <= doe < 146097 ->
  let yoe := (doe - doe / 1460 + doe / 36524 - doe / 146096) / 365 in
  0 <= yoe <= 399 /\ 0 <= doe - (365 * yoe + yoe / 4 - yoe / 100) <= 365.
Proof.
  intros Hd yoe.
  assert (Hb : doe / 36524 = 0 \/ doe / 36524 = 1 \/ doe / 36524 = 2 \/ doe / 36524 = 3 \/ doe / 36524 = 4)
    by dlia.
  assert (Hc : doe / 146096 = 0 /\ doe < 146096 \/ doe / 146096 = 1 /\ doe = 146096) by dlia.
  unfold yoe. destruct Hc as [[-> Hc]|[-> ->]]; [|vm_compute; intuition discriminate].
  assert (H399 : 0 <= (doe - doe / 1460 + doe / 36524 - 0) / 365 <= 399)
    by (destruct Hb as [E|[E|[E|[E|E]]]]; rewrite E; dlia).
  split; [exact H399|]. revert H399. set (x := (doe - doe / 1460 + doe / 36524 - 0) / 365).
  intros Hx.
  assert (H100 : x / 100 = 0 \/ x / 100 = 1 \/ x / 100 = 2 \/ x / 100 = 3) by dlia.
  unfold x in *. destruct Hb as [E|[E|[E|[E|E]]]]; rewrite E in *;
    destruct H100 as [E'|[E'|[E'|E']]]; rewrite E'; dlia.
Qed.

Lemma civil_ranges days :
  let '(y, m, d) := civil_from_days days in 1 <= m <= 12 /\ 1 <= d <= 31.
Proof.
  unfold civil_from_days. set (doe := (days + 719468) mod 146097).
  assert (0 <= doe < 146097) by (apply Z.mod_pos_bound; lia). clearbody doe.
  set (yoe := (doe - doe / 1460 + doe / 36524 - doe / 146096) / 365).
  destruct (era_bounds doe) as [Hy Hdoy]; [lia|]. fold yoe in Hy, Hdoy. clearbody yoe.
  set (doy := doe - _) in *. set (mp := (5 * doy + 2) / 153).
  assert (0 <= mp <= 11) by (unfold mp; dlia).
  destruct (mp <? 10) eqn:E; bools; (split; [lia|]); unfold mp; dlia.
Qed.

Lemma days_roundtrip days :
  let '(y, m, d) := civil_from_days days in days_from_civil y m d = days.
Proof.
  unfold civil_from_days, days_from_civil. set (doe := (days + 719468) mod 146097).
  assert (Hdoe : 0 <= doe < 146097) by (apply Z.mod_pos_bound; lia).
  pose proof (Z.div_mod (days + 719468) 146097 ltac:(lia)) as Hz. fold doe in Hz.
  set (era := (days + 719468) / 146097) in *. clearbody doe era.
  set (yoe := (doe - doe / 1460 + doe / 36524 - doe / 146096) / 365).
  destruct (era_bounds doe) as [Hy Hdoy]; [lia|]. fold yoe in Hy, Hdoy. clearbody yoe.
  set (doy := doe - _) in *. set (mp := (5 * doy + 2) / 153).
  assert (Hmp : 0 <= mp <= 11) by (unfold mp; dlia).
  assert (Hdiv : forall x, x = yoe + era * 400 -> x / 400 = era /\ x mod 400 = yoe) by (intros; dlia).
  destruct (mp <? 10) eqn:E; bools.
  - replace (mp + 3 <=? 2) with false by lia. replace (2 <? mp + 3) with true by lia.
    destruct (Hdiv (yoe + era * 400 + 0)) as [-> ->]; [lia|]. replace (mp + 3 - 3) with mp by lia. lia.
  - replace (mp - 9 <=? 2) with true by lia. replace (2 <? mp - 9) with false by lia.
    destruct (Hdiv (yoe + era * 400 + 1 - 1)) as [-> ->]; [lia|]. replace (mp - 9 + 9) with mp by lia. lia.
Qed.

Lemma year_bounds y m d :
  1 <= m <= 12 -> 1 <= d <= 31 -> 0 <= days_from_civil y m d < 2932897 -> 0 <= y <= 9999.
Proof.
  intros Hm Hd. unfold days_from_civil. set (y' := if m <=? 2 then y - 1 else y).
  set (mp := if 2 <? m then m - 3 else m + 9).
  assert (Hy : y' = y /\ 0 <= mp <= 9 \/ y' = y - 1 /\ 10 <= mp <= 11).
  { unfold y', mp. destruct (Z.leb_spec m 2), (Z.ltb_spec 2 m); lia. }
  clearbody y' mp. pose proof (Z.mod_pos_bound y' 400 ltac:(lia)).
  pose proof (Z.div_mod y' 400 ltac:(lia)) as Hy'. set (era := y' / 400) in *. set (yoe := y' mod 400) in *.
  clearbody era yoe. assert (Hdoy : 0 <= (153 * mp + 2) / 5 + d - 1 <= 400) by dlia.
  assert (Hdoy' : 10 <= mp -> 306 <= (153 * mp + 2) / 5 + d - 1) by dlia.
  set (doy := (153 * mp + 2) / 5 + d - 1) in *. clearbody doy. intros Hr.
  assert (H4 : 0 <= yoe / 4 - yoe / 100 <= 96) by dlia.
  assert (H399 : yoe = 399 -> yoe / 4 - yoe / 100 = 96) by (intros ->; reflexivity).
  set (q := yoe / 4 - yoe / 100) in *. replace (yoe / 4 - yoe / 100) with q in Hr by done.
  assert (Hera : -1 < era + 5 /\ era < 25) by (unfold q in *; lia).
  lia.
Qed.

(** Times from 1970 up to the end of the year 9999. *)
Definition iso_range (t : Z) : Prop := 0 <= t < 253402300800000.

Lemma number_digits2 v : 0 <= v < 100 -> number (digits 2 v) = v.
Proof. intros. unfold number. cbn [digits app foldl]. dlia. Qed.
Lemma number_digits3 v : 0 <= v < 1000 -> number (digits 3 v) = v.
Proof. intros. unfold number. cbn [digits app foldl]. dlia. Qed.
Lemma number_digits4 v : 0 <= v < 10000 -> number (digits 4 v) = v.
Proof. intros. unfold number. cbn [digits app foldl]. dlia. Qed.

Lemma iso_roundtrip t :
  iso_range t -> exists s, toISOString t = Some s /\ iso_time s = t /\ forall other, date_parse other s = Some t.
Proof.
  unfold iso_range. intros Ht. unfold toISOString. replace (Z.abs t <=? MAX_TIME) with true by (unfold MAX_TIME; lia).
  pose proof (civil_ranges (t / 86400000)) as Hr. pose proof (days_roundtrip (t / 86400000)) as Hd.
  destruct (civil_from_days (t / 86400000)) as [[y m] d] eqn:Ec. destruct Hr as [Hm Hdd].
  assert (Hy : 0 <= y <= 9999) by (apply (year_bounds y m d); [done..|rewrite Hd; dlia]).
  replace ((0 <=? y) && (y <=? 9999)) with true by lia.
  set (s := digits 4 y ++ _). assert (Hs : iso_time s = t).
  { unfold iso_time.
    change (take 4 (drop 0 s)) with (digits 4 y). change (take 2 (drop 5 s)) with (digits 2 m).
    change (take 2 (drop 8 s)) with (digits 2 d).
    change (take 2 (drop 11 s)) with (digits 2 (t mod 86400000 / 3600000)).
    change (take 2 (drop 14 s)) with (digits 2 (t mod 86400000 / 60000 mod 60)).
    change (take 2 (drop 17 s)) with (digits 2 (t mod 86400000 / 1000 mod 60)).
    change (take 3 (drop 20 s)) with (digits 3 (t mod 86400000 mod 1000)).
    rewrite number_digits4, number_digits3, !number_digits2, Hd by dlia. dlia. }
  exists s. split_and!; [done|done|]. intros other. unfold date_parse. rewrite Hs.
  rewrite bool_decide_eq_true_2; [done|]. unfold toISOString.
  replace (Z.abs t <=? MAX_TIME) with true by (unfold MAX_TIME; lia). rewrite Ec.
  by replace ((0 <=? y) && (y <=? 9999)) with true by lia.
Qed.

(** The separator of composite cursors never occurs in a date. *)
Lemma iso_no_bar t s : toISOString t = Some s -> forallb (fun c => negb (c =? 124)) s = true.
Proof.
  assert (Hd : forall n v, forallb (fun c => negb (c =? 124)) (digits n v) = true).
  { induction n as [|n IH]; intros v; [done|]. cbn [digits]. rewrite forallb_app, IH. cbn.
    pose proof (Z.mod_pos_bound v 10 ltac:(lia)). lia. }
  unfold toISOString. destruct (_ <=? _); [|done]. destruct (civil_from_days _) as [[y m] d].
  intros Hs. apply (inj Some) in Hs. subst s. rewrite !forallb_app, !Hd. 
  destruct ((0 <=? y) && (y <=? 9999)); [by rewrite Hd|].
  destruct (y <? 0); by rewrite forallb_app, Hd.
Qed.
