(* ===== verification/LocalAtRest.v ===== *)
(** Values at rest on the device: [encryptValueAtRest] and [decryptValueAtRest] of
    web/src/lib/keychainDb.ts and the typed columns built on them in
    web/src/lib/localAtRest.ts (numbers, texts and flags that are sealed, with the
    plaintext rows of older versions still readable). *)
From stdpp Require Import pretty.
From S2P Require Import Prelude Bytes Base64 Utf8 Text Js JsDate PqWire Sodium.
From Stdlib Require Import Ascii.

(** [Number(text)] for texts of integers: white space is trimmed, the empty text is
    zero. Fractions, exponents and radix prefixes do not occur in the columns. *)
Definition js_digit (c : Z) : bool := (48 <=? c) && (c <=? 57).
Definition js_Number (s : jstr) : option Z :=
  let s := trim s in
  match s with
  | [] => Some 0
  | c :: rest =>
      let '(sign, ds) := if c =? 45 then (-1, rest) else if c =? 43 then (1, rest) else (1, s) in
      match ds with
      | [] => None
      | _ => if forallb js_digit ds then Some (sign * number ds) else None
      end
  end.

Module LocalAtRest.

Definition AT_REST_PREFIX : jstr := js "ENC1:".
Definition LOCAL_TIME_BUCKET_MS : Z := 15 * 60 * 1000.

(** What a column of a local table can hold. *)
Inductive column := CNull | CNum (n : Z) | CStr (s : jstr) | CBool (b : bool).

Section Ops.
Context `{Sodium}.

(** [masterSeed] is [None] while the vault is locked; [nonce] is what the worker
    draws. *)
Definition encryptValueAtRest (masterSeed : option bytes) (nonce : bytes) (value : jstr) : result jstr :=
  if startsWith AT_REST_PREFIX value then Ok value else
  match masterSeed with
  | None => throw "masterSeed belum tersedia — nilai tidak disegel dan tidak boleh ditulis plaintext"
  | Some seed =>
      b ← encrypt_session_key nonce (utf8_encode value) seed;
      Ok (AT_REST_PREFIX ++ js (to_base64 b))
  end.

Definition decryptValueAtRest (masterSeed : option bytes) (value : jstr) : option jstr :=
  if negb (startsWith AT_REST_PREFIX value) then Some value else
  match masterSeed with
  | None => None
  | Some seed =>
      match of_js (drop (length AT_REST_PREFIX) value) with
      | None => None
      | Some text =>
          match (b ← from_base64 text; decrypt_session_key b seed) with
          | Ok plain => Some (utf8_decode plain)
          | Err _ => None
          end
      end
  end.

Definition sealLocalNumber (seed : option bytes) (nonce : bytes) (value : option Z) : result (option jstr) :=
  match value with
  | None => Ok None
  | Some n => s ← encryptValueAtRest seed nonce (js (pretty n)); Ok (Some s)
  end.

Definition openLocalNumber (seed : option bytes) (raw : column) : option Z :=
  match raw with
  | CNum n => Some n
  | CStr [] => None
  | CStr s =>
      if startsWith AT_REST_PREFIX s then
        match decryptValueAtRest seed s with
        | None | Some [] => None
        | Some plain => js_Number plain
        end
      else js_Number s
  | _ => None
  end.

Definition sealLocalText (seed : option bytes) (nonce : bytes) (value : option jstr) : result (option jstr) :=
  match value with
  | None | Some [] => Ok None
  | Some s => e ← encryptValueAtRest seed nonce s; Ok (Some e)
  end.

Definition openLocalText (seed : option bytes) (raw : column) : option jstr :=
  match raw with
  | CStr [] => None
  | CStr s => if negb (startsWith AT_REST_PREFIX s) then Some s else decryptValueAtRest seed s
  | _ => None
  end.

Definition sealLocalFlag (seed : option bytes) (nonce : bytes) (value : option bool) : result (option jstr) :=
  match value with
  | None => Ok None
  | Some b => s ← encryptValueAtRest seed nonce (js (if b then "true" else "false")); Ok (Some s)
  end.

Definition flag_of_text (s : jstr) : option bool :=
  if bool_decide (s = js "true") then Some true
  else if bool_decide (s = js "false") then Some false else None.

Definition openLocalFlag (seed : option bytes) (raw : column) : option bool :=
  match raw with
  | CBool b => Some b
  | CStr s =>
      match flag_of_text s with
      | Some b => Some b
      | None =>
          if negb (startsWith AT_REST_PREFIX s) then None
          else decryptValueAtRest seed s ≫= flag_of_text
      end
  | _ => None
  end.

(** [parse] is [Date.parse]. *)
Definition bucketLocalTimestamp (parse : jstr -> option Z) (value : option (jstr + Z)) : option jstr :=
  let ms := match value with
    | None | Some (inl []) => None
    | Some (inl s) => parse s
    | Some (inr t) => Some t
    end in
  ms ≫= fun ms => toISOString (ms / LOCAL_TIME_BUCKET_MS * LOCAL_TIME_BUCKET_MS).

End Ops.
End LocalAtRest.
Import LocalAtRest.

(** ** Decimal texts of integers *)
Lemma number_foldl s : forall acc,
  foldl (fun acc c => 10 * acc + (c - 48)) acc s = acc * 10 ^ Z.of_nat (length s) + number s.
Proof.
  induction s as [|c s IH] using rev_ind; intros acc; [cbn; lia|].
  unfold number. rewrite !foldl_app. cbn [foldl]. rewrite IH. fold (number s).
  rewrite length_app, Nat.add_1_r, Nat2Z.inj_succ, Z.pow_succ_r by lia. ring.
Qed.

Lemma number_cons c s : number (c :: s) = (c - 48) * 10 ^ Z.of_nat (length s) + number s.
Proof. unfold number at 1. cbn [foldl]. rewrite number_foldl. lia. Qed.

Lemma pretty_char_code x : (x < 10)%N -> code (pretty_N_char x) = Z.of_N x + 48.
Proof.
  intros Hx.
  assert (x = 0 \/ x = 1 \/ x = 2 \/ x = 3 \/ x = 4 \/ x = 5 \/ x = 6 \/ x = 7 \/ x = 8 \/ x = 9)%N
    as Hc by lia.
  by repeat destruct Hc as [->|Hc]; subst.
Qed.

Lemma number_pretty_go x : forall s,
  number (js (pretty_N_go x s)) = Z.of_N x * 10 ^ Z.of_nat (String.length s) + number (js s).
Proof.
  induction (N.lt_wf_0 x) as [x _ IH]. intros s.
  assert (x = 0 ∨ 0 < x)%N as [->|Hx] by lia; [rewrite pretty_N_go_0; lia|].
  rewrite pretty_N_go_step by done. rewrite IH by (by apply N.div_lt).
  cbn [js String.length]. rewrite number_cons, pretty_char_code by (by apply N.mod_lt).
  assert (Hl : length (js s) = String.length s) by (clear; induction s; cbn; congruence).
  rewrite Hl, Nat2Z.inj_succ, Z.pow_succ_r by lia.
  pose proof (N.div_mod x 10 ltac:(done)) as Hd. apply (f_equal Z.of_N) in Hd. nia.
Qed.

Lemma number_pretty n : 0 <= n -> number (js (pretty n)) = n.
Proof.
  intros Hn. destruct n as [|p|p]; [done| |lia].
  change (number (js (if decide (N.pos p = 0%N) then "0" else pretty_N_go (N.pos p) "")) = Z.pos p).
  destruct (decide (N.pos p = 0%N)); [done|]. rewrite number_pretty_go. cbn. lia.
Qed.

Lemma decimal_js s : decimal s = true -> forallb js_digit (js s) = true.
Proof.
  induction s as [|c s IH]; [done|]. unfold decimal in *. cbn. intros [Hc Hs]%andb_true_iff.
  rewrite IH by done. rewrite andb_true_r. revert Hc. clear.
  destruct c as [[] [] [] [] [] [] [] []]; vm_compute; auto.
Qed.

Lemma digit_not_space c : js_digit c = true -> js_space c = false.
Proof.
  unfold js_digit. intros Hc. bools.
  assert (c = 48 \/ c = 49 \/ c = 50 \/ c = 51 \/ c = 52 \/ c = 53 \/ c = 54 \/ c = 55 \/ c = 56 \/ c = 57)
    as Hd by lia.
  by repeat destruct Hd as [->|Hd]; subst.
Qed.

Lemma trim_start_id s : (forall c, head s = Some c -> js_space c = false) -> trim_start s = s.
Proof. destruct s as [|c s]; [done|]. intros Hc. cbn. by rewrite (Hc c). Qed.

Lemma trim_id c s : js_space c = false -> forallb js_digit s = true -> trim (c :: s) = c :: s.
Proof.
  intros Hc Hs. unfold trim. rewrite (trim_start_id (c :: s)) by (by intros ? [= <-]).
  rewrite (trim_start_id (rev (c :: s))); [by rewrite rev_involutive|].
  intros d Hd. destruct (rev s) as [|e l] eqn:E.
  - cbn in Hd. rewrite E in Hd. by injection Hd as <-.
  - cbn in Hd. rewrite E in Hd. injection Hd as <-. apply digit_not_space.
    rewrite forallb_forall in Hs. apply Hs. apply in_rev. rewrite E. by left.
Qed.

Lemma pretty_nonempty n : 0 <= n -> exists c s, js (pretty n) = c :: s.
Proof.
  intros Hn. destruct (js (pretty n)) as [|c s] eqn:E; [|by eexists _, _].
  exfalso. pose proof (inj pretty n 0) as Hi. destruct (pretty n) as [|c s] eqn:Ep; [|done].
  destruct n as [|p|p]; [done| |lia].
  change (pretty (Z.pos p)) with (if decide (N.pos p = 0%N) then "0" else pretty_N_go (N.pos p) "") in Ep.
  destruct (decide (N.pos p = 0%N)); [done|].
  pose proof (number_pretty_go (N.pos p) "") as Hg. rewrite Ep in Hg. cbn in Hg. lia.
Qed.

Lemma js_Number_pretty (n : Z) : js_Number (js (pretty n)) = Some n.
Proof.
  destruct (Z.lt_ge_cases n 0) as [Hn|Hn].
  - destruct n as [|p|p]; try lia. change (pretty (Z.neg p)) with ("-" +:+ pretty (Z.pos p)).
    rewrite js_app. pose proof (decimal_js _ (pretty_decimal (Z.pos p) ltac:(lia))) as Hd.
    change (js "-") with [45]. cbn [app]. unfold js_Number. rewrite trim_id by done.
    change (45 =? 45) with true. cbn iota.
    pose proof (number_pretty (Z.pos p) ltac:(lia)) as Hnum.
    destruct (pretty_nonempty (Z.pos p) ltac:(lia)) as (c & s & E).
    destruct (js (pretty (Z.pos p))) as [|d l]; [done|]. rewrite Hd, Hnum. done.
  - pose proof (decimal_js _ (pretty_decimal n ltac:(lia))) as Hd.
    pose proof (number_pretty n ltac:(lia)) as Hnum.
    destruct (pretty_nonempty n ltac:(lia)) as (c & s & E).
    destruct (js (pretty n)) as [|d l]; [done|].
    pose proof Hd as Hd'. cbn in Hd'. apply andb_true_iff in Hd' as [Hc Hs]. unfold js_Number.
    rewrite trim_id by (by try apply digit_not_space). unfold js_digit in Hc. bools. ztest.
    rewrite Hd, Hnum. f_equal. lia.
Qed.

(** ** Sealed columns *)
Section Roundtrip.
Context `{SL : SodiumLaws}.

Lemma value_at_rest_roundtrip seed nonce v :
  blen nonce = 24 -> text_ok v = true -> startsWith AT_REST_PREFIX v = false ->
  exists s, encryptValueAtRest (Some seed) nonce v = Ok s /\
    startsWith AT_REST_PREFIX s = true /\ decryptValueAtRest (Some seed) s = Some v.
Proof.
  intros Hn Ht Hp. unfold encryptValueAtRest. rewrite Hp.
  pose proof (session_key_roundtrip nonce (utf8_encode v) seed Hn) as Hr.
  destruct (encrypt_session_key nonce (utf8_encode v) seed) as [b|]; [|done].
  rewrite bind_ok in Hr. rewrite bind_ok.
  eexists. split; [done|]. rewrite startsWith_app. split; [done|].
  unfold decryptValueAtRest. rewrite startsWith_app. cbn [negb]. rewrite drop_app_length, of_js_js.
  by rewrite base64_correct, bind_ok, Hr, utf8_decode_encode.
Qed.

Lemma js_text_ok s : text_ok (js s) = true.
Proof.
  assert (Hs : forallb scalar (js s) = true).
  { induction s as [|c s IH]; [done|]. cbn. rewrite IH, andb_true_r. clear.
    pose proof (code_range c). unfold scalar. lia. }
  unfold text_ok. rewrite Hs. destruct s as [|c s]; [done|]. cbn. pose proof (code_range c). lia.
Qed.

Lemma number_not_sealed (n : Z) : startsWith AT_REST_PREFIX (js (pretty n)) = false.
Proof.
  destruct (Z.lt_ge_cases n 0) as [Hn|Hn].
  - destruct n as [|p|p]; try lia. change (pretty (Z.neg p)) with ("-" +:+ pretty (Z.pos p)).
    by rewrite js_app.
  - pose proof (decimal_js _ (pretty_decimal n Hn)) as Hd. destruct (js (pretty n)) as [|c s]; [done|].
    change AT_REST_PREFIX with [69; 78; 67; 49; 58]. cbn [forallb startsWith] in Hd |- *.
    unfold js_digit in Hd. bools. by replace (69 =? c) with false by lia.
Qed.

Lemma sealed_number_opens seed nonce n :
  blen nonce = 24 ->
  exists s, sealLocalNumber (Some seed) nonce (Some n) = Ok (Some s) /\ s <> [] /\
    openLocalNumber (Some seed) (CStr s) = Some n.
Proof.
  intros Hn.
  destruct (value_at_rest_roundtrip seed nonce (js (pretty n)) Hn (js_text_ok _) (number_not_sealed n))
    as (s & He & Hs & Hd).
  exists s. unfold sealLocalNumber. rewrite He, bind_ok. split; [done|]. unfold openLocalNumber.
  destruct s as [|c s]; [done|]. split; [done|]. rewrite Hs, Hd. pose proof (js_Number_pretty n) as Hj.
  destruct (js (pretty n)) as [|d l] eqn:E; [|done]. change (js_Number []) with (Some 0) in Hj.
  injection Hj as <-. discriminate E.
Qed.

(** What the device seals it can read. With the vault unlocked, every number,
    every flag and every non-empty text (that is not already an envelope) is sealed
    into an envelope, and the column opens to the same value; with the vault locked
    sealing fails, so no plaintext is written in its place. *)
Theorem local_columns_roundtrip seed nonce n b v :
  blen nonce = 24 -> text_ok v = true -> v <> [] -> startsWith AT_REST_PREFIX v = false ->
  (exists s, sealLocalNumber (Some seed) nonce (Some n) = Ok (Some s) /\
     openLocalNumber (Some seed) (CStr s) = Some n) /\
  (exists s, sealLocalFlag (Some seed) nonce (Some b) = Ok (Some s) /\
     openLocalFlag (Some seed) (CStr s) = Some b) /\
  (exists s, sealLocalText (Some seed) nonce (Some v) = Ok (Some s) /\ s <> v /\
     openLocalText (Some seed) (CStr s) = Some v) /\
  is_ok (sealLocalNumber None nonce (Some n)) = false /\ is_ok (sealLocalText None nonce (Some v)) = false.
Proof.
  intros Hn Ht Hne Hp. split_and!.
  - destruct (sealed_number_opens seed nonce n Hn) as (s & He & _ & Ho). by exists s.
  - destruct (value_at_rest_roundtrip seed nonce (js (if b then "true" else "false")) Hn (js_text_ok _))
      as (s & He & Hs & Hd); [by destruct b|].
    exists s. unfold sealLocalFlag. rewrite He, bind_ok. split; [done|]. unfold openLocalFlag.
    assert (flag_of_text s = None) as ->.
    { unfold flag_of_text. rewrite !bool_decide_eq_false_2; [done|intros ->; done..]. }
    rewrite Hs, Hd. by destruct b.
  - destruct (value_at_rest_roundtrip seed nonce v Hn Ht Hp) as (s & He & Hs & Hd).
    exists s. unfold sealLocalText. destruct v as [|c v]; [done|]. rewrite He, bind_ok.
    split; [done|]. split; [intros ->; congruence|]. unfold openLocalText.
    destruct s as [|d s]; [done|]. by rewrite Hs.
  - unfold sealLocalNumber, encryptValueAtRest. by rewrite number_not_sealed.
  - unfold sealLocalText, encryptValueAtRest. destruct v; [done|]. by rewrite Hp.
Qed.
End Roundtrip.

Lemma local_columns_roundtrip_witness :
  exists s, sealLocalText (H := Toy.toy_sodium) (Some (zeros 32)) (zeros 24) (Some (js "hello")) = Ok (Some s) /\
    openLocalText (H := Toy.toy_sodium) (Some (zeros 32)) (CStr s) = Some (js "hello").
Proof.
  destruct (local_columns_roundtrip (SL := Toy.toy_laws) (zeros 32) (zeros 24) 7 true (js "hello"))
    as (_ & _ & (s & Hs & _ & Ho) & _); [reflexivity|reflexivity|discriminate|reflexivity|].
  exists s. split; [exact Hs|exact Ho].
Defined.
