(* ===== verification/Json.v ===== *)
(** [JSON.stringify] and [JSON.parse] on the values the program serialises: null,
    booleans, integers, texts, arrays and objects without absent fields. Fractions
    and exponents do not occur and are not read; an object keeps the order of its
    fields (its keys are not array indices). *)
From stdpp Require Import pretty.
From S2P Require Import Prelude Bytes Base64 Utf8 Text Js JsDate PqWire Sodium LocalAtRest.

(** ** Texts *)
Definition hex_digit (d : Z) : Z := if d <? 10 then 48 + d else 87 + d.

Definition esc (c : Z) : jstr :=
  if c =? 34 then [92; 34] else if c =? 92 then [92; 92]
  else if c =? 8 then [92; 98] else if c =? 12 then [92; 102] else if c =? 10 then [92; 110]
  else if c =? 13 then [92; 114] else if c =? 9 then [92; 116]
  else if c <? 32 then [92; 117; 48; 48; hex_digit (c / 16); hex_digit (c mod 16)]
  else [c].

Definition quote (s : jstr) : jstr := [34] ++ concat (map esc s) ++ [34].

Definition join (sep : Z) (l : list jstr) : jstr :=
  match l with [] => [] | w :: ws => w ++ concat (map (cons sep) ws) end.

Fixpoint JSON_stringify (v : jsval) : jstr :=
  match v with
  | JUndef | JNull => js "null"
  | JBool b => js (if b then "true" else "false")
  | JNum z => js (pretty z)
  | JStr s => quote s
  | JArr l => [91] ++ join 44 (map JSON_stringify l) ++ [93]
  | JObj fields =>
      [123] ++ join 44 (map (fun f => quote f.1 ++ [58] ++ JSON_stringify f.2) fields) ++ [125]
  end.

(** ** Reading *)
Fixpoint skip_ws (s : jstr) : jstr :=
  match s with
  | c :: s' => if (c =? 32) || (c =? 9) || (c =? 10) || (c =? 13) then skip_ws s' else s
  | [] => []
  end.

Definition hex_value (c : Z) : option Z :=
  if (48 <=? c) && (c <=? 57) then Some (c - 48)
  else if (97 <=? c) && (c <=? 102) then Some (c - 87)
  else if (65 <=? c) && (c <=? 70) then Some (c - 55) else None.

Definition unescape (c : Z) : option Z :=
  if (c =? 34) || (c =? 92) || (c =? 47) then Some c
  else if c =? 98 then Some 8 else if c =? 102 then Some 12 else if c =? 110 then Some 10
  else if c =? 114 then Some 13 else if c =? 116 then Some 9 else None.

(** Two escaped code units of a pair are one character. *)
Definition join_pair (c : Z) (s : jstr) : jstr :=
  match s with
  | d :: s' =>
      if (55296 <=? c) && (c <? 56320) && (56320 <=? d) && (d <? 57344)
      then (65536 + (c - 55296) * 1024 + (d - 56320)) :: s' else c :: s
  | [] => [c]
  end.

(** The text after its opening quote, up to the closing one. *)
Fixpoint string_body (s : jstr) : option (jstr * jstr) :=
  match s with
  | [] => None
  | c :: s1 =>
      if c =? 34 then Some ([], s1)
      else if c =? 92 then
        match s1 with
        | [] => None
        | e :: s2 =>
            if e =? 117 then
              match s2 with
              | h1 :: h2 :: h3 :: h4 :: s3 =>
                  match hex_value h1, hex_value h2, hex_value h3, hex_value h4 with
                  | Some a, Some b, Some x, Some y =>
                      match string_body s3 with
                      | Some (t, r) => Some (join_pair (((a * 16 + b) * 16 + x) * 16 + y) t, r)
                      | None => None
                      end
                  | _, _, _, _ => None
                  end
              | _ => None
              end
            else match unescape e, string_body s2 with
                 | Some d, Some (t, r) => Some (d :: t, r)
                 | _, _ => None
                 end
        end
      else if c <? 32 then None
      else match string_body s1 with Some (t, r) => Some (c :: t, r) | None => None end
  end.

(** The longest run of digits. *)
Fixpoint digits (s : jstr) : jstr * jstr :=
  match s with
  | c :: s' => if js_digit c then let '(ds, r) := digits s' in (c :: ds, r) else ([], s)
  | [] => ([], [])
  end.

Definition parse_number (s : jstr) : option (Z * jstr) :=
  let '(neg, s1) := match s with c :: s' => if c =? 45 then (true, s') else (false, s) | [] => (false, []) end in
  let '(ds, r) := digits s1 in
  match ds with
  | [] => None
  | d :: ds' =>
      if (d =? 48) && negb (match ds' with [] => true | _ => false end) then None
      else Some (if neg : bool then - number ds else number ds, r)
  end.

Definition literal (w : jstr) (v : jsval) (s : jstr) : option (jsval * jstr) :=
  if startsWith w s then Some (v, drop (length w) s) else None.

(** An optional comma or the closing bracket; the flag says whether more follows. *)
Definition after_item (close : Z) (s : jstr) : option (bool * jstr) :=
  match skip_ws s with
  | c :: r => if c =? close then Some (false, r) else if c =? 44 then Some (true, r) else None
  | [] => None
  end.

(** The closing bracket of an empty array or object. *)
Definition closes_at (close : Z) (s : jstr) : option jstr :=
  match skip_ws s with c :: r => if c =? close then Some r else None | [] => None end.

Fixpoint parse_value (n : nat) (s : jstr) {struct n} : option (jsval * jstr) :=
  match n with
  | 0%nat => None
  | S n' =>
      match skip_ws s with
      | [] => None
      | c :: s1 =>
          if c =? 34 then match string_body s1 with Some (t, r) => Some (JStr t, r) | None => None end
          else if c =? 91 then
            match closes_at 93 s1 with
            | Some r => Some (JArr [], r)
            | None => match parse_items n' s1 with Some (l, r) => Some (JArr l, r) | None => None end
            end
          else if c =? 123 then
            match closes_at 125 s1 with
            | Some r => Some (JObj [], r)
            | None => match parse_fields n' s1 [] with Some (l, r) => Some (JObj l, r) | None => None end
            end
          else if c =? 110 then literal (js "null") JNull (c :: s1)
          else if c =? 116 then literal (js "true") (JBool true) (c :: s1)
          else if c =? 102 then literal (js "false") (JBool false) (c :: s1)
          else match parse_number (c :: s1) with Some (z, r) => Some (JNum z, r) | None => None end
      end
  end
with parse_items (n : nat) (s : jstr) {struct n} : option (list jsval * jstr) :=
  match n with
  | 0%nat => None
  | S n' =>
      match parse_value n' s with
      | None => None
      | Some (v, r) =>
          match after_item 93 r with
          | Some (false, r') => Some ([v], r')
          | Some (true, r') =>
              match parse_items n' r' with Some (l, r'') => Some (v :: l, r'') | None => None end
          | None => None
          end
      end
  end
with parse_fields (n : nat) (s : jstr) (acc : list (jstr * jsval)) {struct n} : option (list (jstr * jsval) * jstr) :=
  match n with
  | 0%nat => None
  | S n' =>
      match skip_ws s with
      | 34 :: s1 =>
          match string_body s1 with
          | None => None
          | Some (k, r) =>
              match skip_ws r with
              | 58 :: r1 =>
                  match parse_value n' r1 with
                  | None => None
                  | Some (v, r2) =>
                      let acc := map_set k v acc in
                      match after_item 125 r2 with
                      | Some (false, r') => Some (acc, r')
                      | Some (true, r') => parse_fields n' r' acc
                      | None => None
                      end
                  end
              | _ => None
              end
          end
      | _ => None
      end
  end.

(** [None] is the [SyntaxError]. *)
Definition JSON_parse (s : jstr) : option jsval :=
  match parse_value (S (length s)) s with
  | Some (v, r) => match skip_ws r with [] => Some v | _ => None end
  | None => None
  end.

(** Values that survive the trip: no absent value, keys distinct, scalar characters. *)
Fixpoint json_ok (v : jsval) : bool :=
  match v with
  | JUndef => false
  | JNull | JBool _ | JNum _ => true
  | JStr s => forallb scalar s
  | JArr l => forallb json_ok l
  | JObj fields =>
      bool_decide (NoDup fields.*1) && forallb (fun f => forallb scalar f.1 && json_ok f.2) fields
  end.

(** ** Round trip *)
Lemma jsval_nested_ind (P : jsval -> Prop) :
  P JUndef -> P JNull -> (forall b, P (JBool b)) -> (forall z, P (JNum z)) -> (forall s, P (JStr s)) ->
  (forall l, Forall P l -> P (JArr l)) -> (forall l, Forall (fun f => P f.2) l -> P (JObj l)) ->
  forall v, P v.
Proof.
  intros Hu Hn Hb Hz Hs Ha Ho. fix IH 1. intros [| |b|z|s|l|l];
    [exact Hu|exact Hn|apply Hb|apply Hz|apply Hs|apply Ha|apply Ho].
  - induction l as [|v l IHl]; constructor; [apply IH|exact IHl].
  - induction l as [|[k v] l IHl]; constructor; [apply IH|exact IHl].
Qed.

Lemma esc_head c : scalar c = true -> exists d l, esc c = d :: l /\ d <> 34.
Proof.
  intros Hc. unfold esc. repeat case_match; eexists _, _; (split; [done|]); try done. bools. lia.
Qed.

Lemma string_body_esc c s t r :
  scalar c = true -> string_body s = Some (t, r) -> forallb scalar t = true ->
  string_body (esc c ++ s) = Some (c :: t, r).
Proof.
  intros Hc Hs Ht. unfold esc.
  repeat match goal with |- context [if ?b then _ else _] =>
    match b with c =? _ => destruct (Z.eqb_spec c ltac:(match b with _ =? ?k => exact k end)) as [->|?];
      [cbn; by rewrite Hs|] end end.
  destruct (Z.ltb_spec c 32) as [Hlt|Hge].
  - assert (0 <= c) by (unfold scalar in Hc; bools; lia).
    assert (Hex : hex_value (hex_digit (c / 16)) = Some (c / 16) /\ hex_value (hex_digit (c mod 16)) = Some (c mod 16)).
    { assert (forall d, 0 <= d < 16 -> hex_value (hex_digit d) = Some d) as Hh.
      { intros d Hd. unfold hex_digit, hex_value. destruct (Z.ltb_spec d 10).
        - replace ((48 <=? 48 + d) && (48 + d <=? 57)) with true by lia. f_equal. lia.
        - replace ((48 <=? 87 + d) && (87 + d <=? 57)) with false by lia.
          replace ((97 <=? 87 + d) && (87 + d <=? 102)) with true by lia. f_equal. lia. }
      split; apply Hh; dlia. }
    destruct Hex as [H1 H2]. cbn [app string_body]. cbn. rewrite H1, H2, Hs.
    replace ((((48 - 48) * 16 + (48 - 48)) * 16 + c / 16) * 16 + c mod 16) with c by dlia.
    unfold join_pair. destruct t as [|d t]; [done|]. by replace (55296 <=? c) with false by lia.
  - cbn. replace (c =? 34) with false by lia. replace (c =? 92) with false by lia. ztest. by rewrite Hs.
Qed.

Lemma string_body_quote s r :
  forallb scalar s = true -> string_body (concat (map esc s) ++ 34 :: r) = Some (s, r).
Proof.
  induction s as [|c s IH]; [done|]. cbn. intros [Hc Hs]%andb_true_iff.
  rewrite <- app_assoc. by apply string_body_esc; [|apply IH|].
Qed.

(** What may follow a value inside a text. *)
Definition delim (s : jstr) : bool :=
  match s with [] => true | c :: _ => (c =? 44) || (c =? 93) || (c =? 125) end.

Lemma digits_app ds r : forallb js_digit ds = true -> delim r = true -> digits (ds ++ r) = (ds, r).
Proof.
  intros Hd Hr. induction ds as [|c ds IH].
  - destruct r as [|c r]; [done|]. cbn in *. unfold js_digit.
    apply orb_true_iff in Hr as [[->%Z.eqb_eq| ->%Z.eqb_eq]%orb_true_iff| ->%Z.eqb_eq]; done.
  - cbn in *. apply andb_true_iff in Hd as [-> Hd]. by rewrite IH.
Qed.

Lemma pretty_go_head x : forall s, (0 < x)%N -> exists c t, pretty_N_go x s = String c t /\ code c <> 48.
Proof.
  induction (N.lt_wf_0 x) as [x _ IH]. intros s Hx. rewrite pretty_N_go_step by done.
  destruct (N.eq_0_gt_0_cases (x / 10)) as [E|E].
  - rewrite E, pretty_N_go_0. eexists _, _. split; [done|]. rewrite pretty_char_code by (by apply N.mod_lt).
    pose proof (N.div_mod x 10 ltac:(done)) as Hd. lia.
  - apply IH; [by apply N.div_lt|done].
Qed.

Lemma pretty_digits n : 0 <= n ->
  exists d ds, js (pretty n) = d :: ds /\ forallb js_digit (d :: ds) = true /\ number (d :: ds) = n /\
    (d = 48 -> ds = []).
Proof.
  intros Hn. destruct (pretty_nonempty n Hn) as (d & ds & E). exists d, ds.
  pose proof (decimal_js _ (pretty_decimal n Hn)) as Hd. pose proof (number_pretty n Hn) as Hv.
  rewrite E in Hd, Hv. split_and!; try done. intros ->. destruct n as [|p|p]; [|exfalso|lia].
  - by injection E as <-.
  - change (pretty (Z.pos p)) with (if decide (N.pos p = 0%N) then "0" else pretty_N_go (N.pos p) "") in E.
    destruct (decide (N.pos p = 0%N)); [done|].
    destruct (pretty_go_head (N.pos p) "" ltac:(lia)) as (c & t & Eq & Hc). rewrite Eq in E. by injection E.
Qed.

Lemma parse_number_pretty n r : delim r = true -> parse_number (js (pretty n) ++ r) = Some (n, r).
Proof.
  intros Hr. assert (Hpos : forall m, 0 <= m -> exists d ds, js (pretty m) = d :: ds /\ d <> 45 /\
    digits (js (pretty m) ++ r) = (d :: ds, r) /\ number (d :: ds) = m /\ (d = 48 -> ds = [])).
  { intros m Hm. destruct (pretty_digits m Hm) as (d & ds & E & Hd & Hv & Hz). exists d, ds.
    rewrite E. split_and!; try done; [|by apply digits_app].
    cbn in Hd. apply andb_true_iff in Hd as [Hd _]. unfold js_digit in Hd. bools. lia. }
  unfold parse_number. destruct (Z.lt_ge_cases n 0) as [Hn|Hn].
  - destruct n as [|p|p]; try lia. change (pretty (Z.neg p)) with ("-" +:+ pretty (Z.pos p)).
    rewrite js_app. change (js "-") with [45]. cbn [app]. change (45 =? 45) with true. cbn iota.
    destruct (Hpos (Z.pos p) ltac:(lia)) as (d & ds & E & _ & -> & Hv & Hz). rewrite Hv.
    destruct (Z.eqb_spec d 48) as [->|_]; [by rewrite (Hz eq_refl)|done].
  - destruct (Hpos n ltac:(lia)) as (d & ds & E & H45 & Hd & Hv & Hz). rewrite E in Hd |- *.
    cbn [app] in Hd |- *. replace (d =? 45) with false by lia. rewrite Hd, Hv.
    destruct (Z.eqb_spec d 48) as [->|_]; [by rewrite (Hz eq_refl)|done].
Qed.

Lemma pretty_head (z : Z) : exists c s, js (pretty z) = c :: s /\ (c = 45 \/ js_digit c = true).
Proof.
  destruct (Z.lt_ge_cases z 0) as [Hz|Hz].
  - destruct z as [|p|p]; try lia. change (pretty (Z.neg p)) with ("-" +:+ pretty (Z.pos p)).
    rewrite js_app. eexists _, _. split; [reflexivity|by left].
  - destruct (pretty_digits z ltac:(lia)) as (d & ds & E & Hd & _). exists d, ds. split; [done|].
    cbn in Hd. apply andb_true_iff in Hd as [Hd _]. by right.
Qed.

(** The first character of a text: never white space, never the one of an envelope. *)
Lemma stringify_head v : exists c s, JSON_stringify v = c :: s /\
  (c = 34 \/ c = 91 \/ c = 123 \/ c = 110 \/ c = 116 \/ c = 102 \/ c = 45 \/ js_digit c = true).
Proof.
  destruct v as [| |[]|z| | |]; try (eexists _, _; split; [reflexivity|tauto]).
  destruct (pretty_head z) as (c & s & E & Hc). exists c, s. split; [done|]. tauto.
Qed.

Lemma skip_ws_stringify v r : skip_ws (JSON_stringify v ++ r) = JSON_stringify v ++ r.
Proof.
  destruct (stringify_head v) as (c & s & -> & Hc). cbn.
  replace ((c =? 32) || (c =? 9) || (c =? 10) || (c =? 13)) with false; [done|].
  unfold js_digit in Hc. destruct Hc as [->|[->|[->|[->|[->|[->|[->|Hc]]]]]]]; try done. bools. lia.
Qed.

(** The separator and what follows each later item. *)
Definition tail_text {A} (f : A -> jstr) (close : Z) (l : list A) (r : jstr) : jstr :=
  concat (map (cons 44) (map f l)) ++ close :: r.

Lemma after_item_tail {A} (f : A -> jstr) close l r :
  close = 93 \/ close = 125 ->
  after_item close (tail_text f close l r) = match l with
    | [] => Some (false, r) | v :: l' => Some (true, f v ++ tail_text f close l' r) end.
Proof.
  intros Hc. unfold tail_text, after_item. destruct l as [|v l]; cbn.
  - by destruct Hc as [-> | ->].
  - rewrite <- app_assoc. by destruct Hc as [-> | ->].
Qed.

Lemma tail_text_length {A} (f : A -> jstr) close v l r :
  length (f v ++ tail_text f close l r) = (length (f v) + length (tail_text f close l r))%nat /\
  length (tail_text f close (v :: l) r) = (1 + length (f v) + length (tail_text f close l r))%nat.
Proof. unfold tail_text. cbn. rewrite !length_app. cbn. lia. Qed.

Lemma tail_delim {A} (f : A -> jstr) close l r : close = 93 \/ close = 125 -> delim (tail_text f close l r) = true.
Proof. intros [-> | ->]; by destruct l. Qed.

Definition reads_back (v : jsval) : Prop :=
  forall n r, delim r = true -> (length (JSON_stringify v) < n)%nat ->
  parse_value n (JSON_stringify v ++ r) = Some (v, r).

Lemma items_read_back l : Forall (fun v => json_ok v = true -> reads_back v) l ->
  forall v n r, forallb json_ok (v :: l) = true -> reads_back v -> 
  (length (JSON_stringify v) + length (tail_text JSON_stringify 93 l []) < n)%nat ->
  parse_items n (JSON_stringify v ++ tail_text JSON_stringify 93 l r) = Some (v :: l, r).
Proof.
  induction 1 as [|w l Hw Hl IH]; intros v n r Hok Hv Hn; (destruct n as [|n]; [lia|]); cbn [parse_items].
  - rewrite Hv by (try done; cbn in Hn; lia). by rewrite after_item_tail by auto.
  - destruct (tail_text_length JSON_stringify 93 w l []) as [_ Hlen]. rewrite Hlen in Hn.
    cbn in Hok. apply andb_true_iff in Hok as [_ Hok]. rewrite Hv by (try (apply tail_delim; auto); lia).
    rewrite after_item_tail by auto. rewrite IH; [done|done|apply Hw|lia].
    by apply andb_true_iff in Hok as [? _].
Qed.

Definition field_text (f : jstr * jsval) : jstr := quote f.1 ++ [58] ++ JSON_stringify f.2.

Lemma fields_read_back l : Forall (fun f => json_ok f.2 = true -> reads_back f.2) l ->
  forall acc n r, forallb (fun f => forallb scalar f.1 && json_ok f.2) l = true -> NoDup (acc ++ l).*1 ->
  match l with [] => True | f :: l' =>
    (length (field_text f) + length (tail_text field_text 125 l' []) < n)%nat ->
    parse_fields n (field_text f ++ tail_text field_text 125 l' r) acc = Some (acc ++ l, r) end.
Proof.
  induction 1 as [|[k v] l Hv Hl IH]; intros acc n r Hok Hnd; [done|]. intros Hn. cbn in Hv.
  destruct n as [|n]; [lia|]. cbn in Hok. apply andb_true_iff in Hok as [[Hk Hvo]%andb_true_iff Hok].
  unfold field_text at 1. cbn [fst snd]. unfold quote. rewrite <- !app_assoc. cbn [parse_fields app skip_ws].
  cbn [Z.eqb orb Pos.eqb]. rewrite string_body_quote by done. cbn [skip_ws]. cbn [Z.eqb orb Pos.eqb].
  assert (Hlen : (length (JSON_stringify v) < length (field_text (k, v)))%nat).
  { unfold field_text, quote. cbn. rewrite !length_app. cbn. lia. }
  rewrite Hv by (done || (apply tail_delim; auto) || lia).
  assert (Hset : map_set k v acc = acc ++ [(k, v)]).
  { apply map_set_new. destruct (assoc k acc) as [a|] eqn:E; [|done]. exfalso.
    apply assoc_elem in E. rewrite fmap_app in Hnd. apply NoDup_app in Hnd as (_ & Hd & _).
    apply (Hd k); [|by left]. apply list_elem_of_fmap. by exists (k, a). }
  rewrite Hset, after_item_tail by auto. destruct l as [|f l]; [done|].
  specialize (IH (acc ++ [(k, v)]) n r Hok). rewrite <- !app_assoc in IH. apply IH; [done|].
  destruct (tail_text_length field_text 125 f l []) as [_ Hl2]. lia.
Qed.

Lemma join_tail {A} (f : A -> jstr) close v l r :
  join 44 (map f (v :: l)) ++ close :: r = f v ++ tail_text f close l r.
Proof. unfold tail_text. cbn. by rewrite <- app_assoc. Qed.

Lemma stringify_reads_back v : json_ok v = true -> reads_back v.
Proof.
  induction v as [| |b|z|s|l IH|l IH] using jsval_nested_ind; intros Hok n r Hr Hn;
    (destruct n as [|n]; [lia|]); cbn [parse_value]; rewrite skip_ws_stringify.
  - done.
  - done.
  - by destruct b.
  - cbn [JSON_stringify]. pose proof (parse_number_pretty z r Hr) as Hp.
    destruct (pretty_head z) as (c & s & E & Hc). rewrite E in Hp |- *. cbn [app] in Hp |- *. rewrite Hp.
    assert (c = 45 \/ 48 <= c <= 57) as Hc' by (unfold js_digit in Hc; destruct Hc; bools; lia).
    by ztest.
  - cbn [JSON_stringify]. unfold quote. rewrite <- !app_assoc. cbn. by rewrite string_body_quote.
  - cbn [JSON_stringify app] in Hn |- *. cbn [Z.eqb Pos.eqb]. rewrite <- app_assoc. cbn [app].
    destruct l as [|v l]; [done|]. rewrite join_tail in Hn. rewrite join_tail. cbn in Hok. apply Forall_cons in IH as [Hv Hl].
    assert (Hv' : reads_back v) by (apply Hv; by apply andb_true_iff in Hok as [? _]).
    unfold closes_at. rewrite skip_ws_stringify.
    destruct (stringify_head v) as (c & s & E & Hc). rewrite E at 1. cbn [app].
    replace (c =? 93) with false by (unfold js_digit in Hc; destruct Hc as [|[|[|[|[|[|[|]]]]]]]; bools; lia).
    rewrite items_read_back; [done..|]. cbn in Hn. rewrite length_app in Hn. lia.
  - cbn [JSON_stringify app] in Hn |- *. cbn [Z.eqb Pos.eqb]. rewrite <- app_assoc. cbn [app].
    cbn in Hok. apply andb_true_iff in Hok as [Hnd%bool_decide_eq_true Hok].
    destruct l as [|f l]; [done|]. fold field_text in Hn |- *.
    change (map (fun f => quote f.1 ++ 58 :: JSON_stringify f.2) (f :: l)) with (map field_text (f :: l)) in Hn |- *.
    rewrite join_tail in Hn. rewrite join_tail. change (closes_at 125 (field_text f ++ tail_text field_text 125 l r)) with (@None jstr).
    pose proof (fields_read_back (f :: l) IH [] n r Hok Hnd) as Hf. cbn [app] in Hf. rewrite Hf; [done|].
    cbn [length] in Hn. rewrite length_app in Hn. lia.
Qed.

Theorem json_roundtrip v : json_ok v = true -> JSON_parse (JSON_stringify v) = Some v.
Proof.
  intros Hok. unfold JSON_parse. pose proof (stringify_reads_back v Hok (S (length (JSON_stringify v))) []) as H.
  rewrite app_nil_r in H. by rewrite H by (done || lia).
Qed.

(** Texts are plain text and never look like a sealed value. *)
Lemma esc_scalar c : scalar c = true -> forallb scalar (esc c) = true.
Proof.
  intros Hc. unfold esc. repeat case_match; try done; [|cbn; by rewrite Hc].
  assert (0 <= c < 32) by (unfold scalar in Hc; bools; lia).
  assert (forall d, 0 <= d < 16 -> scalar (hex_digit d) = true) as Hh.
  { intros d Hd. unfold hex_digit, scalar. case_match; bools; lia. }
  cbn. rewrite !Hh by dlia. done.
Qed.

Lemma scalar_concat {A} (f : A -> jstr) l :
  Forall (fun a => forallb scalar (f a) = true) l -> forallb scalar (concat (map f l)) = true.
Proof. induction 1 as [|a l Ha Hl IH]; [done|]. cbn. by rewrite forallb_app, Ha. Qed.

Lemma scalar_join {A} (f : A -> jstr) l :
  Forall (fun a => forallb scalar (f a) = true) l -> forallb scalar (join 44 (map f l)) = true.
Proof.
  destruct 1 as [|a l Ha Hl]; [done|]. cbn. rewrite forallb_app, Ha. cbn.
  rewrite map_map. apply (scalar_concat (fun a => 44 :: f a)). eapply Forall_impl; [exact Hl|]. by cbn.
Qed.

Lemma quote_scalar s : forallb scalar s = true -> forallb scalar (quote s) = true.
Proof.
  intros Hs. unfold quote. rewrite !forallb_app, andb_true_r. cbn. apply scalar_concat.
  rewrite forallb_forall in Hs. apply Forall_forall. intros c Hc. apply esc_scalar, Hs. by apply list_elem_of_In.
Qed.

Lemma stringify_scalar v : json_ok v = true -> forallb scalar (JSON_stringify v) = true.
Proof.
  induction v as [| |b|z|s|l IH|l IH] using jsval_nested_ind; intros Hok; try done.
  - by destruct b.
  - apply js_scalar.
  - by apply quote_scalar.
  - cbn -[join]. rewrite forallb_app, andb_true_r. apply scalar_join.
    rewrite Forall_forall in IH |- *. cbn in Hok. rewrite forallb_forall in Hok.
    intros v Hv. apply IH; [done|]. apply Hok. by apply list_elem_of_In.
  - cbn -[join]. rewrite forallb_app, andb_true_r. apply scalar_join.
    rewrite Forall_forall in IH |- *. cbn in Hok. apply andb_true_iff in Hok as [_ Hok].
    rewrite forallb_forall in Hok. intros f Hf. pose proof (Hok f ltac:(by apply list_elem_of_In)) as Ho.
    cbn in Ho. apply andb_true_iff in Ho as [Hk Hv]. change (forallb scalar (quote f.1 ++ [58] ++ JSON_stringify f.2) = true).
    by rewrite !forallb_app, quote_scalar, (IH f Hf).
Qed.

Lemma stringify_text v : json_ok v = true ->
  text_ok (JSON_stringify v) = true /\ startsWith LocalAtRest.AT_REST_PREFIX (JSON_stringify v) = false.
Proof.
  intros Hok. unfold text_ok. rewrite stringify_scalar by done.
  destruct (stringify_head v) as (c & s & E & Hc). rewrite E. change LocalAtRest.AT_REST_PREFIX with [69; 78; 67; 49; 58].
  cbn [startsWith andb]. unfold js_digit in Hc.
  assert (c <> 65279 /\ 69 <> c) as [H1 H2] by (destruct Hc as [|[|[|[|[|[|[|]]]]]]]; bools; lia).
  ztest. by replace (69 =? c) with false by lia.
Qed.
