(* ===== verification/LocalOrder.v ===== *)
(** Paging through the local message vault: the two-layer order key of
    web/src/lib/localOrderKey.ts (a coarse bucket in the index, the precise time
    sealed) and [getMessagesByConversation] of web/src/lib/shadowVaultDb.ts, which
    walks the index bucket by bucket. A table is the list of its rows in
    primary-key order; an index query keeps that order. *)
From stdpp Require Import pretty.
From S2P Require Import Prelude Bytes Base64 Utf8 Text Js JsDate PqWire Sodium LocalAtRest.

Module LocalOrder.
Import LocalAtRest.

(** The columns of a message row that ordering and expiry read. *)
Record MessageRow := mkRow {
  id : string; conversationId : string;
  createdAt : option (jstr + Z); (* text, or a Date by its time value *)
  createdAtSealed : option jstr;
  orderBucketMs : option Z;
  autoDelete : column;
  expiresAt : column }.

(** [Math.floor(ms / B) * B]; exact for times below 2^49. *)
Definition orderBucketOf (ms : option Z) : option Z :=
  match ms with None => None | Some ms => Some (ms / LOCAL_TIME_BUCKET_MS * LOCAL_TIME_BUCKET_MS) end.

Section Ops.
Context `{Sodium}.
(** [Date.parse] and the master seed, [None] while the vault is locked. *)
Context (parse : jstr -> option Z) (seed : option bytes).

Definition sealOrderInstant (nonce : bytes) (ms : option Z) : result (option jstr) :=
  sealLocalNumber seed nonce ms.

Definition sealed_column (s : option jstr) : column := match s with Some s => CStr s | None => CNull end.

Definition openOrderInstant (row : MessageRow) : option Z :=
  match openLocalNumber seed (sealed_column (createdAtSealed row)) with
  | Some t => Some t
  | None =>
      let legacy := match createdAt row with
        | None | Some (inl []) => None
        | Some (inl s) => parse s
        | Some (inr t) => Some t
        end in
      match legacy with Some t => Some t | None => orderBucketMs row end
  end.

Definition resolveOrderInstants (rows : list MessageRow) : list (option Z) := map openOrderInstant rows.

Definition previousOrderBucket (bucketMs : Z) : Z := bucketMs - LOCAL_TIME_BUCKET_MS.

Definition with_order (row : MessageRow) (bucket : option Z) : MessageRow :=
  mkRow (id row) (conversationId row) (createdAt row) (createdAtSealed row) bucket
    (autoDelete row) (expiresAt row).

Definition ensureOrderFields (nonce : bytes) (row : MessageRow) : result MessageRow :=
  let instant := openOrderInstant row in
  let bucket := match orderBucketOf instant with
    | Some b => Some b | None => orderBucketOf (orderBucketMs row) end in
  match createdAtSealed row with
  | Some (_ :: _) => Ok (with_order row bucket)
  | _ =>
      sealed ← sealOrderInstant nonce instant;
      match sealed with
      | None | Some [] => Ok (with_order row bucket)
      | Some s => Ok (mkRow (id row) (conversationId row) None (Some s) bucket
                    (autoDelete row) (expiresAt row))
      end
  end.

(** [Array.prototype.sort] is stable; the comparator puts later instants first. *)
Fixpoint insert_desc {A} (x : A * Z) (l : list (A * Z)) : list (A * Z) :=
  match l with
  | [] => [x]
  | y :: l' => if y.2 <=? x.2 then x :: l else y :: insert_desc x l'
  end.
Definition sort_desc {A} (l : list (A * Z)) : list (A * Z) := foldr insert_desc [] l.

Record OlderPage (A : Type) := mkPage {
  page : list A; boundaryBucketMs : option Z; boundaryInstantMs : option Z }.
Arguments mkPage {A}. Arguments page {A}. Arguments boundaryBucketMs {A}. Arguments boundaryInstantMs {A}.

(** The loop that collects rows with a time, at or before the cursor. *)
Fixpoint pick_rows {A} (rows : list A) (instants : list (option Z)) (beforeMs : option Z) : list (A * Z) :=
  match rows, instants with
  | r :: rows', Some t :: instants' =>
      if match beforeMs with Some b => b <? t | None => false end
      then pick_rows rows' instants' beforeMs
      else (r, t) :: pick_rows rows' instants' beforeMs
  | _ :: rows', None :: instants' => pick_rows rows' instants' beforeMs
  | _, _ => []
  end.

Definition pickOlderPage {A} (rows : list A) (instants : list (option Z)) (limit : Z) (beforeMs : option Z)
  : OlderPage A :=
  let picked := sort_desc (pick_rows rows instants beforeMs) in
  let page := rev (take (Z.to_nat (Z.max 0 limit)) picked) in
  let boundary := head page in
  mkPage (map fst page) (orderBucketOf (snd <$> boundary)) (snd <$> boundary).

(** *** The vault *)
Definition readExpiresAt (raw : column) : option Z :=
  match openLocalNumber seed raw with
  | Some t => Some t
  | None => match raw with CStr (c :: s) => parse (c :: s) | _ => None end
  end.

Definition isExpiredMessageRow (row : MessageRow) (now : Z) : bool :=
  if negb (bool_decide (openLocalFlag seed (autoDelete row) = Some true)) then false else
  match readExpiresAt (expiresAt row) with Some t => t <=? now | None => false end.

Definition MAX_BUCKETS_PER_PAGE : nat := 32.

(** [where('[conversationId+orderBucketMs]').equals([conv, bucket])], without the
    expired rows. *)
Definition batch (messages : list MessageRow) (conv : string) (now bucket : Z) : list MessageRow :=
  filter (fun row => isExpiredMessageRow row now = false)
    (filter (fun row => conversationId row = conv /\ orderBucketMs row = Some bucket) messages).

(** The largest bucket of the conversation in the index. *)
Definition newest_bucket (messages : list MessageRow) (conv : string) : option Z :=
  foldr (fun row acc =>
    if bool_decide (conversationId row = conv) then
      match orderBucketMs row, acc with
      | Some b, Some m => Some (Z.max b m)
      | Some b, None => Some b
      | None, _ => acc
      end
    else acc) None messages.

Fixpoint scan_buckets (k : nat) (messages : list MessageRow) (conv : string) (now limit bucket : Z)
    (candidates : list MessageRow) : list MessageRow :=
  match k with
  | 0%nat => candidates
  | S k' =>
      let candidates := candidates ++ batch messages conv now bucket in
      if limit <=? Z.of_nat (length candidates) then candidates
      else scan_buckets k' messages conv now limit (previousOrderBucket bucket) candidates
  end.

Definition start_bucket (messages : list MessageRow) (conv : string) (beforeMs : option Z) : option Z :=
  match beforeMs with Some _ => orderBucketOf beforeMs | None => newest_bucket messages conv end.

Definition cursor_ms (beforeDate : option jstr) : option Z :=
  match beforeDate with None | Some [] => None | Some d => parse d end.

Definition getMessagesByConversation (messages : list MessageRow) (conv : string) (limit : Z)
    (beforeDate : option jstr) (now : Z) : list MessageRow :=
  let beforeMs := cursor_ms beforeDate in
  let candidates := match start_bucket messages conv beforeMs with
    | None => []
    | Some bucket => scan_buckets MAX_BUCKETS_PER_PAGE messages conv now limit bucket []
    end in
  page (pickOlderPage candidates (resolveOrderInstants candidates) limit beforeMs).

(** The queued clean-up after a read. *)
Definition delete_expired (messages : list MessageRow) (conv : string) (now : Z) : list MessageRow :=
  let expired := map id (filter (fun row => isExpiredMessageRow row now = true)
    (filter (fun row => conversationId row = conv) messages)) in
  filter (fun row => id row ∉ expired) messages.

End Ops.
Arguments mkPage {A}. Arguments page {A}. Arguments boundaryBucketMs {A}. Arguments boundaryInstantMs {A}.
End LocalOrder.
Import LocalAtRest LocalOrder.

(** ** The order key of a row *)
(** A row in the index sits in the bucket of its instant. *)
Definition indexed `{Sodium} (parse : jstr -> option Z) (seed : option bytes) (row : MessageRow) : Prop :=
  forall b, orderBucketMs row = Some b ->
  exists t, openOrderInstant parse seed row = Some t /\ orderBucketOf (Some t) = Some b.

Lemma bucket_le t : t / LOCAL_TIME_BUCKET_MS * LOCAL_TIME_BUCKET_MS <= t
  < t / LOCAL_TIME_BUCKET_MS * LOCAL_TIME_BUCKET_MS + LOCAL_TIME_BUCKET_MS.
Proof. pose proof (Z.mul_div_le t LOCAL_TIME_BUCKET_MS eq_refl). pose proof (Z.mod_pos_bound t LOCAL_TIME_BUCKET_MS eq_refl).
  pose proof (Z.div_mod t LOCAL_TIME_BUCKET_MS ltac:(done)). lia. Qed.

Lemma orderBucketOf_idem o : orderBucketOf (orderBucketOf o) = orderBucketOf o.
Proof. destruct o as [t|]; [|done]. unfold orderBucketOf. by rewrite Z.div_mul. Qed.

Section OrderKey.
Context `{SL : SodiumLaws} (parse : jstr -> option Z).

Abbreviation instant seed row := (openOrderInstant parse seed row).

(** The second source of the bucket never applies: a row with a bucket has an
    instant. *)
Lemma normal_bucket seed row :
  match orderBucketOf (instant seed row) with Some b => Some b | None => orderBucketOf (orderBucketMs row) end
  = orderBucketOf (instant seed row).
Proof.
  unfold openOrderInstant. destruct (openLocalNumber seed _) as [t|]; [done|].
  destruct (match createdAt row with None | Some (inl []) => None | Some (inl s) => parse s
    | Some (inr t) => Some t end); [done|]. by destruct (orderBucketMs row).
Qed.

(** Only the bucket changes: the row's time is what it was, or its bucket. *)
Lemma kept_instant seed row b :
  instant seed (with_order row b) = instant seed row \/
  instant seed row = orderBucketMs row /\ instant seed (with_order row b) = b.
Proof.
  unfold openOrderInstant. cbn [createdAtSealed createdAt orderBucketMs with_order].
  destruct (openLocalNumber seed _) as [t|]; [by left|].
  destruct (match createdAt row with None | Some (inl []) => None | Some (inl s) => parse s
    | Some (inr t) => Some t end); [by left|]. right. by destruct (orderBucketMs row), b.
Qed.

Lemma kept_bucket seed row :
  orderBucketOf (instant seed (with_order row (orderBucketOf (instant seed row))))
  = orderBucketOf (instant seed row).
Proof.
  destruct (kept_instant seed row (orderBucketOf (instant seed row))) as [->|[_ ->]]; [done|].
  apply orderBucketOf_idem.
Qed.

Lemma indexed_bucket seed row : orderBucketOf (instant seed row) = orderBucketMs row -> indexed parse seed row.
Proof. intros Hb b Hr. rewrite Hr in Hb. destruct (instant seed row) as [t|] eqn:E; [|done]. by exists t. Qed.

Lemma ensure_sealed seed nonce row t :
  blen nonce = 24 -> match createdAtSealed row with Some (_ :: _) => False | _ => True end ->
  openOrderInstant parse (Some seed) row = Some t ->
  exists s, s <> [] /\ ensureOrderFields parse (Some seed) nonce row
    = Ok (mkRow (id row) (conversationId row) None (Some s) (orderBucketOf (Some t)) (autoDelete row) (expiresAt row)) /\
    openLocalNumber (Some seed) (CStr s) = Some t.
Proof.
  intros Hn Hc Ht. destruct (sealed_number_opens seed nonce t Hn) as (s & Hs & Hne & Ho).
  exists s. split; [done|]. split; [|done]. unfold ensureOrderFields, sealOrderInstant. rewrite Ht, Hs.
  destruct (createdAtSealed row) as [[|? ?]|]; [|done|]; rewrite bind_ok; by destruct s.
Qed.

Lemma ensure_kept seed nonce row :
  match createdAtSealed row with Some (_ :: _) => True | _ => instant seed row = None end ->
  ensureOrderFields parse seed nonce row = Ok (with_order row (orderBucketOf (instant seed row))).
Proof.
  unfold ensureOrderFields, sealOrderInstant, sealLocalNumber. rewrite normal_bucket.
  destruct (createdAtSealed row) as [[|? ?]|]; [|done|]; intros ->; by rewrite bind_ok.
Qed.

Lemma with_order_id row : with_order row (orderBucketMs row) = row.
Proof. by destruct row. Qed.

End OrderKey.

(** ** Stable descending sort *)
Section Sort.
Context {A : Type}.
Implicit Types l : list (A * Z).

Lemma insert_desc_perm (x : A * Z) l : insert_desc x l ≡ₚ x :: l.
Proof. induction l as [|y l IH]; cbn; [done|]. case_match; [done|]. rewrite IH. apply Permutation_swap. Qed.

Lemma sort_desc_perm l : sort_desc l ≡ₚ l.
Proof. induction l as [|x l IH]; [done|]. cbn. rewrite insert_desc_perm. by f_equiv. Qed.

Lemma sort_desc_forall (P : A * Z -> Prop) l : Forall P l -> Forall P (sort_desc l).
Proof. by rewrite sort_desc_perm. Qed.

Lemma insert_desc_front (x : A * Z) l1 l2 :
  Forall (fun y => y.2 < x.2) l2 -> insert_desc x (l1 ++ l2) = insert_desc x l1 ++ l2.
Proof.
  intros Hx. induction l1 as [|y l1 IH]; cbn.
  - destruct l2 as [|y l2]; [done|]. apply Forall_cons in Hx as [Hy _]. cbn. by ztest.
  - case_match; [done|]. by rewrite IH.
Qed.

Lemma insert_desc_back (x : A * Z) l1 l2 :
  Forall (fun y => x.2 < y.2) l1 -> insert_desc x (l1 ++ l2) = l1 ++ insert_desc x l2.
Proof.
  induction l1 as [|y l1 IH]; [done|]. intros [Hy Hl]%Forall_cons. cbn. ztest. by rewrite IH.
Qed.

Lemma sort_desc_app l1 l2 :
  Forall (fun x => Forall (fun y => y.2 < x.2) l2) l1 -> sort_desc (l1 ++ l2) = sort_desc l1 ++ sort_desc l2.
Proof.
  induction l1 as [|x l1 IH]; [done|]. intros [Hx Hl]%Forall_cons. cbn. fold (sort_desc (l1 ++ l2)).
  rewrite IH by done. rewrite insert_desc_front; [done|by apply sort_desc_forall].
Qed.

(** Sorting a list and splitting the result at a threshold is sorting the two parts. *)
Lemma sort_desc_split (P : A * Z -> Prop) `{!forall x, Decision (P x)} m l :
  Forall (fun x => if decide (P x) then m <= x.2 else x.2 < m) l ->
  sort_desc l = sort_desc (filter P l) ++ sort_desc (filter (fun x => ~ P x) l).
Proof.
  intros Hl. induction l as [|x l IH]; [done|]. apply Forall_cons in Hl as [Hx Hl].
  cbn [sort_desc foldr]. fold (sort_desc l). rewrite IH by done. rewrite !filter_cons.
  destruct (decide (P x)) as [Hp|Hp].
  - rewrite (decide_False (P := ~ P x)) by tauto. rewrite insert_desc_front; [done|].
    apply sort_desc_forall, Forall_forall. intros y [Hy Hi]%list_elem_of_filter.
    rewrite Forall_forall in Hl. specialize (Hl y Hi). cbn in Hl. destruct (decide (P y)); [done|]. lia.
  - rewrite (decide_True (P := ~ P x)) by done. rewrite insert_desc_back; [done|].
    apply sort_desc_forall, Forall_forall. intros y [Hy Hi]%list_elem_of_filter.
    rewrite Forall_forall in Hl. specialize (Hl y Hi). cbn in Hl. destruct (decide (P y)); [|done]. lia.
Qed.
End Sort.

(** ** Reading one page *)
Section Paging.
Context `{Sodium} (parse : jstr -> option Z) (seed : option bytes).
Context (messages : list MessageRow) (conv : string) (now limit : Z) (beforeMs : option Z).
Context (Hindexed : Forall (indexed parse seed) messages).

Abbreviation picks l := (pick_rows l (resolveOrderInstants parse seed l) beforeMs).

(** One of the [k] buckets [s], [s - 15 min], ... *)
Fixpoint in_window (k : nat) (s b : Z) : bool :=
  match k with 0%nat => false | S k' => (b =? s) || in_window k' (previousOrderBucket s) b end.

Definition window_row (k : nat) (s : Z) (row : MessageRow) : bool :=
  match orderBucketMs row with Some b => in_window k s b | None => false end.

(** The unexpired rows of the conversation in those buckets, read at once, in table order. *)
Definition window (k : nat) (s : Z) : list MessageRow :=
  filter (fun row => isExpiredMessageRow parse seed row now = false)
    (filter (fun row => conversationId row = conv /\ window_row k s row = true) messages).

Lemma in_window_le k : forall s b, in_window k s b = true -> b <= s.
Proof.
  induction k as [|k IH]; intros s b; [done|]. cbn. intros [?%Z.eqb_eq|Hb%IH]%orb_true_iff; [lia|].
  unfold previousOrderBucket in Hb. change LOCAL_TIME_BUCKET_MS with 900000 in Hb. lia.
Qed.

Lemma window_split k s :
  filter (fun row => orderBucketMs row = Some s) (window (S k) s) = batch parse seed messages conv now s /\
  filter (fun row => orderBucketMs row <> Some s) (window (S k) s) = window k (previousOrderBucket s).
Proof.
  unfold window, batch. rewrite !list_filter_filter. split; apply list_filter_iff; intros row; unfold window_row.
  - destruct (orderBucketMs row) as [b|]; cbn; [|naive_solver].
    split; [naive_solver|]. intros (He & Hc & [= ->]). rewrite Z.eqb_refl. naive_solver.
  - destruct (orderBucketMs row) as [b|]; cbn; [|naive_solver]. destruct (Z.eqb_spec b s) as [->|Hb]; cbn; [|naive_solver].
    split; [naive_solver|]. intros (_ & _ & Hw%in_window_le). unfold previousOrderBucket in Hw.
    change LOCAL_TIME_BUCKET_MS with 900000 in Hw. lia.
Qed.

Lemma elem_window k s row :
  row ∈ window k s -> row ∈ messages /\ conversationId row = conv /\
  exists b, orderBucketMs row = Some b /\ in_window k s b = true.
Proof.
  intros (_ & ((Hc & Hw) & Hm)%list_elem_of_filter)%list_elem_of_filter. unfold window_row in Hw.
  destruct (orderBucketMs row) as [b|] eqn:E; [|done]. eauto.
Qed.

Lemma elem_batch s row : row ∈ batch parse seed messages conv now s -> row ∈ messages /\ orderBucketMs row = Some s.
Proof. by intros (_ & ((_ & Hb) & Hm)%list_elem_of_filter)%list_elem_of_filter. Qed.

(** *** Rows with their times *)
Definition pick_one (row : MessageRow) : option (MessageRow * Z) :=
  match openOrderInstant parse seed row with
  | Some t => if match beforeMs with Some b => b <? t | None => false end then None else Some (row, t)
  | None => None
  end.

Lemma picks_omap l : picks l = omap pick_one l.
Proof.
  induction l as [|row l IH]; [done|]. cbn [omap list_omap resolveOrderInstants map pick_rows].
  unfold pick_one. destruct (openOrderInstant parse seed row) as [t|]; [|done].
  case_match; cbn; unfold resolveOrderInstants in IH; by rewrite IH.
Qed.

Lemma elem_picks l x : x ∈ picks l -> x.1 ∈ l /\ openOrderInstant parse seed x.1 = Some x.2.
Proof.
  rewrite picks_omap. intros (row & Hi & Ho)%list_elem_of_omap. unfold pick_one in Ho.
  destruct (openOrderInstant parse seed row) as [t|] eqn:E; [|done]. case_match; [done|]. by injection Ho as <-.
Qed.

Lemma picks_filter (P : MessageRow -> Prop) `{!forall r, Decision (P r)} l :
  filter (fun x => P x.1) (picks l) = picks (filter P l).
Proof.
  rewrite !picks_omap. induction l as [|row l IH]; [done|]. rewrite filter_cons. cbn [omap list_omap].
  destruct (pick_one row) as [x|] eqn:E.
  - assert (x.1 = row) as Hx.
    { unfold pick_one in E. destruct (openOrderInstant parse seed row); [|done]. case_match; [done|]. by injection E as <-. }
    subst row. rewrite filter_cons, IH. destruct (decide (P x.1)); [|done]. cbn. by rewrite E.
  - rewrite IH. destruct (decide (P row)); [|done]. cbn. by rewrite E.
Qed.

Lemma picks_app l1 l2 : picks (l1 ++ l2) = picks l1 ++ picks l2.
Proof. by rewrite !picks_omap, omap_app. Qed.

Lemma indexed_instant row b t :
  row ∈ messages -> orderBucketMs row = Some b -> openOrderInstant parse seed row = Some t ->
  b <= t < b + LOCAL_TIME_BUCKET_MS.
Proof.
  intros Hr Hb Ht. rewrite Forall_forall in Hindexed. destruct (Hindexed row Hr b Hb) as (t' & Ht' & Ho).
  rewrite Ht in Ht'. injection Ht' as <-. injection Ho as <-. apply bucket_le.
Qed.

(** Rows of bucket [s] are at or after [s], the rest of its window before it. *)
Lemma window_threshold k s row t :
  row ∈ window (S k) s -> openOrderInstant parse seed row = Some t ->
  if decide (orderBucketMs row = Some s) then s <= t else t < s.
Proof.
  intros (Hm & _ & b & Hb & Hw)%elem_window Ht. pose proof (indexed_instant row b t Hm Hb Ht) as Hbt.
  destruct (decide (orderBucketMs row = Some s)) as [E|Hn]; [rewrite Hb in E; injection E as ->; lia|].
  cbn in Hw. apply orb_true_iff in Hw as [->%Z.eqb_eq|Hw%in_window_le]; [done|].
  unfold previousOrderBucket in Hw. lia.
Qed.

Lemma window_sorted k s :
  sort_desc (picks (window (S k) s)) =
  sort_desc (picks (batch parse seed messages conv now s)) ++ sort_desc (picks (window k (previousOrderBucket s))).
Proof.
  destruct (window_split k s) as [<- <-].
  rewrite (sort_desc_split (fun x => orderBucketMs x.1 = Some s) s).
  - by f_equal; f_equal; rewrite <- picks_filter; apply list_filter_iff.
  - apply Forall_forall. intros x [Hx Ht]%elem_picks. by apply (window_threshold k s x.1 x.2).
Qed.

(** The scan collects whole buckets, newest first, and stops early only when it has
    [limit] rows. *)
Lemma scan_prefix k : forall s cands, exists D R,
  scan_buckets parse seed k messages conv now limit s cands = cands ++ D /\
  sort_desc (picks (window k s)) = sort_desc (picks D) ++ R /\
  (forall row, row ∈ D -> row ∈ window k s) /\ (R = [] \/ limit <= Z.of_nat (length (cands ++ D))).
Proof.
  induction k as [|k IH]; intros s cands.
  { exists [], []. rewrite !app_nil_r. split_and!; [done| |by intros row ?%elem_of_nil|by left].
    replace (window 0 s) with (@nil MessageRow); [done|].
    symmetry. apply elem_of_nil_inv. by intros row (_ & _ & b & _ & ?)%elem_window. }
  cbn [scan_buckets]. set (b := batch parse seed messages conv now s). rewrite window_sorted. fold b.
  assert (Hbw : forall row, row ∈ b -> row ∈ window (S k) s).
  { intros row. unfold b. rewrite <- (proj1 (window_split k s)). by intros [_ ?]%list_elem_of_filter. }
  destruct (Z.leb_spec limit (Z.of_nat (length (cands ++ b)))) as [Hl|Hl].
  { exists b, (sort_desc (picks (window k (previousOrderBucket s)))). split_and!; auto. }
  destruct (IH (previousOrderBucket s) (cands ++ b)) as (D & R & Hs & Hw & HD & HR).
  exists (b ++ D), R. rewrite <- app_assoc in Hs, HR. split_and!; [exact Hs| | |exact HR].
  - rewrite Hw, app_assoc, picks_app. f_equal. symmetry. apply sort_desc_app, Forall_forall.
    intros x [Hx Hxt]%elem_picks. apply Forall_forall. intros y [Hy Hyt]%elem_picks.
    apply elem_batch in Hx as [Hxm Hxb]. pose proof (indexed_instant _ _ _ Hxm Hxb Hxt) as Hx1.
    apply HD, elem_window in Hy as (Hym & _ & c & Hc & Hcw%in_window_le).
    pose proof (indexed_instant _ _ _ Hym Hc Hyt) as Hy1. unfold previousOrderBucket in Hcw. lia.
  - intros row [Hr|Hr]%elem_of_app; [by apply Hbw|]. apply HD in Hr.
    rewrite <- (proj2 (window_split k s)) in Hr. by apply list_elem_of_filter in Hr as [_ ?].
Qed.

(** [true] when no row of the cursor's bucket is newer than the cursor. *)
Definition nothing_newer : Prop :=
  forall row t c, beforeMs = Some c -> row ∈ messages -> conversationId row = conv ->
  orderBucketMs row = orderBucketOf (Some c) -> openOrderInstant parse seed row = Some t -> t <= c.

Lemma picks_length k s D :
  start_bucket messages conv beforeMs = Some s -> nothing_newer ->
  (forall row, row ∈ D -> row ∈ window (S k) s) -> length (picks D) = length D.
Proof.
  intros Hs Hnn HD. rewrite picks_omap. induction D as [|row D IH]; [done|]. cbn.
  destruct (elem_window _ _ _ (HD row ltac:(by left))) as (Hm & Hc & b & Hb & Hw).
  assert (Hi : exists t, openOrderInstant parse seed row = Some t /\
     match beforeMs with Some c => t <= c | None => True end).
  { destruct (proj1 (Forall_forall _ _) Hindexed row Hm b Hb) as (t & Ht & _). exists t. split; [done|].
    destruct beforeMs as [c|] eqn:Ec; [|done]. cbn in Hs. injection Hs as Hs.
    pose proof (window_threshold k s row t (HD row ltac:(by left)) Ht) as Hth.
    destruct (decide (orderBucketMs row = Some s)) as [E|_].
    - apply (Hnn row t c); [done..| |done]. rewrite E. cbn. by rewrite Hs.
    - pose proof (bucket_le c). lia. }
  destruct Hi as (t & Ht & Hle). unfold pick_one. rewrite Ht.
  replace (match beforeMs with Some b0 => b0 <? t | None => false end) with false
    by (destruct beforeMs; [ztest|]; done).
  cbn. f_equal. apply IH. intros r Hr. apply HD. by right.
Qed.
End Paging.

(** What reading the whole window at once would show: its unexpired rows at or before
    the cursor, newest [limit] of them, oldest first. *)
Definition reference_page `{Sodium} parse seed messages conv limit (beforeMs : option Z) now : list MessageRow :=
  match start_bucket messages conv beforeMs with
  | None => []
  | Some s =>
      let rows := window parse seed messages conv now MAX_BUCKETS_PER_PAGE s in
      page (pickOlderPage rows (resolveOrderInstants parse seed rows) limit beforeMs)
  end.

Lemma page_rev {A} (rows : list A) instants limit beforeMs :
  rev (page (pickOlderPage rows instants limit beforeMs))
  = map fst (take (Z.to_nat (Z.max 0 limit)) (sort_desc (pick_rows rows instants beforeMs))).
Proof. cbn. by rewrite <- map_rev, rev_involutive. Qed.

Lemma rev_inj {A} (l1 l2 : list A) : rev l1 = rev l2 -> l1 = l2.
Proof. intros E. by rewrite <- (rev_involutive l1), E, rev_involutive. Qed.

Lemma page_elem `{Sodium} parse seed rows limit beforeMs row :
  row ∈ page (pickOlderPage rows (resolveOrderInstants parse seed rows) limit beforeMs) -> row ∈ rows.
Proof.
  cbn. intros (x & -> & Hx)%list_elem_of_fmap. apply list_elem_of_In, in_rev, list_elem_of_In in Hx.
  apply elem_of_take in Hx as (i & Hx%list_elem_of_lookup_2 & _). rewrite sort_desc_perm in Hx.
  by apply elem_picks in Hx as [? _].
Qed.

(** C39: the bucketed reader shows the history it should. For a table of normalised
    rows, the page read bucket by bucket, newest first, is always a prefix of the page
    that reading all 32 buckets at once would give: nothing is out of order, nothing
    is skipped in between, nothing expired or of another conversation appears; and it
    is that whole page on the first page, and on later ones whenever no row of the
    cursor's bucket is newer than the cursor. *)
Theorem order_page_exact `{Sodium} parse seed messages conv limit beforeDate now :
  Forall (indexed parse seed) messages ->
  rev (getMessagesByConversation parse seed messages conv limit beforeDate now) `prefix_of`
    rev (reference_page parse seed messages conv limit (cursor_ms parse beforeDate) now) /\
  (nothing_newer parse seed messages conv (cursor_ms parse beforeDate) ->
   getMessagesByConversation parse seed messages conv limit beforeDate now
   = reference_page parse seed messages conv limit (cursor_ms parse beforeDate) now).
Proof.
  intros Hi. unfold getMessagesByConversation, reference_page. set (c := cursor_ms parse beforeDate).
  destruct (start_bucket messages conv c) as [s|] eqn:Es; [|cbn; rewrite take_nil; done].
  destruct (scan_prefix parse seed messages conv now limit c Hi MAX_BUCKETS_PER_PAGE s [])
    as (D & R & Hs & Hw & HD & HR).
  cbn [app] in Hs, HR. rewrite Hs. split.
  - rewrite !page_rev, Hw, take_app, map_app. by apply prefix_app_r.
  - intros Hnn. apply rev_inj. rewrite !page_rev, Hw.
    destruct HR as [->|HR]; [by rewrite app_nil_r|].
    rewrite take_app_le; [done|]. rewrite sort_desc_perm.
    rewrite (picks_length parse seed messages conv now c Hi 31 s D Es Hnn HD). lia.
Qed.

(** A crowded bucket hides the history behind it. When the cursor's bucket holds
    at least [limit] unexpired rows, newer ones than the cursor included, the reader
    stops there: the page has only rows of that bucket, however few, and whatever
    older rows the table holds. *)
Theorem order_page_stuck `{Sodium} parse seed messages conv limit beforeDate now c s :
  cursor_ms parse beforeDate = Some c -> orderBucketOf (Some c) = Some s ->
  limit <= Z.of_nat (length (batch parse seed messages conv now s)) ->
  forall older, let messages' := messages ++ older in
  Forall (fun row => orderBucketMs row <> Some s) older ->
  getMessagesByConversation parse seed messages' conv limit beforeDate now
  = getMessagesByConversation parse seed messages conv limit beforeDate now /\
  Forall (fun row => orderBucketMs row = Some s)
    (getMessagesByConversation parse seed messages conv limit beforeDate now).
Proof.
  intros Hc Hs Hl older messages' Ho.
  assert (Hb : batch parse seed messages' conv now s = batch parse seed messages conv now s).
  { unfold batch, messages'. rewrite filter_app.
    replace (filter _ older) with (@nil MessageRow); [by rewrite app_nil_r|]. symmetry. apply elem_of_nil_inv.
    intros row [[_ E] Hr]%list_elem_of_filter. exact (proj1 (Forall_forall _ _) Ho row Hr E). }
  assert (Hg : forall m, batch parse seed m conv now s = batch parse seed messages conv now s ->
    getMessagesByConversation parse seed m conv limit beforeDate now =
    page (pickOlderPage (batch parse seed messages conv now s)
      (resolveOrderInstants parse seed (batch parse seed messages conv now s)) limit (Some c))).
  { intros m Hm. unfold getMessagesByConversation. rewrite Hc. cbn [start_bucket]. rewrite Hs.
    change MAX_BUCKETS_PER_PAGE with 32%nat. cbn [scan_buckets app]. rewrite Hm. by ztest. }
  rewrite (Hg messages' Hb), (Hg messages eq_refl). split; [done|].
  apply Forall_forall. intros row Hr%page_elem. by apply (elem_batch parse seed messages conv now s).
Qed.

(** ** A small vault *)
Module ToyVault.
Definition parse (s : jstr) : option Z := js_Number s.
Definition row (id : string) (t b : Z) : MessageRow :=
  mkRow id "c" (Some (inr t)) None (Some b) CNull CNull.
(** Two rows of the bucket starting at 900000, two of the one before. *)
Definition table : list MessageRow := [row "a" 900300 900000; row "b" 10 0; row "c" 900200 900000; row "d" 20 0].
End ToyVault.


Lemma order_page_exact_witness :
  map id (getMessagesByConversation (H := Toy.toy_sodium) ToyVault.parse None ToyVault.table "c" 3 None 0)
  = ["d"; "c"; "a"].
Proof.
  rewrite (proj2 (order_page_exact (H := Toy.toy_sodium) ToyVault.parse None ToyVault.table "c" 3 None 0
    ltac:(repeat constructor; intros b [= <-]; eexists; split; reflexivity))).
  - reflexivity.
  - intros r t c Hc. discriminate Hc.
Defined.

(** The cursor is at the older row of the newer bucket, which holds two rows: a page
    of two shows the cursor's row again and nothing older, at any time. *)
Lemma order_page_stuck_witness :
  map id (getMessagesByConversation (H := Toy.toy_sodium) ToyVault.parse None
    ([ToyVault.row "a" 900300 900000; ToyVault.row "c" 900200 900000]
     ++ [ToyVault.row "b" 10 0; ToyVault.row "d" 20 0]) "c" 2 (Some (js "900200")) 0) = ["c"].
Proof.
  rewrite (proj1 (order_page_stuck (H := Toy.toy_sodium) ToyVault.parse None
    [ToyVault.row "a" 900300 900000; ToyVault.row "c" 900200 900000] "c" 2 (Some (js "900200")) 0 900200 900000
    eq_refl eq_refl ltac:(vm_compute; discriminate) [ToyVault.row "b" 10 0; ToyVault.row "d" 20 0]
    ltac:(repeat constructor; discriminate))).
  reflexivity.
Defined.
