(* ===== verification/GroupMailbox.v ===== *)
(** The group mailbox of server/src/utils/groupMailbox.ts, with its two endpoints
    of server/src/routes/groups.ts: validation of a post, writing, paging through
    the items of the current era with a composite cursor, and expiry. *)
From S2P Require Import Prelude Bytes Base64 Utf8 Js JsDate PqWire Sodium AtRest Membership.

Module Mailbox.

Inductive MailboxKind := KEY_REQUEST | KEY_ENVELOPE | META | COVER.

Definition MAILBOX_MAX_ITEMS_PER_POST : Z := 32.
Definition MAILBOX_MAX_ITEMS_PER_PULL : Z := 200.
Definition MAILBOX_MAX_PAYLOAD_BYTES : Z := 8 * 1024.
Definition MAILBOX_MAX_PULL_BYTES : Z := 256 * 1024.
Definition MAILBOX_TTL_MS : Z := 7 * 24 * 60 * 60 * 1000.

Definition kind_of (s : jstr) : option MailboxKind :=
  if bool_decide (s = js "KEY_REQUEST") then Some KEY_REQUEST
  else if bool_decide (s = js "KEY_ENVELOPE") then Some KEY_ENVELOPE
  else if bool_decide (s = js "META") then Some META
  else if bool_decide (s = js "COVER") then Some COVER else None.

Record MailboxInputItem := mkInput { ii_kind : jstr; ii_tag : option jstr; ii_payload : jstr }.
Record item := mkItem { it_kind : MailboxKind; it_tag : option jstr; it_payload : jstr }.

(** A stored row; [createdAt] and [expiresAt] are time values. *)
Record MailboxRow := mkRow {
  row_id : jstr; row_conversationId : jstr; row_epoch : Z; row_item : item;
  row_createdAt : Z; row_expiresAt : Z }.

Record MailboxCursor := mkCursor { cu_createdAt : Z; cu_id : option jstr }.

(** [where], [orderBy: [createdAt asc, id asc]] and [take] of the pull query. *)
Record query := mkQuery {
  q_conversationId : jstr; q_epoch : Z; q_now : Z; q_cursor : option MailboxCursor; q_take : Z }.

End Mailbox.
Import Mailbox.

(** Prisma over PostgreSQL. [id_lt] is the order of the id column. *)
Class MailboxDb := {
  create_item : list MailboxRow -> jstr -> Z -> item -> Z -> Z -> result (list MailboxRow);
  findMany_items : list MailboxRow -> query -> list MailboxRow;
  deleteExpired_items : list MailboxRow -> Z -> list MailboxRow * Z;
  id_lt : jstr -> jstr -> Prop;
  id_lt_dec :: RelDecision id_lt;
  (** [new Date(text)] on texts outside the standard's format. *)
  date_other : jstr -> option Z }.

Section Order.
Context `{MailboxDb}.

(** After the cursor in the order of the query. *)
Definition after_cursor (c : MailboxCursor) (r : MailboxRow) : Prop :=
  cu_createdAt c < row_createdAt r \/
  match cu_id c with
  | None | Some [] => False
  | Some id => row_createdAt r = cu_createdAt c /\ id_lt id (row_id r)
  end.

Definition query_matches (q : query) (r : MailboxRow) : Prop :=
  row_conversationId r = q_conversationId q /\ row_epoch r = q_epoch q /\
  q_now q < row_expiresAt r /\
  match q_cursor q with Some c => after_cursor c r | None => True end.

#[export] Instance query_matches_dec q r : Decision (query_matches q r).
Proof.
  unfold query_matches, after_cursor.
  destruct (q_cursor q) as [c|]; [destruct (cu_id c) as [[|]|]|]; apply _.
Defined.

Definition row_lt (a b : MailboxRow) : Prop :=
  row_createdAt a < row_createdAt b \/ (row_createdAt a = row_createdAt b /\ id_lt (row_id a) (row_id b)).
End Order.

Class MailboxDbLaws `{MailboxDb} := {
  (** ids are fresh and not empty. *)
  create_item_law : forall t c e i cr ex t', create_item t c e i cr ex = Ok t' ->
    exists id, id <> [] /\ id ∉ map row_id t /\ t' ≡ₚ mkRow id c e i cr ex :: t;
  findMany_items_law : forall t q, exists sorted,
    sorted ≡ₚ filter (query_matches q) t /\
    (NoDup (map row_id t) -> StronglySorted row_lt sorted) /\
    findMany_items t q = take (Z.to_nat (q_take q)) sorted;
  deleteExpired_law : forall t now,
    (deleteExpired_items t now).1 ≡ₚ filter (fun r => ~ row_expiresAt r <= now) t /\
    (deleteExpired_items t now).2 = Z.of_nat (length (filter (fun r => row_expiresAt r <= now) t));
  id_lt_trans :: Transitive id_lt;
  id_lt_irrefl :: Irreflexive id_lt }.

Module MailboxOps.
Section Model.
Context `{MailboxDb}.

(** [formatMailboxCursor]: [toISOString] throws on an invalid time value. *)
Definition formatMailboxCursor (id : jstr) (createdAt : Z) : result jstr :=
  match toISOString createdAt with
  | Some iso => Ok (iso ++ js "|" ++ id)
  | None => throw "Invalid time value"
  end.

Definition parseMailboxCursor (value : jstr) : option MailboxCursor :=
  let '(rawDate, id) := match cut 124 value with
    | Some (a, b) => (a, Some b) | None => (value, None) end in
  match id with
  | Some [] => None
  | _ =>
      match date_parse date_other rawDate with
      | None => None
      | Some createdAt => Some (mkCursor createdAt id)
      end
  end.

(** [TAG_RE] *)
Definition tag_ok (tag : jstr) : bool := forallb url_char tag && (Z.of_nat (length tag) =? 43).

Fixpoint validate_loop (items : list MailboxInputItem) : result (list item) :=
  match items with
  | [] => Ok []
  | it :: rest =>
      match kind_of (ii_kind it) with
      | None => throw "unknown_kind"
      | Some kind =>
          if match ii_tag it with Some tag => negb (tag_ok tag) | None => false end then throw "bad_tag"
          else if negb (forallb url_char (ii_payload it) && negb (bool_decide (ii_payload it = [])))
          then throw "payload_not_base64url"
          else let bytes := js_length (ii_payload it) * 3 / 4 in
          if MAILBOX_MAX_PAYLOAD_BYTES <? bytes then throw "payload_too_large"
          else normalized ← validate_loop rest;
               Ok (mkItem kind (ii_tag it) (ii_payload it) :: normalized)
      end
  end.

(** [{ ok: false, reason }] is [Err reason]. *)
Definition validateMailboxItems (items : list MailboxInputItem) : result (list item) :=
  if (Z.of_nat (length items) =? 0) || (MAILBOX_MAX_ITEMS_PER_POST <? Z.of_nat (length items))
  then throw "too_many_items" else validate_loop items.

(** The rows written before a failing [create] stay written. *)
Fixpoint post_loop (t : list MailboxRow) (conversationId : jstr) (epoch now : Z) (items : list item)
    (written : Z) : list MailboxRow * result Z :=
  match items with
  | [] => (t, Ok written)
  | it :: rest =>
      match create_item t conversationId epoch it now (now + MAILBOX_TTL_MS) with
      | Err e => (t, Err e)
      | Ok t' => post_loop t' conversationId epoch now rest (written + 1)
      end
  end.
Definition postMailboxItems (t : list MailboxRow) (conversationId : jstr) (epoch : Z) (items : list item)
    (now : Z) : list MailboxRow * result Z :=
  post_loop t conversationId epoch now items 0.

Record MailboxPull := mkPull { items : list MailboxRow; nextCursor : option jstr; truncated : bool }.

(** The loop over the page: the accepted rows, and whether the byte budget cut it. *)
Fixpoint accept (rows : list MailboxRow) (bytes : Z) : list MailboxRow * bool :=
  match rows with
  | [] => ([], false)
  | r :: rest =>
      let bytes := bytes + js_length (it_payload (row_item r)) in
      if MAILBOX_MAX_PULL_BYTES <? bytes then ([], true)
      else let '(accepted, truncated) := accept rest bytes in (r :: accepted, truncated)
  end.

Definition pullMailboxItems (t : list MailboxRow) (conversationId : jstr) (epoch : Z)
    (cursor : option MailboxCursor) (limit : option Z) (now : Z) : result MailboxPull :=
  let limit := Z.min (default MAILBOX_MAX_ITEMS_PER_PULL limit) MAILBOX_MAX_ITEMS_PER_PULL in
  let rows := findMany_items t (mkQuery conversationId epoch now cursor (limit + 1)) in
  let hasMore := limit <? Z.of_nat (length rows) in
  let pageRows := if hasMore then take (Z.to_nat limit) rows else rows in
  let '(accepted, cut) := accept pageRows 0 in
  next ← match last accepted with
    | Some l => s ← formatMailboxCursor (row_id l) (row_createdAt l); Ok (Some s)
    | None =>
        match cursor with
        | None => Ok None
        | Some c =>
            s ← match cu_id c with
              | None | Some [] => match toISOString (cu_createdAt c) with
                  | Some iso => Ok iso | None => throw "Invalid time value" end
              | Some id => formatMailboxCursor id (cu_createdAt c)
              end;
            Ok (Some s)
        end
    end;
  Ok (mkPull accepted next
    (cut || hasMore || (Z.of_nat (length accepted) <? Z.of_nat (length pageRows)))).

(** What the pull endpoint does with the raw cursor of the body, once the token
    has been accepted. *)
Definition pull_endpoint (t : list MailboxRow) (conversationId : jstr) (epoch : Z)
    (rawCursor : option jstr) (limit : option Z) (now : Z) : result MailboxPull :=
  match rawCursor with
  | None | Some [] => pullMailboxItems t conversationId epoch None limit now
  | Some raw =>
      match parseMailboxCursor raw with
      | None => throw "INVALID_CURSOR"
      | Some c => pullMailboxItems t conversationId epoch (Some c) limit now
      end
  end.

Definition purgeExpiredMailbox (t : list MailboxRow) (now : Z) : list MailboxRow * Z :=
  deleteExpired_items t now.

(** A client that follows [nextCursor] while pages come back truncated. *)
Fixpoint pull_all (fuel : nat) (t : list MailboxRow) (conversationId : jstr) (epoch : Z)
    (rawCursor : option jstr) (limit : option Z) (now : Z) : result (list MailboxRow) :=
  match fuel with
  | 0%nat => throw "out of fuel"
  | S k =>
      page ← pull_endpoint t conversationId epoch rawCursor limit now;
      if truncated page then
        rest ← pull_all k t conversationId epoch
          (match nextCursor page with Some c => Some c | None => rawCursor end) limit now;
        Ok (items page ++ rest)
      else Ok (items page)
  end.

(** A response of an endpoint. *)
Inductive response (A : Type) :=
| Reply (a : A)
| Refuse (status : Z) (error : string).
Arguments Reply {A} a.
Arguments Refuse {A} status error.

Context `{ServerCrypto}.

(** POST /:id/mailbox. [allowed] is the answer of the rate limiter, [conv] the
    conversation row; the table afterwards and the response. *)
Definition mailbox_post (t : list MailboxRow) (allowed : bool) (conv : option GroupTokens.conversation)
    (conversationId token : jstr) (input : list MailboxInputItem) (now : Z)
  : list MailboxRow * response (Z * Z) :=
  if negb allowed then (t, Refuse 429 "RATE_LIMITED") else
  match conv with
  | None => (t, Refuse 404 "Not found")
  | Some conversation =>
      if negb (GroupTokens.credentialGroupTokenValid conversation token now)
      then (t, Refuse 403 "GROUP_AUTH_REQUIRED") else
      match validateMailboxItems input with
      | Err _ => (t, Refuse 400 "MAILBOX_REJECTED")
      | Ok its =>
          let epoch := GroupTokens.groupEpoch conversation in
          match postMailboxItems t conversationId epoch its now with
          | (t', Ok written) => (t', Reply (written, epoch))
          | (t', Err e) => (t', Refuse 500 e)
          end
      end
  end.

(** The token of a pull: the group token, or else a member token of this
    conversation that is not stale; hashes are unique in the table. *)
Definition pull_token_ok (conversation : GroupTokens.conversation) (members : list member_row)
    (conversationId token : jstr) (now : Z) : bool :=
  GroupTokens.credentialGroupTokenValid conversation token now ||
  match list_find (fun r => mr_tokenHash r = GroupTokens.hashGroupToken token) members with
  | None => false
  | Some (_, member) =>
      bool_decide (mr_conversationId member = conversationId) &&
      match GroupTokens.evaluateMemberToken (mr_tokenEpoch member) (mr_expiresAt member)
              (GroupTokens.groupEpoch conversation) now with
      | GroupTokens.stale => false | _ => true end
  end.

(** POST /:id/mailbox/pull: the epoch and the page, or a refusal. *)
Definition mailbox_pull (t : list MailboxRow) (allowed : bool) (conv : option GroupTokens.conversation)
    (members : list member_row) (conversationId token : jstr) (rawCursor : option jstr)
    (limit : option Z) (now : Z) : response (Z * MailboxPull) :=
  let bad := match rawCursor with
    | None | Some [] => false
    | Some raw => match parseMailboxCursor raw with None => true | Some _ => false end end in
  if bad then Refuse 400 "INVALID_CURSOR" else
  if negb allowed then Refuse 429 "RATE_LIMITED" else
  match conv with
  | None => Refuse 404 "Not found"
  | Some conversation =>
      if negb (pull_token_ok conversation members conversationId token now)
      then Refuse 403 "GROUP_AUTH_REQUIRED" else
      let epoch := GroupTokens.groupEpoch conversation in
      match pull_endpoint t conversationId epoch rawCursor limit now with
      | Ok page => Reply (epoch, page)
      | Err e => Refuse 500 e
      end
  end.
End Model.
Arguments Reply {A} a.
Arguments Refuse {A} status error.
End MailboxOps.

Section MailboxLemmas.
Import MailboxOps.
Context `{ML : MailboxDbLaws}.

(** What every row written through the endpoint satisfies. *)
Definition row_ok (r : MailboxRow) : Prop :=
  row_id r <> [] /\ iso_range (row_createdAt r) /\
  js_length (it_payload (row_item r)) <= MAILBOX_MAX_PULL_BYTES.

Definition table_ok (t : list MailboxRow) : Prop := NoDup (map row_id t) /\ Forall row_ok t.

Lemma cursor_roundtrip id t :
  id <> [] -> iso_range t ->
  exists s, formatMailboxCursor id t = Ok s /\ s <> [] /\
    parseMailboxCursor s = Some (mkCursor t (Some id)).
Proof.
  intros Hid Ht. destruct (iso_roundtrip t Ht) as (iso & Hiso & _ & Hp).
  unfold formatMailboxCursor. rewrite Hiso. eexists. split; [done|]. split; [by destruct iso|].
  unfold parseMailboxCursor. change (js "|" ++ id) with (124 :: id).
  rewrite cut_word by (by eapply iso_no_bar). rewrite Hp. by destruct id.
Qed.

(** An empty page repeats the cursor it was asked with. *)
Lemma next_cursor_ok cur :
  (forall x, cur = Some x -> iso_range (cu_createdAt x) /\ is_Some (cu_id x)) ->
  exists nx, match cur with
    | None => Ok None
    | Some c =>
        s ← match cu_id c with
          | None | Some [] => match toISOString (cu_createdAt c) with
              | Some iso => Ok iso | None => throw "Invalid time value" end
          | Some id => formatMailboxCursor id (cu_createdAt c)
          end;
        Ok (Some s)
    end = Ok nx.
Proof.
  intros Hcur. destruct cur as [x|]; [|eauto]. destruct (Hcur x eq_refl) as [Hr _].
  destruct (iso_roundtrip _ Hr) as (s & Hs & _). unfold formatMailboxCursor. rewrite Hs.
  destruct (cu_id x) as [[|]|]; eexists; reflexivity.
Qed.

Lemma accept_spec rows : forall b,
  exists k, (accept rows b).1 = take k rows /\ ((accept rows b).2 = false -> (accept rows b).1 = rows).
Proof.
  induction rows as [|r rows IH]; intros b; cbn [accept]; [by exists 0%nat|].
  destruct (_ <? _); [by exists 0%nat|]. destruct (IH (b + js_length (it_payload (row_item r)))) as (k & Hk & Hc).
  destruct (accept rows _) as [acc cut]. cbn in *. exists (S k). split; [by rewrite Hk|].
  intros Hcut. by rewrite Hc.
Qed.

Lemma accept_progress r rows :
  row_ok r -> exists acc, (accept (r :: rows) 0).1 = r :: acc.
Proof.
  intros (_ & _ & Hl). cbn [accept]. rewrite Z.add_0_l.
  replace (MAILBOX_MAX_PULL_BYTES <? js_length (it_payload (row_item r))) with false by lia.
  destruct (accept rows _) as [acc cut]. by exists acc.
Qed.

#[local] Instance row_lt_trans : Transitive row_lt.
Proof.
  intros a b c [Hab|[Hab Hi]] [Hbc|[Hbc Hj]]; unfold row_lt; [left; lia..|].
  right. split; [lia|]. by etrans.
Qed.

Lemma row_lt_irrefl a : ~ row_lt a a.
Proof. intros [?|[_ ?]]; [lia|]. by eapply (irreflexivity id_lt). Qed.

#[local] Instance row_lt_antisymm : AntiSymm (=) row_lt.
Proof. intros a b Hab Hba. exfalso. apply (row_lt_irrefl a). by transitivity b. Qed.

Lemma sorted_unique l1 l2 :
  StronglySorted row_lt l1 -> StronglySorted row_lt l2 -> l1 ≡ₚ l2 -> l1 = l2.
Proof. apply StronglySorted_unique, _. Qed.

(** The rows a query would return without its [take]. *)
Definition matching (t : list MailboxRow) (c : jstr) (e now : Z) (cur : option MailboxCursor)
    (l : list MailboxRow) : Prop :=
  l ≡ₚ filter (query_matches (mkQuery c e now cur 0)) t /\ StronglySorted row_lt l.

Lemma page_rows_eq lim (l : list MailboxRow) :
  1 <= lim ->
  (if lim <? Z.of_nat (length (take (Z.to_nat (lim + 1)) l))
   then take (Z.to_nat lim) (take (Z.to_nat (lim + 1)) l) else take (Z.to_nat (lim + 1)) l) =
  take (Z.to_nat lim) l.
Proof.
  intros Hl. destruct (Z.ltb_spec lim (Z.of_nat (length (take (Z.to_nat (lim + 1)) l)))) as [Hlt|Hle].
  - rewrite take_take. f_equal. lia.
  - rewrite length_take in Hle. rewrite !take_ge by lia. done.
Qed.

Lemma accepted_prefix lim l acc cut :
  1 <= lim -> (forall r, r ∈ l -> row_ok r) -> accept (take (Z.to_nat lim) l) 0 = (acc, cut) ->
  exists rest, l = acc ++ rest /\ (acc = [] -> l = []) /\
    (cut = false -> Z.of_nat (length l) <= lim -> rest = []).
Proof.
  intros Hl Hrow Ea. destruct (accept_spec (take (Z.to_nat lim) l) 0) as (k & Hk & Hcut).
  rewrite Ea in Hk, Hcut. cbn in Hk, Hcut. rewrite take_take in Hk.
  exists (drop (k `min` Z.to_nat lim) l). split_and!.
  - rewrite Hk. by rewrite take_drop.
  - intros ->. destruct l as [|r l']; [done|]. exfalso.
    replace (Z.to_nat lim) with (S (Z.to_nat (lim - 1))) in Ea by lia. cbn [take] in Ea.
    destruct (accept_progress r (take (Z.to_nat (lim - 1)) l')) as [a Ha]; [apply Hrow; left|].
    rewrite Ea in Ha. done.
  - intros Hc Hlen. specialize (Hcut Hc). rewrite take_ge in Hcut by lia. rewrite Hk in Hcut.
    apply (f_equal length) in Hcut. rewrite length_take in Hcut. apply drop_ge. lia.
Qed.

(** One page is a prefix of what is left, the whole of it unless it says so, and
    otherwise not empty and ending at the next cursor. *)
Lemma pull_page t c e now cur limit l :
  table_ok t -> matching t c e now cur l -> (forall x, limit = Some x -> 1 <= x) ->
  (forall x, cur = Some x -> iso_range (cu_createdAt x) /\ is_Some (cu_id x)) ->
  exists page rest, pullMailboxItems t c e cur limit now = Ok page /\ l = items page ++ rest /\
    (truncated page = false -> rest = []) /\
    (truncated page = true -> exists pre x, items page = pre ++ [x] /\
       exists s, nextCursor page = Some s /\ formatMailboxCursor (row_id x) (row_createdAt x) = Ok s).
Proof.
  intros [Hnd Hok] [Hperm Hs] Hlim Hcur. unfold pullMailboxItems.
  set (lim := Z.min _ _). assert (Hl1 : 1 <= lim).
  { unfold lim, MAILBOX_MAX_ITEMS_PER_PULL. destruct limit as [x|]; cbn; [specialize (Hlim x eq_refl)|]; lia. }
  destruct (findMany_items_law t (mkQuery c e now cur (lim + 1))) as (sorted & Hp & Hso & ->).
  assert (sorted = l) as ->.
  { apply sorted_unique; [by apply Hso|done|]. rewrite Hp, Hperm. done. }
  clear Hp Hso. cbn [q_take]. rewrite page_rows_eq by done.
  destruct (accept (take (Z.to_nat lim) l) 0) as [acc cut] eqn:Ea.
  assert (Hrow : forall r, r ∈ l -> row_ok r).
  { intros r Hr. rewrite Hperm in Hr. apply list_elem_of_filter in Hr as [_ Hr].
    rewrite Forall_forall in Hok. by apply Hok. }
  destruct (accepted_prefix lim l acc cut Hl1 Hrow Ea) as (rest & Hl & Hne & Hall).
  destruct acc as [|a0 acc0] using rev_ind; [|clear IHacc0].
  - rewrite (Hne eq_refl) in *. cbn [last]. cbn in Hl. subst rest.
    destruct (next_cursor_ok cur Hcur) as [nx ->]. rewrite bind_ok. eexists _, []. split; [done|].
    rewrite take_nil in Ea. cbn in Ea. simplify_eq. cbn. rewrite !take_nil. cbn.
    split_and!; [done|done|]. intros Ht. exfalso. apply orb_true_iff in Ht as [Ht|Ht]; bools; lia.
  - rewrite last_snoc. destruct (Hrow a0) as (Hid & Hiso & _); [rewrite Hl; set_solver|].
    destruct (cursor_roundtrip (row_id a0) (row_createdAt a0) Hid Hiso) as (s & Hf & _).
    rewrite Hf, !bind_ok. eexists _, rest. split; [done|]. cbn [items truncated nextCursor]. split_and!; [done| |by eauto 6].
    intros Ht. apply orb_false_iff in Ht as [Ht _]. apply orb_false_iff in Ht as [Hc Hm].
    apply Hall; [done|]. bools. rewrite length_take in Hm. lia.
Qed.

Definition cursor_of (x : MailboxRow) : MailboxCursor := mkCursor (row_createdAt x) (Some (row_id x)).

Lemma after_cursor_of x r : row_id x <> [] -> after_cursor (cursor_of x) r <-> row_lt x r.
Proof.
  intros Hx. unfold after_cursor, cursor_of, row_lt. cbn. destruct (row_id x); [done|]. naive_solver.
Qed.

Lemma after_cursor_trans y x r : after_cursor y x -> row_lt x r -> after_cursor y r.
Proof.
  unfold after_cursor, row_lt. destruct (cu_id y) as [[|i l]|]; intros [Hy|Hy] [Hr|[Hr Hi]]; try tauto;
    try (left; lia). right. split; [lia|]. destruct Hy as [_ Hy]. by etrans.
Qed.

Lemma sorted_app_lt (l1 l2 : list MailboxRow) a b :
  StronglySorted row_lt (l1 ++ l2) -> a ∈ l1 -> b ∈ l2 -> row_lt a b.
Proof.
  induction l1 as [|x l1 IH]; intros Hs Ha Hb; [by apply not_elem_of_nil in Ha|].
  apply StronglySorted_inv in Hs as [Hs Hx]. rewrite Forall_forall in Hx.
  apply elem_of_cons in Ha as [->|Ha]; [apply Hx; set_solver|by apply IH].
Qed.

(** What is left after a page is what the next cursor selects. *)
Lemma matching_next t c e now cur pre x rest :
  table_ok t -> matching t c e now cur (pre ++ [x] ++ rest) ->
  matching t c e now (Some (cursor_of x)) rest.
Proof.
  intros [Hnd Hok] [Hperm Hs]. assert (Hs' := Hs). rewrite app_assoc in Hs'.
  assert (Hin : forall r, r ∈ pre ++ [x] ++ rest <-> query_matches (mkQuery c e now cur 0) r /\ r ∈ t)
    by (intros r; by rewrite Hperm, list_elem_of_filter).
  assert (Hx : row_id x <> [] /\ query_matches (mkQuery c e now cur 0) x).
  { destruct (proj1 (Hin x)) as [Hq Hx]; [set_solver|]. rewrite Forall_forall in Hok.
    split; [by apply Hok|done]. }
  destruct Hx as [Hid Hq].
  assert (Hrest : forall r, r ∈ rest -> row_lt x r)
    by (intros r Hr; eapply sorted_app_lt; [exact Hs'| |exact Hr]; set_solver).
  assert (Hpre : forall r, r ∈ pre -> row_lt r x)
    by (intros r Hr; eapply sorted_app_lt; [exact Hs|exact Hr|]; set_solver).
  split; [|by eapply StronglySorted_app_1_r].
  apply NoDup_Permutation.
  - assert (Hn : NoDup (pre ++ [x] ++ rest)).
    { rewrite Hperm. apply NoDup_filter. by eapply NoDup_fmap_1. }
    apply NoDup_app in Hn as (_ & _ & Hn). by apply NoDup_app in Hn as (_ & _ & Hn).
  - apply NoDup_filter. by eapply NoDup_fmap_1.
  - intros r. rewrite list_elem_of_filter. unfold query_matches in *. cbn in *.
    rewrite after_cursor_of by done. split.
    + intros Hr. specialize (Hin r). split_and!; try (apply Hin; set_solver). by apply Hrest.
    + intros [(Hc & He & Hn & Hlt) Ht]. assert (Hr : r ∈ pre ++ [x] ++ rest).
      { apply Hin. split; [|done]. split_and!; [done..|]. destruct cur as [y|]; [|done].
        eapply after_cursor_trans; [|exact Hlt]. apply Hq. }
      apply elem_of_app in Hr as [Hr|Hr]; [|apply elem_of_app in Hr as [Hr|Hr]; [|done]]; exfalso.
      * apply (row_lt_irrefl r). transitivity x; [by apply Hpre|done].
      * apply list_elem_of_singleton in Hr as ->. by apply (row_lt_irrefl x).
Qed.

Lemma pull_endpoint_cursor t c e x s limit now :
  row_id x <> [] -> iso_range (row_createdAt x) ->
  formatMailboxCursor (row_id x) (row_createdAt x) = Ok s ->
  pull_endpoint t c e (Some s) limit now = pullMailboxItems t c e (Some (cursor_of x)) limit now.
Proof.
  intros Hid Hr Hf. destruct (cursor_roundtrip _ _ Hid Hr) as (s' & Hf' & Hne & Hp).
  rewrite Hf in Hf'. simplify_eq. unfold pull_endpoint. rewrite Hp. by destruct s'.
Qed.

(** Following the cursors collects everything that is left. *)
Lemma pull_all_matching t c e now limit : table_ok t -> (forall x, limit = Some x -> 1 <= x) ->
  forall fuel raw cur l, (length l < fuel)%nat -> matching t c e now cur l ->
  (forall x, cur = Some x -> iso_range (cu_createdAt x) /\ is_Some (cu_id x)) ->
  pull_endpoint t c e raw limit now = pullMailboxItems t c e cur limit now ->
  pull_all fuel t c e raw limit now = Ok l.
Proof.
  intros Ht Hlim. induction fuel as [|fuel IH]; intros raw cur l Hf Hm Hcur Heq; [lia|].
  cbn [pull_all]. rewrite Heq.
  destruct (pull_page t c e now cur limit l Ht Hm Hlim Hcur) as (page & rest & -> & Hl & Hfin & Hmore).
  rewrite bind_ok. destruct (truncated page) eqn:Etr.
  - destruct (Hmore eq_refl) as (pre & x & Hi & s & Hn & Hfmt). rewrite Hn.
    assert (Hx : row_ok x).
    { destruct Hm as [Hp _]. destruct Ht as [_ Hok]. rewrite Forall_forall in Hok. apply Hok.
      assert (Hin : x ∈ l) by (rewrite Hl, Hi; set_solver). rewrite Hp in Hin.
      by apply list_elem_of_filter in Hin as [_ Hin]. }
    rewrite Hi, <- app_assoc in Hl.
    rewrite (IH (Some s) (Some (cursor_of x)) rest).
    + rewrite bind_ok, Hi, Hl. by rewrite app_assoc.
    + rewrite Hl, !length_app in Hf. cbn in Hf. lia.
    + rewrite Hl in Hm. by eapply matching_next.
    + intros y [= <-]. cbn. split; [apply Hx|eauto].
    + apply pull_endpoint_cursor; [apply Hx..|done].
  - rewrite (Hfin eq_refl), app_nil_r in Hl. by rewrite <- Hl.
Qed.

(** ** Every table the endpoint can write *)

(** A payload of [n] base64url characters carries at most 8 KB. *)
Definition item_ok (it : item) : Prop :=
  forallb url_char (it_payload it) = true /\ 0 < js_length (it_payload it) <= 10923 /\
  match it_tag it with Some tag => tag_ok tag = true | None => True end.

Lemma validate_loop_ok its l : validate_loop its = Ok l -> length l = length its /\ Forall item_ok l.
Proof.
  revert l; induction its as [|it its IH]; cbn [validate_loop]; intros l Hv; [by simplify_eq|].
  destruct (kind_of (ii_kind it)) as [k|]; [|done].
  destruct (match ii_tag it with Some _ => _ | None => _ end) eqn:Etag; [done|].
  destruct (negb (_ && _)) eqn:Ep; [done|]. destruct (_ <? _) eqn:El; [done|]. unbind.
  destruct (IH _ eq_refl) as [Hlen Hall]. split; [cbn; by rewrite Hlen|]. constructor; [|done].
  apply negb_false_iff, andb_true_iff in Ep as [Hu Hne]. apply negb_true_iff, bool_decide_eq_false in Hne.
  bools. split; cbn [it_payload it_tag]; [done|]. split.
  - unfold MAILBOX_MAX_PAYLOAD_BYTES in El.
    assert (0 < js_length (ii_payload it)).
    { destruct (ii_payload it) as [|ch p]; [done|]. pose proof (js_length_nonneg p).
      change (0 < (if ch <? 65536 then 1 else 2) + js_length p). destruct (ch <? 65536); lia. }
    dlia.
  - destruct (ii_tag it) as [tag|]; [|done]. by apply negb_false_iff in Etag.
Qed.

Lemma create_ok t c e it cr ex t' :
  table_ok t -> item_ok it -> iso_range cr -> create_item t c e it cr ex = Ok t' -> table_ok t'.
Proof.
  intros [Hn Hall] (_ & Hl & _) Hr Hc. apply create_item_law in Hc as (id & Hid & Hfresh & Hp). split.
  - rewrite Hp. cbn. by constructor.
  - rewrite Hp. constructor; [|done]. split; [done|]. split; [done|].
    cbn [row_item]. unfold MAILBOX_MAX_PULL_BYTES. lia.
Qed.

Lemma post_loop_ok its : forall t c e now w,
  table_ok t -> Forall item_ok its -> iso_range now -> table_ok (post_loop t c e now its w).1.
Proof.
  induction its as [|it its IH]; intros t c e now w Ht Hall Hr; cbn [post_loop]; [done|].
  apply Forall_cons in Hall as [Hit Hall].
  destruct (create_item _ _ _ _ _ _) as [t'|] eqn:Ec; [|done]. apply IH; [|done..]. by eapply create_ok.
Qed.

(** A post that passed validation (even one that failed half-way), or the
    clean-up job. *)
Inductive mail_step (t : list MailboxRow) : list MailboxRow -> Prop :=
| ms_post c e input its now :
    validateMailboxItems input = Ok its -> iso_range now ->
    mail_step t (postMailboxItems t c e its now).1
| ms_purge now : mail_step t (purgeExpiredMailbox t now).1.

Lemma mail_step_ok t t' : table_ok t -> mail_step t t' -> table_ok t'.
Proof.
  intros Ht [c e input its now Hv Hr|now].
  - apply post_loop_ok; [done| |done]. unfold validateMailboxItems in Hv.
    destruct (_ || _); [done|]. by apply validate_loop_ok in Hv as [_ ?].
  - destruct (deleteExpired_law t now) as [Hp _]. destruct Ht as [Hn Hall]. unfold purgeExpiredMailbox. split.
    + rewrite Hp. eapply sublist_NoDup; [exact Hn|]. apply fmap_sublist, sublist_filter.
    + rewrite Hp. rewrite Forall_forall in *. intros r Hr. apply list_elem_of_filter in Hr as [_ Hr]. by apply Hall.
Qed.

(** C6: paging through the mailbox loses and repeats nothing. For every table the
    endpoint can have written, a client that starts without a cursor and follows
    the textual cursors until a page is not truncated gets, whatever page size it
    asks for, exactly the unexpired items of that conversation and era, each once,
    ordered by time and id; one pull per item, plus one, is enough. *)
Theorem mailbox_pull_complete t c e limit now :
  rtc mail_step [] t -> (forall x, limit = Some x -> 1 <= x) ->
  exists l, pull_all (S (length t)) t c e None limit now = Ok l /\
    l ≡ₚ filter (fun r => row_conversationId r = c /\ row_epoch r = e /\ now < row_expiresAt r) t /\
    NoDup l /\ StronglySorted row_lt l.
Proof.
  intros Hr Hlim. assert (Ht : table_ok t).
  { apply (rtc_invariant mail_step table_ok) with []; [apply mail_step_ok|done|].
    split; constructor. }
  destruct (findMany_items_law t (mkQuery c e now None 0)) as (l & Hp & Hs & _).
  specialize (Hs (proj1 Ht)). exists l.
  assert (Hl : l ≡ₚ filter (fun r => row_conversationId r = c /\ row_epoch r = e /\ now < row_expiresAt r) t).
  { rewrite Hp. erewrite list_filter_iff; [done|]. intros r. unfold query_matches. cbn. tauto. }
  split_and!; [|done| |done].
  - apply (pull_all_matching t c e now limit Ht Hlim _ None None); [|done|done|done].
    rewrite Hp. pose proof (length_filter (query_matches (mkQuery c e now None 0)) t). lia.
  - rewrite Hl. apply NoDup_filter. eapply NoDup_fmap_1, Ht.
Qed.

Lemma pull_token_spec `{ServerCrypto} cv members c token now :
  pull_token_ok cv members c token now = true ->
  GroupTokens.credentialGroupTokenValid cv token now = true \/
  exists member, member ∈ members /\ mr_tokenHash member = GroupTokens.hashGroupToken token /\
    mr_conversationId member = c /\ mr_tokenEpoch member = GroupTokens.groupEpoch cv /\
    now - GroupTokens.TOKEN_REFRESH_GRACE_MS < mr_expiresAt member.
Proof.
  unfold pull_token_ok. intros [Hg|Hm]%orb_true_iff; [by left|right].
  destruct (list_find _ members) as [[i r]|] eqn:Ef; [|done].
  apply list_find_Some in Ef as (Hi & Hh & _). apply andb_true_iff in Hm as [Hc Hm].
  apply bool_decide_eq_true in Hc. exists r. split; [by eapply list_elem_of_lookup_2|].
  unfold GroupTokens.evaluateMemberToken in Hm.
  destruct (mr_tokenEpoch r =? _) eqn:Ee; cbn [negb] in Hm; [|done].
  destruct (mr_expiresAt r <=? _) eqn:Ex; [done|]. bools. auto.
Qed.

Lemma accept_incl rows : forall b r, r ∈ (accept rows b).1 -> r ∈ rows.
Proof.
  intros b r. destruct (accept_spec rows b) as (k & -> & _). apply subseteq_take.
Qed.

(** Every row of a page matches the query. *)
Lemma pull_rows_match t c e cur limit now page r :
  pullMailboxItems t c e cur limit now = Ok page -> r ∈ items page ->
  r ∈ t /\ query_matches (mkQuery c e now cur 0) r.
Proof.
  unfold pullMailboxItems. set (lim := Z.min _ _).
  destruct (findMany_items_law t (mkQuery c e now cur (lim + 1))) as (sorted & Hp & _ & ->).
  set (rows := take _ sorted). set (pg := if _ <? _ then take _ _ else _).
  destruct (accept pg 0) as [acc cut] eqn:Ea. intros Hpage Hr. unbind. cbn in Hr.
  assert (Hs : r ∈ sorted).
  { apply (subseteq_take (Z.to_nat (lim + 1))). change (r ∈ rows).
    assert (Hpg : r ∈ pg) by (apply (accept_incl pg 0); by rewrite Ea).
    unfold pg in Hpg. destruct (_ <? _); [by apply (subseteq_take (Z.to_nat lim))|done]. }
  rewrite Hp in Hs. by apply list_elem_of_filter in Hs as [Hq Ht].
Qed.

Lemma pull_rows t c e cur limit now page r :
  pullMailboxItems t c e cur limit now = Ok page -> r ∈ items page ->
  r ∈ t /\ row_conversationId r = c /\ row_epoch r = e /\ now < row_expiresAt r.
Proof. intros Hp Hr. by destruct (pull_rows_match _ _ _ _ _ _ _ _ Hp Hr) as [? (? & ? & ? & _)]. Qed.

(** Access to a group mailbox. Nothing is written unless the request presents
    the current, unexpired group token; a pull is answered only for that token or
    for a member token of this conversation that is of the current era and not past
    its grace period, and it reveals only unexpired items of this conversation and
    of the current era. *)
Theorem mailbox_access_control `{ServerCrypto} t allowed conv members c token input raw limit now :
  ((mailbox_post t allowed conv c token input now).1 <> t -> exists conversation,
     conv = Some conversation /\ GroupTokens.credentialGroupTokenValid conversation token now = true) /\
  (forall epoch page, mailbox_pull t allowed conv members c token raw limit now = Reply (epoch, page) ->
     (exists conversation, conv = Some conversation /\ epoch = GroupTokens.groupEpoch conversation /\
       (GroupTokens.credentialGroupTokenValid conversation token now = true \/
        exists member, member ∈ members /\ mr_tokenHash member = GroupTokens.hashGroupToken token /\
          mr_conversationId member = c /\ mr_tokenEpoch member = epoch /\
          now - GroupTokens.TOKEN_REFRESH_GRACE_MS < mr_expiresAt member)) /\
     forall r, r ∈ items page ->
       r ∈ t /\ row_conversationId r = c /\ row_epoch r = epoch /\ now < row_expiresAt r).
Proof.
  split.
  - unfold mailbox_post. destruct allowed; [|done]. destruct conv as [cv|]; [|done]. cbn [negb].
    destruct (GroupTokens.credentialGroupTokenValid cv token now) eqn:E; [|done]. intros _. by exists cv.
  - intros epoch page. unfold mailbox_pull. destruct (match raw with Some _ => _ | None => _ end); [done|].
    destruct allowed; [|done]. destruct conv as [cv|]; [|done]. cbn [negb].
    destruct (pull_token_ok cv members c token now) eqn:Eok; [|done]. cbn [negb].
    destruct (pull_endpoint _ _ _ _ _ _) as [pg|] eqn:Ep; [|done]. intros [= <- <-]. split.
    + exists cv. split; [done|]. split; [done|]. by apply pull_token_spec.
    + intros r Hr. unfold pull_endpoint in Ep. destruct raw as [[|z raw]|].
      * by eapply pull_rows.
      * destruct (parseMailboxCursor _); [|done]. by eapply pull_rows.
      * by eapply pull_rows.
Qed.

(** A post is accepted only as a batch of 1 to 32 items, each of a known kind,
    with a 43-character tag if any and at most 8 KB of base64url payload; the rows
    it writes carry the era and the time of the post and expire seven days later. *)
Theorem mailbox_post_bounded t c e input its now t' n :
  validateMailboxItems input = Ok its -> postMailboxItems t c e its now = (t', Ok n) ->
  1 <= Z.of_nat (length its) <= MAILBOX_MAX_ITEMS_PER_POST /\ Forall item_ok its /\
  n = Z.of_nat (length its) /\
  exists new, t' ≡ₚ new ++ t /\ map row_item new ≡ₚ its /\
    Forall (fun r => row_conversationId r = c /\ row_epoch r = e /\
      row_createdAt r = now /\ row_expiresAt r = now + MAILBOX_TTL_MS) new.
Proof.
  intros Hv Hpost. unfold validateMailboxItems in Hv. destruct (_ || _) eqn:Eb; [done|].
  apply orb_false_iff in Eb as [E0 E1]. apply validate_loop_ok in Hv as [Hlen Hall].
  split; [rewrite Hlen; bools; lia|]. split; [done|]. clear Hlen E0 E1 Hall.
  unfold postMailboxItems in Hpost. rewrite <- (Z.add_0_l (Z.of_nat _)). revert Hpost.
  generalize 0 as w. revert t. induction its as [|it its IH]; intros t w Hpost; cbn [post_loop] in Hpost.
  { simplify_eq. split; [cbn; lia|]. by exists []. }
  destruct (create_item _ _ _ _ _ _) as [t1|] eqn:Ec; [|done].
  apply create_item_law in Ec as (id & _ & _ & Hp). apply IH in Hpost as [-> (new & Ht' & Hi & Hf)].
  split; [cbn [length]; lia|]. exists (mkRow id c e it now (now + MAILBOX_TTL_MS) :: new). split_and!.
  - rewrite Ht', Hp. symmetry. apply Permutation_middle.
  - cbn. by rewrite Hi.
  - by constructor.
Qed.
End MailboxLemmas.

(** An in-memory table ordered by insertion sort, for the concrete runs. *)
Module ToyMailbox.
Import MailboxOps.

(** The order of texts, as an integer list. *)
Fixpoint text_lt (a b : jstr) : bool :=
  match a, b with
  | _, [] => false
  | [], _ :: _ => true
  | x :: a', y :: b' => (x <? y) || ((x =? y) && text_lt a' b')
  end.

Definition row_ltb (a b : MailboxRow) : bool :=
  (row_createdAt a <? row_createdAt b) ||
  ((row_createdAt a =? row_createdAt b) && text_lt (row_id a) (row_id b)).

Fixpoint insert (r : MailboxRow) (l : list MailboxRow) : list MailboxRow :=
  match l with [] => [r] | x :: l' => if row_ltb x r then x :: insert r l' else r :: l end.
Definition isort (l : list MailboxRow) : list MailboxRow := foldr insert [] l.

(** An id longer than every other is fresh. *)
Definition fresh_id (t : list MailboxRow) : jstr :=
  replicate (S (foldr (fun r n => Nat.max (length (row_id r)) n) 0%nat t)) 97.

Definition text_lt_p (a b : jstr) : Prop := text_lt a b = true.
#[export] Instance text_lt_dec : RelDecision text_lt_p.
Proof. intros a b. unfold text_lt_p. apply _. Defined.

(** [query_matches] for this order, decided by a boolean. *)
Definition matches_b (q : query) (r : MailboxRow) : bool :=
  bool_decide (row_conversationId r = q_conversationId q) && (row_epoch r =? q_epoch q) &&
  (q_now q <? row_expiresAt r) &&
  match q_cursor q with
  | None => true
  | Some c =>
      (cu_createdAt c <? row_createdAt r) ||
      match cu_id c with
      | None | Some [] => false
      | Some id => (row_createdAt r =? cu_createdAt c) && text_lt id (row_id r)
      end
  end.

#[export] Instance toy_mailbox : MailboxDb := {|
  create_item t c e i cr ex := Ok (mkRow (fresh_id t) c e i cr ex :: t);
  findMany_items t q := take (Z.to_nat (q_take q)) (isort (filter (fun r => matches_b q r = true) t));
  deleteExpired_items t now := (filter (fun r => ~ row_expiresAt r <= now) t,
    Z.of_nat (length (filter (fun r => row_expiresAt r <= now) t)));
  id_lt := text_lt_p;
  date_other _ := None |}.

Lemma text_lt_irrefl a : text_lt a a = false.
Proof. induction a as [|x a IH]; [done|]. cbn. rewrite IH. lia. Qed.

Lemma text_lt_trans a : forall b c, text_lt a b = true -> text_lt b c = true -> text_lt a c = true.
Proof.
  induction a as [|x a IH]; intros [|y b] [|z c]; cbn; try done. intros H1 H2.
  apply orb_true_iff in H1 as [H1|H1], H2 as [H2|H2]; apply orb_true_iff; bools; try (left; lia).
  right. apply andb_true_iff. split; [lia|]. by eapply IH.
Qed.

Lemma text_lt_total a : forall b, text_lt a b = false -> text_lt b a = false -> a = b.
Proof.
  induction a as [|x a IH]; intros [|y b]; cbn; try done. intros H1 H2.
  apply orb_false_iff in H1 as [H1 H1'], H2 as [H2 H2']. bools. assert (x = y) as -> by lia.
  rewrite Z.eqb_refl in *. f_equal. by apply IH.
Qed.

Lemma insert_perm r l : insert r l ≡ₚ r :: l.
Proof.
  induction l as [|x l IH]; [done|]. cbn. destruct (row_ltb x r); [|done]. rewrite IH. apply Permutation_swap.
Qed.

Lemma isort_perm l : isort l ≡ₚ l.
Proof. induction l as [|x l IH]; [done|]. cbn. by rewrite insert_perm, IH. Qed.

Lemma row_ltb_spec a b : row_ltb a b = true <-> row_lt a b.
Proof.
  unfold row_ltb, row_lt. rewrite orb_true_iff, andb_true_iff, Z.ltb_lt, Z.eqb_eq. done.
Qed.

Lemma row_ltb_total a b : row_id a <> row_id b -> row_ltb a b = false -> row_lt b a.
Proof.
  intros Hid Hab. apply row_ltb_spec. unfold row_ltb in *. apply orb_false_iff in Hab as [H1 H2]. bools.
  destruct (Z.ltb_spec (row_createdAt b) (row_createdAt a)); [done|]. cbn.
  assert (Heq : row_createdAt a = row_createdAt b) by lia. rewrite Heq, Z.eqb_refl in *. cbn in *.
  destruct (text_lt (row_id b) (row_id a)) eqn:E; [done|]. by apply text_lt_total in E.
Qed.

Lemma toy_row_lt_trans a b c : row_lt a b -> row_lt b c -> row_lt a c.
Proof.
  intros [H1|[H1 H1']] [H2|[H2 H2']]; unfold row_lt; [left; lia..|].
  right. split; [lia|]. exact (text_lt_trans _ _ _ H1' H2').
Qed.

Lemma insert_sorted r l :
  StronglySorted row_lt l -> row_id r ∉ map row_id l -> StronglySorted row_lt (insert r l).
Proof.
  induction l as [|x l IH]; intros Hs Hr; cbn; [constructor; constructor|].
  apply StronglySorted_inv in Hs as [Hs Hx]. cbn in Hr. apply not_elem_of_cons in Hr as [Hne Hr].
  destruct (row_ltb x r) eqn:E.
  - constructor; [by apply IH|]. rewrite insert_perm. constructor; [by apply row_ltb_spec|done].
  - apply row_ltb_total in E; [|done]. constructor; [by constructor|]. constructor; [done|].
    eapply Forall_impl; [exact Hx|]. intros y Hy. by eapply toy_row_lt_trans.
Qed.

Lemma isort_sorted l : NoDup (map row_id l) -> StronglySorted row_lt (isort l).
Proof.
  induction l as [|x l IH]; cbn; intros Hn; [constructor|]. apply NoDup_cons in Hn as [Hx Hn].
  apply insert_sorted; [by apply IH|]. by rewrite isort_perm.
Qed.

Lemma matches_b_spec q r : matches_b q r = true <-> query_matches q r.
Proof.
  unfold matches_b, query_matches, after_cursor.
  rewrite !andb_true_iff, bool_decide_eq_true, Z.eqb_eq, Z.ltb_lt.
  destruct (q_cursor q) as [c|]; [|tauto].
  destruct (cu_id c) as [[|i l]|]; rewrite orb_true_iff, Z.ltb_lt, ?andb_true_iff, ?Z.eqb_eq;
    cbn [id_lt toy_mailbox]; unfold text_lt_p; intuition discriminate.
Qed.

Lemma fresh_id_spec t : fresh_id t ∉ map row_id t.
Proof.
  assert (Hm : forall r, r ∈ t ->
    (length (row_id r) <= foldr (fun r n => Nat.max (length (row_id r)) n) 0%nat t)%nat).
  { induction t as [|x t IH]; intros r Hr; [by apply not_elem_of_nil in Hr|]. cbn.
    apply elem_of_cons in Hr as [->|Hr]; [lia|]. specialize (IH r Hr). lia. }
  intros Hf. apply list_elem_of_fmap in Hf as (r & Hf & Hr). apply Hm in Hr.
  apply (f_equal length) in Hf. unfold fresh_id in Hf. rewrite length_replicate in Hf. lia.
Qed.

#[export] Instance toy_mailbox_laws : MailboxDbLaws.
Proof.
  split; cbn [create_item findMany_items deleteExpired_items id_lt toy_mailbox].
  - intros t c e i cr ex t' [= <-]. exists (fresh_id t). split_and!; [done|apply fresh_id_spec|done].
  - intros t q. exists (isort (filter (fun r => matches_b q r = true) t)). split_and!; [| |done].
    + rewrite isort_perm. erewrite list_filter_iff; [done|]. intros r. apply matches_b_spec.
    + intros Hn. apply isort_sorted. eapply sublist_NoDup; [exact Hn|]. apply fmap_sublist, sublist_filter.
  - intros t now. done.
  - intros a b c. apply text_lt_trans.
  - intros a Ha. unfold complement, text_lt_p in Ha. by rewrite text_lt_irrefl in Ha.
Qed.
End ToyMailbox.

Section MailboxWitnesses.
Import MailboxOps ToyMailbox ToyServer.

Definition demo_input : list MailboxInputItem :=
  [mkInput (js "META") None (js "QUJD"); mkInput (js "COVER") None (js "QQ")].
Definition demo_items : list item := [mkItem META None (js "QUJD"); mkItem COVER None (js "QQ")].
Definition demo_table : list MailboxRow := (postMailboxItems [] (js "g") 3 demo_items 1700000000000).1.

Lemma mailbox_pull_complete_witness :
  exists l, pull_all 3 demo_table (js "g") 3 None (Some 1) 1700000000001 = Ok l /\ NoDup l /\ length l = 2%nat.
Proof.
  destruct (mailbox_pull_complete demo_table (js "g") 3 (Some 1) 1700000000001) as (l & Hl & Hp & Hn & _).
  - apply rtc_once. apply (ms_post [] (js "g") 3 demo_input demo_items 1700000000000);
      [vm_compute; reflexivity|unfold iso_range; lia].
  - intros x [= <-]. lia.
  - exists l. split; [exact Hl|]. split; [exact Hn|].
    apply Permutation_length in Hp. rewrite Hp. vm_compute. reflexivity.
Defined.

Lemma mailbox_post_bounded_witness :
  exists new, demo_table ≡ₚ new ++ [] /\ map row_item new ≡ₚ demo_items.
Proof.
  destruct (mailbox_post_bounded [] (js "g") 3 demo_input demo_items 1700000000000 demo_table 2)
    as (_ & _ & _ & new & Hp & Hi & _); [vm_compute; reflexivity..|].
  exists new. split; [exact Hp|exact Hi].
Defined.

Definition demo_conversation : GroupTokens.conversation :=
  GroupTokens.mkConversation (Some (GroupTokens.hashGroupToken (js "tok"))) 3 None None.

Lemma mailbox_access_control_witness :
  exists page, mailbox_pull demo_table true (Some demo_conversation) [] (js "g") (js "tok") None None
      1700000000001 = Reply (3, page) /\
    forall r, r ∈ items page -> row_epoch r = 3.
Proof.
  destruct (mailbox_pull demo_table true (Some demo_conversation) [] (js "g") (js "tok") None None
    1700000000001) as [[epoch page]|] eqn:E; [|vm_compute in E; discriminate E].
  destruct (mailbox_access_control demo_table true (Some demo_conversation) [] (js "g") (js "tok") [] None
    None 1700000000001) as [_ Hpull].
  destruct (Hpull epoch page E) as [(cv & [= <-] & -> & _) Hrows].
  exists page. split; [reflexivity|]. intros r Hr. destruct (Hrows r Hr) as (_ & _ & He & _). exact He.
Defined.
End MailboxWitnesses.
