(* ===== verification/MailboxClient.v ===== *)
(** The client of the group mailbox, web/src/lib/groupMailbox.ts: addressing, payloads,
    posting of key envelopes in batches, and the polling step with its cursor, against
    the endpoints of GroupMailbox. What storeReceivedSessionKey does with an envelope is
    not part of this component: the client's state records the calls. WebCrypto's
    HMAC-SHA-256 is the function of the class [ServerCrypto]. *)
From S2P Require Import Prelude Bytes Base64 Utf8 Js JsDate PqWire Sodium AtRest Membership LocalAtRest Json GroupMailbox.
Import Mailbox MailboxOps.

Module MailboxClient.

Definition MAILBOX_TAG_LABEL : jstr := js "nyx-mailbox-v1".
Definition MAILBOX_MAX_PAYLOAD_BYTES : Z := 8 * 1024.
Definition MAILBOX_MAX_ITEMS_PER_POST : nat := 32.
Definition MAX_PAGES_PER_TICK : nat := 5.

Record MailboxPostItem := mkPost { pi_kind : MailboxKind; pi_tag : option jstr; pi_payload : jstr }.
Record MailboxItem := mkMailboxItem { mi_id : jstr; mi_kind : jstr; mi_tag : option jstr; mi_payload : jstr }.
Record MailboxPullPage := mkPage {
  pg_epoch : Z; pg_items : list MailboxItem; pg_nextCursor : option jstr; pg_truncated : bool }.

Record KeyEnvelopeInput := mkEnvelope {
  ke_userId : jstr; ke_key : jstr; ke_targetDeviceKey : option jstr; ke_senderId : option jstr;
  ke_senderDeviceKey : option jstr; ke_senderSigningKey : option jstr; ke_senderSigningKeyV2 : option jstr }.

(** A call of storeReceivedSessionKey; the optional fields are passed on as read. *)
Record store_call := mkCall {
  sc_conversationId : jstr; sc_encryptedKey : jsval; sc_senderId : jsval; sc_senderDeviceKey : jsval;
  sc_senderSigningKey : jsval; sc_senderSigningKeyV2 : jsval }.

(** [cursors], [processed], and the calls made so far. *)
Record client := mkClient { cursors : gmap jstr jstr; processed : gset jstr; calls : list store_call }.

Definition kind_text (k : MailboxKind) : jstr :=
  match k with
  | KEY_REQUEST => js "KEY_REQUEST" | KEY_ENVELOPE => js "KEY_ENVELOPE" | META => js "META" | COVER => js "COVER" end.

Definition js_truthy (v : jsval) : bool :=
  match v with
  | JUndef | JNull => false
  | JBool b => b
  | JNum z => negb (z =? 0)
  | JStr s => negb (bool_decide (s = []))
  | JArr _ | JObj _ => true
  end.

Definition opt_str (o : option jstr) : jsval := match o with Some s => JStr s | None => JUndef end.

(** [v === text] *)
Definition same_text (v : jsval) (text : option jstr) : bool :=
  match v, text with JStr a, Some b => bool_decide (a = b) | JUndef, None => true | _, _ => false end.

(** JSON.stringify leaves out the fields that are undefined. *)
Definition is_defined (v : jsval) : bool := match v with JUndef => false | _ => true end.
Definition defined_fields (fields : list (jstr * jsval)) : list (jstr * jsval) :=
  filter (fun f => is_defined f.2 = true) fields.

Definition encodeMailboxPayload (fields : list (jstr * jsval)) : option jstr :=
  let bytes := utf8_encode (JSON_stringify (JObj (defined_fields fields))) in
  if MAILBOX_MAX_PAYLOAD_BYTES <? blen bytes then None else Some (js (base64UrlFromBytes bytes)).

Definition decodeMailboxPayload (payload : jstr) : option jsval :=
  match of_js payload with
  | None => None
  | Some text =>
      match bytesFromBase64Url text with
      | Err _ => None
      | Ok bytes =>
          if (blen bytes =? 0) || (MAILBOX_MAX_PAYLOAD_BYTES <? blen bytes) then None else
          match JSON_parse (utf8_decode bytes) with
          | Some (JObj fields) => Some (JObj fields)
          | Some (JArr l) => Some (JArr l)
          | _ => None
          end
      end
  end.

Section Model.
Context `{ServerCrypto}.

Definition deriveMailboxTag (memberToken : option jstr) : option jstr :=
  match memberToken with
  | None | Some [] => None
  | Some token => Some (js (base64UrlFromBytes (hmac_sha256 (utf8_encode token) (utf8_encode MAILBOX_TAG_LABEL))))
  end.

(** ** Posting *)
Section Post.
(** One POST of at most 32 items: the table afterwards and the count, or the error. *)
Context (api_post : list MailboxRow -> jstr -> list MailboxPostItem -> list MailboxRow * result Z).

Fixpoint post_chunks (fuel : nat) (t : list MailboxRow) (token : jstr) (items : list MailboxPostItem) (written : Z)
  : list MailboxRow * result Z :=
  match items, fuel with
  | [], _ | _, 0%nat => (t, Ok written)
  | _, S fuel =>
      match api_post t token (take MAILBOX_MAX_ITEMS_PER_POST items) with
      | (t', Err e) => (t', Err e)
      | (t', Ok n) => post_chunks fuel t' token (drop MAILBOX_MAX_ITEMS_PER_POST items) (written + n)
      end
  end.

Definition postGroupMailboxItems (t : list MailboxRow) (groupToken : option jstr) (items : list MailboxPostItem)
  : list MailboxRow * result Z :=
  match items, groupToken with
  | [], _ | _, None | _, Some [] => (t, Ok 0)
  | _, Some token => post_chunks (length items) t token items 0
  end.

Definition envelope_fields (e : KeyEnvelopeInput) : list (jstr * jsval) :=
  [(js "k", JStr (ke_key e)); (js "t", opt_str (ke_targetDeviceKey e)); (js "sp", opt_str (ke_senderId e));
   (js "sd", opt_str (ke_senderDeviceKey e)); (js "ss", opt_str (ke_senderSigningKey e));
   (js "ss2", opt_str (ke_senderSigningKeyV2 e))].

(** The item of an envelope, [None] where the loop continues. *)
Definition envelope_item (tokenMap : list (jstr * jstr)) (skipUserIds : gset jstr) (e : KeyEnvelopeInput)
  : option MailboxPostItem :=
  if bool_decide (ke_userId e = []) || bool_decide (ke_key e = []) then None else
  if bool_decide (ke_userId e ∈ skipUserIds) then None else
  match deriveMailboxTag (assoc (ke_userId e) tokenMap) with
  | None => None
  | Some tag =>
      match encodeMailboxPayload (envelope_fields e) with
      | None => None
      | Some payload => Some (mkPost KEY_ENVELOPE (Some tag) payload)
      end
  end.

(** The user ids delivered, or none when not everything was written. *)
Definition postGroupKeyEnvelopes (t : list MailboxRow) (tokenMap : option (list (jstr * jstr))) (groupToken : option jstr)
    (skipUserIds : gset jstr) (envelopes : list KeyEnvelopeInput) : list MailboxRow * gset jstr :=
  match envelopes, tokenMap, groupToken with
  | [], _, _ | _, None, _ | _, _, None | _, _, Some [] => (t, ∅)
  | _, Some tokenMap, Some _ =>
      let items := omap (envelope_item tokenMap skipUserIds) envelopes in
      let delivered := list_to_set (map ke_userId (filter (fun e => is_Some (envelope_item tokenMap skipUserIds e)) envelopes)) in
      match items with
      | [] => (t, delivered)
      | _ =>
          match postGroupMailboxItems t groupToken items with
          | (t', Err _) => (t', ∅)
          | (t', Ok written) => if written <? Z.of_nat (length items) then (t', ∅) else (t', delivered)
          end
      end
  end.
End Post.

(** ** Polling *)
Section Poll.
(** One POST to the pull endpoint, the tokens of this member, the identity key of this
    device, and whether storeReceivedSessionKey returns. *)
Context (api_pull : jstr -> option jstr -> response (Z * MailboxPull)).
Context (groupToken deliveryToken deviceKey : option jstr) (stores : store_call -> bool).

(** The row as the endpoint sends it. *)
Definition wire_item (r : MailboxRow) : MailboxItem :=
  mkMailboxItem (row_id r) (kind_text (it_kind (row_item r))) (it_tag (row_item r)) (it_payload (row_item r)).

Definition pullGroupMailbox (cursor : option jstr) : result (option MailboxPullPage) :=
  match (match groupToken with Some tok => Some tok | None => deliveryToken end) with
  | None | Some [] => Ok None
  | Some token =>
      match api_pull token (match cursor with Some (_ :: _) => cursor | _ => None end) with
      | Refuse status error =>
          if (status =? 403) || (status =? 404) || (status =? 429) then Ok None else Err error
      | Reply (epoch, page) => Ok (Some (mkPage epoch (map wire_item (items page)) (nextCursor page) (truncated page)))
      end
  end.

(** The call an item leads to, [None] where the loop continues. *)
Definition item_call (conversationId : jstr) (myTag : option jstr) (item : MailboxItem) : option store_call :=
  if negb (bool_decide (mi_kind item = js "KEY_ENVELOPE")) then None else
  if match mi_tag item with None | Some [] => false | Some tag => negb (bool_decide (Some tag = myTag)) end then None else
  match decodeMailboxPayload (mi_payload item) with
  | None => None
  | Some envelope =>
      if negb (js_truthy (prop envelope "k")) || negb (js_truthy (prop envelope "sp")) then None else
      if js_truthy (prop envelope "t") && negb (same_text (prop envelope "t") deviceKey) then None else
      Some (mkCall conversationId (prop envelope "k") (prop envelope "sp") (prop envelope "sd") (prop envelope "ss")
        (prop envelope "ss2"))
  end.

Definition handle_item (conversationId : jstr) (myTag : option jstr) (acc : client * Z) (item : MailboxItem) : client * Z :=
  let '(st, handled) := acc in
  if bool_decide (mi_id item ∈ processed st) then (st, handled) else
  let st := mkClient (cursors st) ({[mi_id item]} ∪ processed st) (calls st) in
  match item_call conversationId myTag item with
  | None => (st, handled)
  | Some call => (mkClient (cursors st) (processed st) (calls st ++ [call]), if stores call then handled + 1 else handled)
  end.

(** The loop over the pages of a tick; the state survives a thrown error. *)
Fixpoint process_pages (n : nat) (conversationId : jstr) (myTag : option jstr) (st : client) (handled : Z)
  : client * result Z :=
  match n with
  | 0%nat => (st, Ok handled)
  | S n =>
      match pullGroupMailbox (cursors st !! conversationId) with
      | Err e => (st, Err e)
      | Ok None => (st, Ok handled)
      | Ok (Some page) =>
          let '(st, handled) := foldl (handle_item conversationId myTag) (st, handled) (pg_items page) in
          let st := match pg_nextCursor page with
            | Some ((_ :: _) as c) => mkClient (<[conversationId := c]> (cursors st)) (processed st) (calls st)
            | _ => st end in
          if negb (pg_truncated page) then (st, Ok handled) else process_pages n conversationId myTag st handled
      end
  end.

Definition processGroupMailbox (conversationId : jstr) (st : client) : client * result Z :=
  process_pages MAX_PAGES_PER_TICK conversationId (deriveMailboxTag deliveryToken) st 0.
End Poll.
End Model.
End MailboxClient.
Import MailboxClient.

(** ** Payloads *)
Lemma opt_str_ok o : (forall s, o = Some s -> forallb scalar s = true) -> is_defined (opt_str o) = true -> json_ok (opt_str o) = true.
Proof. intros Ho. destruct o as [s|]; [|done]. intros _. by apply Ho. Qed.

(** An envelope whose texts are well-formed Unicode. *)
Definition envelope_ok (e : KeyEnvelopeInput) : Prop :=
  forallb scalar (ke_key e) = true /\
  forall o s, o ∈ [ke_targetDeviceKey e; ke_senderId e; ke_senderDeviceKey e; ke_senderSigningKey e; ke_senderSigningKeyV2 e] ->
    o = Some s -> forallb scalar s = true.

Lemma envelope_json e : envelope_ok e -> json_ok (JObj (defined_fields (envelope_fields e))) = true.
Proof.
  intros [Hk Ho]. cbn [json_ok]. apply andb_true_intro. split.
  - apply bool_decide_eq_true. apply (sublist_NoDup _ (envelope_fields e).*1).
    + apply (bool_decide_unpack (NoDup _)). vm_compute. exact I.
    + apply fmap_sublist, sublist_filter.
  - apply forallb_forall. intros f Hf%list_elem_of_In. apply list_elem_of_filter in Hf as [Hd Hf].
    assert (Hkey : forallb scalar f.1 = true /\ json_ok f.2 = true).
    { unfold envelope_fields in Hf. set_unfold in Hf.
      destruct Hf as [->|[->|[->|[->|[->|[->|[]]]]]]]; (split; [apply js_scalar|]); cbn [fst snd] in *; [exact Hk|..];
        apply opt_str_ok; try done; intros x Hx; (eapply Ho; [|exact Hx]); set_solver. }
    destruct Hkey as [-> ->]. done.
Qed.

Lemma payload_roundtrip e payload : envelope_ok e -> encodeMailboxPayload (envelope_fields e) = Some payload ->
  decodeMailboxPayload payload = Some (JObj (defined_fields (envelope_fields e))).
Proof.
  intros He. pose proof (envelope_json e He) as Hj. unfold encodeMailboxPayload.
  set (v := JObj (defined_fields (envelope_fields e))) in *. destruct (Z.ltb_spec MAILBOX_MAX_PAYLOAD_BYTES (blen (utf8_encode (JSON_stringify v)))) as [|Hlen]; [done|].
  intros Hp. assert (payload = js (base64UrlFromBytes (utf8_encode (JSON_stringify v)))) as -> by congruence.
  unfold decodeMailboxPayload. rewrite of_js_js, base64Url_roundtrip. cbv beta iota.
  destruct (stringify_text v Hj) as [Ht _].
  assert (Hne : blen (utf8_encode (JSON_stringify v)) <> 0).
  { intros H0. apply (f_equal Z.to_nat) in H0. unfold blen in H0. rewrite Nat2Z.id in H0. apply nil_length_inv in H0.
    apply (f_equal utf8_decode) in H0. rewrite utf8_decode_encode in H0 by done. destruct (stringify_head v) as (c & s & E & _). by rewrite E in H0. }
  apply Z.eqb_neq in Hne. rewrite Hne. apply Z.ltb_ge in Hlen. rewrite Hlen. cbn [orb].
  rewrite utf8_decode_encode, json_roundtrip by done. reflexivity.
Qed.

Definition envelope_call (conversationId : jstr) (e : KeyEnvelopeInput) : store_call :=
  mkCall conversationId (JStr (ke_key e)) (opt_str (ke_senderId e)) (opt_str (ke_senderDeviceKey e))
    (opt_str (ke_senderSigningKey e)) (opt_str (ke_senderSigningKeyV2 e)).

Lemma assoc_defined k fields : NoDup fields.*1 ->
  default JUndef (assoc k (defined_fields fields)) = default JUndef (assoc k fields).
Proof.
  induction fields as [|[x v] fields IH]; intros Hn; [done|]. cbn in Hn. apply NoDup_cons in Hn as [Hx Hn].
  unfold defined_fields. rewrite filter_cons. fold (defined_fields fields). cbn [snd assoc].
  destruct (decide (is_defined v = true)) as [Hv|Hv].
  - cbn [assoc]. by case_bool_decide; [|apply IH].
  - case_bool_decide as E; [|by apply IH]. subst. cbn. destruct v; try done.
    destruct (assoc x (defined_fields fields)) as [w|] eqn:Ea; [|done]. exfalso. apply Hx.
    apply assoc_elem in Ea. apply list_elem_of_filter in Ea as [_ Ea]. by apply (list_elem_of_fmap_2 fst) in Ea.
Qed.

Lemma envelope_prop e k : prop (JObj (defined_fields (envelope_fields e))) k = prop (JObj (envelope_fields e)) k.
Proof. cbn [prop]. apply assoc_defined. apply (bool_decide_unpack (NoDup _)). vm_compute. exact I. Qed.

(** An envelope whose target is this device, or no device in particular. *)
Definition for_device (deviceKey : option jstr) (e : KeyEnvelopeInput) : Prop :=
  match ke_targetDeviceKey e with None | Some [] => True | Some d => deviceKey = Some d end.

Section Items.
Context `{ServerCrypto}.

Lemma envelope_item_inv tokenMap skip e it : envelope_item tokenMap skip e = Some it ->
  ke_key e <> [] /\ exists payload, encodeMailboxPayload (envelope_fields e) = Some payload /\
    it = mkPost KEY_ENVELOPE (deriveMailboxTag (assoc (ke_userId e) tokenMap)) payload.
Proof.
  unfold envelope_item. destruct (bool_decide (ke_userId e = [])) eqn:E1; [done|].
  destruct (bool_decide (ke_key e = [])) eqn:E2; [done|]. cbn [orb]. apply bool_decide_eq_false in E2. destruct (bool_decide (ke_userId e ∈ skip)); [done|]. cbv beta iota.
  destruct (deriveMailboxTag _) as [tag|]; [|done]. destruct (encodeMailboxPayload _) as [p|]; [|done].
  intros [= <-]. split; [done|]. by exists p.
Qed.

(** The item of an envelope, read by the device it is for. *)
Lemma own_item_call tokenMap skip e it tok deviceKey conv id : envelope_ok e ->
  envelope_item tokenMap skip e = Some it -> assoc (ke_userId e) tokenMap = Some tok ->
  js_truthy (opt_str (ke_senderId e)) = true -> for_device deviceKey e ->
  item_call deviceKey conv (deriveMailboxTag (Some tok))
    (mkMailboxItem id (kind_text (pi_kind it)) (pi_tag it) (pi_payload it)) = Some (envelope_call conv e).
Proof.
  intros He Hit Htok Hsp Hdev. destruct (envelope_item_inv _ _ _ _ Hit) as (Hk & p & Hp & ->). rewrite Htok.
  unfold item_call. cbn [mi_kind mi_tag mi_payload pi_kind pi_tag pi_payload kind_text].
  rewrite bool_decide_eq_true_2 by done. cbn [negb].
  assert (Htag : match deriveMailboxTag (Some tok) with None | Some [] => false
    | Some tag => negb (bool_decide (Some tag = deriveMailboxTag (Some tok))) end = false).
  { destruct (deriveMailboxTag (Some tok)) as [[|a l]|]; [done| |done]. by rewrite bool_decide_eq_true_2. }
  rewrite Htag, (payload_roundtrip e p He Hp), !envelope_prop.
  change (prop (JObj (envelope_fields e)) "k") with (JStr (ke_key e)).
  change (prop (JObj (envelope_fields e)) "t") with (opt_str (ke_targetDeviceKey e)).
  change (prop (JObj (envelope_fields e)) "sp") with (opt_str (ke_senderId e)).
  change (prop (JObj (envelope_fields e)) "sd") with (opt_str (ke_senderDeviceKey e)).
  change (prop (JObj (envelope_fields e)) "ss") with (opt_str (ke_senderSigningKey e)).
  change (prop (JObj (envelope_fields e)) "ss2") with (opt_str (ke_senderSigningKeyV2 e)).
  assert (Hkt : js_truthy (JStr (ke_key e)) = true) by (cbn; by rewrite bool_decide_eq_false_2).
  rewrite Hkt, Hsp. cbn [negb orb].
  assert (Ht : js_truthy (opt_str (ke_targetDeviceKey e)) && negb (same_text (opt_str (ke_targetDeviceKey e)) deviceKey) = false).
  { unfold for_device in Hdev. destruct (ke_targetDeviceKey e) as [[|a d]|]; [done| |done]. subst deviceKey.
    cbn [opt_str same_text]. rewrite bool_decide_eq_true_2 by done. apply andb_false_r. }
  by rewrite Ht.
Qed.

(** *** Handling a page *)
Lemma handle_items_fresh deviceKey stores conv tag its : forall st handled,
  NoDup (map mi_id its) -> (forall i, i ∈ map mi_id its -> i ∉ processed st) ->
  exists handled', foldl (handle_item deviceKey stores conv tag) (st, handled) its =
    (mkClient (cursors st) (list_to_set (map mi_id its) ∪ processed st) (calls st ++ omap (item_call deviceKey conv tag) its), handled').
Proof.
  induction its as [|i its IH]; intros st handled Hn Hp.
  { exists handled. cbn. rewrite app_nil_r, (left_id_L ∅ (∪)). by destruct st. }
  cbn [map] in *. apply NoDup_cons in Hn as [Hi Hn]. cbn [foldl]. unfold handle_item at 2.
  rewrite bool_decide_eq_false_2 by (apply Hp; set_solver).
  set (h1 := match item_call deviceKey conv tag i with Some c => if stores c then handled + 1 else handled | None => handled end).
  set (st1 := mkClient (cursors st) ({[mi_id i]} ∪ processed st)
    (calls st ++ match item_call deviceKey conv tag i with Some c => [c] | None => [] end)).
  destruct (IH st1 h1 Hn) as [h' Hh].
  { intros j Hj. cbn. apply not_elem_of_union. split; [set_solver|]. apply Hp. set_solver. }
  exists h'. cbn [omap list_omap list_to_set]. transitivity (foldl (handle_item deviceKey stores conv tag) (st1, h1) its).
  { f_equal. unfold st1, h1. destruct (item_call deviceKey conv tag i); cbn [cursors processed calls]; [done|by rewrite app_nil_r]. }
  rewrite Hh. unfold st1. cbn [cursors processed calls]. f_equal. f_equal; [set_solver|]. rewrite <- app_assoc. f_equal.
  by destruct (item_call deviceKey conv tag i).
Qed.
End Items.

(** ** Polling the endpoint *)
Section Polling.
Context `{ServerCrypto, ML : MailboxDbLaws}.

(** The pull endpoint with the table and the rows of the group and its members. *)
Definition server_pull (t : list MailboxRow) (allowed : bool) (conv : option GroupTokens.conversation)
    (members : list member_row) (c : jstr) (now : Z) : jstr -> option jstr -> response (Z * MailboxPull) :=
  fun token raw => mailbox_pull t allowed conv members c token raw None now.

(** The stored text is the cursor [cur], the position of a row. *)
Definition at_cursor (raw : option jstr) (cur : option MailboxCursor) : Prop :=
  match cur with
  | None => raw = None
  | Some k => exists x s, raw = Some s /\ k = cursor_of x /\ row_id x <> [] /\ iso_range (row_createdAt x) /\
      formatMailboxCursor (row_id x) (row_createdAt x) = Ok s
  end.

Lemma at_cursor_parse raw cur : at_cursor raw cur ->
  match raw with
  | None => cur = None
  | Some s => s <> [] /\ exists k, cur = Some k /\ parseMailboxCursor s = Some k /\ iso_range (cu_createdAt k) /\ is_Some (cu_id k)
  end.
Proof.
  destruct cur as [k|]; cbn; [|by intros ->]. intros (x & s & -> & -> & Hid & Hr & Hf).
  destruct (cursor_roundtrip _ _ Hid Hr) as (s' & Hf' & Hne & Hp). assert (s' = s) as -> by congruence.
  split; [done|]. exists (cursor_of x). split_and!; [done..|]. by eexists.
Qed.

(** The cursor of a page is at its last item, or where it was. *)
Lemma pull_next t c e cur raw limit now page : table_ok t -> at_cursor raw cur ->
  pullMailboxItems t c e cur limit now = Ok page ->
  nextCursor page <> Some [] /\
  at_cursor (match nextCursor page with Some s => Some s | None => raw end)
    (match last (items page) with Some x => Some (cursor_of x) | None => cur end).
Proof.
  intros [_ Hok] Hat Hpage. assert (Hrows := fun r => pull_rows t c e cur limit now page r Hpage).
  revert Hpage. unfold pullMailboxItems. set (pg := if _ <? _ then take _ _ else _).
  destruct (accept pg 0) as [acc cut]. destruct (last acc) as [x|] eqn:El.
  - intros Hpage. assert (Hi : items page = acc) by (clear Hrows; by unbind). rewrite Hi, El.
    assert (Hx : row_ok x).
    { apply (proj1 (Forall_forall _ _) Hok). apply (Hrows x). rewrite Hi. apply last_Some in El as [l' ->]. set_solver. }
    destruct Hx as (Hid & Hr & _). destruct (cursor_roundtrip _ _ Hid Hr) as (s' & Hf' & Hne & _).
    rewrite Hf', !bind_ok in Hpage. injection Hpage as <-. cbn [nextCursor]. split; [congruence|]. by exists x, s'.
  - destruct cur as [k|].
    + destruct Hat as (x & s & -> & -> & Hid & Hr & Hf). cbn [cursor_of cu_id cu_createdAt].
      destruct (row_id x) as [|a l] eqn:Ei; [done|]. rewrite Hf, !bind_ok. intros [= <-]. cbn [items nextCursor]. rewrite El.
      destruct (cursor_roundtrip (a :: l) (row_createdAt x) Hid Hr) as (s' & Hf' & Hne & _). assert (s' = s) as -> by congruence.
      split; [congruence|]. exists x, s. rewrite Ei. split_and!; done || (unfold cursor_of; by rewrite Ei).
    + rewrite bind_ok. intros [= <-]. cbn [items nextCursor]. rewrite El. done.
Qed.
Lemma matching_last t c e now cur its rest : table_ok t -> matching t c e now cur (its ++ rest) ->
  matching t c e now (match last its with Some x => Some (cursor_of x) | None => cur end) rest.
Proof.
  intros Ht Hm. destruct (last its) as [x|] eqn:El.
  - apply last_Some in El as [pre ->]. rewrite <- app_assoc in Hm. by eapply matching_next.
  - apply last_None in El as ->. done.
Qed.

(** A poll of the endpoint whose token is accepted. *)
Lemma pull_client t cv members c now gt dt tok raw cur :
  (match gt with Some x => Some x | None => dt end) = Some tok -> tok <> [] ->
  pull_token_ok cv members c tok now = true -> at_cursor raw cur ->
  pullGroupMailbox (server_pull t true (Some cv) members c now) gt dt raw =
  match pullMailboxItems t c (GroupTokens.groupEpoch cv) cur None now with
  | Ok page => Ok (Some (mkPage (GroupTokens.groupEpoch cv) (map wire_item (items page)) (nextCursor page) (truncated page)))
  | Err e => Err e
  end.
Proof.
  intros Htok Hne Hok Hat. unfold pullGroupMailbox. rewrite Htok. destruct tok as [|a tok]; [done|].
  apply at_cursor_parse in Hat. unfold server_pull, mailbox_pull, pull_endpoint. rewrite Hok.
  destruct raw as [[|b s]|].
  - by destruct Hat.
  - destruct Hat as (_ & k & -> & -> & _). cbn [negb]. by destruct (pullMailboxItems _ _ _ _ _ _).
  - subst cur. cbn [negb]. by destruct (pullMailboxItems _ _ _ _ _ _).
Qed.

(** [l] is what the client has still to see. *)
Definition ready (t : list MailboxRow) (c : jstr) (e now : Z) (st : client) (l : list MailboxRow) : Prop :=
  exists cur, at_cursor (cursors st !! c) cur /\ matching t c e now cur l /\ forall r, r ∈ l -> row_id r ∉ processed st.

Lemma matching_nodup t c e now cur l : table_ok t -> matching t c e now cur l -> NoDup (map row_id l).
Proof.
  intros [Hn _] [Hp _]. rewrite Hp. eapply sublist_NoDup; [exact Hn|]. apply fmap_sublist, sublist_filter.
Qed.

Section Ticks.
Context (t : list MailboxRow) (cv : GroupTokens.conversation) (members : list member_row) (c : jstr) (now : Z).
Context (gt dt deviceKey : option jstr) (stores : store_call -> bool) (tok : jstr).
Context (Ht : table_ok t) (Htok : (match gt with Some x => Some x | None => dt end) = Some tok) (Hne : tok <> []).
Context (Hok : pull_token_ok cv members c tok now = true).

Abbreviation era := (GroupTokens.groupEpoch cv).
Abbreviation row_call tag := (fun r => item_call deviceKey c tag (wire_item r)).
Abbreviation pages := (process_pages (server_pull t true (Some cv) members c now) gt dt deviceKey stores).

Lemma pages_run tag n : forall st handled l, ready t c era now st l ->
  exists l1 l2 st' h, pages n c tag st handled = (st', Ok h) /\ l = l1 ++ l2 /\ ready t c era now st' l2 /\
    calls st' = calls st ++ omap (row_call tag) l1 /\ (l2 = [] \/ (n <= length l1)%nat).
Proof.
  induction n as [|n IH]; intros st handled l Hl.
  { exists [], l, st, handled. split_and!; [done..| |by right; cbn; lia]. by rewrite app_nil_r. }
  destruct Hl as (cur & Hat & Hm & Hfresh).
  destruct (pull_page t c era now cur None l Ht Hm) as (page & rest & Hpage & Hl & Hfin & Hmore); [done| |].
  { intros x ->. apply at_cursor_parse in Hat. destruct (cursors st !! c); [|done]. destruct Hat as (_ & k & [= <-] & _ & ?). done. }
  cbn [process_pages]. rewrite (pull_client _ _ _ _ _ _ _ tok _ _ Htok Hne Hok Hat), Hpage. cbn [pg_items pg_nextCursor pg_truncated].
  pose proof (matching_nodup _ _ _ _ _ _ Ht Hm) as Hn. rewrite Hl in Hn. rewrite map_app in Hn. apply NoDup_app in Hn as (Hn & Hdisj & _).
  assert (Hids : map mi_id (map wire_item (items page)) = map row_id (items page)) by (rewrite <- list_fmap_compose; done).
  destruct (handle_items_fresh deviceKey stores c tag (map wire_item (items page)) st handled) as [h1 Hh].
  { by rewrite Hids. }
  { rewrite Hids. intros i (r & -> & Hr)%list_elem_of_fmap. apply Hfresh. rewrite Hl. set_solver. }
  rewrite Hh. clear Hh. rewrite Hids. destruct (pull_next t c era cur _ None now page Ht Hat Hpage) as [Hnn Hat'].
  rewrite Hl in Hm. apply matching_last in Hm; [|done].
  set (st1 := match nextCursor page with Some ((_ :: _) as c0) => _ | _ => _ end).
  assert (Hst1 : cursors st1 !! c = (match nextCursor page with Some s => Some s | None => cursors st !! c end) /\
    processed st1 = list_to_set (map row_id (items page)) ∪ processed st /\
    calls st1 = calls st ++ omap (row_call tag) (items page)).
  { assert (Hom : omap (item_call deviceKey c tag) (map wire_item (items page)) = omap (row_call tag) (items page))
      by (generalize (items page); intros q; induction q as [|r q IHq]; [done|]; cbn; by rewrite IHq).
    unfold st1. destruct (nextCursor page) as [[|b s]|]; [done|..]; cbn [cursors processed calls]; split_and!; rewrite ?lookup_insert_eq, ?Hom; done. }
  destruct Hst1 as (Hc1 & Hp1 & Hcalls1).
  assert (Hr1 : ready t c era now st1 rest).
  { eexists. rewrite Hc1, Hp1. split_and!; [exact Hat'|exact Hm|]. intros r Hr. apply not_elem_of_union. split.
    - rewrite elem_of_list_to_set. intros Hi. apply (Hdisj _ Hi). by apply list_elem_of_fmap_2.
    - apply Hfresh. rewrite Hl. set_solver. }
  destruct (truncated page); cbn [negb].
  - destruct (Hmore eq_refl) as (pre & x & Hi & _). destruct (IH st1 h1 rest Hr1) as (l1 & l2 & st' & h & Hrun & Hrest & Hr' & Hc' & Hlen).
    exists (items page ++ l1), l2, st', h. split_and!; [done|by rewrite Hl, Hrest, app_assoc|done| |].
    + rewrite Hc', Hcalls1, <- app_assoc. by rewrite omap_app.
    + destruct Hlen as [Hlen|Hlen]; [by left|right]. rewrite length_app, Hi, length_app. cbn. lia.
  - exists (items page), rest, st1, h1. split_and!; [done..|]. left. by apply Hfin.
Qed.
(** The client polled with one endpoint after another. *)
Definition poll_all (gt dt deviceKey : option jstr) (stores : store_call -> bool) (c : jstr)
    (polls : list (jstr -> option jstr -> response (Z * MailboxPull))) (st : client) : client :=
  foldl (fun st api => (processGroupMailbox api gt dt deviceKey stores c st).1) st polls.

Lemma ticks_run n : forall st l, ready t c era now st l ->
  let st' := poll_all gt dt deviceKey stores c (replicate n (server_pull t true (Some cv) members c now)) st in
  exists l1 l2, l = l1 ++ l2 /\ ready t c era now st' l2 /\
    calls st' = calls st ++ omap (row_call (deriveMailboxTag dt)) l1 /\ (l2 = [] \/ (n <= length l1)%nat).
Proof.
  induction n as [|n IH]; intros st l Hl; cbn zeta.
  { exists [], l. cbn. split_and!; [done..| |by right; lia]. by rewrite app_nil_r. }
  destruct (pages_run (deriveMailboxTag dt) MAX_PAGES_PER_TICK st 0 l Hl) as (l1 & l2 & st1 & h & Hrun & -> & Hr & Hc & Hlen).
  set (api := server_pull t true (Some cv) members c now) in *.
  assert (Hst : poll_all gt dt deviceKey stores c (replicate (S n) api) st = poll_all gt dt deviceKey stores c (replicate n api) st1).
  { change (poll_all gt dt deviceKey stores c (replicate (S n) api) st) with
      (poll_all gt dt deviceKey stores c (replicate n api) (processGroupMailbox api gt dt deviceKey stores c st).1).
    unfold processGroupMailbox at 1. by rewrite Hrun. }
  rewrite Hst.
  destruct (IH st1 l2 Hr) as (l3 & l4 & -> & Hr' & Hc' & Hlen'). exists (l1 ++ l3), l4. split_and!; [by rewrite app_assoc|done| |].
  - rewrite Hc', Hc, <- app_assoc. by rewrite omap_app.
  - destruct Hlen' as [->|Hlen']; [by left|]. destruct Hlen as [Hlen|Hlen].
    + apply app_nil in Hlen as [-> ->]. by left.
    + right. rewrite length_app. unfold MAX_PAGES_PER_TICK in Hlen. lia.
Qed.

(** As many polls as there are rows deliver every row, in order, once. *)
Lemma ticks_complete n : (length t <= n)%nat ->
  exists l, l ≡ₚ filter (fun r => row_conversationId r = c /\ row_epoch r = era /\ now < row_expiresAt r) t /\ NoDup l /\
    calls (poll_all gt dt deviceKey stores c (replicate n (server_pull t true (Some cv) members c now)) (mkClient ∅ ∅ [])) =
    omap (row_call (deriveMailboxTag dt)) l.
Proof.
  intros Hn. destruct (findMany_items_law t (mkQuery c era now None 0)) as (l & Hp & Hs & _). specialize (Hs (proj1 Ht)).
  assert (Hl : l ≡ₚ filter (fun r => row_conversationId r = c /\ row_epoch r = era /\ now < row_expiresAt r) t).
  { rewrite Hp. erewrite list_filter_iff; [done|]. intros r. unfold query_matches. cbn. tauto. }
  exists l. split_and!; [done| |].
  - rewrite Hl. apply NoDup_filter. eapply NoDup_fmap_1, Ht.
  - assert (Hr : ready t c era now (mkClient ∅ ∅ []) l).
    { exists None. split_and!; [done|done|]. intros r _. cbn. set_solver. }
    destruct (ticks_run n _ l Hr) as (l1 & l2 & -> & _ & -> & Hlen). cbn [calls app].
    assert (Hle : (length (l1 ++ l2) <= length t)%nat) by (rewrite Hl; apply length_filter).
    rewrite length_app in Hle. assert (l2 = []) as -> by (destruct Hlen as [|]; [done|]; apply nil_length_inv; lia).
    by rewrite app_nil_r.
Qed.
End Ticks.
End Polling.

(** ** Posting to the endpoint *)
Section Posting.
Context `{ServerCrypto, ML : MailboxDbLaws}.

Definition input_of (p : MailboxPostItem) : MailboxInputItem := mkInput (kind_text (pi_kind p)) (pi_tag p) (pi_payload p).
Definition stored_of (p : MailboxPostItem) : item := mkItem (pi_kind p) (pi_tag p) (pi_payload p).

(** The post endpoint, as the client's request sees it. *)
Definition server_post (allowed : bool) (conv : option GroupTokens.conversation) (c : jstr) (now : Z)
    (t : list MailboxRow) (token : jstr) (chunk : list MailboxPostItem) : list MailboxRow * result Z :=
  match mailbox_post t allowed conv c token (map input_of chunk) now with
  | (t', Reply (written, _)) => (t', Ok written)
  | (t', Refuse _ e) => (t', Err e)
  end.

(** The rows a batch adds. *)
Definition posted (cv : GroupTokens.conversation) (c : jstr) (now : Z) (t t' : list MailboxRow) (its : list MailboxPostItem) : Prop :=
  rtc mail_step t t' /\ exists new, t' ≡ₚ new ++ t /\ map row_item new ≡ₚ map stored_of its /\
    Forall (fun r => row_conversationId r = c /\ row_epoch r = GroupTokens.groupEpoch cv /\ row_expiresAt r = now + MAILBOX_TTL_MS) new.

Lemma validate_inputs ps l : validate_loop (map input_of ps) = Ok l -> l = map stored_of ps.
Proof.
  revert l; induction ps as [|p ps IH]; intros l; cbn [map validate_loop]; [by intros [= <-]|].
  assert (Hk : kind_of (ii_kind (input_of p)) = Some (pi_kind p)) by (destruct p as [[] ? ?]; vm_compute; reflexivity).
  rewrite Hk. destruct (match ii_tag (input_of p) with Some _ => _ | None => _ end); [done|]. destruct (negb _); [done|].
  destruct (_ <? _); [done|]. destruct (validate_loop (map input_of ps)) as [l'|]; [|done]. rewrite bind_ok. intros [= <-].
  by rewrite (IH l').
Qed.

Lemma server_post_ok allowed conv c now t token chunk t' n : iso_range now ->
  server_post allowed conv c now t token chunk = (t', Ok n) ->
  exists cv, conv = Some cv /\ n = Z.of_nat (length chunk) /\ posted cv c now t t' chunk.
Proof.
  intros Hr. unfold server_post, mailbox_post. destruct allowed; [|done]. cbn [negb]. destruct conv as [cv|]; [|done].
  destruct (GroupTokens.credentialGroupTokenValid cv token now); [|done]. cbn [negb].
  destruct (validateMailboxItems (map input_of chunk)) as [its|] eqn:Hv; [|done].
  destruct (postMailboxItems t c (GroupTokens.groupEpoch cv) its now) as [t1 [w|]] eqn:Hp; [|done]. intros [= <- <-].
  destruct (mailbox_post_bounded _ _ _ _ _ _ _ _ Hv Hp) as (_ & _ & -> & new & Hperm & Hits & Hall).
  exists cv. assert (its = map stored_of chunk) as ->.
  { unfold validateMailboxItems in Hv. destruct (_ || _); [done|]. by apply validate_inputs. }
  rewrite length_map in *. split_and!; [done..|].
  split; [|exists new; split_and!; [done..|]; eapply Forall_impl; [exact Hall|]; by intros r (? & ? & ? & ?)].
  apply rtc_once. replace t1 with (postMailboxItems t c (GroupTokens.groupEpoch cv) (map stored_of chunk) now).1 by (by rewrite Hp).
  by eapply ms_post.
Qed.

Lemma posted_app cv c now t t1 t2 a b : posted cv c now t t1 a -> posted cv c now t1 t2 b -> posted cv c now t t2 (a ++ b).
Proof.
  intros (Hr1 & n1 & Hp1 & Hi1 & Hf1) (Hr2 & n2 & Hp2 & Hi2 & Hf2). split; [by etrans|]. exists (n1 ++ n2). split_and!.
  - rewrite Hp2, Hp1. rewrite (Permutation_app_comm n1 n2). by rewrite app_assoc.
  - rewrite !map_app. by rewrite Hi1, Hi2.
  - by apply Forall_app.
Qed.

Lemma post_chunks_ok allowed cv c now token : iso_range now -> forall fuel t its w t' n, (length its <= fuel)%nat ->
  post_chunks (server_post allowed (Some cv) c now) fuel t token its w = (t', Ok n) -> posted cv c now t t' its.
Proof.
  intros Hr. induction fuel as [|fuel IH]; intros t its w t' n Hlen; cbn [post_chunks].
  - destruct its; [|cbn in Hlen; lia]. intros [= <- _]. split; [done|]. by exists [].
  - destruct its as [|i its]; [intros [= <- _]; split; [done|]; by exists []|].
    destruct (server_post allowed (Some cv) c now t token (take MAILBOX_MAX_ITEMS_PER_POST (i :: its))) as [t1 [k|]] eqn:Hp; [|done].
    destruct (server_post_ok _ _ _ _ _ _ _ _ _ Hr Hp) as (cv' & [= <-] & _ & H1). intros Hrest.
    rewrite <- (take_drop MAILBOX_MAX_ITEMS_PER_POST (i :: its)). eapply posted_app; [exact H1|]. eapply IH; [|exact Hrest].
    rewrite length_drop. unfold MAILBOX_MAX_ITEMS_PER_POST. cbn in *. lia.
Qed.

(** When the call reports a delivery, every item it built has a row. *)
Lemma post_envelopes_ok allowed cv c now t tokenMap gt skip envs t' delivered : iso_range now ->
  postGroupKeyEnvelopes (server_post allowed (Some cv) c now) t tokenMap gt skip envs = (t', delivered) -> delivered <> ∅ ->
  exists tm, tokenMap = Some tm /\ posted cv c now t t' (omap (envelope_item tm skip) envs).
Proof.
  intros Hr. unfold postGroupKeyEnvelopes. destruct envs as [|e0 envs]; [by intros [= _ <-]|]. set (es := e0 :: envs).
  destruct tokenMap as [tm|]; [|by intros [= _ <-]]. destruct gt as [[|g gt]|]; [by intros [= _ <-]| |by intros [= _ <-]].
  intros Hp Hd. exists tm. split; [done|]. revert Hp. destruct (omap (envelope_item tm skip) es) as [|i0 its] eqn:Ei.
  - intros [= <- _]. split; [done|]. by exists [].
  - unfold postGroupMailboxItems. destruct (post_chunks _ _ _ _ _ _) as [t1 [w|]] eqn:Hc; [|intros [= _ <-]; done].
    destruct (_ <? _); intros [= <- <-]; [done|]. by eapply post_chunks_ok; [| |exact Hc].
Qed.
End Posting.

(** C33: A key envelope the sender counts as delivered reaches the device it is for. When
    posting reported a delivery, then for every table that still has the rows, a fresh
    client of the addressed member, with a token the endpoint accepts, in the same era
    and before the rows expire, has after as many polls as there are rows passed exactly
    the envelopes of its rows to storeReceivedSessionKey, each row once, and the envelope
    is among them with its key and sender fields unchanged. *)
Theorem key_envelopes_delivered `{ServerCrypto, ML : MailboxDbLaws} t0 t1 t2 allowed cv1 cv2 members c now1 now2
    tokenMap gtS skip envs delivered e tok gtR tokR deviceKey stores n :
  iso_range now1 ->
  postGroupKeyEnvelopes (server_post allowed (Some cv1) c now1) t0 (Some tokenMap) gtS skip envs = (t1, delivered) ->
  delivered <> ∅ -> e ∈ envs -> is_Some (envelope_item tokenMap skip e) ->
  rtc mail_step [] t2 -> (forall r, r ∈ t1 -> r ∈ t2) ->
  GroupTokens.groupEpoch cv2 = GroupTokens.groupEpoch cv1 -> now2 < now1 + MAILBOX_TTL_MS ->
  assoc (ke_userId e) tokenMap = Some tok -> envelope_ok e -> js_truthy (opt_str (ke_senderId e)) = true -> for_device deviceKey e ->
  (match gtR with Some x => Some x | None => Some tok end) = Some tokR -> tokR <> [] -> pull_token_ok cv2 members c tokR now2 = true ->
  (length t2 <= n)%nat ->
  exists l, NoDup l /\
    l ≡ₚ filter (fun r => row_conversationId r = c /\ row_epoch r = GroupTokens.groupEpoch cv2 /\ now2 < row_expiresAt r) t2 /\
    calls (poll_all gtR (Some tok) deviceKey stores c (replicate n (server_pull t2 true (Some cv2) members c now2)) (mkClient ∅ ∅ [])) =
      omap (fun r => item_call deviceKey c (deriveMailboxTag (Some tok)) (wire_item r)) l /\
    envelope_call c e ∈ omap (fun r => item_call deviceKey c (deriveMailboxTag (Some tok)) (wire_item r)) l.
Proof.
  intros Hr Hpost Hd He [it Hit] Ht2 Hsub Hera Hlive Htok Hok Hsp Hdev HtokR HneR HokR Hn.
  destruct (post_envelopes_ok _ _ _ _ _ _ _ _ _ _ _ Hr Hpost Hd) as (tm & [= <-] & _ & new & Hnew & Hitems & Hall).
  assert (Htab : table_ok t2).
  { apply (rtc_invariant mail_step table_ok) with []; [apply mail_step_ok|done|]. split; constructor. }
  destruct (ticks_complete t2 cv2 members c now2 gtR (Some tok) deviceKey stores tokR Htab HtokR HneR HokR n Hn)
    as (l & Hl & Hnd & Hcalls).
  exists l. split_and!; [done..|]. assert (Hin : stored_of it ∈ map row_item new).
  { rewrite Hitems. apply list_elem_of_fmap_2. apply list_elem_of_omap. by exists e. }
  apply list_elem_of_fmap in Hin as (r & Hri & Hrn). destruct (proj1 (Forall_forall _ _) Hall r Hrn) as (Hc & He' & Hx).
  apply list_elem_of_omap. exists r. split.
  - rewrite Hl. apply list_elem_of_filter. split; [split_and!; [done|congruence|lia]|]. apply Hsub. rewrite Hnew. set_solver.
  - unfold wire_item. rewrite <- Hri. cbn [it_kind it_tag it_payload stored_of].
    by apply (own_item_call tokenMap skip e it tok).
Qed.

(** ** Rows that appear behind the cursor *)
Section Late.
Context `{ServerCrypto, ML : MailboxDbLaws}.
Context (c : jstr) (gt dt deviceKey : option jstr) (stores : store_call -> bool) (r : MailboxRow).

(** The client stands behind [r] and has not seen it. *)
Definition passed (st : client) : Prop :=
  exists y, at_cursor (cursors st !! c) (Some (cursor_of y)) /\ row_lt r y /\ row_id y <> [] /\ row_id r ∉ processed st.

Definition tells_apart (t : list MailboxRow) : Prop := table_ok t /\ forall y, y ∈ t -> row_id y = row_id r -> y = r.

Lemma handle_items_ids tag its : forall st handled, row_id r ∉ map mi_id its -> row_id r ∉ processed st ->
  let st' := (foldl (handle_item deviceKey stores c tag) (st, handled) its).1 in
  row_id r ∉ processed st' /\ cursors st' = cursors st.
Proof.
  induction its as [|i its IH]; intros st handled Hi Hp; cbn zeta; [done|]. cbn [map] in Hi. apply not_elem_of_cons in Hi as [Hi His].
  cbn [foldl]. assert (Hone : exists st1 h1, handle_item deviceKey stores c tag (st, handled) i = (st1, h1) /\
    row_id r ∉ processed st1 /\ cursors st1 = cursors st).
  { unfold handle_item. case_bool_decide; [by exists st, handled|].
    destruct (item_call deviceKey c tag i); do 2 eexists; (split; [reflexivity|]); cbn [processed cursors]; set_solver. }
  destruct Hone as (st1 & h1 & -> & Hp1 & Hc1). destruct (IH st1 h1 His Hp1) as [Hp2 Hc2]. split; [done|congruence].
Qed.

Lemma passed_pages t allowed conv members now tag n : tells_apart t -> forall st handled, passed st ->
  passed (process_pages (server_pull t allowed conv members c now) gt dt deviceKey stores n c tag st handled).1.
Proof.
  intros [Ht Huniq]. induction n as [|n IH]; intros st handled Hst; cbn [process_pages]; [done|].
  destruct (pullGroupMailbox _ gt dt (cursors st !! c)) as [[pg|]|] eqn:Epull; [|done..].
  destruct Hst as (y & Hat & Hry & Hy & Hnp).
  assert (Hpage : exists e page, pullMailboxItems t c e (Some (cursor_of y)) None now = Ok page /\
    pg = mkPage e (map wire_item (items page)) (nextCursor page) (truncated page)).
  { pose proof (at_cursor_parse _ _ Hat) as Hparse. unfold pullGroupMailbox in Epull.
    destruct (match gt with Some x => Some x | None => dt end) as [[|a tok]|]; [done| |done].
    destruct (cursors st !! c) as [[|b s]|]; [by destruct Hparse| |done]. destruct Hparse as (_ & k & [= <-] & Hpk & _).
    unfold server_pull, mailbox_pull, pull_endpoint in Epull. rewrite Hpk in Epull. destruct allowed; [|done]. cbn [negb] in Epull.
    destruct conv as [cv|]; [|done]. destruct (pull_token_ok cv members c (a :: tok) now); [|done]. cbn [negb] in Epull.
    destruct (pullMailboxItems _ _ _ _ _ _) as [page|] eqn:Ep; [|done]. injection Epull as <-. by exists (GroupTokens.groupEpoch cv), page. }
  destruct Hpage as (e & page & Hpage & ->). cbn [pg_items pg_nextCursor pg_truncated].
  assert (Hafter : forall x, x ∈ items page -> x ∈ t /\ row_lt y x).
  { intros x Hx. destruct (pull_rows_match _ _ _ _ _ _ _ _ Hpage Hx) as [Hxt (_ & _ & _ & Hq)]. split; [done|]. by apply after_cursor_of in Hq. }
  assert (Hids : row_id r ∉ map mi_id (map wire_item (items page))).
  { rewrite map_map. intros (x & Ex & Hx)%list_elem_of_fmap. destruct (Hafter x Hx) as [Hxt Hlt].
    assert (x = r) as -> by (by apply Huniq). apply (row_lt_irrefl r). by eapply row_lt_trans. }
  destruct (handle_items_ids tag _ st handled Hids Hnp) as [Hp1 Hc1]. destruct (foldl _ (st, handled) _) as [st1 h1]. cbn [fst] in *.
  destruct (pull_next t c e _ _ None now page Ht Hat Hpage) as [Hnn Hat'].
  assert (Hend : passed (match nextCursor page with Some ((_ :: _) as s) => mkClient (<[c := s]> (cursors st1)) (processed st1) (calls st1) | _ => st1 end)).
  { exists (match last (items page) with Some x => x | None => y end).
    replace (Some (cursor_of _)) with (match last (items page) with Some x => Some (cursor_of x) | None => Some (cursor_of y) end)
      by (by destruct (last (items page))). split_and!.
    - destruct (nextCursor page) as [[|b s]|]; [done| |by rewrite Hc1]. cbn [cursors]. by rewrite lookup_insert_eq.
    - destruct (last (items page)) as [x|] eqn:El; [|done]. apply last_Some in El as [l' El]. eapply row_lt_trans; [exact Hry|].
      apply Hafter. rewrite El. set_solver.
    - destruct (last (items page)) as [x|] eqn:El; [|done]. apply last_Some in El as [l' El].
      apply (proj1 (Forall_forall _ _) (proj2 Ht)), Hafter. rewrite El. set_solver.
    - by destruct (nextCursor page) as [[|b s]|]. }
  destruct (truncated page); cbn [negb]; [by apply IH|done].
Qed.
End Late.

(** A row that becomes visible behind the client's cursor is never processed. Once the
    cursor of a client stands at a row [x], a row [r] that sorts before it (an earlier
    time stamp, or the same one and a smaller id) and was not there yet is passed over
    by every later poll, however many there are and whatever else the tables hold. *)
Theorem late_row_skipped `{ServerCrypto, ML : MailboxDbLaws} c gt dt deviceKey stores st x s r polls :
  cursors st !! c = Some s -> formatMailboxCursor (row_id x) (row_createdAt x) = Ok s -> row_id x <> [] -> iso_range (row_createdAt x) ->
  row_lt r x -> row_id r ∉ processed st ->
  Forall (fun api => exists t allowed conv members now, api = server_pull t allowed conv members c now /\ tells_apart r t) polls ->
  row_id r ∉ processed (poll_all gt dt deviceKey stores c polls st).
Proof.
  intros Hs Hf Hid Hr Hlt Hnp Hpolls. assert (Hst : passed c r st).
  { exists x. split_and!; [|done..]. by exists x, s. }
  clear Hs Hf Hid Hr Hlt Hnp. enough (passed c r (poll_all gt dt deviceKey stores c polls st)) as (y & _ & _ & _ & Hy) by exact Hy.
  revert st Hst. induction Hpolls as [|api polls (t & allowed & conv & members & now & -> & Ht) _ IH]; intros st Hst; [done|].
  apply IH. by apply passed_pages.
Qed.

(** ** Witnesses *)
Import Toy ToyServer ToyMailbox.

Definition demo_envelope : KeyEnvelopeInput :=
  mkEnvelope (js "bob") (js "sealed") (Some (js "dev")) (Some (js "alice")) None None None.
Definition demo_post : list MailboxRow * gset jstr :=
  postGroupKeyEnvelopes (server_post true (Some demo_conversation) (js "g") 1700000000000) [] (Some [(js "bob", js "btok")])
    (Some (js "tok")) ∅ [demo_envelope].

Lemma key_envelopes_delivered_witness :
  exists l, NoDup l /\
    l ≡ₚ filter (fun r => row_conversationId r = js "g" /\ row_epoch r = 3 /\ 1700000000001 < row_expiresAt r) demo_post.1 /\
    calls (poll_all (Some (js "tok")) (Some (js "btok")) (Some (js "dev")) (fun _ => true) (js "g")
      (replicate 1 (server_pull demo_post.1 true (Some demo_conversation) [] (js "g") 1700000000001)) (mkClient ∅ ∅ [])) =
      omap (fun r => item_call (Some (js "dev")) (js "g") (deriveMailboxTag (Some (js "btok"))) (wire_item r)) l /\
    envelope_call (js "g") demo_envelope ∈
      omap (fun r => item_call (Some (js "dev")) (js "g") (deriveMailboxTag (Some (js "btok"))) (wire_item r)) l.
Proof.
  assert (Hd : demo_post.2 <> ∅) by (apply (bool_decide_unpack (demo_post.2 <> ∅)); vm_compute; exact I).
  assert (Hr : iso_range 1700000000000) by (unfold iso_range; lia).
  apply (key_envelopes_delivered [] demo_post.1 demo_post.1 true demo_conversation demo_conversation [] (js "g")
    1700000000000 1700000000001 [(js "bob", js "btok")] (Some (js "tok")) ∅ [demo_envelope] demo_post.2 demo_envelope (js "btok")
    (Some (js "tok")) (js "tok") (Some (js "dev")) (fun _ => true) 1); try done.
  - apply list_elem_of_singleton. reflexivity.
  - destruct (post_envelopes_ok true demo_conversation (js "g") 1700000000000 [] (Some [(js "bob", js "btok")]) (Some (js "tok")) ∅
      [demo_envelope] demo_post.1 demo_post.2 Hr) as (tm & _ & Hstep & _); [reflexivity|exact Hd|exact Hstep].
  - split; [reflexivity|]. intros o x Ho Hx. subst o. set_unfold in Ho. naive_solver.
Defined.

Definition demo_row (id : string) (at_ : Z) : MailboxRow :=
  mkRow (js id) (js "g") 3 (mkItem COVER None (js "AA")) at_ (at_ + MAILBOX_TTL_MS).

Lemma late_row_skipped_witness :
  let x := demo_row "x" 1700000000005 in let r := demo_row "r" 1700000000000 in
  let seen := poll_all (Some (js "tok")) None None (fun _ => true) (js "g")
    [server_pull [x] true (Some demo_conversation) [] (js "g") 1700000000006] (mkClient ∅ ∅ []) in
  row_id r ∉ processed (poll_all (Some (js "tok")) None None (fun _ => true) (js "g")
    (replicate 3 (server_pull [r; x] true (Some demo_conversation) [] (js "g") 1700000000009)) seen).
Proof.
  intros x r seen. destruct (cursors seen !! js "g") as [s|] eqn:Es; [|vm_compute in Es; discriminate Es].
  apply (late_row_skipped (js "g") (Some (js "tok")) None None (fun _ => true) seen x s r).
  - exact Es.
  - vm_compute in Es. injection Es as <-. vm_compute. reflexivity.
  - discriminate.
  - unfold iso_range. cbn. lia.
  - left. cbn. lia.
  - apply (bool_decide_unpack (_ ∉ _)). vm_compute. exact I.
  - apply Forall_replicate. exists [r; x], true, (Some demo_conversation), [], 1700000000009. split; [reflexivity|].
    split; [split|].
    + apply (bool_decide_unpack (NoDup _)). vm_compute. exact I.
    + repeat constructor; try discriminate; vm_compute; discriminate.
    + intros y Hy Hid. set_unfold in Hy. destruct Hy as [->|[->|[]]]; [reflexivity|discriminate Hid].
Defined.
