(* ===== verification/BackupFormat.v ===== *)
(** The backup archive of web/src/lib/backupFormat.ts: padded, authenticated
    frames behind a fixed header. The AEAD is an interface: its calls are those of
    [BackupCryptoBackend], the nonces it draws are an argument. *)
From stdpp Require Import pretty.
From S2P Require Import Prelude Bytes Base64 Text Sodium.

Class BackupCryptoBackend := {
  aeadSeal : bytes -> bytes -> bytes -> bytes -> bytes; (* key nonce plaintext aad *)
  aeadOpen : bytes -> bytes -> bytes -> bytes -> option bytes (* key nonce ciphertext aad *) }.

(** XChaCha20-Poly1305: a sealed text opens again and is 16 bytes longer. *)
Class BackupCryptoLaws `{BackupCryptoBackend} := {
  backup_open_seal : forall k n p a, aeadOpen k n (aeadSeal k n p a) a = Some p;
  backup_seal_length : forall k n p a, blen (aeadSeal k n p a) = blen p + 16 }.

Module Backup.

Definition BACKUP_MAGIC : string := "NYXB".
Definition BACKUP_FORMAT_VERSION : Z := 1.
Definition BACKUP_HEADER_BYTES : Z := 32.
Definition BACKUP_SALT_BYTES : Z := 16.
Definition BACKUP_NONCE_BYTES : Z := 24.
Definition BACKUP_TAG_BYTES : Z := 16.
Definition BACKUP_FRAME_LENGTH_BYTES : Z := 4.
Definition BACKUP_PADDING_BLOCK_BYTES : Z := 1024.
Definition BACKUP_MAX_FRAMES : Z := 65535.
Definition BACKUP_MAX_PAYLOAD_BYTES : Z := 16 * 1024 * 1024.
(** [BACKUP_KDF_PARAMS.hashLength] *)
Definition BACKUP_KEY_BYTES : Z := 32.

Inductive BackupFrameType :=
| Account | Contacts | Conversation | Message | Story | Settings | Tombstone.

Definition type_code (t : BackupFrameType) : Z :=
  match t with
  | Account => 1 | Contacts => 2 | Conversation => 3 | Message => 4
  | Story => 5 | Settings => 6 | Tombstone => 7
  end.

(** [type in BackupFrameType], for a byte: the enum maps its numbers back. *)
Definition type_of_code (z : Z) : option BackupFrameType :=
  match z with
  | 1 => Some Account | 2 => Some Contacts | 3 => Some Conversation | 4 => Some Message
  | 5 => Some Story | 6 => Some Settings | 7 => Some Tombstone
  | _ => None
  end.

Record BackupFrame := mkFrame { frame_type : BackupFrameType; frame_payload : bytes }.
Record BackupArchive := mkArchive { archive_bytes : bytes; archive_salt : bytes }.
Record encoded_frame := mkEncoded { enc_type : BackupFrameType; enc_nonce : bytes; enc_ciphertext : bytes }.
Record BackupHeader := mkHeader { frameCount : Z; header_salt : bytes; formatVersion : Z }.
Record ParsedBackup := mkParsed { parsed_frames : list BackupFrame; parsed_salt : bytes; parsed_version : Z }.

Definition padBackupPayload (payload : bytes) : result bytes :=
  if BACKUP_MAX_PAYLOAD_BYTES <? blen payload
  then throw "Payload terlalu besar untuk satu frame" else
  let block := BACKUP_PADDING_BLOCK_BYTES in
  (* Math.ceil((4 + length) / block) * block *)
  let total := Z.max block ((BACKUP_FRAME_LENGTH_BYTES + blen payload + (block - 1)) / block * block) in
  out ← set_u32 (zeros total) 0 (blen payload);
  u8_set out BACKUP_FRAME_LENGTH_BYTES payload.

Definition unpadBackupPayload (padded : bytes) : result bytes :=
  if (blen padded <? BACKUP_FRAME_LENGTH_BYTES) ||
     negb (blen padded mod BACKUP_PADDING_BLOCK_BYTES =? 0)
  then throw "Payload ter-pad tidak berukuran blok" else
  length ← get_u32 padded 0;
  if blen padded - BACKUP_FRAME_LENGTH_BYTES <? length
  then throw "Panjang payload melebihi frame" else
  let payload := slice padded BACKUP_FRAME_LENGTH_BYTES (BACKUP_FRAME_LENGTH_BYTES + length) in
  if forallb (fun b => b2z b =? 0) (slice_from padded (BACKUP_FRAME_LENGTH_BYTES + length))
  then Ok payload else throw "Padding frame tidak nol".

(** [charCodeAt(i) & 0x7f] of every character *)
Definition asciiBytes (text : string) : bytes :=
  map (fun b => z2b (Z.land (b2z b) 127)) (ascii_bytes text).

Definition frameAad (type index totalFrames : Z) : bytes :=
  asciiBytes ("nyxb:v" +:+ pretty BACKUP_FORMAT_VERSION +:+ ":" +:+ pretty type +:+ ":"
    +:+ pretty index +:+ ":" +:+ pretty totalFrames).

Section Ops.
Context `{BackupCryptoBackend}.

(** [frames.map((frame, index) => ...)]; [nonce index] is what [randomBytes]
    answers for that frame. *)
Fixpoint encode_frames (key : bytes) (nonce : nat -> bytes) (total : Z) (index : nat)
    (frames : list BackupFrame) : result (list encoded_frame) :=
  match frames with
  | [] => Ok []
  | f :: fs =>
      padded ← padBackupPayload (frame_payload f);
      let aad := frameAad (type_code (frame_type f)) (Z.of_nat index) total in
      let ciphertext := aeadSeal key (nonce index) padded aad in
      rest ← encode_frames key nonce total (S index) fs;
      Ok (mkEncoded (frame_type f) (nonce index) ciphertext :: rest)
  end.

Definition frame_size (f : encoded_frame) : Z :=
  1 + 4 + BACKUP_NONCE_BYTES + 4 + blen (enc_ciphertext f).

(** The loop that writes type, placeholder, nonce, length and ciphertext. *)
Fixpoint write_frames (out : bytes) (offset : Z) (fs : list encoded_frame) : result bytes :=
  match fs with
  | [] => Ok out
  | f :: fs' =>
      let out := u8_store out offset (type_code (enc_type f)) in
      out ← set_u32 out (offset + 1) 0;
      let offset := offset + 1 + 4 in
      out ← u8_set out offset (enc_nonce f);
      let offset := offset + BACKUP_NONCE_BYTES in
      out ← set_u32 out offset (blen (enc_ciphertext f));
      let offset := offset + 4 in
      out ← u8_set out offset (enc_ciphertext f);
      write_frames out (offset + blen (enc_ciphertext f)) fs'
  end.

(** The second loop, which writes the index of every frame. *)
Fixpoint write_indexes (out : bytes) (indexOffset : Z) (i : nat) (fs : list encoded_frame) : result bytes :=
  match fs with
  | [] => Ok out
  | f :: fs' =>
      out ← set_u32 out (indexOffset + 1) (Z.of_nat i);
      write_indexes out (indexOffset + frame_size f) (S i) fs'
  end.

Definition buildBackupArchive (frames : list BackupFrame) (key salt : bytes) (nonce : nat -> bytes)
  : result BackupArchive :=
  if Z.of_nat (length frames) =? 0 then throw "Arsip backup tanpa frame tidak sah" else
  if BACKUP_MAX_FRAMES <? Z.of_nat (length frames) then throw "Terlalu banyak frame" else
  if negb (blen key =? BACKUP_KEY_BYTES) then throw "Panjang kunci backup salah" else
  if negb (blen salt =? BACKUP_SALT_BYTES) then throw "Panjang salt salah" else
  encodedFrames ← encode_frames key nonce (Z.of_nat (length frames)) 0 frames;
  let totalBytes := BACKUP_HEADER_BYTES + foldr (fun f sum => sum + frame_size f) 0 encodedFrames in
  out ← u8_set (zeros totalBytes) 0 (asciiBytes BACKUP_MAGIC);
  let out := u8_store out 4 BACKUP_FORMAT_VERSION in
  let out := u8_store out 5 0 in
  out ← set_u16 out 6 (Z.of_nat (length frames));
  out ← u8_set out 8 salt;
  out ← write_frames out BACKUP_HEADER_BYTES encodedFrames;
  out ← write_indexes out BACKUP_HEADER_BYTES 0 encodedFrames;
  Ok (mkArchive out salt).

Definition readBackupHeader (b : bytes) : result BackupHeader :=
  if blen b <? BACKUP_HEADER_BYTES then throw "Berkas terlalu pendek" else
  let magic := asciiBytes BACKUP_MAGIC in
  if negb (bool_decide (take (length magic) b = magic)) then throw "Bukan berkas backup NYX" else
  let formatVersion := default 0 (u8_get b 4) in
  if negb (formatVersion =? BACKUP_FORMAT_VERSION) then throw "Versi format backup tidak didukung" else
  frameCount ← get_u16 b 6;
  if frameCount =? 0 then throw "Arsip backup tanpa frame" else
  Ok (mkHeader frameCount (slice b 8 (8 + BACKUP_SALT_BYTES)) formatVersion).

(** The frame loop: [k] iterations are left, the next index is [expectedIndex]. *)
Fixpoint parse_frames (k : nat) (b key : bytes) (count expectedIndex offset : Z)
  : result (list BackupFrame * Z) :=
  match k with
  | 0%nat => Ok ([], offset)
  | S k' =>
      if blen b <? offset + 1 + 4 + BACKUP_NONCE_BYTES + 4 then throw "Frame terpotong" else
      let type := default 0 (u8_get b offset) in
      index ← get_u32 b (offset + 1);
      if negb (index =? expectedIndex) then throw "Urutan frame tidak sah (reorder/insert)" else
      match type_of_code type with
      | None => throw "Jenis frame tidak dikenal"
      | Some t =>
          let offset := offset + 5 in
          let nonce := slice b offset (offset + BACKUP_NONCE_BYTES) in
          let offset := offset + BACKUP_NONCE_BYTES in
          ciphertextLength ← get_u32 b offset;
          let offset := offset + 4 in
          if (ciphertextLength <? BACKUP_TAG_BYTES) || (blen b <? offset + ciphertextLength)
          then throw "Panjang ciphertext frame tidak sah" else
          let ciphertext := slice b offset (offset + ciphertextLength) in
          let offset := offset + ciphertextLength in
          match aeadOpen key nonce ciphertext (frameAad type index count) with
          | None => throw "Autentikasi frame gagal (tamper atau kunci salah)"
          | Some padded =>
              payload ← unpadBackupPayload padded;
              rest ← parse_frames k' b key count (expectedIndex + 1) offset;
              Ok (mkFrame t payload :: rest.1, rest.2)
          end
      end
  end.

Definition parseBackupArchive (b key : bytes) : result ParsedBackup :=
  header ← readBackupHeader b;
  if negb (blen key =? BACKUP_KEY_BYTES) then throw "Panjang kunci backup salah" else
  r ← parse_frames (Z.to_nat (frameCount header)) b key (frameCount header) 0 BACKUP_HEADER_BYTES;
  if negb (r.2 =? blen b) then throw "Ada data berlebih setelah frame terakhir" else
  Ok (mkParsed r.1 (header_salt header) (formatVersion header)).

End Ops.
End Backup.

Import Backup.

(** ** Padding *)
Lemma pad_shape payload :
  blen payload <= BACKUP_MAX_PAYLOAD_BYTES ->
  exists k, 0 <= k /\
    padBackupPayload payload = Ok (be32 (blen payload) ++ payload ++ zeros k) /\
    (4 + blen payload + k) mod 1024 = 0 /\ k < 1024.
Proof.
  intros Hmax. pose proof (blen_nonneg payload). unfold padBackupPayload.
  replace (_ <? _) with false by (symmetry; apply Z.ltb_ge; lia).
  unfold BACKUP_PADDING_BLOCK_BYTES, BACKUP_FRAME_LENGTH_BYTES.
  set (total := Z.max 1024 _).
  assert (Ht : total mod 1024 = 0 /\ 4 + blen payload <= total < 4 + blen payload + 1024).
  { subst total. rewrite Z.max_r by dlia. split; [apply Z.mod_mul; lia|dlia]. }
  exists (total - 4 - blen payload). unfold set_u32.
  rewrite u8_set_first, bind_ok by (rewrite blen_be32; lia).
  rewrite u8_set_fill' by (rewrite blen_be32; lia).
  rewrite blen_be32, <- app_assoc. split_and!; [lia|done| |lia].
  replace (4 + blen payload + (total - 4 - blen payload)) with total by lia. apply Ht.
Qed.

Lemma forallb_zeros k : forallb (fun b => b2z b =? 0) (zeros k) = true.
Proof. unfold zeros. induction (Z.to_nat k) as [|n IH]; [done|]. cbn. by rewrite IH. Qed.

Lemma unpad_pad_backup payload padded :
  padBackupPayload payload = Ok padded -> unpadBackupPayload padded = Ok payload.
Proof.
  intros Hp. assert (Hmax : blen payload <= BACKUP_MAX_PAYLOAD_BYTES).
  { unfold padBackupPayload in Hp. destruct (_ <? _) eqn:E; [done|]. bools. lia. }
  destruct (pad_shape payload Hmax) as (k & Hk & Hpad & Hmod & _).
  assert (padded = be32 (blen payload) ++ payload ++ zeros k) as -> by congruence.
  pose proof (blen_nonneg payload).
  unfold unpadBackupPayload, BACKUP_FRAME_LENGTH_BYTES, BACKUP_PADDING_BLOCK_BYTES.
  rewrite !blen_app, blen_be32, blen_zeros, Z.add_assoc, Hmod by lia. ztest. cbn [orb negb].
  rewrite (get_u32_split _ [] (payload ++ zeros k) 0 (blen payload))
    by (done || (unfold BACKUP_MAX_PAYLOAD_BYTES in Hmax; lia)).
  rewrite bind_ok. ztest.
  rewrite (slice_split _ (be32 (blen payload)) payload (zeros k)) by (done || blia).
  rewrite app_assoc, slice_from_app by (rewrite blen_app, blen_be32; lia).
  by rewrite forallb_zeros.
Qed.

(** ** The layout of an archive *)
Definition frame_layout (index : Z) (f : encoded_frame) : bytes :=
  [z2b (type_code (enc_type f))] ++ be32 index ++ enc_nonce f ++ be32 (blen (enc_ciphertext f))
    ++ enc_ciphertext f.

Fixpoint frames_layout (number : nat -> Z) (i : nat) (fs : list encoded_frame) : bytes :=
  match fs with
  | [] => []
  | f :: fs' => frame_layout (number i) f ++ frames_layout number (S i) fs'
  end.

Definition nonces_ok (fs : list encoded_frame) : Prop :=
  Forall (fun f => blen (enc_nonce f) = BACKUP_NONCE_BYTES) fs.

Definition sizes (fs : list encoded_frame) : Z := foldr (fun f sum => sum + frame_size f) 0 fs.

Lemma frame_size_pos f : 33 <= frame_size f.
Proof. unfold frame_size, BACKUP_NONCE_BYTES. pose proof (blen_nonneg (enc_ciphertext f)). lia. Qed.

Lemma sizes_nonneg fs : 0 <= sizes fs.
Proof.
  induction fs as [|f fs IH]; [done|]. pose proof (frame_size_pos f).
  change (0 <= sizes fs + frame_size f). lia.
Qed.

Lemma blen_frame_layout i f :
  blen (enc_nonce f) = BACKUP_NONCE_BYTES -> blen (frame_layout i f) = frame_size f.
Proof. intros Hn. unfold frame_layout, frame_size. autorewrite with nyx. lia. Qed.

Lemma blen_frames_layout number fs : forall i, nonces_ok fs -> blen (frames_layout number i fs) = sizes fs.
Proof.
  induction fs as [|f fs IH]; intros i Hn; [done|]. apply Forall_cons in Hn as [Hf Hn].
  cbn [frames_layout]. rewrite blen_app, blen_frame_layout, IH by done.
  change (frame_size f + sizes fs = sizes fs + frame_size f). lia.
Qed.

Lemma write_frames_ok fs : forall i pre off,
  nonces_ok fs -> off = blen pre ->
  write_frames (pre ++ zeros (sizes fs)) off fs = Ok (pre ++ frames_layout (fun _ => 0) i fs).
Proof.
  induction fs as [|f fs IH]; intros i pre off Hn ->; [done|].
  apply Forall_cons in Hn as [Hf Hn]. pose proof (sizes_nonneg fs).
  pose proof (blen_nonneg (enc_ciphertext f)). cbn [write_frames sizes foldr].
  fold (sizes fs). unfold frame_size, set_u32. unfold BACKUP_NONCE_BYTES in *.
  rewrite u8_store_fill by lia.
  do 4 (rewrite u8_set_fill' by (autorewrite with nyx; lia); rewrite bind_ok).
  rewrite !blen_be32, Hf.
  replace (sizes fs + _ - 1 - 4 - 24 - 4 - _) with (sizes fs) by lia.
  rewrite (IH (S i)) by (done || (autorewrite with nyx; lia)).
  cbn [frames_layout]. unfold frame_layout. by rewrite <- !app_assoc.
Qed.

Lemma write_indexes_ok fs : forall i pre off,
  nonces_ok fs -> off = blen pre ->
  write_indexes (pre ++ frames_layout (fun _ => 0) i fs) off i fs =
    Ok (pre ++ frames_layout Z.of_nat i fs).
Proof.
  induction fs as [|f fs IH]; intros i pre off Hn ->; [done|].
  apply Forall_cons in Hn as [Hf Hn]. cbn [write_indexes frames_layout].
  unfold frame_layout at 1, set_u32. rewrite <- !app_assoc, (app_assoc pre).
  rewrite u8_set_mid by (autorewrite with nyx; lia). rewrite bind_ok.
  set (b := _ ++ _ ++ _).
  assert (b = (pre ++ frame_layout (Z.of_nat i) f) ++ frames_layout (fun _ => 0) (S i) fs) as ->.
  { subst b. unfold frame_layout. by rewrite <- !app_assoc. }
  rewrite IH by (done || (rewrite blen_app, blen_frame_layout; done)).
  by rewrite <- app_assoc.
Qed.

Lemma type_code_back t : type_of_code (type_code t) = Some t.
Proof. by destruct t. Qed.

Lemma type_code_range t : 1 <= type_code t <= 7.
Proof. destruct t; cbn; lia. Qed.

Lemma type_of_code_some z t : type_of_code z = Some t -> z = type_code t.
Proof. unfold type_of_code. repeat case_match; try done; by intros [= <-]. Qed.

(** The header: magic, version, flags, number of frames, salt, reserved bytes. *)
Definition header_layout (count : Z) (salt : bytes) : bytes :=
  asciiBytes BACKUP_MAGIC ++ [z2b BACKUP_FORMAT_VERSION] ++ [z2b 0] ++ be16 count ++ salt ++ zeros 8.

Lemma blen_archive_header count salt : blen salt = BACKUP_SALT_BYTES -> blen (header_layout count salt) = 32.
Proof.
  intros Hs. unfold header_layout. rewrite !blen_app, Hs, blen_be16, blen_zeros by lia. done.
Qed.

Lemma write_header n count salt :
  0 <= n -> blen salt = BACKUP_SALT_BYTES ->
  (out ← u8_set (zeros (BACKUP_HEADER_BYTES + n)) 0 (asciiBytes BACKUP_MAGIC);
   out ← set_u16 (u8_store (u8_store out 4 BACKUP_FORMAT_VERSION) 5 0) 6 count;
   u8_set out 8 salt) = Ok (header_layout count salt ++ zeros n).
Proof.
  intros Hn Hs. unfold BACKUP_HEADER_BYTES, BACKUP_SALT_BYTES, set_u16 in *.
  assert (Hm : blen (asciiBytes BACKUP_MAGIC) = 4) by done.
  rewrite u8_set_first, bind_ok by lia. rewrite Hm.
  rewrite u8_store_fill by lia. rewrite u8_store_fill by (autorewrite with nyx; lia).
  do 2 (rewrite u8_set_fill' by (autorewrite with nyx; lia); rewrite ?bind_ok).
  rewrite blen_be16, Hs. replace (32 + n - 4 - 1 - 1 - 2 - 16) with (8 + n) by lia.
  rewrite zeros_app by lia. unfold header_layout. f_equal. by rewrite <- !app_assoc.
Qed.

Lemma read_header count salt rest :
  blen salt = BACKUP_SALT_BYTES -> 0 < count < 65536 ->
  readBackupHeader (header_layout count salt ++ rest) =
    Ok (mkHeader count salt BACKUP_FORMAT_VERSION).
Proof.
  intros Hs Hc. unfold readBackupHeader, BACKUP_HEADER_BYTES.
  rewrite blen_app, blen_archive_header by done. pose proof (blen_nonneg rest). ztest.
  set (b := header_layout count salt ++ rest).
  assert (Hb : b = (asciiBytes BACKUP_MAGIC ++ [z2b BACKUP_FORMAT_VERSION] ++ [z2b 0]) ++ be16 count
    ++ salt ++ zeros 8 ++ rest) by (subst b; unfold header_layout; by rewrite <- !app_assoc).
  rewrite bool_decide_eq_true_2 by (by rewrite Hb, <- app_assoc, take_app_length).
  cbn [negb].
  rewrite (u8_get_split b (asciiBytes BACKUP_MAGIC) BACKUP_FORMAT_VERSION
    ([z2b 0] ++ be16 count ++ salt ++ zeros 8 ++ rest)) by (done || (rewrite Hb; split_app)).
  cbn [default from_option]. unfold Datatypes.id. rewrite Z.eqb_refl. cbn [negb].
  rewrite (get_u16_split b _ (salt ++ zeros 8 ++ rest) 6 count Hb) by (done || lia).
  rewrite bind_ok. ztest.
  rewrite (slice_split b ((asciiBytes BACKUP_MAGIC ++ [z2b BACKUP_FORMAT_VERSION] ++ [z2b 0]) ++ be16 count)
    salt (zeros 8 ++ rest)); [done| | |by rewrite Hs].
  - rewrite Hb. split_app.
  - autorewrite with nyx. done.
Qed.

(** ** The additional data determines type, index and number of frames *)
Definition is_ascii (c : Ascii.ascii) : bool := (Ascii.nat_of_ascii c <? 128)%nat.

Lemma asciiBytes_ascii s : str_forall is_ascii s = true -> asciiBytes s = ascii_bytes s.
Proof.
  unfold asciiBytes, ascii_bytes, String.list_byte_of_string. rewrite map_map.
  induction s as [|c s IH]; [done|]. cbn. intros [Hc Hs]%andb_true_iff. rewrite (IH Hs). f_equal.
  clear IH Hs. destruct c as [[] [] [] [] [] [] [] []]; done.
Qed.

Lemma ascii_bytes_inj s t : ascii_bytes s = ascii_bytes t -> s = t.
Proof.
  intros E. rewrite <- (String.string_of_list_byte_of_string s),
    <- (String.string_of_list_byte_of_string t). by f_equal.
Qed.

Lemma pretty_ascii k : 0 <= k -> str_forall is_ascii (pretty k) = true.
Proof.
  intros Hk. eapply str_forall_impl, pretty_decimal, Hk. intros c.
  unfold is_digit, is_ascii. rewrite andb_true_iff, !Nat.leb_le, Nat.ltb_lt. lia.
Qed.

Lemma frameAad_inj t i n t' i' n' :
  0 <= i -> 0 <= n -> 0 <= i' -> 0 <= n' ->
  frameAad (type_code t) i n = frameAad (type_code t') i' n' -> t = t' /\ i = i' /\ n = n'.
Proof.
  intros Hi Hn Hi' Hn'. pose proof (type_code_range t). pose proof (type_code_range t').
  unfold frameAad. rewrite !asciiBytes_ascii
    by (rewrite !str_forall_app, !pretty_ascii by (done || lia); done).
  intros E%ascii_bytes_inj. apply (str_app_inj_l "nyxb:v"), str_app_inj_l, (str_app_inj_l ":") in E.
  apply (pretty_sep_inj (Ascii.ascii_of_nat 58)) in E as [Et E]; [|done|lia..].
  apply (pretty_sep_inj (Ascii.ascii_of_nat 58)) in E as [-> E]; [|done..].
  apply (inj pretty) in E as ->. split_and!; [|done..].
  apply (f_equal type_of_code) in Et. rewrite !type_code_back in Et. by injection Et.
Qed.

Section BackupLemmas.
Context `{BL : BackupCryptoLaws}.

(** [es] are the sealed forms of [fs], numbered from [i]. *)
Fixpoint encodes (key : bytes) (count : Z) (i : nat) (fs : list BackupFrame)
    (es : list encoded_frame) : Prop :=
  match fs, es with
  | [], [] => True
  | f :: fs', e :: es' =>
      enc_type e = frame_type f /\ blen (enc_nonce e) = BACKUP_NONCE_BYTES /\
      16 <= blen (enc_ciphertext e) < 4294967296 /\
      (exists padded, aeadOpen key (enc_nonce e) (enc_ciphertext e)
           (frameAad (type_code (frame_type f)) (Z.of_nat i) count) = Some padded /\
         unpadBackupPayload padded = Ok (frame_payload f)) /\
      encodes key count (S i) fs' es'
  | _, _ => False
  end.

Lemma encodes_nonces key count fs : forall i es, encodes key count i fs es -> nonces_ok es.
Proof.
  induction fs as [|f fs IH]; intros i [|e es] He; try done; [constructor|].
  destruct He as (_ & Hn & _ & _ & He). constructor; [done|]. by eapply IH.
Qed.

Definition payloads_ok (fs : list BackupFrame) : Prop :=
  Forall (fun f => blen (frame_payload f) <= BACKUP_MAX_PAYLOAD_BYTES) fs.

Lemma encode_frames_ok key nonce count fs : forall i,
  payloads_ok fs -> (forall k, blen (nonce k) = BACKUP_NONCE_BYTES) ->
  exists es, encode_frames key nonce count i fs = Ok es /\ encodes key count i fs es.
Proof.
  induction fs as [|f fs IH]; intros i Hp Hn; [by exists []|].
  apply Forall_cons in Hp as [Hf Hp]. destruct (IH (S i) Hp Hn) as (es & He & Hes).
  destruct (pad_shape _ Hf) as (k & Hk & Hpad & _ & Hk2). cbn [encode_frames].
  rewrite Hpad, bind_ok, He, bind_ok. eexists. split; [done|].
  cbn [encodes enc_type enc_nonce enc_ciphertext].
  rewrite backup_seal_length, !blen_app, blen_be32, blen_zeros by lia.
  pose proof (blen_nonneg (frame_payload f)). unfold BACKUP_MAX_PAYLOAD_BYTES in Hf.
  split_and!; [done|done|lia|lia| |done].
  - eexists. split; [apply backup_open_seal|]. by apply unpad_pad_backup.
Qed.

Lemma parse_frames_ok key count fs : forall i es pre,
  encodes key count i fs es -> (Z.of_nat (i + length fs) < 4294967296) ->
  parse_frames (length fs) (pre ++ frames_layout Z.of_nat i es) key count (Z.of_nat i) (blen pre)
    = Ok (fs, blen (pre ++ frames_layout Z.of_nat i es)).
Proof.
  induction fs as [|f fs IH]; intros i [|e es] pre He Hi; try done.
  { by rewrite app_nil_r. }
  destruct He as (Ht & Hn & Hc & (padded & Hopen & Hunpad) & He).
  set (b := pre ++ _). cbn [length] in Hi. cbn [length parse_frames]. unfold BACKUP_NONCE_BYTES in *.
  assert (Hb : b = pre ++ [z2b (type_code (enc_type e))] ++ be32 (Z.of_nat i) ++ enc_nonce e ++
    be32 (blen (enc_ciphertext e)) ++ enc_ciphertext e ++ frames_layout Z.of_nat (S i) es).
  { subst b. cbn [frames_layout]. unfold frame_layout. by rewrite <- !app_assoc. }
  pose proof (blen_nonneg (frames_layout Z.of_nat (S i) es)).
  assert (Hlen : blen b = blen pre + 33 + blen (enc_ciphertext e) + blen (frames_layout Z.of_nat (S i) es)).
  { rewrite Hb. autorewrite with nyx. lia. }
  pose proof (type_code_range (enc_type e)).
  replace (blen b <? _) with false by (symmetry; apply Z.ltb_ge; lia).
  rewrite (u8_get_split b pre (type_code (enc_type e)) _ _ Hb eq_refl) by lia.
  rewrite (get_u32_split b (pre ++ [z2b (type_code (enc_type e))])
    (enc_nonce e ++ be32 (blen (enc_ciphertext e)) ++ enc_ciphertext e ++ frames_layout Z.of_nat (S i) es)
    (blen pre + 1) (Z.of_nat i))
    by (first [rewrite Hb; split_app | autorewrite with nyx; lia | lia]).
  rewrite bind_ok, Z.eqb_refl. cbn [negb default from_option id]. unfold Datatypes.id. rewrite type_code_back.
  rewrite (slice_split b (pre ++ [z2b (type_code (enc_type e))] ++ be32 (Z.of_nat i)) (enc_nonce e)
    (be32 (blen (enc_ciphertext e)) ++ enc_ciphertext e ++ frames_layout Z.of_nat (S i) es))
    by (first [rewrite Hb; split_app | autorewrite with nyx; lia]).
  rewrite (get_u32_split b (pre ++ [z2b (type_code (enc_type e))] ++ be32 (Z.of_nat i) ++ enc_nonce e)
    (enc_ciphertext e ++ frames_layout Z.of_nat (S i) es) (blen pre + 5 + 24) (blen (enc_ciphertext e))) by (first [rewrite Hb; split_app | autorewrite with nyx; lia | lia]).
  rewrite bind_ok. unfold BACKUP_TAG_BYTES. ztest. cbn [orb].
  rewrite (slice_split b (pre ++ [z2b (type_code (enc_type e))] ++ be32 (Z.of_nat i) ++ enc_nonce e
    ++ be32 (blen (enc_ciphertext e))) (enc_ciphertext e) (frames_layout Z.of_nat (S i) es))
    by (first [rewrite Hb; split_app | autorewrite with nyx; lia]).
  rewrite Ht, Hopen, Hunpad, bind_ok.
  replace (Z.of_nat i + 1) with (Z.of_nat (S i)) by lia.
  assert (b = (pre ++ frame_layout (Z.of_nat i) e) ++ frames_layout Z.of_nat (S i) es) as ->.
  { subst b. by rewrite <- app_assoc. }
  replace (blen pre + 5 + 24 + 4 + blen (enc_ciphertext e)) with (blen (pre ++ frame_layout (Z.of_nat i) e))
    by (rewrite blen_app, blen_frame_layout; unfold frame_size, BACKUP_NONCE_BYTES; lia || done).
  rewrite IH by (done || lia). rewrite bind_ok. cbn [fst snd]. by destruct f; cbn in *; subst.
Qed.

(** What padding leaves visible of a payload: its size in blocks. *)
Definition padded_size (n : Z) : Z := (n + 1027) / 1024 * 1024.

Lemma encode_frames_sizes key nonce count fs : forall i es,
  encode_frames key nonce count i fs = Ok es ->
  sizes es = foldr (fun f sum => sum + (49 + padded_size (blen (frame_payload f)))) 0 fs.
Proof.
  induction fs as [|f fs IH]; intros i es He; cbn [encode_frames] in He; [by simplify_eq|].
  destruct (padBackupPayload (frame_payload f)) as [padded|] eqn:Ep; [|done].
  rewrite bind_ok in He. destruct (encode_frames _ _ _ _ fs) as [es'|] eqn:E; [|done].
  rewrite bind_ok in He. injection He as <-. cbn [foldr]. rewrite <- (IH _ _ E).
  change (sizes (?e :: es')) with (sizes es' + frame_size e). unfold frame_size. cbn [enc_ciphertext].
  rewrite backup_seal_length. f_equal. unfold BACKUP_NONCE_BYTES, padded_size.
  assert (Hmax : blen (frame_payload f) <= BACKUP_MAX_PAYLOAD_BYTES).
  { unfold padBackupPayload in Ep. destruct (_ <? _) eqn:E'; [done|]. bools. lia. }
  destruct (pad_shape _ Hmax) as (k & Hk & Hpad & Hmod & Hk2).
  assert (blen padded = 4 + blen (frame_payload f) + k) as ->.
  { rewrite Hpad in Ep. injection Ep as <-. rewrite !blen_cons, blen_app, blen_zeros by lia. lia. }
  pose proof (blen_nonneg (frame_payload f)). dlia.
Qed.

(** A backup can be restored. For every non-empty list of at most 65535 frames
    with payloads of at most 16 MB, a 32-byte key and a 16-byte salt, the archive is
    built, and parsing it with the same key gives back exactly these frames, in
    order, with the salt. Its size shows only how many 1024-byte blocks each payload
    fills. *)
Theorem backup_roundtrip frames key salt nonce :
  frames <> [] -> Z.of_nat (length frames) <= BACKUP_MAX_FRAMES -> payloads_ok frames ->
  blen key = BACKUP_KEY_BYTES -> blen salt = BACKUP_SALT_BYTES ->
  (forall k, blen (nonce k) = BACKUP_NONCE_BYTES) ->
  exists a, buildBackupArchive frames key salt nonce = Ok a /\ archive_salt a = salt /\
    parseBackupArchive (archive_bytes a) key = Ok (mkParsed frames salt BACKUP_FORMAT_VERSION) /\
    blen (archive_bytes a) =
      32 + foldr (fun f sum => sum + (49 + padded_size (blen (frame_payload f)))) 0 frames.
Proof.
  intros Hne Hmax Hp Hk Hs Hn. unfold BACKUP_MAX_FRAMES in Hmax.
  assert (Hlen : 0 < Z.of_nat (length frames)) by (destruct frames; cbn; [done|lia]).
  unfold buildBackupArchive. unfold BACKUP_MAX_FRAMES. rewrite Hk, Hs, !Z.eqb_refl. ztest. cbn [negb].
  destruct (encode_frames_ok key nonce (Z.of_nat (length frames)) frames 0 Hp Hn) as (es & Ee & He).
  pose proof (encodes_nonces _ _ _ _ _ He) as Hns. pose proof (sizes_nonneg es) as Hsz.
  rewrite Ee, bind_ok. fold (sizes es).
  pose proof (write_header (sizes es) (Z.of_nat (length frames)) salt Hsz Hs) as Hw.
  set (m1 := u8_set (zeros _) 0 _) in Hw |- *. destruct m1 as [o1|]; [|done].
  rewrite bind_ok in Hw. rewrite bind_ok.
  set (m2 := set_u16 _ 6 _) in Hw |- *. destruct m2 as [o2|]; [|done].
  rewrite bind_ok in Hw. rewrite bind_ok, Hw, bind_ok.
  pose proof (blen_archive_header (Z.of_nat (length frames)) salt Hs) as Hh.
  rewrite (write_frames_ok es 0), bind_ok by done. rewrite write_indexes_ok, bind_ok by done.
  eexists. split; [done|]. cbn [archive_salt archive_bytes]. split; [done|].
  split; [|by rewrite blen_app, Hh, blen_frames_layout, (encode_frames_sizes _ _ _ _ _ _ Ee)].
  unfold parseBackupArchive. rewrite read_header, bind_ok by (done || lia). rewrite Hk, Z.eqb_refl.
  cbn [negb frameCount header_salt formatVersion]. rewrite Nat2Z.id.
  unfold BACKUP_HEADER_BYTES. rewrite <- Hh.
  rewrite (parse_frames_ok key _ frames 0 es _ He) by lia. rewrite bind_ok. cbn [fst snd].
  by rewrite Z.eqb_refl.
Qed.

(** Every frame that is accepted was opened under its own type, index and count. *)
Lemma parse_frames_opened key count k : forall b i off fs off',
  parse_frames k b key count i off = Ok (fs, off') ->
  length fs = k /\ forall j f, fs !! j = Some f -> exists nonce ct padded,
    aeadOpen key nonce ct (frameAad (type_code (frame_type f)) (i + Z.of_nat j) count) = Some padded /\
    unpadBackupPayload padded = Ok (frame_payload f).
Proof.
  induction k as [|k IH]; intros b i off fs off' E; cbn [parse_frames] in E; [by simplify_eq|].
  destruct (blen b <? _); [done|]. destruct (get_u32 b (off + 1)) as [index|]; [|done].
  rewrite bind_ok in E. destruct (negb _) eqn:Ei; [done|]. bools. subst index.
  destruct (type_of_code _) as [t|] eqn:Et; [|done]. apply type_of_code_some in Et. rewrite Et in E.
  destruct (get_u32 b (off + 5 + _)) as [len|]; [|done]. rewrite bind_ok in E.
  destruct ((len <? _) || _); [done|]. destruct (aeadOpen _ _ _ _) as [padded|] eqn:Eo; [|done].
  destruct (unpadBackupPayload padded) as [payload|] eqn:Eu; [|done]. rewrite bind_ok in E.
  destruct (parse_frames k _ _ _ _ _) as [[rest r]|] eqn:Er; [|done]. rewrite bind_ok in E.
  injection E as <- <-. destruct (IH _ _ _ _ _ Er) as [Hl Hj]. cbn [fst length]. split; [by rewrite Hl|].
  intros [|j] f Hf; cbn in Hf.
  - injection Hf as <-. rewrite Z.add_0_r. eauto 6.
  - replace (i + Z.of_nat (S j)) with (i + 1 + Z.of_nat j) by lia. by apply Hj.
Qed.

(** What authenticated encryption promises for a key that sealed one archive:
    nothing else opens under it. *)
Definition sealed_only (key : bytes) (frames : list BackupFrame) : Prop :=
  forall nonce ct aad padded, aeadOpen key nonce ct aad = Some padded ->
  exists j f, frames !! j = Some f /\
    aad = frameAad (type_code (frame_type f)) (Z.of_nat j) (Z.of_nat (length frames)) /\
    padBackupPayload (frame_payload f) = Ok padded.

End BackupLemmas.

(** ** Concrete instances *)
Module ToyBackup.
#[export] Instance toy_backup : BackupCryptoBackend := {|
  aeadSeal k n p a := p ++ Toy.toy_tag p (n ++ a) k;
  aeadOpen k n c a :=
    match Toy.toy_decrypt c (n ++ a) k with Ok p => Some p | Err _ => None end |}.

#[export] Instance toy_backup_laws : BackupCryptoLaws.
Proof.
  split; intros k n p a.
  - pose proof (aead_correct (SodiumLaws := Toy.toy_laws) p (n ++ a) k) as Hc.
    cbn in Hc |- *. by rewrite Hc.
  - apply (aead_length (SodiumLaws := Toy.toy_laws) p (n ++ a) k).
Qed.

Definition demo_frames : list BackupFrame := [mkFrame Account (ascii_bytes "alice")].
Definition demo_padded : bytes := be32 5 ++ ascii_bytes "alice" ++ zeros 1015.

(** A key under which only the frame of [demo_frames] opens. *)
Definition one_archive : BackupCryptoBackend := {|
  aeadSeal k n p a := p ++ Toy.toy_tag p (n ++ a) k;
  aeadOpen k n c a :=
    if bool_decide (a = frameAad 1 0 1 /\ take 1024 c = demo_padded) then Some demo_padded else None |}.

Definition demo_archive : bytes :=
  match buildBackupArchive (H := one_archive) demo_frames (zeros 32) (zeros 16) (fun _ => zeros 24) with
  | Ok a => archive_bytes a | Err _ => [] end.
End ToyBackup.
Import ToyBackup.

Lemma backup_roundtrip_witness :
  exists a, buildBackupArchive demo_frames (zeros 32) (zeros 16) (fun _ => zeros 24) = Ok a /\
    parseBackupArchive (archive_bytes a) (zeros 32) =
      Ok (mkParsed demo_frames (zeros 16) BACKUP_FORMAT_VERSION).
Proof.
  destruct (backup_roundtrip demo_frames (zeros 32) (zeros 16) (fun _ => zeros 24))
    as (a & Hb & _ & Hp & _); try done.
  - by repeat constructor.
  - exists a. split; [exact Hb|exact Hp].
Defined.

