(* ===== verification/BackupPayload.v ===== *)
(** What a backup archive holds: web/src/lib/backupPayload.ts maps the tables of the
    local database to frames and back, web/src/lib/backupRestore.ts reads a database
    into an archive and writes an archive into a database. Built on BackupFormat
    (the bytes of an archive) and Json. Dexie, the codec of byte strings and what
    a JavaScript engine makes of dates are interfaces. *)
From stdpp Require Import pretty.
From S2P Require Import Prelude Bytes Base64 Utf8 Text Js JsDate PqWire Sodium LocalAtRest Json BackupFormat.

(** A value of a database row: what structured clone keeps. [VView] is a Uint8Array,
    [VBuffer] an ArrayBuffer, [VDate None] an invalid Date; an object is the list of
    its own enumerable fields in order. [VOther] is a value whose [typeof] is
    function, symbol or bigint, with the text [String] makes of it. *)
Inductive bval :=
| VUndef
| VNull
| VBool (b : bool)
| VNum (z : Z)
| VStr (s : jstr)
| VBuffer (b : bytes)
| VView (b : bytes)
| VDate (t : option Z)
| VArr (l : list bval)
| VObj (fields : list (jstr * bval))
| VOther (type : string) (text : jstr).

(** [BackupValueCodec] *)
Class BackupValueCodec := {
  encodeBytes : bytes -> string;
  decodeBytes : string -> result bytes }.
Class BackupValueCodecLaws `{BackupValueCodec} := {
  codec_correct : forall b, decodeBytes (encodeBytes b) = Ok b }.

#[export] Instance libsodiumBackupValueCodec `{Sodium} : BackupValueCodec := {|
  encodeBytes b := to_base64 b;
  decodeBytes text := from_base64 text |}.
#[export] Instance libsodium_codec_laws `{SodiumLaws} : BackupValueCodecLaws.
Proof. split. apply base64_correct. Qed.

(** What depends on the engine and its time zone: the text of a Date, and how a text
    that is not in ISO format is read as a Date. *)
Class JsEngine := {
  date_text : option Z -> jstr;
  date_other : jstr -> option Z }.

(** The calls of Dexie on one database: [table(name).toArray()], [clear()],
    [bulkPut(items)]. *)
Class Dexie := {
  database : Type;
  toArray : database -> jstr -> list bval;
  clear : jstr -> database -> database;
  bulkPut : jstr -> list bval -> database -> result database }.

Module Payload.

Definition TAGGED_UINT8 : jstr := js "Uint8Array".
Definition TAGGED_DATE : jstr := js "Date".
Definition MAX_VALUE_DEPTH : Z := 32.
Definition BACKUP_CHUNK_BYTES : Z := 256 * 1024.

Definition BACKUP_TABLE_FRAME_TYPE : list (jstr * Backup.BackupFrameType) :=
  map (fun p => (js p.1, p.2))
  [("identityKeys", Backup.Account); ("preKeys", Backup.Account); ("sessionKeys", Backup.Account);
   ("ratchetSessions", Backup.Account); ("pqDrSessionsV2", Backup.Account);
   ("contacts", Backup.Contacts);
   ("conversations", Backup.Conversation); ("groupKeys", Backup.Conversation);
   ("groupSenderStates", Backup.Conversation); ("groupReceiverStates", Backup.Conversation);
   ("groupSkippedKeys", Backup.Conversation); ("groupCachedParticipants", Backup.Conversation);
   ("messages", Backup.Message); ("messageKeys", Backup.Message); ("skippedKeys", Backup.Message);
   ("pendingHeaders", Backup.Message); ("offlineQueue", Backup.Message);
   ("storyKeys", Backup.Story);
   ("kvStore", Backup.Settings); ("profileCache", Backup.Settings)]%string.

Definition BACKUP_TABLE_ORDER : list jstr := BACKUP_TABLE_FRAME_TYPE.*1.

Definition BACKUP_TABLE_KEY_PATH : list (jstr * jstr) :=
  map (fun p => (js p.1, js p.2))
  [("messages", "id"); ("messageKeys", "messageId"); ("storyKeys", "storyId"); ("offlineQueue", "tempId");
   ("identityKeys", "userId"); ("groupReceiverStates", "id"); ("groupSkippedKeys", "key");
   ("sessionKeys", "storageKey"); ("groupKeys", "conversationId"); ("preKeys", "keyId");
   ("ratchetSessions", "conversationId"); ("groupSenderStates", "conversationId");
   ("skippedKeys", "headerKey"); ("pendingHeaders", "conversationId"); ("pqDrSessionsV2", "id");
   ("kvStore", "key"); ("contacts", "userId"); ("conversations", "id"); ("profileCache", "id");
   ("groupCachedParticipants", "conversationId")]%string.

(** The names [in] finds on every object. *)
Definition object_prototype : list jstr :=
  map js ["constructor"; "__defineGetter__"; "__defineSetter__"; "hasOwnProperty"; "__lookupGetter__";
          "__lookupSetter__"; "isPrototypeOf"; "propertyIsEnumerable"; "toString"; "valueOf";
          "__proto__"; "toLocaleString"]%string.

(** [table in BACKUP_TABLE_FRAME_TYPE] *)
Definition in_frame_type (table : jstr) : bool :=
  bool_decide (table ∈ BACKUP_TABLE_ORDER) || bool_decide (table ∈ object_prototype).

Definition frame_type_of (table : jstr) : option Backup.BackupFrameType := assoc table BACKUP_TABLE_FRAME_TYPE.

(** ** JSON.stringify with absent values *)

Definition is_undef (v : jsval) : bool := match v with JUndef => true | _ => false end.

(** [JSON.stringify] leaves out absent fields and writes an absent item as null. *)
Fixpoint plain (v : jsval) : jsval :=
  match v with
  | JUndef => JNull
  | JArr l => JArr (map plain l)
  | JObj fields => JObj (concat (map (fun f => if is_undef f.2 then [] else [(f.1, plain f.2)]) fields))
  | v => v
  end.

Definition stringify (v : jsval) : jstr := JSON_stringify (plain v).

(** [out[key] = item] for every entry: [__proto__] sets the prototype and leaves no field. *)
Definition assign_fields {A} (fields : list (jstr * A)) : list (jstr * A) :=
  filter (fun f => f.1 <> js "__proto__") fields.

(** [record.__type === tag] *)
Definition type_is (fields : list (jstr * jsval)) (tag : jstr) : bool :=
  match assoc (js "__type") fields with Some (JStr s) => bool_decide (s = tag) | _ => false end.

Definition has_key {A} (k : jstr) (fields : list (jstr * A)) : bool :=
  match assoc k fields with Some _ => true | None => false end.

Section Values.
Context `{BackupValueCodec} `{JsEngine}.

Definition tagged (tag data : jstr) : jsval := JObj [(js "__type", JStr tag); (js "data", JStr data)].

Fixpoint encodeBackupValue (depth : Z) (value : bval) : result jsval :=
  if MAX_VALUE_DEPTH <? depth then throw "Struktur payload terlalu dalam" else
  match value with
  | VNull => Ok JNull
  | VUndef => Ok JUndef
  | VBuffer b | VView b => Ok (tagged TAGGED_UINT8 (js (encodeBytes b)))
  | VDate t =>
      match t ≫= toISOString with
      | Some s => Ok (tagged TAGGED_DATE s)
      | None => throw "Invalid time value"
      end
  | VArr l => items ← mapR (encodeBackupValue (depth + 1)) l; Ok (JArr items)
  | VOther _ _ => throw "Tipe nilai tidak didukung backup"
  | VObj fields =>
      out ← mapR (fun f => item ← encodeBackupValue (depth + 1) f.2; Ok (f.1, item)) fields;
      Ok (JObj (assign_fields out))
  | VBool b => Ok (JBool b)
  | VNum z => Ok (JNum z)
  | VStr s => Ok (JStr s)
  end.

Fixpoint decodeBackupValue (depth : Z) (value : jsval) : result bval :=
  if MAX_VALUE_DEPTH <? depth then throw "Struktur payload terlalu dalam" else
  match value with
  | JUndef => Ok VUndef
  | JNull => Ok VNull
  | JArr l => items ← mapR (decodeBackupValue (depth + 1)) l; Ok (VArr items)
  | JObj fields =>
      if type_is fields TAGGED_UINT8 then
        match assoc (js "data") fields with
        | Some (JStr d) =>
            match of_js d with
            | Some text => b ← decodeBytes text; Ok (VView b)
            | None => throw "invalid input"
            end
        | _ => throw "Nilai Uint8Array tanpa data"
        end
      else if type_is fields TAGGED_DATE then
        match assoc (js "data") fields with
        | Some (JStr d) =>
            match date_parse date_other d with
            | Some t => Ok (VDate (Some t))
            | None => throw "Nilai Date tidak sah"
            end
        | _ => throw "Nilai Date tanpa data"
        end
      else if has_key (js "__type") fields then throw "Penanda nilai tidak dikenal" else
      out ← mapR (fun f => item ← decodeBackupValue (depth + 1) f.2; Ok (f.1, item)) fields;
      Ok (VObj (assign_fields out))
  | JBool b => Ok (VBool b)
  | JNum z => Ok (VNum z)
  | JStr s => Ok (VStr s)
  end.

(** [String(value)] *)
Fixpoint to_String (v : bval) : jstr :=
  match v with
  | VUndef => js "undefined"
  | VNull => js "null"
  | VBool b => js (if b then "true" else "false")
  | VNum z => js (pretty z)
  | VStr s => s
  | VBuffer _ => js "[object ArrayBuffer]"
  | VView b => join 44 (map (fun x => js (pretty (b2z x))) b)
  | VDate t => date_text t
  | VArr l => join 44 (map (fun x => match x with VUndef | VNull => [] | _ => to_String x end) l)
  | VObj _ => js "[object Object]"
  | VOther _ text => text
  end.

(** [(record as Record<string, unknown> | null)?.[keyPath]] *)
Definition field (record : bval) (keyPath : jstr) : bval :=
  match record with VObj fields => default VUndef (assoc keyPath fields) | _ => VUndef end.

(** [s.padStart(16, '0')] *)
Definition padStart16 (s : jstr) : jstr := replicate (16 - length s) 48 ++ s.

Definition keyPath_of (table : jstr) : jstr := default (js "undefined") (assoc table BACKUP_TABLE_KEY_PATH).

Definition recordSortKey (table : jstr) (record : bval) : result jstr :=
  match field record (keyPath_of table) with
  | VUndef | VNull => throw "Catatan tanpa kunci"
  | VNum z => Ok (js "#" ++ padStart16 (js (pretty z)))
  | value => Ok (js "s" ++ to_String value)
  end.
End Values.

(** ** The order of texts: by UTF-16 code units *)
Definition units1 (c : Z) : list Z :=
  if c <? 65536 then [c] else [55296 + (c - 65536) / 1024; 56320 + (c - 65536) mod 1024].
Definition units (s : jstr) : list Z := concat (map units1 s).

Fixpoint lex_ltb (a b : list Z) : bool :=
  match a, b with
  | _, [] => false
  | [], _ :: _ => true
  | x :: a', y :: b' => (x <? y) || ((x =? y) && lex_ltb a' b')
  end.
Definition js_ltb (a b : jstr) : bool := lex_ltb (units a) (units b).

(** [Array.prototype.sort], which is stable, with the comparison of sort keys. *)
Fixpoint insert_entry {A} (e : jstr * A) (l : list (jstr * A)) : list (jstr * A) :=
  match l with
  | [] => [e]
  | y :: l' => if js_ltb y.1 e.1 then y :: insert_entry e l' else e :: y :: l'
  end.
Definition sort_entries {A} (l : list (jstr * A)) : list (jstr * A) := foldr insert_entry [] l.

(** ** 32-bit operators of JavaScript *)
Definition uint32 (z : Z) : Z := z mod 4294967296.
Definition int32 (z : Z) : Z := if uint32 z <? 2147483648 then uint32 z else uint32 z - 4294967296.
Definition js_xor (a b : Z) : Z := int32 (Z.lxor (int32 a) (int32 b)).
Definition js_shl (a n : Z) : Z := int32 (Z.shiftl (int32 a) n).
Definition js_shru (a n : Z) : Z := Z.shiftr (uint32 a) n.
Definition imul (a b : Z) : Z := int32 (a * b).

(** The seed of [scrambleBackupFrames]: FNV-1a over the key, then the number of frames. *)
Definition fnv_step (state : Z) (b : byte) : Z :=
  let state := js_xor state (b2z b) in
  js_shru (imul state 16777619) 0.
Definition scramble_seed (key : bytes) (count : Z) : Z :=
  js_xor (foldl fnv_step 2166136261 key) (js_shru count 0).

(** [next()]: the value returned is the new state. *)
Definition next (state : Z) : Z :=
  let state := js_xor state (js_shl state 13) in
  let state := js_shru state 0 in
  let state := js_xor state (js_shru state 17) in
  let state := js_xor state (js_shl state 5) in
  js_shru state 0.

(** The exchange of [out[i]] and [out[j]]; an index outside the array does not occur
    (see [shuffle_index]). *)
Definition exchange {A} (i j : nat) (out : list A) : list A :=
  match out !! i, out !! j with
  | Some tmp, Some o => <[j := tmp]> (<[i := o]> out)
  | _, _ => out
  end.

(** The loop from index [i] down to 1. *)
Fixpoint shuffle {A} (i : nat) (state : Z) (out : list A) : list A :=
  match i with
  | 0%nat => out
  | S i' =>
      let state := next state in
      let j := Z.rem state (Z.of_nat i + 1) in
      shuffle i' state (exchange i (Z.to_nat j) out)
  end.

Definition scrambleBackupFrames {A} (frames : list A) (key : bytes) : result (list A) :=
  if blen key =? 0 then throw "Scramble butuh kunci backup" else
  Ok (shuffle (length frames - 1) (scramble_seed key (Z.of_nat (length frames))) frames).

Record BackupChunk := mkChunk { chunk_table : jstr; chunk_records : list bval; chunk_k : option jstr }.

(** Records by table name; a table whose value is undefined is absent. *)
Definition tables := list (jstr * list bval).

(** [opts.marker ? { k: opts.marker } : {}] *)
Definition marker_fields (marker : option jstr) : list (jstr * jsval) :=
  match marker with Some ((_ :: _) as m) => [(js "k", JStr m)] | _ => [] end.

Definition chunk_payload (table : jstr) (marker : option jstr) (chunk : list jsval) : bytes :=
  utf8_encode (stringify (JObj ([(js "table", JStr table); (js "records", JArr chunk)] ++ marker_fields marker))).

(** [flush]: what it pushes. *)
Definition flush (table : jstr) (type : Backup.BackupFrameType) (marker : option jstr) (chunk : list jsval)
  : list Backup.BackupFrame :=
  match chunk with [] => [] | _ => [Backup.mkFrame type (chunk_payload table marker chunk)] end.

Section Frames.
Context `{BackupValueCodec} `{JsEngine}.

(** The loop over the sorted records of a table, and the last [flush]. *)
Fixpoint fill (table : jstr) (type : Backup.BackupFrameType) (marker : option jstr) (chunkBytes : Z)
    (sorted : list bval) (chunk : list jsval) (chunkSize : Z) : result (list Backup.BackupFrame) :=
  match sorted with
  | [] => Ok (flush table type marker chunk)
  | record :: sorted' =>
      encoded ← encodeBackupValue 0 record;
      let size := js_length (stringify encoded) in
      if Backup.BACKUP_MAX_PAYLOAD_BYTES <? size then throw "Catatan terlalu besar untuk satu frame" else
      if (0 <? Z.of_nat (length chunk)) && (chunkBytes <? chunkSize + size) then
        rest ← fill table type marker chunkBytes sorted' [encoded] size;
        Ok (flush table type marker chunk ++ rest)
      else fill table type marker chunkBytes sorted' (chunk ++ [encoded]) (chunkSize + size)
  end.

Definition sort_records (table : jstr) (records : list bval) : result (list bval) :=
  entries ← mapR (fun record => k ← recordSortKey table record; Ok (k, record)) records;
  Ok (sort_entries entries).*2.

(** The body of the loop over [BACKUP_TABLE_ORDER]. *)
Definition table_frames (recordsByTable : tables) (marker : option jstr) (chunkBytes : Z)
    (entry : jstr * Backup.BackupFrameType) : result (list Backup.BackupFrame) :=
  match assoc entry.1 recordsByTable with
  | None | Some [] => Ok []
  | Some records =>
      sorted ← sort_records entry.1 records;
      fill entry.1 entry.2 marker chunkBytes sorted [] 0
  end.

Record BuildOptions := mkOptions {
  opt_records : tables; opt_chunkBytes : option Z; opt_key : bytes; opt_scramble : bool;
  opt_marker : option jstr }.

Definition buildBackupFrames (opts : BuildOptions) : result (list Backup.BackupFrame) :=
  let chunkBytes := default BACKUP_CHUNK_BYTES (opt_chunkBytes opts) in
  if chunkBytes <? 128 then throw "Ambang chunk terlalu kecil" else
  if negb (forallb in_frame_type (opt_records opts).*1) then throw "Tabel tidak dikenal untuk backup" else
  lists ← mapR (table_frames (opt_records opts) (opt_marker opts) chunkBytes) BACKUP_TABLE_FRAME_TYPE;
  let frames := concat lists in
  if Z.of_nat (length frames) =? 0 then throw "Tidak ada catatan untuk di-backup" else
  if Backup.BACKUP_MAX_FRAMES <? Z.of_nat (length frames) then throw "Terlalu banyak frame" else
  if opt_scramble opts then scrambleBackupFrames frames (opt_key opts) else Ok frames.

(** A frame has one of the seven types, so [KNOWN_FRAME_TYPES] holds it. *)
Definition readBackupChunk (frame : Backup.BackupFrame) : result BackupChunk :=
  if Backup.BACKUP_MAX_PAYLOAD_BYTES <? blen (Backup.frame_payload frame)
  then throw "Payload frame melebihi batas" else
  match JSON_parse (utf8_decode (Backup.frame_payload frame)) with
  | None => throw "Payload frame bukan JSON yang sah"
  | Some ((JObj _) as chunk) =>
      match prop chunk "table" with
      | JStr table =>
          if negb (in_frame_type table) then throw "Chunk menunjuk tabel tidak dikenal" else
          match prop chunk "records" with
          | JArr records =>
              marker ← match prop chunk "k" with
                       | JUndef => Ok None
                       | JStr k => if (js_length k =? 0) || (32 <? js_length k)
                                   then throw "Penanda jenis arsip tidak sah" else Ok (Some k)
                       | _ => throw "Penanda jenis arsip tidak sah"
                       end;
              if negb (bool_decide (option_map Backup.type_code (frame_type_of table) =
                                    Some (Backup.type_code (Backup.frame_type frame))))
              then throw "Tipe frame tidak cocok dengan tabel" else
              decoded ← mapR (decodeBackupValue 0) records;
              Ok (mkChunk table decoded marker)
          | _ => throw "Chunk tanpa daftar records"
          end
      | _ => throw "Chunk menunjuk tabel tidak dikenal"
      end
  | Some _ => throw "Payload frame bukan objek chunk"
  end.

Definition readBackupChunks (frames : list Backup.BackupFrame) : result (list BackupChunk) :=
  mapR readBackupChunk frames.

(** [out[table].push(...records)], creating the list when the table is new. *)
Definition push_records (out : tables) (chunk : BackupChunk) : tables :=
  map_set (chunk_table chunk) (default [] (assoc (chunk_table chunk) out) ++ chunk_records chunk) out.

Definition chunksToRecordsByTable (chunks : list BackupChunk) : tables := foldl push_records [] chunks.
End Frames.

(** ** Values survive *)

Lemma bval_nested_ind (P : bval -> Prop) :
  P VUndef -> P VNull -> (forall b, P (VBool b)) -> (forall z, P (VNum z)) -> (forall s, P (VStr s)) ->
  (forall b, P (VBuffer b)) -> (forall b, P (VView b)) -> (forall t, P (VDate t)) ->
  (forall l, Forall P l -> P (VArr l)) -> (forall l, Forall (fun f => P f.2) l -> P (VObj l)) ->
  (forall t s, P (VOther t s)) -> forall v, P v.
Proof.
  intros Hu Hn Hb Hz Hs Hbuf Hv Hd Ha Ho Hx. fix IH 1. intros [| |b|z|s|b|b|t|l|l|t s];
    [exact Hu|exact Hn|apply Hb|apply Hz|apply Hs|apply Hbuf|apply Hv|apply Hd| | |apply Hx].
  - apply Ha. induction l as [|v l IHl]; constructor; [apply IH|exact IHl].
  - apply Ho. induction l as [|[k v] l IHl]; constructor; [apply IH|exact IHl].
Qed.

Definition is_absent (v : bval) : bool := match v with VUndef => true | _ => false end.

(** A key the codec can carry: it neither sets a prototype nor looks like a tag. *)
Definition key_ok (k : jstr) : bool :=
  forallb scalar k && negb (bool_decide (k = js "__proto__")) && negb (bool_decide (k = js "__type")).

(** Values of the tables: whole numbers that a double holds, valid dates of the years
    1970 to 9999, texts without lone surrogates, fields with distinct keys. *)
Fixpoint value_ok (v : bval) : bool :=
  match v with
  | VUndef | VNull | VBool _ | VBuffer _ | VView _ => true
  | VNum z => Z.abs z <? 9007199254740992
  | VStr s => forallb scalar s
  | VDate (Some t) => (0 <=? t) && (t <? 253402300800000)
  | VDate None | VOther _ _ => false
  | VArr l => forallb value_ok l
  | VObj fields => bool_decide (NoDup fields.*1) && forallb (fun f => key_ok f.1 && value_ok f.2) fields
  end.

(** How deep a value is nested. *)
Fixpoint height (v : bval) : Z :=
  match v with
  | VArr l => foldr (fun h m => Z.max (1 + h) m) 0 (map height l)
  | VObj fields => foldr (fun h m => Z.max (1 + h) m) 0 (map (fun f => height f.2) fields)
  | _ => 0
  end.

(** What comes back: absent fields are gone, absent items are null, an ArrayBuffer is
    a Uint8Array. *)
Fixpoint strip (v : bval) : bval :=
  match v with
  | VUndef => VNull
  | VBuffer b => VView b
  | VArr l => VArr (map strip l)
  | VObj fields => VObj (concat (map (fun f => if is_absent f.2 then [] else [(f.1, strip f.2)]) fields))
  | v => v
  end.

Lemma height_nonneg_list l : 0 <= foldr (fun h m => Z.max (1 + h) m) 0 l.
Proof. destruct l; cbn; [lia|]. induction l; cbn in *; lia. Qed.

Lemma height_elem h l : h ∈ l -> 1 + h <= foldr (fun h m => Z.max (1 + h) m) 0 l.
Proof. induction l as [|x l IH]; [set_solver|]. cbn. intros [->|Hh]%elem_of_cons; [lia|apply IH in Hh; lia]. Qed.

Lemma height_nonneg v : 0 <= height v.
Proof. destruct v; cbn; try lia; apply height_nonneg_list. Qed.

Lemma mapR_map {A B C} (f : B -> result C) (h : A -> B) l : mapR f (map h l) = mapR (fun a => f (h a)) l.
Proof. induction l as [|a l IH]; [done|]. cbn. by rewrite IH. Qed.

Lemma concat_live {A B} (p : A -> bool) (h : A -> B) l :
  concat (map (fun a => if p a then [] else [h a]) l) = map h (List.filter (fun a => negb (p a)) l).
Proof. induction l as [|a l IH]; [done|]. cbn. rewrite IH. by destruct (p a). Qed.

(** The fields that are present. *)
Definition live (fields : list (jstr * bval)) : list (jstr * bval) :=
  List.filter (fun f => negb (is_absent f.2)) fields.

Lemma live_elem fields f : f ∈ live fields -> f ∈ fields /\ is_absent f.2 = false.
Proof.
  unfold live. intros H%list_elem_of_In. apply filter_In in H as [H Hn%negb_true_iff].
  split; [by apply list_elem_of_In|done].
Qed.

Lemma live_sublist fields : (live fields).*1 `sublist_of` fields.*1.
Proof.
  induction fields as [|[k v] l IH]; [constructor|]. cbn. destruct (is_absent v); cbn; by constructor.
Qed.

Lemma assign_fields_id {A B} (g : jstr * A -> B) (l : list (jstr * A)) :
  Forall (fun f => f.1 <> js "__proto__") l ->
  assign_fields (map (fun f => (f.1, g f)) l) = map (fun f => (f.1, g f)) l.
Proof.
  unfold assign_fields. induction 1 as [|f l Hf Hl IH]; [done|]. cbn [map].
  rewrite filter_cons_True by done. by rewrite IH.
Qed.

Lemma fields_ok l : forallb (fun f => key_ok f.1 && value_ok f.2) l = true ->
  forall f, f ∈ l -> forallb scalar f.1 = true /\ f.1 <> js "__proto__" /\ f.1 <> js "__type" /\ value_ok f.2 = true.
Proof.
  rewrite forallb_forall. intros H f Hf. apply list_elem_of_In, H in Hf. unfold key_ok in Hf. bools.
  by rewrite !bool_decide_eq_false in *.
Qed.

Lemma assoc_none {A} k (l : list (jstr * A)) : Forall (fun f => f.1 <> k) l -> assoc k l = None.
Proof.
  induction 1 as [|[k' a] l Hk Hl IH]; [done|]. cbn. cbn in Hk. rewrite bool_decide_eq_false_2; [done|congruence].
Qed.

Lemma iso_scalar t s : toISOString t = Some s -> forallb scalar s = true.
Proof.
  assert (Hd : forall n v, forallb scalar (JsDate.digits n v) = true).
  { induction n as [|n IH]; intros v; [done|]. cbn [JsDate.digits]. rewrite forallb_app, IH. cbn.
    pose proof (Z.mod_pos_bound v 10 ltac:(lia)). unfold scalar. lia. }
  unfold toISOString. destruct (_ <=? _); [|done]. destruct (civil_from_days _) as [[y m] d].
  intros Hs. apply (inj Some) in Hs. subst s. rewrite !forallb_app, !Hd.
  destruct ((0 <=? y) && (y <=? 9999)); [by rewrite Hd|].
  destruct (y <? 0); by rewrite forallb_app, Hd.
Qed.
(** The encoding of a value that nests within the limit. *)
Section ValueLemmas.
Context `{CL : BackupValueCodecLaws} `{JsEngine}.

Fixpoint enc (v : bval) : jsval :=
  match v with
  | VUndef => JUndef
  | VNull | VOther _ _ => JNull
  | VBool b => JBool b
  | VNum z => JNum z
  | VStr s => JStr s
  | VBuffer b | VView b => tagged TAGGED_UINT8 (js (encodeBytes b))
  | VDate t => tagged TAGGED_DATE (default [] (t ≫= toISOString))
  | VArr l => JArr (map enc l)
  | VObj fields => JObj (map (fun f => (f.1, enc f.2)) fields)
  end.

Lemma enc_undef v : is_undef (enc v) = is_absent v.
Proof. by destruct v. Qed.

Lemma plain_obj fields :
  plain (enc (VObj fields)) = JObj (map (fun f => (f.1, plain (enc f.2))) (live fields)).
Proof.
  cbn. f_equal. rewrite map_map. cbn. unfold live. rewrite <- concat_live. f_equal.
  apply map_ext. intros f. by rewrite enc_undef.
Qed.

Lemma strip_obj fields : strip (VObj fields) = VObj (map (fun f => (f.1, strip f.2)) (live fields)).
Proof. cbn. by rewrite concat_live. Qed.

Lemma encode_enc v : forall d, value_ok v = true -> d + height v <= MAX_VALUE_DEPTH ->
  encodeBackupValue d v = Ok (enc v).
Proof.
  induction v as [| |b|z|s|b|b|t|l IH|l IH|t s] using bval_nested_ind; intros d Hok Hd;
    cbn [encodeBackupValue]; try (cbn in Hd; by ztest).
  - cbn in Hd. ztest. destruct t as [t|]; [|done]. cbn in Hok. bools.
    destruct (iso_roundtrip t) as (s & Hs & _); [unfold iso_range; lia|]. cbn -[toISOString]. by rewrite Hs.
  - cbn in Hd. pose proof (height_nonneg_list (map height l)). ztest.
    rewrite (mapR_ok _ enc); [done|]. intros x Hx. apply (proj1 (Forall_forall _ _) IH); [done| |].
    + cbn in Hok. rewrite forallb_forall in Hok. by apply Hok, list_elem_of_In.
    + assert (height x ∈ map height l) as Hh by (by apply list_elem_of_fmap_2).
      apply height_elem in Hh. lia.
  - cbn in Hd. pose proof (height_nonneg_list (map (fun f => height f.2) l)). ztest.
    cbn in Hok. bools. pose proof (fields_ok l ltac:(done)) as Hf.
    rewrite (mapR_ok _ (fun f => (f.1, enc f.2))).
    + rewrite bind_ok, (assign_fields_id (fun f => enc f.2)); [done|]. apply Forall_forall. intros f Hin.
      by apply Hf.
    + intros f Hin. rewrite (proj1 (Forall_forall _ _) IH f Hin); [done|by apply Hf|].
      assert (height f.2 ∈ map (fun f => height f.2) l) as Hh by (by apply (list_elem_of_fmap_2 (fun f => height f.2))).
      apply height_elem in Hh. lia.
Qed.

Lemma tagged_type tag d : type_is [(js "__type", JStr tag); (js "data", JStr d)] tag = true.
Proof. unfold type_is. cbn [assoc]. rewrite !bool_decide_eq_true_2; done. Qed.

Lemma tagged_data tag d : assoc (js "data") [(js "__type", JStr tag); (js "data", JStr d)] = Some (JStr d).
Proof. done. Qed.

Lemma decode_bytes d b : d <= MAX_VALUE_DEPTH ->
  decodeBackupValue d (tagged TAGGED_UINT8 (js (encodeBytes b))) = Ok (VView b).
Proof.
  intros Hd. unfold tagged. cbn [decodeBackupValue]. ztest.
  by rewrite tagged_type, tagged_data, of_js_js, codec_correct.
Qed.

Lemma decode_date d t s : d <= MAX_VALUE_DEPTH -> date_parse date_other s = Some t ->
  decodeBackupValue d (tagged TAGGED_DATE s) = Ok (VDate (Some t)).
Proof.
  intros Hd Hp. unfold tagged. cbn [decodeBackupValue]. ztest.
  rewrite tagged_type, tagged_data, Hp. by replace (type_is _ TAGGED_UINT8) with false by done.
Qed.

Lemma decode_enc v : forall d, value_ok v = true -> d + height v <= MAX_VALUE_DEPTH ->
  decodeBackupValue d (plain (enc v)) = Ok (strip v).
Proof.
  induction v as [| |b|z|s|b|b|t|l IH|l IH|t s] using bval_nested_ind; intros d Hok Hd.
  all: try (cbn in Hd; cbn; by ztest).
  - cbn in Hd. apply decode_bytes. lia.
  - cbn in Hd. apply decode_bytes. lia.
  - destruct t as [t|]; [|done]. cbn in Hok, Hd. bools.
    destruct (iso_roundtrip t) as (s & Hs & _ & Hp); [unfold iso_range; lia|].
    cbn [enc mbind option_bind]. rewrite Hs. apply decode_date; [lia|done].
  - cbn in Hd. pose proof (height_nonneg_list (map height l)). cbn. ztest. rewrite map_map, mapR_map.
    rewrite (mapR_ok _ strip); [done|]. intros x Hx. apply (proj1 (Forall_forall _ _) IH); [done| |].
    + cbn in Hok. rewrite forallb_forall in Hok. by apply Hok, list_elem_of_In.
    + assert (height x ∈ map height l) as Hh by (by apply list_elem_of_fmap_2).
      apply height_elem in Hh. lia.
  - cbn in Hd. pose proof (height_nonneg_list (map (fun f => height f.2) l)).
    cbn in Hok. bools. pose proof (fields_ok l ltac:(done)) as Hf. rewrite plain_obj, strip_obj.
    cbn [decodeBackupValue]. ztest.
    assert (Hn : assoc (js "__type") (map (fun f => (f.1, plain (enc f.2))) (live l)) = None).
    { apply assoc_none, Forall_forall. intros f [g [-> Hg]]%list_elem_of_fmap. apply live_elem in Hg as [Hg _].
      by apply Hf. }
    unfold type_is, has_key. rewrite Hn, mapR_map.
    rewrite (mapR_ok _ (fun f => (f.1, strip f.2))).
    + rewrite bind_ok, (assign_fields_id (fun f => strip f.2)); [done|]. apply Forall_forall. intros f Hin.
      apply live_elem in Hin as [Hin _]. by apply Hf.
    + intros f Hin. cbn [fst snd]. apply live_elem in Hin as [Hin _].
      rewrite (proj1 (Forall_forall _ _) IH f Hin); [done|by apply Hf|].
      assert (height f.2 ∈ map (fun f => height f.2) l) as Hh by (by apply (list_elem_of_fmap_2 (fun f => height f.2))).
      apply height_elem in Hh. lia.
Qed.

Lemma enc_strip v : plain (enc (strip v)) = plain (enc v).
Proof.
  induction v as [| |b|z|s|b|b|t|l IH|l IH|t s] using bval_nested_ind; try done.
  - cbn. rewrite !map_map. f_equal. apply map_ext_Forall. exact IH.
  - rewrite strip_obj, !plain_obj. f_equal. unfold live at 1. rewrite Forall_forall in IH.
    assert (Hl : forall f, f ∈ live l -> plain (enc (strip f.2)) = plain (enc f.2) /\ is_absent (strip f.2) = false).
    { intros f [Hf Ha]%live_elem. split; [by apply IH|]. by destruct f as [? []]. }
    induction (live l) as [|f fs IHf]; [done|]. destruct (Hl f ltac:(left)) as [He Ha]. cbn. rewrite Ha. cbn.
    rewrite He, IHf; [done|]. intros g Hg. apply Hl. by right.
Qed.

Lemma live_nodup fields : NoDup fields.*1 -> NoDup (live fields).*1.
Proof. intros Hn. exact (sublist_NoDup _ _ Hn (live_sublist fields)). Qed.

Lemma map_fst_fields {A B} (g : jstr * A -> B) (l : list (jstr * A)) : (map (fun f => (f.1, g f)) l).*1 = l.*1.
Proof. rewrite <- list_fmap_compose. by apply list_fmap_ext. Qed.

Lemma enc_json_ok v : value_ok v = true -> json_ok (plain (enc v)) = true.
Proof.
  assert (Ht : forall tag s, forallb scalar tag = true -> forallb scalar s = true -> json_ok (tagged tag s) = true).
  { intros tag s Htag Hs. unfold tagged. cbn -[js]. by rewrite Htag, Hs, !js_scalar. }
  induction v as [| |b|z|s|b|b|t|l IH|l IH|t s] using bval_nested_ind; intros Hok; try done.
  - apply Ht; [done|apply js_scalar].
  - apply Ht; [done|apply js_scalar].
  - destruct t as [t|]; [|done]. apply Ht; [done|]. cbn [mbind option_bind].
    destruct (toISOString t) as [s|] eqn:E; [by eapply iso_scalar|done].
  - cbn in Hok |- *. rewrite map_map. rewrite forallb_forall in Hok. apply forallb_forall.
    intros x Hx. apply in_map_iff in Hx as (y & <- & Hy). rewrite Forall_forall in IH.
    apply IH; [by apply list_elem_of_In|by apply Hok].
  - rewrite plain_obj. cbn in Hok |- *. bools. pose proof (fields_ok l ltac:(done)) as Hf.
    rewrite bool_decide_eq_true in *. apply andb_true_iff. split.
    + apply bool_decide_eq_true. rewrite (map_fst_fields (fun f => plain (enc f.2))). by apply live_nodup.
    + apply forallb_forall. intros x Hx. apply in_map_iff in Hx as (f & <- & Hy). cbn [fst snd].
      apply list_elem_of_In, live_elem in Hy as [Hy _]. destruct (Hf f Hy) as (Hk & _ & _ & Hv).
      rewrite Forall_forall in IH. by rewrite Hk, (IH f Hy).
Qed.

Lemma strip_ok v : value_ok v = true -> value_ok (strip v) = true.
Proof.
  induction v as [| |b|z|s|b|b|t|l IH|l IH|t s] using bval_nested_ind; intros Hok; try done.
  - cbn in Hok |- *. rewrite forallb_forall in Hok. apply forallb_forall.
    intros x Hx. apply in_map_iff in Hx as (y & <- & Hy). rewrite Forall_forall in IH.
    apply IH; [by apply list_elem_of_In|by apply Hok].
  - rewrite strip_obj. cbn in Hok |- *. apply andb_true_iff in Hok as [Hn Ho]. rewrite bool_decide_eq_true in Hn.
    apply andb_true_iff. split.
    + apply bool_decide_eq_true. rewrite (map_fst_fields (fun f => strip f.2)). by apply live_nodup.
    + rewrite forallb_forall in *. intros x Hx. apply in_map_iff in Hx as (f & <- & Hy). cbn [fst snd].
      apply list_elem_of_In, live_elem in Hy as [Hy _]. rewrite Forall_forall in IH.
      pose proof (Ho f ltac:(by apply list_elem_of_In)) as Hk. bools. by rewrite (IH f Hy), andb_true_r.
Qed.

Lemma strip_height v : height (strip v) <= height v.
Proof.
  assert (Hmono : forall A (g h : A -> Z) (l l' : list A), l' ⊆ l -> (forall a, a ∈ l -> g a <= h a) ->
    foldr (fun h m => Z.max (1 + h) m) 0 (map g l') <= foldr (fun h m => Z.max (1 + h) m) 0 (map h l)).
  { intros A g h l l' Hs Hg. pose proof (height_nonneg_list (map h l)). induction l' as [|a l' IH]; [done|].
    cbn. assert (h a ∈ map h l) as Hh by (apply list_elem_of_fmap_2; set_solver). apply height_elem in Hh.
    pose proof (Hg a ltac:(set_solver)). assert (l' ⊆ l) as Hs' by set_solver. apply IH in Hs'. lia. }
  induction v as [| |b|z|s|b|b|t|l IH|l IH|t s] using bval_nested_ind; try done; rewrite Forall_forall in IH.
  - cbn. rewrite map_map. apply Hmono; [done|]. exact IH.
  - rewrite strip_obj. cbn. rewrite map_map. apply (Hmono _ (fun f => height (strip f.2)) (fun f => height f.2)).
    + intros f Hf. by apply live_elem in Hf as [Hf _].
    + intros f Hf. by apply IH.
Qed.
End ValueLemmas.

(** ** The order of sort keys *)

Lemma lex_ltb_irrefl a : lex_ltb a a = false.
Proof. induction a as [|x a IH]; [done|]. cbn. rewrite IH. ztest. done. Qed.

Lemma lex_ltb_asym a : forall b, lex_ltb a b = true -> lex_ltb b a = false.
Proof.
  induction a as [|x a IH]; intros [|y b]; cbn; try done. rewrite orb_true_iff, andb_true_iff.
  intros [Hlt|[He Hab]]; bools.
  - by ztest.
  - subst. rewrite (IH b Hab). by ztest.
Qed.

Lemma lex_ltb_total a : forall b, a <> b -> lex_ltb a b = false -> lex_ltb b a = true.
Proof.
  induction a as [|x a IH]; intros [|y b] Hne; cbn; try done. rewrite orb_false_iff.
  intros [Hlt He]. bools. destruct (Z.eqb_spec x y) as [->|Hxy].
  - cbn in He. rewrite IH; [|congruence|done]. rewrite Z.eqb_refl. by rewrite orb_true_r.
  - by replace (y <? x) with true by lia.
Qed.

Lemma lex_ltb_trans a : forall b c, lex_ltb a b = true -> lex_ltb b c = true -> lex_ltb a c = true.
Proof.
  induction a as [|x a IH]; intros [|y b] [|z c]; cbn; try done.
  rewrite !orb_true_iff, !andb_true_iff. intros [H1|[H1 H2]] [H3|[H3 H4]]; bools; [left; lia..|].
  right. split; [lia|]. by eapply IH.
Qed.

(** Code units determine a text of scalar characters. *)
Lemma units_inj a : forall b, forallb scalar a = true -> forallb scalar b = true -> units a = units b -> a = b.
Proof.
  unfold units. induction a as [|x a IH]; intros [|y b]; cbn; intros Ha Hb E; try done.
  - unfold units1 in E. by destruct (y <? 65536).
  - unfold units1 in E. by destruct (x <? 65536).
  - apply andb_true_iff in Ha as [Hx Ha], Hb as [Hy Hb]. unfold units1 in E.
    assert (x = y /\ concat (map units1 a) = concat (map units1 b)) as [-> Et].
    { unfold scalar in Hx, Hy. destruct (Z.ltb_spec x 65536), (Z.ltb_spec y 65536); cbn [app] in E.
      - apply (inj2 cons) in E. tauto.
      - apply (inj2 cons) in E as [E _]. exfalso. dlia.
      - apply (inj2 cons) in E as [E _]. exfalso. dlia.
      - apply (inj2 cons) in E as [E1 E]. apply (inj2 cons) in E as [E2 E]. split; [dlia|done]. }
    f_equal. by apply IH.
Qed.

Section Sorting.
Context {A : Type}.
Implicit Types (l : list (jstr * A)).

Lemma insert_entry_perm e l : insert_entry e l ≡ₚ e :: l.
Proof.
  induction l as [|y l IH]; [done|]. cbn. destruct (js_ltb _ _); [|done]. rewrite IH. by constructor.
Qed.

Lemma sort_perm l : sort_entries l ≡ₚ l.
Proof. induction l as [|e l IH]; [done|]. cbn. by rewrite insert_entry_perm, IH. Qed.

Lemma insert_comm e f l : units e.1 <> units f.1 ->
  insert_entry e (insert_entry f l) = insert_entry f (insert_entry e l).
Proof.
  intros Hne. unfold js_ltb in *.
  induction l as [|y l IH]; cbn; unfold js_ltb.
  - destruct (lex_ltb (units f.1) (units e.1)) eqn:E.
    + by rewrite (lex_ltb_asym _ _ E).
    + by rewrite (lex_ltb_total _ _ (not_eq_sym Hne) E).
  - destruct (lex_ltb (units y.1) (units f.1)) eqn:Ef, (lex_ltb (units y.1) (units e.1)) eqn:Ee; cbn; unfold js_ltb;
      rewrite ?Ef, ?Ee; [by rewrite IH| | |].
    + destruct (lex_ltb (units e.1) (units f.1)) eqn:E1; cbn; unfold js_ltb; rewrite ?E1, ?Ef; [done|].
      exfalso. assert (lex_ltb (units f.1) (units e.1) = true) as E2 by (apply lex_ltb_total; done).
      pose proof (lex_ltb_trans _ _ _ Ef E2) as E3. congruence.
    + destruct (lex_ltb (units f.1) (units e.1)) eqn:E1; cbn; unfold js_ltb; rewrite ?E1, ?Ee; [done|].
      exfalso. assert (lex_ltb (units e.1) (units f.1) = true) as E2 by (apply lex_ltb_total; done).
      pose proof (lex_ltb_trans _ _ _ Ee E2) as E3. congruence.
    + destruct (lex_ltb (units f.1) (units e.1)) eqn:E.
      * rewrite (lex_ltb_asym _ _ E). cbn; unfold js_ltb. by rewrite ?Ee.
      * rewrite (lex_ltb_total _ _ (not_eq_sym Hne) E). cbn; unfold js_ltb. by rewrite ?Ef.
Qed.

(** The order of the input does not matter when sort keys are distinct. *)
Lemma sort_entries_perm l l' : NoDup (map (fun e => units e.1) l) -> l ≡ₚ l' -> sort_entries l = sort_entries l'.
Proof.
  intros Hn Hp. revert Hn. induction Hp as [|e l l' Hp IH|e f l|l1 l2 l3 H12 IH1 H23 IH2]; intros Hn; [done| | |].
  - apply NoDup_cons in Hn as [_ Hn]. change (insert_entry e (sort_entries l) = insert_entry e (sort_entries l')).
    by rewrite IH.
  - cbn in Hn |- *. apply insert_comm. apply NoDup_cons in Hn as [Hn _]. intros E. apply Hn. rewrite E. left.
  - rewrite IH1 by done. apply IH2. eapply NoDup_Permutation_proper; [|exact Hn]. by rewrite H12.
Qed.
End Sorting.

(** ** The shuffle permutes, and stays inside the array *)

Lemma uint32_range z : 0 <= uint32 z < 4294967296.
Proof. unfold uint32. apply Z.mod_pos_bound. lia. Qed.

Lemma next_range state : 0 <= next state < 4294967296.
Proof. unfold next. cbv zeta. unfold js_shru at 1 5. rewrite Z.shiftr_0_r. apply uint32_range. Qed.

Lemma exchange_perm {A} i j (l : list A) : exchange i j l ≡ₚ l.
Proof.
  unfold exchange. destruct (l !! i) as [x|] eqn:Ei; [|done]. destruct (l !! j) as [y|] eqn:Ej; [|done].
  destruct (decide (i = j)) as [->|Hij].
  - rewrite list_insert_insert_eq. assert (x = y) as -> by congruence. by rewrite list_insert_id.
  - apply Permutation_inj. split; [by rewrite !length_insert|].
    exists (fun k => if decide (k = i) then j else if decide (k = j) then i else k). split.
    + intros a b Hab. repeat case_decide; congruence.
    + intros k. apply lookup_lt_Some in Ei as Hi, Ej as Hj.
      cbn beta. destruct (decide (k = j)) as [->|Hkj].
      * rewrite list_lookup_insert_eq by (by rewrite length_insert). by destruct (decide (j = i)); [congruence|].
      * rewrite list_lookup_insert_ne by done. destruct (decide (k = i)) as [->|Hki].
        -- by rewrite list_lookup_insert_eq.
        -- by rewrite list_lookup_insert_ne.
Qed.

Lemma shuffle_perm {A} i : forall state (l : list A), shuffle i state l ≡ₚ l.
Proof. induction i as [|i IH]; intros state l; [done|]. cbn [shuffle]. by rewrite IH, exchange_perm. Qed.

(** ** Frames of a table *)

Lemma js_length_app a b : js_length (a ++ b) = js_length a + js_length b.
Proof. unfold js_length. induction a as [|c a IH]; [done|]. cbn. rewrite IH. lia. Qed.

Lemma utf8_units s : blen (utf8_encode s) <= 3 * js_length s.
Proof.
  induction s as [|c s IH]; [done|]. change (utf8_encode (c :: s)) with (utf8_enc1 c ++ utf8_encode s).
  change (js_length (c :: s)) with ((if c <? 65536 then 1 else 2) + js_length s). rewrite blen_app.
  assert (blen (utf8_enc1 c) <= 3 * (if c <? 65536 then 1 else 2)); [|lia].
  unfold utf8_enc1. destruct (c <? 65536) eqn:E; repeat case_match; rewrite ?blen_cons; change (blen []) with 0; bools; lia.
Qed.

Lemma esc_units c : js_length (esc c) <= 6 * (if c <? 65536 then 1 else 2).
Proof.
  unfold esc. repeat (case_match; [cbn; case_match; cbn; bools; lia|]).
  destruct (c <? 32) eqn:E.
  - bools. ztest. cbn. unfold hex_digit. repeat case_match; bools; try lia; dlia.
  - cbn. case_match; lia.
Qed.

Lemma quote_units s : js_length (quote s) <= 2 + 6 * js_length s.
Proof.
  unfold quote. rewrite !js_length_app. change (js_length [34]) with 1.
  assert (js_length (concat (map esc s)) <= 6 * js_length s); [|lia].
  induction s as [|c s IH]; [done|]. cbn [map concat]. rewrite js_length_app.
  change (js_length (c :: s)) with ((if c <? 65536 then 1 else 2) + js_length s).
  pose proof (esc_units c). lia.
Qed.

(** The most code units a record may have in this proof: a chunk of such records
    fits a frame even when every unit takes three bytes. *)
Definition RECORD_UNITS : Z := 2500000.

(** A marker that the reader accepts. *)
Definition marker_ok (marker : option jstr) : bool :=
  match marker with Some m => forallb scalar m && (0 <? js_length m) && (js_length m <=? 32) | None => true end.

Section FrameLemmas.
Context `{CL : BackupValueCodecLaws} `{JsEngine}.

Definition record_size (r : bval) : Z := js_length (stringify (enc r)).

(** A row of [table]: its primary key is a text or a natural number, and it is not
    too large or too deep. *)
Definition record_ok (table : jstr) (r : bval) : bool :=
  value_ok r && (height r <=? MAX_VALUE_DEPTH) && (record_size r <=? RECORD_UNITS) &&
  match field r (keyPath_of table) with VStr _ => true | VNum z => 0 <=? z | _ => false end.

Lemma record_ok_encode table r : record_ok table r = true ->
  encodeBackupValue 0 r = Ok (enc r) /\ 2 <= record_size r <= RECORD_UNITS /\ json_ok (plain (enc r)) = true /\
  decodeBackupValue 0 (plain (enc r)) = Ok (strip r).
Proof.
  unfold record_ok. intros Hr. bools. split_and!; [by apply encode_enc|..|lia|by apply enc_json_ok|by apply decode_enc].
  destruct r as [| | | | | | | | |fields|]; try done. unfold record_size, stringify. rewrite plain_obj.
  cbn [JSON_stringify]. rewrite !js_length_app. change (js_length [123]) with 1. change (js_length [125]) with 1.
  match goal with |- context [js_length ?x] => pose proof (js_length_nonneg x) end. lia.
Qed.

Definition sum_sizes (rs : list bval) : Z := foldr (fun r n => record_size r + n) 0 rs.

Lemma sum_sizes_app a b : sum_sizes (a ++ b) = sum_sizes a + sum_sizes b.
Proof. unfold sum_sizes. induction a as [|r a IH]; [done|]. cbn. rewrite IH. lia. Qed.

Lemma join_units l : Forall (fun w => 2 <= js_length w) l ->
  js_length (join 44 l) <= 2 * foldr (fun w n => js_length w + n) 0 l.
Proof.
  destruct l as [|w l]; [done|]. intros [Hw Hl]%Forall_cons. cbn [join]. rewrite js_length_app. cbn [foldr].
  assert (js_length (concat (map (cons 44) l)) <= 2 * foldr (fun w n => js_length w + n) 0 l); [|lia].
  induction Hl as [|v l Hv Hl IH]; [done|]. cbn [map concat foldr]. rewrite js_length_app.
  change (js_length (44 :: v)) with (1 + js_length v). lia.
Qed.

(** The object of a chunk, as [JSON.parse] gives it back. *)
Definition chunk_object (table : jstr) (marker : option jstr) (rs : list bval) : jsval :=
  JObj ([(js "table", JStr table); (js "records", JArr (map (fun r => plain (enc r)) rs))] ++ marker_fields marker).

Lemma chunk_plain table marker rs :
  plain (JObj ([(js "table", JStr table); (js "records", JArr (map enc rs))] ++ marker_fields marker)) =
  chunk_object table marker rs.
Proof.
  unfold chunk_object. cbn [plain app map concat is_undef snd fst]. rewrite map_map.
  by destruct marker as [[|c m]|].
Qed.

Lemma known_table_units table : table ∈ BACKUP_TABLE_ORDER ->
  js_length (quote table) <= 32 /\ forallb scalar table = true.
Proof.
  intros Ht. assert (Forall (fun t => (js_length (quote t) <=? 32) && forallb scalar t = true) BACKUP_TABLE_ORDER) as Hf.
  { apply (bool_decide_unpack _). by vm_compute. }
  rewrite Forall_forall in Hf. apply Hf in Ht. bools. split; [lia|done].
Qed.

Lemma marker_units marker : marker_ok marker = true ->
  js_length (concat (map (cons 44) (map field_text (marker_fields marker)))) <= 300.
Proof.
  unfold marker_ok, marker_fields. destruct marker as [[|c m]|]; [done| |done]. intros Hm. bools.
  set (w := c :: m) in *. cbn [map concat]. rewrite app_nil_r. unfold field_text. cbn [fst snd JSON_stringify].
  change (44 :: quote (js "k") ++ [58] ++ quote w) with ([44] ++ quote (js "k") ++ [58] ++ quote w).
  rewrite !js_length_app. change (js_length [44]) with 1. change (js_length [58]) with 1.
  change (js_length (quote (js "k"))) with 3. pose proof (quote_units w). lia.
Qed.

Lemma chunk_payload_size table marker rs :
  table ∈ BACKUP_TABLE_ORDER -> marker_ok marker = true ->
  Forall (fun r => record_ok table r = true) rs -> sum_sizes rs <= RECORD_UNITS ->
  blen (chunk_payload table marker (map enc rs)) <= Backup.BACKUP_MAX_PAYLOAD_BYTES.
Proof.
  intros Ht Hm Hrs Hsum. unfold chunk_payload, stringify. rewrite chunk_plain.
  etransitivity; [apply utf8_units|]. unfold chunk_object. cbn [JSON_stringify].
  change (map (fun f => quote f.1 ++ [58] ++ JSON_stringify f.2)) with (map field_text).
  rewrite !js_length_app, map_app. cbn [map app join concat]. rewrite !js_length_app.
  change (js_length (44 :: ?x)) with (1 + js_length x). rewrite !js_length_app. change (js_length [123]) with 1.
  destruct (known_table_units table Ht) as [Hq _]. pose proof (marker_units marker Hm) as Hmu.
  set (mk := js_length (concat (map (cons 44) (map field_text (marker_fields marker))))) in *.
  unfold field_text. cbn [fst snd JSON_stringify]. rewrite !js_length_app.
  change (js_length (quote (js "table"))) with 7. change (js_length (quote (js "records"))) with 9.
  change (js_length [58]) with 1. change (js_length [91]) with 1. change (js_length [93]) with 1.
  change (js_length [125]) with 1. rewrite map_map.
  assert (js_length (join 44 (map (fun r => JSON_stringify (plain (enc r))) rs)) <= 2 * sum_sizes rs) as Hj.
  { etransitivity; [apply join_units|].
    - apply Forall_map. eapply Forall_impl; [exact Hrs|]. intros r Hr. by apply record_ok_encode in Hr as (_ & [? _] & _).
    - apply Z.eq_le_incl. f_equal. unfold sum_sizes. clear. induction rs as [|r rs IH]; [done|]. cbn. by rewrite IH. }
  unfold RECORD_UNITS, Backup.BACKUP_MAX_PAYLOAD_BYTES in *. lia.
Qed.

Lemma fill_spec table type marker chunkBytes sorted : forall chunk,
  chunkBytes <= RECORD_UNITS -> sum_sizes chunk <= RECORD_UNITS ->
  Forall (fun r => record_ok table r = true) sorted ->
  exists pieces,
    fill table type marker chunkBytes sorted (map enc chunk) (sum_sizes chunk) =
      Ok (map (fun c => Backup.mkFrame type (chunk_payload table marker (map enc c))) pieces) /\
    concat pieces = chunk ++ sorted /\ Forall (fun c => c <> [] /\ sum_sizes c <= RECORD_UNITS) pieces.
Proof.
  induction sorted as [|r sorted IH]; intros chunk Hcb Hsum Hok; cbn [fill].
  - destruct chunk as [|c chunk]; [by exists []|]. exists [c :: chunk]. rewrite app_nil_r. cbn [concat].
    rewrite app_nil_r. split_and!; [done|done|]. by repeat constructor.
  - apply Forall_cons in Hok as [Hr Hok]. destruct (record_ok_encode _ _ Hr) as (He & Hsz & _ & _).
    rewrite He, bind_ok. fold (record_size r). cbv zeta.
    replace (Backup.BACKUP_MAX_PAYLOAD_BYTES <? record_size r) with false
      by (unfold Backup.BACKUP_MAX_PAYLOAD_BYTES, RECORD_UNITS in *; lia). rewrite length_map.
    destruct ((0 <? _) && _) eqn:Ef; bools.
    + destruct (IH [r] Hcb ltac:(cbn; lia) Hok) as (pieces & Hf & Hc & Hp).
      replace (sum_sizes [r]) with (record_size r) in Hf by (cbn; lia). cbn [map] in Hf. rewrite Hf, bind_ok.
      exists (chunk :: pieces). destruct chunk as [|c chunk]; [done|]. cbn [concat]. rewrite Hc.
      split_and!; [done|done|]. by constructor.
    + assert (Hs' : sum_sizes (chunk ++ [r]) = sum_sizes chunk + record_size r)
        by (rewrite sum_sizes_app; cbn; lia).
      destruct (IH (chunk ++ [r]) Hcb) as (pieces & Hf & Hc & Hp); [|done|].
      { rewrite Hs'. apply andb_false_iff in Ef as [E|E]; bools; [|lia].
        destruct chunk; [|cbn in E; lia]. cbn. lia. }
      rewrite map_app, Hs' in Hf. exists pieces. rewrite <- app_assoc in Hc. by split_and!.
Qed.

(** A piece: a table and the rows one frame holds of it. *)
Definition piece_frame (marker : option jstr) (p : jstr * list bval) : Backup.BackupFrame :=
  Backup.mkFrame (default Backup.Account (frame_type_of p.1)) (chunk_payload p.1 marker (map enc p.2)).

Definition piece_ok (p : jstr * list bval) : Prop :=
  p.1 ∈ BACKUP_TABLE_ORDER /\ p.2 <> [] /\ Forall (fun r => record_ok p.1 r = true) p.2 /\ sum_sizes p.2 <= RECORD_UNITS.

Lemma known_table_type table : table ∈ BACKUP_TABLE_ORDER -> exists ty, frame_type_of table = Some ty.
Proof.
  unfold frame_type_of, BACKUP_TABLE_ORDER. intros Ht. destruct (assoc _ _) as [ty|] eqn:E; [by exists ty|].
  exfalso. apply list_elem_of_fmap in Ht as ([t ty] & -> & Hin).
  assert (NoDup BACKUP_TABLE_FRAME_TYPE.*1) as Hn by (apply (bool_decide_unpack (NoDup _)); vm_compute; exact I).
  cbn [fst] in E. by rewrite (assoc_nodup _ _ _ Hn Hin) in E.
Qed.

Lemma read_piece marker p : marker_ok marker = true -> piece_ok p ->
  readBackupChunk (piece_frame marker p) = Ok (mkChunk p.1 (map strip p.2) marker).
Proof.
  destruct p as [table rs]. intros Hm (Ht & _ & Hrs & Hsum). cbn [fst snd] in *. unfold readBackupChunk, piece_frame.
  cbn [fst snd Backup.frame_payload Backup.frame_type].
  pose proof (chunk_payload_size table marker rs Ht Hm Hrs Hsum) as Hsz. ztest.
  unfold chunk_payload, stringify. rewrite chunk_plain.
  assert (Hok : json_ok (chunk_object table marker rs) = true).
  { destruct (known_table_units table Ht) as [_ Hsc]. unfold chunk_object. cbn [json_ok].
    assert (Hrec : json_ok (JArr (map (fun r => plain (enc r)) rs)) = true).
    { cbn. apply forallb_forall. intros x Hx. apply in_map_iff in Hx as (r & <- & Hr).
      rewrite Forall_forall in Hrs. apply list_elem_of_In, Hrs, record_ok_encode in Hr. tauto. }
    destruct marker as [[|c m]|]; [done| |].
    - cbn [marker_ok] in Hm. bools. set (w := c :: m) in *.
      change (marker_fields (Some w)) with [(js "k", JStr w)]. cbn [app forallb fst snd].
      rewrite !js_scalar. cbn [json_ok] in Hrec |- *. rewrite Hrec, Hsc. by replace (forallb scalar w) with true.
    - cbn [marker_fields app forallb fst snd]. rewrite !js_scalar. cbn [json_ok] in Hrec |- *. by rewrite Hrec, Hsc. }
  rewrite utf8_decode_encode by (by apply stringify_text). rewrite json_roundtrip by done.
  assert (Hp : prop (chunk_object table marker rs) "table" = JStr table /\
    prop (chunk_object table marker rs) "records" = JArr (map (fun r => plain (enc r)) rs) /\
    prop (chunk_object table marker rs) "k" = match marker with Some m => JStr m | None => JUndef end).
  { split_and!; [done|done|]. by destruct marker as [[|c m]|]. }
  destruct Hp as (Hp1 & Hp2 & Hp3). unfold chunk_object at 1. rewrite Hp1, Hp2, Hp3.
  replace (in_frame_type table) with true by (unfold in_frame_type; by rewrite bool_decide_eq_true_2).
  cbn [negb]. destruct (known_table_type table Ht) as [ty Hty]. rewrite Hty. cbn [option_map default from_option id].
  rewrite bool_decide_eq_true_2 by done. cbn [negb]. rewrite mapR_map, (mapR_ok _ strip).
  - destruct marker as [m|]; [|done]. cbn in Hm. bools. ztest. done.
  - intros r Hr. rewrite Forall_forall in Hrs. apply Hrs, record_ok_encode in Hr. tauto.
Qed.

(** ** All tables *)

Definition sort_key (table : jstr) (r : bval) : jstr :=
  match field r (keyPath_of table) with
  | VNum z => js "#" ++ padStart16 (js (pretty z))
  | v => js "s" ++ to_String v
  end.

Definition sorted_rows (table : jstr) (rs : list bval) : list bval :=
  (sort_entries (map (fun r => (sort_key table r, r)) rs)).*2.

Lemma sort_records_ok table rs : Forall (fun r => record_ok table r = true) rs ->
  sort_records table rs = Ok (sorted_rows table rs).
Proof.
  intros Hrs. unfold sort_records, sorted_rows. rewrite (mapR_ok _ (fun r => (sort_key table r, r))); [done|].
  intros r Hr. rewrite Forall_forall in Hrs. apply Hrs in Hr. unfold record_ok in Hr. bools.
  unfold recordSortKey, sort_key. by destruct (field r _).
Qed.

Lemma sorted_rows_perm table rs : sorted_rows table rs ≡ₚ rs.
Proof.
  unfold sorted_rows. rewrite sort_perm, <- list_fmap_compose.
  erewrite list_fmap_ext; [by rewrite list_fmap_id|]. done.
Qed.

Definition rows (r : tables) (t : jstr) : list bval := default [] (assoc t r).

Definition tables_ok (r : tables) : Prop :=
  Forall (fun e => e.1 ∈ BACKUP_TABLE_ORDER /\ Forall (fun x => record_ok e.1 x = true) e.2) r.

(** The rows of table [t] that the pieces hold. *)
Definition rows_in (pieces : list (jstr * list bval)) (t : jstr) : list bval :=
  concat (map snd (filter (fun p => p.1 = t) pieces)).

Lemma rows_in_app a b t : rows_in (a ++ b) t = rows_in a t ++ rows_in b t.
Proof. unfold rows_in. by rewrite filter_app, map_app, concat_app. Qed.

Lemma rows_in_same t pieces : Forall (fun p => p.1 = t) pieces -> rows_in pieces t = concat (map snd pieces).
Proof.
  unfold rows_in. induction 1 as [|p l Hp Hl IH]; [done|]. rewrite filter_cons_True by done. cbn. by rewrite IH.
Qed.

Lemma rows_in_other t t' pieces : t <> t' -> Forall (fun p => p.1 = t) pieces -> rows_in pieces t' = [].
Proof.
  unfold rows_in. intros Hne. induction 1 as [|p l Hp Hl IH]; [done|]. rewrite filter_cons_False; [done|congruence].
Qed.

Lemma rows_in_perm pieces pieces' t : pieces ≡ₚ pieces' -> rows_in pieces t ≡ₚ rows_in pieces' t.
Proof. unfold rows_in. intros Hp. rewrite <- !flat_map_concat_map. by rewrite Hp. Qed.

Lemma tables_ok_rows r t : tables_ok r -> Forall (fun x => record_ok t x = true) (rows r t).
Proof.
  unfold rows. intros Hr. destruct (assoc t r) as [rs|] eqn:E; [|constructor]. apply assoc_elem in E.
  apply (proj1 (Forall_forall _ _) Hr) in E as [_ ?]. done.
Qed.

(** The pieces of a table, in the order of its sort keys. *)
Lemma table_frames_ok r marker chunkBytes t ty :
  tables_ok r -> chunkBytes <= RECORD_UNITS -> (t, ty) ∈ BACKUP_TABLE_FRAME_TYPE ->
  exists pieces, table_frames r marker chunkBytes (t, ty) = Ok (map (piece_frame marker) pieces) /\
    Forall piece_ok pieces /\ Forall (fun p => p.1 = t) pieces /\
    concat (map snd pieces) = sorted_rows t (rows r t).
Proof.
  intros Hr Hcb Hin. pose proof (tables_ok_rows r t Hr) as Hok. unfold table_frames, rows in *. cbn [fst snd] in *.
  destruct (assoc t r) as [[|x rs]|] eqn:E; [by exists []| |by exists []]. cbn [default] in *.
  cbn [from_option] in *. unfold Datatypes.id in *.
  rewrite sort_records_ok, bind_ok by done.
  destruct (fill_spec t ty marker chunkBytes (sorted_rows t (x :: rs)) []) as (cs & Hf & Hc & Hp); [done|done| |].
  { by rewrite sorted_rows_perm. }
  exists (map (pair t) cs). change (sum_sizes []) with 0 in Hf. cbn [map] in Hf. rewrite Hf. split_and!.
  - f_equal. rewrite map_map. apply map_ext. intros c. unfold piece_frame. cbn [fst snd].
    assert (NoDup BACKUP_TABLE_FRAME_TYPE.*1) as Hn by (apply (bool_decide_unpack (NoDup _)); vm_compute; exact I).
    unfold frame_type_of. by rewrite (assoc_nodup _ _ _ Hn Hin).
  - assert (Hall : Forall (fun r => record_ok t r = true) (concat cs)) by (rewrite Hc; by rewrite sorted_rows_perm).
    apply Forall_concat in Hall. apply Forall_map. rewrite Forall_forall in Hp, Hall. apply Forall_forall.
    intros c Hin'. unfold piece_ok. cbn [fst snd]. split; [|naive_solver].
    apply list_elem_of_fmap. by exists (t, ty).
  - apply Forall_map. by apply Forall_forall.
  - rewrite map_map. cbn. by rewrite map_id.
Qed.

Lemma all_frames_ok r marker chunkBytes entries :
  tables_ok r -> chunkBytes <= RECORD_UNITS -> entries ⊆ BACKUP_TABLE_FRAME_TYPE -> NoDup entries.*1 ->
  exists lists pieces, mapR (table_frames r marker chunkBytes) entries = Ok lists /\
    concat lists = map (piece_frame marker) pieces /\ Forall piece_ok pieces /\
    concat (map snd pieces) = concat (map (fun t => sorted_rows t (rows r t)) entries.*1) /\
    forall t, rows_in pieces t = if bool_decide (t ∈ entries.*1) then sorted_rows t (rows r t) else [].
Proof.
  intros Hr Hcb. induction entries as [|[t ty] es IH]; intros Hsub Hn; [by exists [], []|].
  cbn [fmap list_fmap fst] in Hn. apply NoDup_cons in Hn as [Ht Hn].
  destruct IH as (lists & ps & Hl & Hc & Hp & Hrows & Hin); [set_solver|done|].
  destruct (table_frames_ok r marker chunkBytes t ty Hr Hcb ltac:(set_solver)) as (qs & Hq & Hqok & Hqt & Hqr).
  exists (map (piece_frame marker) qs :: lists), (qs ++ ps). cbn [mapR]. rewrite Hq, bind_ok, Hl, bind_ok.
  split_and!; [done| | | |].
  - cbn. by rewrite Hc, map_app.
  - by apply Forall_app.
  - rewrite map_app, concat_app, Hqr, Hrows. done.
  - intros t'. rewrite rows_in_app, Hin. cbn [fmap list_fmap fst]. destruct (decide (t' = t)) as [->|Hne].
    + rewrite (rows_in_same t qs Hqt), Hqr. rewrite bool_decide_eq_false_2, bool_decide_eq_true_2 by set_solver.
      by rewrite app_nil_r.
    + rewrite (rows_in_other t t' qs) by done. cbn [app]. by rewrite (bool_decide_ext (t' ∈ t :: es.*1) (t' ∈ es.*1)) by set_solver.
Qed.

Lemma table_order_nodup : NoDup BACKUP_TABLE_FRAME_TYPE.*1.
Proof. apply (bool_decide_unpack (NoDup _)). vm_compute. exact I. Qed.

(** The options of a build whose frames fit. *)
Definition options_ok (o : BuildOptions) : Prop :=
  tables_ok (opt_records o) /\ 128 <= default BACKUP_CHUNK_BYTES (opt_chunkBytes o) <= RECORD_UNITS /\
  marker_ok (opt_marker o) = true.

Definition record_count (r : tables) : Z := Z.of_nat (length (concat (map (rows r) BACKUP_TABLE_ORDER))).

Lemma options_known o : options_ok o -> forallb in_frame_type (opt_records o).*1 = true.
Proof.
  intros (Hr & _ & _). apply forallb_forall. intros t Ht%list_elem_of_In.
  apply list_elem_of_fmap in Ht as (e & -> & He). apply (proj1 (Forall_forall _ _) Hr) in He as [He _].
  unfold in_frame_type. by rewrite bool_decide_eq_true_2.
Qed.

Lemma length_pieces pieces : Forall piece_ok pieces -> (length pieces <= length (concat (map snd pieces)))%nat.
Proof.
  induction 1 as [|[t [|x rs]] ps Hok Hp IH]; [done| |]; [by destruct Hok as (_ & ? & _)|].
  cbn. rewrite length_app. lia.
Qed.

Lemma length_sorted_rows r ts :
  length (concat (map (fun t => sorted_rows t (rows r t)) ts)) = length (concat (map (rows r) ts)).
Proof. induction ts as [|t ts IH]; [done|]. cbn. by rewrite !length_app, IH, sorted_rows_perm. Qed.

(** The frames of a build are pieces that hold every row once, in some order. *)
Lemma build_pieces o : options_ok o ->
  exists pieces, Forall piece_ok pieces /\ Z.of_nat (length pieces) <= record_count (opt_records o) /\
    (pieces = [] -> record_count (opt_records o) = 0) /\
    (forall t, rows_in pieces t ≡ₚ if bool_decide (t ∈ BACKUP_TABLE_ORDER) then rows (opt_records o) t else []) /\
    buildBackupFrames o =
      if Z.of_nat (length pieces) =? 0 then throw "Tidak ada catatan untuk di-backup" else
      if Backup.BACKUP_MAX_FRAMES <? Z.of_nat (length pieces) then throw "Terlalu banyak frame" else
      if opt_scramble o then scrambleBackupFrames (map (piece_frame (opt_marker o)) pieces) (opt_key o)
      else Ok (map (piece_frame (opt_marker o)) pieces).
Proof.
  intros Ho. pose proof (options_known o Ho) as Hknown. destruct Ho as (Hr & Hcb & Hm).
  destruct (all_frames_ok (opt_records o) (opt_marker o) (default BACKUP_CHUNK_BYTES (opt_chunkBytes o))
    BACKUP_TABLE_FRAME_TYPE Hr ltac:(lia) ltac:(done) table_order_nodup)
    as (lists & pieces & Hl & Hc & Hp & Hrows & Hin).
  assert (Hcount : length (concat (map snd pieces)) = length (concat (map (rows (opt_records o)) BACKUP_TABLE_ORDER))).
  { rewrite Hrows. apply length_sorted_rows. }
  assert (Hlen : (length pieces <= length (concat (map snd pieces)))%nat).
  { by apply length_pieces. }
  exists pieces. unfold record_count. split_and!; [done|lia| | |].
  - intros ->. by rewrite <- Hcount.
  - intros t. rewrite Hin. fold BACKUP_TABLE_ORDER. case_bool_decide; [|done]. by rewrite sorted_rows_perm.
  - unfold buildBackupFrames. cbv zeta. ztest. rewrite Hknown, Hl. cbn [negb]. rewrite bind_ok, Hc, length_map. done.
Qed.

Lemma scramble_perm {A} (frames : list A) key : key <> [] ->
  exists out, scrambleBackupFrames frames key = Ok out /\ out ≡ₚ frames.
Proof.
  intros Hk. unfold scrambleBackupFrames. destruct key as [|b key]; [done|].
  replace (blen (b :: key) =? 0) with false by (rewrite blen_cons; pose proof (blen_nonneg key); lia).
  eexists. split; [done|]. apply shuffle_perm.
Qed.

(** What a build that returns has produced. *)
Lemma build_spec o frames : options_ok o -> buildBackupFrames o = Ok frames ->
  exists pieces, frames = map (piece_frame (opt_marker o)) pieces /\ Forall piece_ok pieces /\
    pieces <> [] /\ Z.of_nat (length pieces) <= Backup.BACKUP_MAX_FRAMES /\
    forall t, rows_in pieces t ≡ₚ if bool_decide (t ∈ BACKUP_TABLE_ORDER) then rows (opt_records o) t else [].
Proof.
  intros Ho Hb. destruct (build_pieces o Ho) as (pieces & Hp & _ & _ & Hrows & Heq). rewrite Heq in Hb.
  destruct (Z.of_nat (length pieces) =? 0) eqn:E0; [done|]. destruct (_ <? _) eqn:E1; [done|]. bools.
  assert (exists ps, frames = map (piece_frame (opt_marker o)) ps /\ ps ≡ₚ pieces) as (ps & -> & Hps).
  { destruct (opt_scramble o); [|injection Hb as <-; by exists pieces].
    destruct (decide (opt_key o = [])) as [Ek|Ek]; [by rewrite Ek in Hb|].
    destruct (scramble_perm (map (piece_frame (opt_marker o)) pieces) (opt_key o) Ek) as (out & Hs & Hperm).
    rewrite Hs in Hb. injection Hb as <-. apply Permutation_map_inv in Hperm as (ps & -> & Hps). by exists ps. }
  exists ps. split_and!; [done|by rewrite Hps| |by rewrite Hps|].
  - intros ->. apply Permutation_nil_l in Hps. by subst pieces.
  - intros t. rewrite (rows_in_perm _ _ t Hps). apply Hrows.
Qed.

Lemma build_total o : options_ok o -> 0 < record_count (opt_records o) <= Backup.BACKUP_MAX_FRAMES ->
  (opt_scramble o = true -> opt_key o <> []) -> exists frames, buildBackupFrames o = Ok frames.
Proof.
  intros Ho Hn Hk. destruct (build_pieces o Ho) as (pieces & _ & Hlen & Hnil & _ & ->).
  assert (pieces <> []) as Hne by (intros E; specialize (Hnil E); lia).
  assert (length pieces <> 0%nat) by (by destruct pieces). ztest.
  destruct (opt_scramble o); [|by eexists].
  destruct (scramble_perm (map (piece_frame (opt_marker o)) pieces) (opt_key o) (Hk eq_refl)) as (out & -> & _). by eexists.
Qed.

(** Reading the frames of a build gives its pieces, stripped. *)
Lemma read_pieces marker pieces : marker_ok marker = true -> Forall piece_ok pieces ->
  readBackupChunks (map (piece_frame marker) pieces) =
    Ok (map (fun p => mkChunk p.1 (map strip p.2) marker) pieces).
Proof.
  intros Hm Hp. unfold readBackupChunks. rewrite mapR_map. apply mapR_ok. intros p Hin. apply read_piece; [done|].
  by apply (proj1 (Forall_forall _ _) Hp).
Qed.

Lemma rows_push out c t : rows (push_records out c) t =
  rows out t ++ (if bool_decide (t = chunk_table c) then chunk_records c else []).
Proof.
  unfold rows, push_records. rewrite assoc_set. case_bool_decide; [by subst|]. by rewrite app_nil_r.
Qed.

Lemma rows_group marker pieces : forall out t,
  rows (foldl push_records out (map (fun p => mkChunk p.1 (map strip p.2) marker) pieces)) t =
    rows out t ++ map strip (rows_in pieces t).
Proof.
  induction pieces as [|[t' rs] ps IH]; intros out t; [by rewrite app_nil_r|].
  cbn [map foldl]. rewrite IH, rows_push. cbn [chunk_table chunk_records fst snd].
  change ((t', rs) :: ps) with ([(t', rs)] ++ ps). rewrite rows_in_app, map_app, app_assoc. f_equal. f_equal.
  case_bool_decide as Ht.
  - subst t'. rewrite rows_in_same by (by repeat constructor). cbn. by rewrite app_nil_r.
  - by rewrite (rows_in_other t' t) by (done || by repeat constructor).
Qed.

(** ** Exporting what was restored *)

Lemma field_strip r k : match field r k with VStr _ | VNum _ => True | _ => False end -> field (strip r) k = field r k.
Proof.
  destruct r as [| | | | | | | | |fs|]; try done. rewrite strip_obj. cbn [field]. unfold live.
  induction fs as [|[k' v] fs IH]; [done|]. cbn. destruct (bool_decide (k = k')) eqn:E.
  - cbn. intros Hv. destruct v; try done; cbn; by rewrite E.
  - intros Hv. destruct (is_absent v); cbn; [by apply IH|]. rewrite E. by apply IH.
Qed.

Lemma record_ok_strip t r : record_ok t r = true ->
  record_ok t (strip r) = true /\ sort_key t (strip r) = sort_key t r /\ stringify (enc (strip r)) = stringify (enc r) /\
  field (strip r) (keyPath_of t) = field r (keyPath_of t).
Proof.
  intros Hr. pose proof Hr as Hr'. unfold record_ok in Hr'. bools.
  assert (Hs : stringify (enc (strip r)) = stringify (enc r)) by (unfold stringify; by rewrite enc_strip).
  assert (Hf : field (strip r) (keyPath_of t) = field r (keyPath_of t)) by (apply field_strip; by destruct (field r _)).
  split_and!; [|unfold sort_key; by rewrite Hf|done|done].
  unfold record_ok, record_size in *. rewrite Hs, Hf, strip_ok by done. pose proof (strip_height r).
  repeat (apply andb_true_iff; split); try done; by ztest.
Qed.

Lemma sort_map {A B} (f : A -> B) l : sort_entries (map (fun e => (e.1, f e.2)) l) = map (fun e => (e.1, f e.2)) (sort_entries l).
Proof.
  assert (Hi : forall e l, insert_entry (e.1, f e.2) (map (fun e : jstr * A => (e.1, f e.2)) l) =
    map (fun e => (e.1, f e.2)) (insert_entry e l)).
  { intros e l'. induction l' as [|y l' IH]; [done|]. cbn [insert_entry map fst snd].
    destruct (js_ltb y.1 e.1); [|done]. cbn [map]. by rewrite IH. }
  induction l as [|e l IH]; [done|]. cbn. rewrite <- Hi. f_equal. exact IH.
Qed.

Lemma padded_inj a b : 0 <= a -> 0 <= b -> padStart16 (js (pretty a)) = padStart16 (js (pretty b)) -> a = b.
Proof.
  intros Ha Hb E. apply (f_equal number) in E. unfold padStart16, number in E. rewrite !foldl_app in E.
  assert (Hz : forall n, foldl (fun acc c : Z => 10 * acc + (c - 48)) 0 (replicate n 48) = 0).
  { induction n as [|n IH]; [done|]. exact IH. }
  rewrite !Hz in E. change (number (js (pretty a)) = number (js (pretty b))) in E.
  by rewrite !number_pretty in E.
Qed.

Lemma digits_scalar s : forallb js_digit s = true -> forallb scalar s = true.
Proof.
  rewrite !forallb_forall. intros Hs x Hx. apply Hs in Hx. unfold js_digit in Hx. unfold scalar. bools. lia.
Qed.

Lemma sort_key_scalar t r : record_ok t r = true -> forallb scalar (sort_key t r) = true.
Proof.
  unfold record_ok, sort_key. intros Hr. bools. destruct (field r (keyPath_of t)) as [| | |z|s| | | | | |] eqn:E; try done.
  - rewrite !forallb_app. unfold padStart16. rewrite forallb_app, !js_scalar.
    assert (Hz : forall n, forallb scalar (replicate n 48) = true) by (induction n; [done|by cbn]). by rewrite Hz.
  - rewrite forallb_app, js_scalar. cbn. destruct r as [| | | | | | | | |fs|]; try done. cbn in E.
    destruct (assoc _ fs) as [v|] eqn:Ea; [|done]. cbn in E. subst v. apply assoc_elem in Ea.
    cbn in H1. bools. pose proof (fields_ok fs ltac:(done) _ Ea) as (_ & _ & _ & Hv). done.
Qed.

Lemma sort_key_inj t r r' : record_ok t r = true -> record_ok t r' = true ->
  units (sort_key t r) = units (sort_key t r') -> field r (keyPath_of t) = field r' (keyPath_of t).
Proof.
  intros Hr Hr' E. apply units_inj in E; [|by apply sort_key_scalar..]. unfold record_ok in Hr, Hr'. bools.
  unfold sort_key in E.
  destruct (field r (keyPath_of t)) as [| | |z|s| | | | | |], (field r' (keyPath_of t)) as [| | |z'|s'| | | | | |]; try done.
  - apply (app_inv_head (js "#")), padded_inj in E; [congruence|lia..].
  - apply (app_inv_head (js "s")) in E. cbn in E. congruence.
Qed.

Definition distinct_keys (t : jstr) (rs : list bval) : Prop := NoDup (map (fun r => field r (keyPath_of t)) rs).

Lemma sorted_rows_same t rs rs' : Forall (fun r => record_ok t r = true) rs -> distinct_keys t rs ->
  rs' ≡ₚ map strip rs -> sorted_rows t rs' = map strip (sorted_rows t rs).
Proof.
  intros Hok Hd Hp. unfold sorted_rows.
  assert (Hm : map (fun r => (sort_key t r, r)) rs' ≡ₚ map (fun e => (e.1, strip e.2)) (map (fun r => (sort_key t r, r)) rs)).
  { rewrite Hp, !map_map. cbn. erewrite map_ext_Forall; [done|]. eapply Forall_impl; [exact Hok|].
    intros r Hr. cbn. by destruct (record_ok_strip t r Hr) as (_ & -> & _). }
  symmetry in Hm. apply sort_entries_perm in Hm; [rewrite <- Hm|].
  - rewrite sort_map. rewrite <- !list_fmap_compose. done.
  - rewrite !map_map. cbn. clear Hp Hm. induction Hok as [|r rs Hr Hok IH]; [constructor|].
    unfold distinct_keys in Hd. cbn in Hd |- *. apply NoDup_cons in Hd as [Hn Hd]. constructor; [|by apply IH].
    intros Hin. apply Hn. apply list_elem_of_fmap in Hin as (r' & E & Hr'). apply list_elem_of_fmap. exists r'.
    split; [|done]. apply sort_key_inj; [done|by apply (proj1 (Forall_forall _ _) Hok)|done].
Qed.

Lemma fill_strip t ty marker cb l : forall chunk chunk' size,
  Forall (fun r => record_ok t r = true) l -> map plain chunk' = map plain chunk ->
  fill t ty marker cb (map strip l) chunk' size = fill t ty marker cb l chunk size.
Proof.
  assert (Hpay : forall a b, map plain a = map plain b -> flush t ty marker a = flush t ty marker b).
  { intros a b E. unfold flush, chunk_payload, stringify. destruct a, b; try done.
    cbn [map] in E. injection E as E1 E2. cbn [app]. cbn [plain map is_undef snd fst]. by rewrite E1, E2. }
  induction l as [|r l IH]; intros chunk chunk' size Hok E; cbn [fill map].
  - by rewrite (Hpay _ _ E).
  - apply Forall_cons in Hok as [Hr Hok]. destruct (record_ok_strip t r Hr) as (Hr' & _ & Hs & _).
    destruct (record_ok_encode _ _ Hr) as (-> & _). destruct (record_ok_encode _ _ Hr') as (-> & _).
    rewrite !bind_ok, Hs. assert (Hl : length chunk' = length chunk) by (rewrite <- (length_map plain), E; apply length_map).
    rewrite Hl. destruct (_ <? _); [done|]. destruct (_ && _).
    + rewrite (IH [enc r] [enc (strip r)]); [by rewrite (Hpay _ _ E)|done|]. cbn. by rewrite enc_strip.
    + apply IH; [done|]. rewrite !map_app, E. cbn. by rewrite enc_strip.
Qed.

(** The frames depend only on the set of rows, up to what [strip] forgets. *)
Lemma build_same o o' : options_ok o -> options_ok o' ->
  (forall t, t ∈ BACKUP_TABLE_ORDER -> distinct_keys t (rows (opt_records o) t)) ->
  (forall t, t ∈ BACKUP_TABLE_ORDER -> rows (opt_records o') t ≡ₚ map strip (rows (opt_records o) t)) ->
  opt_chunkBytes o' = opt_chunkBytes o -> opt_key o' = opt_key o -> opt_scramble o' = opt_scramble o ->
  opt_marker o' = opt_marker o -> buildBackupFrames o' = buildBackupFrames o.
Proof.
  intros Ho Ho' Hd Hrows Ec Ek Es Em. unfold buildBackupFrames. rewrite Ec, Ek, Es, Em, !options_known by done.
  assert (Hall : forall es, es ⊆ BACKUP_TABLE_FRAME_TYPE -> forall cb,
    mapR (table_frames (opt_records o') (opt_marker o) cb) es = mapR (table_frames (opt_records o) (opt_marker o) cb) es);
    [|by rewrite Hall].
  induction es as [|[t ty] es IH]; intros Hsub cb; [done|]. cbn [mapR]. rewrite IH by set_solver.
  assert (Ht : t ∈ BACKUP_TABLE_ORDER) by (apply list_elem_of_fmap; exists (t, ty); set_solver).
  specialize (Hd t Ht). specialize (Hrows t Ht). f_equal. unfold table_frames. cbn [fst snd].
  pose proof (tables_ok_rows _ t (proj1 Ho)) as Hok. pose proof (tables_ok_rows _ t (proj1 Ho')) as Hok'.
  unfold rows in *. destruct (assoc t (opt_records o)) as [[|x rs]|], (assoc t (opt_records o')) as [[|x' rs']|];
    cbn [default from_option] in *; unfold Datatypes.id in *; try done;
    try (by apply Permutation_nil_r in Hrows); try (by apply Permutation_nil_l in Hrows).
  rewrite !sort_records_ok, !bind_ok by done. rewrite (sorted_rows_same t (x :: rs) (x' :: rs')) by done.
  apply fill_strip; [|done]. by rewrite sorted_rows_perm.
Qed.
End FrameLemmas.

(** The frame shuffle stays inside the array. For every key that is not empty, the
    scrambled frames are a permutation of the frames: none is lost or doubled. The
    generator's value is always an unsigned 32-bit number, so the index drawn for
    position i lies between 0 and i whatever the state, also where the operators of
    the language produced a negative intermediate value. *)
Theorem scramble_in_bounds {A} (frames : list A) key :
  key <> [] ->
  (exists out, scrambleBackupFrames frames key = Ok out /\ out ≡ₚ frames) /\
  (forall state i, 0 <= next state < 2 ^ 32 /\ 0 <= Z.rem (next state) (Z.of_nat i + 1) <= Z.of_nat i).
Proof.
  intros Hk. split; [by apply scramble_perm|]. intros state i. pose proof (next_range state) as Hn.
  split; [lia|]. pose proof (Z.rem_bound_pos (next state) (Z.of_nat i + 1)). lia.
Qed.

Definition demo_key : bytes := map z2b [7; 200; 31; 4].

(** Here the seed is a negative number. *)
Lemma scramble_in_bounds_witness :
  (exists out, scrambleBackupFrames [0; 1; 2; 3; 4] demo_key = Ok out /\ out ≡ₚ [0; 1; 2; 3; 4] /\ out <> [0; 1; 2; 3; 4]) /\
  scramble_seed demo_key 5 < 0 /\ 0 <= Z.rem (next (scramble_seed demo_key 5)) (Z.of_nat 4 + 1) <= Z.of_nat 4.
Proof.
  destruct (scramble_in_bounds [0; 1; 2; 3; 4] demo_key) as [(out & Ho & Hp) Hj]; [discriminate|].
  split; [|split; [vm_compute; reflexivity|exact (proj2 (Hj (scramble_seed demo_key 5) 4%nat))]].
  exists out. split; [exact Ho|]. split; [exact Hp|]. vm_compute in Ho. injection Ho as <-. discriminate.
Defined.
End Payload.
