(* ===== verification/BackupRestore.v ===== *)
(** Backing up a database and restoring one: web/src/lib/backupRestore.ts over the
    payloads of BackupPayload and the archives of BackupFormat. *)
From stdpp Require Import pretty.
From S2P Require Import Prelude Bytes Base64 Utf8 Text Js JsDate PqWire Sodium LocalAtRest Json BackupFormat BackupPayload.
Import Backup Payload.

(** What Dexie promises: a cleared table is empty, the other tables are untouched,
    and rows with distinct primary keys can all be put into an empty table. *)
Class DexieLaws `{Dexie} := {
  toArray_clear : forall t d, toArray (clear t d) t = [];
  toArray_clear_other : forall t t' d, t' <> t -> toArray (clear t d) t' = toArray d t';
  bulkPut_empty : forall t rs d, t ∈ BACKUP_TABLE_ORDER -> toArray d t = [] -> distinct_keys t rs ->
    Forall (fun r => match field r (keyPath_of t) with VStr _ | VNum _ => True | _ => False end) rs ->
    exists d', bulkPut t rs d = Ok d' /\ toArray d' t ≡ₚ rs /\ forall t', t' <> t -> toArray d' t' = toArray d t' }.

(** Unicode normalisation and Argon2id. *)
Class BackupKdf := {
  nfkd : jstr -> jstr;
  argon2id : jstr -> bytes -> bytes }.

Module Restore.

(** [normalizeBackupPhrase] *)
Definition normalizeBackupPhrase (phrase : jstr) : jstr := toLowerCase (trim phrase).

Definition deriveBackupKey `{BackupKdf} (recoveryPhrase : jstr) (salt : bytes) : result bytes :=
  if blen salt <? 8 then throw "Salt KDF minimal 8 byte" else
  Ok (argon2id (nfkd recoveryPhrase) salt).

Record CreateBackupReport := mkCreated {
  created_bytes : bytes; created_salt : bytes; created_size : Z; created_frameCount : Z;
  created_records : Z; created_tables : list (jstr * Z) }.

Record RestoreBackupReport := mkRestored {
  restored_formatVersion : Z; restored_frameCount : Z; restored_size : Z;
  restored_records : Z; restored_tables : list (jstr * Z) }.

(** The counting loop of [createFramedBackup]. *)
Definition count_table (acc : list (jstr * Z) * Z) (e : jstr * list bval) : list (jstr * Z) * Z :=
  match e.2 with
  | [] => acc
  | rows => (map_set e.1 (Z.of_nat (length rows)) acc.1, acc.2 + Z.of_nat (length rows))
  end.

Section Create.
Context `{BackupValueCodec} `{JsEngine} `{BackupCryptoBackend}.

Record CreateOptions := mkCreate {
  create_key : bytes; create_salt : bytes; create_scramble : option bool; create_chunkBytes : option Z;
  create_marker : option jstr }.

Definition create_options (recordsByTable : tables) (opts : CreateOptions) : BuildOptions :=
  mkOptions recordsByTable (create_chunkBytes opts) (create_key opts) (default true (create_scramble opts))
    (create_marker opts).

(** [createFramedBackup]; [recordsByTable] is what [store.readTables] answers, the
    nonces and the salt are arguments. *)
Definition createFramedBackup (recordsByTable : tables) (opts : CreateOptions) (nonce : nat -> bytes)
  : result CreateBackupReport :=
  frames ← buildBackupFrames (create_options recordsByTable opts);
  archive ← buildBackupArchive frames (create_key opts) (create_salt opts) nonce;
  let '(tableCounts, records) := foldl count_table ([], 0) recordsByTable in
  Ok (mkCreated (archive_bytes archive) (archive_salt archive) (blen (archive_bytes archive))
        (Z.of_nat (length frames)) records tableCounts).

(** The loop over the frames of [restoreFramedBackup]: tables, counts, records. *)
Fixpoint restore_frames (frames : list BackupFrame) (recordsByTable : tables) (tableCounts : list (jstr * Z))
    (records : Z) : result (tables * list (jstr * Z) * Z) :=
  match frames with
  | [] => Ok (recordsByTable, tableCounts, records)
  | frame :: frames' =>
      chunk ← readBackupChunk frame;
      match chunk_k chunk with
      | Some (_ :: _) => throw "Arsip ini arsip riwayat perangkat (bukan backup .nyxbak)"
      | _ =>
          let n := Z.of_nat (length (chunk_records chunk)) in
          restore_frames frames' (push_records recordsByTable chunk)
            (map_set (chunk_table chunk) (default 0 (assoc (chunk_table chunk) tableCounts) + n) tableCounts)
            (records + n)
      end
  end.

Context `{Dexie}.

(** [readTablesFromDexie] *)
Definition readTablesFromDexie (d : database) (names : list jstr) : tables :=
  foldl (fun out t => map_set t (toArray d t) out) [] names.

(** [targets]: the tables that have rows. *)
Definition write_targets (recordsByTable : list (jstr * list bval)) : list (jstr * list bval) :=
  filter (fun e => e.2 <> []) recordsByTable.

(** The body of the transaction. *)
Fixpoint write_loop (targets : tables) (d : database) : result database :=
  match targets with
  | [] => Ok d
  | (t, rows) :: targets' => d ← bulkPut t rows (clear t d); write_loop targets' d
  end.

(** [writeTablesToDexie]: a transaction that throws changes nothing. *)
Definition writeTablesToDexie (recordsByTable : tables) (d : database) : result unit * database :=
  match write_targets recordsByTable with
  | [] => (Ok tt, d)
  | targets => match write_loop targets d with Ok d' => (Ok tt, d') | Err e => (Err e, d) end
  end.

Definition restoreFramedBackup (b key : bytes) (d : database) : result RestoreBackupReport * database :=
  match (header ← readBackupHeader b;
         parsed ← parseBackupArchive b key;
         r ← restore_frames (parsed_frames parsed) [] [] 0;
         Ok (header, r)) with
  | Err e => (Err e, d)
  | Ok (header, (recordsByTable, tableCounts, records)) =>
      let '(w, d') := writeTablesToDexie recordsByTable d in
      (_ ← w; Ok (mkRestored (formatVersion header) (frameCount header) (blen b) records tableCounts), d')
  end.

Definition openFramedBackupWithPhrase `{BackupKdf} (b : bytes) (phrase : jstr) (d : database)
  : result RestoreBackupReport * database :=
  match (header ← readBackupHeader b; deriveBackupKey (normalizeBackupPhrase phrase) (header_salt header)) with
  | Err e => (Err e, d)
  | Ok key => restoreFramedBackup b key d
  end.
End Create.

(** [averageFrameBytes]: Math.round of the quotient. *)
Definition averageFrameBytes (size frameCount : Z) : Z :=
  if frameCount <=? 0 then 0 else (2 * size + frameCount) / (2 * frameCount).

(** ** Lemmas *)
Section RestoreLemmas.
Context `{CL : BackupValueCodecLaws} `{JsEngine} `{BL : BackupCryptoLaws} `{DL : DexieLaws}.

Lemma readTables_map d names : NoDup names -> readTablesFromDexie d names = map (fun t => (t, toArray d t)) names.
Proof.
  unfold readTablesFromDexie. intros Hn.
  assert (Hg : forall out, NoDup (out.*1 ++ names) ->
    foldl (fun out t => map_set t (toArray d t) out) out names = out ++ map (fun t => (t, toArray d t)) names);
    [|by rewrite Hg].
  clear Hn. induction names as [|t ts IH]; intros out Hn; [by rewrite app_nil_r|]. cbn [foldl map].
  rewrite map_set_new.
  - rewrite IH, <- app_assoc; [done|]. rewrite fmap_app, <- app_assoc. done.
  - destruct (assoc t out) as [rs|] eqn:E; [|done]. exfalso. apply assoc_elem in E.
    apply NoDup_app in Hn as (_ & Hd & _). apply (Hd t); [|set_solver]. apply list_elem_of_fmap. by exists (t, rs).
Qed.

Lemma table_names_nodup : NoDup BACKUP_TABLE_ORDER.
Proof. exact table_order_nodup. Qed.

Lemma assoc_map {A} (g : jstr -> A) t names : assoc t (map (fun t => (t, g t)) names) =
  if bool_decide (t ∈ names) then Some (g t) else None.
Proof.
  induction names as [|x names IH]; [done|]. cbn [map assoc]. rewrite IH. repeat case_bool_decide; set_solver.
Qed.

Lemma rows_readTables d t :
  rows (readTablesFromDexie d BACKUP_TABLE_ORDER) t = if bool_decide (t ∈ BACKUP_TABLE_ORDER) then toArray d t else [].
Proof.
  unfold rows. rewrite readTables_map, assoc_map by apply table_names_nodup. by case_bool_decide.
Qed.

(** A database whose rows can be backed up; the primary keys of a table are distinct. *)
Definition database_ok (d : database) : Prop :=
  forall t, t ∈ BACKUP_TABLE_ORDER ->
  Forall (fun r => record_ok t r = true) (toArray d t) /\ distinct_keys t (toArray d t).

Definition create_ok (o : CreateOptions) : Prop :=
  blen (create_key o) = BACKUP_KEY_BYTES /\ blen (create_salt o) = BACKUP_SALT_BYTES /\
  128 <= default BACKUP_CHUNK_BYTES (create_chunkBytes o) <= RECORD_UNITS /\ marker_ok (create_marker o) = true.

Lemma write_loop_ok targets : forall d, NoDup targets.*1 ->
  Forall (fun e => e.1 ∈ BACKUP_TABLE_ORDER /\ distinct_keys e.1 e.2 /\
    Forall (fun r => match field r (keyPath_of e.1) with VStr _ | VNum _ => True | _ => False end) e.2) targets ->
  exists d', write_loop targets d = Ok d' /\
    forall t, match assoc t targets with Some rs => toArray d' t ≡ₚ rs | None => toArray d' t = toArray d t end.
Proof.
  induction targets as [|[t rs] ts IH]; intros d Hn Hok; [by exists d|].
  cbn [fmap list_fmap fst] in Hn. apply NoDup_cons in Hn as [Ht Hn]. apply Forall_cons in Hok as [(Hin & Hd & Hk) Hok].
  cbn [fst snd] in *. destruct (bulkPut_empty t rs (clear t d) Hin (toArray_clear t d) Hd Hk) as (d1 & Hput & Hrows & Hoth).
  destruct (IH d1 Hn Hok) as (d' & Hw & Hall). exists d'. cbn [write_loop]. rewrite Hput, bind_ok. split; [done|].
  intros t'. cbn [assoc]. specialize (Hall t'). case_bool_decide as E.
  - subst t'. destruct (assoc t ts) as [x|] eqn:Ea; [|by rewrite Hall].
    exfalso. apply Ht, list_elem_of_fmap. exists (t, x). split; [done|by apply assoc_elem].
  - destruct (assoc t' ts); [done|]. by rewrite Hall, Hoth, toArray_clear_other.
Qed.

Lemma restore_pieces pieces : forall out counts n, Forall piece_ok pieces ->
  exists counts', restore_frames (map (piece_frame None) pieces) out counts n =
    Ok (foldl push_records out (map (fun p => mkChunk p.1 (map strip p.2) None) pieces), counts',
        n + Z.of_nat (length (concat (map snd pieces)))).
Proof.
  induction pieces as [|p ps IH]; intros out counts n Hp; [exists counts; cbn; do 2 f_equal; lia|].
  apply Forall_cons in Hp as [Hp1 Hp]. cbn [map restore_frames]. rewrite (read_piece None p) by done.
  rewrite bind_ok. cbn [chunk_k chunk_records chunk_table]. edestruct IH as [c' ->]; [done|]. exists c'. do 2 f_equal.
  cbn [map concat]. rewrite length_app, length_map. lia.
Qed.

Lemma push_keys chunks : forall out, NoDup out.*1 -> NoDup (foldl push_records out chunks).*1.
Proof. induction chunks as [|c cs IH]; intros out Hn; [done|]. cbn. apply IH. by apply map_set_nodup. Qed.

Lemma assoc_targets (r : tables) t : NoDup r.*1 ->
  assoc t (write_targets r) = match rows r t with [] => None | rs => Some rs end.
Proof.
  unfold write_targets, rows. induction r as [|[t' rs] r IH]; intros Hn; [done|].
  cbn [fmap list_fmap fst] in Hn. apply NoDup_cons in Hn as [Ht Hn]. cbn [assoc].
  destruct (decide (rs = [])) as [->|Hne].
  - rewrite filter_cons_False by (cbn; tauto). rewrite IH by done. case_bool_decide; [|done]. subst t'.
    destruct (assoc t r) as [x|] eqn:E; [|done]. exfalso. apply Ht, list_elem_of_fmap. exists (t, x). split; [done|by apply assoc_elem].
  - rewrite filter_cons_True by done. cbn [assoc]. case_bool_decide; [|by apply IH]. cbn. by destruct rs.
Qed.

Lemma write_tables_ok (r : tables) d : NoDup r.*1 ->
  (forall t, rows r t <> [] -> t ∈ BACKUP_TABLE_ORDER /\ distinct_keys t (rows r t) /\
    Forall (fun x => match field x (keyPath_of t) with VStr _ | VNum _ => True | _ => False end) (rows r t)) ->
  exists d', writeTablesToDexie r d = (Ok tt, d') /\
    forall t, (rows r t <> [] -> toArray d' t ≡ₚ rows r t) /\ (rows r t = [] -> toArray d' t = toArray d t).
Proof.
  intros Hn Hok. pose proof (fun t => assoc_targets r t Hn) as Hassoc.
  assert (Hnt : NoDup (write_targets r).*1).
  { unfold write_targets. eapply sublist_NoDup; [exact Hn|]. apply fmap_sublist, sublist_filter. }
  assert (Htok : Forall (fun e => e.1 ∈ BACKUP_TABLE_ORDER /\ distinct_keys e.1 e.2 /\
    Forall (fun x => match field x (keyPath_of e.1) with VStr _ | VNum _ => True | _ => False end) e.2) (write_targets r)).
  { apply Forall_forall. intros [t rs] Hin. cbn [fst snd]. apply assoc_nodup in Hin; [|done]. rewrite Hassoc in Hin.
    destruct (rows r t) as [|x xs] eqn:E; [done|]. injection Hin as <-. rewrite <- E. apply Hok. by rewrite E. }
  destruct (write_loop_ok (write_targets r) d Hnt Htok) as (d' & Hw & Hall).
  exists d'. split.
  - unfold writeTablesToDexie. destruct (write_targets r) as [|e ts] eqn:E; [cbn in Hw; congruence|]. by rewrite Hw.
  - intros t. specialize (Hall t). rewrite Hassoc in Hall. split; intros Hr; [by destruct (rows r t)|by rewrite Hr in Hall].
Qed.

Lemma keyed_rows t rs : Forall (fun r => record_ok t r = true) rs ->
  Forall (fun x => match field x (keyPath_of t) with VStr _ | VNum _ => True | _ => False end) (map strip rs) /\
  (distinct_keys t rs -> distinct_keys t (map strip rs)).
Proof.
  intros Hok. split.
  - apply Forall_map. eapply Forall_impl; [exact Hok|]. intros r Hr. cbn beta.
    destruct (record_ok_strip t r Hr) as (_ & _ & _ & ->). unfold record_ok in Hr. bools. by destruct (field r _).
  - unfold distinct_keys. rewrite map_map. erewrite map_ext_Forall; [done|]. eapply Forall_impl; [exact Hok|].
    intros r Hr. cbn beta. symmetry. by destruct (record_ok_strip t r Hr) as (_ & _ & _ & ->).
Qed.

Lemma distinct_keys_perm t rs rs' : rs ≡ₚ rs' -> distinct_keys t rs -> distinct_keys t rs'.
Proof. unfold distinct_keys. intros Hp. by rewrite Hp. Qed.

(** Putting the pieces of a database [d] into the database [d2]. *)
Lemma write_pieces d d2 pieces : database_ok d ->
  (forall t, rows_in pieces t ≡ₚ if bool_decide (t ∈ BACKUP_TABLE_ORDER) then toArray d t else []) ->
  exists d', writeTablesToDexie (foldl push_records [] (map (fun p => mkChunk p.1 (map strip p.2) None) pieces)) d2 = (Ok tt, d') /\
    forall t, (t ∈ BACKUP_TABLE_ORDER -> toArray d t <> [] -> toArray d' t ≡ₚ map strip (toArray d t)) /\
      (t ∉ BACKUP_TABLE_ORDER \/ toArray d t = [] -> toArray d' t = toArray d2 t).
Proof.
  intros Hd Hrows. set (r := foldl _ _ _).
  assert (Hr : forall t, rows r t ≡ₚ if bool_decide (t ∈ BACKUP_TABLE_ORDER) then map strip (toArray d t) else []).
  { intros t. unfold r. rewrite rows_group. change (rows [] t) with (@nil bval). cbn [app]. rewrite Hrows.
    by case_bool_decide. }
  destruct (write_tables_ok r d2) as (d' & Hw & Hall).
  { apply push_keys. constructor. }
  { intros t Hne. specialize (Hr t). case_bool_decide as Ht; [|apply Permutation_nil_r in Hr; by rewrite Hr in Hne].
    destruct (Hd t Ht) as [Hok Hdk]. destruct (keyed_rows t (toArray d t) Hok) as [Hk Hdist]. split_and!; [done| |by rewrite Hr].
    symmetry in Hr. eapply distinct_keys_perm; [exact Hr|]. by apply Hdist. }
  exists d'. split; [done|]. intros t. destruct (Hall t) as [H1' H2']. specialize (Hr t). split.
  - intros Ht Hne. rewrite bool_decide_eq_true_2 in Hr by done. rewrite H1'; [done|]. intros E. rewrite E in Hr.
    apply Permutation_nil_l in Hr. by destruct (toArray d t).
  - intros Ht. apply H2'. apply Permutation_nil_r. rewrite Hr. case_bool_decide; [|done]. destruct Ht as [Ht|Ht]; [done|]. by rewrite Ht.
Qed.

(** Whatever the tables come from: the archive of a build holds its pieces, and a
    build of at most 65535 rows is made. *)
Lemma tables_options_ok r o : tables_ok r -> create_ok o -> options_ok (create_options r o).
Proof. intros Hr (_ & _ & Hc & Hm). split; [done|split; done]. Qed.

Lemma create_pieces r o nonce frames : tables_ok r -> create_ok o ->
  (forall k, blen (nonce k) = BACKUP_NONCE_BYTES) -> buildBackupFrames (create_options r o) = Ok frames ->
  exists pieces a, Forall piece_ok pieces /\ pieces <> [] /\ frames = map (piece_frame (create_marker o)) pieces /\
    (forall t, rows_in pieces t ≡ₚ if bool_decide (t ∈ BACKUP_TABLE_ORDER) then rows r t else []) /\
    buildBackupArchive frames (create_key o) (create_salt o) nonce = Ok a /\
    parseBackupArchive (archive_bytes a) (create_key o) =
      Ok (mkParsed (map (piece_frame (create_marker o)) pieces) (create_salt o) BACKUP_FORMAT_VERSION) /\
    64 <= blen (archive_bytes a).
Proof.
  intros Hr Ho Hn Ef. pose proof (tables_options_ok r o Hr Ho) as Hopt. destruct Ho as (Hk & Hs & _ & Hm).
  destruct (build_spec _ _ Hopt Ef) as (pieces & -> & Hp & Hne & Hmax & Hrows). cbn [create_options opt_marker opt_records] in *.
  destruct (backup_roundtrip (map (piece_frame (create_marker o)) pieces) (create_key o) (create_salt o) nonce)
    as (a & Ha & _ & Hparse & Hlen); try done.
  { by destruct pieces. }
  { by rewrite length_map. }
  { apply Forall_map. eapply Forall_impl; [exact Hp|]. intros [t rs] (Ht & _ & Hrs & Hsum). cbn. by apply chunk_payload_size. }
  exists pieces, a. split_and!; try done. rewrite Hlen. destruct pieces as [|p ps]; [done|]. cbn [map foldr].
  assert (Hpos : forall fs, 0 <= foldr (fun f sum => sum + (49 + padded_size (blen (frame_payload f)))) 0 fs).
  { induction fs as [|f fs IH]; [done|]. cbn [foldr]. pose proof (blen_nonneg (frame_payload f)). unfold padded_size in *. dlia. }
  specialize (Hpos (map (piece_frame (create_marker o)) ps)). pose proof (blen_nonneg (frame_payload (piece_frame (create_marker o) p))).
  unfold padded_size in *. dlia.
Qed.

Lemma create_archive_of r o nonce report : tables_ok r -> create_ok o ->
  (forall k, blen (nonce k) = BACKUP_NONCE_BYTES) -> createFramedBackup r o nonce = Ok report ->
  exists pieces, Forall piece_ok pieces /\ pieces <> [] /\
    (forall t, rows_in pieces t ≡ₚ if bool_decide (t ∈ BACKUP_TABLE_ORDER) then rows r t else []) /\
    parseBackupArchive (created_bytes report) (create_key o) =
      Ok (mkParsed (map (piece_frame (create_marker o)) pieces) (create_salt o) BACKUP_FORMAT_VERSION) /\
    created_size report = blen (created_bytes report) /\ 64 <= blen (created_bytes report).
Proof.
  intros Hr Ho Hn Hc. unfold createFramedBackup in Hc.
  destruct (buildBackupFrames _) as [frames|] eqn:Ef; [|done]. rewrite bind_ok in Hc.
  destruct (create_pieces r o nonce frames Hr Ho Hn Ef) as (pieces & a & Hp & Hne & _ & Hrows & Ha & Hparse & Hlen).
  rewrite Ha, bind_ok in Hc. destruct (foldl count_table _ _) as [counts n]. injection Hc as <-. cbn [created_bytes created_size].
  by exists pieces.
Qed.

Lemma create_total_of r o nonce : tables_ok r -> create_ok o -> (forall k, blen (nonce k) = BACKUP_NONCE_BYTES) ->
  0 < record_count r <= BACKUP_MAX_FRAMES -> exists report, createFramedBackup r o nonce = Ok report.
Proof.
  intros Hr Ho Hn Hc. pose proof (tables_options_ok r o Hr Ho) as Hopt. unfold createFramedBackup.
  edestruct (build_total _ Hopt Hc) as [frames Ef].
  { cbn. intros _ E. destruct Ho as (Hk & _). rewrite E in Hk. done. }
  rewrite Ef, bind_ok. destruct (create_pieces r o nonce frames Hr Ho Hn Ef) as (pieces & a & _ & _ & _ & _ & Ha & _).
  rewrite Ha, bind_ok. destruct (foldl count_table _ _). by eexists.
Qed.

Lemma database_tables_ok d : database_ok d -> tables_ok (readTablesFromDexie d BACKUP_TABLE_ORDER).
Proof.
  intros Hd. unfold tables_ok. rewrite readTables_map by apply table_names_nodup.
  apply Forall_map, Forall_forall. intros t Ht. cbn. split; [done|by apply Hd].
Qed.

Lemma create_archive d o nonce report : database_ok d -> create_ok o ->
  (forall k, blen (nonce k) = BACKUP_NONCE_BYTES) ->
  createFramedBackup (readTablesFromDexie d BACKUP_TABLE_ORDER) o nonce = Ok report ->
  exists pieces, Forall piece_ok pieces /\ pieces <> [] /\
    (forall t, rows_in pieces t ≡ₚ if bool_decide (t ∈ BACKUP_TABLE_ORDER) then toArray d t else []) /\
    parseBackupArchive (created_bytes report) (create_key o) =
      Ok (mkParsed (map (piece_frame (create_marker o)) pieces) (create_salt o) BACKUP_FORMAT_VERSION).
Proof.
  intros Hd Ho Hn Hc.
  destruct (create_archive_of _ o nonce report (database_tables_ok d Hd) Ho Hn Hc) as (pieces & Hp & Hne & Hrows & Hparse & _).
  exists pieces. split_and!; [done|done| |done]. intros t. rewrite Hrows, rows_readTables. by case_bool_decide.
Qed.

Lemma parse_header b key p : parseBackupArchive b key = Ok p -> exists h, readBackupHeader b = Ok h.
Proof. unfold parseBackupArchive. destruct (readBackupHeader b) as [h|]; [by exists h|done]. Qed.

(** C30: a backup restores the database. For a database whose rows are within the
    limits of the format (values JSON can carry, rows of at most [RECORD_UNITS] code
    units), with at most 65535 rows in the backed-up tables and at least one, the
    archive is created; and restoring any archive so created into any database [d2]
    with the same key succeeds: every table that had rows holds exactly those rows
    (with absent fields dropped and ArrayBuffers as Uint8Arrays), whatever [d2] held
    there before, and every other table of [d2] is left as it was. *)
Theorem backup_restore_exact d d2 o nonce :
  database_ok d -> create_ok o -> create_marker o = None -> (forall k, blen (nonce k) = BACKUP_NONCE_BYTES) ->
  (0 < record_count (readTablesFromDexie d BACKUP_TABLE_ORDER) <= BACKUP_MAX_FRAMES ->
   exists report, createFramedBackup (readTablesFromDexie d BACKUP_TABLE_ORDER) o nonce = Ok report) /\
  (forall report, createFramedBackup (readTablesFromDexie d BACKUP_TABLE_ORDER) o nonce = Ok report ->
   exists rep d', restoreFramedBackup (created_bytes report) (create_key o) d2 = (Ok rep, d') /\
     forall t, (t ∈ BACKUP_TABLE_ORDER -> toArray d t <> [] -> toArray d' t ≡ₚ map strip (toArray d t)) /\
       (t ∉ BACKUP_TABLE_ORDER \/ toArray d t = [] -> toArray d' t = toArray d2 t)).
Proof.
  intros Hd Ho Hm Hn. split; [by apply create_total_of; [apply database_tables_ok|..]|]. intros report Hc.
  destruct (create_archive d o nonce report Hd Ho Hn Hc) as (pieces & Hp & _ & Hrows & Hparse). rewrite Hm in Hparse.
  unfold restoreFramedBackup. destruct (parse_header _ _ _ Hparse) as [h Hh]. rewrite Hh, bind_ok, Hparse, bind_ok.
  cbn [parsed_frames]. destruct (restore_pieces pieces [] [] 0 Hp) as [counts Hr]. rewrite Hr, bind_ok. cbv beta iota.
  destruct (write_pieces d d2 pieces Hd Hrows) as (d' & Hw & Hall). rewrite Hw, bind_ok. by eexists _, d'.
Qed.

Lemma count_same (l l' : tables) : Forall2 (fun e e' => e.1 = e'.1 /\ length e.2 = length e'.2) l l' ->
  forall acc, foldl count_table acc l = foldl count_table acc l'.
Proof.
  induction 1 as [|[t rs] [t' rs'] l l' [Ht Hl] _ IH]; intros acc; [done|]. cbn [foldl]. rewrite IH. f_equal.
  cbn in Ht, Hl. subst t'. unfold count_table. cbn [fst snd]. destruct rs, rs'; try done. by rewrite Hl.
Qed.

(** Exporting is reproducible. Restoring a backup into an empty database and
    backing that database up again, with the same key, salt and nonces, gives the
    same archive byte for byte and the same report, although the database may return
    its rows in another order and the frames are shuffled. *)
Theorem backup_reexport_identical d d2 o nonce report :
  database_ok d -> create_ok o -> create_marker o = None -> (forall k, blen (nonce k) = BACKUP_NONCE_BYTES) ->
  (forall t, t ∈ BACKUP_TABLE_ORDER -> toArray d2 t = []) ->
  createFramedBackup (readTablesFromDexie d BACKUP_TABLE_ORDER) o nonce = Ok report ->
  exists rep d', restoreFramedBackup (created_bytes report) (create_key o) d2 = (Ok rep, d') /\
    createFramedBackup (readTablesFromDexie d' BACKUP_TABLE_ORDER) o nonce = Ok report.
Proof.
  intros Hd Ho Hm Hn Hempty Hc.
  destruct (create_archive d o nonce report Hd Ho Hn Hc) as (pieces & Hp & _ & Hrows & Hparse). rewrite Hm in Hparse.
  unfold restoreFramedBackup. destruct (parse_header _ _ _ Hparse) as [h Hh]. rewrite Hh, bind_ok, Hparse, bind_ok.
  cbn [parsed_frames]. destruct (restore_pieces pieces [] [] 0 Hp) as [counts Hr]. rewrite Hr, bind_ok. cbv beta iota.
  destruct (write_pieces d d2 pieces Hd Hrows) as (d' & Hw & Hall). rewrite Hw, bind_ok. eexists _, d'. split; [done|].
  assert (Hsame : forall t, t ∈ BACKUP_TABLE_ORDER -> toArray d' t ≡ₚ map strip (toArray d t)).
  { intros t Ht. destruct (Hall t) as [H1' H2']. destruct (toArray d t) as [|x xs] eqn:E; [|by apply H1'].
    rewrite H2', Hempty by auto. done. }
  assert (Hd' : database_ok d').
  { intros t Ht. destruct (Hd t Ht) as [Hok Hdk]. specialize (Hsame t Ht). split.
    - rewrite Hsame. apply Forall_map. eapply Forall_impl; [exact Hok|]. intros r Hrk. by apply record_ok_strip in Hrk as [? _].
    - symmetry in Hsame. eapply distinct_keys_perm; [exact Hsame|]. by apply (keyed_rows t _ Hok). }
  rewrite <- Hc. unfold createFramedBackup.
  assert (Hrd : forall t e, t ∈ BACKUP_TABLE_ORDER -> rows (readTablesFromDexie e BACKUP_TABLE_ORDER) t = toArray e t)
    by (intros t e Ht; by rewrite rows_readTables, bool_decide_eq_true_2).
  rewrite (build_same (create_options (readTablesFromDexie d BACKUP_TABLE_ORDER) o)
    (create_options (readTablesFromDexie d' BACKUP_TABLE_ORDER) o));
    [|by apply tables_options_ok; [apply database_tables_ok|]|by apply tables_options_ok; [apply database_tables_ok|]
     |intros t Ht; cbn [create_options opt_records]; rewrite Hrd by done; by apply Hd
     |intros t Ht; cbn [create_options opt_records]; rewrite !Hrd by done; by apply Hsame|done..].
  rewrite (count_same (readTablesFromDexie d' BACKUP_TABLE_ORDER) (readTablesFromDexie d BACKUP_TABLE_ORDER)); [done|].
  rewrite !readTables_map by apply table_names_nodup. apply Forall2_fmap_2, Forall_Forall2_diag, Forall_forall.
  intros t Ht. cbn [fst snd]. split; [done|]. by rewrite (Hsame t Ht), length_map.
Qed.

(** An archive with a marker is refused before anything is written. *)
Lemma marked_archive_refused r d2 o nonce report c m :
  tables_ok r -> create_ok o -> create_marker o = Some (c :: m) -> (forall k, blen (nonce k) = BACKUP_NONCE_BYTES) ->
  createFramedBackup r o nonce = Ok report ->
  restoreFramedBackup (created_bytes report) (create_key o) d2 =
    (Err "Arsip ini arsip riwayat perangkat (bukan backup .nyxbak)", d2).
Proof.
  intros Hd Ho Hm Hn Hc. destruct (create_archive_of r o nonce report Hd Ho Hn Hc) as (pieces & Hp & Hne & Hrows & Hparse & _).
  unfold restoreFramedBackup. destruct (parse_header _ _ _ Hparse) as [h Hh]. rewrite Hh, bind_ok, Hparse, bind_ok.
  cbn [parsed_frames]. destruct pieces as [|p ps]; [done|]. apply Forall_cons in Hp as [Hp _]. cbn [map restore_frames].
  destruct Ho as (_ & _ & _ & Hmk). rewrite (read_piece _ p Hmk Hp), bind_ok. cbn [chunk_k]. by rewrite Hm.
Qed.
End RestoreLemmas.

(** ** Concrete runs *)
Import Toy ToyBackup.
Module ToyDatabase.
#[export] Instance toy_engine : JsEngine := {| date_text _ := []; date_other _ := None |}.

(** Tables as a function; [toArray] answers the rows last first. *)
#[export] Instance toy_dexie : Dexie := {|
  database := jstr -> list bval;
  toArray d t := reverse (d t);
  clear t d := fun t' => if bool_decide (t' = t) then [] else d t';
  bulkPut t rs d := Ok (fun t' => if bool_decide (t' = t) then d t' ++ rs else d t') |}.

#[export] Instance toy_dexie_laws : DexieLaws.
Proof.
  split.
  - intros t d. cbn [toArray clear toy_dexie]. by rewrite bool_decide_eq_true_2.
  - intros t t' d Hne. cbn [toArray clear toy_dexie]. by rewrite bool_decide_eq_false_2.
  - intros t rs d _ Hd _ _. eexists. split; [reflexivity|]. cbn [toArray toy_dexie] in *. split.
    + rewrite bool_decide_eq_true_2 by done. rewrite reverse_app, Hd, app_nil_r. apply reverse_Permutation.
    + intros t' Hne. by rewrite bool_decide_eq_false_2.
Qed.

Definition contact (id : string) (name : bval) : bval :=
  VObj [(js "userId", VStr (js id)); (js "name", name); (js "addedAt", VDate (Some 1700000000000))].
Definition pre_key (id : Z) : bval :=
  VObj [(js "keyId", VNum id); (js "publicKey", VBuffer [x01; x02]); (js "used", VUndef)].

Definition demo_db : database := fun t =>
  if bool_decide (t = js "contacts") then [contact "bob" (VStr (js "Bob")); contact "alice" VNull] else
  if bool_decide (t = js "preKeys") then [pre_key 12; pre_key 7] else [].
Definition empty_db : database := fun _ => [].

Definition demo_create : CreateOptions := mkCreate (zeros 32) (zeros 16) None None None.

Lemma demo_db_ok : database_ok demo_db.
Proof.
  intros t Ht.
  assert (Hall : Forall (fun t => Forall (fun r => record_ok t r = true) (toArray demo_db t))
    BACKUP_TABLE_ORDER).
  { apply (bool_decide_unpack _). vm_compute. exact I. }
  split; [exact (proj1 (Forall_forall _ _) Hall t Ht)|].
  cbn [toArray toy_dexie]. unfold demo_db. repeat case_bool_decide; [subst t..|constructor].
  - apply NoDup_cons. split; [|apply NoDup_singleton]. intros E%list_elem_of_singleton. vm_compute in E. discriminate.
  - apply NoDup_cons. split; [|apply NoDup_singleton]. intros E%list_elem_of_singleton. vm_compute in E. discriminate.
Qed.
End ToyDatabase.
Import ToyDatabase.

Lemma backup_restore_exact_witness :
  exists report rep d', createFramedBackup (readTablesFromDexie demo_db BACKUP_TABLE_ORDER) demo_create (fun _ => zeros 24) = Ok report /\
    restoreFramedBackup (created_bytes report) (zeros 32) empty_db = (Ok rep, d') /\
    toArray d' (js "contacts") ≡ₚ map strip (toArray demo_db (js "contacts")).
Proof.
  destruct (backup_restore_exact demo_db empty_db demo_create (fun _ => zeros 24)) as [Hc Hr].
  - exact demo_db_ok.
  - split; [reflexivity|]. split; [reflexivity|]. split; [split; vm_compute; discriminate|reflexivity].
  - reflexivity.
  - reflexivity.
  - destruct Hc as [report Hc]; [split; vm_compute; (reflexivity || discriminate)|].
    destruct (Hr report Hc) as (rep & d' & Hrep & Hrows). exists report, rep, d'. split; [exact Hc|]. split; [exact Hrep|].
    apply (proj1 (Hrows (js "contacts"))); [|vm_compute; discriminate].
    apply (bool_decide_unpack _). vm_compute. exact I.
Defined.

Lemma backup_reexport_identical_witness :
  exists report rep d', createFramedBackup (readTablesFromDexie demo_db BACKUP_TABLE_ORDER) demo_create (fun _ => zeros 24) = Ok report /\
    created_records report = 4 /\
    restoreFramedBackup (created_bytes report) (zeros 32) empty_db = (Ok rep, d') /\
    createFramedBackup (readTablesFromDexie d' BACKUP_TABLE_ORDER) demo_create (fun _ => zeros 24) = Ok report.
Proof.
  destruct (createFramedBackup (readTablesFromDexie demo_db BACKUP_TABLE_ORDER) demo_create (fun _ => zeros 24)) as [report|] eqn:Hc;
    [|vm_compute in Hc; discriminate Hc].
  destruct (backup_reexport_identical demo_db empty_db demo_create (fun _ => zeros 24) report) as (rep & d' & Hr & He).
  - exact demo_db_ok.
  - split; [reflexivity|]. split; [reflexivity|]. split; [split; vm_compute; discriminate|reflexivity].
  - reflexivity.
  - reflexivity.
  - reflexivity.
  - exact Hc.
  - exists report, rep, d'. split; [reflexivity|]. split; [|split; [exact Hr|exact He]].
    vm_compute in Hc. injection Hc as <-. reflexivity.
Defined.
End Restore.
