(* ===== verification/Effects.v ===== *)
(** Asynchronous handlers as sequences of atomic commands. Between two [await]s other
    requests run, so a handler is a tree of the commands it sends to Redis, to the
    database and to the object store; requests interleave at the commands. Also the
    part of Redis the program uses: keys with an expiry time. *)
From S2P Require Import Prelude.

(** A handler that answers an [A]: finished, or one command and what follows. *)
Inductive prog (cmd : Type -> Type) (A : Type) : Type :=
| Ret (a : A)
| Vis {X : Type} (c : cmd X) (k : X -> prog cmd A).
Arguments Ret {cmd A} a.
Arguments Vis {cmd A X} c k.

Fixpoint prog_bind {cmd A B} (p : prog cmd A) (f : A -> prog cmd B) : prog cmd B :=
  match p with Ret a => f a | Vis c k => Vis c (fun x => prog_bind (k x) f) end.
#[global] Instance prog_mret {cmd} : MRet (prog cmd) := fun A a => Ret a.
#[global] Instance prog_mbind {cmd} : MBind (prog cmd) := fun A B f p => prog_bind p f.

Definition call {cmd X} (c : cmd X) : prog cmd X := Vis c Ret.

Section Semantics.
Context {cmd : Type -> Type} {W : Type} (do_cmd : forall X, cmd X -> W -> X * W).

(** One request running alone. *)
Fixpoint run {A} (p : prog cmd A) (w : W) : A * W :=
  match p with
  | Ret a => (a, w)
  | Vis c k => let '(x, w') := do_cmd _ c w in run (k x) w'
  end.

(** A request executes its next command. *)
Definition advance {A} (p : prog cmd A) (w : W) : prog cmd A * W :=
  match p with
  | Ret a => (Ret a, w)
  | Vis c k => let '(x, w') := do_cmd _ c w in (k x, w')
  end.

(** Requests in flight and the shared state; [env] is what happens besides them. *)
Inductive sys_step {A} (env : W -> W -> Prop) : relation (list (prog cmd A) * W) :=
| sys_run ts w i p : ts !! i = Some p -> sys_step env (ts, w) (<[i := (advance p w).1]> ts, (advance p w).2)
| sys_env ts w w' : env w w' -> sys_step env (ts, w) (ts, w').

(** The same by a schedule of the requests that take turns. *)
Definition turn {A} (s : list (prog cmd A) * W) (i : nat) : list (prog cmd A) * W :=
  match s.1 !! i with
  | Some p => (<[i := (advance p s.2).1]> s.1, (advance p s.2).2)
  | None => s
  end.
Definition play {A} (schedule : list nat) (s : list (prog cmd A) * W) : list (prog cmd A) * W :=
  foldl turn s schedule.

Lemma run_bind {A B} (p : prog cmd A) (f : A -> prog cmd B) w :
  run (p ≫= f) w = let '(x, w') := run p w in run (f x) w'.
Proof.
  revert w. induction p as [a|X c k IH]; intros w; [done|]. cbn. destruct (do_cmd X c w) as [x w']. apply IH.
Qed.

Lemma run_call {A X} (c : cmd X) (f : X -> prog cmd A) w :
  run (call c ≫= f) w = let '(x, w') := do_cmd _ c w in run (f x) w'.
Proof. done. Qed.

(** One request runs for a while and the others wait. *)
Definition adv {A} : relation (prog cmd A * W) := fun x y => y = advance x.1 x.2.

Lemma adv_bind {A B} (f : A -> prog cmd B) x y : rtc adv x y -> rtc adv (x.1 ≫= f, x.2) (y.1 ≫= f, y.2).
Proof.
  induction 1 as [x|x y z Hxy _ IH]; [done|]. etransitivity; [|exact IH]. unfold adv in Hxy. subst y.
  destruct x as [[a|X c k] w]; cbn; [done|]. apply rtc_once. unfold adv. cbn. by destruct (do_cmd X c w).
Qed.

Lemma adv_under {A B} (f : A -> prog cmd B) p w p' w' : rtc adv (p, w) (p', w') -> rtc adv (p ≫= f, w) (p' ≫= f, w').
Proof. exact (adv_bind f (p, w) (p', w')). Qed.

Lemma adv_run {A} (p : prog cmd A) w : rtc adv (p, w) (Ret (run p w).1, (run p w).2).
Proof.
  revert w. induction p as [a|X c k IH]; intros w; [done|]. eapply rtc_l; [reflexivity|]. cbn.
  destruct (do_cmd X c w) as [x w']. apply IH.
Qed.

Lemma adv_run_bind {A B} (p : prog cmd A) (f : A -> prog cmd B) w a w' : run p w = (a, w') -> rtc adv (p ≫= f, w) (f a, w').
Proof. intros Hr. pose proof (adv_bind f _ _ (adv_run p w)) as Ha. rewrite Hr in Ha. exact Ha. Qed.

Lemma adv_then {A B C} (p : prog cmd A) (f : A -> prog cmd B) (g : B -> prog cmd C) w a w' y :
  run p w = (a, w') -> rtc adv (f a ≫= g, w') y -> rtc adv ((p ≫= f) ≫= g, w) y.
Proof. intros Hr Hy. etransitivity; [|exact Hy]. by apply adv_under, adv_run_bind. Qed.

Lemma adv_then2 {A B C D} (p : prog cmd A) (f : A -> prog cmd B) (g : B -> prog cmd C) (h : C -> prog cmd D) w a w' y :
  run p w = (a, w') -> rtc adv ((f a ≫= g) ≫= h, w') y -> rtc adv (((p ≫= f) ≫= g) ≫= h, w) y.
Proof. intros Hr Hy. etransitivity; [|exact Hy]. by apply adv_under, adv_under, adv_run_bind. Qed.

Lemma adv_sys {A} env (x y : prog cmd A * W) : rtc adv x y -> forall ts i, ts !! i = Some x.1 ->
  rtc (sys_step env) (ts, x.2) (<[i := y.1]> ts, y.2).
Proof.
  induction 1 as [x|x y z Hxy _ IH]; intros ts i Hi; [by rewrite list_insert_id|].
  unfold adv in Hxy. subst y. eapply rtc_l; [by apply sys_run|].
  specialize (IH (<[i := (advance x.1 x.2).1]> ts) i). rewrite list_insert_insert_eq in IH. apply IH.
  apply list_lookup_insert_eq. by apply lookup_lt_Some in Hi.
Qed.

Lemma play_steps {A} env schedule (s : list (prog cmd A) * W) : rtc (sys_step env) s (play schedule s).
Proof.
  revert s. induction schedule as [|i l IH]; intros s; [done|]. cbn. etransitivity; [|apply IH].
  unfold turn. destruct s as [ts w]. cbn. destruct (ts !! i) as [p|] eqn:E; [|done]. by apply rtc_once, sys_run.
Qed.
End Semantics.

(** Every command a handler may send satisfies [P]. *)
Fixpoint sends {cmd A} (P : forall X, cmd X -> Prop) (p : prog cmd A) : Prop :=
  match p with Ret _ => True | Vis c k => P _ c /\ forall x, sends P (k x) end.

Lemma sends_bind {cmd A B} P (p : prog cmd A) (f : A -> prog cmd B) :
  sends P p -> (forall a, sends P (f a)) -> sends P (p ≫= f).
Proof.
  intros Hp Hf. induction p as [a|X c k IH]; [apply Hf|]. destruct Hp as [Hc Hk]. split; [done|].
  intros x. apply IH, Hk.
Qed.

Lemma sends_advance {cmd A W} (do_cmd : forall X, cmd X -> W -> X * W) P (p : prog cmd A) w :
  sends P p -> sends P (advance do_cmd p w).1.
Proof. destruct p as [a|X c k]; [done|]. intros [_ Hk]. cbn. destruct (do_cmd X c w). apply Hk. Qed.

Lemma sends_step {cmd A W} (do_cmd : forall X, cmd X -> W -> X * W) env (P : forall X, cmd X -> Prop)
    (s s' : list (prog cmd A) * W) :
  sys_step do_cmd env s s' -> Forall (sends P) s.1 -> Forall (sends P) s'.1.
Proof.
  intros [ts w i p Hi|ts w w' He] Hts; [|done]. cbn in *.
  apply Forall_insert; [done|]. apply sends_advance. by apply (Forall_lookup_1 _ _ _ _ Hts Hi).
Qed.

(** Rely and guarantee: every command a handler sends satisfies [G], provided the
    answers it gets satisfy [R]; what it answers itself satisfies [Q]. *)
Fixpoint obeys {cmd A} (G : forall X, cmd X -> Prop) (R : forall X, cmd X -> X -> Prop) (Q : A -> Prop)
    (p : prog cmd A) : Prop :=
  match p with Ret a => Q a | Vis c k => G _ c /\ forall x, R _ c x -> obeys G R Q (k x) end.

Section RelyGuarantee.
Context {cmd : Type -> Type} {W : Type} (do_cmd : forall X, cmd X -> W -> X * W).
Context (G : forall X, cmd X -> Prop) (R : forall X, cmd X -> X -> Prop).

Lemma obeys_bind {A B} (Q : A -> Prop) (Q' : B -> Prop) (p : prog cmd A) f :
  obeys G R Q p -> (forall a, Q a -> obeys G R Q' (f a)) -> obeys G R Q' (p ≫= f).
Proof.
  intros Hp Hf. induction p as [a|X c k IH]; [by apply Hf|]. destruct Hp as [Hc Hk]. split; [done|].
  intros x Hx. by apply IH, Hk.
Qed.

Lemma obeys_call {X A} (Q : A -> Prop) (c : cmd X) f :
  G _ c -> (forall x, R _ c x -> obeys G R Q (f x)) -> obeys G R Q (call c ≫= f).
Proof. done. Qed.

Lemma obeys_weaken {A} (Q Q' : A -> Prop) (p : prog cmd A) :
  (forall a, Q a -> Q' a) -> obeys G R Q p -> obeys G R Q' p.
Proof. intros HQ. induction p as [a|X c k IH]; [apply HQ|]. intros [Hc Hk]. split; [done|]. intros x Hx. by apply IH, Hk. Qed.

(** An invariant that justifies the answers and survives the commands holds on every
    interleaving. *)
Lemma obeys_invariant {A} (env : W -> W -> Prop) (Q : A -> Prop) (Inv : W -> Prop) :
  (forall X (c : cmd X) w, Inv w -> G _ c -> R _ c (do_cmd _ c w).1 /\ Inv (do_cmd _ c w).2) ->
  (forall w w', env w w' -> Inv w -> Inv w') ->
  forall s s', rtc (sys_step do_cmd env) s s' -> Forall (obeys G R Q) s.1 -> Inv s.2 ->
  Forall (obeys G R Q) s'.1 /\ Inv s'.2.
Proof.
  intros Hcmd Henv s s' Hrun Hts Hw.
  apply (rtc_invariant (sys_step do_cmd env) (fun s => Forall (obeys G R Q) s.1 /\ Inv s.2)) in Hrun; [done| |done].
  intros x y [Hts' Hw'] Hstep. destruct Hstep as [ts w i p Hi|ts w w' He]; cbn [fst snd] in *; [|by eauto].
  apply (Forall_lookup_1 _ _ _ _ Hts') in Hi as Hp. destruct p as [a|X c k]; cbn in *.
  - split; [|done]. by apply Forall_insert.
  - destruct Hp as [Hc Hk]. destruct (Hcmd X c w Hw' Hc) as [HR HI]. destruct (do_cmd X c w) as [x w']. cbn in *.
    split; [|done]. apply Forall_insert; [done|]. by apply Hk.
Qed.
End RelyGuarantee.

(** Protocols: every request is in a phase. [ok] says which commands it may send there,
    [trans] which answers move it to which phase, [fin] what it may answer. *)
Section Protocols.
Context {cmd : Type -> Type} {W Ph : Type} (do_cmd : forall X, cmd X -> W -> X * W).
Context (ok : Ph -> forall X, cmd X -> Prop) (trans : Ph -> forall X, cmd X -> X -> Ph -> Prop).

Fixpoint follows {A} (fin : Ph -> A -> Prop) (ph : Ph) (p : prog cmd A) : Prop :=
  match p with Ret a => fin ph a | Vis c k => ok ph _ c /\ forall x ph', trans ph _ c x ph' -> follows fin ph' (k x) end.

Lemma follows_bind {A B} (fin : Ph -> B -> Prop) ph (p : prog cmd A) f :
  follows (fun ph a => follows fin ph (f a)) ph p -> follows fin ph (p ≫= f).
Proof. revert ph. induction p as [a|X c k IH]; intros ph; [done|]. intros [Hc Hk]. split; [done|]. intros x ph' Hx. by apply IH, Hk. Qed.

Lemma follows_weaken {A} (fin fin' : Ph -> A -> Prop) ph (p : prog cmd A) :
  (forall ph a, fin ph a -> fin' ph a) -> follows fin ph p -> follows fin' ph p.
Proof.
  intros Hf. revert ph. induction p as [a|X c k IH]; intros ph; [apply Hf|]. intros [Hc Hk]. split; [done|].
  intros x ph' Hx. by apply IH, Hk.
Qed.

(** What holds of phases and state while [live] does; [live] is not regained. *)
Lemma follows_invariant {A} (env : W -> W -> Prop) (live : W -> Prop) (fin : Ph -> A -> Prop) (Inv : list Ph -> W -> Prop) :
  (forall X (c : cmd X) w, live (do_cmd _ c w).2 -> live w) -> (forall w w', env w w' -> live w' -> live w) ->
  (forall phs w i ph X (c : cmd X), Inv phs w -> live w -> live (do_cmd _ c w).2 -> phs !! i = Some ph -> ok ph _ c ->
     exists ph', trans ph _ c (do_cmd _ c w).1 ph' /\ Inv (<[i := ph']> phs) (do_cmd _ c w).2) ->
  (forall phs w w', env w w' -> Inv phs w -> Inv phs w') ->
  forall s s', rtc (sys_step do_cmd env) s s' -> live s'.2 -> forall phs, Forall2 (follows fin) phs s.1 -> Inv phs s.2 ->
  exists phs', Forall2 (follows fin) phs' s'.1 /\ Inv phs' s'.2.
Proof.
  intros Hlc Hle Hcmd Henv s s' Hrun Hl phs Hf Hi. revert s' Hrun Hl.
  refine (rtc_ind_r _ s _ _); [by exists phs|]. intros s1 s2 _ Hstep IH Hl.
  destruct Hstep as [ts w i p Hp|ts w w' He]; cbn [fst snd] in *.
  - destruct p as [a|X c k]; cbn [advance fst snd] in *; [rewrite list_insert_id by done; by apply IH|].
    specialize (Hlc X c w).
    assert (Hl2 : live (do_cmd X c w).2) by (by destruct (do_cmd X c w)). destruct (IH (Hlc Hl2)) as (phs' & Hf' & Hi').
    destruct (Forall2_lookup_r _ _ _ _ _ Hf' Hp) as (ph & Hph & [Hok Hk]).
    destruct (Hcmd phs' w i ph X c Hi' (Hlc Hl2) Hl2 Hph Hok) as (ph' & Htr & Hi2). exists (<[i := ph']> phs').
    destruct (do_cmd X c w) as [x w']. cbn in *. split; [|done]. apply Forall2_insert; [done|]. by apply Hk.
  - destruct (IH (Hle _ _ He Hl)) as (phs' & Hf' & Hi'). exists phs'. split; [done|]. by apply (Henv _ w).
Qed.
End Protocols.

(** ** Redis *)
Record entry (V : Type) := mkEntry { e_value : V; e_expires : Z }.
Arguments mkEntry {V}.
Arguments e_value {V}.
Arguments e_expires {V}.

Section Redis.
Context `{Countable K} {V : Type}.

(** [GET]: a key is gone once its time is over. [now] in milliseconds. *)
Definition redis_get (now : Z) (k : K) (s : gmap K (entry V)) : option V :=
  match s !! k with Some e => if now <? e_expires e then Some (e_value e) else None | None => None end.
(** [SETEX] *)
Definition redis_setEx (now : Z) (k : K) (ttlSeconds : Z) (v : V) (s : gmap K (entry V)) : gmap K (entry V) :=
  <[k := mkEntry v (now + ttlSeconds * 1000)]> s.
(** [DEL] *)
Definition redis_del (ks : list K) (s : gmap K (entry V)) : gmap K (entry V) := foldr delete s ks.
(** [GETDEL] *)
Definition redis_getDel (now : Z) (k : K) (s : gmap K (entry V)) : option V * gmap K (entry V) := (redis_get now k s, delete k s).

Lemma get_live now k e (s : gmap K (entry V)) : s !! k = Some e -> now < e_expires e -> redis_get now k s = Some (e_value e).
Proof. intros Hk Ht. unfold redis_get. rewrite Hk. by replace (_ <? _) with true by lia. Qed.

Lemma get_dead now k e (s : gmap K (entry V)) : s !! k = Some e -> e_expires e <= now -> redis_get now k s = None.
Proof. intros Hk Ht. unfold redis_get. rewrite Hk. by replace (_ <? _) with false by lia. Qed.

Lemma get_set now now' k ttl v (s : gmap K (entry V)) :
  now' < now + ttl * 1000 -> redis_get now' k (redis_setEx now k ttl v s) = Some v.
Proof. intros Ht. unfold redis_get, redis_setEx. rewrite lookup_insert_eq. cbn. by replace (_ <? _) with true by lia. Qed.

Lemma get_set_expired now now' k ttl v (s : gmap K (entry V)) :
  now + ttl * 1000 <= now' -> redis_get now' k (redis_setEx now k ttl v s) = None.
Proof. intros Ht. unfold redis_get, redis_setEx. rewrite lookup_insert_eq. cbn. by replace (_ <? _) with false by lia. Qed.

Lemma get_set_ne now now' k k' ttl v (s : gmap K (entry V)) :
  k' <> k -> redis_get now' k' (redis_setEx now k ttl v s) = redis_get now' k' s.
Proof. intros Hne. unfold redis_get, redis_setEx. by rewrite lookup_insert_ne. Qed.

Lemma get_del now k ks (s : gmap K (entry V)) : redis_get now k (redis_del ks s) = if bool_decide (k ∈ ks) then None else redis_get now k s.
Proof.
  unfold redis_get. induction ks as [|k' ks IH]; [done|]. cbn [redis_del foldr].
  change (foldr delete s ks) with (redis_del ks s). destruct (decide (k' = k)) as [->|Hne].
  - rewrite lookup_delete_eq. by rewrite bool_decide_eq_true_2 by left.
  - rewrite lookup_delete_ne by done. rewrite IH. by rewrite (bool_decide_ext (k ∈ k' :: ks) (k ∈ ks)) by set_solver.
Qed.
End Redis.
