(* ===== verification/DeviceLinking.v ===== *)
(** Linking a new device by a QR code: server/src/utils/deviceLinking.ts, the endpoints
    /link of server/src/routes/auth.ts and the websocket request that creates the
    token (server/src/network/realtimeHandlers.ts). The state lives in Redis under
    keys that expire, its values sealed as AtRest models; requests interleave as in
    Effects. Rate limits and the validation of the key fields (zod) come before the
    handlers and are left out. *)
From stdpp Require Import pretty.
From S2P Require Import Prelude Bytes Base64 Utf8 Text Js JsDate PqWire Sodium LocalAtRest Json AtRest Effects.

(** [LinkingSealer]: seal and open with the key of the server. *)
Class LinkingSealer := {
  seal : jstr -> result jstr;
  open_value : option jstr -> option jstr }.
Class LinkingSealerLaws `{LinkingSealer} := {
  seal_opens : forall v, text_ok v = true -> exists s, seal v = Ok s /\ s <> [] /\ open_value (Some s) = Some v;
  open_absent : open_value None = None }.

(** What else the handlers use: [Buffer.from(text, 'base64url')], the ids Prisma gives
    to new rows, argon2 verification, the peppered hashes of headers. *)
Class LinkPlatform := {
  buffer_b64url : jstr -> bytes;
  device_id : nat -> jstr;
  verifyPassword : jstr -> jstr -> bool;
  pepper_text : jstr -> jstr }.

(** [linkSealer]: the functions of atRestSecrets.ts under the key ring of the server. *)
Definition linkSealer `{ServerCrypto, Sodium} (ring : AtRest.AtRestKeyring) : LinkingSealer := {|
  seal v := AtRest.sealAtRest ring v;
  open_value s := AtRest.openAtRest ring s |}.

Lemma linkSealer_laws `{ServerCrypto, SodiumLaws, !ServerCryptoLaws} pepper custody ring :
  AtRest.getAtRestKeyring pepper custody = Ok ring -> LinkingSealerLaws (H := linkSealer ring).
Proof.
  intros Hr%getAtRestKeyring_ok. split; [|done]. intros v Hv. destruct (ro_active _ Hr) as [k Hk].
  pose proof (assoc_elem _ _ _ Hk) as Hin. destruct (ring_key _ _ _ Hr Hin) as [Ha Hid]. cbn. unfold AtRest.sealAtRest. rewrite Hk.
  destruct (AtRest.sealEnvelope k v) as [s|] eqn:Hs; [|by rewrite sealEnvelope_eq in Hs].
  exists s. pose proof (open_sealed _ _ _ _ Ha Hid Hv Hs) as Ho. split_and!; [done|by intros ->|done].
Qed.

Module Link.

Definition LINK_PENDING_TTL_SECONDS : Z := 300.

(** [/^[0-9a-f]{64}$/] *)
Definition hex_char (c : Z) : bool := ((48 <=? c) && (c <=? 57)) || ((97 <=? c) && (c <=? 102)).
Definition LINK_TOKEN_PATTERN (token : jstr) : bool := (Z.of_nat (length token) =? 64) && forallb hex_char token.

Definition linkTokenKey (token : jstr) : jstr := js "linking_token:" ++ token.
Definition pendingLinkKey (pendingId : jstr) : jstr := js "link_pending:" ++ pendingId.
Definition linkStateKey (pendingId : jstr) : jstr := js "link_state:" ++ pendingId.

Record LinkTokenOwner := mkOwner { ow_userId : jstr; ow_deviceId : jstr }.

Record PendingDeviceLink := mkPending {
  pd_userId : jstr; pd_requestDeviceId : jstr; pd_deviceName : option jstr; pd_publicKey : jstr;
  pd_pqPublicKey : option jstr; pd_signingKey : jstr; pd_signingKeyV2 : option jstr;
  pd_encryptedPrivateKey : jstr; pd_fingerprint : option jstr; pd_installationTag : option jstr }.

Inductive LinkState := Pending | Approved | Expired.

(** A row of the table Device, and the columns of User the handlers read. The column
    cryptoVersion is 2 exactly when [signingKeyV2] is set. *)
Record DeviceRow := mkDevice {
  dr_userId : jstr; dr_publicKey : bytes; dr_pqPublicKey : option bytes; dr_signingKey : bytes;
  dr_signingKeyV2 : option bytes; dr_encryptedPrivateKey : bytes; dr_nameSealed : jstr;
  dr_fingerprint : option jstr; dr_installationTag : option jstr }.
Record UserRow := mkUser {
  us_usernameHash : jstr; us_banned : bool; us_passwordHash : jstr; us_verified : bool; us_tier : option jstr }.

(** The event [auth:linking_request] for one device of a user. *)
Record Notice := mkNotice {
  no_userId : jstr; no_deviceId : option jstr; no_pendingId : jstr; no_deviceName : jstr;
  no_publicKey : jstr; no_pqPublicKey : option jstr; no_signingKey : jstr; no_signingKeyV2 : option jstr }.

(** ** The shared state and its commands *)
Record world := mkWorld {
  w_redis : gmap jstr (entry jstr); w_devices : list (jstr * (DeviceRow * Z)); w_users : list (jstr * UserRow);
  w_objects : gmap jstr bytes; w_r2_up : bool; w_notices : list Notice; w_published : list (jstr * bytes);
  w_now : Z; w_serial : nat }.

Inductive cmd : Type -> Type :=
| Get (k : jstr) : cmd (option jstr)
| SetEx (k : jstr) (ttlSeconds : Z) (v : jstr) : cmd unit
| Del (ks : list jstr) : cmd unit
| GetDel (k : jstr) : cmd (option jstr)
| DeviceCreate (d : DeviceRow) : cmd jstr
| DeviceDelete (id : jstr) : cmd unit
| DeviceFind (id : jstr) : cmd (option (DeviceRow * Z))
| UserFind (id : jstr) : cmd (option UserRow)
| SendNotice (n : Notice) : cmd unit
| PublishKey (usernameHash : jstr) (identityKey : bytes) : cmd unit
| HeadObject (key : jstr) : cmd (result (option Z))
| DeleteObject (key : jstr) : cmd (result unit)
| PutObject (key : jstr) (until : Z) (body : bytes) : cmd bool
| GetObject (key : jstr) (until : Z) : cmd (option bytes)
| DateNow : cmd Z.

Definition with_redis (w : world) (r : gmap jstr (entry jstr)) : world :=
  mkWorld r (w_devices w) (w_users w) (w_objects w) (w_r2_up w) (w_notices w) (w_published w) (w_now w) (w_serial w).
Definition with_devices (w : world) (d : list (jstr * (DeviceRow * Z))) (n : nat) : world :=
  mkWorld (w_redis w) d (w_users w) (w_objects w) (w_r2_up w) (w_notices w) (w_published w) (w_now w) n.
Definition with_objects (w : world) (o : gmap jstr bytes) : world :=
  mkWorld (w_redis w) (w_devices w) (w_users w) o (w_r2_up w) (w_notices w) (w_published w) (w_now w) (w_serial w).
Definition with_now (w : world) (now : Z) : world :=
  mkWorld (w_redis w) (w_devices w) (w_users w) (w_objects w) (w_r2_up w) (w_notices w) (w_published w) now (w_serial w).

(** [createdAt] is the time of the insertion; a presigned URL names an object and the
    time until which it is valid. *)
Definition do_cmd `{LinkPlatform} (X : Type) (c : cmd X) (w : world) : X * world :=
  match c with
  | Get k => (redis_get (w_now w) k (w_redis w), w)
  | SetEx k ttl v => (tt, with_redis w (redis_setEx (w_now w) k ttl v (w_redis w)))
  | Del ks => (tt, with_redis w (redis_del ks (w_redis w)))
  | GetDel k => let '(v, r) := redis_getDel (w_now w) k (w_redis w) in (v, with_redis w r)
  | DeviceCreate d =>
      (device_id (w_serial w), with_devices w ((device_id (w_serial w), (d, w_now w)) :: w_devices w) (S (w_serial w)))
  | DeviceDelete id => (tt, with_devices w (filter (fun e => e.1 <> id) (w_devices w)) (w_serial w))
  | DeviceFind id => (assoc id (w_devices w), w)
  | UserFind id => (assoc id (w_users w), w)
  | SendNotice n =>
      (tt, mkWorld (w_redis w) (w_devices w) (w_users w) (w_objects w) (w_r2_up w) (w_notices w ++ [n])
             (w_published w) (w_now w) (w_serial w))
  | PublishKey h k =>
      (tt, mkWorld (w_redis w) (w_devices w) (w_users w) (w_objects w) (w_r2_up w) (w_notices w)
             (w_published w ++ [(h, k)]) (w_now w) (w_serial w))
  | HeadObject key => (if w_r2_up w then Ok (blen <$> w_objects w !! key) else throw "R2", w)
  | DeleteObject key =>
      if w_r2_up w then (Ok tt, with_objects w (delete key (w_objects w))) else (throw "R2", w)
  | PutObject key until body =>
      if w_r2_up w && (w_now w <? until) then (true, with_objects w (<[key := body]> (w_objects w))) else (false, w)
  | GetObject key until => (if w_r2_up w && (w_now w <? until) then w_objects w !! key else None, w)
  | DateNow => (w_now w, w)
  end.

(** An answer: a body, or [ApiError(status, message)]. *)
Inductive http (A : Type) := HOk (a : A) | HErr (status : Z) (message : string).
Arguments HOk {A} a.
Arguments HErr {A} status message.

Definition truthy (s : option jstr) : bool := match s with Some (_ :: _) => true | _ => false end.
(** [x || undefined] *)
Definition or_undefined (s : option jstr) : option jstr := if truthy s then s else None.

Definition parseObject (raw : option jstr) : option jsval :=
  match raw with
  | None | Some [] => None
  | Some s => match JSON_parse s with Some ((JObj _) as o) => Some o | _ => None end
  end.

Definition nonEmptyString (value : jsval) : option jstr :=
  match value with JStr ((_ :: _) as s) => Some s | _ => None end.

Definition parseTokenOwner (raw : option jstr) : option LinkTokenOwner :=
  obj ← parseObject raw;
  userId ← nonEmptyString (prop obj "userId");
  Some (mkOwner userId (default [] (nonEmptyString (prop obj "deviceId")))).

Definition parsePending (raw : option jstr) : option PendingDeviceLink :=
  obj ← parseObject raw;
  userId ← nonEmptyString (prop obj "userId");
  publicKey ← nonEmptyString (prop obj "publicKey");
  signingKey ← nonEmptyString (prop obj "signingKey");
  encryptedPrivateKey ← nonEmptyString (prop obj "encryptedPrivateKey");
  Some (mkPending userId (default [] (nonEmptyString (prop obj "requestDeviceId")))
    (nonEmptyString (prop obj "deviceName")) publicKey (nonEmptyString (prop obj "pqPublicKey")) signingKey
    (nonEmptyString (prop obj "signingKeyV2")) encryptedPrivateKey (nonEmptyString (prop obj "fingerprint"))
    (nonEmptyString (prop obj "installationTag"))).

(** [JSON.stringify(pending)]: undefined fields are left out, a null tag is written. *)
Definition opt_field (k : string) (v : option jstr) : list (jstr * jsval) :=
  match v with Some s => [(js k, JStr s)] | None => [] end.
Definition pending_json (p : PendingDeviceLink) : jsval :=
  JObj ([(js "userId", JStr (pd_userId p)); (js "requestDeviceId", JStr (pd_requestDeviceId p))] ++
        opt_field "deviceName" (pd_deviceName p) ++ [(js "publicKey", JStr (pd_publicKey p))] ++
        opt_field "pqPublicKey" (pd_pqPublicKey p) ++ [(js "signingKey", JStr (pd_signingKey p))] ++
        opt_field "signingKeyV2" (pd_signingKeyV2 p) ++
        [(js "encryptedPrivateKey", JStr (pd_encryptedPrivateKey p))] ++
        opt_field "fingerprint" (pd_fingerprint p) ++
        [(js "installationTag", match pd_installationTag p with Some t => JStr t | None => JNull end)]).

Section Ops.
Context `{LinkingSealer} `{LinkPlatform}.

(** [auth:request_linking_qr]; [linkingToken] is the hex text of 32 random bytes. *)
Definition request_linking_qr (userId deviceId linkingToken : jstr) : prog cmd (result unit) :=
  match seal (JSON_stringify (JObj [(js "userId", JStr userId); (js "deviceId", JStr deviceId)])) with
  | Err e => Ret (Err e)
  | Ok sealed => call (SetEx (linkTokenKey linkingToken) 300 sealed) ≫= fun _ => Ret (Ok tt)
  end.

Definition readLinkToken (token : jstr) : prog cmd (option LinkTokenOwner) :=
  if negb (LINK_TOKEN_PATTERN token) then Ret None else
  sealed ← call (Get (linkTokenKey token));
  if negb (truthy sealed) then Ret None else Ret (parseTokenOwner (open_value sealed)).

Definition consumeLinkToken (token : jstr) : prog cmd (option LinkTokenOwner) :=
  if negb (LINK_TOKEN_PATTERN token) then Ret None else
  sealed ← call (GetDel (linkTokenKey token));
  if negb (truthy sealed) then Ret None else Ret (parseTokenOwner (open_value sealed)).

(** [uuid] is what [randomUUID] answers. *)
Definition createPendingLink (pending : PendingDeviceLink) (uuid : jstr) : prog cmd (result jstr) :=
  match seal (JSON_stringify (pending_json pending)) with
  | Err e => Ret (Err e)
  | Ok sealed =>
      _ ← call (SetEx (pendingLinkKey uuid) LINK_PENDING_TTL_SECONDS sealed);
      _ ← call (SetEx (linkStateKey uuid) LINK_PENDING_TTL_SECONDS (js "pending"));
      Ret (Ok uuid)
  end.

Definition readPendingLink (pendingId : jstr) : prog cmd (option PendingDeviceLink) :=
  sealed ← call (Get (pendingLinkKey pendingId));
  if negb (truthy sealed) then Ret None else Ret (parsePending (open_value sealed)).

Definition STATE_APPROVED_PREFIX : jstr := js "approved:".

Definition getApprovedDeviceId (pendingId : jstr) : prog cmd (option jstr) :=
  state ← call (Get (linkStateKey pendingId));
  match state with
  | Some s => if startsWith STATE_APPROVED_PREFIX s
              then Ret (or_undefined (Some (drop (length STATE_APPROVED_PREFIX) s))) else Ret None
  | None => Ret None
  end.

Definition getLinkState (pendingId : jstr) : prog cmd LinkState :=
  state ← call (Get (linkStateKey pendingId));
  if negb (truthy state) then Ret Expired else
  if startsWith STATE_APPROVED_PREFIX (default [] state) then Ret Approved else
  p ← call (Get (pendingLinkKey pendingId));
  Ret (if truthy p then Pending else Expired).

Definition is_pending (s : LinkState) : bool := match s with Pending => true | _ => false end.
Definition is_approved (s : LinkState) : bool := match s with Approved => true | _ => false end.

Definition approvePendingLink (pendingId approverUserId deviceId : jstr)
  : prog cmd (option (PendingDeviceLink * jstr)) :=
  pending ← readPendingLink pendingId;
  match pending with
  | None => Ret None
  | Some pending =>
      if negb (bool_decide (pd_userId pending = approverUserId)) then Ret None else
      state ← getLinkState pendingId;
      if negb (is_pending state) then Ret None else
      _ ← call (SetEx (linkStateKey pendingId) LINK_PENDING_TTL_SECONDS (STATE_APPROVED_PREFIX ++ deviceId));
      Ret (Some (pending, deviceId))
  end.

Definition denyPendingLink (pendingId : jstr) : prog cmd unit :=
  call (Del [pendingLinkKey pendingId; linkStateKey pendingId]).

Definition takeApprovedLink (pendingId : jstr) : prog cmd (option (PendingDeviceLink * jstr)) :=
  state ← call (Get (linkStateKey pendingId));
  match state with
  | Some s =>
      if negb (startsWith STATE_APPROVED_PREFIX s) then Ret None else
      let deviceId := drop (length STATE_APPROVED_PREFIX) s in
      pending ← readPendingLink pendingId;
      _ ← call (Del [pendingLinkKey pendingId; linkStateKey pendingId]);
      match pending with
      | Some p => if truthy (Some deviceId) then Ret (Some (p, deviceId)) else Ret None
      | None => Ret None
      end
  | None => Ret None
  end.

(** ** The endpoints *)
Record ClaimRequest := mkClaim {
  cl_token : jstr; cl_publicKey : jstr; cl_pqPublicKey : option jstr; cl_signingKey : jstr;
  cl_signingKeyV2 : option jstr; cl_encryptedPrivateKey : jstr; cl_deviceName : option jstr;
  cl_fingerprint : option jstr; cl_installationId : option jstr }.

(** [indexDeviceFingerprint] *)
Definition indexDeviceFingerprint (raw : option jstr) : option jstr :=
  match trim (default [] raw) with [] => None | value => Some (pepper_text value) end.
(** [deviceInstallationTag] *)
Definition installation_tag (raw : jstr) : jstr := pepper_text (js "install:" ++ raw).

Definition claimed (owner : LinkTokenOwner) (req : ClaimRequest) : PendingDeviceLink :=
  mkPending (ow_userId owner) (ow_deviceId owner) (or_undefined (cl_deviceName req)) (cl_publicKey req)
    (or_undefined (cl_pqPublicKey req)) (cl_signingKey req) (or_undefined (cl_signingKeyV2 req))
    (cl_encryptedPrivateKey req) (indexDeviceFingerprint (cl_fingerprint req))
    (installation_tag <$> or_undefined (cl_installationId req)).

(** What follows the burnt token in [POST /link/claim]. *)
Definition claim_owned (owner : LinkTokenOwner) (req : ClaimRequest) (uuid : jstr) : prog cmd (http jstr) :=
  created ← createPendingLink (claimed owner req) uuid;
  match created with
  | Err e => Ret (HErr 500 e)
  | Ok pendingId =>
      _ ← call (SendNotice (mkNotice (ow_userId owner) (or_undefined (Some (ow_deviceId owner))) pendingId
             (default (js "Perangkat baru") (or_undefined (cl_deviceName req))) (cl_publicKey req)
             (or_undefined (cl_pqPublicKey req)) (cl_signingKey req) (or_undefined (cl_signingKeyV2 req))));
      Ret (HOk pendingId)
  end.

(** [isValidBase64Url]: URL-safe characters and at most two [=], the bytes they encode counted. *)
Definition url_text (s : jstr) : bool := negb (bool_decide (s = [])) && forallb url_char s.
Definition strip_pad (s : jstr) : jstr := if bool_decide (last s = Some 61) then removelast s else s.
Definition isValidBase64Url (str : jstr) (expectedBytes : Z) : bool :=
  (url_text str || url_text (strip_pad str) || url_text (strip_pad (strip_pad str))) &&
  (blen (buffer_b64url str) =? expectedBytes).

(** The schema of the body of [POST /link/claim]. *)
Definition claim_body_ok (req : ClaimRequest) : bool :=
  let opt (n : Z) v := match v with Some k => isValidBase64Url k n | None => true end in
  LINK_TOKEN_PATTERN (cl_token req) && isValidBase64Url (cl_publicKey req) 32 && opt 1216 (cl_pqPublicKey req) &&
  isValidBase64Url (cl_signingKey req) 32 && opt Suite.ML_DSA_65_PUBLIC_KEY_BYTES (cl_signingKeyV2 req) &&
  (1 <=? js_length (cl_encryptedPrivateKey req)) &&
  match cl_deviceName req with Some n => js_length n <=? 64 | None => true end.

(** [POST /link/claim] *)
Definition link_claim (req : ClaimRequest) (uuid : jstr) : prog cmd (http jstr) :=
  if negb (claim_body_ok req) then Ret (HErr 400 "body") else
  owner ← consumeLinkToken (cl_token req);
  match owner with
  | None => Ret (HErr 401 "Invalid or expired linking token.")
  | Some owner => claim_owned owner req uuid
  end.

(** The row made from a pending link. *)
Definition device_of (pending : PendingDeviceLink) (nameSealed : jstr) : DeviceRow :=
  mkDevice (pd_userId pending) (buffer_b64url (pd_publicKey pending)) (buffer_b64url <$> pd_pqPublicKey pending)
    (buffer_b64url (pd_signingKey pending)) (buffer_b64url <$> pd_signingKeyV2 pending)
    (utf8_encode (pd_encryptedPrivateKey pending)) nameSealed (pd_fingerprint pending) (pd_installationTag pending).

Definition historyIntentKey (deviceId : jstr) : jstr := js "link_history_intent:" ++ deviceId.
Definition LINK_HISTORY_INTENT_TTL_SECONDS : Z := 600.

(** [markHistoryIntent] of utils/linkHistory.ts *)
Definition markHistoryIntent (deviceId : jstr) : prog cmd unit :=
  if negb (truthy (Some deviceId)) then Ret tt else
  call (SetEx (historyIntentKey deviceId) LINK_HISTORY_INTENT_TTL_SECONDS (js "1")).

(** [POST /link/approve] for the session of user [me]. *)
Definition link_approve (me pendingId : jstr) (expectHistory : bool) : prog cmd (http jstr) :=
  if js_length pendingId <? 8 then Ret (HErr 400 "pendingId") else
  pending ← readPendingLink pendingId;
  match pending with
  | None => Ret (HErr 404 "Link request not found or expired.")
  | Some pending =>
      if negb (bool_decide (pd_userId pending = me))
      then Ret (HErr 403 "This link request belongs to another account.") else
      state ← getLinkState pendingId;
      if negb (is_pending state) then Ret (HErr 409 "Link request has already been handled.") else
      match seal (default (js "Linked Device") (pd_deviceName pending)) with
      | Err e => Ret (HErr 500 e)
      | Ok nameSealed =>
          id ← call (DeviceCreate (device_of pending nameSealed));
          approved ← approvePendingLink pendingId me id;
          match approved with
          | None =>
              _ ← call (DeviceDelete id);
              Ret (HErr 409 "Link request has already been handled.")
          | Some _ =>
              _ ← (if expectHistory then markHistoryIntent id else Ret tt);
              user ← call (UserFind (pd_userId pending));
              _ ← match user with
                  | Some u => if truthy (Some (us_usernameHash u))
                              then call (PublishKey (us_usernameHash u) (buffer_b64url (pd_publicKey pending)))
                              else Ret tt
                  | None => Ret tt
                  end;
              Ret (HOk id)
          end
      end
  end.

(** [POST /link/deny] *)
Definition link_deny (me pendingId : jstr) : prog cmd (http unit) :=
  if js_length pendingId <? 8 then Ret (HErr 400 "pendingId") else
  pending ← readPendingLink pendingId;
  match pending with
  | None => Ret (HErr 404 "Link request not found or expired.")
  | Some pending =>
      if negb (bool_decide (pd_userId pending = me))
      then Ret (HErr 403 "This link request belongs to another account.") else
      _ ← denyPendingLink pendingId;
      Ret (HOk tt)
  end.

(** [POST /link/complete]: the id of the device and the hash of the user name. *)
Definition link_complete (pendingId password : jstr) : prog cmd (http (jstr * jstr)) :=
  if (js_length pendingId <? 8) || (js_length password <? 1) then Ret (HErr 400 "pendingId") else
  state ← getLinkState pendingId;
  if negb (is_approved state) then Ret (HErr 409 "Link request is not approved or has expired.") else
  pending ← readPendingLink pendingId;
  match pending with
  | None => Ret (HErr 409 "Link request is not approved or has expired.")
  | Some pending =>
      user ← call (UserFind (pd_userId pending));
      match user with
      | None => Ret (HErr 404 "Account not found.")
      | Some user =>
          if us_banned user then Ret (HErr 403 "ACCESS DENIED: Your account has been suspended.") else
          if negb (verifyPassword password (us_passwordHash user)) then Ret (HErr 401 "Invalid credentials") else
          taken ← takeApprovedLink pendingId;
          match taken with
          | None => Ret (HErr 409 "Link request is not approved or has expired.")
          | Some (_, deviceId) => Ret (HOk (deviceId, us_usernameHash user))
          end
      end
  end.

(** ** Requests in flight *)
Inductive request :=
| ReqQr (userId deviceId token : jstr)
| ReqClaim (req : ClaimRequest) (uuid : jstr)
| ReqApprove (me pendingId : jstr) (expectHistory : bool)
| ReqDeny (me pendingId : jstr)
| ReqComplete (pendingId password : jstr).

Inductive answer :=
| AnsQr (r : result unit)
| AnsClaim (r : http jstr)
| AnsApprove (r : http jstr)
| AnsDeny (r : http unit)
| AnsComplete (r : http (jstr * jstr)).

Definition handle (r : request) : prog cmd answer :=
  match r with
  | ReqQr u d t => x ← request_linking_qr u d t; Ret (AnsQr x)
  | ReqClaim req uuid => x ← link_claim req uuid; Ret (AnsClaim x)
  | ReqApprove me id eh => x ← link_approve me id eh; Ret (AnsApprove x)
  | ReqDeny me id => x ← link_deny me id; Ret (AnsDeny x)
  | ReqComplete id pw => x ← link_complete id pw; Ret (AnsComplete x)
  end.

(** Besides the requests only time passes. *)
Definition tick (w w' : world) : Prop := exists now, w_now w <= now /\ w' = with_now w now.

Definition link_step : relation (list (prog cmd answer) * world) := sys_step do_cmd tick.
End Ops.

(** ** Keys of different kinds are different *)
Ltac key_ne n := let E := fresh "E" in intros E; apply (f_equal (fun l => nth n l 0)) in E; vm_compute in E; discriminate E.

Lemma token_not_pending t p : pendingLinkKey p <> linkTokenKey t.
Proof. key_ne 4%nat. Qed.
Lemma token_not_state t p : linkStateKey p <> linkTokenKey t.
Proof. key_ne 4%nat. Qed.
Lemma token_not_intent t p : historyIntentKey p <> linkTokenKey t.
Proof. key_ne 4%nat. Qed.
Lemma state_not_pending p q : linkStateKey p <> pendingLinkKey q.
Proof. key_ne 5%nat. Qed.
Lemma pending_not_state p q : pendingLinkKey p <> linkStateKey q.
Proof. key_ne 5%nat. Qed.
#[export] Hint Resolve token_not_pending token_not_state token_not_intent state_not_pending pending_not_state : nyx.

#[global] Arguments linkTokenKey _ : simpl never.
#[global] Arguments pendingLinkKey _ : simpl never.
#[global] Arguments linkStateKey _ : simpl never.
#[global] Arguments historyIntentKey _ : simpl never.

Lemma linkTokenKey_inj a b : linkTokenKey a = linkTokenKey b -> a = b.
Proof. apply app_inv_head. Qed.

Section LinkLemmas.
Context `{LinkingSealer} `{LinkPlatform}.

(** [c] does not write the key [k]. *)
Definition leaves (k : jstr) (X : Type) (c : cmd X) : Prop :=
  match c with SetEx k' _ _ => k' <> k | _ => True end.

Lemma leaves_absent k X (c : cmd X) w : leaves k X c -> w_redis w !! k = None -> w_redis (do_cmd X c w).2 !! k = None.
Proof.
  intros Hc Hk. destruct c; cbn in *; try done.
  - unfold redis_setEx. by rewrite lookup_insert_ne.
  - induction ks as [|k' ks IH]; [done|]. cbn. destruct (decide (k' = k)) as [->|]; [by rewrite lookup_delete_eq|].
    by rewrite lookup_delete_ne.
  - destruct (decide (k0 = k)) as [->|]; [by rewrite lookup_delete_eq|]. by rewrite lookup_delete_ne.
  - by destruct (w_r2_up w).
  - by destruct (w_r2_up w && _).
Qed.

(** Walks through a handler for [sends]. *)
Ltac walk :=
  repeat match goal with
  | |- sends _ (mbind _ _) => apply sends_bind; [|intros ?]
  | |- sends _ (Ret _) => exact I
  | |- sends _ (call _) => split; [cbn; auto with nyx|intros ?; exact I]
  | |- sends _ (if ?b then _ else _) => destruct b
  | |- sends _ (match ?x with _ => _ end) => destruct x
  end.

Lemma readPending_sends (P : forall X, cmd X -> Prop) id : (forall k, P _ (Get k)) -> sends P (readPendingLink id).
Proof. intros HP. unfold readPendingLink. apply sends_bind; [split; [apply HP|done]|]. intros x. by destruct (negb _). Qed.

Lemma linkState_sends (P : forall X, cmd X -> Prop) id : (forall k, P _ (Get k)) -> sends P (getLinkState id).
Proof.
  intros HP. unfold getLinkState. apply sends_bind; [split; [apply HP|done]|]. intros x. destruct (negb _); [done|].
  destruct (startsWith _ _); [done|]. apply sends_bind; [split; [apply HP|done]|done].
Qed.

(** Only the QR request for a token writes its key. *)
Lemma handle_leaves t r : (forall u d, r <> ReqQr u d t) -> sends (leaves (linkTokenKey t)) (handle r).
Proof.
  intros Hr. assert (Hrp : forall id, sends (leaves (linkTokenKey t)) (readPendingLink id)) by (intros; by apply readPending_sends).
  assert (Hls : forall id, sends (leaves (linkTokenKey t)) (getLinkState id)) by (intros; by apply linkState_sends).
  destruct r as [u d tok|req uuid|me id eh|me id|id pw]; cbn [handle]; (apply sends_bind; [|done]).
  - unfold request_linking_qr. destruct (seal _); [|done]. split; [|done]. cbn. intros E%linkTokenKey_inj. subst. by apply (Hr u d).
  - unfold link_claim, consumeLinkToken, claim_owned, createPendingLink. walk.
  - unfold link_approve, approvePendingLink, markHistoryIntent. destruct (_ <? _); [done|].
    apply sends_bind; [apply Hrp|]. intros [p|]; [|done]. destruct (negb _); [done|]. apply sends_bind; [apply Hls|].
    intros st. destruct (negb _); [done|]. destruct (seal _); [|done]. walk; auto.
  - unfold link_deny, denyPendingLink. destruct (_ <? _); [done|]. apply sends_bind; [apply Hrp|]. intros [p|]; [|done]. walk.
  - unfold link_complete, takeApprovedLink. destruct (_ || _); [done|]. apply sends_bind; [apply Hls|]. intros st.
    destruct (negb _); [done|]. apply sends_bind; [apply Hrp|]. intros [p|]; [|done]. walk; auto.
Qed.

(** ** A token is used once *)

Lemma advance_absent {A} k (p : prog cmd A) w : sends (leaves k) p ->
  w_redis w !! k = None -> w_redis (advance do_cmd p w).2 !! k = None.
Proof.
  destruct p as [a|X c kont]; [done|]. intros [Hc _] Hk. cbn. pose proof (leaves_absent k X c w Hc Hk) as Hn.
  by destruct (do_cmd X c w).
Qed.

(** A claim that was refused. *)
Definition refused (p : prog cmd answer) : Prop := exists s m, p = Ret (AnsClaim (HErr s m)).

Lemma refused_ret s m : refused (Ret (AnsClaim (HErr s m))).
Proof. by exists s, m. Qed.
Hint Resolve refused_ret : core.

(** The first step of a claim burns the token, unless its body is refused; without a
    token the claim is refused. *)
Lemma claim_first req uuid w :
  let s := advance do_cmd (handle (ReqClaim req uuid)) w in
  (refused s.1 /\ s.2 = w) \/
  (w_redis s.2 = delete (linkTokenKey (cl_token req)) (w_redis w) /\
   (w_redis w !! linkTokenKey (cl_token req) = None -> refused s.1)).
Proof.
  cbn [handle]. unfold link_claim, consumeLinkToken. destruct (claim_body_ok req); cbn [negb]; [|by left; cbn; auto].
  destruct (LINK_TOKEN_PATTERN _); cbn; [right|by left; auto].
  split; [done|]. intros Hn. unfold redis_get. rewrite Hn. cbn. auto.
Qed.

(** At most one request [winner] has taken the token; once it has, the key is gone. *)
Definition token_inv (t : jstr) (reqs : list request) (s : list (prog cmd answer) * world) : Prop :=
  Forall (sends (leaves (linkTokenKey t))) s.1 /\
  exists winner : option nat,
    (forall i req uuid, reqs !! i = Some (ReqClaim req uuid) -> cl_token req = t -> winner <> Some i ->
       exists p, s.1 !! i = Some p /\ (p = handle (ReqClaim req uuid) \/ refused p)) /\
    (winner = None \/ w_redis s.2 !! linkTokenKey t = None).

Lemma token_inv_step t reqs s s' : token_inv t reqs s -> link_step s s' -> token_inv t reqs s'.
Proof.
  intros [Hsend (winner & Hcl & Hw)] Hstep. split; [by eapply sends_step|].
  destruct Hstep as [ts w i p Hi|ts w w' (now & _ & ->)]; cbn [fst snd] in *; [|by exists winner].
  pose proof (lookup_lt_Some _ _ _ Hi) as Hlen.
  assert (Hkeep : w_redis w !! linkTokenKey t = None -> w_redis (advance do_cmd p w).2 !! linkTokenKey t = None).
  { apply advance_absent. by apply (Forall_lookup_1 _ _ _ _ Hsend Hi). }
  assert (Hothers : forall w1 p1, (forall req uuid, reqs !! i = Some (ReqClaim req uuid) -> cl_token req = t -> w1 <> Some i ->
      p1 = handle (ReqClaim req uuid) \/ refused p1) -> (w1 = winner \/ w1 = Some i /\ winner = None) ->
    forall j req uuid, reqs !! j = Some (ReqClaim req uuid) -> cl_token req = t -> w1 <> Some j ->
      exists q, <[i := p1]> ts !! j = Some q /\ (q = handle (ReqClaim req uuid) \/ refused q)).
  { intros w1 p1 Hp1 Hw1 j req uuid Hj Ht Hne. destruct (decide (i = j)) as [->|Hij].
    - rewrite list_lookup_insert_eq by done. exists p1. split; [done|]. exact (Hp1 req uuid Hj Ht Hne).
    - rewrite list_lookup_insert_ne by done. apply (Hcl j req uuid Hj Ht). destruct Hw1 as [-> | [_ ->]]; [done|done]. }
  destruct (decide (winner = Some i)) as [Hwi|Hwi].
  { exists winner. split; [apply Hothers; [by intros|by left]|]. destruct Hw as [Hw|Hw]; [congruence|right; by apply Hkeep]. }
  destruct (reqs !! i) as [[u d tok|req uuid|me id eh|me id|id pw]|] eqn:Er;
    try (exists winner; split; [apply Hothers; [by intros|by left]|destruct Hw as [|Hw]; [by left|right; by apply Hkeep]]).
  destruct (decide (cl_token req = t)) as [Ht|Ht];
    [|exists winner; split; [apply Hothers; [intros ? ? [= <- <-]; done|by left]|destruct Hw as [|Hw]; [by left|right; by apply Hkeep]]].
  destruct (Hcl i req uuid Er Ht Hwi) as (q & Hq & Hh); rewrite Hi in Hq; apply (inj Some) in Hq; subst q.
  destruct Hh as [->|Hh].
  2: { destruct Hh as (s & m & ->). exists winner. split; [apply Hothers; [intros; right; apply refused_ret|by left]|done]. }
  destruct (claim_first req uuid w) as [[Hs Hw2]|[Hdel Hlost]].
  { rewrite Hw2. exists winner. split; [apply Hothers; [intros; right; exact Hs|by left]|done]. }
  rewrite Ht in Hdel, Hlost. rewrite Hdel, lookup_delete_eq.
  destruct (w_redis w !! linkTokenKey t) as [e|] eqn:Ek.
  - destruct Hw as [->|]; [|done]. exists (Some i). split; [apply Hothers; [done|by right]|by right].
  - exists winner. split; [apply Hothers; [right; by apply Hlost|by left]|by right].
Qed.

(** C27: a QR token links at most one device. However any number of requests
    interleave, as long as no new token with the same text is issued, at most one
    claim of a token is answered with a pending link: the token is read and deleted
    in one command. *)
Theorem link_token_single_use t reqs w ts w' i j ri rj ui uj pi pj :
  (forall u d, ReqQr u d t ∉ reqs) ->
  rtc link_step (map handle reqs, w) (ts, w') ->
  reqs !! i = Some (ReqClaim ri ui) -> cl_token ri = t -> ts !! i = Some (Ret (AnsClaim (HOk pi))) ->
  reqs !! j = Some (ReqClaim rj uj) -> cl_token rj = t -> ts !! j = Some (Ret (AnsClaim (HOk pj))) ->
  i = j.
Proof.
  intros Hq Hrun Hi Hti Hri Hj Htj Hrj.
  assert (Hinv : token_inv t reqs (ts, w')).
  { eapply rtc_invariant; [intros x y; by apply token_inv_step|exact Hrun|]. split.
    - apply Forall_map, Forall_forall. intros r Hr. apply handle_leaves. intros u d ->. by apply (Hq u d).
    - exists None. split; [|by left]. intros n req uuid Hn _ _. exists (handle (ReqClaim req uuid)). split; [|by left].
      cbn. by rewrite list_lookup_fmap, Hn. }
  destruct Hinv as [_ (winner & Hcl & _)]. cbn [fst] in Hcl.
  assert (Hwin : forall n req uuid p, reqs !! n = Some (ReqClaim req uuid) -> cl_token req = t ->
    ts !! n = Some (Ret (AnsClaim (HOk p))) -> winner = Some n).
  { intros n req uuid p Hn Ht Hts. destruct (decide (winner = Some n)) as [|Hne]; [done|exfalso].
    destruct (Hcl n req uuid Hn Ht Hne) as (q & Hq1 & Hh). rewrite Hts in Hq1. apply (inj Some) in Hq1. subst q.
    destruct Hh as [E|(s & m & E)]; [|done].
    revert E. cbn [handle]. unfold link_claim, consumeLinkToken. destruct (claim_body_ok req); [|done]. by destruct (LINK_TOKEN_PATTERN _). }
  pose proof (Hwin i ri ui pi Hi Hti Hri) as E1. pose proof (Hwin j rj uj pj Hj Htj Hrj) as E2. congruence.
Qed.
End LinkLemmas.

(** ** What is stored is read back *)

(** A text field: not empty, no lone surrogates. *)
Definition word_ok (s : jstr) : bool := forallb scalar s && negb (bool_decide (s = [])).
Definition opt_ok (s : option jstr) : bool := match s with Some v => word_ok v | None => true end.

Definition pending_ok (p : PendingDeviceLink) : bool :=
  word_ok (pd_userId p) && forallb scalar (pd_requestDeviceId p) && opt_ok (pd_deviceName p) &&
  word_ok (pd_publicKey p) && opt_ok (pd_pqPublicKey p) && word_ok (pd_signingKey p) && opt_ok (pd_signingKeyV2 p) &&
  word_ok (pd_encryptedPrivateKey p) && opt_ok (pd_fingerprint p) && opt_ok (pd_installationTag p).

Lemma nonEmpty_word s : word_ok s = true -> nonEmptyString (JStr s) = Some s.
Proof. unfold word_ok. destruct s; [done|]. done. Qed.

Lemma nonEmpty_any s : default [] (nonEmptyString (JStr s)) = s.
Proof. by destruct s. Qed.

Lemma word_scalar s : word_ok s = true -> forallb scalar s = true.
Proof. unfold word_ok. intros Hs. by bools. Qed.

Lemma parseObject_json o : json_ok (JObj o) = true -> parseObject (Some (JSON_stringify (JObj o))) = Some (JObj o).
Proof.
  intros Ho. unfold parseObject. rewrite json_roundtrip by done.
  destruct (stringify_head (JObj o)) as (c & s & E & _). by rewrite E.
Qed.

Lemma pending_json_ok p : pending_ok p = true -> json_ok (pending_json p) = true.
Proof.
  unfold pending_ok, pending_json. intros Hp. bools. destruct p as [u r n k q s s2 e f t]; cbn [pd_userId pd_requestDeviceId pd_deviceName
    pd_publicKey pd_pqPublicKey pd_signingKey pd_signingKeyV2 pd_encryptedPrivateKey pd_fingerprint pd_installationTag] in *.
  cbn [json_ok]. apply andb_true_iff. split.
  - destruct n, q, s2, f; apply bool_decide_eq_true, (bool_decide_unpack (NoDup _)); vm_compute; exact I.
  - repeat match goal with H : word_ok ?x = true |- _ => apply word_scalar in H end.
    rewrite !forallb_app. destruct n, q, s2, f, t; cbn [opt_field forallb fst snd json_ok opt_ok] in *;
    repeat match goal with H : word_ok ?x = true |- _ => apply word_scalar in H end;
    rewrite !js_scalar; repeat match goal with H : forallb scalar ?x = true |- _ => rewrite H; clear H end; reflexivity.
Qed.

Lemma parsePending_json p : pending_ok p = true -> parsePending (Some (JSON_stringify (pending_json p))) = Some p.
Proof.
  intros Hp. pose proof (pending_json_ok p Hp) as Hj. unfold parsePending. unfold pending_json in Hj |- *.
  rewrite parseObject_json by done. unfold pending_ok in Hp. bools.
  destruct p as [u r n k q s s2 e f t]; cbn [pd_userId pd_requestDeviceId pd_deviceName
    pd_publicKey pd_pqPublicKey pd_signingKey pd_signingKeyV2 pd_encryptedPrivateKey pd_fingerprint pd_installationTag] in *.
  set (o := JObj _).
  assert (Hprops : prop o "userId" = JStr u /\ prop o "requestDeviceId" = JStr r /\
    prop o "deviceName" = match n with Some v => JStr v | None => JUndef end /\ prop o "publicKey" = JStr k /\
    prop o "pqPublicKey" = match q with Some v => JStr v | None => JUndef end /\ prop o "signingKey" = JStr s /\
    prop o "signingKeyV2" = match s2 with Some v => JStr v | None => JUndef end /\ prop o "encryptedPrivateKey" = JStr e /\
    prop o "fingerprint" = match f with Some v => JStr v | None => JUndef end /\
    prop o "installationTag" = match t with Some v => JStr v | None => JNull end).
  { destruct n, q, s2, f; repeat split; reflexivity. }
  cbn [mbind option_bind]. destruct Hprops as (-> & -> & -> & -> & -> & -> & -> & -> & -> & ->).
  assert (Hopt : forall (x : option jstr) d, nonEmptyString d = None -> opt_ok x = true ->
    nonEmptyString (match x with Some v => JStr v | None => d end) = x).
  { intros [v|] d Hd Hx; [by apply nonEmpty_word|done]. }
  rewrite (nonEmpty_word u), (nonEmpty_word k), (nonEmpty_word s), (nonEmpty_word e) by done.
  by rewrite nonEmpty_any, !Hopt.
Qed.

Definition owner_json (u d : jstr) : jsval := JObj [(js "userId", JStr u); (js "deviceId", JStr d)].

Lemma parseOwner_json u d : word_ok u = true -> forallb scalar d = true ->
  json_ok (owner_json u d) = true /\ parseTokenOwner (Some (JSON_stringify (owner_json u d))) = Some (mkOwner u d).
Proof.
  intros Hu Hd. assert (Hj : json_ok (owner_json u d) = true).
  { unfold owner_json. cbn [json_ok forallb fst snd]. rewrite !js_scalar, (word_scalar u), Hd by done. reflexivity. }
  split; [done|]. unfold parseTokenOwner, owner_json in *. rewrite parseObject_json by done.
  cbn [mbind option_bind]. change (prop _ "userId") with (JStr u). change (prop _ "deviceId") with (JStr d).
  rewrite (nonEmpty_word u), nonEmpty_any by done. done.
Qed.

(** ** Who can add a device *)
Lemma intent_not_pending p q : historyIntentKey p <> pendingLinkKey q.
Proof. key_ne 5%nat. Qed.
#[export] Hint Resolve intent_not_pending : nyx.

Section Authority.
Context `{LinkingSealerLaws} `{LinkPlatform}.
Context (reqs : list request).

(** The account's own session asked for the token. *)
Definition issued (t : jstr) (o : LinkTokenOwner) : Prop := ReqQr (ow_userId o) (ow_deviceId o) t ∈ reqs.

(** The link comes from a claim that held such a token. *)
Definition authentic (p : PendingDeviceLink) : Prop :=
  exists o req uuid, ReqClaim req uuid ∈ reqs /\ issued (cl_token req) o /\ p = claimed o req.

(** What may be stored under a key. *)
Definition value_authentic (k v : jstr) : Prop :=
  (forall t, k = linkTokenKey t -> forall o, parseTokenOwner (open_value (Some v)) = Some o -> issued t o) /\
  (forall id, k = pendingLinkKey id -> forall p, parsePending (open_value (Some v)) = Some p -> authentic p).

(** The row was approved by a session of the account it belongs to. *)
Definition device_authentic (d : DeviceRow) : Prop :=
  exists p me id eh name, authentic p /\ ReqApprove me id eh ∈ reqs /\ pd_userId p = me /\ d = device_of p name.

Definition link_guarantee (X : Type) (c : cmd X) : Prop :=
  match c with
  | SetEx k _ v => value_authentic k v
  | DeviceCreate d => device_authentic d
  | _ => True
  end.

Definition link_rely (X : Type) (c : cmd X) : X -> Prop :=
  match c in cmd X return X -> Prop with
  | Get k => fun x => forall v, x = Some v -> value_authentic k v
  | GetDel k => fun x => forall v, x = Some v -> value_authentic k v
  | _ => fun _ => True
  end.

Definition link_inv (w0 w : world) : Prop :=
  (forall k e, w_redis w !! k = Some e -> value_authentic k (e_value e)) /\
  (forall x, x ∈ w_devices w -> x ∈ w_devices w0 \/ device_authentic x.2.1).

Lemma link_inv_cmd w0 X (c : cmd X) w : link_inv w0 w -> link_guarantee X c ->
  link_rely X c (do_cmd X c w).1 /\ link_inv w0 (do_cmd X c w).2.
Proof.
  intros [Hr Hd] Hc.
  assert (Hget : forall k v, redis_get (w_now w) k (w_redis w) = Some v -> value_authentic k v).
  { intros k v. unfold redis_get. destruct (w_redis w !! k) as [e|] eqn:E; [|done]. destruct (_ <? _); [|done].
    intros [= <-]. by apply Hr. }
  destruct c as [k|k ttl v|ks|k|d|id|id|id|n|h k|key|key|key until body|key until|]; cbn; try (split; [done|by split]).
  - split; [by intros v ?; apply Hget|by split].
  - split; [done|]. split; [|done]. cbn. intros k' e. unfold redis_setEx. rewrite lookup_insert_Some.
    intros [[<- <-]|[_ He]]; [done|by apply Hr].
  - split; [done|]. split; [|done]. cbn. intros k e. revert k e. induction ks as [|k' ks IH]; intros k e; cbn; [apply Hr|].
    rewrite lookup_delete_Some. intros [_ He]. by apply IH.
  - split; [by intros v ?; apply Hget|]. split; [|done]. cbn. intros k' e. rewrite lookup_delete_Some. intros [_ He]. by apply Hr.
  - split; [done|]. split; [done|]. cbn. intros x [->|Hx]%elem_of_cons; [by right|by apply Hd].
  - split; [done|]. split; [done|]. cbn. intros x [_ Hx]%list_elem_of_filter. by apply Hd.
  - destruct (w_r2_up w); cbn; (split; [done|]); by split.
  - destruct (w_r2_up w && _); cbn; (split; [done|]); by split.
Qed.

Lemma readPending_obeys id : obeys link_guarantee link_rely (fun r => forall p, r = Some p -> authentic p) (readPendingLink id).
Proof.
  unfold readPendingLink. apply obeys_call; [done|]. intros x Hx. destruct x as [v|]; [|by cbn].
  destruct (negb _); cbn; [done|]. intros p Hp. by apply (proj2 (Hx v eq_refl) id).
Qed.

Lemma linkState_obeys id : obeys link_guarantee link_rely (fun _ => True) (getLinkState id).
Proof.
  unfold getLinkState. apply obeys_call; [done|]. intros x _. destruct (negb _); [done|]. destruct (startsWith _ _); [done|].
  by apply obeys_call.
Qed.

Lemma state_value id v : value_authentic (linkStateKey id) v.
Proof. split; intros x E; [by apply token_not_state in E|by apply state_not_pending in E]. Qed.

Lemma intent_value id v : value_authentic (historyIntentKey id) v.
Proof. split; intros x E; [by apply token_not_intent in E|by apply intent_not_pending in E]. Qed.

(** Requests with well-formed texts. *)
Definition requests_ok : Prop :=
  (forall u d t, ReqQr u d t ∈ reqs -> word_ok u = true /\ forallb scalar d = true) /\
  (forall o req uuid, ReqClaim req uuid ∈ reqs -> issued (cl_token req) o -> pending_ok (claimed o req) = true).

Lemma handle_obeys r : requests_ok -> r ∈ reqs -> obeys link_guarantee link_rely (fun _ => True) (handle r).
Proof.
  intros [Hq Hc] Hr. destruct r as [u d t|req uuid|me id eh|me id|id pw]; cbn [handle].
  - destruct (Hq u d t Hr) as [Hu Hd]. destruct (parseOwner_json u d Hu Hd) as [Hj Hp]. unfold request_linking_qr.
    fold (owner_json u d). destruct (seal_opens (JSON_stringify (owner_json u d))) as (s & -> & _ & Ho); [by apply stringify_text|].
    split; [|done]. split; [|intros id E; symmetry in E; by apply token_not_pending in E].
    intros t' ->%linkTokenKey_inj o. rewrite Ho, Hp. intros [= <-]. done.
  - unfold link_claim, consumeLinkToken. apply (obeys_bind _ _ (fun _ => True)); [|done]. destruct (negb (claim_body_ok req)); [done|].
    apply (obeys_bind _ _ (fun x => forall o, x = Some o -> issued (cl_token req) o)).
    { destruct (negb _); [done|]. apply obeys_call; [done|]. intros x Hx. destruct x as [v|]; [|by cbn].
      destruct (negb _); cbn; [done|]. intros o Ho. by apply (proj1 (Hx v eq_refl) (cl_token req)). }
    intros [o|] Ho; [|done]. specialize (Ho o eq_refl). unfold claim_owned. apply (obeys_bind _ _ (fun _ => True)).
    + unfold createPendingLink. pose proof (Hc o req uuid Hr Ho) as Hok.
      destruct (seal_opens (JSON_stringify (pending_json (claimed o req)))) as (s & -> & _ & Hs);
        [by apply stringify_text, pending_json_ok|].
      apply obeys_call; [|intros _ _; apply obeys_call; [apply state_value|done]].
      split; [intros t E; by apply token_not_pending in E|]. intros id _ p. rewrite Hs, parsePending_json by done.
      intros [= <-]. by exists o, req, uuid.
    + intros [pid|e] _; [|done]. by apply obeys_call.
  - unfold link_approve. apply (obeys_bind _ _ (fun _ => True)); [|done]. destruct (_ <? _); [done|].
    eapply obeys_bind; [apply readPending_obeys|]. intros [p|] Hp; [|done]. specialize (Hp p eq_refl).
    destruct (bool_decide (pd_userId p = me)) eqn:Eu; [|done]. apply bool_decide_eq_true in Eu. cbn [negb].
    eapply obeys_bind; [apply linkState_obeys|]. intros st _. destruct (negb _); [done|]. destruct (seal _) as [name|]; [|done].
    apply obeys_call; [by exists p, me, id, eh, name|]. intros did _. apply (obeys_bind _ _ (fun _ => True)).
    + unfold approvePendingLink. eapply obeys_bind; [apply readPending_obeys|]. intros [p'|] _; [|done]. destruct (negb _); [done|].
      eapply obeys_bind; [apply linkState_obeys|]. intros st' _. destruct (negb _); [done|]. apply obeys_call; [apply state_value|done].
    + intros [?|] _; [|by apply obeys_call]. apply (obeys_bind _ _ (fun _ => True)).
      * destruct eh; [|done]. unfold markHistoryIntent. destruct (negb _); [done|]. split; [apply intent_value|done].
      * intros _ _. apply obeys_call; [done|]. intros user _. apply (obeys_bind _ _ (fun _ => True)); [|done].
        destruct user as [x|]; [|done]. by destruct (truthy _).
  - unfold link_deny. apply (obeys_bind _ _ (fun _ => True)); [|done]. destruct (_ <? _); [done|].
    eapply obeys_bind; [apply readPending_obeys|]. intros [p|] _; [|done]. by destruct (negb _).
  - unfold link_complete. apply (obeys_bind _ _ (fun _ => True)); [|done]. destruct (_ || _); [done|].
    eapply obeys_bind; [apply linkState_obeys|]. intros st _. destruct (negb _); [done|].
    eapply obeys_bind; [apply readPending_obeys|]. intros [p|] _; [|done]. apply obeys_call; [done|]. intros [u|] _; [|done].
    destruct (us_banned u); [done|]. destruct (negb _); [done|]. apply (obeys_bind _ _ (fun _ => True)); [|by intros [[? ?]|] _].
    unfold takeApprovedLink. apply obeys_call; [done|]. intros [st'|] _; [|done]. destruct (negb _); [done|].
    eapply obeys_bind; [apply readPending_obeys|]. intros p' _. apply obeys_call; [done|]. intros _ _.
    destruct p'; [|done]. by destruct (truthy _).
Qed.

End Authority.

(** ** One link from the QR code to the login *)
Section Flow.
Context `{LinkingSealerLaws} `{LinkPlatform}.

Abbreviation serve p w := (run do_cmd p w).

(** Redis holds the pending link [p] until [until]. *)
Definition pending_at (w : world) (id : jstr) (p : PendingDeviceLink) (until : Z) : Prop :=
  exists v, w_redis w !! pendingLinkKey id = Some (mkEntry v until) /\ v <> [] /\ parsePending (open_value (Some v)) = Some p.

Lemma serve_readPending w id p until : pending_at w id p until -> w_now w < until ->
  serve (readPendingLink id) w = (Some p, w).
Proof.
  intros (v & Hk & Hv & Hp) Ht. unfold readPendingLink. rewrite run_call. cbn [do_cmd].
  rewrite (get_live _ _ _ _ Hk Ht). cbn [e_value]. destruct v; [done|]. cbn [truthy negb run]. by rewrite Hp.
Qed.

Lemma serve_readPending_gone w id p until : pending_at w id p until -> until <= w_now w ->
  serve (readPendingLink id) w = (None, w).
Proof.
  intros (v & Hk & Hv & Hp) Ht. unfold readPendingLink. rewrite run_call. cbn [do_cmd].
  by rewrite (get_dead _ _ _ _ Hk Ht).
Qed.

Lemma serve_state_pending w id p until until' : pending_at w id p until -> w_now w < until ->
  w_redis w !! linkStateKey id = Some (mkEntry (js "pending") until') -> w_now w < until' ->
  serve (getLinkState id) w = (Pending, w).
Proof.
  intros (v & Hk & Hv & Hp) Ht Hs Ht'. unfold getLinkState. rewrite run_call. cbn [do_cmd].
  rewrite (get_live _ _ _ _ Hs Ht'). cbn [e_value]. change (truthy (Some (js "pending"))) with true. cbn [negb default from_option].
  unfold Datatypes.id. change (startsWith STATE_APPROVED_PREFIX (js "pending")) with false. cbv beta iota. rewrite run_call. cbn [do_cmd].
  rewrite (get_live _ _ _ _ Hk Ht). cbn. by destruct v.
Qed.

Lemma approved_text d : startsWith STATE_APPROVED_PREFIX (STATE_APPROVED_PREFIX ++ d) = true /\
  truthy (Some (STATE_APPROVED_PREFIX ++ d)) = true /\ drop (length STATE_APPROVED_PREFIX) (STATE_APPROVED_PREFIX ++ d) = d.
Proof. split_and!; [apply startsWith_app|done|apply drop_app_length]. Qed.

Lemma serve_state_approved w id d until : w_redis w !! linkStateKey id = Some (mkEntry (STATE_APPROVED_PREFIX ++ d) until) ->
  w_now w < until -> serve (getLinkState id) w = (Approved, w).
Proof.
  intros Hs Ht. destruct (approved_text d) as (Hp & Htr & _). unfold getLinkState. rewrite run_call. cbn [do_cmd].
  rewrite (get_live _ _ _ _ Hs Ht). cbn [e_value]. rewrite Htr. cbn [negb default from_option]. unfold Datatypes.id. by rewrite Hp.
Qed.

Lemma serve_qr w u dev tok : word_ok u = true -> forallb scalar dev = true ->
  exists s, s <> [] /\ parseTokenOwner (open_value (Some s)) = Some (mkOwner u dev) /\
    serve (request_linking_qr u dev tok) w =
      (Ok tt, with_redis w (<[linkTokenKey tok := mkEntry s (w_now w + 300000)]> (w_redis w))).
Proof.
  intros Hu Hd. destruct (parseOwner_json u dev Hu Hd) as [Hj Hp]. unfold request_linking_qr. fold (owner_json u dev).
  destruct (seal_opens (JSON_stringify (owner_json u dev))) as (s & -> & Hne & Ho); [by apply stringify_text|].
  exists s. split_and!; [done|by rewrite Ho|]. rewrite run_call. cbn [do_cmd run]. done.
Qed.

Lemma serve_claim w req uuid o s until :
  w_redis w !! linkTokenKey (cl_token req) = Some (mkEntry s until) -> w_now w < until -> s <> [] ->
  parseTokenOwner (open_value (Some s)) = Some o -> claim_body_ok req = true ->
  pending_ok (claimed o req) = true ->
  exists w', serve (link_claim req uuid) w = (HOk uuid, w') /\ pending_at w' uuid (claimed o req) (w_now w + 300000) /\
    w_redis w' !! linkStateKey uuid = Some (mkEntry (js "pending") (w_now w + 300000)) /\
    w_redis w' !! linkTokenKey (cl_token req) = None /\ w_devices w' = w_devices w /\ w_users w' = w_users w /\
    w_serial w' = w_serial w /\ w_now w' = w_now w.
Proof.
  intros Hk Ht Hs Ho Hpat Hok. assert (Hpt : LINK_TOKEN_PATTERN (cl_token req) = true)
    by (unfold claim_body_ok in Hpat; by bools).
  unfold link_claim, consumeLinkToken. rewrite Hpat, Hpt. cbn [negb].
  rewrite run_bind, run_call. cbn [do_cmd redis_getDel]. rewrite (get_live _ _ _ _ Hk Ht). cbn [e_value].
  destruct s as [|c s]; [done|]. cbn [truthy negb run]. rewrite Ho. cbv beta iota. unfold claim_owned.
  rewrite run_bind. unfold createPendingLink.
  destruct (seal_opens (JSON_stringify (pending_json (claimed o req)))) as (v & -> & Hv & Hsv);
    [by apply stringify_text, pending_json_ok|].
  rewrite run_call. cbn [do_cmd]. rewrite run_call. cbn [do_cmd run]. rewrite run_call. cbn [do_cmd run].
  eexists. split; [done|]. cbn. unfold redis_setEx, LINK_PENDING_TTL_SECONDS. split_and!; try done.
  - exists v. split_and!; [|done|by rewrite Hsv, parsePending_json].
    cbn. rewrite lookup_insert_ne by auto with nyx. by rewrite lookup_insert_eq.
  - by rewrite lookup_insert_eq.
  - rewrite lookup_insert_ne by auto with nyx. rewrite lookup_insert_ne by auto with nyx. apply lookup_delete_eq.
Qed.

(** Only keys of announced archives differ, and what was published. *)
Definition agrees (w w' : world) : Prop :=
  (forall k, (forall d, k <> historyIntentKey d) -> w_redis w' !! k = w_redis w !! k) /\ w_devices w' = w_devices w /\
  w_users w' = w_users w /\ w_serial w' = w_serial w /\ w_now w' = w_now w.

Lemma serve_intent eh d w :
  exists w', serve (if eh : bool then markHistoryIntent d else Ret tt) w = (tt, w') /\ agrees w w'.
Proof.
  unfold agrees. destruct eh; [|by exists w]. unfold markHistoryIntent. destruct (negb _); [by exists w|].
  eexists. split; [reflexivity|]. cbn. unfold redis_setEx. split_and!; try done. intros k Hk. by rewrite lookup_insert_ne.
Qed.

Lemma serve_publish p (user : option UserRow) w :
  exists w', serve (match user with
      | Some u => if truthy (Some (us_usernameHash u))
                  then call (PublishKey (us_usernameHash u) (buffer_b64url (pd_publicKey p))) else Ret tt
      | None => Ret tt end) w = (tt, w') /\ agrees w w'.
Proof.
  unfold agrees. destruct user as [u|]; [|by exists w]. destruct (truthy _); [|by exists w].
  eexists. split; [reflexivity|]. by cbn.
Qed.

Lemma agrees_trans w1 w2 w3 : agrees w1 w2 -> agrees w2 w3 -> agrees w1 w3.
Proof.
  unfold agrees. intros (H1' & ? & ? & ? & ?) (H2' & ? & ? & ? & ?). split_and!; try congruence.
  intros k Hk. by rewrite H2', H1'.
Qed.

Lemma serve_approve w me id p until until' name eh :
  pending_at w id p until -> w_now w < until ->
  w_redis w !! linkStateKey id = Some (mkEntry (js "pending") until') -> w_now w < until' ->
  pd_userId p = me -> 8 <= js_length id -> seal (default (js "Linked Device") (pd_deviceName p)) = Ok name ->
  exists w', serve (link_approve me id eh) w = (HOk (device_id (w_serial w)), w') /\
    agrees (with_redis (with_devices w ((device_id (w_serial w), (device_of p name, w_now w)) :: w_devices w) (S (w_serial w)))
      (<[linkStateKey id := mkEntry (STATE_APPROVED_PREFIX ++ device_id (w_serial w)) (w_now w + 300000)]> (w_redis w))) w'.
Proof.
  intros Hp Ht Hst Ht' Hu Hid Hname. unfold link_approve. ztest. rewrite run_bind, (serve_readPending _ _ _ _ Hp Ht).
  rewrite bool_decide_eq_true_2 by done. cbn [negb]. rewrite run_bind, (serve_state_pending _ _ _ _ _ Hp Ht Hst Ht').
  cbn [is_pending negb]. rewrite Hname, run_call. cbn [do_cmd]. set (w1 := with_devices w _ _).
  assert (Hp1 : pending_at w1 id p until) by exact Hp. rewrite run_bind. unfold approvePendingLink.
  rewrite run_bind, (serve_readPending w1 _ _ _ Hp1 Ht). rewrite bool_decide_eq_true_2 by done. cbn [negb].
  rewrite run_bind, (serve_state_pending w1 _ _ _ _ Hp1 Ht Hst Ht'). cbn [is_pending negb].
  rewrite run_call. cbn [do_cmd run]. set (w2 := with_redis w1 _). rewrite run_bind.
  destruct (serve_intent eh (device_id (w_serial w)) w2) as (w3 & -> & H3). rewrite run_call. cbn [do_cmd]. rewrite run_bind.
  destruct (serve_publish p (assoc (pd_userId p) (w_users w3)) w3) as (w4 & -> & H4). exists w4.
  split; [done|]. exact (agrees_trans _ _ _ H3 H4).
Qed.

Lemma agrees_pending w w' id p until : agrees w w' -> pending_at w id p until -> pending_at w' id p until.
Proof. intros (Hk & _) (v & Hv & Hr). exists v. rewrite Hk; [done|]. intros d. symmetry. auto with nyx. Qed.

(** A link whose QR code was shown at [w], claimed at [t1] and approved at [t2]. *)
Record linked (w : world) (u dev tok : jstr) (req : ClaimRequest) (uuid : jstr) (eh : bool) (t1 t2 : Z) (name : jstr) (w3 : world) : Prop := {
  li_claim : (serve (link_claim req uuid) (with_now (serve (request_linking_qr u dev tok) w).2 t1)).1 = HOk uuid;
  li_approve : serve (link_approve u uuid eh)
    (with_now (serve (link_claim req uuid) (with_now (serve (request_linking_qr u dev tok) w).2 t1)).2 t2) =
    (HOk (device_id (w_serial w)), w3);
  li_pending : pending_at w3 uuid (claimed (mkOwner u dev) req) (t1 + 300000);
  li_state : w_redis w3 !! linkStateKey uuid = Some (mkEntry (STATE_APPROVED_PREFIX ++ device_id (w_serial w)) (t2 + 300000));
  li_token : w_redis w3 !! linkTokenKey tok = None;
  li_device : w_devices w3 = (device_id (w_serial w), (device_of (claimed (mkOwner u dev) req) name, t2)) :: w_devices w;
  li_users : w_users w3 = w_users w }.

Lemma link_done w u dev tok req uuid eh t1 t2 name :
  word_ok u = true -> forallb scalar dev = true -> cl_token req = tok -> claim_body_ok req = true ->
  pending_ok (claimed (mkOwner u dev) req) = true -> 8 <= js_length uuid ->
  seal (default (js "Linked Device") (pd_deviceName (claimed (mkOwner u dev) req))) = Ok name ->
  t1 < w_now w + 300000 -> t2 < t1 + 300000 ->
  exists w3, linked w u dev tok req uuid eh t1 t2 name w3.
Proof.
  intros Hu Hd Htok Hpat Hok Hid Hname H1' H2'. destruct (serve_qr w u dev tok Hu Hd) as (s & Hs & Ho & Eqr).
  subst tok. destruct (serve_claim (with_now (serve (request_linking_qr u dev (cl_token req)) w).2 t1) req uuid (mkOwner u dev) s (w_now w + 300000))
    as (w2 & Ec & Hp & Hst & Htk & Hdv & Hus & Hser & Hnow); rewrite ?Eqr; cbn; try done; [by rewrite lookup_insert_eq|].
  rewrite Eqr in Ec, Hdv, Hus, Hser. cbn [snd] in Ec. cbn -[js] in Hp, Hst, Hdv, Hus, Hser.
  destruct (serve_approve (with_now w2 t2) u uuid (claimed (mkOwner u dev) req) (t1 + 300000) (t1 + 300000) name eh)
    as (w3 & Ea & Hag); try done. cbn in Ea. rewrite Hser in Ea.
  exists w3. pose proof Hag as (Hk & Hd3 & Hu3 & _ & _). cbn in Hd3, Hu3. rewrite Hser, Hdv in Hd3.
  split; rewrite ?Eqr; cbn [snd]; rewrite ?Ec; cbn [fst snd]; try done.
  - eapply agrees_pending; [exact Hag|]. destruct Hp as (v & Hv & Hr). exists v. cbn.
    by rewrite lookup_insert_ne by auto with nyx.
  - rewrite Hk by (intros d; key_ne 5%nat). cbn. by rewrite lookup_insert_eq, Hser.
  - rewrite Hk by (intros d; symmetry; auto with nyx). cbn. by rewrite lookup_insert_ne by auto with nyx.
  - by rewrite Hu3, Hus.
Qed.

Lemma with_now_pending w id p until now : pending_at w id p until -> pending_at (with_now w now) id p until.
Proof. done. Qed.

(** What [complete] does before it looks at the password. *)
Lemma complete_prefix w id p d until until' pw user :
  pending_at w id p until -> w_now w < until ->
  w_redis w !! linkStateKey id = Some (mkEntry (STATE_APPROVED_PREFIX ++ d) until') -> w_now w < until' ->
  8 <= js_length id -> 1 <= js_length pw -> assoc (pd_userId p) (w_users w) = Some user -> us_banned user = false ->
  serve (link_complete id pw) w =
    if verifyPassword pw (us_passwordHash user)
    then serve (taken ← takeApprovedLink id;
                match taken with
                | None => Ret (HErr 409 "Link request is not approved or has expired.")
                | Some (_, deviceId) => Ret (HOk (deviceId, us_usernameHash user))
                end) w
    else (HErr 401 "Invalid credentials", w).
Proof.
  intros Hp Ht Hs Ht' Hid Hpw Hu Hb. unfold link_complete. ztest. cbn [orb].
  rewrite run_bind, (serve_state_approved _ _ _ _ Hs Ht'). cbn [is_approved negb].
  rewrite run_bind, (serve_readPending _ _ _ _ Hp Ht). rewrite run_call. cbn [do_cmd]. rewrite Hu, Hb.
  by destruct (verifyPassword _ _).
Qed.

Lemma serve_take w id p d until until' :
  pending_at w id p until -> w_now w < until ->
  w_redis w !! linkStateKey id = Some (mkEntry (STATE_APPROVED_PREFIX ++ d) until') -> w_now w < until' -> d <> [] ->
  serve (takeApprovedLink id) w =
    (Some (p, d), with_redis w (redis_del [pendingLinkKey id; linkStateKey id] (w_redis w))).
Proof.
  intros Hp Ht Hs Ht' Hd. destruct (approved_text d) as (Hpre & _ & Hdrop). unfold takeApprovedLink. rewrite run_call. cbn [do_cmd].
  rewrite (get_live _ _ _ _ Hs Ht'). cbn [e_value]. rewrite Hpre. cbn [negb]. rewrite Hdrop.
  rewrite run_bind, (serve_readPending _ _ _ _ Hp Ht). rewrite run_call. cbn [do_cmd]. by destruct d.
Qed.

(** C29: linking works, once. A QR code shown by the session of [u], claimed within five
    minutes and approved by a session of [u] within five minutes of the claim, gives
    a Device row with exactly the claimed keys. While the claim is alive, [complete]
    with the right password answers that device and erases the link, a wrong
    password leaves everything as it was, and a second approval is refused without
    effect. *)
Theorem link_flow w u dev tok req uuid eh t1 t2 name user :
  word_ok u = true -> forallb scalar dev = true -> cl_token req = tok -> claim_body_ok req = true ->
  pending_ok (claimed (mkOwner u dev) req) = true -> 8 <= js_length uuid ->
  seal (default (js "Linked Device") (pd_deviceName (claimed (mkOwner u dev) req))) = Ok name ->
  assoc u (w_users w) = Some user -> us_banned user = false -> device_id (w_serial w) <> [] ->
  t1 < w_now w + 300000 -> t2 < t1 + 300000 ->
  exists w3, linked w u dev tok req uuid eh t1 t2 name w3 /\
    forall t3, t3 < t1 + 300000 -> t3 < t2 + 300000 ->
    (forall pw, 1 <= js_length pw -> verifyPassword pw (us_passwordHash user) = true ->
       exists w4, serve (link_complete uuid pw) (with_now w3 t3) = (HOk (device_id (w_serial w), us_usernameHash user), w4) /\
         assoc (device_id (w_serial w)) (w_devices w4) = Some (device_of (claimed (mkOwner u dev) req) name, t2) /\
         w_redis w4 !! linkTokenKey tok = None /\ w_redis w4 !! pendingLinkKey uuid = None /\
         w_redis w4 !! linkStateKey uuid = None) /\
    (forall pw, 1 <= js_length pw -> verifyPassword pw (us_passwordHash user) = false ->
       serve (link_complete uuid pw) (with_now w3 t3) = (HErr 401 "Invalid credentials", with_now w3 t3)) /\
    (forall eh', serve (link_approve u uuid eh') (with_now w3 t3) =
       (HErr 409 "Link request has already been handled.", with_now w3 t3)).
Proof.
  intros Hu Hd Htok Hpat Hok Hid Hname Husr Hban Hdid H1' H2'.
  destruct (link_done w u dev tok req uuid eh t1 t2 name) as (w3 & Hl); try done. exists w3. split; [done|].
  destruct Hl as [_ _ Hp Hs Ht Hdev Hus]. intros t3 H3 H4. split_and!.
  - intros pw Hpw Hv. erewrite complete_prefix by (done || (cbn; by rewrite Hus)). rewrite Hv, run_bind.
    rewrite (serve_take (with_now w3 t3) uuid _ _ _ _ Hp H3 Hs H4 Hdid). cbn [run]. eexists. split; [done|]. cbn.
    rewrite Hdev. cbn. rewrite bool_decide_eq_true_2 by done. split_and!; [done| | |].
    + rewrite lookup_delete_ne by auto with nyx. by rewrite lookup_delete_ne by auto with nyx.
    + apply lookup_delete_eq.
    + rewrite lookup_delete_ne by auto with nyx. apply lookup_delete_eq.
  - intros pw Hpw Hv. erewrite complete_prefix by (done || (cbn; by rewrite Hus)). by rewrite Hv.
  - intros eh'. unfold link_approve. ztest. rewrite run_bind, (serve_readPending (with_now w3 t3) _ _ _ Hp H3).
    rewrite bool_decide_eq_true_2 by done. cbn [negb]. by rewrite run_bind, (serve_state_approved (with_now w3 t3) _ _ _ Hs H4).
Qed.

(** A late approval is a dead end. The approval renews the life of the state but not
    of the pending link, so in the time between, [status] still reports the link as
    approved while [complete] refuses every password, and the Device row stays
    although no device can ever use it. *)
Theorem late_approval_orphans w u dev tok req uuid eh t1 t2 name t3 pw :
  word_ok u = true -> forallb scalar dev = true -> cl_token req = tok -> claim_body_ok req = true ->
  pending_ok (claimed (mkOwner u dev) req) = true -> 8 <= js_length uuid ->
  seal (default (js "Linked Device") (pd_deviceName (claimed (mkOwner u dev) req))) = Ok name ->
  1 <= js_length pw ->
  t1 < w_now w + 300000 -> t2 < t1 + 300000 -> t1 + 300000 <= t3 < t2 + 300000 ->
  exists w3, linked w u dev tok req uuid eh t1 t2 name w3 /\
    serve (getLinkState uuid) (with_now w3 t3) = (Approved, with_now w3 t3) /\
    serve (link_complete uuid pw) (with_now w3 t3) =
      (HErr 409 "Link request is not approved or has expired.", with_now w3 t3) /\
    assoc (device_id (w_serial w)) (w_devices w3) = Some (device_of (claimed (mkOwner u dev) req) name, t2).
Proof.
  intros Hu Hd Htok Hpat Hok Hid Hname Hpw H1' H2' H3.
  destruct (link_done w u dev tok req uuid eh t1 t2 name) as (w3 & Hl); try done. exists w3. split; [done|].
  destruct Hl as [_ _ Hp Hs Ht Hdev Hus].
  assert (Hst : serve (getLinkState uuid) (with_now w3 t3) = (Approved, with_now w3 t3))
    by (apply (serve_state_approved (with_now w3 t3) _ _ _ Hs); cbn; lia).
  split; [done|]. split.
  - unfold link_complete. ztest. cbn [orb]. rewrite run_bind, Hst. cbn [is_approved negb]. rewrite run_bind.
    by rewrite (serve_readPending_gone (with_now w3 t3) _ _ _ Hp) by (cbn; lia).
  - rewrite Hdev. cbn. by rewrite bool_decide_eq_true_2.
Qed.

(** What is left of an approval after its checks: the write of the state and the rest. *)
Definition approve_rest (p : PendingDeviceLink) (pendingId did : jstr) : prog cmd (http jstr) :=
  _ ← call (SetEx (linkStateKey pendingId) LINK_PENDING_TTL_SECONDS (STATE_APPROVED_PREFIX ++ did));
  user ← call (UserFind (pd_userId p));
  _ ← match user with
      | Some u => if truthy (Some (us_usernameHash u))
                  then call (PublishKey (us_usernameHash u) (buffer_b64url (pd_publicKey p))) else Ret tt
      | None => Ret tt
      end;
  Ret (HOk did).

(** An approval reaches that point without changing what another one checks. *)
Lemma approve_checks w me id p until until' name :
  pending_at w id p until -> w_now w < until ->
  w_redis w !! linkStateKey id = Some (mkEntry (js "pending") until') -> w_now w < until' ->
  pd_userId p = me -> 8 <= js_length id -> seal (default (js "Linked Device") (pd_deviceName p)) = Ok name ->
  exists rest w1,
    rtc (adv do_cmd) (handle (ReqApprove me id false), w) (rest, w1) /\
    w1 = with_devices w ((device_id (w_serial w), (device_of p name, w_now w)) :: w_devices w) (S (w_serial w)) /\
    forall w2, run do_cmd rest w2 = run do_cmd (x ← approve_rest p id (device_id (w_serial w)); Ret (AnsApprove x)) w2.
Proof.
  intros Hp Ht Hst Ht' Hu Hid Hname. cbn [handle]. unfold link_approve. replace (js_length id <? 8) with false by lia.
  eexists _, _. split; [|split; [reflexivity|]].
  - eapply adv_then; [exact (serve_readPending _ _ _ _ Hp Ht)|]. cbv beta iota.
    rewrite bool_decide_eq_true_2 by done. cbn [negb].
    eapply adv_then; [exact (serve_state_pending _ _ _ _ _ Hp Ht Hst Ht')|]. cbn [is_pending negb]. rewrite Hname.
    eapply adv_then; [reflexivity|]. set (w1 := with_devices w _ _).
    assert (Hp1 : pending_at w1 id p until) by exact Hp. unfold approvePendingLink at 1.
    eapply adv_then2; [exact (serve_readPending w1 _ _ _ Hp1 Ht)|]. cbv beta iota.
    rewrite bool_decide_eq_true_2 by done. cbn [negb].
    eapply adv_then2; [exact (serve_state_pending w1 _ _ _ _ Hp1 Ht Hst Ht')|]. cbn [is_pending negb]. reflexivity.
  - intros w2. reflexivity.
Qed.

(** Two approvals can both succeed. If two requests approve one pending link at the
    same time and both pass the checks before either writes the new state, both are
    answered with success and two Device rows remain, although the second approval
    must not create a second device: the check in [approvePendingLink] and the write
    that follows are separate commands. *)
Theorem approve_race w me id p until until' name :
  pending_at w id p until -> w_now w < until ->
  w_redis w !! linkStateKey id = Some (mkEntry (js "pending") until') -> w_now w < until' ->
  pd_userId p = me -> 8 <= js_length id -> seal (default (js "Linked Device") (pd_deviceName p)) = Ok name ->
  exists w', rtc link_step ([handle (ReqApprove me id false); handle (ReqApprove me id false)], w)
      ([Ret (AnsApprove (HOk (device_id (w_serial w)))); Ret (AnsApprove (HOk (device_id (S (w_serial w)))))], w') /\
    w_devices w' = (device_id (S (w_serial w)), (device_of p name, w_now w)) ::
                   (device_id (w_serial w), (device_of p name, w_now w)) :: w_devices w.
Proof.
  intros Hp Ht Hst Ht' Hu Hid Hname.
  destruct (approve_checks w me id p until until' name) as (r0 & w1 & Ha0 & Hw1 & Hr0); try done.
  destruct (approve_checks w1 me id p until until' name) as (r1 & w2 & Ha1 & Hw2 & Hr1); try (by rewrite Hw1); try done.
  assert (Hrest : forall did w, exists w', run do_cmd (x ← approve_rest p id did; Ret (AnsApprove x)) w =
    (AnsApprove (HOk did), w') /\ w_devices w' = w_devices w).
  { intros did w0. rewrite run_bind. unfold approve_rest. rewrite run_call. cbn [do_cmd]. rewrite run_call. cbn [do_cmd].
    rewrite run_bind. match goal with |- context [run do_cmd (match ?u with _ => _ end) ?w9] =>
      destruct (serve_publish p u w9) as (w4 & -> & _ & Hd4 & _) end. exists w4. split; [done|]. by rewrite Hd4. }
  destruct (Hrest (device_id (w_serial w)) w2) as (w3 & E3 & D3). destruct (Hrest (device_id (w_serial w1)) w3) as (w4 & E4 & D4).
  exists w4. split.
  - etransitivity; [apply (adv_sys do_cmd tick _ _ Ha0 _ 0%nat); reflexivity|]. cbn [list_insert fst snd insert list_insert].
    etransitivity; [apply (adv_sys do_cmd tick _ _ Ha1 _ 1%nat); reflexivity|]. cbn [list_insert fst snd insert].
    pose proof (adv_run do_cmd r0 w2) as Hf0. rewrite Hr0, E3 in Hf0.
    pose proof (adv_run do_cmd r1 w3) as Hf1. rewrite Hr1, E4 in Hf1. cbn [fst snd] in Hf0, Hf1.
    etransitivity; [apply (adv_sys do_cmd tick _ _ Hf0 _ 0%nat); reflexivity|]. cbn [list_insert fst snd insert].
    etransitivity; [apply (adv_sys do_cmd tick _ _ Hf1 _ 1%nat); reflexivity|]. cbn [list_insert fst snd insert].
    by rewrite Hw1.
  - rewrite D4, D3, Hw2, Hw1. done.
Qed.
End Flow.

(** ** Concrete runs *)
Module ToyLink.
#[export] Instance toy_sealer : LinkingSealer := {|
  seal v := Ok (js "E:" ++ v);
  open_value s := match s with Some v => Some (drop 2 v) | None => None end |}.
#[export] Instance toy_sealer_laws : LinkingSealerLaws.
Proof. split; [|done]. intros v _. eexists. split; [reflexivity|]. done. Qed.

#[export] Instance toy_platform : LinkPlatform := {|
  buffer_b64url v := utf8_encode v;
  device_id n := js "device-" ++ js (pretty (Z.of_nat n));
  verifyPassword pw hash := bool_decide (pw = hash);
  pepper_text v := js "h-" ++ v |}.

Definition tok : jstr := replicate 64 48.
Definition uuid1 : jstr := js "uuid-0001".
Definition uuid2 : jstr := js "uuid-0002".
Definition key_text (n : nat) (c : string) : jstr := concat (replicate n (js c)).
Definition claim1 : ClaimRequest :=
  mkClaim tok (key_text 32 "p") (Some (key_text 1216 "q")) (key_text 32 "s") None (js "enc1") (Some (js "Phone")) (Some (js " fp ")) None.
Definition claim2 : ClaimRequest := mkClaim tok (key_text 32 "k") None (key_text 32 "s") None (js "enc2") None None None.
Definition bob : UserRow := mkUser (js "bob-hash") false (js "secret") true None.
Definition w0 : world := mkWorld ∅ [] [(js "bob", bob)] ∅ true [] [] 1000 0%nat.
Definition w1 : world := (run do_cmd (request_linking_qr (js "bob") (js "laptop") tok) w0).2.
End ToyLink.
Import ToyLink.

Lemma link_token_single_use_witness :
  exists ts w', rtc link_step (map handle [ReqClaim claim1 uuid1; ReqClaim claim2 uuid2], w1) (ts, w') /\
    ts !! 0%nat = Some (Ret (AnsClaim (HOk uuid1))) /\ forall p, ts !! 1%nat <> Some (Ret (AnsClaim (HOk p))).
Proof.
  pose proof (play_steps do_cmd tick [0; 1; 0; 0; 0]%nat (map handle [ReqClaim claim1 uuid1; ReqClaim claim2 uuid2], w1)) as Hrun.
  destruct (play do_cmd _ _) as [ts w'] eqn:E. exists ts, w'. split; [exact Hrun|].
  assert (H0 : ts !! 0%nat = Some (Ret (AnsClaim (HOk uuid1)))).
  { apply (f_equal fst) in E. vm_compute in E. subst ts. reflexivity. }
  split; [exact H0|]. intros p H1.
  assert (0%nat = 1%nat) as C; [|discriminate C].
  apply (link_token_single_use tok [ReqClaim claim1 uuid1; ReqClaim claim2 uuid2] w1 ts w' 0 1 claim1 claim2 uuid1 uuid2 uuid1 p);
    try reflexivity; [|exact Hrun|exact H0|exact H1].
  intros u d Hin. apply elem_of_cons in Hin as [Hin|Hin]; [discriminate Hin|].
  apply elem_of_cons in Hin as [Hin|Hin]; [discriminate Hin|]. by apply not_elem_of_nil in Hin.
Defined.

Definition demo_requests : list request :=
  [ReqQr (js "bob") (js "laptop") tok; ReqClaim claim1 uuid1; ReqApprove (js "bob") uuid1 true].

Lemma demo_qr u d t : ReqQr u d t ∈ demo_requests -> u = js "bob" /\ d = js "laptop".
Proof.
  intros [Hin|[Hin|[Hin|Hin%not_elem_of_nil]%elem_of_cons]%elem_of_cons]%elem_of_cons; try done. by injection Hin.
Qed.
Lemma demo_claim req uuid : ReqClaim req uuid ∈ demo_requests -> req = claim1.
Proof.
  intros [Hin|[Hin|[Hin|Hin%not_elem_of_nil]%elem_of_cons]%elem_of_cons]%elem_of_cons; try done. congruence.
Qed.

Lemma demo_requests_ok : requests_ok demo_requests.
Proof.
  split.
  - intros u d t Hin. destruct (demo_qr u d t Hin) as [-> ->]. split; vm_compute; reflexivity.
  - intros [u d] req uuid Hin Hi. destruct (demo_qr _ _ _ Hi) as [Hu Hd]. cbn in Hu, Hd. subst u d.
    rewrite (demo_claim req uuid Hin). vm_compute. reflexivity.
Qed.


Lemma link_flow_witness :
  exists w3 w4, linked w0 (js "bob") (js "laptop") tok claim1 uuid1 true 2000 3000 (js "E:Phone") w3 /\
    run do_cmd (link_complete uuid1 (js "secret")) (with_now w3 4000) = (HOk (js "device-0", js "bob-hash"), w4) /\
    run do_cmd (link_complete uuid1 (js "wrong")) (with_now w3 4000) = (HErr 401 "Invalid credentials", with_now w3 4000).
Proof.
  destruct (link_flow w0 (js "bob") (js "laptop") tok claim1 uuid1 true 2000 3000 (js "E:Phone") bob)
    as (w3 & Hl & Hall); [vm_compute; (reflexivity || discriminate) .. |].
  destruct (Hall 4000) as (Hok & Hbad & _); [reflexivity|reflexivity|].
  destruct (Hok (js "secret")) as (w4 & H4 & _); [vm_compute; discriminate|reflexivity|].
  exists w3, w4. split; [exact Hl|]. split; [exact H4|]. apply Hbad; [vm_compute; discriminate|reflexivity].
Defined.

(** The approval comes one second before the claim expires. *)
Lemma late_approval_orphans_witness :
  exists w3, linked w0 (js "bob") (js "laptop") tok claim1 uuid1 false 2000 301000 (js "E:Phone") w3 /\
    run do_cmd (getLinkState uuid1) (with_now w3 302000) = (Approved, with_now w3 302000) /\
    run do_cmd (link_complete uuid1 (js "secret")) (with_now w3 302000) =
      (HErr 409 "Link request is not approved or has expired.", with_now w3 302000).
Proof.
  destruct (late_approval_orphans w0 (js "bob") (js "laptop") tok claim1 uuid1 false 2000 301000 (js "E:Phone") 302000 (js "secret"))
    as (w3 & Hl & Hs & Hc & _); [try split; vm_compute; (reflexivity || discriminate) .. |].
  - exists w3. split; [exact Hl|]. split; [exact Hs|exact Hc].
Defined.

Definition w2 : world := (run do_cmd (link_claim claim1 uuid1) w1).2.

Lemma approve_race_witness :
  exists w', rtc link_step ([handle (ReqApprove (js "bob") uuid1 false); handle (ReqApprove (js "bob") uuid1 false)], w2)
      ([Ret (AnsApprove (HOk (js "device-0"))); Ret (AnsApprove (HOk (js "device-1")))], w') /\
    map fst (w_devices w') = [js "device-1"; js "device-0"].
Proof.
  destruct (approve_race w2 (js "bob") uuid1 (claimed (mkOwner (js "bob") (js "laptop")) claim1) 301000 301000 (js "E:Phone"))
    as (w' & Hrun & Hd); [|vm_compute; (reflexivity || discriminate) .. |].
  - eexists. split; [vm_compute; reflexivity|]. split; [discriminate|vm_compute; reflexivity].
  - exists w'. split; [exact Hrun|]. rewrite Hd. vm_compute. reflexivity.
Defined.
End Link.
