(* ===== verification/LinkHistoryServer.v ===== *)
(** The one-time history archive of a linked device, on the server:
    server/src/utils/linkHistory.ts, linkHistoryObject.ts, the size and lifetime rules of
    backupObject.ts they share, the endpoints of server/src/routes/linkHistory.ts and
    [GET /link/status] of routes/auth.ts. State and commands are those of
    DeviceLinking. *)
From stdpp Require Import pretty.
From S2P Require Import Prelude Bytes Base64 Utf8 Text Js JsDate PqWire Sodium LocalAtRest Json AtRest Effects DeviceLinking.
Import Link.

(** [env.backupKeySecret] and [r2Configured()]. *)
Class HistoryPlatform := {
  backupKeySecret : jstr;
  r2Configured : bool }.

Module History.

Definition LINK_HISTORY_TTL_SECONDS : Z := 1800.
Definition LINK_HISTORY_PRESIGN_TTL_SECONDS : Z := 600.
Definition HISTORY_DIGEST_PATTERN (d : jstr) : bool := (Z.of_nat (length d) =? 64) && forallb hex_char d.
Definition HISTORY_SEALED_KEY_MAX_CHARS : Z := 4096.
Definition LINK_HISTORY_UPLOAD_WINDOW_MS : Z := 30 * 60 * 1000.
Definition LINK_HISTORY_MIN_BYTES : Z := 64.
Definition LINK_HISTORY_SANDBOX_MAX_BYTES : Z := 25 * 1024 * 1024.
Definition BACKUP_FREE_MAX_BYTES : Z := 100 * 1024 * 1024.
Definition BACKUP_SUBSCRIBER_MAX_BYTES : Z := 500 * 1024 * 1024.
Definition BACKUP_DEFAULT_URL_TTL : Z := 300.
Definition BACKUP_MIN_URL_TTL : Z := 30.
Definition BACKUP_MAX_URL_TTL : Z := 900.

Definition historyStateKey (deviceId : jstr) : jstr := js "link_history:" ++ deviceId.
Definition historyPresignKey (deviceId : jstr) : jstr := js "link_history_presign:" ++ deviceId.

Record HistoryState := mkHistory { hs_size : Z; hs_digest : jstr; hs_sealedKey : jstr; hs_at : Z }.

Definition positiveInt (value : jsval) : option Z :=
  match value with JNum z => if (0 <? z) && (z <=? 9007199254740991) then Some z else None | _ => None end.

(** [validateHistoryUpload]: size, digest and sealed key, or an error. *)
Definition validateHistoryUpload (size digest sealedKey : jsval) : result (Z * jstr * jstr) :=
  match positiveInt size with
  | None => throw "invalid_size"
  | Some size =>
      match digest with
      | JStr d =>
          if negb (HISTORY_DIGEST_PATTERN d) then throw "invalid_digest" else
          match sealedKey with
          | JStr k =>
              if (js_length k =? 0) || (HISTORY_SEALED_KEY_MAX_CHARS <? js_length k) || negb (forallb url_char k)
              then throw "invalid_sealed_key" else Ok (size, d, k)
          | _ => throw "invalid_sealed_key"
          end
      | _ => throw "invalid_digest"
      end
  end.

(** ** The object in R2 *)
Definition backupSizeLimit (tier : option jstr) : Z :=
  if bool_decide (tier = Some (js "SUBSCRIBER")) then BACKUP_SUBSCRIBER_MAX_BYTES else BACKUP_FREE_MAX_BYTES.

(** [clampBackupUrlTtl], of a whole number or undefined *)
Definition clampBackupUrlTtl (raw : option Z) : Z :=
  match raw with
  | None => BACKUP_DEFAULT_URL_TTL
  | Some parsed => Z.min BACKUP_MAX_URL_TTL (Z.max BACKUP_MIN_URL_TTL parsed)
  end.

Definition historySizeLimit (tier : option jstr) (verified : bool) : Z :=
  let tierLimit := backupSizeLimit tier in
  if verified then tierLimit else Z.min LINK_HISTORY_SANDBOX_MAX_BYTES tierLimit.

Definition checkHistoryObject (head : option Z) (expectedSize : Z) : http unit :=
  match head with
  | None => HErr 409 "HISTORY_OBJECT_MISSING"
  | Some contentLength =>
      if negb (contentLength =? expectedSize) then HErr 409 "HISTORY_OBJECT_SIZE_MISMATCH" else HOk tt
  end.

(** [validateHistorySize]: size and lifetime of the URL. *)
Definition validateHistorySize (size : Z) (rawTtl : option Z) (tier : option jstr) (verified : bool) : http (Z * Z) :=
  if negb ((Z.abs size <=? 9007199254740991) && (LINK_HISTORY_MIN_BYTES <=? size))
  then HErr 400 "Missing or invalid history size" else
  if historySizeLimit tier verified <? size
  then HErr 400 "History archive too large." else
  HOk (size, clampBackupUrlTtl rawTtl).

Section Ops.
Context `{ServerCrypto} `{LinkingSealer} `{LinkPlatform} `{HistoryPlatform}.

Definition deriveLinkHistoryObjectKey (secret deviceId : jstr) : result jstr :=
  if negb (truthy (Some secret)) then throw "Rahasia kunci arsip riwayat kosong" else
  if negb (truthy (Some deviceId)) then throw "deviceId kosong" else
  let digest := AtRest.hex (hmac_sha256 (utf8_encode secret) (utf8_encode (js "nyx:link-history:" ++ deviceId))) in
  Ok (js "link-history/" ++ digest ++ js ".nyxhist").

Definition hasHistoryIntent (deviceId : jstr) : prog cmd bool :=
  if negb (truthy (Some deviceId)) then Ret false else
  v ← call (Get (historyIntentKey deviceId));
  Ret (match v with Some _ => true | None => false end).

Definition recordHistoryPresign (deviceId : jstr) (size : Z) : prog cmd (result unit) :=
  now ← call DateNow;
  match seal (JSON_stringify (JObj [(js "size", JNum size); (js "at", JNum now)])) with
  | Err e => Ret (Err e)
  | Ok sealed =>
      _ ← call (SetEx (historyPresignKey deviceId) LINK_HISTORY_PRESIGN_TTL_SECONDS sealed);
      Ret (Ok tt)
  end.

(** [typeof v === 'number' ? v : 0] *)
Definition number_or_0 (v : jsval) : Z := match v with JNum z => z | _ => 0 end.

Definition parsePresign (raw : option jstr) : option (Z * Z) :=
  obj ← parseObject raw;
  size ← positiveInt (prop obj "size");
  Some (size, number_or_0 (prop obj "at")).

Definition readHistoryPresign (deviceId : jstr) : prog cmd (option (Z * Z)) :=
  sealed ← call (Get (historyPresignKey deviceId));
  Ret (parsePresign (open_value sealed)).

Definition state_json (s : HistoryState) : jsval :=
  JObj [(js "size", JNum (hs_size s)); (js "digest", JStr (hs_digest s)); (js "sealedKey", JStr (hs_sealedKey s));
        (js "at", JNum (hs_at s))].

Definition markHistoryReady (deviceId : jstr) (size digest sealedKey : jsval) : prog cmd (http HistoryState) :=
  match validateHistoryUpload size digest sealedKey with
  | Err _ => Ret (HErr 409 "HISTORY_INVALID")
  | Ok (size, digest, sealedKey) =>
      presign ← readHistoryPresign deviceId;
      match presign with
      | None => Ret (HErr 409 "HISTORY_NO_PRESIGN")
      | Some (presigned, _) =>
          if negb (presigned =? size) then Ret (HErr 409 "HISTORY_SIZE_MISMATCH") else
          now ← call DateNow;
          let state := mkHistory size digest sealedKey now in
          match seal (JSON_stringify (state_json state)) with
          | Err e => Ret (HErr 500 e)
          | Ok sealed =>
              _ ← call (SetEx (historyStateKey deviceId) LINK_HISTORY_TTL_SECONDS sealed);
              Ret (HOk state)
          end
      end
  end.

Definition as_text (v : jsval) : jstr := match v with JStr s => s | _ => [] end.

Definition parseState (raw : option jstr) : option HistoryState :=
  obj ← parseObject raw;
  size ← positiveInt (prop obj "size");
  let digest := as_text (prop obj "digest") in
  let sealedKey := as_text (prop obj "sealedKey") in
  if negb (HISTORY_DIGEST_PATTERN digest) || negb (truthy (Some sealedKey)) then None else
  Some (mkHistory size digest sealedKey (number_or_0 (prop obj "at"))).

Definition readHistoryState (deviceId : jstr) : prog cmd (option HistoryState) :=
  if negb (truthy (Some deviceId)) then Ret None else
  sealed ← call (Get (historyStateKey deviceId));
  Ret (parseState (open_value sealed)).

Definition burnHistory (deviceId : jstr) : prog cmd (option HistoryState) :=
  if negb (truthy (Some deviceId)) then Ret None else
  state ← readHistoryState deviceId;
  _ ← call (Del [historyStateKey deviceId; historyPresignKey deviceId; historyIntentKey deviceId]);
  Ret state.

(** ** The endpoints; [me] and [session] are the user and the device of the session *)

Definition assertFreshDeviceOfUser (userId deviceId : jstr) : prog cmd (http unit) :=
  device ← call (DeviceFind deviceId);
  match device with
  | None => Ret (HErr 403 "Device does not belong to this account.")
  | Some (device, createdAt) =>
      if negb (bool_decide (dr_userId device = userId))
      then Ret (HErr 403 "Device does not belong to this account.") else
      now ← call DateNow;
      if LINK_HISTORY_UPLOAD_WINDOW_MS <? now - createdAt then Ret (HErr 409 "DEVICE_LINK_WINDOW_CLOSED") else
      Ret (HOk tt)
  end.

(** [accountTier]: verified, tier *)
Definition accountTier (userId : jstr) : prog cmd (bool * option jstr) :=
  user ← call (UserFind userId);
  Ret (match user with Some u => (us_verified u, us_tier u) | None => (false, None) end).

(** The answer of an endpoint after a check that may fail. *)
Definition checked {A B} (p : prog cmd (http A)) (f : A -> prog cmd (http B)) : prog cmd (http B) :=
  r ← p;
  match r with HErr s m => Ret (HErr s m) | HOk a => f a end.
Definition throws {A B} (r : result A) (f : A -> prog cmd (http B)) : prog cmd (http B) :=
  match r with Err e => Ret (HErr 500 e) | Ok a => f a end.

Definition id_ok (deviceId : jstr) : bool := (8 <=? js_length deviceId) && (js_length deviceId <=? 64).

(** A presigned URL: the object and the time until which it is valid. *)
Record Presigned := mkUrl { url_key : jstr; url_until : Z }.

(** [POST /presign] *)
Definition history_presign (me deviceId : jstr) (size : Z) (urlTtl : option Z) : prog cmd (http (Presigned * Z * Z)) :=
  if negb (id_ok deviceId && (0 <? size)) then Ret (HErr 400 "body") else
  if negb r2Configured then Ret (HErr 503 "LINK_HISTORY_UNAVAILABLE") else
  checked (assertFreshDeviceOfUser me deviceId) (fun _ =>
  account ← accountTier me;
  match validateHistorySize size urlTtl account.2 account.1 with
  | HErr s m => Ret (HErr s m)
  | HOk (size, ttl) =>
      throws (deriveLinkHistoryObjectKey backupKeySecret deviceId) (fun key =>
      now ← call DateNow;
      r ← recordHistoryPresign deviceId size;
      throws r (fun _ => Ret (HOk (mkUrl key (now + ttl * 1000), size, ttl))))
  end).

(** [GET /limits]: bytes, verified, available *)
Definition history_limits (me : jstr) : prog cmd (http (Z * bool * bool)) :=
  account ← accountTier me;
  Ret (HOk (historySizeLimit account.2 account.1, account.1, r2Configured)).

(** [POST /ready] *)
Definition history_ready (me deviceId : jstr) (size : Z) (digest sealedKey : jstr) : prog cmd (http Z) :=
  if negb (id_ok deviceId && (0 <? size) && (1 <=? js_length digest) && (js_length digest <=? 128) &&
           (1 <=? js_length sealedKey) && (js_length sealedKey <=? 4096)) then Ret (HErr 400 "body") else
  checked (assertFreshDeviceOfUser me deviceId) (fun _ =>
  throws (deriveLinkHistoryObjectKey backupKeySecret deviceId) (fun key =>
  head ← call (HeadObject key);
  throws head (fun head =>
  checked (Ret (checkHistoryObject head size)) (fun _ =>
  checked (markHistoryReady deviceId (JNum size) (JStr digest) (JStr sealedKey)) (fun state =>
  Ret (HOk (hs_size state))))))).

(** [POST /abort] *)
Definition history_abort (me deviceId : jstr) : prog cmd (http unit) :=
  if negb (id_ok deviceId) then Ret (HErr 400 "body") else
  checked (assertFreshDeviceOfUser me deviceId) (fun _ =>
  throws (deriveLinkHistoryObjectKey backupKeySecret deviceId) (fun key =>
  _ ← call (DeleteObject key);
  _ ← burnHistory deviceId;
  Ret (HOk tt))).

(** [GET /]: size and digest of an archive that is ready *)
Definition history_status (session : jstr) : prog cmd (http (option (Z * jstr))) :=
  if negb (truthy (Some session)) then Ret (HErr 401 "Unauthorized") else
  state ← readHistoryState session;
  Ret (HOk (match state with Some s => Some (hs_size s, hs_digest s) | None => None end)).

Record Ticket := mkTicket { ti_url : Presigned; ti_sealedKey : jstr; ti_size : Z; ti_digest : jstr }.

(** [POST /download] *)
Definition history_download (session : jstr) : prog cmd (http Ticket) :=
  if negb (truthy (Some session)) then Ret (HErr 401 "Unauthorized") else
  state ← readHistoryState session;
  match state with
  | None => Ret (HErr 404 "NO_HISTORY")
  | Some s =>
      throws (deriveLinkHistoryObjectKey backupKeySecret session) (fun key =>
      now ← call DateNow;
      Ret (HOk (mkTicket (mkUrl key (now + 300 * 1000)) (hs_sealedKey s) (hs_size s) (hs_digest s))))
  end.

(** [POST /consume]: whether the archive was still there *)
Definition history_consume (session digest : jstr) : prog cmd (http bool) :=
  if negb (truthy (Some session)) then Ret (HErr 401 "Unauthorized") else
  if negb ((1 <=? js_length digest) && (js_length digest <=? 128)) then Ret (HErr 400 "body") else
  state ← readHistoryState session;
  match state with
  | None => Ret (HOk false)
  | Some s =>
      if negb (bool_decide (hs_digest s = digest)) then Ret (HErr 409 "HISTORY_DIGEST_MISMATCH") else
      throws (deriveLinkHistoryObjectKey backupKeySecret session) (fun key =>
      deleted ← call (DeleteObject key);
      throws deleted (fun _ =>
      _ ← burnHistory session;
      Ret (HOk true)))
  end.

Inductive HistoryFlag := HNone | HPreparing | HReady.

(** [GET /link/status/:pendingId] *)
Definition link_status (pendingId : jstr) : prog cmd (http (LinkState * HistoryFlag)) :=
  if js_length pendingId <? 8 then Ret (HErr 400 "pendingId is required.") else
  state ← getLinkState pendingId;
  if negb (is_approved state) then Ret (HOk (state, HNone)) else
  deviceId ← getApprovedDeviceId pendingId;
  match deviceId with
  | None => Ret (HOk (state, HNone))
  | Some deviceId =>
      ready ← readHistoryState deviceId;
      match ready with
      | Some _ => Ret (HOk (state, HReady))
      | None =>
          intent ← hasHistoryIntent deviceId;
          Ret (HOk (state, if intent : bool then HPreparing else HNone))
      end
  end.
End Ops.

(** ** What the endpoints do *)
Lemma state_not_presign d e : historyPresignKey e <> historyStateKey d.
Proof. key_ne 12%nat. Qed.
Lemma presign_not_state d e : historyStateKey d <> historyPresignKey e.
Proof. intros E. by apply (state_not_presign d e). Qed.
#[export] Hint Resolve state_not_presign presign_not_state : nyx.

#[global] Arguments historyStateKey _ : simpl never.
#[global] Arguments historyPresignKey _ : simpl never.

Lemma forallb_impl_bool {A} (f g : A -> bool) l : (forall x, f x = true -> g x = true) -> forallb f l = true -> forallb g l = true.
Proof. intros Hfg. rewrite !forallb_forall. auto. Qed.

Lemma hex_scalar s : forallb hex_char s = true -> forallb scalar s = true.
Proof. apply forallb_impl_bool. intros c. unfold hex_char, scalar. lia. Qed.

Lemma url_scalar s : forallb url_char s = true -> forallb scalar s = true.
Proof. apply forallb_impl_bool. intros c. unfold url_char, scalar. lia. Qed.

Lemma hex_units s : forallb hex_char s = true -> Z.of_nat (length s) = js_length s.
Proof.
  induction s as [|c s IH]; [done|]. cbn [forallb length]. intros [Hc Hs]%andb_true_iff. specialize (IH Hs).
  unfold js_length in *. cbn [foldr]. unfold hex_char in Hc. replace (c <? 65536) with true by lia. lia.
Qed.

Section Lemmas.
Context `{ServerCrypto} `{LinkingSealerLaws} `{LinkPlatform} `{HistoryPlatform}.

(** A device of [me] that may still receive an archive. *)
Record receiver (w : world) (me dev : jstr) : Prop := {
  re_device : exists row created, assoc dev (w_devices w) = Some (row, created) /\ dr_userId row = me /\
    w_now w - created <= LINK_HISTORY_UPLOAD_WINDOW_MS;
  re_id : id_ok dev = true }.

Definition account_limit (w : world) (me : jstr) : Z :=
  match assoc me (w_users w) with
  | Some u => historySizeLimit (us_tier u) (us_verified u)
  | None => historySizeLimit None false
  end.

Lemma receiver_nonempty w me dev : receiver w me dev -> truthy (Some dev) = true.
Proof. intros [_ Hid]. destruct dev; [|done]. vm_compute in Hid. done. Qed.

Lemma receiver_same w w' me dev : w_devices w' = w_devices w -> w_now w' = w_now w -> receiver w me dev -> receiver w' me dev.
Proof. intros Hd Hn [Hr Hi]. split; [|done]. by rewrite Hd, Hn. Qed.

Lemma serve_limits w me : run do_cmd (history_limits me) w =
  (HOk (account_limit w me, match assoc me (w_users w) with Some u => us_verified u | None => false end, r2Configured), w).
Proof. unfold history_limits, accountTier, account_limit. rewrite run_bind, run_call. cbn [do_cmd run]. by destruct (assoc _ _). Qed.

Lemma serve_fresh w me dev : receiver w me dev -> run do_cmd (assertFreshDeviceOfUser me dev) w = (HOk tt, w).
Proof.
  intros [(row & c & Hd & Hu & Ht) _]. unfold assertFreshDeviceOfUser. rewrite run_call. cbn [do_cmd]. rewrite Hd.
  rewrite bool_decide_eq_true_2 by done. cbn [negb]. rewrite run_call. cbn [do_cmd]. ztest. done.
Qed.

Lemma run_checked {A B} (p : prog cmd (http A)) (f : A -> prog cmd (http B)) w a w' :
  run do_cmd p w = (HOk a, w') -> run do_cmd (checked p f) w = run do_cmd (f a) w'.
Proof. intros E. unfold checked. by rewrite run_bind, E. Qed.

Lemma parsePresign_json size at_ : 0 < size <= 9007199254740991 ->
  parsePresign (Some (JSON_stringify (JObj [(js "size", JNum size); (js "at", JNum at_)]))) = Some (size, at_).
Proof.
  intros Hs. unfold parsePresign. rewrite parseObject_json by done. cbn [mbind option_bind].
  change (prop _ "size") with (JNum size). cbn [positiveInt]. ztest. done.
Qed.

Definition state_ok (s : HistoryState) : bool :=
  (0 <? hs_size s) && (hs_size s <=? 9007199254740991) && HISTORY_DIGEST_PATTERN (hs_digest s) &&
  forallb url_char (hs_sealedKey s) && (1 <=? js_length (hs_sealedKey s)) && (js_length (hs_sealedKey s) <=? 4096).

Lemma state_json_ok s : state_ok s = true -> json_ok (state_json s) = true.
Proof.
  unfold state_ok, HISTORY_DIGEST_PATTERN. intros Hs. bools. cbn [state_json json_ok].
  apply andb_true_iff. split; [apply bool_decide_eq_true, (bool_decide_unpack (NoDup _)); vm_compute; exact I|].
  cbn [forallb fst snd json_ok]. rewrite !js_scalar, (hex_scalar (hs_digest s)), (url_scalar (hs_sealedKey s)) by done. done.
Qed.

Lemma parseState_json s : state_ok s = true -> parseState (Some (JSON_stringify (state_json s))) = Some s.
Proof.
  intros Hs. pose proof (state_json_ok s Hs) as Hj. unfold parseState, state_json. rewrite parseObject_json by done.
  cbn [mbind option_bind]. change (prop _ "size") with (JNum (hs_size s)).
  change (prop _ "digest") with (JStr (hs_digest s)). change (prop _ "sealedKey") with (JStr (hs_sealedKey s)).
  change (prop _ "at") with (JNum (hs_at s)). unfold state_ok in Hs. bools. cbn [positiveInt as_text number_or_0]. ztest.
  destruct s as [z d k a]. cbn in *. replace (HISTORY_DIGEST_PATTERN d) with true. destruct k as [|c k]; [done|]. done.
Qed.

Lemma seal_json v : json_ok v = true -> exists s, seal (JSON_stringify v) = Ok s /\ open_value (Some s) = Some (JSON_stringify v).
Proof. intros Hv. destruct (seal_opens (JSON_stringify v)) as (s & Hs & _ & Ho); [by apply stringify_text|]. by exists s. Qed.

(** A presigned upload of [size] bytes, and an archive that is ready, in Redis. *)
Definition presign_at (w : world) (dev : jstr) (size : Z) : Prop :=
  exists v until at_, w_redis w !! historyPresignKey dev = Some (mkEntry v until) /\ w_now w < until /\
    parsePresign (open_value (Some v)) = Some (size, at_).
Definition ready_at (w : world) (dev : jstr) (st : HistoryState) (until : Z) : Prop :=
  exists v, w_redis w !! historyStateKey dev = Some (mkEntry v until) /\ parseState (open_value (Some v)) = Some st.

Lemma serve_presign w me dev size key : receiver w me dev -> r2Configured = true ->
  deriveLinkHistoryObjectKey backupKeySecret dev = Ok key -> 64 <= size <= account_limit w me -> size <= 9007199254740991 ->
  exists v, run do_cmd (history_presign me dev size None) w =
      (HOk (mkUrl key (w_now w + 300 * 1000), size, 300), with_redis w (<[historyPresignKey dev := mkEntry v (w_now w + 600 * 1000)]> (w_redis w))) /\
    parsePresign (open_value (Some v)) = Some (size, w_now w).
Proof.
  intros Hr Hr2 Hk Hs Hmax. destruct (seal_json (JObj [(js "size", JNum size); (js "at", JNum (w_now w))])) as (v & Hv & Ho); [done|].
  exists v. split; [|rewrite Ho; apply parsePresign_json; lia].
  unfold history_presign. rewrite (re_id _ _ _ Hr), Hr2. ztest. cbn [andb negb].
  rewrite (run_checked _ _ _ _ _ (serve_fresh _ _ _ Hr)). unfold accountTier. rewrite run_bind, run_call. cbn [do_cmd run].
  unfold account_limit in Hs. destruct (assoc me (w_users w)) as [u|]; cbn [fst snd]; unfold validateHistorySize, LINK_HISTORY_MIN_BYTES; ztest;
    cbn [andb negb]; rewrite Hk; cbn [throws]; rewrite run_call; cbn [do_cmd];
    unfold recordHistoryPresign; rewrite run_bind, run_call; cbn [do_cmd]; rewrite Hv, run_call; cbn [do_cmd run throws]; done.
Qed.

Lemma serve_ready w me dev size digest sealedKey key : receiver w me dev -> w_r2_up w = true ->
  deriveLinkHistoryObjectKey backupKeySecret dev = Ok key -> presign_at w dev size ->
  (exists body, w_objects w !! key = Some body /\ blen body = size) ->
  state_ok (mkHistory size digest sealedKey (w_now w)) = true ->
  exists v, run do_cmd (history_ready me dev size digest sealedKey) w =
      (HOk size, with_redis w (<[historyStateKey dev := mkEntry v (w_now w + 1800 * 1000)]> (w_redis w))) /\
    parseState (open_value (Some v)) = Some (mkHistory size digest sealedKey (w_now w)).
Proof.
  intros Hr Hup Hk (v0 & until & at_ & Hpre & Hlive & Hparse) (body & Hbody & Hlen) Hok.
  destruct (seal_json _ (state_json_ok _ Hok)) as (v & Hv & Ho). exists v. split; [|rewrite Ho; by apply parseState_json].
  unfold history_ready. unfold state_ok in Hok. cbn [hs_size hs_digest hs_sealedKey] in Hok. bools.
  match goal with H : HISTORY_DIGEST_PATTERN digest = true |- _ => rename H into Hdig end.
  assert (Hd64 : js_length digest = 64).
  { unfold HISTORY_DIGEST_PATTERN in Hdig. bools. rewrite <- (hex_units digest); [lia|done]. }
  rewrite (re_id _ _ _ Hr). ztest. cbn [andb negb]. rewrite (run_checked _ _ _ _ _ (serve_fresh _ _ _ Hr)), Hk. cbn [throws].
  rewrite run_call. cbn [do_cmd]. rewrite Hup, Hbody. cbn [fmap option_fmap option_map throws]. rewrite Hlen.
  unfold checkHistoryObject. rewrite Z.eqb_refl. cbn [negb]. rewrite (run_checked (Ret (HOk tt)) _ _ _ _ eq_refl).
  refine (eq_trans (run_checked _ _ _ (mkHistory size digest sealedKey (w_now w)) _ _) eq_refl).
  unfold markHistoryReady, validateHistoryUpload. cbn [positiveInt]. ztest. cbn [andb].
  rewrite Hdig. cbn [negb]. unfold HISTORY_SEALED_KEY_MAX_CHARS. ztest. cbn [orb].
  replace (forallb url_char sealedKey) with true. cbn [negb]. unfold readHistoryPresign. rewrite run_bind, run_call. cbn [do_cmd].
  rewrite (get_live _ _ _ _ Hpre Hlive). cbn [e_value run]. rewrite Hparse, Z.eqb_refl. cbn [negb].
  rewrite run_call. cbn [do_cmd]. rewrite Hv, run_call. done.
Qed.

Lemma serve_state w dev st until : ready_at w dev st until -> w_now w < until -> dev <> [] ->
  run do_cmd (readHistoryState dev) w = (Some st, w).
Proof.
  intros (v & Hv & Hp) Ht Hd. unfold readHistoryState. destruct dev as [|c dev]; [done|]. cbn [truthy negb]. rewrite run_call.
  cbn [do_cmd]. rewrite (get_live _ _ _ _ Hv Ht). cbn [e_value run]. by rewrite Hp.
Qed.

Lemma truthy_word s : s <> [] -> truthy (Some s) = true.
Proof. by destruct s. Qed.

Lemma serve_status w dev st until : ready_at w dev st until -> w_now w < until -> dev <> [] ->
  run do_cmd (history_status dev) w = (HOk (Some (hs_size st, hs_digest st)), w).
Proof.
  intros Hr Ht Hd. unfold history_status. rewrite truthy_word by done. cbn [negb].
  by rewrite run_bind, (serve_state _ _ _ _ Hr Ht Hd).
Qed.

Lemma serve_download w dev st until key : ready_at w dev st until -> w_now w < until -> dev <> [] ->
  deriveLinkHistoryObjectKey backupKeySecret dev = Ok key ->
  run do_cmd (history_download dev) w =
    (HOk (mkTicket (mkUrl key (w_now w + 300 * 1000)) (hs_sealedKey st) (hs_size st) (hs_digest st)), w).
Proof.
  intros Hr Ht Hd Hk. unfold history_download. rewrite truthy_word by done. cbn [negb].
  rewrite run_bind, (serve_state _ _ _ _ Hr Ht Hd), Hk. done.
Qed.

(** What is left of the transfer to [dev]: nothing. *)
Definition burned (key dev : jstr) (w : world) : world :=
  with_redis (with_objects w (delete key (w_objects w)))
    (redis_del [historyStateKey dev; historyPresignKey dev; historyIntentKey dev] (w_redis w)).

Lemma serve_consume w dev st until key : ready_at w dev st until -> w_now w < until -> dev <> [] ->
  deriveLinkHistoryObjectKey backupKeySecret dev = Ok key -> w_r2_up w = true -> 1 <= js_length (hs_digest st) <= 128 ->
  run do_cmd (history_consume dev (hs_digest st)) w = (HOk true, burned key dev w).
Proof.
  intros Hr Ht Hd Hk Hup Hl. unfold history_consume. rewrite truthy_word by done. ztest. cbn [andb negb].
  rewrite run_bind, (serve_state _ _ _ _ Hr Ht Hd). rewrite bool_decide_eq_true_2 by done. cbn [negb]. rewrite Hk. cbn [throws].
  rewrite run_call. cbn [do_cmd]. rewrite Hup. cbn [throws]. set (w1 := with_objects w _).
  assert (ready_at w1 dev st until) as Hr1 by exact Hr. unfold burnHistory. rewrite run_bind, truthy_word by done. cbn [negb].
  rewrite run_bind, (serve_state w1 _ _ _ Hr1 Ht Hd), run_call. done.
Qed.

Lemma readState_same w dev : exists st, run do_cmd (readHistoryState dev) w = (st, w).
Proof. unfold readHistoryState. destruct (negb _); [by eexists|]. rewrite run_call. cbn. by eexists. Qed.

Lemma serve_burn w dev : dev <> [] -> exists st, run do_cmd (burnHistory dev) w =
  (st, with_redis w (redis_del [historyStateKey dev; historyPresignKey dev; historyIntentKey dev] (w_redis w))).
Proof.
  intros Hd. unfold burnHistory. rewrite truthy_word by done. cbn [negb]. destruct (readState_same w dev) as [st Hs].
  rewrite run_bind, Hs, run_call. by exists st.
Qed.

Lemma serve_abort w me dev key : receiver w me dev -> deriveLinkHistoryObjectKey backupKeySecret dev = Ok key ->
  w_r2_up w = true -> run do_cmd (history_abort me dev) w = (HOk tt, burned key dev w).
Proof.
  intros Hr Hk Hup. unfold history_abort. rewrite (re_id _ _ _ Hr). cbn [negb].
  rewrite (run_checked _ _ _ _ _ (serve_fresh _ _ _ Hr)), Hk. cbn [throws]. rewrite run_call. cbn [do_cmd]. rewrite Hup.
  pose proof (receiver_nonempty _ _ _ Hr) as Hd. rewrite run_bind.
  destruct (serve_burn (with_objects w (delete key (w_objects w))) dev) as [st ->]; [by destruct dev|]. done.
Qed.

Lemma burned_gone key dev w : dev <> [] ->
  run do_cmd (readHistoryState dev) (burned key dev w) = (None, burned key dev w) /\
  run do_cmd (readHistoryPresign dev) (burned key dev w) = (None, burned key dev w) /\
  run do_cmd (hasHistoryIntent dev) (burned key dev w) = (false, burned key dev w) /\
  w_objects (burned key dev w) !! key = None.
Proof.
  intros Hd. unfold readHistoryState, readHistoryPresign, hasHistoryIntent. rewrite truthy_word by done. cbn [negb].
  rewrite !run_call. cbn [do_cmd burned with_redis with_objects w_redis w_now w_objects].
  rewrite !get_del. rewrite !bool_decide_eq_true_2 by (repeat constructor). cbn [run]. rewrite open_absent. split_and!; try done. apply lookup_delete_eq.
Qed.
End Lemmas.
End History.
