(* ===== verification/LinkHistory.v ===== *)
(** The transfer of the history to a linked device, on both devices:
    web/src/lib/deviceLinkSas.ts (the verification code), pqBoxSeal.ts,
    linkHistoryClient.ts, linkHistoryExport.ts (old device), linkHistoryImport.ts (new
    device) and linkHistoryRetry.ts, composed with the endpoints of LinkHistoryServer.
    Any request may get lost on its way or lose its answer. *)
From stdpp Require Import pretty.
From S2P Require Import Prelude StateErr Bytes Base64 Utf8 Text Js JsDate PqWire Sodium LocalAtRest Json AtRest BackupFormat BackupPayload BackupRestore Effects DeviceLinking LinkHistoryServer.
Import Backup Payload Restore Link History.

(** The two base64 variants of libsodium beside the URL-safe one. *)
Class Base64Variants := {
  from_base64_original_no_padding : string -> result bytes;
  from_base64_original : string -> result bytes }.

(** The length of a URL-safe text without padding. *)
Class Base64Length `{Sodium} := {
  to_base64_length : forall b, slen (to_base64 b) = (4 * blen b + 2) / 3 }.

Module Transfer.

(** ** deviceLinkSas.ts *)
Definition LINK_SAS_DOMAIN : jstr := js "nyx-link-sas-v1".
Definition LINK_SAS_DIGITS : nat := 6.
Definition SAS_MODULUS : Z := 10 ^ Z.of_nat LINK_SAS_DIGITS.

(** [a | b] *)
Definition js_or (a b : Z) : Z := int32 (Z.lor (int32 a) (int32 b)).
(** [s.padStart(n, '0')] *)
Definition padStart (n : nat) (s : jstr) : jstr := replicate (n - length s) 48 ++ s.
(** [digest[i]] as an operand of a bit operator *)
Definition octet (b : bytes) (i : nat) : Z := match b !! i with Some x => b2z x | None => 0 end.

(** A text as the argument of [sodium.from_base64]. *)
Definition from_text (f : string -> result bytes) (s : jstr) : result bytes :=
  match of_js s with Some t => f t | None => throw "invalid input" end.

Section Sas.
Context `{Sodium} `{Base64Variants}.

(** The loop over the variants. *)
Fixpoint try_variants (variants : list (string -> result bytes)) (b64 : jstr) : result bytes :=
  match variants with
  | [] => throw "Invalid new-device public key for link verification."
  | variant :: variants' =>
      match from_text variant b64 with
      | Ok decoded => if 0 <? blen decoded then Ok decoded else try_variants variants' b64
      | Err _ => try_variants variants' b64
      end
  end.

Definition decodePublicKey (b64 : jstr) : result bytes :=
  try_variants [from_base64; from_base64_original_no_padding; from_base64_original] b64.

(** [domain | 0 | key] *)
Definition sas_input (keyBytes : bytes) : result bytes :=
  let domain := utf8_encode LINK_SAS_DOMAIN in
  let input := zeros (blen domain + 1 + blen keyBytes) in
  input ← u8_set input 0 domain;
  input ← u8_set input (blen domain) [x00];
  u8_set input (blen domain + 1) keyBytes.

Definition sas_value (digest : bytes) : Z :=
  js_shru (js_or (js_or (js_or (js_shl (octet digest 0) 24) (js_shl (octet digest 1) 16))
    (js_shl (octet digest 2) 8)) (octet digest 3)) 0.

Definition deriveLinkSas (pqPublicKeyB64 : jstr) : result jstr :=
  if js_length pqPublicKeyB64 =? 0 then throw "Missing new-device public key for link verification." else
  keyBytes ← decodePublicKey pqPublicKeyB64;
  input ← sas_input keyBytes;
  let digest := generichash 32 input None in
  Ok (padStart LINK_SAS_DIGITS (js (pretty (Z.rem (sas_value digest) SAS_MODULUS)))).
End Sas.

Definition formatLinkSas (code : jstr) : jstr :=
  let digits := List.filter js_digit code in
  if negb (Nat.eqb (length digits) LINK_SAS_DIGITS) then code else
  take 3 digits ++ js " " ++ drop 3 digits.

(** ** linkHistoryClient.ts *)
Definition HISTORY_KEY_PAYLOAD_VERSION : Z := 1.

(** What becomes of a request: it arrives and is answered, it does not arrive, or it
    is carried out and the answer is lost. *)
Inductive fate := Delivered | LostRequest | LostAnswer.

(** The server, and the fates of the next requests (then all are delivered). *)
Record net := mkNet { n_world : world; n_fates : list fate }.

Section Client.
Context `{Sodium} `{ServerCrypto} `{LinkingSealer} `{LinkPlatform} `{HistoryPlatform}.

(** One request to the server or to R2. *)
Definition fetch {A} (p : prog cmd A) : stE net A := fun n =>
  let '(r, w') := run do_cmd p (n_world n) in
  match n_fates n with
  | LostRequest :: fs => (throw "fetch failed", mkNet (n_world n) fs)
  | LostAnswer :: fs => (throw "fetch failed", mkNet w' fs)
  | Delivered :: fs => (Ok r, mkNet w' fs)
  | [] => (Ok r, mkNet w' [])
  end.

(** [api]: an answer that is not 2xx is thrown. *)
Definition api {A} (p : prog cmd (http A)) : stE net A :=
  r ← fetch p;
  match r with HOk a => mret a | HErr _ m => lift (Err m) end.

Definition base64Url (b : bytes) : jstr := js (to_base64 b).
Definition fromBase64Url (value : jstr) : result bytes := from_text from_base64 value.

Definition digestArchive (b : bytes) : jstr := AtRest.hex (generichash 32 b None).

(** The requests; [me] is the account, [session] the device of the session. *)
Definition getHistoryStatus (session : jstr) : stE net (option (Z * jstr)) := api (history_status session).

(** [getHistoryLimits]: maxBytes and available *)
Definition getHistoryLimits (me : jstr) : stE net (Z * bool) :=
  res ← api (history_limits me);
  let '(maxBytes, _, available) := res in
  mret (if 0 <? maxBytes then maxBytes else 0, available).

Definition presignHistoryUpload (me deviceId : jstr) (size : Z) : stE net Presigned :=
  res ← api (history_presign me deviceId size None);
  mret res.1.1.

Definition markHistoryReady (me deviceId : jstr) (size : Z) (digest sealedKey : jstr) : stE net unit :=
  _ ← api (history_ready me deviceId size digest sealedKey);
  mret tt.

Definition requestHistoryDownload (session : jstr) : stE net Ticket := api (history_download session).
Definition abortHistoryUpload (me deviceId : jstr) : stE net unit := api (history_abort me deviceId).
Definition consumeHistoryArchive (session digest : jstr) : stE net unit :=
  _ ← api (history_consume session digest);
  mret tt.

Definition uploadHistoryArchive (url : Presigned) (b : bytes) : stE net unit :=
  ok ← fetch (call (PutObject (url_key url) (url_until url) b));
  if ok : bool then mret tt else lift (throw "HISTORY_UPLOAD_FAILED").

Definition fetchHistoryArchive (url : Presigned) : stE net bytes :=
  res ← fetch (call (GetObject (url_key url) (url_until url)));
  match res with Some b => mret b | None => lift (throw "HISTORY_DOWNLOAD_FAILED") end.

(** pqBoxSeal.ts; the randomness of the worker's sealed box is an argument. *)
Definition sealForDevice (rnd nonce message pqPublicKey : bytes) : result bytes :=
  pq_box_seal_v2 rnd nonce message pqPublicKey.
Definition openSealedForDevice (sealed pqPrivateKey : bytes) : result bytes :=
  if negb (PqSeal.isPqSealV2 sealed) then throw "sealed box v1 tidak lagi didukung (PQ-only)" else
  pq_box_seal_v2_open sealed pqPrivateKey.

Definition key_payload (key : bytes) (records : Z) (date : jstr) : jsval :=
  JObj [(js "v", JNum HISTORY_KEY_PAYLOAD_VERSION); (js "k", JStr (base64Url key)); (js "n", JNum records);
        (js "d", JStr date)].

(** [now] is the clock of the device. *)
Definition sealArchiveKey (rnd nonce key : bytes) (pqPublicKeyB64 : jstr) (records now : Z) : result jstr :=
  pqPublicKey ← fromBase64Url pqPublicKeyB64;
  match toISOString now with
  | None => throw "Invalid time value"
  | Some date =>
      sealed ← sealForDevice rnd nonce (utf8_encode (JSON_stringify (key_payload key records date))) pqPublicKey;
      Ok (base64Url sealed)
  end.

Definition openArchiveKey (privateKey : bytes) (sealedKeyB64 : jstr) : result bytes :=
  sealed ← fromBase64Url sealedKeyB64;
  plaintext ← openSealedForDevice sealed privateKey;
  match JSON_parse (utf8_decode plaintext) with
  | None => throw "Unexpected token"
  | Some parsed =>
      match prop parsed "v", prop parsed "k" with
      | JNum v, JStr k =>
          if negb (v =? HISTORY_KEY_PAYLOAD_VERSION) then throw "HISTORY_KEY_PAYLOAD_INVALID" else
          key ← fromBase64Url k;
          if negb (blen key =? 32) then throw "HISTORY_KEY_INVALID" else Ok key
      | _, _ => throw "HISTORY_KEY_PAYLOAD_INVALID"
      end
  end.
End Client.

(** ** linkHistoryExport.ts *)
Definition HISTORY_MARKER : jstr := js "history".
Definition HISTORY_TABLES : list jstr := map js ["contacts"; "conversations"; "messages"; "groupCachedParticipants"]%string.

(** What the readers of the device answer. *)
Record HistoryTables := mkTables {
  t_contacts : list bval; t_conversations : list bval; t_messages : list bval;
  t_groupCachedParticipants : list bval }.

Definition countHistoryRecords (t : HistoryTables) : Z :=
  Z.of_nat (length (t_contacts t)) + Z.of_nat (length (t_conversations t)) + Z.of_nat (length (t_messages t)) +
  Z.of_nat (length (t_groupCachedParticipants t)).

(** [historyStore(tables).readTables()] *)
Definition historyStore (t : HistoryTables) : tables :=
  [(js "contacts", t_contacts t); (js "conversations", t_conversations t); (js "messages", t_messages t);
   (js "groupCachedParticipants", t_groupCachedParticipants t)].

Definition history_options (key salt : bytes) : CreateOptions :=
  mkCreate key salt (Some true) (Some (256 * 1024)) (Some HISTORY_MARKER).

(** The random values one transfer draws: the archive key, the salt, the nonces of
    the frames, and what the sealed box draws. *)
Record Randomness := mkRandom {
  r_key : bytes; r_salt : bytes; r_nonce : nat -> bytes; r_kem : bytes; r_box : bytes }.

Record SendHistoryResult := mkSent { sent_size : Z; sent_records : Z; sent_digest : jstr }.

Section Export.
Context `{Sodium} `{Base64Variants} `{ServerCrypto} `{LinkingSealer} `{LinkPlatform} `{HistoryPlatform}.
Context `{BackupValueCodec} `{JsEngine} `{BackupCryptoBackend}.

(** [createHistoryArchive]: the report and the digest *)
Definition createHistoryArchive (key : bytes) (t : HistoryTables) (salt : bytes) (nonce : nat -> bytes)
  : result (CreateBackupReport * jstr) :=
  report ← createFramedBackup (historyStore t) (history_options key salt) nonce;
  Ok (report, digestArchive (created_bytes report)).

(** The body of the [try] of [sendHistoryArchive]; [read] is what [readHistoryTables]
    answers, [now] the clock of the device. *)
Definition send_body (me deviceId pqPublicKeyB64 : jstr) (read : result HistoryTables) (rnd : Randomness) (now : Z)
  : stE net SendHistoryResult :=
  t ← lift read;
  let records := countHistoryRecords t in
  if records =? 0 then
    _ ← abortHistoryUpload me deviceId;
    mret (mkSent 0 0 [])
  else
  archive ← lift (createHistoryArchive (r_key rnd) t (r_salt rnd) (r_nonce rnd));
  limits ← (fun n => match getHistoryLimits me n with
                     | (Ok l, n') => (Ok (Some l), n')
                     | (Err _, n') => (Ok None, n')
                     end);
  let '(report, digest) := archive in
  let size := created_size report in
  _ ← lift (match limits with
            | Some (maxBytes, available) =>
                if negb available then throw "HISTORY_UNAVAILABLE" else
                if (0 <? maxBytes) && (maxBytes <? size) then throw "HISTORY_TOO_LARGE" else Ok tt
            | None => Ok tt
            end);
  presigned ← presignHistoryUpload me deviceId size;
  _ ← uploadHistoryArchive presigned (created_bytes report);
  sealedKey ← lift (sealArchiveKey (r_kem rnd) (r_box rnd) (r_key rnd) pqPublicKeyB64 records now);
  _ ← markHistoryReady me deviceId size digest sealedKey;
  mret (mkSent size records digest).

Definition sendHistoryArchive (me deviceId pqPublicKeyB64 confirmedSas : jstr) (read : result HistoryTables)
    (rnd : Randomness) (now : Z) : stE net SendHistoryResult :=
  expectedSas ← lift (deriveLinkSas pqPublicKeyB64);
  if bool_decide (confirmedSas = []) || negb (bool_decide (confirmedSas = expectedSas))
  then lift (throw "Link verification code does not match the new device key.") else
  fun n =>
    match send_body me deviceId pqPublicKeyB64 read rnd now n with
    | (Ok r, n') => (Ok r, n')
    | (Err e, n') => (Err e, (abortHistoryUpload me deviceId n').2)
    end.
End Export.

(** ** linkHistoryImport.ts *)
Definition MESSAGE_BATCH_SIZE : Z := 250.
Definition isHistoryTable (table : jstr) : bool := bool_decide (table ∈ HISTORY_TABLES).

(** The writers of the new device, over its local storage. *)
Record HistoryImportWriters (V : Type) := mkWriters {
  write_contacts : list bval -> stE V unit;
  write_conversations : list bval -> stE V unit;
  write_messages : list bval -> stE V unit;
  write_groupCachedParticipants : list bval -> stE V unit }.
Arguments write_contacts {V}. Arguments write_conversations {V}.
Arguments write_messages {V}. Arguments write_groupCachedParticipants {V}.

Record HistoryImportReport := mkImported { im_records : Z; im_tables : list (jstr * Z); im_messages : Z }.

(** The variables of [importHistoryArchive]. *)
Record importing := mkImporting {
  contacts : list bval; conversations : list bval; cachedParticipants : list bval; pendingMessages : list bval;
  writtenMessages : Z; tableCounts : list (jstr * Z) }.

Section Import.
Context `{BackupValueCodec} `{JsEngine} `{BackupCryptoBackend} {V : Type} (writers : HistoryImportWriters V).

(** First stage: one frame. *)
Definition validate_chunk (frame : BackupFrame) : result BackupChunk :=
  chunk ← readBackupChunk frame;
  if negb (bool_decide (chunk_k chunk = Some HISTORY_MARKER)) then throw "HISTORY_MARKER_MISSING" else
  if negb (isHistoryTable (chunk_table chunk)) then throw "HISTORY_TABLE_UNKNOWN" else
  Ok chunk.

(** The [while] over the pending messages: what remains, and the number written. *)
Fixpoint drain (fuel : nat) (batchSize : nat) (pending : list bval) (written : Z) : stE V (list bval * Z) :=
  match fuel with
  | 0%nat => mret (pending, written)
  | S fuel' =>
      if (batchSize <=? length pending)%nat then
        _ ← write_messages writers (take batchSize pending);
        drain fuel' batchSize (drop batchSize pending) (written + Z.of_nat batchSize)
      else mret (pending, written)
  end.

(** Second stage: one chunk. *)
Definition import_chunk (batchSize : nat) (s : importing) (chunk : BackupChunk) : stE V importing :=
  let rs := chunk_records chunk in
  let counts := map_set (chunk_table chunk)
    (default 0 (assoc (chunk_table chunk) (tableCounts s)) + Z.of_nat (length rs)) (tableCounts s) in
  if bool_decide (chunk_table chunk = js "contacts") then
    mret (mkImporting (contacts s ++ rs) (conversations s) (cachedParticipants s) (pendingMessages s) (writtenMessages s) counts)
  else if bool_decide (chunk_table chunk = js "conversations") then
    mret (mkImporting (contacts s) (conversations s ++ rs) (cachedParticipants s) (pendingMessages s) (writtenMessages s) counts)
  else if bool_decide (chunk_table chunk = js "groupCachedParticipants") then
    mret (mkImporting (contacts s) (conversations s) (cachedParticipants s ++ rs) (pendingMessages s) (writtenMessages s) counts)
  else if bool_decide (chunk_table chunk = js "messages") then
    let pending := pendingMessages s ++ rs in
    r ← drain (length pending) batchSize pending (writtenMessages s);
    mret (mkImporting (contacts s) (conversations s) (cachedParticipants s) r.1 r.2 counts)
  else
    mret (mkImporting (contacts s) (conversations s) (cachedParticipants s) (pendingMessages s) (writtenMessages s) counts).

Fixpoint import_chunks (batchSize : nat) (s : importing) (chunks : list BackupChunk) : stE V importing :=
  match chunks with
  | [] => mret s
  | chunk :: chunks' => s ← import_chunk batchSize s chunk; import_chunks batchSize s chunks'
  end.

(** [if (rows.length > 0) await write(rows)] *)
Definition write_rows (write : list bval -> stE V unit) (rs : list bval) : stE V unit :=
  match rs with [] => mret tt | _ => write rs end.

Definition importHistoryArchive (b key : bytes) (batch : option Z) : stE V HistoryImportReport :=
  parsed ← lift (parseBackupArchive b key);
  let batchSize := Z.to_nat (Z.max 1 (default MESSAGE_BATCH_SIZE batch)) in
  chunks ← lift (mapR validate_chunk (parsed_frames parsed));
  s ← import_chunks batchSize (mkImporting [] [] [] [] 0 []) chunks;
  _ ← write_rows (write_contacts writers) (contacts s);
  _ ← write_rows (write_conversations writers) (conversations s);
  _ ← write_rows (write_groupCachedParticipants writers) (cachedParticipants s);
  _ ← write_rows (write_messages writers) (pendingMessages s);
  let written := writtenMessages s + Z.of_nat (length (pendingMessages s)) in
  mret (mkImported (Z.of_nat (length (contacts s)) + Z.of_nat (length (conversations s)) +
                    Z.of_nat (length (cachedParticipants s)) + written) (tableCounts s) written).
End Import.

Record ReceiveHistoryResult := mkReceived { rc_records : Z; rc_messages : Z; rc_size : Z }.

(** The network beside the local storage. *)
Definition on_net {V A} (c : stE net A) : stE (net * V) A := fun s =>
  let '(r, n') := c s.1 in (r, (n', s.2)).
Definition on_vault {V A} (c : stE V A) : stE (net * V) A := fun s =>
  let '(r, v') := c s.2 in (r, (s.1, v')).

Section Receive.
Context `{Sodium} `{ServerCrypto} `{LinkingSealer} `{LinkPlatform} `{HistoryPlatform}.
Context `{BackupValueCodec} `{JsEngine} `{BackupCryptoBackend} {V : Type} (writers : HistoryImportWriters V).

(** [pushContactBundle] and the reload of the chat list, whose errors are caught, are
    left out. [privateKey] is the X-Wing key of the device. *)
Definition receiveLinkedHistory (session : jstr) (privateKey : bytes) : stE (net * V) (option ReceiveHistoryResult) :=
  status ← on_net (getHistoryStatus session);
  match status with
  | None => mret None
  | Some _ =>
      ticket ← on_net (requestHistoryDownload session);
      b ← on_net (fetchHistoryArchive (ti_url ticket));
      if negb (blen b =? ti_size ticket) then lift (throw "HISTORY_SIZE_MISMATCH") else
      let digest := digestArchive b in
      if negb (bool_decide (digest = ti_digest ticket)) then lift (throw "HISTORY_DIGEST_MISMATCH") else
      key ← lift (openArchiveKey privateKey (ti_sealedKey ticket));
      report ← on_vault (importHistoryArchive writers b key None);
      _ ← try_ (on_net (consumeHistoryArchive session digest));
      mret (Some (mkReceived (im_records report) (im_messages report) (blen b)))
  end.

(** ** linkHistoryRetry.ts *)
Inductive HistoryRetryOutcome := Idle | Imported (records messages : Z) | ExpiredArchive | Failed (error : string).

(** The marker in kvStore, and whether the database answers. *)
Record kv := mkKv { kv_pending : bool; kv_up : bool }.
Definition set_pending (b : bool) (k : kv) : kv := if kv_up k then mkKv b (kv_up k) else k.
Definition markHistoryImportPending : kv -> kv := set_pending true.
Definition clearHistoryImportPending : kv -> kv := set_pending false.
Definition hasPendingHistoryImport (k : kv) : bool := kv_up k && kv_pending k.

Definition runRetry (session : jstr) (privateKey : bytes) (s : (net * V) * kv) : HistoryRetryOutcome * ((net * V) * kv) :=
  if negb (hasPendingHistoryImport s.2) then (Idle, s) else
  match receiveLinkedHistory session privateKey s.1 with
  | (Ok None, s') => (ExpiredArchive, (s', clearHistoryImportPending s.2))
  | (Ok (Some r), s') => (Imported (rc_records r) (rc_messages r), (s', clearHistoryImportPending s.2))
  | (Err e, s') => (Failed e, (s', s.2))
  end.
End Receive.

(** ** The import writes every row once *)

(** Decides equalities of constant texts. *)
Ltac decide_names :=
  repeat match goal with
  | |- context [bool_decide (js ?a = js ?b)] =>
      let v := eval vm_compute in (bool_decide (js a = js b)) in change (bool_decide (js a = js b)) with v
  end; cbv iota.

Section ImportLemmas.
Context `{CL : BackupValueCodecLaws} `{JsEngine} `{BL : BackupCryptoLaws} {V : Type} (writers : HistoryImportWriters V).

(** The batches one after the other. *)
Fixpoint each (bs : list (list bval)) : stE V unit :=
  match bs with [] => mret tt | b :: bs' => _ ← write_messages writers b; each bs' end.

Lemma each_app {B} a b (f : unit -> stE V B) v : (each (a ++ b) ≫= f) v = (each a ≫= (fun _ => each b ≫= f)) v.
Proof.
  revert v. induction a as [|x a IH]; intros v; [done|]. cbn [each app]. rewrite !stE_assoc.
  apply stE_bind_ext. intros _ v'. apply IH.
Qed.

(** [l] cut into batches of [n], and the rest. *)
Definition cut_into (n : nat) (l : list bval) (bs : list (list bval)) (r : list bval) : Prop :=
  l = concat bs ++ r /\ Forall (fun b => length b = n) bs /\ (length r < n)%nat.

Lemma drain_spec n fuel : (0 < n)%nat -> forall l w, (length l <= fuel)%nat ->
  exists bs r, cut_into n l bs r /\
    forall B (f : list bval * Z -> stE V B) v, (drain writers fuel n l w ≫= f) v =
      (each bs ≫= (fun _ => f (r, w + Z.of_nat (length (concat bs))))) v.
Proof.
  intros Hn. induction fuel as [|fuel IH]; intros l w Hl; cbn [drain].
  - exists [], l. split; [unfold cut_into; cbn; split_and!; [done|done|lia]|]. intros B f v. cbn [each concat].
    rewrite !stE_ret_bind. by rewrite Z.add_0_r.
  - destruct (Nat.leb_spec n (length l)) as [Hle|Hlt].
    + destruct (IH (drop n l) (w + Z.of_nat n)) as (bs & r & (Hc & Hb & Hr) & Hd).
      { rewrite length_drop. lia. }
      exists (take n l :: bs), r. split.
      * split_and!; [|constructor; [rewrite length_take; lia|done]|done].
        cbn [concat]. rewrite <- app_assoc, <- Hc. by rewrite take_drop.
      * intros B f v. cbn [each]. rewrite !stE_assoc. apply stE_bind_ext. intros _ v'. rewrite Hd.
        cbn [concat]. rewrite length_app, length_take. apply stE_bind_ext. intros _ v2. do 2 f_equal. lia.
    + exists [], l. split; [unfold cut_into; cbn; split_and!; done|]. intros B f v. cbn [each concat].
      rewrite !stE_ret_bind. by rewrite Z.add_0_r.
Qed.

(** The rows of a table, in the order of the frames. *)
Definition rows_of (chunks : list BackupChunk) (t : jstr) : list bval :=
  concat (map chunk_records (filter (fun c => chunk_table c = t) chunks)).

Lemma rows_of_cons c cs t : rows_of (c :: cs) t = (if bool_decide (chunk_table c = t) then chunk_records c else []) ++ rows_of cs t.
Proof. unfold rows_of. rewrite filter_cons. repeat case_decide; case_bool_decide; done. Qed.

Definition count_chunk (m : list (jstr * Z)) (c : BackupChunk) : list (jstr * Z) :=
  map_set (chunk_table c) (default 0 (assoc (chunk_table c) m) + Z.of_nat (length (chunk_records c))) m.

Lemma import_chunks_spec n chunks : (0 < n)%nat -> Forall (fun c => isHistoryTable (chunk_table c) = true) chunks ->
  forall s, (length (pendingMessages s) < n)%nat ->
  exists bs r, cut_into n (pendingMessages s ++ rows_of chunks (js "messages")) bs r /\
    forall B (f : importing -> stE V B) v, (import_chunks writers n s chunks ≫= f) v =
      (each bs ≫= (fun _ => f (mkImporting (contacts s ++ rows_of chunks (js "contacts"))
         (conversations s ++ rows_of chunks (js "conversations"))
         (cachedParticipants s ++ rows_of chunks (js "groupCachedParticipants")) r
         (writtenMessages s + Z.of_nat (length (concat bs))) (foldl count_chunk (tableCounts s) chunks)))) v.
Proof.
  intros Hn. induction chunks as [|c cs IH]; intros Hk s Hs.
  - exists [], (pendingMessages s). split; [unfold cut_into; cbn; rewrite app_nil_r; split_and!; done|].
    intros B f v. cbn [import_chunks each concat foldl]. rewrite !stE_ret_bind, Z.add_0_r.
    change (rows_of [] ?[t]) with (@nil bval). rewrite !app_nil_r. by destruct s.
  - apply Forall_cons in Hk as [Hc Hk]. specialize (IH Hk). unfold isHistoryTable in Hc. apply bool_decide_eq_true in Hc.
    cbn [import_chunks]. unfold import_chunk. rewrite !rows_of_cons. cbn [foldl]. fold (count_chunk (tableCounts s) c).
    destruct c as [t rs k]. cbn [chunk_table chunk_records] in *.
    set (cnt := count_chunk _ _). clearbody cnt.
    unfold HISTORY_TABLES in Hc. cbn [map] in Hc.
    repeat (apply elem_of_cons in Hc as [->|Hc]); [..|by apply not_elem_of_nil in Hc];
      decide_names; cbn [app];
      try (match goal with |- context [@mret _ _ _ ?X] => destruct (IH X Hs) as (bs & r & Hcut & Hrun) end;
        exists bs, r; split; [exact Hcut|]; intros B f v; rewrite stE_assoc, stE_ret_bind, Hrun;
        cbn [contacts conversations cachedParticipants pendingMessages writtenMessages tableCounts];
        by rewrite <- ?app_assoc).
    destruct (drain_spec n (length (pendingMessages s ++ rs)) Hn (pendingMessages s ++ rs) (writtenMessages s))
      as (bs1 & r1 & (Hc1 & Hb1 & Hr1) & Hd); [done|].
    set (w1 := writtenMessages s + Z.of_nat (length (concat bs1))) in Hd.
    destruct (IH (mkImporting (contacts s) (conversations s) (cachedParticipants s) r1 w1 cnt) Hr1)
      as (bs & r & (Hc2 & Hb2 & Hr2) & Hrun). cbn [contacts conversations cachedParticipants pendingMessages writtenMessages tableCounts] in *.
    exists (bs1 ++ bs), r. split.
    + split_and!; [|by apply Forall_app|done]. rewrite app_assoc, Hc1, concat_app, <- !app_assoc. by rewrite Hc2.
    + intros B f v. cbv zeta. rewrite !stE_assoc, Hd, each_app. apply stE_bind_ext. intros _ v'. rewrite stE_ret_bind, Hrun.
      apply stE_bind_ext. intros _ v2. unfold w1. rewrite concat_app, length_app. do 2 f_equal. lia.
Qed.
(** The writes of an import, in their order. *)
Definition import_writes (bs : list (list bval)) (cs vs gs rest : list bval) : stE V unit :=
  _ ← each bs;
  _ ← write_rows (write_contacts writers) cs;
  _ ← write_rows (write_conversations writers) vs;
  _ ← write_rows (write_groupCachedParticipants writers) gs;
  write_rows (write_messages writers) rest.

Definition batch_size (batch : option Z) : nat := Z.to_nat (Z.max 1 (default MESSAGE_BATCH_SIZE batch)).

Definition import_report (cs vs gs ms : list bval) (counts : list (jstr * Z)) : HistoryImportReport :=
  mkImported (Z.of_nat (length cs) + Z.of_nat (length vs) + Z.of_nat (length gs) + Z.of_nat (length ms)) counts
    (Z.of_nat (length ms)).

Lemma validated_tables frames chunks : mapR validate_chunk frames = Ok chunks ->
  Forall (fun c => isHistoryTable (chunk_table c) = true) chunks.
Proof.
  revert chunks. induction frames as [|f fs IH]; intros chunks E; [by injection E as <-|]. cbn [mapR] in E.
  destruct (validate_chunk f) as [c|] eqn:Ec; [|done]. rewrite bind_ok in E.
  destruct (mapR validate_chunk fs) as [cs|] eqn:Ecs; [|done]. injection E as <-. constructor; [|by apply IH].
  unfold validate_chunk in Ec. destruct (readBackupChunk f) as [c'|]; [|done]. rewrite bind_ok in Ec.
  destruct (negb _); [done|]. destruct (isHistoryTable _) eqn:Et; [|done]. by injection Ec as <-.
Qed.

(** An archive whose frames all pass the checks is written in batches, its messages
    in the order of the frames. *)
Lemma import_spec b key batch parsed chunks :
  parseBackupArchive b key = Ok parsed -> mapR validate_chunk (parsed_frames parsed) = Ok chunks ->
  exists bs r, cut_into (batch_size batch) (rows_of chunks (js "messages")) bs r /\
    forall v, importHistoryArchive writers b key batch v =
      (_ ← import_writes bs (rows_of chunks (js "contacts")) (rows_of chunks (js "conversations"))
             (rows_of chunks (js "groupCachedParticipants")) r;
       mret (import_report (rows_of chunks (js "contacts")) (rows_of chunks (js "conversations"))
               (rows_of chunks (js "groupCachedParticipants")) (rows_of chunks (js "messages"))
               (foldl count_chunk [] chunks))) v.
Proof.
  intros Hp Hc. assert (Hn : (0 < batch_size batch)%nat) by (unfold batch_size; lia).
  destruct (import_chunks_spec (batch_size batch) chunks Hn (validated_tables _ _ Hc) (mkImporting [] [] [] [] 0 []) Hn)
    as (bs & r & Hcut & Hrun). cbn [pendingMessages app] in Hcut. exists bs, r. split; [exact Hcut|]. intros v.
  unfold importHistoryArchive. rewrite Hp, lift_bind. cbv zeta. rewrite Hc, lift_bind. fold (batch_size batch).
  rewrite Hrun. unfold import_writes. rewrite !stE_assoc. apply stE_bind_ext. intros _ v1.
  cbn [contacts conversations cachedParticipants pendingMessages writtenMessages tableCounts app].
  rewrite !stE_assoc. apply stE_bind_ext. intros _ v2.
  rewrite !stE_assoc. apply stE_bind_ext. intros _ v3.
  rewrite !stE_assoc. apply stE_bind_ext. intros _ v4.
  apply stE_bind_ext. intros _ v5. unfold import_report. destruct Hcut as (-> & _ & _). rewrite length_app.
  do 3 f_equal; lia.
Qed.

(** An archive that does not parse, or of which any frame is not a frame of a history,
    is refused before the first write. *)
Lemma import_refused b key batch e v :
  (parsed ← parseBackupArchive b key; mapR validate_chunk (parsed_frames parsed)) = Err e ->
  importHistoryArchive writers b key batch v = (Err e, v).
Proof.
  intros E. unfold importHistoryArchive. rewrite lift_bind. destruct (parseBackupArchive b key) as [p|]; [|by injection E as <-].
  rewrite bind_ok in E. rewrite lift_bind, E. done.
Qed.

(** ** The archive of a history *)
Lemma history_piece p : marker_ok (Some HISTORY_MARKER) = true -> piece_ok p -> p.1 ∈ HISTORY_TABLES ->
  validate_chunk (piece_frame (Some HISTORY_MARKER) p) = Ok (mkChunk p.1 (map strip p.2) (Some HISTORY_MARKER)).
Proof.
  intros Hm Hp Ht. unfold validate_chunk. rewrite (read_piece _ p Hm Hp), bind_ok. cbn [chunk_k chunk_table].
  rewrite bool_decide_eq_true_2 by done. unfold isHistoryTable. by rewrite bool_decide_eq_true_2.
Qed.

Lemma history_rows t name : rows (historyStore t) name =
  if bool_decide (name = js "contacts") then t_contacts t else
  if bool_decide (name = js "conversations") then t_conversations t else
  if bool_decide (name = js "messages") then t_messages t else
  if bool_decide (name = js "groupCachedParticipants") then t_groupCachedParticipants t else [].
Proof. unfold rows, historyStore. cbn [assoc]. by repeat case_bool_decide. Qed.

Lemma rows_of_pieces pieces m t :
  rows_of (map (fun p => mkChunk p.1 (map strip p.2) m) pieces) t = map strip (rows_in pieces t).
Proof.
  unfold rows_in. induction pieces as [|p ps IH]; [done|]. cbn [map]. rewrite rows_of_cons, filter_cons, IH. cbn [chunk_table chunk_records].
  case_bool_decide; case_decide; try done. cbn [map concat]. by rewrite map_app.
Qed.

Lemma other_rows t name : name ∉ HISTORY_TABLES -> rows (historyStore t) name = [].
Proof.
  intros Hn. rewrite history_rows.
  repeat (case_bool_decide; [exfalso; subst name; apply Hn, (bool_decide_unpack _); vm_compute; exact I|]). done.
Qed.

Lemma history_known name : name ∈ HISTORY_TABLES -> name ∈ BACKUP_TABLE_ORDER.
Proof.
  intros Hn. assert (Hall : Forall (fun n => n ∈ BACKUP_TABLE_ORDER) HISTORY_TABLES)
    by (apply (bool_decide_unpack _); vm_compute; exact I).
  exact (proj1 (Forall_forall _ _) Hall name Hn).
Qed.

Lemma rows_in_elem pieces p : p ∈ pieces -> p.2 <> [] -> rows_in pieces p.1 <> [].
Proof.
  unfold rows_in. intros Hin Hne E. apply Hne.
  apply concat_nil_Forall in E. apply (proj1 (Forall_forall _ _) E), list_elem_of_fmap. exists p.
  split; [done|]. by apply list_elem_of_filter.
Qed.

(** What the archive of a history holds. *)
Lemma history_archive key t salt nonce report :
  tables_ok (historyStore t) -> blen key = 32 -> blen salt = 16 -> (forall k, blen (nonce k) = 24) ->
  createFramedBackup (historyStore t) (history_options key salt) nonce = Ok report ->
  exists parsed chunks, parseBackupArchive (created_bytes report) key = Ok parsed /\
    mapR validate_chunk (parsed_frames parsed) = Ok chunks /\
    (forall name, rows_of chunks name ≡ₚ map strip (rows (historyStore t) name)) /\
    created_size report = blen (created_bytes report) /\ 64 <= created_size report.
Proof.
  intros Ht Hk Hs Hn Hc.
  destruct (create_archive_of (historyStore t) (history_options key salt) nonce report) as (pieces & Hp & Hne & Hrows & Hparse & Hsz & Hmin);
    [done|by split_and!|done|done|]. cbn [create_key create_marker create_salt history_options] in *.
  exists (mkParsed (map (piece_frame (Some HISTORY_MARKER)) pieces) salt BACKUP_FORMAT_VERSION),
    (map (fun p => mkChunk p.1 (map strip p.2) (Some HISTORY_MARKER)) pieces).
  cbn [parsed_frames]. split_and!; [done| | |done|lia].
  - rewrite mapR_map. apply mapR_ok. intros p Hin. pose proof (proj1 (Forall_forall _ _) Hp p Hin) as Hpok.
    apply history_piece; [done|done|]. destruct Hpok as (Htab & Hnil & _). specialize (Hrows p.1).
    rewrite bool_decide_eq_true_2 in Hrows by done.
    destruct (decide (p.1 ∈ HISTORY_TABLES)) as [|Hnot]; [done|exfalso].
    rewrite (other_rows t p.1 Hnot) in Hrows. apply Permutation_nil_r in Hrows. by apply (rows_in_elem pieces p).
  - intros name. rewrite rows_of_pieces, Hrows. case_bool_decide as Hin; [done|]. rewrite other_rows; [done|].
    intros Hh. apply Hin. by apply history_known.
Qed.
End ImportLemmas.

(** ** The key of the archive *)
Section KeyLemmas.
Context `{SL : SodiumLaws} `{BLen : !Base64Length}.

Lemma fromBase64Url_ok b : fromBase64Url (base64Url b) = Ok b.
Proof. unfold fromBase64Url, from_text, base64Url. by rewrite of_js_js, base64_correct. Qed.

Lemma base64Url_length b : js_length (base64Url b) = (4 * blen b + 2) / 3.
Proof. unfold base64Url. by rewrite js_length_js, to_base64_length. Qed.

Lemma digits_text n v : js_length (JsDate.digits n v) = Z.of_nat n /\ forallb scalar (JsDate.digits n v) = true.
Proof.
  revert v. induction n as [|n IH]; intros v; [done|]. cbn [JsDate.digits]. destruct (IH (v / 10)) as [Hl Hs].
  pose proof (Z.mod_pos_bound v 10 ltac:(lia)). rewrite js_length_app, forallb_app, Hl, Hs. split.
  - unfold js_length. cbn [foldr map]. ztest. lia.
  - cbn. unfold scalar. lia.
Qed.

Lemma iso_text t s : toISOString t = Some s -> js_length s <= 27 /\ forallb scalar s = true.
Proof.
  unfold toISOString. destruct (_ <=? _); [|done]. destruct (civil_from_days _) as [[y m] d]. intros Hs.
  apply (inj Some) in Hs. subst s.
  repeat rewrite ?js_length_app, ?forallb_app, ?(proj1 (digits_text _ _)), ?(proj2 (digits_text _ _)), ?js_scalar, ?js_length_js.
  destruct (_ && _); [|destruct (y <? 0)];
    repeat rewrite ?js_length_app, ?forallb_app, ?(proj1 (digits_text _ _)), ?(proj2 (digits_text _ _)), ?js_scalar, ?js_length_js;
    (split; [vm_compute; discriminate|done]).
Qed.

Lemma pretty_go_short k : forall x s, (x < 10 ^ N.of_nat k)%N -> slen (pretty_N_go x s) <= Z.of_nat k + slen s.
Proof.
  induction k as [|k IH]; intros x s Hx.
  - assert (x = 0%N) as -> by (cbn in Hx; lia). by rewrite pretty_N_go_0.
  - destruct (N.eq_dec x 0) as [->|Hne]; [rewrite pretty_N_go_0; lia|]. rewrite pretty_N_go_step by lia.
    rewrite Nat2N.inj_succ, N.pow_succ_r' in Hx. etransitivity; [apply IH, N.Div0.div_lt_upper_bound; lia|].
    unfold slen. cbn [String.length]. lia.
Qed.

Lemma pretty_short_pow k n : 0 <= n < 10 ^ Z.of_nat (S k) -> slen (pretty n) <= Z.of_nat (S k).
Proof.
  intros Hn. destruct n as [|p|p]; [change (slen (pretty 0)) with 1; lia| |lia].
  change (slen (if decide (N.pos p = 0%N) then "0"%string else pretty_N_go (N.pos p) "") <= Z.of_nat (S k)).
  destruct (decide (N.pos p = 0%N)); [done|]. rewrite <- (Z.add_0_r (Z.of_nat (S k))). apply (pretty_go_short (S k) (N.pos p) "").
  apply N2Z.inj_lt. rewrite N2Z.inj_pow. cbn [Z.of_N]. rewrite nat_N_Z. lia.
Qed.

Lemma pretty_short n : 0 <= n <= 65535 -> slen (pretty n) <= 5.
Proof. intros Hn. apply (pretty_short_pow 4). cbn. lia. Qed.

Lemma key_payload_text key records date : blen key = 32 -> 0 <= records <= 65535 -> js_length date <= 27 ->
  forallb scalar date = true ->
  json_ok (key_payload key records date) = true /\ js_length (JSON_stringify (key_payload key records date)) <= 600.
Proof.
  intros Hk Hr Hd Hs. split.
  - unfold key_payload. cbn [json_ok forallb fst snd]. unfold base64Url. rewrite !js_scalar, Hs.
    replace (forallb _ _) with true by done. cbn. done.
  - unfold key_payload. cbn [JSON_stringify map fst snd join concat app].
    change (js (pretty HISTORY_KEY_PAYLOAD_VERSION)) with (js "1").
    assert (Hcons : forall c l, c < 65536 -> js_length (c :: l) = 1 + js_length l)
      by (intros c l Hc; unfold js_length; cbn [foldr]; ztest; done).
    repeat (rewrite js_length_app || (rewrite Hcons by lia)).
    pose proof (quote_units date). pose proof (quote_units (base64Url key)) as Hq. rewrite base64Url_length, Hk in Hq.
    pose proof (pretty_short records Hr) as Hp. rewrite <- js_length_js in Hp.
    rewrite !(js_length_js "1"). change ((4 * 32 + 2) / 3) with 43 in Hq.
    change (js_length (quote (js "v"))) with 3. change (js_length (quote (js "k"))) with 3.
    change (js_length (quote (js "n"))) with 3. change (js_length (quote (js "d"))) with 3.
    change (slen "1") with 1. change (js_length []) with 0. lia.
Qed.

Lemma sealed_box_length rnd nonce m pk b : pq_box_seal_v2 rnd nonce m pk = Ok b -> blen b = 1164 + blen m.
Proof.
  unfold pq_box_seal_v2. destruct (negb _); [done|]. destruct (kem_enc pk rnd) as [r|]; [|done]. rewrite bind_ok.
  intros (-> & Hc & Hn & _)%PqWire.serializePqSealV2_inv. cbn [PqSeal.ciphertext PqSeal.nonce PqSeal.sealed] in *.
  rewrite !blen_app, blen_be32, aead_length. unfold PqSeal.PQ_SEAL_V2_CT_BYTES, PqSeal.PQ_SEAL_V2_NONCE_BYTES in *. change Suite.XWING_CIPHERTEXT_BYTES with 1120 in *. lia.
Qed.

(** A box sealed for a device is opened by its private key. *)
Lemma sealed_box_opens seed rnd nonce m : blen nonce = 24 ->
  exists b, sealForDevice rnd nonce m (kem_keypair seed).1 = Ok b /\ openSealedForDevice b (kem_keypair seed).2 = Ok m.
Proof.
  intros Hn. destruct (kem_correct seed rnd) as (ct & ss & He & Hd & Hc & _).
  unfold sealForDevice, pq_box_seal_v2. rewrite kem_pk_length. cbn [negb Z.eqb Pos.eqb]. rewrite He, bind_ok. cbn [fst snd].
  set (parts := PqSeal.mkParts _ _ _).
  assert (is_ok (PqSeal.serializePqSealV2 parts) = true) as Hok.
  { apply serializePqSealV2_ok; [done|done|]. cbn [PqSeal.sealed parts]. rewrite aead_length. pose proof (blen_nonneg m). lia. }
  destruct (PqSeal.serializePqSealV2 parts) as [b|] eqn:Eb; [|done]. exists b. split; [done|].
  destruct (PqWire.pq_seal_v2_roundtrip _ _ Eb) as [Hi Hp]. unfold openSealedForDevice, pq_box_seal_v2_open.
  rewrite Hi, Hp, bind_ok. cbn [negb parts PqSeal.ciphertext PqSeal.nonce PqSeal.sealed]. rewrite Hd, bind_ok. apply aead_correct.
Qed.

(** The key of an archive reaches the device it is sealed for, in a text the server accepts. *)
Lemma archive_key_roundtrip `{!ServerCrypto} `{!ServerCryptoLaws} seed rnd box key records now :
  blen key = 32 -> blen box = 24 -> 0 <= records <= 65535 -> iso_range now ->
  exists s, sealArchiveKey rnd box key (base64Url (kem_keypair seed).1) records now = Ok s /\
    openArchiveKey (kem_keypair seed).2 s = Ok key /\ forallb url_char s = true /\ 1 <= js_length s <= 4096.
Proof.
  intros Hk Hb Hr Hnow. destruct (iso_roundtrip now Hnow) as (date & Hdate & _ & _). destruct (iso_text _ _ Hdate) as [Hdl Hds].
  destruct (key_payload_text key records date Hk Hr Hdl Hds) as [Hok Hlen].
  unfold sealArchiveKey. rewrite fromBase64Url_ok, bind_ok, Hdate.
  set (m := utf8_encode _). destruct (sealed_box_opens seed rnd box m Hb) as (b & Hs & Ho). rewrite Hs, bind_ok.
  exists (base64Url b). split; [done|]. split_and!.
  - unfold openArchiveKey. rewrite fromBase64Url_ok, bind_ok, Ho, bind_ok. unfold m.
    rewrite utf8_decode_encode by (by apply stringify_text). rewrite json_roundtrip by done.
    change (prop (key_payload key records date) "v") with (JNum HISTORY_KEY_PAYLOAD_VERSION).
    change (prop (key_payload key records date) "k") with (JStr (base64Url key)).
    cbn [negb Z.eqb Pos.eqb HISTORY_KEY_PAYLOAD_VERSION]. rewrite fromBase64Url_ok, bind_ok, Hk. done.
  - apply url_char_js, to_base64_charset.
  - rewrite base64Url_length. apply sealed_box_length in Hs. rewrite Hs. pose proof (blen_nonneg m). dlia.
  - rewrite base64Url_length. apply sealed_box_length in Hs. rewrite Hs.
    pose proof (utf8_units (JSON_stringify (key_payload key records date))) as Hu. fold m in Hu. dlia.
Qed.
End KeyLemmas.
(** ** The transfer *)
Section TransferLemmas.
Context `{SL : SodiumLaws} `{BLen : !Base64Length} `{Base64Variants} `{!ServerCrypto} `{!ServerCryptoLaws} `{LL : LinkingSealerLaws}.
Context `{LinkPlatform} `{HistoryPlatform} `{JsEngine} `{BL : BackupCryptoLaws}.

Lemma api_ok {A} (p : prog cmd (http A)) w a w' : run do_cmd p w = (HOk a, w') -> api p (mkNet w []) = (Ok a, mkNet w' []).
Proof. intros E. unfold api. erewrite stE_bind_eq; [|unfold fetch; cbn [n_world n_fates]; rewrite E; reflexivity]. done. Qed.

Lemma presign_ok w me dev size r w' : run do_cmd (history_presign me dev size None) w = (HOk r, w') ->
  presignHistoryUpload me dev size (mkNet w []) = (Ok r.1.1, mkNet w' []).
Proof. intros E. unfold presignHistoryUpload. by rewrite (stE_bind_eq _ _ _ _ _ (api_ok _ _ _ _ E)). Qed.

Lemma ready_ok w me dev size digest sk r w' : run do_cmd (history_ready me dev size digest sk) w = (HOk r, w') ->
  markHistoryReady me dev size digest sk (mkNet w []) = (Ok tt, mkNet w' []).
Proof. intros E. unfold markHistoryReady. by rewrite (stE_bind_eq _ _ _ _ _ (api_ok _ _ _ _ E)). Qed.

Lemma upload_ok w url b : w_r2_up w = true -> w_now w < url_until url ->
  uploadHistoryArchive url b (mkNet w []) = (Ok tt, mkNet (with_objects w (<[url_key url := b]> (w_objects w))) []).
Proof.
  intros Hup Ht. unfold uploadHistoryArchive, fetch, mbind, stE_bind. cbn [n_world n_fates run call do_cmd]. rewrite Hup. ztest. done.
Qed.

Lemma digest_ok b : HISTORY_DIGEST_PATTERN (digestArchive b) = true.
Proof.
  unfold HISTORY_DIGEST_PATTERN, digestArchive. rewrite hex_length.
  pose proof (hash_length 32 b None ltac:(lia)) as Hl. unfold blen in Hl. apply andb_true_iff. split; [apply Z.eqb_eq; lia|].
  unfold AtRest.hex. clear Hl. induction (generichash 32 b None) as [|x l IH]; [done|]. cbn [map concat]. rewrite forallb_app.
  apply andb_true_iff. split; [|exact IH]. pose proof (b2z_range x) as Hx. cbn [forallb]. unfold AtRest.hex_digit, hex_char.
  assert (0 <= b2z x / 16 < 16 /\ 0 <= b2z x mod 16 < 16) as [Hhi Hlo] by dlia.
  destruct (Z.ltb_spec (b2z x / 16) 10), (Z.ltb_spec (b2z x mod 16) 10); lia.
Qed.

(** What an upload to the device [dev] of [me] needs: a device linked in the last half
    hour, the object store, an archive within the limits of the account. *)
Record sendable (w : world) (me dev : jstr) (t : HistoryTables) (rnd : Randomness) (report : CreateBackupReport) : Prop := {
  se_receiver : receiver w me dev;
  se_store : r2Configured = true /\ w_r2_up w = true /\ backupKeySecret <> [];
  se_tables : tables_ok (historyStore t);
  se_count : 0 < countHistoryRecords t <= 65535;
  se_random : blen (r_key rnd) = 32 /\ blen (r_salt rnd) = 16 /\ blen (r_box rnd) = 24 /\ forall k, blen (r_nonce rnd k) = 24;
  se_report : createFramedBackup (historyStore t) (history_options (r_key rnd) (r_salt rnd)) (r_nonce rnd) = Ok report;
  se_size : created_size report <= account_limit w me }.

Lemma Ok_inj {A} (a b : A) : Ok a = Ok b -> a = b.
Proof. by intros [= ->]. Qed.

Lemma sas_nonempty k sas : deriveLinkSas k = Ok sas -> sas <> [].
Proof.
  unfold deriveLinkSas. destruct (_ =? 0); [done|]. destruct (decodePublicKey k) as [b|]; [|done]. rewrite bind_ok.
  destruct (sas_input b) as [i|]; [|done]. rewrite bind_ok. intros E%Ok_inj. subst sas. unfold padStart.
  intros E%app_eq_nil. destruct E as [E1 E2]. rewrite E2 in E1. discriminate E1.
Qed.

Lemma object_key dev : backupKeySecret <> [] -> dev <> [] -> exists key, deriveLinkHistoryObjectKey backupKeySecret dev = Ok key.
Proof.
  intros Hs Hd. unfold deriveLinkHistoryObjectKey. rewrite !truthy_word by done. by eexists.
Qed.

Lemma account_limit_max w me : account_limit w me <= BACKUP_SUBSCRIBER_MAX_BYTES.
Proof.
  unfold account_limit, historySizeLimit, backupSizeLimit, BACKUP_SUBSCRIBER_MAX_BYTES, BACKUP_FREE_MAX_BYTES, LINK_HISTORY_SANDBOX_MAX_BYTES.
  destruct (assoc _ _) as [u|]; [destruct (us_verified u)|]; case_bool_decide; lia.
Qed.

(** The old device uploads the archive and announces it. *)
Lemma send_ok w me dev seed sas t rnd report now : sendable w me dev t rnd report -> iso_range now ->
  deriveLinkSas (base64Url (kem_keypair seed).1) = Ok sas ->
  exists key sealedKey w', deriveLinkHistoryObjectKey backupKeySecret dev = Ok key /\
    sendHistoryArchive me dev (base64Url (kem_keypair seed).1) sas (Ok t) rnd now (mkNet w []) =
      (Ok (mkSent (created_size report) (countHistoryRecords t) (digestArchive (created_bytes report))), mkNet w' []) /\
    ready_at w' dev (mkHistory (created_size report) (digestArchive (created_bytes report)) sealedKey (w_now w)) (w_now w + 1800 * 1000) /\
    w_objects w' !! key = Some (created_bytes report) /\ w_r2_up w' = true /\ w_now w' = w_now w /\
    openArchiveKey (kem_keypair seed).2 sealedKey = Ok (r_key rnd).
Proof.
  intros [Hr (Hr2 & Hup & Hsec) Ht Hc (Hk & Hsalt & Hbox & Hn) Hrep Hsz] Hnow Hsas.
  assert (Hd : dev <> []) by (pose proof (receiver_nonempty _ _ _ Hr); by destruct dev).
  destruct (object_key dev Hsec Hd) as [key Hkey].
  destruct (history_archive _ t _ _ report Ht Hk Hsalt Hn Hrep) as (_ & _ & _ & _ & _ & Hsize & Hmin).
  destruct (archive_key_roundtrip seed (r_kem rnd) (r_box rnd) (r_key rnd) (countHistoryRecords t) now Hk Hbox) as (sk & Hseal & Hopen & Hurl & Hlen);
    [lia|done|].
  pose proof (account_limit_max w me) as Hlim. unfold BACKUP_SUBSCRIBER_MAX_BYTES in Hlim.
  destruct (serve_presign w me dev (created_size report) key Hr Hr2 Hkey) as (v & Hpre & Hpv); [lia|lia|].
  set (w1 := with_redis w _) in Hpre.
  set (w2 := with_objects w1 (<[key := created_bytes report]> (w_objects w1))).
  destruct (serve_ready w2 me dev (created_size report) (digestArchive (created_bytes report)) sk key) as (v2 & Hready & Hst); try done.
  { by apply (receiver_same w). }
  { exists v, (w_now w + 600 * 1000), (w_now w). cbn. split; [apply lookup_insert_eq|]. split; [lia|done]. }
  { exists (created_bytes report). split; [apply lookup_insert_eq|lia]. }
  { unfold state_ok. cbn [hs_size hs_digest hs_sealedKey]. rewrite digest_ok, Hurl. lia. }
  set (w3 := with_redis w2 _) in Hready. exists key, sk, w3. split; [done|]. split.
  - assert (Hne : sas <> []) by (by apply (sas_nonempty _ _ Hsas)).
    unfold sendHistoryArchive. rewrite Hsas, lift_bind, (bool_decide_eq_false_2 (sas = [])), bool_decide_eq_true_2 by done. cbn [orb negb].
    enough (send_body me dev (base64Url (kem_keypair seed).1) (Ok t) rnd now (mkNet w []) =
      (Ok (mkSent (created_size report) (countHistoryRecords t) (digestArchive (created_bytes report))), mkNet w3 [])) as -> by done.
    unfold send_body. rewrite lift_bind. ztest. unfold createHistoryArchive. rewrite Hrep, bind_ok, lift_bind.
    assert (Hl : getHistoryLimits me (mkNet w []) = (Ok (account_limit w me, true), mkNet w [])).
    { unfold getHistoryLimits. rewrite (stE_bind_eq _ _ _ _ _ (api_ok _ _ _ _ (serve_limits w me))), Hr2. ztest. done. }
    rewrite (stE_bind_eq _ _ (mkNet w []) (Ok (Some (account_limit w me, true))) (mkNet w [])) by (by rewrite Hl).
    cbv beta iota zeta. cbn [negb]. ztest. rewrite andb_false_r, lift_bind.
    rewrite (stE_bind_eq _ _ _ _ _ (presign_ok _ _ _ _ _ _ Hpre)). cbn [fst].
    rewrite (stE_bind_eq _ _ _ _ _ (upload_ok w1 (mkUrl key (w_now w + 300 * 1000)) (created_bytes report) Hup ltac:(cbn; lia))). cbn [url_key]. fold w2.
    rewrite Hseal, lift_bind. rewrite (stE_bind_eq _ _ _ _ _ (ready_ok _ _ _ _ _ _ _ _ Hready)). done.
  - split; [|split_and!; try done].
    + exists v2. split; [apply lookup_insert_eq|done].
    + apply lookup_insert_eq.
Qed.

Context {V : Type} (writers : HistoryImportWriters V).

Lemma on_net_ok {A B} (c : stE net A) (f : A -> stE (net * V) B) n v a n' :
  c n = (Ok a, n') -> (on_net c ≫= f) (n, v) = f a (n', v).
Proof. intros E. unfold mbind, stE_bind, on_net. cbn [fst snd]. by rewrite E. Qed.

Lemma fetch_archive_ok w url b : w_r2_up w = true -> w_now w < url_until url -> w_objects w !! url_key url = Some b ->
  fetchHistoryArchive url (mkNet w []) = (Ok b, mkNet w []).
Proof.
  intros Hup Ht Hb. unfold fetchHistoryArchive, fetch, mbind, stE_bind. cbn [n_world n_fates run call do_cmd].
  rewrite Hup, Hb. ztest. done.
Qed.

Lemma consume_ok w dev digest r w' : run do_cmd (history_consume dev digest) w = (HOk r, w') ->
  consumeHistoryArchive dev digest (mkNet w []) = (Ok tt, mkNet w' []).
Proof. intros E. unfold consumeHistoryArchive. by rewrite (stE_bind_eq _ _ _ _ _ (api_ok _ _ _ _ E)). Qed.

(** The new device receives an archive that is ready and its import succeeds. *)
Lemma receive_ok w dev st until key b priv akey report v v' : ready_at w dev st until -> w_now w < until -> dev <> [] ->
  deriveLinkHistoryObjectKey backupKeySecret dev = Ok key -> w_objects w !! key = Some b -> w_r2_up w = true ->
  hs_size st = blen b -> hs_digest st = digestArchive b -> openArchiveKey priv (hs_sealedKey st) = Ok akey ->
  importHistoryArchive writers b akey None v = (Ok report, v') ->
  receiveLinkedHistory writers dev priv (mkNet w [], v) =
    (Ok (Some (mkReceived (im_records report) (im_messages report) (blen b))), (mkNet (burned key dev w) [], v')).
Proof.
  intros Hr Ht Hd Hk Hb Hup Hs Hdig Hopen Himp. unfold receiveLinkedHistory.
  rewrite (on_net_ok _ _ _ _ _ _ (api_ok _ _ _ _ (serve_status _ _ _ _ Hr Ht Hd))).
  rewrite (on_net_ok _ _ _ _ _ _ (api_ok _ _ _ _ (serve_download _ _ _ _ _ Hr Ht Hd Hk))). cbn [ti_url ti_size ti_digest ti_sealedKey].
  rewrite (on_net_ok _ _ _ _ _ _ (fetch_archive_ok w (mkUrl key (w_now w + 300 * 1000)) b Hup ltac:(cbn; lia) Hb)).
  rewrite Hs, Z.eqb_refl, Hdig, bool_decide_eq_true_2 by done. cbn [negb]. rewrite Hopen, lift_bind.
  rewrite (stE_bind_eq _ _ _ (Ok report) (mkNet w [], v')) by (unfold on_vault; cbn [fst snd]; by rewrite Himp).
  assert (Hlen : 1 <= js_length (hs_digest st) <= 128).
  { rewrite Hdig. pose proof (digest_ok b) as Hp. unfold HISTORY_DIGEST_PATTERN in Hp. bools. rewrite <- hex_units; [lia|done]. }
  pose proof (serve_consume _ _ _ _ _ Hr Ht Hd Hk Hup Hlen) as Hcons. rewrite Hdig in Hcons.
  unfold try_, on_net, mbind, stE_bind. cbn [fst snd]. by rewrite (consume_ok _ _ _ _ _ Hcons).
Qed.

(** The writes of an import of [t]: its rows, in some order, the messages in batches. *)
Definition writes_history (t : HistoryTables) (report : HistoryImportReport) (c : stE V unit) : Prop :=
  exists cs vs gs ms bs rest, cs ≡ₚ map strip (t_contacts t) /\ vs ≡ₚ map strip (t_conversations t) /\
    gs ≡ₚ map strip (t_groupCachedParticipants t) /\ ms ≡ₚ map strip (t_messages t) /\
    cut_into 250 ms bs rest /\ c = import_writes writers bs cs vs gs rest /\
    im_records report = countHistoryRecords t /\ im_messages report = Z.of_nat (length (t_messages t)).

Lemma import_history w me dev t rnd report : sendable w me dev t rnd report ->
  exists rep c, writes_history t rep c /\
    forall v, importHistoryArchive writers (created_bytes report) (r_key rnd) None v = (_ ← c; mret rep) v.
Proof.
  intros [_ _ Ht _ (Hk & Hsalt & _ & Hn) Hrep _].
  destruct (history_archive _ t _ _ report Ht Hk Hsalt Hn Hrep) as (parsed & chunks & Hp & Hc & Hrows & _ & _).
  destruct (import_spec writers _ _ None _ _ Hp Hc) as (bs & r & Hcut & Himp).
  pose proof (Hrows (js "contacts")) as H1'. pose proof (Hrows (js "conversations")) as H2'.
  pose proof (Hrows (js "messages")) as H3'. pose proof (Hrows (js "groupCachedParticipants")) as H4'.
  rewrite history_rows in H1', H2', H3', H4'. revert H1' H2' H3' H4'. decide_names. intros H1' H2' H3' H4'.
  eexists _, _. split; [|exact Himp].
  eexists _, _, _, _, bs, r. split; [exact H1'|]. split; [exact H2'|]. split; [exact H4'|]. split; [exact H3'|].
  split; [exact Hcut|]. split; [reflexivity|]. unfold import_report, countHistoryRecords. cbn [im_records im_messages].
  by rewrite H1', H2', H3', H4', !length_map; split; [lia|].
Qed.

(** Writers that never fail. *)
Definition writers_total : Prop := forall rs v,
  (write_contacts writers rs v).1 = Ok tt /\ (write_conversations writers rs v).1 = Ok tt /\
  (write_messages writers rs v).1 = Ok tt /\ (write_groupCachedParticipants writers rs v).1 = Ok tt.

Definition total (c : stE V unit) : Prop := forall v, (c v).1 = Ok tt.

Lemma total_bind c d : total c -> total d -> total (_ ← c; d).
Proof.
  intros Hc Hd v. specialize (Hc v). unfold mbind, stE_bind. destruct (c v) as [r v1]. cbn in Hc. subst r. apply Hd.
Qed.

Lemma total_rows f rs : (forall rs, total (f rs)) -> total (write_rows f rs).
Proof. intros Hf. destruct rs; [done|apply Hf]. Qed.

Lemma import_writes_total bs cs vs gs r : writers_total -> total (import_writes writers bs cs vs gs r).
Proof.
  intros Hw. unfold import_writes. repeat apply total_bind; try (apply total_rows; intros rs v; by destruct (Hw rs v) as (? & ? & ? & ?)).
  induction bs as [|b bs IH]; [done|]. cbn [each]. apply total_bind; [|exact IH]. intros v. by destruct (Hw b v) as (? & ? & ? & ?).
Qed.

Lemma total_then {A} c (a : A) v : total c -> (_ ← c; mret a) v = (Ok a, (c v).2).
Proof. intros Hc. specialize (Hc v). unfold mbind, stE_bind. destruct (c v) as [r v1]. cbn in Hc. by subst r. Qed.

(** The new device receives the archive of [send_ok] at any later time within its
    half hour, whatever its own storage holds. *)
Lemma receive_sent w me dev seed sas t rnd report now : sendable w me dev t rnd report -> iso_range now ->
  deriveLinkSas (base64Url (kem_keypair seed).1) = Ok sas -> writers_total ->
  exists w', sendHistoryArchive me dev (base64Url (kem_keypair seed).1) sas (Ok t) rnd now (mkNet w []) =
      (Ok (mkSent (created_size report) (countHistoryRecords t) (digestArchive (created_bytes report))), mkNet w' []) /\
    exists rep c key, writes_history t rep c /\ dev <> [] /\ deriveLinkHistoryObjectKey backupKeySecret dev = Ok key /\
      forall t1 v, t1 < w_now w + 1800 * 1000 ->
      receiveLinkedHistory writers dev (kem_keypair seed).2 (mkNet (with_now w' t1) [], v) =
        (Ok (Some (mkReceived (countHistoryRecords t) (Z.of_nat (length (t_messages t))) (created_size report))),
         (mkNet (burned key dev (with_now w' t1)) [], (c v).2)).
Proof.
  intros Hse Hnow Hsas Hw. destruct (send_ok w me dev seed sas t rnd report now Hse Hnow Hsas)
    as (key & sk & w' & Hkey & Hsend & Hready & Hobj & Hup & Hn & Hopen).
  destruct (import_history _ _ _ _ _ _ Hse) as (rep & c & Hwr & Himp).
  exists w'. split; [exact Hsend|]. exists rep, c, key. split; [exact Hwr|].
  destruct Hse as [Hr _ Ht _ (Hk & Hsalt & _ & Hnon) Hrep _].
  assert (Hd : dev <> []) by (pose proof (receiver_nonempty _ _ _ Hr); by destruct dev). split; [exact Hd|]. split; [exact Hkey|].
  destruct (history_archive _ t _ _ report Ht Hk Hsalt Hnon Hrep) as (_ & _ & _ & _ & _ & Hsize & _).
  intros t1 v Ht1. destruct Hwr as (cs & vs & gs & ms & bs & rest & _ & _ & _ & _ & _ & -> & Hrec & Hmsg).
  rewrite (receive_ok (with_now w' t1) dev _ _ key (created_bytes report) _ (r_key rnd) rep v
    (import_writes writers bs cs vs gs rest v).2 Hready); try done.
  - by rewrite Hrec, Hmsg, <- Hsize.
  - rewrite Himp. by apply total_then, import_writes_total.
Qed.

(** ** Failed attempts *)
Lemma fetch_world {A} (p : prog cmd A) n : (forall w, (run do_cmd p w).2 = w) -> n_world (fetch p n).2 = n_world n.
Proof.
  intros Hp. unfold fetch. specialize (Hp (n_world n)). destruct (run do_cmd p (n_world n)) as [r w']. cbn in Hp. subst w'.
  by destruct (n_fates n) as [|[] fs].
Qed.

Lemma api_world {A} (p : prog cmd (http A)) n : (forall w, (run do_cmd p w).2 = w) -> n_world (api p n).2 = n_world n.
Proof.
  intros Hp. pose proof (fetch_world p n Hp) as Hf. unfold api, mbind, stE_bind. destruct (fetch p n) as [[[a|s m]|e] n']; done.
Qed.

Lemma status_reads dev w : (run do_cmd (history_status dev) w).2 = w.
Proof.
  unfold history_status. destruct (negb _); [done|]. rewrite run_bind. by destruct (readState_same w dev) as [st ->].
Qed.

Lemma download_reads dev w : (run do_cmd (history_download dev) w).2 = w.
Proof.
  unfold history_download. destruct (negb _); [done|]. rewrite run_bind. destruct (readState_same w dev) as [[st|] ->]; [|done].
  by destruct (deriveLinkHistoryObjectKey backupKeySecret dev).
Qed.

Lemma fetch_archive_world url n : n_world (fetchHistoryArchive url n).2 = n_world n.
Proof.
  unfold fetchHistoryArchive. pose proof (fetch_world (call (GetObject (url_key url) (url_until url))) n (fun _ => eq_refl)) as Hf.
  unfold mbind, stE_bind. destruct (fetch _ n) as [[[b|]|e] n']; done.
Qed.

(** The step of a bind that throws, or goes on. *)
Lemma bind_cases {A B} (c : stE (net * V) A) (f : A -> stE (net * V) B) s r s' :
  (c ≫= f) s = (r, s') -> (exists a s1, c s = (Ok a, s1) /\ f a s1 = (r, s')) \/ (exists e, c s = (Err e, s') /\ r = Err e).
Proof. unfold mbind, stE_bind. destruct (c s) as [[a|e] s1]; intros E; [left; by exists a, s1|right; exists e; by injection E as <- <-]. Qed.

Lemma on_net_world {A} (c : stE net A) (s : net * V) r s' : on_net c s = (r, s') -> n_world (c s.1).2 = n_world s.1 ->
  n_world s'.1 = n_world s.1 /\ s'.2 = s.2.
Proof. unfold on_net. destruct (c s.1) as [x n']. intros E. by injection E as <- <-. Qed.

(** An attempt that throws has changed nothing on the server, whichever requests or
    answers were lost; and the local storage only when the whole archive was
    authenticated and all its frames were accepted. *)
Lemma failed_receive session priv s r s' : receiveLinkedHistory writers session priv s = (r, s') ->
  (is_ok r = false -> n_world s'.1 = n_world s.1) /\
  (s'.2 = s.2 \/ exists b key parsed chunks, parseBackupArchive b key = Ok parsed /\
     mapR validate_chunk (parsed_frames parsed) = Ok chunks).
Proof.
  unfold receiveLinkedHistory. intros E.
  apply bind_cases in E as [(st & s1 & E1 & E)|(e & E1 & ->)];
    apply on_net_world in E1 as [W1 V1]; try (apply api_world, status_reads); [|by rewrite W1, V1; auto].
  destruct st as [st|]; [|injection E as <- <-; rewrite W1, V1; auto].
  apply bind_cases in E as [(tk & s2 & E2 & E)|(e & E2 & ->)];
    apply on_net_world in E2 as [W2 V2]; try (apply api_world, download_reads); [|by rewrite W2, V2, W1, V1; auto].
  apply bind_cases in E as [(b & s3 & E3 & E)|(e & E3 & ->)];
    apply on_net_world in E3 as [W3 V3]; try apply fetch_archive_world; [|by rewrite W3, V3, W2, V2, W1, V1; auto].
  rewrite W2, W1 in W3. rewrite V2, V1 in V3.
  destruct (negb (blen b =? _)); [injection E as <- <-; rewrite W3, V3; auto|].
  destruct (negb _); [injection E as <- <-; rewrite W3, V3; auto|].
  rewrite lift_bind in E. destruct (openArchiveKey _ _) as [key|]; [|injection E as <- <-; rewrite W3, V3; auto].
  assert (Hv : (exists p cs, parseBackupArchive b key = Ok p /\ mapR validate_chunk (parsed_frames p) = Ok cs) \/
    exists e, importHistoryArchive writers b key None s3.2 = (Err e, s3.2)).
  { destruct (p ← parseBackupArchive b key; mapR validate_chunk (parsed_frames p)) as [cs|e] eqn:Ep; [left|right].
    - destruct (parseBackupArchive b key) as [p|]; [|done]. by exists p, cs.
    - exists e. by apply import_refused. }
  apply bind_cases in E as [(rep & s4 & E4 & E)|(e & E4 & ->)]; unfold on_vault in E4.
  - split; [|destruct Hv as [(p & cs & Hp & Hcs)|[e He]]; [right; by exists b, key, p, cs|by rewrite He in E4]].
    unfold mbind, stE_bind, try_ in E. injection E as <- _. done.
  - destruct Hv as [(p & cs & Hp & Hcs)|[e' He]].
    + destruct (importHistoryArchive _ _ _ _ _) as [x v']. injection E4 as _ <-. cbn [fst snd].
      split; [by rewrite W3|]. right. by exists b, key, p, cs.
    + rewrite He in E4. injection E4 as _ <-. cbn [fst snd]. rewrite W3, V3. auto.
Qed.

(** C24: the history reaches the new device, exactly. When the user confirmed the code of
    the new device's own key, and the archive is within the limits of the account,
    the old device's upload succeeds; and at any time within the next half hour the new
    device, with its private key, writes exactly the rows of the old device (with
    absent fields dropped): contacts, conversations and participants in one call
    each, the messages in batches of 250 and a last shorter one. Then the archive
    and all pointers to it are gone from the server. *)
Theorem history_transfer w me dev seed sas t rnd report now t1 v :
  sendable w me dev t rnd report -> iso_range now -> deriveLinkSas (base64Url (kem_keypair seed).1) = Ok sas ->
  writers_total -> t1 < w_now w + 1800 * 1000 ->
  exists w' sent, sendHistoryArchive me dev (base64Url (kem_keypair seed).1) sas (Ok t) rnd now (mkNet w []) = (Ok sent, mkNet w' []) /\
    sent_records sent = countHistoryRecords t /\
    exists rep c w'' key, writes_history t rep c /\
      receiveLinkedHistory writers dev (kem_keypair seed).2 (mkNet (with_now w' t1) [], v) =
        (Ok (Some (mkReceived (countHistoryRecords t) (Z.of_nat (length (t_messages t))) (sent_size sent))), (mkNet w'' [], (c v).2)) /\
      (run do_cmd (readHistoryState dev) w'').1 = None /\ (run do_cmd (hasHistoryIntent dev) w'').1 = false /\
      deriveLinkHistoryObjectKey backupKeySecret dev = Ok key /\ w_objects w'' !! key = None.
Proof.
  intros Hse Hnow Hsas Hw Ht. destruct (receive_sent w me dev seed sas t rnd report now Hse Hnow Hsas Hw)
    as (w' & Hsend & rep & c & key & Hwr & Hd & Hkey & Hrecv).
  eexists w', _. split; [exact Hsend|]. split; [done|]. exists rep, c, (burned key dev (with_now w' t1)), key.
  split; [exact Hwr|]. split; [by rewrite Hrecv|].
  destruct (burned_gone key dev (with_now w' t1) Hd) as (Hs & _ & Hi & Ho). by rewrite Hs, Hi.
Qed.

End TransferLemmas.

Section Properties.
Context `{SL : SodiumLaws} `{BLen : !Base64Length} `{Base64Variants} `{!ServerCrypto} `{!ServerCryptoLaws} `{LL : LinkingSealerLaws}.
Context `{LinkPlatform} `{HistoryPlatform} `{JsEngine} `{BL : BackupCryptoLaws} {V : Type}.

(** An attempt to receive that throws: some time before [deadline], with some
    requests or answers lost, or because a writer failed (the writers may be any). *)
Definition failed_attempt (dev : jstr) (priv : bytes) (deadline : Z) : relation (world * V) :=
  fun s s' => exists ws t fates e n, w_now s.1 <= t < deadline /\
    receiveLinkedHistory ws dev priv (mkNet (with_now s.1 t) fates, s.2) = (Err e, (n, s'.2)) /\ n_world n = s'.1.

Lemma failed_attempts_world dev priv deadline s s' : rtc (failed_attempt dev priv deadline) s s' ->
  exists t, s'.1 = with_now s.1 t.
Proof.
  intros Hr. induction Hr as [s|s s1 s2 (ws & t & fates & e & n & _ & Hrecv & Hn) _ [t2 IH]].
  - exists (w_now s.1). by destruct s as [[] ?].
  - exists t2. rewrite IH. apply failed_receive in Hrecv as [Hw _]. specialize (Hw eq_refl). cbn in Hw. by rewrite <- Hn, Hw.
Qed.


(** ** The code *)
Lemma filter_all {A} (f : A -> bool) l : forallb f l = true -> List.filter f l = l.
Proof. induction l as [|x l IH]; [done|]. cbn. intros [Hx Hl]%andb_true_iff. by rewrite Hx, IH. Qed.

Lemma js_chars s : Z.of_nat (length (js s)) = slen s.
Proof. unfold slen. f_equal. induction s as [|c s IH]; [done|]. cbn [js length String.length]. by rewrite IH. Qed.

Lemma number_zeros n s : JsDate.number (replicate n 48 ++ s) = JsDate.number s.
Proof. induction n as [|n IH]; [done|]. cbn [replicate app]. rewrite number_cons, IH. lia. Qed.

Lemma sas_code v : 0 <= v < SAS_MODULUS ->
  length (padStart LINK_SAS_DIGITS (js (pretty v))) = LINK_SAS_DIGITS /\
  forallb js_digit (padStart LINK_SAS_DIGITS (js (pretty v))) = true /\
  JsDate.number (padStart LINK_SAS_DIGITS (js (pretty v))) = v.
Proof.
  intros Hv. change SAS_MODULUS with 1000000 in Hv. unfold padStart, LINK_SAS_DIGITS. split_and!.
  - rewrite length_app, length_replicate. pose proof (pretty_short_pow 5 v ltac:(cbn; lia)) as Hp.
    rewrite <- js_chars in Hp. lia.
  - rewrite forallb_app, (decimal_js _ (pretty_decimal v ltac:(lia))), andb_true_r. generalize (6 - length (js (pretty v)))%nat.
    induction n; [done|]. done.
  - rewrite number_zeros. apply number_pretty. lia.
Qed.

Lemma uint32_int32 z : uint32 (int32 z) = uint32 z.
Proof. unfold int32, uint32. destruct (_ <? _); dlia. Qed.

Lemma uint32_or a b : uint32 (js_or a b) = Z.lor (uint32 a) (uint32 b).
Proof.
  unfold js_or. rewrite uint32_int32, <- (uint32_int32 a), <- (uint32_int32 b). unfold uint32. change 4294967296 with (2 ^ 32).
  rewrite <- !Z.land_ones by lia. apply Z.land_lor_distr_l.
Qed.

Lemma uint32_byte x : 0 <= x < 256 -> int32 x = x /\ uint32 x = x.
Proof. intros Hx. unfold int32, uint32. rewrite !Z.mod_small by lia. ztest. done. Qed.

Lemma uint32_shl x s : 0 <= x < 256 -> 0 <= s <= 24 -> uint32 (js_shl x s) = Z.shiftl x s.
Proof.
  intros Hx Hs. unfold js_shl. rewrite uint32_int32, (proj1 (uint32_byte x Hx)), Z.shiftl_mul_pow2 by lia.
  unfold uint32. apply Z.mod_small. pose proof (Z.pow_le_mono_r 2 s 24 ltac:(lia) ltac:(lia)) as Hp. change (2 ^ 24) with 16777216 in Hp.
  assert (0 < 2 ^ s) by (apply Z.pow_pos_nonneg; lia). nia.
Qed.

Lemma octet_range b i : 0 <= octet b i < 256.
Proof. unfold octet. destruct (b !! i); [apply b2z_range|lia]. Qed.

(** The first four bytes as a big-endian number. *)
Lemma sas_value_be b0 b1 b2 b3 l : sas_value (b0 :: b1 :: b2 :: b3 :: l) = u32_of b0 b1 b2 b3.
Proof.
  unfold sas_value, js_shru. rewrite Z.shiftr_0_r, !uint32_or, !uint32_shl by (lia || apply octet_range).
  rewrite (proj2 (uint32_byte _ (octet_range _ 3))). unfold octet. cbn [lookup list_lookup].
  pose proof (b2z_range b0). pose proof (b2z_range b1). pose proof (b2z_range b2). pose proof (b2z_range b3).
  rewrite <- Z.lor_assoc, <- (Z.lor_assoc (Z.shiftl _ 24)), (Z.lor_comm _ (b2z b3)).
  rewrite lor_shiftl, (Z.lor_comm (Z.shiftl (b2z b1) 16)), lor_shiftl, (Z.lor_comm (Z.shiftl (b2z b0) 24)), lor_shiftl by lia.
  unfold u32_of. lia.
Qed.

Lemma sas_input_ok key : sas_input key = Ok (utf8_encode LINK_SAS_DOMAIN ++ x00 :: key).
Proof.
  unfold sas_input. set (d := utf8_encode LINK_SAS_DOMAIN). pose proof (blen_nonneg d). pose proof (blen_nonneg key).
  rewrite u8_set_first, bind_ok by lia. rewrite u8_set_fill', bind_ok by (blia || lia).
  rewrite u8_set_fill' by (blia || lia). rewrite zeros_nil by blia. rewrite app_nil_r. by rewrite <- app_assoc.
Qed.

Lemma hash_u32 m : exists b0 b1 b2 b3 l, generichash 32 m None = b0 :: b1 :: b2 :: b3 :: l.
Proof.
  pose proof (hash_length 32 m None ltac:(lia)) as Hl. destruct (generichash 32 m None) as [|b0 [|b1 [|b2 [|b3 l]]]]; try (vm_compute in Hl; discriminate Hl).
  by exists b0, b1, b2, b3, l.
Qed.

(** C26: the old device hands out nothing unless the user confirmed the code of the very
    key it seals for. With any other confirmed text (an empty one, the code of a key the
    server swapped, a key that does not decode) [sendHistoryArchive] throws before
    it reads a row or sends a request. The code is six digits: the first four bytes of the
    hash of the domain, a zero byte and the key, as a big-endian number modulo 10^6;
    it is shown as two groups of three. *)
Theorem sas_gate pk :
  (forall me dev confirmed read rnd now n, deriveLinkSas pk <> Ok confirmed ->
     exists e, sendHistoryArchive me dev pk confirmed read rnd now n = (Err e, n)) /\
  (forall code, deriveLinkSas pk = Ok code ->
     length code = 6%nat /\ forallb js_digit code = true /\ formatLinkSas code = take 3 code ++ js " " ++ drop 3 code /\
     exists key x, decodePublicKey pk = Ok key /\ get_u32 (generichash 32 (utf8_encode LINK_SAS_DOMAIN ++ x00 :: key) None) 0 = Ok x /\
       JsDate.number code = x mod 10 ^ 6).
Proof.
  split.
  - intros me dev confirmed read rnd now n Hne. unfold sendHistoryArchive. rewrite lift_bind.
    destruct (deriveLinkSas pk) as [code|e]; [|by exists e]. rewrite (bool_decide_eq_false_2 (confirmed = code)) by congruence.
    rewrite orb_true_r. by eexists.
  - intros code. unfold deriveLinkSas. destruct (_ =? 0); [done|]. destruct (decodePublicKey pk) as [key|]; [|done].
    rewrite bind_ok, sas_input_ok, bind_ok. intros E%Ok_inj. set (m := utf8_encode _ ++ _) in *.
    destruct (hash_u32 m) as (b0 & b1 & b2 & b3 & l & Hm). rewrite Hm, sas_value_be in E.
    pose proof (b2z_range b0). pose proof (b2z_range b1). pose proof (b2z_range b2). pose proof (b2z_range b3).
    rewrite Z.rem_mod_nonneg in E by (unfold u32_of; lia || done).
    destruct (sas_code (u32_of b0 b1 b2 b3 mod SAS_MODULUS)) as (Hlen & Hdig & Hnum); [by apply Z.mod_pos_bound|].
    rewrite E in Hlen, Hdig, Hnum. split_and!; [done|done| |].
    + unfold formatLinkSas. rewrite filter_all by done. by rewrite Hlen.
    + exists key, (u32_of b0 b1 b2 b3). split_and!; [done|fold m; by rewrite Hm|done].
Qed.

(** The two kinds of archive cannot be taken for each other. A history archive given
    to the restore of backups, and a backup given to the import of histories, are
    refused although the key is right, and neither the database nor the local
    storage has changed. *)
Theorem archive_kinds_disjoint `{DX : Dexie} (writers : HistoryImportWriters V) key salt nonce :
  blen key = 32 -> blen salt = 16 -> (forall k, blen (nonce k) = 24) ->
  (forall t report (d : database), tables_ok (historyStore t) ->
     createFramedBackup (historyStore t) (history_options key salt) nonce = Ok report ->
     restoreFramedBackup (created_bytes report) key d = (Err "Arsip ini arsip riwayat perangkat (bukan backup .nyxbak)", d)) /\
  (forall r scramble report batch v, tables_ok r ->
     createFramedBackup r (mkCreate key salt scramble None None) nonce = Ok report ->
     importHistoryArchive writers (created_bytes report) key batch v = (Err "HISTORY_MARKER_MISSING", v)).
Proof.
  intros Hk Hs Hn. split.
  - intros t report d Ht Hc. by eapply (marked_archive_refused _ d (history_options key salt) nonce report).
  - intros r scramble report batch v Hr Hc.
    destruct (create_archive_of r (mkCreate key salt scramble None None) nonce report Hr) as (pieces & Hp & Hne & _ & Hparse & _);
      [by split_and!|done|done|]. cbn [create_key create_marker create_salt] in Hparse.
    apply import_refused. rewrite Hparse, bind_ok. cbn [parsed_frames]. destruct pieces as [|p ps]; [done|].
    apply Forall_cons in Hp as [Hp _]. cbn [map mapR]. unfold validate_chunk. rewrite (read_piece None p eq_refl Hp), bind_ok. done.
Qed.

(** ** An upload that fails *)
(** What the requests of a transfer leave as it is. *)
Definition same_accounts (w w' : world) : Prop :=
  w_devices w' = w_devices w /\ w_now w' = w_now w /\ w_r2_up w' = w_r2_up w.
Definition same_server (n n' : net) : Prop := same_accounts (n_world n) (n_world n').
#[local] Notation keeps := (moves same_server).
Definition quiet (X : Type) (c : cmd X) : Prop := match c with DeviceCreate _ | DeviceDelete _ => False | _ => True end.

Lemma same_trans w1 w2 w3 : same_accounts w1 w2 -> same_accounts w2 w3 -> same_accounts w1 w3.
Proof. unfold same_accounts. intros (? & ? & ?) (? & ? & ?). split_and!; congruence. Qed.

#[local] Instance same_server_preorder : PreOrder same_server.
Proof. split; [by intros n|]. intros n1 n2 n3. apply same_trans. Qed.

Lemma run_quiet {A} (p : prog cmd A) w : sends quiet p -> same_accounts w (run do_cmd p w).2.
Proof.
  revert w. induction p as [a|X c k IH]; intros w Hq; [done|]. destruct Hq as [Hc Hk]. cbn [run].
  assert (Hs : same_accounts w (do_cmd X c w).2).
  { destruct c; try done; cbn; by repeat case_match. }
  destruct (do_cmd X c w) as [x w']. eapply same_trans; [exact Hs|]. by apply IH.
Qed.

Lemma keeps_fetch {A} (p : prog cmd A) : sends quiet p -> keeps (fetch p).
Proof.
  intros Hp n. unfold fetch. pose proof (run_quiet p (n_world n) Hp) as Hs. destruct (run do_cmd p (n_world n)) as [r w'].
  by destruct (n_fates n) as [|[] fs].
Qed.

Lemma keeps_api {A} (p : prog cmd (http A)) : sends quiet p -> keeps (api p).
Proof. intros Hp. apply (moves_bind _); [by apply keeps_fetch|]. by intros [a|s m]. Qed.

Lemma quiet_call {X A} (c : cmd X) (f : X -> prog cmd A) : quiet X c -> (forall x, sends quiet (f x)) -> sends quiet (call c ≫= f).
Proof. done. Qed.

(** Walks through an endpoint, or through a sequence of requests. *)
Ltac quietly := repeat match goal with
  | |- sends _ (Ret _) => exact I
  | |- sends _ (call _) => split; [exact I|intros ?; exact I]
  | |- sends _ (call _ ≫= _) => apply quiet_call; [exact I|intros ?]
  | |- sends _ (checked _ _) => unfold checked
  | |- sends _ (throws ?r _) => destruct r; cbn [throws]
  | |- sends _ (_ ≫= _) => apply sends_bind; [|intros ?]
  | |- sends _ (match ?x with _ => _ end) => destruct x
  | |- sends _ (assertFreshDeviceOfUser _ _) => unfold assertFreshDeviceOfUser
  | |- sends _ (accountTier _) => unfold accountTier
  | |- sends _ (recordHistoryPresign _ _) => unfold recordHistoryPresign
  | |- sends _ (History.markHistoryReady _ _ _ _) => unfold History.markHistoryReady
  | |- sends _ (readHistoryPresign _) => unfold readHistoryPresign
  | |- sends _ (readHistoryState _) => unfold readHistoryState
  | |- sends _ (burnHistory _) => unfold burnHistory
  | |- keeps (_ ≫= _) => apply (moves_bind _); [|intros ?]
  | |- keeps (lift _) => apply (moves_lift _)
  | |- keeps (mret _) => apply (moves_ret _)
  | |- keeps (match ?x with _ => _ end) => destruct x
  | |- keeps (api _) => apply keeps_api
  | |- keeps (fetch _) => apply keeps_fetch
  end.

Lemma keeps_limits me : keeps (getHistoryLimits me).
Proof. unfold getHistoryLimits, history_limits. quietly. Qed.
Lemma keeps_presign me dev size : keeps (presignHistoryUpload me dev size).
Proof. unfold presignHistoryUpload, history_presign. quietly. Qed.
Lemma keeps_ready me dev size digest sk : keeps (markHistoryReady me dev size digest sk).
Proof. unfold markHistoryReady, history_ready. quietly. Qed.
Lemma keeps_abort me dev : keeps (abortHistoryUpload me dev).
Proof. unfold abortHistoryUpload, history_abort. quietly. Qed.
Lemma keeps_upload url b : keeps (uploadHistoryArchive url b).
Proof. unfold uploadHistoryArchive. quietly. Qed.

Lemma keeps_send me dev pk read rnd now : keeps (send_body me dev pk read rnd now).
Proof.
  unfold send_body. quietly; try (apply keeps_abort || apply keeps_presign || apply keeps_upload || apply keeps_ready).
  intros n. pose proof (keeps_limits me n) as Hl. by destruct (getHistoryLimits me n) as [[l|e] n'].
Qed.

(** An upload that fails leaves no trace. Whatever fails (reading the tables, building
    the archive, a refusal of the server, any lost request, even a lost answer to
    [ready], after which the server counts the archive as ready), when the closing
    [abort] reaches the server the object, the pointer, the presign record and the
    announced intent are all gone, so the new device stops waiting at once; and the caller gets the
    first error. *)
Theorem failed_upload_cleans w me dev pk sas read rnd now fates e n1 :
  receiver w me dev -> w_r2_up w = true -> backupKeySecret <> [] -> deriveLinkSas pk = Ok sas ->
  send_body me dev pk read rnd now (mkNet w fates) = (Err e, n1) -> head (n_fates n1) <> Some LostRequest ->
  exists n2 key, sendHistoryArchive me dev pk sas read rnd now (mkNet w fates) = (Err e, n2) /\
    deriveLinkHistoryObjectKey backupKeySecret dev = Ok key /\ w_objects (n_world n2) !! key = None /\
    (run do_cmd (readHistoryState dev) (n_world n2)).1 = None /\ (run do_cmd (readHistoryPresign dev) (n_world n2)).1 = None /\
    (run do_cmd (hasHistoryIntent dev) (n_world n2)).1 = false.
Proof.
  intros Hr Hup Hsec Hsas Hsend Hf. pose proof (keeps_send me dev pk read rnd now (mkNet w fates)) as Hk. rewrite Hsend in Hk.
  destruct Hk as (Hdev & Hnow & Hup1). cbn [snd n_world] in *.
  assert (Hd : dev <> []) by (pose proof (receiver_nonempty _ _ _ Hr); by destruct dev).
  destruct (object_key dev Hsec Hd) as [key Hkey].
  pose proof (serve_abort (n_world n1) me dev key (receiver_same _ _ _ _ Hdev Hnow Hr) Hkey ltac:(congruence)) as Ha.
  assert (Hn2 : n_world (abortHistoryUpload me dev n1).2 = burned key dev (n_world n1)).
  { unfold abortHistoryUpload, api, mbind, stE_bind, fetch. rewrite Ha. destruct (n_fates n1) as [|[] fs]; done. }
  exists (abortHistoryUpload me dev n1).2, key. split.
  - unfold sendHistoryArchive. rewrite Hsas, lift_bind. rewrite (bool_decide_eq_false_2 (sas = [])) by (by apply (sas_nonempty _ _ Hsas)).
    rewrite bool_decide_eq_true_2 by done. cbn [orb negb]. by rewrite Hsend.
  - rewrite Hn2. destruct (burned_gone key dev (n_world n1) Hd) as (-> & -> & -> & Ho). done.
Qed.
End Properties.
(** ** Concrete runs *)
Import Toy ToyBackup ToyDatabase ToyServer ToyLink.
Module ToyTransfer.
#[export] Instance toy_variants : Base64Variants := {|
  from_base64_original_no_padding _ := throw "invalid input";
  from_base64_original _ := throw "invalid input" |}.
#[export] Instance toy_base64_length : Base64Length.
Proof. split. exact slen_base64Url. Qed.
#[export] Instance toy_history : HistoryPlatform := {| backupKeySecret := js "secret"; r2Configured := true |}.

(** Storage that records the calls of the writers. *)
Definition log_writer (name : string) (rs : list bval) : stE (list (string * list bval)) unit :=
  fun v => (Ok tt, v ++ [(name, rs)]).
Definition log_writers : HistoryImportWriters (list (string * list bval)) :=
  mkWriters _ (log_writer "contacts") (log_writer "conversations") (log_writer "messages") (log_writer "participants").

Definition phone : jstr := js "device-0001".
Definition phone_row : DeviceRow := mkDevice (js "bob") [] None [] None [] [] None None.
Definition hw : world := mkWorld ∅ [(phone, (phone_row, 500))] [(js "bob", bob)] ∅ true [] [] 1000 1%nat.
Definition message (id text : string) : bval := VObj [(js "id", VStr (js id)); (js "content", VStr (js text))].
Definition demo_history : HistoryTables :=
  mkTables [contact "alice" VNull] [] [message "m2" "hi"; message "m1" "hello"] [].
Definition demo_random : Randomness := mkRandom (zeros 32) (zeros 16) (fun _ => zeros 24) (zeros 32) (zeros 24).
Definition new_key : jstr := base64Url (kem_keypair (zeros 32)).1.
Definition demo_report : CreateBackupReport :=
  match createFramedBackup (historyStore demo_history) (history_options (zeros 32) (zeros 16)) (fun _ => zeros 24) with
  | Ok r => r
  | Err _ => mkCreated [] [] 0 0 0 []
  end.
Definition demo_sas : jstr := match deriveLinkSas new_key with Ok c => c | Err _ => [] end.

Lemma demo_receiver : receiver hw (js "bob") phone.
Proof. split; [|reflexivity]. exists phone_row, 500. split; [reflexivity|]. split; [reflexivity|]. vm_compute. discriminate. Qed.

Lemma history_store_ok : tables_ok (historyStore demo_history).
Proof. apply (bool_decide_unpack _). vm_compute. exact I. Qed.

Lemma demo_sendable : sendable hw (js "bob") phone demo_history demo_random demo_report.
Proof.
  split.
  - exact demo_receiver.
  - split; [reflexivity|]. split; [reflexivity|]. vm_compute. discriminate.
  - exact history_store_ok.
  - split; vm_compute; (reflexivity || discriminate).
  - split_and!; reflexivity.
  - vm_compute. reflexivity.
  - vm_compute. discriminate.
Qed.

Lemma demo_sas_ok : deriveLinkSas new_key = Ok demo_sas.
Proof. vm_compute. reflexivity. Qed.

Lemma log_total : writers_total log_writers.
Proof. done. Qed.
End ToyTransfer.
Import ToyTransfer.

Lemma history_transfer_witness :
  exists w' sent, sendHistoryArchive (js "bob") phone new_key demo_sas (Ok demo_history) demo_random 1700000000000 (mkNet hw []) =
      (Ok sent, mkNet w' []) /\ sent_records sent = 3 /\
    exists w'' v', receiveLinkedHistory log_writers phone (kem_keypair (zeros 32)).2 (mkNet (with_now w' 60000) [], []) =
      (Ok (Some (mkReceived 3 2 (sent_size sent))), (mkNet w'' [], v')).
Proof.
  destruct (history_transfer log_writers hw (js "bob") phone (zeros 32) demo_sas demo_history demo_random demo_report 1700000000000 60000 [])
    as (w' & sent & Hs & Hn & rep & c & w'' & key & _ & Hr & _).
  - exact demo_sendable.
  - split; vm_compute; (reflexivity || discriminate).
  - exact demo_sas_ok.
  - exact log_total.
  - vm_compute. reflexivity.
  - exists w', sent. split; [exact Hs|]. split; [exact Hn|]. exists w'', (c []).2. exact Hr.
Defined.


Lemma sas_gate_witness :
  (exists e, sendHistoryArchive (js "bob") phone new_key (js "000000") (Ok demo_history) demo_random 1700000000000 (mkNet hw []) =
     (Err e, mkNet hw [])) /\ length demo_sas = 6%nat.
Proof.
  destruct (sas_gate new_key) as [Hgate Hcode]. split.
  - apply Hgate. vm_compute. discriminate.
  - exact (proj1 (Hcode demo_sas demo_sas_ok)).
Defined.

Lemma archive_kinds_disjoint_witness :
  exists report, createFramedBackup (readTablesFromDexie demo_db BACKUP_TABLE_ORDER) demo_create (fun _ => zeros 24) = Ok report /\
    importHistoryArchive log_writers (created_bytes report) (zeros 32) None [] = (Err "HISTORY_MARKER_MISSING"%string, []) /\
    restoreFramedBackup (created_bytes demo_report) (zeros 32) empty_db =
      (Err "Arsip ini arsip riwayat perangkat (bukan backup .nyxbak)"%string, empty_db).
Proof.
  destruct (archive_kinds_disjoint log_writers (zeros 32) (zeros 16) (fun _ => zeros 24)) as [Hh Hb]; [reflexivity..|].
  destruct (createFramedBackup (readTablesFromDexie demo_db BACKUP_TABLE_ORDER) demo_create (fun _ => zeros 24)) as [report|] eqn:Hc;
    [|vm_compute in Hc; discriminate Hc].
  exists report. split; [reflexivity|]. split.
  - exact (Hb _ None report None [] (database_tables_ok _ demo_db_ok) Hc).
  - apply (Hh demo_history); [exact history_store_ok|]. vm_compute. reflexivity.
Defined.

(** The answer to [ready] is lost. *)
Lemma failed_upload_cleans_witness :
  exists e n2 key, sendHistoryArchive (js "bob") phone new_key demo_sas (Ok demo_history) demo_random 1700000000000
      (mkNet hw [Delivered; Delivered; Delivered; LostAnswer]) = (Err e, n2) /\
    deriveLinkHistoryObjectKey backupKeySecret phone = Ok key /\ w_objects (n_world n2) !! key = None /\
    (run do_cmd (readHistoryState phone) (n_world n2)).1 = None.
Proof.
  destruct (send_body (js "bob") phone new_key (Ok demo_history) demo_random 1700000000000
    (mkNet hw [Delivered; Delivered; Delivered; LostAnswer])) as [[r|e] n1] eqn:Hs; [vm_compute in Hs; discriminate Hs|].
  destruct (failed_upload_cleans hw (js "bob") phone new_key demo_sas (Ok demo_history) demo_random 1700000000000
    [Delivered; Delivered; Delivered; LostAnswer] e n1) as (n2 & key & Hsend & Hkey & Hobj & Hst & _).
  - exact demo_receiver.
  - reflexivity.
  - vm_compute. discriminate.
  - exact demo_sas_ok.
  - exact Hs.
  - assert (Hf : n_fates n1 = []) by (change n1 with (Err (A := SendHistoryResult) e, n1).2; rewrite <- Hs; vm_compute; reflexivity).
    rewrite Hf. discriminate.
  - exists e, n2, key. split; [exact Hsend|]. split; [exact Hkey|]. split; [exact Hobj|exact Hst].
Defined.
End Transfer.
