(* ===== verification/AuthSessions.v ===== *)
(** Login sessions of the server: refresh tokens that rotate in families, their
    revocation and their clean-up, the blacklist of token ids and the gate of
    authenticated requests. Sources: server/src/routes/auth.ts (issueTokens and the
    endpoints /refresh, /logout, /logout-all), routes/sessions.ts, routes/users.ts,
    utils/refreshReplay.ts, utils/sessionUtils.ts, utils/sessionRevocation.ts,
    utils/authGate.ts, utils/logoutKick.ts, utils/jwt.ts, middleware/auth.ts and the
    refresh-token step of jobs/cleanup.ts. Handlers are programs over the commands
    they send to Postgres and Redis (Effects), so that requests interleave. Rate
    limits, CSRF checks, console output and the deletion of push subscriptions on
    logout are left out. *)
From S2P Require Import Prelude Bytes Base64 Utf8 Text Js Sodium LocalAtRest AtRest OhttpConfig Effects.

(** ** JSON web tokens *)
(** The claims of the tokens the server signs; [iat] and [exp] are the library's. *)
Record Claims := mkClaims {
  cl_id : option jstr; cl_sub : option jstr; cl_role : option jstr; cl_deviceId : option jstr;
  cl_jti : option jstr; cl_scope : option jstr }.
Inductive Payload := PText (s : jstr) | PClaims (c : Claims).

(** jsonwebtoken under the secret of the server, and [crypto.randomUUID] as the
    sequence of its answers. Times of tokens are in whole seconds. *)
Class AuthPlatform := {
  jwt_sign : Claims -> Z -> jstr;
  jwt_verify : Z -> jstr -> option Payload;
  randomUUID : nat -> jstr }.
Class AuthPlatformLaws `{AuthPlatform} := {
  verify_signed : forall c exp seconds, seconds < exp -> jwt_verify seconds (jwt_sign c exp) = Some (PClaims c);
  verify_expired : forall c exp seconds, exp <= seconds -> jwt_verify seconds (jwt_sign c exp) = None;
  signed_nonempty : forall c exp, jwt_sign c exp <> [];
  uuid_nonempty : forall n, randomUUID n <> [];
  uuid_distinct : forall n m, randomUUID n = randomUUID m -> n = m }.

Module Sessions.

(** ** Tables *)
Record RefreshToken := mkToken {
  rt_id : jstr; rt_jti : jstr; rt_familyId : jstr; rt_deviceId : jstr; rt_revokedAt : option Z;
  rt_replacedById : option jstr; rt_createdAt : Z; rt_expiresAt : Z }.

Record UserRow := mkUser {
  us_role : option jstr; us_bannedAt : option Z; us_banReason : option jstr; us_lastActiveDay : Z }.

(** What reaches the clients and the other instances of the server. *)
Inductive Event :=
| ForceLogout (userId : option jstr) (reason : option jstr) (deviceId : option jstr)
| Kick (userId : option jstr) (reason : option jstr) (deviceId : option jstr)
| DeviceCacheInvalid (userId : option jstr).

Inductive thrown := ApiError (status : Z) (message : jstr) | Failure (what : string).

(** [w_devices]: device id and the id of its user. *)
Record world := mkWorld {
  w_tokens : list RefreshToken; w_devices : list (jstr * jstr); w_users : list (jstr * UserRow);
  w_redis : gmap jstr (entry jstr); w_db_up : bool; w_redis_up : bool; w_events : list Event;
  w_now : Z; w_serial : nat }.

Definition with_tokens (w : world) (l : list RefreshToken) (n : nat) : world :=
  mkWorld l (w_devices w) (w_users w) (w_redis w) (w_db_up w) (w_redis_up w) (w_events w) (w_now w) n.
Definition with_redis (w : world) (r : gmap jstr (entry jstr)) : world :=
  mkWorld (w_tokens w) (w_devices w) (w_users w) r (w_db_up w) (w_redis_up w) (w_events w) (w_now w) (w_serial w).
Definition with_users (w : world) (u : list (jstr * UserRow)) : world :=
  mkWorld (w_tokens w) (w_devices w) u (w_redis w) (w_db_up w) (w_redis_up w) (w_events w) (w_now w) (w_serial w).
Definition with_devices (w : world) (d : list (jstr * jstr)) : world :=
  mkWorld (w_tokens w) d (w_users w) (w_redis w) (w_db_up w) (w_redis_up w) (w_events w) (w_now w) (w_serial w).
Definition with_event (w : world) (e : Event) : world :=
  mkWorld (w_tokens w) (w_devices w) (w_users w) (w_redis w) (w_db_up w) (w_redis_up w) (w_events w ++ [e]) (w_now w) (w_serial w).
Definition with_now (w : world) (now : Z) : world :=
  mkWorld (w_tokens w) (w_devices w) (w_users w) (w_redis w) (w_db_up w) (w_redis_up w) (w_events w) now (w_serial w).

(** ** The statements sent to Postgres *)
Record TokenData := mkData {
  td_jti : jstr; td_familyId : jstr; td_deviceId : jstr; td_expiresAt : Z; td_replacedById : option jstr }.

(** The first argument of a statement is its [where] clause. A user id may be
    undefined: Prisma leaves out a condition whose value is undefined, and refuses a
    findUnique that has no other. *)
Inductive query : Type -> Type :=
| TokenFindUnique (jti : jstr) : query (option RefreshToken)
| TokenFindOwned (jti : jstr) : query (option (RefreshToken * option jstr))
| TokenFindNewest (where_ : RefreshToken -> bool) : query (option RefreshToken)
| TokenFindMany (where_ : RefreshToken -> bool) : query (list RefreshToken)
| TokenUpdate (jti : jstr) (revokedAt : Z) : query unit
| TokenUpdateMany (where_ : RefreshToken -> bool) (revokedAt : Z) : query Z
| TokenCreate (data : TokenData) : query unit
| TokenDeleteMany (where_ : RefreshToken -> bool) : query Z
| TokenDeleteOfUser (userId : jstr) : query unit
| UserFindUnique (id : option jstr) : query (option UserRow)
| UserTouchDay (id : jstr) (day : Z) : query unit
| DeviceFindMany (userId : option jstr) : query (list jstr)
| DeviceDeleteMany (id : jstr) (userId : option jstr) : query Z.

Inductive cmd : Type -> Type :=
| Db {X} (q : query X) : cmd (thrown + X)
| RedisGet (k : jstr) : cmd (thrown + option jstr)
| RedisSetEx (k : jstr) (ttlSeconds : Z) (v : jstr) : cmd (thrown + unit)
| RedisDel (k : jstr) : cmd (thrown + unit)
| Publish (e : Event) : cmd (thrown + unit)
| NewUuid : cmd jstr
| DateNow : cmd Z.

Definition revoke (at_ : Z) (t : RefreshToken) : RefreshToken :=
  mkToken (rt_id t) (rt_jti t) (rt_familyId t) (rt_deviceId t) (Some at_) (rt_replacedById t) (rt_createdAt t) (rt_expiresAt t).
Definition unlink (gone : list jstr) (t : RefreshToken) : RefreshToken :=
  match rt_replacedById t with
  | Some p => if bool_decide (p ∈ gone)
              then mkToken (rt_id t) (rt_jti t) (rt_familyId t) (rt_deviceId t) (rt_revokedAt t) None (rt_createdAt t) (rt_expiresAt t)
              else t
  | None => t
  end.
(** Deleting rows sets the references to them to null (the default of Prisma for an
    optional relation). *)
Definition delete_rows (P : RefreshToken -> bool) (l : list RefreshToken) : list RefreshToken :=
  map (unlink (map rt_id (List.filter P l))) (List.filter (fun t => negb (P t)) l).
Definition count (P : RefreshToken -> bool) (l : list RefreshToken) : Z := Z.of_nat (length (List.filter P l)).
Definition revoke_rows (P : RefreshToken -> bool) (at_ : Z) (l : list RefreshToken) : list RefreshToken :=
  map (fun t => if P t then revoke at_ t else t) l.

(** [orderBy: { createdAt: 'desc' }], first row *)
Definition newest (l : list RefreshToken) : option RefreshToken :=
  foldl (fun best t => match best with
    | Some b => if rt_createdAt b <? rt_createdAt t then Some t else best
    | None => Some t end) None l.

Definition has_jti (jti : jstr) (t : RefreshToken) : bool := bool_decide (rt_jti t = jti).
Definition in_family (f : jstr) (t : RefreshToken) : bool := bool_decide (rt_familyId t = f).
Definition on_device (d : jstr) (t : RefreshToken) : bool := bool_decide (rt_deviceId t = d).
Definition live (t : RefreshToken) : bool := match rt_revokedAt t with None => true | Some _ => false end.
Definition unlinked (t : RefreshToken) : bool := match rt_replacedById t with None => true | Some _ => false end.

Section Database.
Context `{AuthPlatform}.

(** The unique columns and the foreign keys of RefreshToken. *)
Definition create_token (d : TokenData) (w : world) : thrown + unit * world :=
  if existsb (has_jti (td_jti d)) (w_tokens w) then inl (Failure "P2002") else
  match assoc (td_deviceId d) (w_devices w) with
  | None => inl (Failure "P2003")
  | Some _ =>
      let row := mkToken (randomUUID (w_serial w)) (td_jti d) (td_familyId d) (td_deviceId d) None (td_replacedById d)
                   (w_now w) (td_expiresAt d) in
      let ok := inr (tt, with_tokens w (w_tokens w ++ [row]) (S (w_serial w))) in
      match td_replacedById d with
      | None => ok
      | Some p =>
          if existsb (fun t => bool_decide (rt_replacedById t = Some p)) (w_tokens w) then inl (Failure "P2002") else
          if existsb (fun t => bool_decide (rt_id t = p)) (w_tokens w) then ok else inl (Failure "P2003")
      end
  end.

Definition owner_is (w : world) (userId : jstr) (t : RefreshToken) : bool :=
  bool_decide (assoc (rt_deviceId t) (w_devices w) = Some userId).
Definition matches (wanted : option jstr) (x : jstr) : bool :=
  match wanted with Some y => bool_decide (x = y) | None => true end.

Definition do_query {X} (q : query X) (w : world) : (thrown + X) * world :=
  match q with
  | TokenFindUnique jti => (inr (List.find (has_jti jti) (w_tokens w)), w)
  | TokenFindOwned jti =>
      (inr (t ← List.find (has_jti jti) (w_tokens w); Some (t, assoc (rt_deviceId t) (w_devices w))), w)
  | TokenFindNewest P => (inr (newest (List.filter P (w_tokens w))), w)
  | TokenFindMany P => (inr (List.filter P (w_tokens w)), w)
  | TokenUpdate jti at_ =>
      if existsb (has_jti jti) (w_tokens w)
      then (inr tt, with_tokens w (revoke_rows (has_jti jti) at_ (w_tokens w)) (w_serial w))
      else (inl (Failure "P2025"), w)
  | TokenUpdateMany P at_ =>
      (inr (count P (w_tokens w)), with_tokens w (revoke_rows P at_ (w_tokens w)) (w_serial w))
  | TokenCreate d => match create_token d w with inl e => (inl e, w) | inr (_, w') => (inr tt, w') end
  | TokenDeleteMany P =>
      (inr (count P (w_tokens w)), with_tokens w (delete_rows P (w_tokens w)) (w_serial w))
  | TokenDeleteOfUser u => (inr tt, with_tokens w (delete_rows (owner_is w u) (w_tokens w)) (w_serial w))
  | UserFindUnique None => (inl (Failure "PrismaClientValidationError"), w)
  | UserFindUnique (Some id) => (inr (assoc id (w_users w)), w)
  | UserTouchDay id day =>
      (inr tt, with_users w (map (fun u =>
         if bool_decide (u.1 = id) && (us_lastActiveDay u.2 <? day)
         then (u.1, mkUser (us_role u.2) (us_bannedAt u.2) (us_banReason u.2) day) else u) (w_users w)))
  | DeviceFindMany u => (inr (map fst (List.filter (fun d => matches u d.2) (w_devices w))), w)
  | DeviceDeleteMany id u =>
      let gone := fun d => bool_decide (d.1 = id) && matches u d.2 in
      let kept := List.filter (fun d => negb (gone d)) (w_devices w) in
      let lost := fun t => existsb (fun d => gone d && bool_decide (d.1 = rt_deviceId t)) (w_devices w) in
      (inr (Z.of_nat (length (List.filter gone (w_devices w)))),
       with_devices (with_tokens w (delete_rows lost (w_tokens w)) (w_serial w)) kept)
  end.

Definition do_cmd (X : Type) (c : cmd X) (w : world) : X * world :=
  match c with
  | Db q => if w_db_up w then do_query q w else (inl (Failure "database"), w)
  | RedisGet k => (if w_redis_up w then inr (redis_get (w_now w) k (w_redis w)) else inl (Failure "redis"), w)
  | RedisSetEx k ttl v =>
      if w_redis_up w then (inr tt, with_redis w (redis_setEx (w_now w) k ttl v (w_redis w))) else (inl (Failure "redis"), w)
  | RedisDel k => if w_redis_up w then (inr tt, with_redis w (redis_del [k] (w_redis w))) else (inl (Failure "redis"), w)
  | Publish e => if w_redis_up w then (inr tt, with_event w e) else (inl (Failure "redis"), w)
  | NewUuid => (randomUUID (w_serial w), with_tokens w (w_tokens w) (S (w_serial w)))
  | DateNow => (w_now w, w)
  end.
End Database.

(** ** Handlers: cookies of the answer, exceptions, commands *)
Inductive Cookies := Kept | Cleared | Assigned (access refresh : jstr).
Definition hm (A : Type) : Type := Cookies -> prog cmd (Cookies * (thrown + A)).
#[global] Instance hm_ret : MRet hm := fun A a c => Ret (c, inr a).
#[global] Instance hm_bind : MBind hm := fun A B f m c =>
  r ← m c; match r with (c', inr a) => f a c' | (c', inl e) => Ret (c', inl e) end.

Definition fails {A} (e : thrown) : hm A := fun c => Ret (c, inl e).
Definition apiError {A} (status : Z) (message : string) : hm A := fails (ApiError status (js message)).
Definition sends_to {X} (q : cmd (thrown + X)) : hm X := fun c => r ← call q; Ret (c, r).
Definition plainly {X} (q : cmd X) : hm X := fun c => x ← call q; Ret (c, inr x).
Definition db {X} (q : query X) : hm X := sends_to (Db q).
Definition date_now : hm Z := plainly DateNow.
(** [try { m } catch { h }] *)
Definition catch {A} (m h : hm A) : hm A := fun c =>
  r ← m c; match r with (c', inl _) => h c' | (c', inr a) => Ret (c', inr a) end.
(** [try { m } catch {}] *)
Definition attempt (m : hm unit) : hm unit := catch m (mret tt).
Definition clearAuthCookies : hm unit := fun _ => Ret (Cleared, inr tt).
Definition setAuthCookies (access refresh : jstr) : hm unit := fun _ => Ret (Assigned access refresh, inr tt).
Fixpoint each {A} (f : A -> hm unit) (l : list A) : hm unit :=
  match l with [] => mret tt | a :: l' => f a ≫= fun _ => each f l' end.

Definition truthy (s : option jstr) : bool := match s with Some (_ :: _) => true | _ => false end.

(** ** utils/refreshReplay.ts *)
Definition DEFAULT_REFRESH_REPLAY_GRACE_MS : Z := 120000.
Definition MAX_REFRESH_REPLAY_GRACE_MS : Z := 24 * 60 * 60 * 1000.

Inductive RefreshReplayDecision := Benign | Reuse | SessionEnded.
Record LiveRefreshTip := mkTip { tip_id : jstr; tip_replacesId : option jstr; tip_createdAt : Z }.

(** [Number(raw)] of a whole number; [None] is NaN. *)
Definition refreshReplayGraceMs (raw : option jstr) : Z :=
  match raw with
  | None => DEFAULT_REFRESH_REPLAY_GRACE_MS
  | Some raw =>
      if bool_decide (trim raw = []) then DEFAULT_REFRESH_REPLAY_GRACE_MS else
      match js_Number raw with
      | None => DEFAULT_REFRESH_REPLAY_GRACE_MS
      | Some parsed => if parsed <=? 0 then DEFAULT_REFRESH_REPLAY_GRACE_MS else Z.min parsed MAX_REFRESH_REPLAY_GRACE_MS
      end
  end.

Definition classifyRefreshReplay (presentedId : jstr) (tip : option LiveRefreshTip) (now graceMs : Z) : RefreshReplayDecision :=
  match tip with
  | None => SessionEnded
  | Some tip =>
      let age := now - tip_createdAt tip in
      let withinGrace := (0 <=? age) && (age <=? graceMs) in
      let isImmediateSuccessor := bool_decide (tip_replacesId tip = Some presentedId) in
      if isImmediateSuccessor && withinGrace then Benign else Reuse
  end.

Definition sessionEndedError : thrown := ApiError 401 (js "Session has ended. Please login again.").

(** ** utils/jwt.ts *)
Definition ACCESS_TTL : Z := 15 * 60.
Definition REFRESH_TTL_SEC : Z := 60 * 60 * 24 * 30.
Definition DAY_BUCKET_MS : Z := 24 * 60 * 60 * 1000.

(** ** utils/logoutKick.ts *)
Record DeviceLogoutKick := mkKick { ki_userId : jstr; ki_deviceId : jstr; ki_reason : jstr }.
Definition planDeviceLogoutKick (userId deviceId : option jstr) (reason : option jstr) : option DeviceLogoutKick :=
  let userId := trim (default [] userId) in
  let deviceId := trim (default [] deviceId) in
  match userId, deviceId with
  | _ :: _, _ :: _ => Some (mkKick userId deviceId (default (js "logout") reason))
  | _, _ => None
  end.

Definition revokedKey (jti : jstr) : jstr := js "revoked_jti:" ++ jti.
Definition isEphemeralGuestSubject (sub : jstr) : bool := startsWith (js "guest_") sub.
(** [String(undefined)] in a template *)
Definition shown (s : option jstr) : jstr := default (js "undefined") s.

(** The environment: pepper, [REFRESH_REPLAY_GRACE_MS], and whether the server runs in
    production with the secret of development. *)
Record Config := mkConfig { cf_pepper : jstr; cf_grace : option jstr; cf_dev_secret : bool }.

Section Handlers.
Context `{AuthPlatform} `{ServerCrypto} (cf : Config).

(** utils/redisIdentity.ts *)
Definition identityTag (userId : option jstr) : jstr := AtRest.pepperedIdentifier (cf_pepper cf) (js "redis:v1:" ++ shown userId).
Definition identityKey (base : string) (userId : option jstr) : jstr := js base ++ js ":" ++ identityTag userId.
(** utils/redisResilience.ts *)
Definition invalidateActiveDeviceCache (userId : option jstr) : hm unit := attempt (sends_to (Publish (DeviceCacheInvalid userId))).

Definition newJti : hm jstr := plainly NewUuid.
Definition refreshExpiryDate : hm Z := now ← date_now; mret (now + REFRESH_TTL_SEC * 1000).

Definition signAccessToken (c : Claims) (ttlSeconds : Z) : hm jstr :=
  if cf_dev_secret cf then fails (Failure "JWT_SECRET must be set in production environment") else
  now ← date_now; mret (jwt_sign c (now / 1000 + ttlSeconds)).
Definition verifyJwt (token : jstr) : hm (option Payload) := now ← date_now; mret (jwt_verify (now / 1000) token).

Definition access_claims (userId : jstr) (role : option jstr) (deviceId jti : jstr) : Claims :=
  mkClaims (Some userId) None role (Some deviceId) (Some jti) None.
Definition refresh_claims (userId jti deviceId : jstr) : Claims :=
  mkClaims None (Some userId) None (Some deviceId) (Some jti) None.

Definition store_active_device (userId deviceId : jstr) : hm unit :=
  attempt (prevDevice ← sends_to (RedisGet (identityKey "active_device" (Some userId)));
           _ ← sends_to (RedisSetEx (identityKey "active_device" (Some userId)) (86400 * 30) deviceId);
           if bool_decide (prevDevice = Some deviceId) then mret tt else invalidateActiveDeviceCache (Some userId)).

Definition dayBucket (now : Z) : Z := now / DAY_BUCKET_MS * DAY_BUCKET_MS.

(** The answer is the access token, the refresh token and a family id. *)
Definition issueTokens (userId : jstr) (role : option jstr) (deviceId : jstr) (familyId : option jstr) : hm (jstr * jstr * jstr) :=
  accessJti ← newJti;
  access ← signAccessToken (access_claims userId role deviceId accessJti) ACCESS_TTL;
  refreshJti ← newJti;
  refresh ← signAccessToken (refresh_claims userId refreshJti deviceId) REFRESH_TTL_SEC;
  _ ← (if negb (bool_decide (role = Some (js "GUEST"))) && truthy (Some deviceId) then
         _ ← db (TokenDeleteOfUser userId);
         tokenFamilyId ← (if truthy familyId then mret (default [] familyId) else plainly NewUuid);
         expiresAt ← refreshExpiryDate;
         _ ← db (TokenCreate (mkData refreshJti tokenFamilyId deviceId expiresAt None));
         _ ← store_active_device userId deviceId;
         attempt (now ← date_now; db (UserTouchDay userId (dayBucket now)))
       else mret tt);
  family ← (if truthy familyId then mret (default [] familyId) else plainly NewUuid);
  mret (access, refresh, family).

(** How the endpoints that log a user in end. *)
Definition start_session (userId : jstr) (role : option jstr) (deviceId : jstr) : hm unit :=
  tokens ← issueTokens userId role deviceId None;
  setAuthCookies tokens.1.1 tokens.1.2.

Definition blacklist (now : Z) (t : RefreshToken) : hm unit :=
  let expiresIn := (rt_expiresAt t - now) / 1000 in
  if 0 <? expiresIn then attempt (sends_to (RedisSetEx (revokedKey (rt_jti t)) expiresIn (js "1"))) else mret tt.

(** The tokens of the family are blacklisted in parallel, in any order. *)
Definition revokeFamily (familyId : jstr) : hm unit :=
  at_ ← date_now;
  _ ← db (TokenUpdateMany (fun t => in_family familyId t && live t) at_);
  familyTokens ← db (TokenFindMany (in_family familyId));
  now ← date_now;
  each (blacklist now) familyTokens.

(** ** POST /api/auth/refresh *)
(** [basis.revokedAt || basis.replacedById] *)
Definition superseded (t : RefreshToken) : bool := negb (live t) || truthy (rt_replacedById t).

(** The token the rotation starts from. *)
Definition replay_check (basis : RefreshToken) (sub : jstr) : hm RefreshToken :=
  if negb (superseded basis) then mret basis else
  tip ← db (TokenFindNewest (fun t => in_family (rt_familyId basis) t && on_device (rt_deviceId basis) t && live t && unlinked t));
  now ← date_now;
  match classifyRefreshReplay (rt_id basis) ((fun t => mkTip (rt_id t) (rt_replacedById t) (rt_createdAt t)) <$> tip)
          now (refreshReplayGraceMs (cf_grace cf)), tip with
  | Benign, Some tip => mret tip
  | SessionEnded, _ => _ ← clearAuthCookies; fails sessionEndedError
  | _, _ =>
      _ ← revokeFamily (rt_familyId basis);
      _ ← clearAuthCookies;
      _ ← attempt (sends_to (Publish (ForceLogout (Some sub) (Some (js "session_hijacked")) (Some (rt_deviceId basis)))));
      apiError 401 "Refresh token reuse detected. All sessions in this family have been revoked for security."
  end.

Definition rotate (basis : RefreshToken) (sub : jstr) : hm unit :=
  now ← date_now;
  _ ← (if rt_expiresAt basis <? now then _ ← clearAuthCookies; apiError 401 "Refresh token expired" else mret tt);
  user ← db (UserFindUnique (Some sub));
  match user with
  | None => apiError 401 "User not found"
  | Some user =>
      match us_bannedAt user with
      | Some _ =>
          fails (ApiError 403 (js "ACCESS DENIED: " ++
            (if truthy (us_banReason user) then default [] (us_banReason user) else js "Account suspended")))
      | None =>
          newJtiValue ← newJti;
          at_ ← date_now;
          _ ← db (TokenUpdate (rt_jti basis) at_);
          accessJti ← newJti;
          access ← signAccessToken (access_claims sub (us_role user) (rt_deviceId basis) accessJti) ACCESS_TTL;
          refresh ← signAccessToken (refresh_claims sub newJtiValue (rt_deviceId basis)) REFRESH_TTL_SEC;
          expiresAt ← refreshExpiryDate;
          _ ← db (TokenCreate (mkData newJtiValue (rt_familyId basis) (rt_deviceId basis) expiresAt (Some (rt_id basis))));
          _ ← store_active_device sub (rt_deviceId basis);
          setAuthCookies access refresh
      end
  end.

Definition refresh_basis (jti sub : jstr) : hm RefreshToken :=
  basis ← db (TokenFindUnique jti);
  match basis with
  | None =>
      if isEphemeralGuestSubject sub then apiError 401 "Guest sessions are ephemeral and cannot be refreshed."
      else _ ← clearAuthCookies; apiError 401 "Refresh token not found. Please login again."
  | Some basis => replay_check basis sub
  end.

Definition refresh_session (jti sub : jstr) : hm unit := basis ← refresh_basis jti sub; rotate basis sub.

(** [rt]: the cookie *)
Definition refresh_endpoint (rt : option jstr) : hm unit :=
  if negb (truthy rt) then apiError 401 "No refresh token" else
  payload ← verifyJwt (default [] rt);
  match payload with
  | Some (PClaims c) =>
      if truthy (cl_jti c) && truthy (cl_sub c) && truthy (cl_deviceId c)
      then refresh_session (default [] (cl_jti c)) (default [] (cl_sub c))
      else _ ← clearAuthCookies; apiError 401 "Invalid refresh token"
  | _ => _ ← clearAuthCookies; apiError 401 "Invalid refresh token"
  end.

(** ** POST /api/auth/logout *)
Definition logout_token (c : Claims) (jti : jstr) : hm unit :=
  stored ← db (TokenFindUnique jti);
  loggedOutDeviceId ← match stored with
    | Some stored => _ ← revokeFamily (rt_familyId stored); mret (Some (rt_deviceId stored))
    | None => at_ ← date_now; _ ← db (TokenUpdateMany (has_jti jti) at_); mret None
    end;
  _ ← (if truthy (cl_sub c) then
         attempt (_ ← sends_to (RedisDel (identityKey "active_device" (cl_sub c)));
                  invalidateActiveDeviceCache (cl_sub c))
       else mret tt);
  match planDeviceLogoutKick (cl_sub c) loggedOutDeviceId (Some (js "logout")) with
  | Some k =>
      attempt (_ ← sends_to (Publish (ForceLogout (Some (ki_userId k)) (Some (ki_reason k)) (Some (ki_deviceId k))));
               sends_to (Publish (Kick (Some (ki_userId k)) (Some (js "LOGOUT")) (Some (ki_deviceId k)))))
  | None => mret tt
  end.
Definition logout (rt : option jstr) : hm unit :=
  _ ← attempt (payload ← verifyJwt (default [] rt);
               match payload with
               | Some (PClaims c) => match cl_jti c with Some jti => logout_token c jti | None => mret tt end
               | _ => mret tt
               end);
  clearAuthCookies.

(** ** POST /api/auth/logout-all; [userId] is the id in the claims of the request. *)
Definition logout_all (userId : option jstr) : hm Z :=
  deviceIds ← db (DeviceFindMany userId);
  let theirs := fun t => existsb (fun d => bool_decide (d = rt_deviceId t)) deviceIds && live t in
  tokensToRevoke ← db (TokenFindMany theirs);
  at_ ← date_now;
  updated ← db (TokenUpdateMany theirs at_);
  _ ← each (fun t => now ← date_now; blacklist now t) tokensToRevoke;
  _ ← clearAuthCookies;
  _ ← attempt (_ ← sends_to (RedisDel (identityKey "active_device" userId)); invalidateActiveDeviceCache userId);
  _ ← attempt (_ ← sends_to (Publish (ForceLogout userId (Some (js "logout_all")) None));
               sends_to (Publish (Kick userId (Some (js "LOGOUT_ALL")) None)));
  mret updated.

(** ** utils/sessionRevocation.ts and DELETE /api/sessions/:jti *)
Fixpoint blacklist_live (now : Z) (l : list RefreshToken) : hm (list jstr) :=
  match l with
  | [] => mret []
  | t :: l' =>
      let expiresIn := (rt_expiresAt t - now) / 1000 in
      if 0 <? expiresIn then
        _ ← attempt (sends_to (RedisSetEx (revokedKey (rt_jti t)) expiresIn (js "1")));
        js_ ← blacklist_live now l'; mret (rt_jti t :: js_)
      else blacklist_live now l'
  end.
Record SessionRevocationResult := mkRevocation { sr_deviceId : jstr; sr_familyId : jstr; sr_revokedJtis : list jstr }.
Definition revokeSessionFamily (jti : jstr) (userId : option jstr) : hm SessionRevocationResult :=
  token ← db (TokenFindOwned jti);
  match token with
  | None => apiError 404 "Session not found or unauthorized"
  | Some (token, owner) =>
      if negb (bool_decide (owner = userId)) then apiError 404 "Session not found or unauthorized" else
      now ← date_now;
      _ ← db (TokenUpdateMany (fun t => in_family (rt_familyId token) t && live t) now);
      familyTokens ← db (TokenFindMany (in_family (rt_familyId token)));
      revokedJtis ← blacklist_live now familyTokens;
      mret (mkRevocation (rt_deviceId token) (rt_familyId token) revokedJtis)
  end.
Definition delete_session (userId : option jstr) (jti : jstr) : hm unit :=
  revocation ← revokeSessionFamily jti userId;
  attempt (_ ← sends_to (Publish (ForceLogout userId None (Some (sr_deviceId revocation))));
           sends_to (Publish (Kick userId None (Some (sr_deviceId revocation))))).

(** ** routes/users.ts: removing a device, and the second logout *)
Definition remove_device (userId : option jstr) (targetDeviceId : jstr) : hm unit :=
  deletedInfo ← db (DeviceDeleteMany targetDeviceId userId);
  if deletedInfo =? 0 then apiError 404 "Device not found or already removed." else
  _ ← db (TokenDeleteMany (on_device targetDeviceId));
  attempt (sends_to (Publish (Kick userId None (Some targetDeviceId)))).

Definition me_logout (rt : option jstr) : hm unit :=
  _ ← (if truthy rt then
         attempt (payload ← verifyJwt (default [] rt);
                  match payload with
                  | Some (PClaims c) => if truthy (cl_jti c) then _ ← db (TokenDeleteMany (has_jti (default [] (cl_jti c)))); mret tt else mret tt
                  | _ => mret tt
                  end)
       else mret tt);
  clearAuthCookies.

(** ** jobs/cleanup.ts, step refresh_token *)
Definition REVOKED_REFRESH_TOKEN_RETENTION_MS : Z := 7 * 24 * 60 * 60 * 1000.
Definition cleanup_due (now : Z) (t : RefreshToken) : bool :=
  (rt_expiresAt t <=? now) ||
  match rt_revokedAt t with Some r => r <? now - REVOKED_REFRESH_TOKEN_RETENTION_MS | None => false end.
Definition cleanup_tokens (now : Z) : hm Z := db (TokenDeleteMany (cleanup_due now)).

(** ** utils/authGate.ts *)
Inductive TokenGateResult := GateOk | GateRefused (status : Z) (error : jstr) (reason : option jstr).
Inductive BanVerdict := NotBanned | Banned (reason : option jstr).
Definition SUSPENDED_ERROR : jstr := js "ACCESS DENIED: Your account has been suspended.".
Definition BAN_CACHE_TTL_SECONDS : Z := 900.
Definition banKey (userId : option jstr) : jstr := js "ban_status:" ++ shown userId.

Definition verdict (user : option UserRow) : BanVerdict :=
  match user with Some u => match us_bannedAt u with Some _ => Banned (us_banReason u) | None => NotBanned end | None => NotBanned end.

Definition isUserBanned (userId : option jstr) : hm BanVerdict :=
  catch
    (cachedStatus ← sends_to (RedisGet (banKey userId));
     if bool_decide (cachedStatus = Some (js "BANNED")) then mret (Banned None) else
     if truthy cachedStatus then mret NotBanned else
     user ← db (UserFindUnique userId);
     let v := verdict user in
     _ ← attempt (sends_to (RedisSetEx (banKey userId) BAN_CACHE_TTL_SECONDS
           (match v with Banned _ => js "BANNED" | NotBanned => js "OK" end)));
     mret v)
    (catch (user ← db (UserFindUnique userId); mret (verdict user)) (mret NotBanned)).

Definition is_revoked (jti : jstr) : hm bool :=
  catch (v ← sends_to (RedisGet (revokedKey jti)); mret (truthy v)) (mret false).

Definition evaluateTokenGate (id jti : option jstr) : hm TokenGateResult :=
  revoked ← (if truthy jti then is_revoked (default [] jti) else mret false);
  if (revoked : bool) then mret (GateRefused 401 (js "Token revoked. Please login again.") None) else
  ban ← isUserBanned id;
  match ban with Banned reason => mret (GateRefused 403 SUSPENDED_ERROR reason) | NotBanned => mret GateOk end.

(** ** middleware/auth.ts *)
(** Cookies [at] and [embed_at], header Authorization. *)
Definition request_token (at_ embed_at authorization : option jstr) : option jstr :=
  if truthy at_ then at_ else if truthy embed_at then embed_at else
  match authorization with
  | Some h => if startsWith (js "Bearer ") h then nth_error (split 32 h) 1 else None
  | None => None
  end.
Definition isOhttpScopedPayload (c : Claims) : bool := bool_decide (cl_scope c = Some (js "ohttp")).
(** The claims the handlers behind the middleware see; a payload that is a text has none. *)
Definition requireAuth (token : option jstr) (method originalUrl : jstr) : hm Claims :=
  if negb (truthy token) then apiError 401 "Unauthorized" else
  payload ← verifyJwt (default [] token);
  match payload with
  | None => apiError 401 "Unauthorized"
  | Some payload =>
      let c := match payload with PClaims c => c | PText _ => mkClaims None None None None None None end in
      if isOhttpScopedPayload c && negb (Gateway.isOhttpTargetAllowed method originalUrl Gateway.OHTTP_DEFAULT_ALLOWLIST)
      then apiError 403 "OHTTP_SCOPE_DENIED" else
      gate ← evaluateTokenGate (cl_id c) (cl_jti c);
      match gate with
      | GateOk => mret c
      | GateRefused status error _ => fails (ApiError status error)
      end
  end.
End Handlers.
End Sessions.

(** A concrete instance: tokens are not signed and uuids are numbers, with the
    documented laws. *)
Module ToyAuth.
Definition enc_opt (o : option jstr) : jstr := match o with None => [0] | Some s => 1 :: Z.of_nat (length s) :: s end.
Definition dec_opt (l : jstr) : option (option jstr * jstr) :=
  match l with
  | 0 :: r => Some (None, r)
  | 1 :: n :: r => Some (Some (take (Z.to_nat n) r), drop (Z.to_nat n) r)
  | _ => None
  end.
Definition enc_claims (c : Claims) : jstr :=
  enc_opt (cl_id c) ++ enc_opt (cl_sub c) ++ enc_opt (cl_role c) ++ enc_opt (cl_deviceId c) ++ enc_opt (cl_jti c) ++ enc_opt (cl_scope c).
Definition dec_claims (l : jstr) : option Claims :=
  '(a, l) ← dec_opt l; '(b, l) ← dec_opt l; '(c, l) ← dec_opt l; '(d, l) ← dec_opt l; '(e, l) ← dec_opt l; '(f, _) ← dec_opt l;
  Some (mkClaims a b c d e f).

Lemma dec_enc o r : dec_opt (enc_opt o ++ r) = Some (o, r).
Proof. destruct o as [s|]; [|done]. cbn. rewrite Nat2Z.id. by rewrite take_app_length, drop_app_length. Qed.

#[export] Instance toy_auth : AuthPlatform := {|
  jwt_sign c exp := exp :: enc_claims c ++ [0];
  jwt_verify seconds t := match t with exp :: r => if seconds <? exp then PClaims <$> dec_claims r else None | [] => None end;
  randomUUID n := [117; Z.of_nat n] |}.

#[export] Instance toy_auth_laws : AuthPlatformLaws.
Proof.
  split.
  - intros c exp s Hs. cbn. rewrite (proj2 (Z.ltb_lt s exp)) by done. unfold dec_claims, enc_claims. rewrite <- !app_assoc.
    do 6 (rewrite dec_enc; cbn [mbind option_bind]). by destruct c.
  - intros c exp s Hs. cbn. by rewrite (proj2 (Z.ltb_ge s exp)).
  - done.
  - done.
  - cbn. intros n m [= E]. lia.
Qed.

Definition cf0 : Sessions.Config := Sessions.mkConfig (js "pepper") None false.
Definition bob : Sessions.UserRow := Sessions.mkUser None None None 0.
(** Two users with a device each, nobody logged in. *)
Definition w0 : Sessions.world :=
  Sessions.mkWorld [] [(js "phone", js "bob"); (js "laptop", js "eve")] [(js "bob", bob); (js "eve", bob)] ∅ true true [] 5000 0%nat.
End ToyAuth.
