(* ===== verification/AuthSessionRules.v ===== *)
(** What the sessions of AuthSessions guarantee, and where the rotation of refresh
    tokens departs from its documentation. *)
From S2P Require Import Prelude Bytes Base64 Utf8 Text Js Sodium LocalAtRest AtRest OhttpConfig Effects AuthSessions.
Import Sessions.

Section Rules.
Context `{AuthPlatformLaws} `{ServerCrypto} (cf : Config).
Notation run := (Effects.run do_cmd).

(** ** Running handlers *)
Lemma run_hm_bind {A B} (m : hm A) (f : A -> hm B) c w :
  run ((m ≫= f) c) w =
    match run (m c) w with ((c', inr a), w') => run (f a c') w' | ((c', inl e), w') => ((c', inl e), w') end.
Proof.
  change ((m ≫= f) c) with (m c ≫= fun r => match r with (c', inr a) => f a c' | (c', inl e) => Ret (c', inl e) end).
  rewrite run_bind. by destruct (run (m c) w) as [[c' [e|a]] w'].
Qed.

Lemma run_catch {A} (m h : hm A) c w :
  run (catch m h c) w =
    match run (m c) w with ((c', inl _), w') => run (h c') w' | ((c', inr a), w') => ((c', inr a), w') end.
Proof. unfold catch. rewrite run_bind. by destruct (run (m c) w) as [[c' [e|a]] w']. Qed.

Lemma run_db {X} (q : query X) c w : w_db_up w = true -> run (db q c) w = ((c, (do_query q w).1), (do_query q w).2).
Proof. intros Hup. unfold db, sends_to. rewrite run_call. cbn. rewrite Hup. by destruct (do_query q w). Qed.

Lemma bind_step {A B} (m : hm A) (f : A -> hm B) c w c' a w' :
  run (m c) w = ((c', inr a), w') -> run ((m ≫= f) c) w = run (f a c') w'.
Proof. intros E. by rewrite run_hm_bind, E. Qed.

Lemma bind_throw {A B} (m : hm A) (f : A -> hm B) c w c' e w' :
  run (m c) w = ((c', inl e), w') -> run ((m ≫= f) c) w = ((c', inl e), w').
Proof. intros E. by rewrite run_hm_bind, E. Qed.

(** ** What a handler leaves as it is *)
Definition hmoves {A} (R : relation world) (m : hm A) : Prop := forall c w, R w (run (m c) w).2.

Section Frames.
Context (R : relation world) `{!PreOrder R}.

Lemma hmoves_ret {A} (a : A) : hmoves R (mret a).
Proof. intros c w. cbn. reflexivity. Qed.
Lemma hmoves_fails {A} e : hmoves R (fails (A := A) e).
Proof. intros c w. cbn. reflexivity. Qed.
Lemma hmoves_bind {A B} (m : hm A) (f : A -> hm B) : hmoves R m -> (forall a, hmoves R (f a)) -> hmoves R (m ≫= f).
Proof.
  intros Hm Hf c w. rewrite run_hm_bind. specialize (Hm c w). destruct (run (m c) w) as [[c' [e|a]] w']; [done|].
  etransitivity; [exact Hm|apply Hf].
Qed.
Lemma hmoves_catch {A} (m h : hm A) : hmoves R m -> hmoves R h -> hmoves R (catch m h).
Proof.
  intros Hm Hh c w. rewrite run_catch. specialize (Hm c w). destruct (run (m c) w) as [[c' [e|a]] w']; [|done].
  etransitivity; [exact Hm|apply Hh].
Qed.
Lemma hmoves_each {A} (f : A -> hm unit) l : (forall a, a ∈ l -> hmoves R (f a)) -> hmoves R (each f l).
Proof.
  induction l as [|a l IH]; intros Hf; [apply hmoves_ret|]. cbn [each].
  apply hmoves_bind; [apply Hf; left|]. intros _. apply IH. intros b Hb. apply Hf. by right.
Qed.
Lemma hmoves_send {X} (q : cmd (thrown + X)) : (forall w, R w (do_cmd _ q w).2) -> hmoves R (sends_to q).
Proof. intros Hq c w. unfold sends_to. rewrite run_call. specialize (Hq w). by destruct (do_cmd _ q w). Qed.
Lemma hmoves_plain {X} (q : cmd X) : (forall w, R w (do_cmd _ q w).2) -> hmoves R (plainly q).
Proof. intros Hq c w. unfold plainly. rewrite run_call. specialize (Hq w). by destruct (do_cmd _ q w). Qed.
Lemma hmoves_now : hmoves R date_now.
Proof. apply hmoves_plain. intros w. cbn. reflexivity. Qed.
Lemma hmoves_clear : hmoves R clearAuthCookies.
Proof. intros c w. cbn. reflexivity. Qed.
End Frames.

(** The tables, the clock and the uuids stay; the Redis keys outside [K] too. *)
Record frame (K : jstr -> Prop) (w w' : world) : Prop := mkFrame {
  fr_tokens : w_tokens w' = w_tokens w; fr_devices : w_devices w' = w_devices w;
  fr_users : w_users w' = w_users w; fr_db : w_db_up w' = w_db_up w;
  fr_redis : w_redis_up w' = w_redis_up w; fr_now : w_now w' = w_now w; fr_serial : w_serial w' = w_serial w;
  fr_keys : forall k, ~ K k -> w_redis w' !! k = w_redis w !! k }.

#[export] Instance frame_preorder K : PreOrder (frame K).
Proof.
  split; [by intros w; split|]. intros w1 w2 w3 [] [? ? ? ? ? ? ? Hk']. split; try congruence. intros k Hk.
  rewrite (Hk' k Hk). by apply fr_keys0.
Qed.

Lemma frame_weaken (K K' : jstr -> Prop) w w' : (forall k, K k -> K' k) -> frame K w w' -> frame K' w w'.
Proof. intros HK []. split; try done. intros k Hk. apply fr_keys0. by intros ?%HK. Qed.

Lemma frame_setEx (K : jstr -> Prop) k ttl v : K k -> hmoves (frame K) (sends_to (RedisSetEx k ttl v)).
Proof.
  intros Hk. apply hmoves_send. intros w. cbn. destruct (w_redis_up w) eqn:E; cbn; [|by split].
  split; try done. intros k' Hk'. cbn. unfold redis_setEx. apply lookup_insert_ne. by intros ->.
Qed.
Lemma frame_del (K : jstr -> Prop) k : K k -> hmoves (frame K) (sends_to (RedisDel k)).
Proof.
  intros Hk. apply hmoves_send. intros w. cbn. destruct (w_redis_up w) eqn:E; cbn; [|by split].
  split; try done. intros k' Hk'. cbn. apply lookup_delete_ne. by intros ->.
Qed.
Lemma frame_get K k : hmoves (frame K) (sends_to (RedisGet k)).
Proof. apply hmoves_send. intros w. cbn. reflexivity. Qed.
Lemma frame_publish K e : hmoves (frame K) (sends_to (Publish e)).
Proof. apply hmoves_send. intros w. cbn. by destruct (w_redis_up w) eqn:E. Qed.

Ltac framed := repeat match goal with
  | |- hmoves _ (_ ≫= _) => apply (hmoves_bind _); [|intros ?]
  | |- hmoves _ (attempt _) => apply (hmoves_catch _)
  | |- hmoves _ (catch _ _) => apply (hmoves_catch _)
  | |- hmoves _ (mret _) => apply (hmoves_ret _)
  | |- hmoves _ (fails _) => apply (hmoves_fails _)
  | |- hmoves _ (apiError _ _) => apply (hmoves_fails _)
  | |- hmoves _ date_now => apply (hmoves_now _)
  | |- hmoves _ clearAuthCookies => apply (hmoves_clear _)
  | |- hmoves _ (sends_to (RedisGet _)) => apply frame_get
  | |- hmoves _ (sends_to (Publish _)) => apply frame_publish
  | |- hmoves _ (sends_to (RedisSetEx _ _ _)) => apply frame_setEx
  | |- hmoves _ (sends_to (RedisDel _)) => apply frame_del
  | |- hmoves _ (if ?b then _ else _) => destruct b eqn:?
  | |- hmoves _ (match ?x with _ => _ end) => destruct x eqn:?
  end.

Lemma frame_user K id : hmoves (frame K) (db (UserFindUnique id)).
Proof. apply hmoves_send. intros w. cbn. by destruct (w_db_up w), id. Qed.
Lemma frame_require token m url : hmoves (frame (fun _ => True)) (requireAuth token m url).
Proof. unfold requireAuth, verifyJwt, evaluateTokenGate, is_revoked, isUserBanned. framed; try done; apply frame_user. Qed.

Lemma attempt_ok (m : hm unit) c w : (run (m c) w).1.1 = c -> run (attempt m c) w = ((c, inr tt), (run (m c) w).2).
Proof. intros Hc. unfold attempt. rewrite run_catch. destruct (run (m c) w) as [[c' [e|[]]] w']; cbn in *; by subst. Qed.

Lemma attempt_total (m : hm unit) c w : exists c' w', run (attempt m c) w = ((c', inr tt), w').
Proof. unfold attempt. rewrite run_catch. destruct (run (m c) w) as [[c' [e|[]]] w']; by eexists _, _. Qed.

(** A handler that does not touch the cookies of the answer. *)
Definition keeps_cookies {A} (m : hm A) : Prop := forall c w, (run (m c) w).1.1 = c.
Lemma kc_bind {A B} (m : hm A) (f : A -> hm B) : keeps_cookies m -> (forall a, keeps_cookies (f a)) -> keeps_cookies (m ≫= f).
Proof.
  intros Hm Hf c w. rewrite run_hm_bind. specialize (Hm c w). destruct (run (m c) w) as [[c' [e|a]] w']; cbn in *; [done|].
  subst. apply Hf.
Qed.
Lemma kc_catch {A} (m h : hm A) : keeps_cookies m -> keeps_cookies h -> keeps_cookies (catch m h).
Proof.
  intros Hm Hh c w. rewrite run_catch. specialize (Hm c w). destruct (run (m c) w) as [[c' [e|a]] w']; cbn in *; [|done].
  subst. apply Hh.
Qed.
Lemma kc_send {X} (q : cmd (thrown + X)) : keeps_cookies (sends_to q).
Proof. intros c w. unfold sends_to. rewrite run_call. by destruct (do_cmd _ q w). Qed.
Lemma kc_plain {X} (q : cmd X) : keeps_cookies (plainly q).
Proof. intros c w. unfold plainly. rewrite run_call. by destruct (do_cmd _ q w). Qed.
Lemma kc_ret {A} (a : A) : keeps_cookies (mret a).
Proof. by intros c w. Qed.
Lemma kc_each {A} (f : A -> hm unit) l : (forall a, keeps_cookies (f a)) -> keeps_cookies (each f l).
Proof. intros Hf. induction l; cbn [each]; [apply kc_ret|]. apply kc_bind; [done|]. by intros. Qed.

(** ** Parts of the handlers *)
Definition after_uuid (w : world) : world := with_tokens w (w_tokens w) (S (w_serial w)).

Lemma run_now c w : run (date_now c) w = ((c, inr (w_now w)), w).
Proof. reflexivity. Qed.
Lemma run_ret {A} (a : A) c w : run ((mret a : hm A) c) w = ((c, inr a), w).
Proof. reflexivity. Qed.
Lemma run_uuid c w : run (plainly NewUuid c) w = ((c, inr (randomUUID (w_serial w))), after_uuid w).
Proof. reflexivity. Qed.
Lemma run_sign cl ttl c w : cf_dev_secret cf = false ->
  run (signAccessToken cf cl ttl c) w = ((c, inr (jwt_sign cl (w_now w / 1000 + ttl))), w).
Proof. intros Hs. unfold signAccessToken. by rewrite Hs. Qed.
Lemma run_expiry c w : run (refreshExpiryDate c) w = ((c, inr (w_now w + REFRESH_TTL_SEC * 1000)), w).
Proof. reflexivity. Qed.
Lemma run_verify token c w : run (verifyJwt token c) w = ((c, inr (jwt_verify (w_now w / 1000) token)), w).
Proof. reflexivity. Qed.

Definition active_key (k : jstr) : Prop := exists u, k = identityKey cf "active_device" u.

Lemma attempt_frame K (m : hm unit) c w : hmoves (frame K) m -> keeps_cookies m ->
  exists w', run (attempt m c) w = ((c, inr tt), w') /\ frame K w w'.
Proof. intros Hm Hc. rewrite attempt_ok by apply Hc. eexists. split; [done|]. apply Hm. Qed.

Lemma store_active_run u d c w : exists w', run (store_active_device cf u d c) w = ((c, inr tt), w') /\ frame active_key w w'.
Proof.
  apply attempt_frame; unfold invalidateActiveDeviceCache.
  - framed; by eexists.
  - apply kc_bind; [apply kc_send|]. intros p. apply kc_bind; [apply kc_send|]. intros _.
    destruct (bool_decide _); [apply kc_ret|]. apply kc_catch; [apply kc_send|apply kc_ret].
Qed.

(** The columns of a user the handlers decide on. *)
Definition standing (u : UserRow) : option jstr * option Z * option jstr := (us_role u, us_bannedAt u, us_banReason u).
Definition same_standing (w w' : world) : Prop :=
  forall id, standing <$> assoc id (w_users w') = standing <$> assoc id (w_users w).

(** The rest of the world that a change of the token table leaves. *)
Record around (K : jstr -> Prop) (w w' : world) : Prop := mkAround {
  ar_devices : w_devices w' = w_devices w; ar_standing : same_standing w w'; ar_db : w_db_up w' = w_db_up w;
  ar_redis : w_redis_up w' = w_redis_up w; ar_now : w_now w' = w_now w; ar_serial : (w_serial w <= w_serial w')%nat;
  ar_keys : forall k, ~ K k -> w_redis w' !! k = w_redis w !! k }.

#[export] Instance around_preorder K : PreOrder (around K).
Proof.
  split; [by intros w; split|]. intros w1 w2 w3 [? Hu ? ? ? ? Hk] [? Hu' ? ? ? ? Hk']. split; try congruence; try lia.
  intros k Hn. by rewrite (Hk' k Hn), (Hk k Hn).
Qed.

Lemma frame_around K w w' : frame K w w' -> around K w w'.
Proof. intros []. split; try done; try lia. intros id. congruence. Qed.
Lemma tokens_around K w l n : (w_serial w <= n)%nat -> around K w (with_tokens w l n).
Proof. intros Hn. by split. Qed.

Lemma touch_day_run u day c w : w_db_up w = true -> exists w', run (db (UserTouchDay u day) c) w = ((c, inr tt), w') /\
  around active_key w w' /\ w_tokens w' = w_tokens w.
Proof.
  intros Hup. rewrite run_db by done. cbn. eexists. split; [done|]. split; [|done]. split; try done.
  intros id. cbn. induction (w_users w) as [|[k v] l IH]; [done|]. cbn.
  destruct (bool_decide (k = u) && (us_lastActiveDay v <? day)); cbn; by destruct (bool_decide (id = k)).
Qed.

(** Uuids that are still to come are not in the table. *)
Definition fresh_ids (w : world) : Prop := forall t k, t ∈ w_tokens w -> (w_serial w <= k)%nat ->
  randomUUID k <> rt_id t /\ randomUUID k <> rt_jti t /\ randomUUID k <> rt_familyId t /\ rt_replacedById t <> Some (randomUUID k).

Definition same_ids (t t' : RefreshToken) : Prop :=
  rt_id t' = rt_id t /\ rt_jti t' = rt_jti t /\ rt_familyId t' = rt_familyId t /\ rt_deviceId t' = rt_deviceId t /\
  rt_createdAt t' = rt_createdAt t /\ rt_expiresAt t' = rt_expiresAt t.

Lemma unlink_ids gone t : same_ids t (unlink gone t) /\ rt_revokedAt (unlink gone t) = rt_revokedAt t /\
  (rt_replacedById (unlink gone t) = rt_replacedById t \/ rt_replacedById (unlink gone t) = None).
Proof. unfold unlink. destruct (rt_replacedById t) as [p|] eqn:E; [destruct (bool_decide _)|]; cbn; unfold same_ids; rewrite ?E; naive_solver. Qed.

Lemma delete_rows_elem P l t' : t' ∈ delete_rows P l -> exists t, t ∈ l /\ P t = false /\ same_ids t t' /\
  rt_revokedAt t' = rt_revokedAt t /\ (rt_replacedById t' = rt_replacedById t \/ rt_replacedById t' = None).
Proof.
  unfold delete_rows. intros Hin.
  apply list_elem_of_In, in_map_iff in Hin as (t & <- & Hin). apply filter_In in Hin as [Hin HP].
  exists t. split; [by apply list_elem_of_In|]. split; [by apply negb_true_iff|apply unlink_ids].
Qed.

Lemma revoke_rows_elem P at_ l t' : t' ∈ revoke_rows P at_ l -> exists t, t ∈ l /\ t' = if P t then revoke at_ t else t.
Proof. unfold revoke_rows. intros Hin. apply list_elem_of_In, in_map_iff in Hin as (t & <- & Hin). exists t. split; [by apply list_elem_of_In|done]. Qed.

Lemma truthy_some s : s <> [] -> truthy (Some s) = true.
Proof. by destruct s. Qed.

Lemma no_jti j l : (forall t, t ∈ l -> j <> rt_jti t) -> existsb (has_jti j) l = false.
Proof.
  intros Hl. apply not_true_iff_false. intros (t & Hin & Hj)%existsb_exists. apply bool_decide_eq_true in Hj.
  by apply (Hl t); [apply list_elem_of_In|].
Qed.

Lemma run_create d row c w : w_db_up w = true -> create_token d w = inr (tt, row) ->
  run (db (TokenCreate d) c) w = ((c, inr tt), row).
Proof. intros Hup Hc. rewrite run_db by done. cbn. by rewrite Hc. Qed.

Lemma create_root d o w : assoc (td_deviceId d) (w_devices w) = Some o -> td_replacedById d = None ->
  (forall t, t ∈ w_tokens w -> td_jti d <> rt_jti t) ->
  create_token d w = inr (tt, with_tokens w (w_tokens w ++ [mkToken (randomUUID (w_serial w)) (td_jti d) (td_familyId d)
    (td_deviceId d) None None (w_now w) (td_expiresAt d)]) (S (w_serial w))).
Proof. intros Hd Hr Hj. unfold create_token. by rewrite no_jti, Hd, Hr by done. Qed.

Lemma create_next d o p w : assoc (td_deviceId d) (w_devices w) = Some o -> td_replacedById d = Some p ->
  (forall t, t ∈ w_tokens w -> td_jti d <> rt_jti t) ->
  (forall t, t ∈ w_tokens w -> rt_replacedById t <> Some p) -> (exists t, t ∈ w_tokens w /\ rt_id t = p) ->
  create_token d w = inr (tt, with_tokens w (w_tokens w ++ [mkToken (randomUUID (w_serial w)) (td_jti d) (td_familyId d)
    (td_deviceId d) None (Some p) (w_now w) (td_expiresAt d)]) (S (w_serial w))).
Proof.
  intros Hd Hr Hj Hn (t & Ht & Hid). unfold create_token. rewrite no_jti, Hd, Hr by done.
  replace (existsb (fun t => bool_decide (rt_replacedById t = Some p)) (w_tokens w)) with false.
  - replace (existsb (fun t => bool_decide (rt_id t = p)) (w_tokens w)) with true; [done|]. symmetry. apply existsb_exists.
    exists t. split; [by apply list_elem_of_In|by apply bool_decide_eq_true].
  - symmetry. apply not_true_iff_false. intros (t' & Hin & Hb)%existsb_exists. apply bool_decide_eq_true in Hb.
    by apply (Hn t'); [apply list_elem_of_In|].
Qed.

(** The row a login leaves, the cookies it sets. *)
Definition first_row (w : world) (dev : jstr) : RefreshToken :=
  mkToken (randomUUID (3 + w_serial w)) (randomUUID (1 + w_serial w)) (randomUUID (2 + w_serial w)) dev None None
    (w_now w) (w_now w + REFRESH_TTL_SEC * 1000).
Definition first_access (w : world) (u : jstr) (role : option jstr) (dev : jstr) : jstr :=
  jwt_sign (access_claims u role dev (randomUUID (w_serial w))) (w_now w / 1000 + ACCESS_TTL).
Definition first_refresh (w : world) (u dev : jstr) : jstr :=
  jwt_sign (refresh_claims u (randomUUID (1 + w_serial w)) dev) (w_now w / 1000 + REFRESH_TTL_SEC).

(** What a server that runs well needs to log a user in at a device of its own. *)
Record can_log_in (w : world) (u : jstr) (role : option jstr) (dev : jstr) : Prop := mkCan {
  can_db : w_db_up w = true; can_sign : cf_dev_secret cf = false; can_role : role <> Some (js "GUEST");
  can_dev : dev <> []; can_user : u <> []; can_own : assoc dev (w_devices w) = Some u; can_fresh : fresh_ids w }.

Lemma session_started u role dev w : can_log_in w u role dev ->
  exists w', run (start_session cf u role dev Kept) w = ((Assigned (first_access w u role dev) (first_refresh w u dev), inr tt), w') /\
    w_tokens w' = delete_rows (owner_is w u) (w_tokens w) ++ [first_row w dev] /\
    (4 + w_serial w <= w_serial w')%nat /\ around active_key w w'.
Proof.
  intros [Hup Hs Hrole Hdev Hu Hown Hfr]. unfold start_session, issueTokens. rewrite run_hm_bind.
  rewrite (bind_step newJti _ _ _ _ _ _ (run_uuid _ _)).
  rewrite (bind_step _ _ _ _ _ _ _ (run_sign _ _ _ _ Hs)).
  rewrite (bind_step newJti _ _ _ _ _ _ (run_uuid _ _)).
  rewrite (bind_step _ _ _ _ _ _ _ (run_sign _ _ _ _ Hs)). rewrite run_hm_bind.
  rewrite bool_decide_eq_false_2 by done. cbn [negb andb]. rewrite (truthy_some dev) by done.
  set (w2 := after_uuid (after_uuid w)).
  rewrite (bind_step _ _ _ w2 _ _ _ (run_db (TokenDeleteOfUser u) Kept w2 Hup)). cbn [fst snd do_query].
  set (w3 := with_tokens w2 _ _). change (truthy None) with false. cbn match.
  rewrite (bind_step (plainly NewUuid) _ _ _ _ _ _ (run_uuid _ _)).
  rewrite (bind_step _ _ _ _ _ _ _ (run_expiry _ _)).
  erewrite bind_step; [|apply run_create; [exact Hup|]; eapply create_root; [exact Hown|done|]].
  2:{ intros t' Ht'. cbn in Ht'. apply delete_rows_elem in Ht' as (t & Ht & _ & (_ & -> & _) & _). cbn [td_jti].
      apply (Hfr t (S (w_serial w)) Ht). lia. }
  set (w5 := with_tokens _ _ _). destruct (store_active_run u dev Kept w5) as (w6 & E6 & F6). rewrite (bind_step _ _ _ _ _ _ _ E6).
  destruct (touch_day_run u (dayBucket (w_now w6)) Kept w6) as (w7 & E7 & F7 & T7); [by rewrite (fr_db _ _ _ F6)|].
  unfold attempt at 1. rewrite run_catch. rewrite (bind_step _ _ _ _ _ _ _ (run_now _ _)), E7.
  rewrite (bind_step (plainly NewUuid) _ _ _ _ _ _ (run_uuid _ _)). cbn. eexists. split; [reflexivity|].
  apply frame_around in F6 as A6. split; [|split].
  - cbn. by rewrite T7, (fr_tokens _ _ _ F6).
  - cbn. pose proof (ar_serial _ _ _ F7). pose proof (ar_serial _ _ _ A6). cbn in *. lia.
  - transitivity w5; [split; try done; cbn; lia|]. transitivity w6; [done|]. transitivity w7; [done|].
    apply tokens_around. lia.
Qed.

(** ** Rotation *)
Definition next_row (w : world) (t : RefreshToken) : RefreshToken :=
  mkToken (randomUUID (2 + w_serial w)) (randomUUID (w_serial w)) (rt_familyId t) (rt_deviceId t) None (Some (rt_id t))
    (w_now w) (w_now w + REFRESH_TTL_SEC * 1000).
Definition next_access (w : world) (t : RefreshToken) (sub : jstr) (role : option jstr) : jstr :=
  jwt_sign (access_claims sub role (rt_deviceId t) (randomUUID (1 + w_serial w))) (w_now w / 1000 + ACCESS_TTL).
Definition next_refresh (w : world) (t : RefreshToken) (sub : jstr) : jstr :=
  jwt_sign (refresh_claims sub (randomUUID (w_serial w)) (rt_deviceId t)) (w_now w / 1000 + REFRESH_TTL_SEC).

(** A row that can be rotated: in the table, not expired, its device there, no row yet
    that names it as its predecessor. *)
Record rotatable (w : world) (t : RefreshToken) : Prop := mkRotatable {
  ro_db : w_db_up w = true; ro_sign : cf_dev_secret cf = false; ro_fresh : fresh_ids w; ro_in : t ∈ w_tokens w;
  ro_expiry : w_now w <= rt_expiresAt t; ro_device : exists o, assoc (rt_deviceId t) (w_devices w) = Some o;
  ro_last : forall t', t' ∈ w_tokens w -> rt_replacedById t' <> Some (rt_id t) }.

Lemma revoke_row_same (P : RefreshToken -> bool) at_ t : let t' := if P t then revoke at_ t else t in
  same_ids t t' /\ rt_replacedById t' = rt_replacedById t /\ (live t' = true -> live t = true).
Proof. cbn. unfold same_ids. by destruct (P t). Qed.

Lemma revoke_rows_in (P : RefreshToken -> bool) at_ l t : t ∈ l -> (if P t then revoke at_ t else t) ∈ revoke_rows P at_ l.
Proof. intros Hin. apply list_elem_of_In, in_map_iff. exists t. split; [done|by apply list_elem_of_In]. Qed.

Lemma rotate_run t sub user c w : rotatable w t -> assoc sub (w_users w) = Some user -> us_bannedAt user = None ->
  exists w', run (rotate cf t sub c) w = ((Assigned (next_access w t sub (us_role user)) (next_refresh w t sub), inr tt), w') /\
    w_tokens w' = revoke_rows (has_jti (rt_jti t)) (w_now w) (w_tokens w) ++ [next_row w t] /\
    (3 + w_serial w <= w_serial w')%nat /\ around active_key w w'.
Proof.
  intros [Hup Hs Hfr Hin Hexp [o Hdev] Hlast] Hu Hb. unfold rotate.
  rewrite (bind_step _ _ _ _ _ _ _ (run_now _ _)). replace (rt_expiresAt t <? w_now w) with false by lia.
  rewrite (bind_step _ _ _ _ _ _ _ (run_ret tt c w)).
  rewrite (bind_step _ _ _ w _ _ _ (run_db (UserFindUnique (Some sub)) c w Hup)). cbn [fst snd do_query].
  rewrite Hu, Hb. rewrite (bind_step newJti _ _ _ _ _ _ (run_uuid _ _)), (bind_step _ _ _ _ _ _ _ (run_now _ _)).
  set (w1 := after_uuid w).
  assert (Hj : existsb (has_jti (rt_jti t)) (w_tokens w) = true).
  { apply existsb_exists. exists t. split; [by apply list_elem_of_In|by apply bool_decide_eq_true]. }
  set (w2 := with_tokens w1 (revoke_rows (has_jti (rt_jti t)) (w_now w) (w_tokens w)) (w_serial w1)).
  assert (E2 : run (db (TokenUpdate (rt_jti t) (w_now w1)) c) w1 = ((c, inr tt), w2)).
  { rewrite run_db by done. cbn. by rewrite Hj. }
  rewrite (bind_step _ _ _ _ _ _ _ E2), (bind_step newJti _ _ _ _ _ _ (run_uuid _ _)).
  rewrite (bind_step _ _ _ _ _ _ _ (run_sign _ _ _ _ Hs)), (bind_step _ _ _ _ _ _ _ (run_sign _ _ _ _ Hs)).
  rewrite (bind_step _ _ _ _ _ _ _ (run_expiry _ _)).
  erewrite bind_step; [|apply run_create; [exact Hup|]; eapply create_next; [exact Hdev|done|..]].
  2,3: intros t' Ht'; cbn in Ht'; apply revoke_rows_elem in Ht' as (t0 & Ht0 & ->);
       destruct (revoke_row_same (has_jti (rt_jti t)) (w_now w) t0) as ((_ & Hj' & _) & Hl & _).
  2:{ cbn [td_jti]. rewrite Hj'. apply (Hfr t0); [done|lia]. }
  2:{ rewrite Hl. by apply Hlast. }
  2:{ eexists. split; [by apply revoke_rows_in|]. apply (revoke_row_same (has_jti (rt_jti t)) (w_now w) t). }
  set (w4 := with_tokens _ _ _). destruct (store_active_run sub (rt_deviceId t) c w4) as (w5 & E5 & F5).
  rewrite (bind_step _ _ _ _ _ _ _ E5). cbn. eexists. split; [reflexivity|]. split; [|split].
  - by rewrite (fr_tokens _ _ _ F5).
  - rewrite (fr_serial _ _ _ F5). cbn. lia.
  - transitivity w4; [split; try done; cbn; lia|]. by apply frame_around.
Qed.

(** ** The check of a replayed token *)
Lemma newest_elem l t : newest l = Some t -> t ∈ l.
Proof.
  unfold newest. assert (Hg : forall l b t, foldl (fun best t => match best with
    | Some b => if rt_createdAt b <? rt_createdAt t then Some t else best | None => Some t end) b l = Some t -> b = Some t \/ t ∈ l).
  { induction l0 as [|x l0 IH]; intros b t0; cbn; [by left|]. intros Hf. apply IH in Hf as [Hf|Hf]; [|by right; right].
    destruct b as [b|]; [destruct (rt_createdAt b <? rt_createdAt x)|]; simplify_eq; first [by left|right; by left]. }
  intros Hf. by apply Hg in Hf as [Hf|Hf].
Qed.
Lemma newest_none l : newest l = None -> l = [].
Proof.
  destruct l as [|x l]; [done|]. unfold newest. cbn.
  assert (Hg : forall l b, foldl (fun best t => match best with
    | Some b => if rt_createdAt b <? rt_createdAt t then Some t else best | None => Some t end) (Some b) l <> None).
  { clear. induction l as [|x l IH]; intros b; cbn; [done|]. destruct (_ <? _); apply IH. }
  intros Hf. by apply Hg in Hf.
Qed.

(** The rows [/refresh] takes for the live end of a chain. *)
Definition is_tip (basis t : RefreshToken) : bool :=
  in_family (rt_familyId basis) t && on_device (rt_deviceId basis) t && live t && unlinked t.

Lemma never_benign id (t : RefreshToken) now grace : unlinked t = true ->
  classifyRefreshReplay id (Some (mkTip (rt_id t) (rt_replacedById t) (rt_createdAt t))) now grace = Reuse.
Proof. unfold unlinked. by destruct (rt_replacedById t) eqn:E. Qed.

Lemma replay_ended basis sub c w : w_db_up w = true -> superseded basis = true ->
  (forall t, t ∈ w_tokens w -> is_tip basis t = false) ->
  run (replay_check cf basis sub c) w = ((Cleared, inl sessionEndedError), w).
Proof.
  intros Hup Hs Hn. unfold replay_check. rewrite Hs. cbn [negb].
  rewrite (bind_step _ _ _ w _ _ _ (run_db (TokenFindNewest (is_tip basis)) c w Hup)). cbn [fst snd do_query].
  replace (newest (List.filter (is_tip basis) (w_tokens w))) with (@None RefreshToken); [reflexivity|]. symmetry.
  destruct (newest _) as [t|] eqn:E; [|done]. apply newest_elem, list_elem_of_In, filter_In in E as [Hin Ht].
  rewrite Hn in Ht; [done|by apply list_elem_of_In].
Qed.

(** A superseded token is never taken for the start of a rotation. *)
Lemma replay_refused basis sub c w : superseded basis = true -> exists c' e w', run (replay_check cf basis sub c) w = ((c', inl e), w').
Proof.
  intros Hs. unfold replay_check. rewrite Hs. cbn [negb]. destruct (w_db_up w) eqn:Hup.
  2:{ eexists _, _, _. apply bind_throw. unfold db, sends_to. rewrite run_call. cbn [do_cmd]. by rewrite Hup. }
  rewrite (bind_step _ _ _ w _ _ _ (run_db (TokenFindNewest (is_tip basis)) c w Hup)). cbn [fst snd do_query].
  destruct (newest _) as [t|] eqn:E; rewrite (bind_step _ _ _ _ _ _ _ (run_now _ _)); cbn [fmap option_fmap option_map]; [|by eexists _, _, _].
  apply newest_elem, list_elem_of_In, filter_In in E as [_ Ht]. apply andb_true_iff in Ht as [_ Ht].
  rewrite never_benign by done. rewrite run_hm_bind. destruct (run (revokeFamily _ c) w) as [[c1 [e|[]]] w1]; [by eexists _, _, _|].
  rewrite run_hm_bind. destruct (run (clearAuthCookies c1) w1) as [[c2 [e|[]]] w2]; [by eexists _, _, _|].
  destruct (attempt_total (sends_to (Publish (ForceLogout (Some sub) (Some (js "session_hijacked")) (Some (rt_deviceId basis))))) c2 w2)
    as (c3 & w3 & E3). rewrite (bind_step _ _ _ _ _ _ _ E3). by eexists _, _, _.
Qed.

(** ** A login and its refreshes *)
Lemma find_new j l r : rt_jti r = j -> (forall t, t ∈ l -> j <> rt_jti t) -> List.find (has_jti j) (l ++ [r]) = Some r.
Proof.
  intros Hr Hl. induction l as [|t l IH]; cbn.
  - unfold has_jti. by rewrite bool_decide_eq_true_2.
  - unfold has_jti at 1. rewrite bool_decide_eq_false_2; [|intros E; apply (Hl t); [left|done]]. apply IH. intros t' Ht'. apply Hl. by right.
Qed.

Lemma uuid_ne n m : n <> m -> randomUUID n <> randomUUID m.
Proof. by intros Hne ?%uuid_distinct. Qed.

Lemma started_rows w u role dev t : can_log_in w u role dev -> t ∈ delete_rows (owner_is w u) (w_tokens w) ->
  forall k, (w_serial w <= k)%nat -> randomUUID k <> rt_id t /\ randomUUID k <> rt_jti t /\ randomUUID k <> rt_familyId t /\
    rt_replacedById t <> Some (randomUUID k).
Proof.
  intros Hc (t0 & Ht0 & _ & (Hi & Hj & Hf & _) & _ & Hl)%delete_rows_elem k Hk.
  destruct (can_fresh _ _ _ _ Hc t0 k Ht0 Hk) as (? & ? & ? & ?). rewrite Hi, Hj, Hf. destruct Hl as [->| ->]; by split_and!.
Qed.

Lemma started_fresh w w1 u role dev : can_log_in w u role dev ->
  w_tokens w1 = delete_rows (owner_is w u) (w_tokens w) ++ [first_row w dev] -> (4 + w_serial w <= w_serial w1)%nat -> fresh_ids w1.
Proof.
  intros Hc Ht Hs t k Hin Hk. rewrite Ht in Hin. apply elem_of_app in Hin as [Hin|Hin%list_elem_of_singleton].
  - apply (started_rows w u role dev t Hc Hin). lia.
  - subst t. cbn. split_and!; [apply uuid_ne; lia..|done].
Qed.

Lemma refresh_run j sub dev exp c w : w_now w / 1000 < exp -> j <> [] -> sub <> [] -> dev <> [] ->
  run (refresh_endpoint cf (Some (jwt_sign (refresh_claims sub j dev) exp)) c) w = run (refresh_session cf j sub c) w.
Proof.
  intros Ht Hj Hs Hd. unfold refresh_endpoint. rewrite truthy_some by apply signed_nonempty. cbn [negb].
  rewrite (bind_step _ _ _ _ _ _ _ (run_verify _ _ _)). cbn [from_option id]. rewrite verify_signed by done. cbn [refresh_claims cl_jti cl_sub cl_deviceId].
  by rewrite !truthy_some.
Qed.

(** The first refresh of a login, at a later time. *)
Lemma first_rotation w u role dev user w1 t1 : can_log_in w u role dev -> assoc u (w_users w) = Some user -> us_bannedAt user = None ->
  w_tokens w1 = delete_rows (owner_is w u) (w_tokens w) ++ [first_row w dev] -> (4 + w_serial w <= w_serial w1)%nat ->
  around active_key w w1 -> t1 <= w_now w + REFRESH_TTL_SEC * 1000 -> t1 / 1000 < w_now w / 1000 + REFRESH_TTL_SEC ->
  let v := with_now w1 t1 in
  exists w2, run (refresh_endpoint cf (Some (first_refresh w u dev)) Kept) v =
      ((Assigned (next_access v (first_row w dev) u (us_role user)) (next_refresh v (first_row w dev) u), inr tt), w2) /\
    w_tokens w2 = revoke_rows (has_jti (randomUUID (1 + w_serial w))) t1 (w_tokens w1) ++ [next_row v (first_row w dev)] /\
    (3 + w_serial w1 <= w_serial w2)%nat /\ around active_key v w2.
Proof.
  intros Hc Hu Hb Ht Hs Ha Ht1 Hj v. destruct Hc as [Hup Hsign Hrole Hdev Hu0 Hown Hfr] eqn:EHc.
  unfold first_refresh. rewrite refresh_run by (try done; apply uuid_nonempty).
  pose proof (ar_standing _ _ _ Ha u) as Hst. rewrite Hu in Hst. cbn in Hst.
  destruct (assoc u (w_users w1)) as [user'|] eqn:Hu'; [|done]. cbn in Hst. injection Hst as Hr' Hb' _.
  assert (Hdb : w_db_up v = true) by (cbn; by rewrite (ar_db _ _ _ Ha)).
  assert (Hold : forall t, t ∈ delete_rows (owner_is w u) (w_tokens w) -> randomUUID (1 + w_serial w) <> rt_jti t).
  { intros t Hin. apply (started_rows w u role dev t Hc Hin). lia. }
  unfold refresh_session. erewrite bind_step.
  2:{ unfold refresh_basis. rewrite (bind_step _ _ _ v _ _ _ (run_db (TokenFindUnique (randomUUID (1 + w_serial w))) Kept v Hdb)).
      cbn [fst snd do_query]. change (w_tokens v) with (w_tokens w1). rewrite Ht, (find_new _ _ (first_row w dev)) by done. reflexivity. }
  destruct (rotate_run (first_row w dev) u user' Kept v) as (w2 & E2 & T2 & S2 & A2); [|done|congruence|].
  - split; try done.
    + by eapply (started_fresh w w1).
    + change (w_tokens v) with (w_tokens w1). rewrite Ht. apply elem_of_app. right. by apply list_elem_of_singleton.
    + exists u. change (w_devices v) with (w_devices w1). by rewrite (ar_devices _ _ _ Ha).
    + intros t. change (w_tokens v) with (w_tokens w1). rewrite Ht. intros [Hin|Hin%list_elem_of_singleton]%elem_of_app; [|by subst t].
      apply (started_rows w u role dev t Hc Hin). lia.
  - rewrite Hr' in E2. exists w2. by split_and!.
Qed.

Lemma rotated_not_tip w w1 u role dev t1 t : can_log_in w u role dev -> (4 + w_serial w <= w_serial w1)%nat ->
  w_tokens w1 = delete_rows (owner_is w u) (w_tokens w) ++ [first_row w dev] ->
  let r2 := next_row (with_now w1 t1) (first_row w dev) in
  t ∈ revoke_rows (has_jti (randomUUID (1 + w_serial w))) t1 (w_tokens w1) ++ [r2] -> is_tip r2 t = false.
Proof.
  intros Hc Hs Ht r2 [Hin|Hin%list_elem_of_singleton]%elem_of_app; unfold is_tip.
  - apply revoke_rows_elem in Hin as (t0 & Hin & ->). rewrite Ht in Hin. apply elem_of_app in Hin as [Hin|Hin%list_elem_of_singleton].
    + destruct (revoke_row_same (has_jti (randomUUID (1 + w_serial w))) t1 t0) as ((_ & _ & Hf & _) & _).
      unfold in_family. rewrite bool_decide_eq_false_2; [done|]. rewrite Hf. cbn. symmetry. apply (started_rows w u role dev t0 Hc Hin). lia.
    + subst t0. unfold has_jti. cbn. rewrite bool_decide_eq_true_2 by done. unfold live. cbn. by rewrite !andb_false_r.
  - subst t. unfold unlinked. cbn. by rewrite !andb_false_r.
Qed.

Lemma rotated_fresh w w1 w2 u role dev t1 : can_log_in w u role dev -> (4 + w_serial w <= w_serial w1)%nat ->
  w_tokens w1 = delete_rows (owner_is w u) (w_tokens w) ++ [first_row w dev] ->
  w_tokens w2 = revoke_rows (has_jti (randomUUID (1 + w_serial w))) t1 (w_tokens w1) ++ [next_row (with_now w1 t1) (first_row w dev)] ->
  (3 + w_serial w1 <= w_serial w2)%nat -> fresh_ids w2.
Proof.
  intros Hc S1 T1 T2 S2 t k. rewrite T2. intros [Hin|Hin%list_elem_of_singleton]%elem_of_app Hk.
  - apply revoke_rows_elem in Hin as (t0 & Hin & ->). destruct (revoke_row_same (has_jti (randomUUID (1 + w_serial w))) t1 t0) as ((-> & -> & -> & _) & -> & _).
    apply (started_fresh w w1 u role dev Hc T1 S1 t0); [done|lia].
  - subst t. cbn. split_and!; [apply uuid_ne; lia..|]. intros [= E%uuid_distinct]. lia.
Qed.

(** The cookies of the first refresh, presented again. *)
Lemma second_refused w u role dev w1 w2 t1 t2 : can_log_in w u role dev -> (4 + w_serial w <= w_serial w1)%nat ->
  w_tokens w1 = delete_rows (owner_is w u) (w_tokens w) ++ [first_row w dev] ->
  let v := with_now w1 t1 in
  w_tokens w2 = revoke_rows (has_jti (randomUUID (1 + w_serial w))) t1 (w_tokens w1) ++ [next_row v (first_row w dev)] ->
  w_db_up w2 = true -> t2 / 1000 < t1 / 1000 + REFRESH_TTL_SEC ->
  run (refresh_endpoint cf (Some (next_refresh v (first_row w dev) u)) Kept) (with_now w2 t2) =
    ((Cleared, inl sessionEndedError), with_now w2 t2).
Proof.
  intros Hc S1 T1 v T2 Hdb Ht2. set (row := next_row v (first_row w dev)) in *.
  unfold next_refresh. cbn [first_row rt_deviceId]. rewrite refresh_run by (try done; first [apply uuid_nonempty|apply Hc]).
  unfold refresh_session, refresh_basis. apply bind_throw.
  rewrite (bind_step _ _ _ _ _ _ _ (run_db (TokenFindUnique (randomUUID (w_serial v))) Kept (with_now w2 t2) Hdb)). cbn [fst snd do_query].
  change (w_tokens (with_now w2 t2)) with (w_tokens w2). rewrite T2, (find_new _ _ row); [|done|].
  - apply replay_ended; [done| |].
    { unfold superseded. cbn [row next_row rt_replacedById]. rewrite truthy_some by apply uuid_nonempty. by rewrite orb_true_r. }
    intros t. change (w_tokens (with_now w2 t2)) with (w_tokens w2). rewrite T2. by apply (rotated_not_tip w w1 u role dev t1).
  - intros t (t0 & Hin & ->)%revoke_rows_elem. destruct (revoke_row_same (has_jti (randomUUID (1 + w_serial w))) t1 t0) as ((_ & -> & _) & _).
    assert (Hf : fresh_ids w1) by (by eapply (started_fresh w w1)). by apply (Hf t0).
Qed.


(** No row that names a predecessor can ever be refreshed, in any state of the server. *)
Lemma linked_refused w t j sub c : List.find (has_jti j) (w_tokens w) = Some t -> truthy (rt_replacedById t) = true ->
  exists c' e w', run (refresh_session cf j sub c) w = ((c', inl e), w').
Proof.
  intros Hf Hl. unfold refresh_session, refresh_basis. destruct (w_db_up w) eqn:Hup.
  - rewrite run_hm_bind, (bind_step _ _ _ _ _ _ _ (run_db (TokenFindUnique j) c w Hup)). cbn [fst snd do_query]. rewrite Hf.
    destruct (replay_refused t sub c w) as (c' & e & w' & E); [|rewrite E; by eexists _, _, _].
    unfold superseded. by rewrite Hl, orb_true_r.
  - eexists _, _, _. do 2 apply bind_throw. unfold db, sends_to. rewrite run_call. cbn [do_cmd]. by rewrite Hup.
Qed.

(** ** Triples: [Q] when the handler returns, [E] when it throws *)
Definition hoare {A} (P : world -> Prop) (m : hm A) (Q : A -> world -> Prop) (E : world -> Prop) : Prop :=
  forall c w, P w -> match run (m c) w with ((_, inr a), w') => Q a w' | ((_, inl _), w') => E w' end.

Lemma hoare_bind {A B} P (m : hm A) R (f : A -> hm B) Q E :
  hoare P m R E -> (forall a, hoare (R a) (f a) Q E) -> hoare P (m ≫= f) Q E.
Proof.
  intros Hm Hf c w HP. rewrite run_hm_bind. specialize (Hm c w HP). destruct (run (m c) w) as [[c' [e|a]] w']; [done|]. by apply Hf.
Qed.
Lemma hoare_ret {A} (P : world -> Prop) (a : A) (Q : A -> world -> Prop) E : (forall w, P w -> Q a w) -> hoare P (mret a) Q E.
Proof. intros HQ c w HP. by apply HQ. Qed.
Lemma hoare_fails {A} (P : world -> Prop) e (Q : A -> world -> Prop) (E : world -> Prop) : (forall w, P w -> E w) -> hoare P (fails e) Q E.
Proof. intros HE c w HP. by apply HE. Qed.
Lemma hoare_catch {A} P (m h : hm A) Q E E' : hoare P m Q E' -> hoare E' h Q E -> hoare P (catch m h) Q E.
Proof.
  intros Hm Hh c w HP. rewrite run_catch. specialize (Hm c w HP). destruct (run (m c) w) as [[c' [e|a]] w']; [|done]. by apply Hh.
Qed.
Lemma hoare_send {X} (P : world -> Prop) (q : cmd (thrown + X)) Q E :
  (forall w, P w -> match do_cmd _ q w with (inr x, w') => Q x w' | (inl _, w') => E w' end) -> hoare P (sends_to q) Q E.
Proof. intros Hq c w HP. unfold sends_to. rewrite run_call. specialize (Hq w HP). by destruct (do_cmd _ q w) as [[e|x] w']. Qed.
Lemma hoare_plain {X} (P : world -> Prop) (q : cmd X) (Q : X -> world -> Prop) E :
  (forall w, P w -> Q (do_cmd _ q w).1 (do_cmd _ q w).2) -> hoare P (plainly q) Q E.
Proof. intros Hq c w HP. unfold plainly. rewrite run_call. specialize (Hq w HP). by destruct (do_cmd _ q w) as [x w']. Qed.
Lemma hoare_db {X} (P : world -> Prop) (q : query X) Q (E : world -> Prop) : (forall w, P w -> E w) ->
  (forall w, P w -> match do_query q w with (inr x, w') => Q x w' | (inl _, w') => E w' end) -> hoare P (db q) Q E.
Proof. intros HE Hq. apply hoare_send. intros w HP. cbn [do_cmd]. destruct (w_db_up w); [by apply Hq|by apply HE]. Qed.
Lemma hoare_weaken {A} (P P' : world -> Prop) (m : hm A) (Q Q' : A -> world -> Prop) (E E' : world -> Prop) :
  (forall w, P' w -> P w) -> (forall a w, Q a w -> Q' a w) -> (forall w, E w -> E' w) -> hoare P m Q E -> hoare P' m Q' E'.
Proof. intros HP HQ HE Hm c w Hw. specialize (Hm c w (HP w Hw)). destruct (run (m c) w) as [[c' [e|a]] w']; auto. Qed.

(** Code that keeps a property of the world, on every path. *)
Definition preserves (I : world -> Prop) (w w' : world) : Prop := I w -> I w'.
#[local] Instance preserves_preorder I : PreOrder (preserves I).
Proof. split; [by intros w ?|]. intros w1 w2 w3 Ha Hb HI. by apply Hb, Ha. Qed.
Lemma hoare_kept {A} I (m : hm A) : hmoves (preserves I) m <-> hoare I m (fun _ => I) I.
Proof.
  split; intros Hm c w HI; specialize (Hm c w HI); by destruct (run (m c) w) as [[c' [e|a]] w'].
Qed.
Lemma kept_db {X} I (q : query X) : (forall w, I w -> I (do_query q w).2) -> hmoves (preserves I) (db q).
Proof. intros Hq. apply hmoves_send. intros w HI. cbn [do_cmd]. destruct (w_db_up w); [by apply Hq|done]. Qed.

(** ** Chains of tokens *)
Definition alarm (e : Event) : bool := match e with ForceLogout _ (Some r) _ => bool_decide (r = js "session_hijacked") | _ => false end.

(** A live row without predecessor is alone in its family, a family lives on one
    device, the predecessor of a row is of its family, and no alarm was raised. *)
Record chains (w : world) : Prop := mkChains {
  ch_fresh : fresh_ids w;
  ch_ids : forall t t', t ∈ w_tokens w -> t' ∈ w_tokens w -> rt_id t' = rt_id t -> t' = t;
  ch_named : forall t, t ∈ w_tokens w -> rt_id t <> [];
  ch_link : forall t p, t ∈ w_tokens w -> rt_replacedById t = Some p -> p <> [];
  ch_pred : forall t t', t ∈ w_tokens w -> t' ∈ w_tokens w -> rt_replacedById t = Some (rt_id t') -> rt_familyId t' = rt_familyId t;
  ch_device : forall t t', t ∈ w_tokens w -> t' ∈ w_tokens w -> rt_familyId t' = rt_familyId t -> rt_deviceId t' = rt_deviceId t;
  ch_tip : forall t t', t ∈ w_tokens w -> t' ∈ w_tokens w -> rt_familyId t' = rt_familyId t ->
    live t = true -> unlinked t = true -> t' = t;
  ch_quiet : forall e, e ∈ w_events w -> alarm e = false }.

Lemma chains_ext w w' : w_tokens w' = w_tokens w -> (w_serial w <= w_serial w')%nat -> w_events w' = w_events w -> chains w -> chains w'.
Proof.
  intros Ht Hs He [Hfr ? ? ? ? ? ? ?]. split; unfold fresh_ids; rewrite ?Ht, ?He; try done. intros t k Hin Hk. apply Hfr; [done|lia].
Qed.

Lemma chains_revoke P at_ w : chains w -> chains (with_tokens w (revoke_rows P at_ (w_tokens w)) (w_serial w)).
Proof.
  intros [Hfr Hid Hnm Hli Hpr Hde Hti Hqu].
  assert (Hr : forall t, t ∈ revoke_rows P at_ (w_tokens w) -> exists t0, t0 ∈ w_tokens w /\ t = (if P t0 then revoke at_ t0 else t0) /\
    same_ids t0 t /\ rt_replacedById t = rt_replacedById t0 /\ (live t = true -> live t0 = true)).
  { intros t (t0 & Hin & ->)%revoke_rows_elem. exists t0. split; [done|]. split; [done|]. apply revoke_row_same. }
  split; unfold fresh_ids; cbn [with_tokens w_tokens w_serial w_events]; [..|done].
  - intros t k (t0 & Hin & _ & (-> & -> & -> & _) & -> & _)%Hr. by apply Hfr.
  - intros t t' (t0 & Hin & -> & (Ei & _) & _)%Hr (t1 & Hin' & -> & (Fi & _) & _)%Hr. rewrite Ei, Fi. intros Heq. by rewrite (Hid t0 t1 Hin Hin' Heq).
  - intros t (t0 & Hin & _ & (-> & _) & _)%Hr. by apply Hnm.
  - intros t p (t0 & Hin & _ & _ & -> & _)%Hr. by apply Hli.
  - intros t t' (t0 & Hin & _ & (_ & _ & -> & _) & -> & _)%Hr (t1 & Hin' & _ & (-> & _ & -> & _) & _)%Hr. by apply Hpr.
  - intros t t' (t0 & Hin & _ & (_ & _ & -> & -> & _) & _)%Hr (t1 & Hin' & _ & (_ & _ & -> & -> & _) & _)%Hr. by apply Hde.
  - intros t t' (t0 & Hin & -> & (_ & _ & Ef & _) & El & Ev)%Hr (t1 & Hin' & -> & (_ & _ & Ff & _) & _)%Hr.
    rewrite Ef, Ff. unfold unlinked. rewrite El. intros Hf Hl Hu. by rewrite (Hti t0 t1 Hin Hin' Hf (Ev Hl) Hu).
Qed.

Lemma unlink_noop gone t : (forall p, rt_replacedById t = Some p -> p ∉ gone) -> unlink gone t = t.
Proof. intros Hg. unfold unlink. destruct (rt_replacedById t) as [p|]; [|done]. by rewrite bool_decide_eq_false_2 by (by apply Hg). Qed.

(** Deleting everything on some devices leaves the other rows as they are. *)
Lemma delete_by_device P w t : chains w -> (forall t t', rt_deviceId t' = rt_deviceId t -> P t' = P t) ->
  t ∈ delete_rows P (w_tokens w) -> t ∈ w_tokens w.
Proof.
  intros [_ _ _ _ Hpr Hde _ _] HP. unfold delete_rows. intros Hin. apply list_elem_of_In, in_map_iff in Hin as (t0 & <- & Hin).
  apply filter_In in Hin as [Hin Hn]. apply list_elem_of_In in Hin. rewrite unlink_noop; [done|].
  intros p Hp (t1 & <- & Hin1)%list_elem_of_In%in_map_iff. apply filter_In in Hin1 as [Hin1 H1']. apply list_elem_of_In in Hin1.
  rewrite (HP t0 t1) in H1' by (by apply Hde, Hpr). by rewrite H1' in Hn.
Qed.

Lemma chains_subset w w' : (forall t, t ∈ w_tokens w' -> t ∈ w_tokens w) -> w_serial w' = w_serial w -> w_events w' = w_events w ->
  chains w -> chains w'.
Proof. intros Ht Hs He []. split; unfold fresh_ids; rewrite ?He, ?Hs; eauto. Qed.

Lemma chains_delete P w : (forall t t', rt_deviceId t' = rt_deviceId t -> P t' = P t) -> chains w ->
  chains (with_tokens w (delete_rows P (w_tokens w)) (w_serial w)).
Proof. intros HP Hw. apply (chains_subset w); try done. cbn. intros t. by apply delete_by_device. Qed.

(** A new row of a family without a live end, or of a new family. *)
Lemma chains_add row w n : (w_serial w < n)%nat -> rt_id row = randomUUID (w_serial w) ->
  (forall k, (n <= k)%nat -> randomUUID k <> rt_jti row /\ randomUUID k <> rt_familyId row /\ rt_replacedById row <> Some (randomUUID k)) ->
  rt_replacedById row <> Some (randomUUID (w_serial w)) ->
  (forall p, rt_replacedById row = Some p -> p <> []) ->
  (forall t, t ∈ w_tokens w -> rt_replacedById row = Some (rt_id t) -> rt_familyId t = rt_familyId row) ->
  (forall t, t ∈ w_tokens w -> rt_familyId t = rt_familyId row ->
     rt_deviceId t = rt_deviceId row /\ (live t && unlinked t = false) /\ unlinked row = false) ->
  chains w -> chains (with_tokens w (w_tokens w ++ [row]) n).
Proof.
  intros Hn Hi Hk Hself Hp Hpred Hf [Hfr Hid Hnm Hli Hpr Hde Hti Hqu].
  split; unfold fresh_ids; cbn [with_tokens w_tokens w_serial w_events]; [..|done].
  - intros t k [Hin|Hin%list_elem_of_singleton]%elem_of_app Hnk; [apply Hfr; [done|lia]|]. subst t. rewrite Hi.
    destruct (Hk k Hnk) as (? & ? & ?). split_and!; try done. apply uuid_ne. lia.
  - intros t t' [Hin|Hin%list_elem_of_singleton]%elem_of_app [Hin'|Hin'%list_elem_of_singleton]%elem_of_app Heq; subst; try done.
    + by apply Hid.
    + destruct (Hfr t (w_serial w) Hin) as (Hne & _); [done|]. by rewrite <- Heq, Hi in Hne.
    + destruct (Hfr t' (w_serial w) Hin') as (Hne & _); [done|]. by rewrite Heq, Hi in Hne.
  - intros t [Hin|Hin%list_elem_of_singleton]%elem_of_app; [by apply Hnm|]. subst t. rewrite Hi. apply uuid_nonempty.
  - intros t p [Hin|Hin%list_elem_of_singleton]%elem_of_app; [by apply Hli|]. subst t. apply Hp.
  - intros t t' [Hin|Hin%list_elem_of_singleton]%elem_of_app [Hin'|Hin'%list_elem_of_singleton]%elem_of_app Hl; subst; try done.
    + by apply Hpr.
    + destruct (Hfr t (w_serial w) Hin) as (_ & _ & _ & Hne); [done|]. by rewrite Hl, Hi in Hne.
    + by apply Hpred.
  - intros t t' [Hin|Hin%list_elem_of_singleton]%elem_of_app [Hin'|Hin'%list_elem_of_singleton]%elem_of_app Hl; subst; try done.
    + by apply Hde.
    + symmetry. by apply Hf.
    + by apply Hf.
  - intros t t' [Hin|Hin%list_elem_of_singleton]%elem_of_app [Hin'|Hin'%list_elem_of_singleton]%elem_of_app Hl Hlive Hun; subst; try done.
    + by apply Hti.
    + destruct (Hf t Hin) as (_ & Hb & _); [done|]. by rewrite Hlive, Hun in Hb.
    + destruct (Hf t' Hin') as (_ & _ & Hb); [done|]. by rewrite Hun in Hb.
Qed.

Lemma chains_event e w : alarm e = false -> chains w -> chains (with_event w e).
Proof.
  intros He [Hfr Hid Hnm Hli Hpr Hde Hti Hqu]. split; try done. cbn. intros e'.
  intros [Hin|Hin%list_elem_of_singleton]%elem_of_app; [by apply Hqu|by subst].
Qed.

(** Commands that keep the chains. *)
Lemma chains_redis {X} (q : cmd (thrown + X)) :
  match q with RedisGet _ | RedisSetEx _ _ _ | RedisDel _ => True | Publish e => alarm e = false | _ => False end ->
  hmoves (preserves chains) (sends_to q).
Proof.
  intros Hq. apply hmoves_send. intros w Hw. destruct q; try done; cbn; destruct (w_redis_up w); try done.
  - by apply (chains_ext w).
  - by apply (chains_ext w).
  - by apply chains_event.
Qed.

Lemma chains_uuid : hmoves (preserves chains) (plainly NewUuid).
Proof. apply hmoves_plain. intros w Hw. apply (chains_ext w); try done. cbn. lia. Qed.

Lemma chains_query {X} (q : query X) :
  match q with TokenCreate _ | TokenDeleteMany _ => False | _ => True end -> hmoves (preserves chains) (db q).
Proof.
  intros Hq. apply kept_db. intros w Hw. destruct q; try done; cbn [do_query snd].
  - destruct (existsb _ _); [|done]. by apply chains_revoke.
  - by apply chains_revoke.
  - apply chains_delete; [|done]. intros t t' Hd. unfold owner_is. by rewrite Hd.
  - by destruct id.
  - by apply (chains_ext w).
  - set (P := fun t : RefreshToken => existsb _ _). apply (chains_subset (with_tokens w (delete_rows P (w_tokens w)) (w_serial w))); try done.
    apply chains_delete; [|done]. intros t t' Hd. subst P. cbn. by rewrite Hd.
Qed.

Lemma chains_delete_device d : hmoves (preserves chains) (db (TokenDeleteMany (on_device d))).
Proof. apply kept_db. intros w Hw. apply chains_delete; [|done]. intros t t' Hd. unfold on_device. by rewrite Hd. Qed.

Ltac chained := repeat match goal with
  | |- hmoves _ (_ ≫= _) => apply (hmoves_bind _); [|intros ?]
  | |- hmoves _ (attempt _) => apply (hmoves_catch _)
  | |- hmoves _ (mret _) => apply (hmoves_ret _)
  | |- hmoves _ (fails _) => apply (hmoves_fails _)
  | |- hmoves _ (apiError _ _) => apply (hmoves_fails _)
  | |- hmoves _ date_now => apply (hmoves_now _)
  | |- hmoves _ clearAuthCookies => apply (hmoves_clear _)
  | |- hmoves _ (each _ _) => apply (hmoves_each _); intros ? ?
  | |- hmoves _ (sends_to _) => apply chains_redis; try reflexivity; try exact I
  | |- hmoves _ (db (TokenDeleteMany (on_device _))) => apply chains_delete_device
  | |- hmoves _ (db _) => apply chains_query; exact I
  | |- hmoves _ (plainly NewUuid) => apply chains_uuid
  | |- hmoves _ newJti => apply chains_uuid
  | |- hmoves _ (if ?b then _ else _) => destruct b
  | |- hmoves _ (match ?x with _ => _ end) => destruct x
  end.

Lemma chains_revokeFamily f : hmoves (preserves chains) (revokeFamily f).
Proof. unfold revokeFamily, blacklist. chained. Qed.
Lemma chains_store u d : hmoves (preserves chains) (store_active_device cf u d).
Proof. unfold store_active_device, invalidateActiveDeviceCache. chained. Qed.
Lemma kick_reason u d r k : planDeviceLogoutKick u d (Some r) = Some k -> ki_reason k = r.
Proof. unfold planDeviceLogoutKick. intros Hk. repeat case_match; simplify_eq/=; done. Qed.
Lemma chains_logout rt : hmoves (preserves chains) (logout cf rt).
Proof.
  assert (Ht : forall c j, hmoves (preserves chains) (logout_token cf c j)).
  { intros c j. unfold logout_token, invalidateActiveDeviceCache.
    apply (hmoves_bind _); [chained|intros stored]. apply (hmoves_bind _); [destruct stored; chained; apply chains_revokeFamily|intros d].
    apply (hmoves_bind _); [chained|intros _]. destruct (planDeviceLogoutKick _ _ _) as [k|] eqn:Ek; [|chained].
    apply kick_reason in Ek. chained. cbn. rewrite Ek. reflexivity. }
  unfold logout, verifyJwt. chained; apply Ht.
Qed.
Lemma chains_logout_all u : hmoves (preserves chains) (logout_all cf u).
Proof. unfold logout_all, blacklist, invalidateActiveDeviceCache. chained. Qed.
Lemma chains_blacklist_live now l : hmoves (preserves chains) (blacklist_live now l).
Proof. induction l as [|t l IH]; cbn [blacklist_live]; chained; done. Qed.
Lemma chains_delete_session u j : hmoves (preserves chains) (delete_session u j).
Proof. unfold delete_session, revokeSessionFamily. chained. apply chains_blacklist_live. Qed.
Lemma chains_remove_device u d : hmoves (preserves chains) (remove_device u d).
Proof. unfold remove_device. chained. Qed.

(** *** Logging in *)
Definition old_id (w : world) (x : jstr) : Prop := forall k, (w_serial w <= k)%nat -> randomUUID k <> x.

Lemma old_new w : old_id (after_uuid w) (randomUUID (w_serial w)).
Proof. intros k Hk. cbn in Hk. apply uuid_ne. lia. Qed.
Lemma old_later w w' x : (w_serial w <= w_serial w')%nat -> old_id w x -> old_id w' x.
Proof. intros Hs Ho k Hk. apply Ho. lia. Qed.

Lemma hoare_kept_bind {A B} I (m : hm A) (f : A -> hm B) Q E : hmoves (preserves I) m -> (forall w, I w -> E w) ->
  (forall a, hoare I (f a) Q E) -> hoare I (m ≫= f) Q E.
Proof.
  intros Hm HE Hf. eapply hoare_bind; [|exact Hf]. eapply hoare_weaken; [| | |by apply hoare_kept, Hm]; [done..|exact HE].
Qed.

(** Steps that at most use up uuids. *)
Definition only_uuids (w w' : world) : Prop :=
  w_tokens w' = w_tokens w /\ (w_serial w <= w_serial w')%nat /\ w_events w' = w_events w.
#[local] Instance only_uuids_preorder : PreOrder only_uuids.
Proof. split; [by intros w|]. intros w1 w2 w3 (? & ? & ?) (? & ? & ?). split_and!; [congruence|lia|congruence]. Qed.
Lemma uuids_new : hmoves only_uuids (plainly NewUuid).
Proof. apply hmoves_plain. intros w. split_and!; [done|cbn; lia|done]. Qed.
Lemma uuids_sign cl ttl : hmoves only_uuids (signAccessToken cf cl ttl).
Proof. unfold signAccessToken. intros c w. by destruct (cf_dev_secret cf). Qed.
Lemma uuids_expiry : hmoves only_uuids refreshExpiryDate.
Proof. by intros c w. Qed.
Lemma uuids_kept {A} (I : world -> Prop) (m : hm A) : (forall w w', only_uuids w w' -> I w -> I w') -> hmoves only_uuids m -> hmoves (preserves I) m.
Proof. intros HI Hm c w. exact (HI _ _ (Hm c w)). Qed.

Lemma chains_uuids w w' : only_uuids w w' -> chains w -> chains w'.
Proof. intros (Ht & Hs & He). by apply chains_ext. Qed.
Definition with_jti (j : jstr) (w : world) : Prop := chains w /\ old_id w j.
Lemma with_jti_uuids j w w' : only_uuids w w' -> with_jti j w -> with_jti j w'.
Proof. intros (Ht & Hs & He) [Hw Ho]. split; [by apply (chains_ext w)|by apply (old_later w)]. Qed.

Lemma hoare_jti : hoare chains newJti with_jti chains.
Proof.
  apply hoare_plain. intros w Hw. split; [|apply old_new]. apply (chains_ext w); try done. cbn. lia.
Qed.

Definition with_family (j f : jstr) (w : world) : Prop :=
  with_jti j w /\ old_id w f /\ forall t, t ∈ w_tokens w -> rt_familyId t <> f.

Lemma hoare_family j : hoare (with_jti j) (plainly NewUuid) (with_family j) chains.
Proof.
  apply hoare_plain. intros w [Hw Ho]. split; [|split]; [|apply old_new|].
  - apply (with_jti_uuids j w); [|by split]. split; [done|]. split; [cbn; lia|done].
  - cbn. intros t Hin Heq. by destruct (ch_fresh _ Hw t (w_serial w) Hin) as (_ & _ & Hn & _).
Qed.

Lemma create_root_chains j f dev exp : hoare (with_family j f) (db (TokenCreate (mkData j f dev exp None))) (fun _ => chains) chains.
Proof.
  apply hoare_db; [by intros w [[? _] _]|]. intros w ((Hw & Hj) & Hf & Hn). cbn [do_query].
  unfold create_token. destruct (existsb _ _); [done|]. destruct (assoc _ _); [|done]. cbn [td_replacedById].
  apply chains_add; try done; [lia| |].
  - cbn. intros k Hk. split; [apply Hj; lia|split; [apply Hf; lia|done]].
  - cbn. intros t Hin Heq. by apply Hn in Heq.
Qed.

Lemma chains_touch u day : hmoves (preserves chains) (db (UserTouchDay u day)).
Proof. by apply chains_query. Qed.

Lemma chains_start u role dev : hoare chains (start_session cf u role dev) (fun _ => chains) chains.
Proof.
  unfold start_session, issueTokens. eapply hoare_bind; [|intros ?; apply hoare_kept; by intros c w]. cbn match.
  apply hoare_kept_bind; [apply chains_uuid|done|intros aj].
  apply hoare_kept_bind; [apply (uuids_kept _ _ (chains_uuids)), uuids_sign|done|intros access].
  eapply hoare_bind; [apply hoare_jti|intros j].
  apply hoare_kept_bind; [apply (uuids_kept _ _ (with_jti_uuids j)), uuids_sign|by intros w []|intros rt].
  eapply hoare_bind with (R := fun _ => chains).
  - destruct (_ && _); [|apply hoare_ret; by intros w []].
    eapply hoare_bind with (R := fun _ => with_jti j).
    { apply hoare_db; [by intros w []|]. intros w [Hw Ho]. split; [|done]. apply chains_delete; [|done].
      intros t t' Hd. unfold owner_is. by rewrite Hd. }
    intros _. eapply hoare_bind; [apply hoare_family|intros f].
    apply hoare_kept_bind; [by intros c w|by intros w [[? _] _]|intros exp].
    eapply hoare_bind; [apply create_root_chains|intros []; cbn beta]. apply hoare_kept. apply (hmoves_bind _); [apply chains_store|intros _].
    chained.
  - intros _. apply hoare_kept. chained.
Qed.

(** *** Refreshing *)
(** What the endpoint knows of the row it rotates. *)
Definition fresh_end (t : RefreshToken) (w : world) : Prop :=
  chains w /\ t ∈ w_tokens w /\ live t = true /\ unlinked t = true.

Lemma not_superseded t w : chains w -> t ∈ w_tokens w -> superseded t = false -> live t = true /\ unlinked t = true.
Proof.
  intros Hw Hin Hs. unfold superseded in Hs. apply orb_false_iff in Hs as [Hl Hr]. apply negb_false_iff in Hl. split; [done|].
  unfold unlinked. destruct (rt_replacedById t) as [[|x p]|] eqn:E; [|done..]. by apply (ch_link _ Hw) in E.
Qed.

Lemma superseded_no_tip t w t' : chains w -> t ∈ w_tokens w -> superseded t = true -> t' ∈ w_tokens w -> is_tip t t' = false.
Proof.
  intros Hw Hin Hs Hin'. apply not_true_iff_false. unfold is_tip. intros [[[Hf _]%andb_true_iff Hl]%andb_true_iff Hu]%andb_true_iff.
  apply bool_decide_eq_true in Hf. assert (t = t') as ->; [by apply (ch_tip _ Hw)|].
  unfold superseded in Hs. rewrite Hl in Hs. unfold unlinked in Hu. by destruct (rt_replacedById t').
Qed.

Lemma hoare_basis j sub : hoare chains (refresh_basis cf j sub) fresh_end chains.
Proof.
  intros c w Hw. unfold refresh_basis. destruct (w_db_up w) eqn:Hup.
  2:{ rewrite run_hm_bind. unfold db, sends_to. rewrite run_call. cbn [do_cmd]. by rewrite Hup. }
  rewrite (bind_step _ _ _ _ _ _ _ (run_db (TokenFindUnique j) c w Hup)). cbn [fst snd do_query].
  destruct (List.find _ _) as [t|] eqn:E; [|by destruct (isEphemeralGuestSubject sub)].
  apply List.find_some in E as [Hin%list_elem_of_In _]. destruct (superseded t) eqn:Es.
  - rewrite replay_ended; [done|done|done|]. intros t' Hin'. by apply (superseded_no_tip t w).
  - unfold replay_check. rewrite Es. cbn. destruct (not_superseded t w Hw Hin Es). done.
Qed.

(** Between the update of the old row and the insertion of the new one. *)
Definition closing (t : RefreshToken) (j : jstr) (w : world) : Prop :=
  with_jti j w /\ old_id w (rt_familyId t) /\ old_id w (rt_id t) /\ rt_id t <> [] /\
  (forall t', t' ∈ w_tokens w -> rt_id t' = rt_id t -> rt_familyId t' = rt_familyId t) /\
  (forall t', t' ∈ w_tokens w -> rt_familyId t' = rt_familyId t -> rt_deviceId t' = rt_deviceId t /\ live t' && unlinked t' = false).

Lemma closing_uuids t j w w' : only_uuids w w' -> closing t j w -> closing t j w'.
Proof.
  intros Hu (Hj & Hf & Hi & Hne & Hids & Hfam). destruct Hu as (Ht & Hs & He) eqn:EHu.
  split; [by apply (with_jti_uuids j w)|]. split; [by apply (old_later w)|]. split; [by apply (old_later w)|]. split; [done|]. by rewrite Ht.
Qed.

Lemma closing_update t j at_ : hoare (fun w => fresh_end t w /\ old_id w j) (db (TokenUpdate (rt_jti t) at_)) (fun _ => closing t j) chains.
Proof.
  apply hoare_db; [by intros w [[? _] _]|]. intros w [(Hw & Hin & Hl & Hu) Ho]. cbn [do_query]. destruct (existsb _ _); [|done].
  assert (Hr : forall t', t' ∈ revoke_rows (has_jti (rt_jti t)) at_ (w_tokens w) ->
    (rt_id t' = rt_id t -> rt_familyId t' = rt_familyId t) /\
    (rt_familyId t' = rt_familyId t -> rt_deviceId t' = rt_deviceId t /\ live t' && unlinked t' = false)).
  { intros t' (t0 & Hin0 & ->)%revoke_rows_elem. destruct (revoke_row_same (has_jti (rt_jti t)) at_ t0) as ((-> & _ & -> & -> & _) & _).
    split; [intros Hi; by rewrite (ch_ids _ Hw t t0 Hin Hin0 Hi)|]. intros Hf. rewrite (ch_tip _ Hw t t0 Hin Hin0 Hf Hl Hu).
    split; [done|]. unfold has_jti. by rewrite bool_decide_eq_true_2. }
  split; [split; [by apply chains_revoke|done]|].
  split; [intros k Hk; by apply (ch_fresh _ Hw t k Hin)|]. split; [intros k Hk; by apply (ch_fresh _ Hw t k Hin)|].
  split; [by apply (ch_named _ Hw)|]. split; intros t' Hin'; by apply Hr.
Qed.

Lemma create_next_chains t j exp : hoare (closing t j)
  (db (TokenCreate (mkData j (rt_familyId t) (rt_deviceId t) exp (Some (rt_id t))))) (fun _ => chains) chains.
Proof.
  apply hoare_db; [by intros w ((? & _) & _)|]. intros w ((Hw & Hj) & Hf & Hi & Hne & Hids & Hfam). cbn [do_query].
  unfold create_token. destruct (existsb _ _); [done|]. destruct (assoc _ _); [|done]. cbn [td_replacedById].
  destruct (existsb _ _); [done|]. destruct (existsb _ _); [|done]. apply chains_add; try done; cbn; [lia|..].
  - intros k Hk. split; [apply Hj; lia|]. split; [apply Hf; lia|]. intros [= E]. apply (Hi k); [lia|done].
  - intros [= E]. by apply (Hi (w_serial w)).
  - by intros p [= <-].
  - intros t' Hin [= E]. by apply Hids.
  - intros t' Hin Heq. destruct (Hfam t' Hin Heq). done.
Qed.

Lemma chains_refresh rt : hoare chains (refresh_endpoint cf rt) (fun _ => chains) chains.
Proof.
  unfold refresh_endpoint. destruct (negb _); [by apply hoare_fails|].
  apply hoare_kept_bind; [unfold verifyJwt; chained|done|]. intros [[s|cl]|]; [by intros c w| |by intros c w].
  destruct (_ && _ && _); [|by intros c w]. unfold refresh_session. eapply hoare_bind; [apply hoare_basis|intros t].
  unfold rotate. apply hoare_kept_bind; [chained|by intros w [? _]|intros now].
  apply hoare_kept_bind; [by destruct (_ <? _); intros c w|by intros w [? _]|intros _].
  apply hoare_kept_bind; [|by intros w [? _]|intros user].
  { apply kept_db. by intros w. }
  destruct user as [user|]; [|by apply hoare_fails; intros w [? _]]. destruct (us_bannedAt user); [by apply hoare_fails; intros w [? _]|].
  eapply hoare_bind with (R := fun j w => fresh_end t w /\ old_id w j).
  { apply hoare_plain. intros w (Hw & Hin & Hl & Hu). split; [|apply old_new]. split; [|done]. apply (chains_ext w); try done. cbn. lia. }
  intros j. apply hoare_kept_bind; [chained|by intros w [[? _] _]|intros at_].
  eapply hoare_bind; [apply closing_update|intros []; cbn beta].
  apply hoare_kept_bind; [apply (uuids_kept _ _ (closing_uuids t j)), uuids_new|by intros w ((? & _) & _)|intros aj].
  apply hoare_kept_bind; [apply (uuids_kept _ _ (closing_uuids t j)), uuids_sign|by intros w ((? & _) & _)|intros access].
  apply hoare_kept_bind; [apply (uuids_kept _ _ (closing_uuids t j)), uuids_sign|by intros w ((? & _) & _)|intros refresh].
  apply hoare_kept_bind; [apply (uuids_kept _ _ (closing_uuids t j)), uuids_expiry|by intros w ((? & _) & _)|intros exp].
  eapply hoare_bind; [apply create_next_chains|intros []; cbn beta]. apply hoare_kept.
  apply (hmoves_bind _); [apply chains_store|intros _]. by intros c w.
Qed.

(** ** Histories of requests, served one after another *)
Inductive request :=
| ReqLogin (userId : jstr) (role : option jstr) (deviceId : jstr)
| ReqRefresh (rt : option jstr)
| ReqLogout (rt : option jstr)
| ReqLogoutAll (userId : option jstr)
| ReqRevoke (userId : option jstr) (jti : jstr)
| ReqRemoveDevice (userId : option jstr) (deviceId : jstr)
| ReqMeLogout (rt : option jstr)
| ReqCleanup (now : Z).

Definition handle (r : request) : hm unit :=
  match r with
  | ReqLogin u role dev => start_session cf u role dev
  | ReqRefresh rt => refresh_endpoint cf rt
  | ReqLogout rt => logout cf rt
  | ReqLogoutAll u => logout_all cf u ≫= fun _ => mret tt
  | ReqRevoke u j => delete_session u j
  | ReqRemoveDevice u d => remove_device u d
  | ReqMeLogout rt => me_logout rt
  | ReqCleanup now => cleanup_tokens now ≫= fun _ => mret tt
  end.

(** Time passes, Postgres and Redis go away and come back. *)
Definition weather (w w' : world) : Prop := exists now up rup, w_now w <= now /\
  w' = mkWorld (w_tokens w) (w_devices w) (w_users w) (w_redis w) up rup (w_events w) now (w_serial w).

Inductive served (P : request -> Prop) : relation world :=
| served_request r w : P r -> served P w (run (handle r Kept) w).2
| served_weather w w' : weather w w' -> served P w w'.

(** Requests that never delete a part of a family. *)
Definition whole_families (r : request) : Prop := match r with ReqMeLogout _ | ReqCleanup _ => False | _ => True end.

Lemma hoare_after {A} (P : world -> Prop) (m : hm A) c w : hoare P m (fun _ => P) P -> P w -> P (run (m c) w).2.
Proof. intros Hm HP. specialize (Hm c w HP). by destruct (run (m c) w) as [[c' [e|a]] w']. Qed.

Lemma chains_served w w' : served whole_families w w' -> chains w -> chains w'.
Proof.
  intros [r w0 Hr|w0 w1 (now & up & rup & _ & ->)] Hw; [|by apply (chains_ext w0)]. destruct r; try done; cbn [handle].
  - by apply hoare_after; [apply chains_start|].
  - by apply hoare_after; [apply chains_refresh|].
  - by apply (chains_logout rt).
  - by apply (hmoves_bind _ _ _ (chains_logout_all userId) (fun _ => hmoves_ret _ tt)).
  - by apply (chains_delete_session userId jti).
  - by apply (chains_remove_device userId deviceId).
Qed.

(** C19: the alarm for a replayed refresh token never rings. From a server without sessions,
    along every history of logins, refreshes, logouts, revocations and removals of
    devices, whatever cookies the clients present (stolen and replayed ones included)
    and whatever outages happen, no [session_hijacked] event is ever sent. *)
Theorem replay_never_detected w w' :
  w_tokens w = [] -> w_events w = [] -> rtc (served whole_families) w w' ->
  forall u d, ForceLogout u (Some (js "session_hijacked")) d ∉ w_events w'.
Proof.
  intros Ht He Hrun u d Hin. assert (Hw : chains w).
  { split; unfold fresh_ids; rewrite ?Ht, ?He; set_solver. }
  assert (Hw' : chains w') by (eapply (rtc_invariant _ chains); [intros x y Hx Hs; exact (chains_served x y Hs Hx)|exact Hrun|exact Hw]).
  apply (ch_quiet _ Hw') in Hin. cbn in Hin. by rewrite bool_decide_eq_true_2 in Hin.
Qed.
End Rules.

Import ToyAuth AtRest.ToyServer.

Lemma toy_can_log_in : can_log_in cf0 w0 (js "bob") None (js "phone").
Proof. split; try done. intros t k Hin. by apply not_elem_of_nil in Hin. Qed.


(** Bob logs in, refreshes, and the first cookie is replayed. *)
Definition replayed : world :=
  let w1 := (run do_cmd (handle cf0 (ReqLogin (js "bob") None (js "phone")) Kept) w0).2 in
  let rt := jwt_sign (refresh_claims (js "bob") (randomUUID 1) (js "phone")) (5 + REFRESH_TTL_SEC) in
  let w2 := (run do_cmd (handle cf0 (ReqRefresh (Some rt)) Kept) w1).2 in
  (run do_cmd (handle cf0 (ReqRefresh (Some rt)) Kept) w2).2.

Lemma replay_never_detected_witness : length (w_tokens replayed) = 2%nat /\
  ForceLogout (Some (js "bob")) (Some (js "session_hijacked")) (Some (js "phone")) ∉ w_events replayed.
Proof.
  split; [vm_compute; reflexivity|]. apply (replay_never_detected cf0 w0); [reflexivity|reflexivity|].
  do 3 (eapply rtc_r; [|apply served_request; exact I]). apply rtc_refl.
Defined.
