(* ===== verification/AuthRevocation.v ===== *)
(** Ending sessions: revocation of a family under every interleaving of later requests,
    the clean-up of old rows, and what the blacklist and the gate of requests do with
    the tokens of a session that ended. *)
From S2P Require Import Prelude Bytes Base64 Utf8 Text Js Sodium LocalAtRest AtRest OhttpConfig Effects AuthSessions AuthSessionRules.
Import Sessions.

(** ** A revoked family under concurrent requests *)
Section Revoked.
Context `{AuthPlatformLaws} `{ServerCrypto} (cf : Config) (F : jstr) (Js : jstr -> Prop).

(** Every row of the family [F] is revoked, rows under the token ids [Js] are of that
    family, and neither is a uuid still to come. *)
Record dead (w : world) : Prop := mkDead {
  de_rows : forall t, t ∈ w_tokens w -> rt_familyId t = F -> live t = false;
  de_jtis : forall t, t ∈ w_tokens w -> Js (rt_jti t) -> rt_familyId t = F;
  de_uuids : forall k, (w_serial w <= k)%nat -> randomUUID k <> F /\ ~ Js (randomUUID k) }.

Definition no_revival (X : Type) (c : cmd X) : Prop :=
  match c with Db (TokenCreate d) => td_familyId d <> F /\ ~ Js (td_jti d) | _ => True end.
Definition row_known (t : RefreshToken) : Prop :=
  (rt_familyId t = F -> live t = false) /\ (Js (rt_jti t) -> rt_familyId t = F).
Definition found_query {X} (q : query X) : thrown + X -> Prop :=
  match q with
  | TokenFindUnique j => fun x => match x with inr (Some t) => rt_jti t = j /\ row_known t | _ => True end
  | TokenFindNewest P => fun x => match x with inr (Some t) => P t = true /\ row_known t | _ => True end
  | _ => fun _ => True
  end.
Definition found (X : Type) (c : cmd X) : X -> Prop :=
  match c with
  | Db q => found_query q
  | NewUuid => fun x => x <> F /\ ~ Js x
  | _ => fun _ => True
  end.

Lemma dead_rows (w w' : world) : (forall t', t' ∈ w_tokens w' -> exists t, t ∈ w_tokens w /\ rt_familyId t' = rt_familyId t /\
    rt_jti t' = rt_jti t /\ (live t' = true -> live t = true)) -> (w_serial w <= w_serial w')%nat -> dead w -> dead w'.
Proof.
  intros Hr Hs [Hro Hj Hu]. split.
  - intros t' (t & Hin & Hf & _ & Hl)%Hr. rewrite Hf. intros E. apply not_true_iff_false. intros Hl'%Hl. by rewrite (Hro t Hin E) in Hl'.
  - intros t' (t & Hin & Hf & Hjt & _)%Hr. rewrite Hf, Hjt. by apply Hj.
  - intros k Hk. apply Hu. lia.
Qed.
Lemma dead_same (w w' : world) : w_tokens w' = w_tokens w -> (w_serial w <= w_serial w')%nat -> dead w -> dead w'.
Proof. intros Ht Hs. apply dead_rows; [|done]. rewrite Ht. intros t Hin. by exists t. Qed.
Lemma dead_revoke P at_ w : dead w -> dead (with_tokens w (revoke_rows P at_ (w_tokens w)) (w_serial w)).
Proof.
  apply dead_rows; [|done]. cbn. intros t' (t & Hin & ->)%revoke_rows_elem. exists t. split; [done|].
  destruct (revoke_row_same P at_ t) as ((_ & -> & -> & _) & _ & Hl). done.
Qed.
Lemma dead_delete P w : dead w -> dead (with_tokens w (delete_rows P (w_tokens w)) (w_serial w)).
Proof.
  apply dead_rows; [|done]. cbn. intros t' (t & Hin & _ & (_ & -> & -> & _) & Hr & _)%delete_rows_elem. exists t. split; [done|].
  unfold live. by rewrite Hr.
Qed.

Lemma dead_known w t : dead w -> t ∈ w_tokens w -> row_known t.
Proof. intros Hw Hin. split; [by apply Hw|by apply Hw]. Qed.

Lemma dead_create d w : dead w -> td_familyId d <> F -> ~ Js (td_jti d) ->
  forall x w', create_token d w = inr (x, w') -> dead w'.
Proof.
  intros Hw Hf Hj x w'. unfold create_token. destruct (existsb _ _); [done|]. destruct (assoc _ _); [|done].
  assert (Hok : forall row, rt_familyId row = td_familyId d -> rt_jti row = td_jti d ->
    dead (with_tokens w (w_tokens w ++ [row]) (S (w_serial w)))).
  { intros row Ef Ej. destruct Hw as [Hro Hjt Hu]. split; cbn.
    - intros t [Hin|Hin%list_elem_of_singleton]%elem_of_app; [by apply Hro|]. subst t. by rewrite Ef.
    - intros t [Hin|Hin%list_elem_of_singleton]%elem_of_app; [by apply Hjt|]. subst t. by rewrite Ej.
    - intros k Hk. apply Hu. lia. }
  destruct (td_replacedById d); [destruct (existsb _ _); [done|]; destruct (existsb _ _); [|done]|]; intros [= <- <-]; by apply Hok.
Qed.

Lemma dead_query {X} (q : query X) w : dead w -> no_revival _ (Db q) ->
  found_query q (do_query q w).1 /\ dead (do_query q w).2.
Proof.
  intros Hw HG. destruct q; cbn [do_query fst snd found_query]; try done.
  - split; [|done]. destruct (List.find _ _) as [t|] eqn:E; [|done]. apply List.find_some in E as [Hin%list_elem_of_In Hj].
    split; [by apply bool_decide_eq_true in Hj|by apply (dead_known w)].
  - split; [|done]. destruct (newest _) as [t|] eqn:E; [|done]. apply newest_elem, list_elem_of_In, filter_In in E as [Hin%list_elem_of_In HP].
    split; [done|by apply (dead_known w)].
  - destruct (existsb _ _); split; try done. by apply dead_revoke.
  - split; [done|]. by apply dead_revoke.
  - destruct (create_token data w) as [e|[[] w']] eqn:E; [done|]. split; [done|]. destruct HG. by eapply dead_create.
  - split; [done|]. by apply dead_delete.
  - split; [done|]. by apply dead_delete.
  - by destruct id.
  - split; [done|]. by apply (dead_same w).
  - split; [done|]. match goal with |- dead (with_devices ?x _) => apply (dead_same x); try done end. by apply dead_delete.
Qed.

Lemma dead_cmd X (c : cmd X) w : dead w -> no_revival X c -> found X c (do_cmd X c w).1 /\ dead (do_cmd X c w).2.
Proof.
  intros Hw HG. destruct c; cbn [do_cmd found].
  - destruct (w_db_up w); [by apply dead_query|]. split; [by destruct q|done].
  - done.
  - destruct (w_redis_up w); split; try done. by apply (dead_same w).
  - destruct (w_redis_up w); split; try done. by apply (dead_same w).
  - destruct (w_redis_up w); split; try done. by apply (dead_same w).
  - split; [by apply Hw|]. apply (dead_same w); try done. cbn. lia.
  - done.
Qed.

Lemma dead_weather w w' : weather w w' -> dead w -> dead w'.
Proof. intros (now & up & rup & _ & ->). by apply dead_same. Qed.

(** A handler whose commands revive nothing, and what it answers. *)
Definition ho {A} (Q : A -> Prop) (m : hm A) : Prop :=
  forall c, obeys no_revival found (fun x => match x.2 with inr a => Q a | inl _ => True end) (m c).

Lemma ho_bind {A B} (Q : A -> Prop) (Q' : B -> Prop) (m : hm A) (f : A -> hm B) :
  ho Q m -> (forall a, Q a -> ho Q' (f a)) -> ho Q' (m ≫= f).
Proof.
  intros Hm Hf c. unfold mbind, hm_bind. eapply obeys_bind; [apply Hm|]. intros [c' [e|a]] HQ; [done|]. by apply Hf.
Qed.
Lemma ho_then {A B} (Q' : B -> Prop) (m : hm A) (f : A -> hm B) :
  ho (fun _ => True) m -> (forall a, ho Q' (f a)) -> ho Q' (m ≫= f).
Proof. intros Hm Hf. eapply ho_bind; [exact Hm|]. intros a _. apply Hf. Qed.
Lemma ho_weaken {A} (Q Q' : A -> Prop) (m : hm A) : (forall a, Q a -> Q' a) -> ho Q m -> ho Q' m.
Proof. intros HQ Hm c. eapply obeys_weaken; [|apply Hm]. intros [c' [e|a]]; [done|apply HQ]. Qed.
Lemma ho_catch {A} (Q : A -> Prop) (m h : hm A) : ho Q m -> ho Q h -> ho Q (catch m h).
Proof. intros Hm Hh c. unfold catch. eapply obeys_bind; [apply Hm|]. intros [c' [e|a]] HQ; [apply Hh|done]. Qed.
Lemma ho_ret {A} (Q : A -> Prop) (a : A) : Q a -> ho Q (mret a).
Proof. by intros HQ c. Qed.
Lemma ho_fails {A} (Q : A -> Prop) e : ho (A := A) Q (fails e).
Proof. by intros c. Qed.
Lemma ho_send {X} (Q : X -> Prop) (q : cmd (thrown + X)) : no_revival _ q ->
  (forall x, found _ q (inr x) -> Q x) -> ho Q (sends_to q).
Proof. intros HG HQ c. split; [done|]. intros [e|x] Hx; cbn; [done|by apply HQ]. Qed.
Lemma ho_plain {X} (Q : X -> Prop) (q : cmd X) : no_revival _ q -> (forall x, found _ q x -> Q x) -> ho Q (plainly q).
Proof. intros HG HQ c. split; [done|]. intros x Hx. by apply HQ. Qed.
Lemma ho_each {A} (f : A -> hm unit) l : (forall a, ho (fun _ => True) (f a)) -> ho (fun _ => True) (each f l).
Proof. intros Hf. induction l; cbn [each]; [by apply ho_ret|]. by apply ho_then. Qed.
Lemma ho_set Q a r : Q tt -> ho Q (setAuthCookies a r).
Proof. by intros HQ c. Qed.
Lemma ho_clear : ho (fun _ => True) clearAuthCookies.
Proof. by intros c. Qed.

Ltac quietly := repeat match goal with
  | |- ho _ (_ ≫= _) => apply ho_then; [|intros ?]
  | |- ho _ (attempt _) => apply ho_catch
  | |- ho _ (catch _ _) => apply ho_catch
  | |- ho _ (mret _) => apply ho_ret; done
  | |- ho _ (fails _) => apply ho_fails
  | |- ho _ (apiError _ _) => apply ho_fails
  | |- ho _ date_now => apply ho_plain; done
  | |- ho _ newJti => apply ho_plain; done
  | |- ho _ (plainly _) => apply ho_plain; done
  | |- ho _ clearAuthCookies => apply ho_clear
  | |- ho _ (setAuthCookies _ _) => apply ho_set; done
  | |- ho _ (each _ _) => apply ho_each; intros ?
  | |- ho _ (sends_to _) => apply ho_send; done
  | |- ho _ (db _) => apply ho_send; done
  | |- ho _ (if ?b then _ else _) => destruct b
  | |- ho _ (match ?x with _ => _ end) => destruct x
  end.

Lemma ho_revokeFamily f : ho (fun _ => True) (revokeFamily f).
Proof. unfold revokeFamily, blacklist. quietly. Qed.
Lemma ho_store u d : ho (fun _ => True) (store_active_device cf u d).
Proof. unfold store_active_device, invalidateActiveDeviceCache. quietly. Qed.
Lemma ho_sign c ttl : ho (fun _ => True) (signAccessToken cf c ttl).
Proof. unfold signAccessToken. quietly. Qed.
Lemma ho_blacklist_live now l : ho (fun _ => True) (blacklist_live now l).
Proof. induction l; cbn [blacklist_live]; quietly; done. Qed.

Definition outside (x : jstr) : Prop := x <> F /\ ~ Js x.
Lemma ho_uuid : ho outside (plainly NewUuid).
Proof. by apply ho_plain. Qed.

Lemma ho_login u role dev : ho (fun _ => True) (start_session cf u role dev).
Proof.
  unfold start_session, issueTokens. apply ho_then; [|intros ?; by apply ho_set]. cbn match.
  apply ho_then; [quietly|intros aj]. apply ho_then; [apply ho_sign|intros access].
  eapply ho_bind; [apply ho_uuid|intros j [_ Hj]]. apply ho_then; [apply ho_sign|intros rt].
  apply ho_then; [|intros; quietly]. destruct (_ && _); [|quietly]. apply ho_then; [quietly|intros _].
  eapply ho_bind; [apply ho_uuid|intros f [Hf _]]. apply ho_then; [unfold refreshExpiryDate; quietly|intros exp].
  apply ho_then; [by apply ho_send|intros _]. apply ho_then; [apply ho_store|intros _]. quietly.
Qed.

(** The row a refresh starts from: never of the dead family. *)
Lemma ho_basis j sub : ho (fun t => rt_familyId t <> F /\ ~ Js j) (refresh_basis cf j sub).
Proof.
  unfold refresh_basis. eapply ho_bind with (Q := fun b => match b with Some t => rt_jti t = j /\ row_known t | None => True end).
  { by apply ho_send; [|intros [t|]]. }
  intros [t|] Ht; [|quietly]. destruct Ht as [Hj [Hd HJ]]. unfold replay_check. destruct (superseded t) eqn:Es; cbn [negb].
  - eapply ho_bind with (Q := fun b => match b with Some x => is_tip t x = true /\ row_known x | None => True end).
    { by apply ho_send; [|intros [x|]]. }
    intros tip Htip. apply ho_then; [quietly|intros now]. destruct tip as [x|]; cbn [fmap option_fmap option_map].
    + destruct Htip as [Htip _]. apply andb_true_iff in Htip as [_ Hu]. rewrite never_benign by done.
      apply ho_then; [apply ho_revokeFamily|intros _]. quietly.
    + cbn. quietly.
  - apply ho_ret. unfold superseded in Es. apply orb_false_iff in Es as [Hl _]. apply negb_false_iff in Hl.
    assert (Hne : rt_familyId t <> F) by (intros E; by rewrite Hd in Hl). split; [done|]. by rewrite <- Hj; intros ?%HJ.
Qed.

Lemma ho_rotate t sub : rt_familyId t <> F -> ho (fun _ => True) (rotate cf t sub).
Proof.
  intros Hf. unfold rotate. apply ho_then; [quietly|intros now]. apply ho_then; [quietly|intros _]. apply ho_then; [quietly|intros user].
  destruct user as [user|]; [|quietly]. destruct (us_bannedAt user); [quietly|].
  eapply ho_bind; [apply ho_uuid|intros j [_ Hj]]. apply ho_then; [quietly|intros at_]. apply ho_then; [quietly|intros _].
  apply ho_then; [quietly|intros aj]. apply ho_then; [apply ho_sign|intros access]. apply ho_then; [apply ho_sign|intros rt].
  apply ho_then; [unfold refreshExpiryDate; quietly|intros exp]. apply ho_then; [by apply ho_send|intros _].
  apply ho_then; [apply ho_store|intros _]. quietly.
Qed.

(** A cookie that carries one of the token ids [Js]. *)
Definition names_family (rt : option jstr) : Prop := exists sub j dev exp, rt = Some (jwt_sign (refresh_claims sub j dev) exp) /\ Js j.

Lemma ho_refresh rt : ho (fun _ => ~ names_family rt) (refresh_endpoint cf rt).
Proof.
  unfold refresh_endpoint. destruct (negb (truthy rt)); [apply ho_fails|]. unfold verifyJwt.
  eapply ho_bind with (Q := fun p => exists s, p = jwt_verify s (default [] rt)).
  { apply ho_then; [quietly|]. intros now. apply ho_ret. by eexists. }
  intros p [s Hp]. destruct p as [[txt|c]|]; [quietly| |quietly]. destruct (_ && _ && _); [|quietly].
  unfold refresh_session. eapply ho_bind; [apply ho_basis|]. intros t [Hf HJ]. eapply ho_weaken; [|by apply ho_rotate].
  intros _ _ (sub & j & dev & exp & -> & Hj). cbn [from_option id] in Hp.
  destruct (decide (s < exp)) as [Hlt|Hge].
  - rewrite verify_signed in Hp by done. injection Hp as ->. by apply HJ.
  - rewrite verify_expired in Hp by lia. done.
Qed.

Lemma ho_handle r : ho (fun _ => match r with ReqRefresh rt => ~ names_family rt | _ => True end) (handle cf r).
Proof.
  destruct r; cbn [handle].
  - apply ho_login.
  - apply ho_refresh.
  - unfold logout, logout_token, verifyJwt, invalidateActiveDeviceCache. quietly; apply ho_revokeFamily.
  - unfold logout_all, blacklist, invalidateActiveDeviceCache. quietly.
  - unfold delete_session, revokeSessionFamily. quietly. apply ho_blacklist_live.
  - unfold remove_device. quietly.
  - unfold me_logout, verifyJwt. quietly.
  - unfold cleanup_tokens. quietly.
Qed.

(** A request in flight, with its answer when it is done. *)
Definition in_flight (r : request) : prog cmd (request * (thrown + unit)) :=
  handle cf r Kept ≫= fun x => Ret (r, x.2).

Lemma dead_stays rs w ts w' : dead w -> rtc (sys_step do_cmd weather) (map in_flight rs, w) (ts, w') ->
  dead w' /\ forall i rt a, ts !! i = Some (Ret (ReqRefresh rt, a)) -> names_family rt -> a <> inr tt.
Proof.
  intros Hw Hrun.
  destruct (obeys_invariant do_cmd no_revival found weather
    (fun x : request * (thrown + unit) => match x with (ReqRefresh rt, inr tt) => ~ names_family rt | _ => True end) dead
    (fun X c w Hd HG => dead_cmd X c w Hd HG) dead_weather _ _ Hrun) as [Hts Hw'].
  - apply Forall_forall. intros p (r & -> & _)%list_elem_of_fmap. unfold in_flight.
    eapply obeys_bind; [apply (ho_handle r Kept)|]. intros [c [e|[]]] Hx; cbn in *; by destruct r.
  - done.
  - split; [done|]. intros i rt a Hi Hn ->. apply (Forall_lookup_1 _ _ _ _ Hts) in Hi. by apply Hi.
Qed.
End Revoked.

Section Ending.
Context `{AuthPlatformLaws} `{ServerCrypto} (cf : Config).
Notation run := (Effects.run do_cmd).

(** ** Blacklisting *)
Definition jti_keys (l : list RefreshToken) (k : jstr) : Prop := exists t, t ∈ l /\ k = revokedKey (rt_jti t).

Lemma each_run {A} (R : relation world) `{!PreOrder R} (f : A -> hm unit) l c w :
  (forall a c w, a ∈ l -> exists w', run (f a c) w = ((c, inr tt), w') /\ R w w') ->
  exists w', run (each f l c) w = ((c, inr tt), w') /\ R w w'.
Proof.
  revert w. induction l as [|a l IH]; intros w Hf; [by exists w|]. cbn [each].
  destruct (Hf a c w) as (w1 & E1 & R1); [left|]. rewrite (bind_step _ _ _ _ _ _ _ E1).
  destruct (IH w1) as (w2 & E2 & R2); [intros b ? ? Hb; apply Hf; by right|]. exists w2. split; [done|by transitivity w1].
Qed.

Lemma setEx_run k ttl v c w : exists w', run (attempt (sends_to (RedisSetEx k ttl v)) c) w = ((c, inr tt), w') /\
  frame (fun k' => k' = k) w w' /\ (w_redis_up w = true -> w_redis w' = redis_setEx (w_now w) k ttl v (w_redis w)).
Proof.
  rewrite attempt_ok by apply kc_send. eexists. split; [done|]. split; [by apply frame_setEx|].
  intros Hup. unfold sends_to. rewrite run_call. cbn. by rewrite Hup.
Qed.

Lemma blacklist_live_run now l c w : exists out w', run (blacklist_live now l c) w = ((c, inr out), w') /\ frame (jti_keys l) w w' /\
  (w_redis_up w = true -> NoDup (map rt_jti l) -> forall t, t ∈ l -> 1000 <= rt_expiresAt t - now ->
     rt_jti t ∈ out /\ w_redis w' !! revokedKey (rt_jti t) = Some (mkEntry (js "1") (w_now w + (rt_expiresAt t - now) / 1000 * 1000))).
Proof.
  revert w. induction l as [|t l IH]; intros w; cbn [blacklist_live].
  { exists [], w. split; [done|]. split; [reflexivity|]. intros _ _ t Hin. by apply not_elem_of_nil in Hin. }
  destruct (0 <? (rt_expiresAt t - now) / 1000) eqn:Et.
  - destruct (setEx_run (revokedKey (rt_jti t)) ((rt_expiresAt t - now) / 1000) (js "1") c w) as (w1 & E1 & F1 & H1').
    rewrite (bind_step _ _ _ _ _ _ _ E1). destruct (IH w1) as (out & w2 & E2 & F2 & H2'). rewrite (bind_step _ _ _ _ _ _ _ E2).
    exists (rt_jti t :: out), w2. split; [done|]. split.
    { transitivity w1; [eapply frame_weaken, F1|eapply frame_weaken, F2].
      - intros k ->. exists t. split; [left|done].
      - intros k (t' & Hin & ->). exists t'. split; [by right|done]. }
    intros Hup [Hnin Hnd]%NoDup_cons t' Hin Hexp. apply elem_of_cons in Hin as [->|Hin].
    + split; [left|]. rewrite (fr_keys _ _ _ F2).
      * rewrite (H1' Hup). unfold redis_setEx. by rewrite lookup_insert_eq.
      * intros (t' & Hin & Hk). apply Hnin. unfold revokedKey in Hk. apply app_inv_head in Hk. rewrite Hk. by apply list_elem_of_fmap_2.
    + destruct (H2' ltac:(by rewrite (fr_redis _ _ _ F1)) Hnd t' Hin Hexp) as [? Hk]. split; [by right|]. by rewrite Hk, (fr_now _ _ _ F1).
  - destruct (IH w) as (out & w2 & E2 & F2 & H2'). exists out, w2. split; [done|]. split.
    { eapply frame_weaken, F2. intros k (t' & Hin & ->). exists t'. split; [by right|done]. }
    intros Hup [Hnin Hnd]%NoDup_cons t' Hin Hexp. apply elem_of_cons in Hin as [->|Hin]; [|by apply H2'].
    apply Z.ltb_ge in Et. assert (1 <= (rt_expiresAt t - now) / 1000) by (apply Z.div_le_lower_bound; lia). lia.
Qed.

(** ** DELETE /api/sessions/:jti *)
Lemma foreign_session w u j c : w_db_up w = true ->
  (forall t, List.find (has_jti j) (w_tokens w) = Some t -> assoc (rt_deviceId t) (w_devices w) <> Some u) ->
  run (delete_session (Some u) j c) w = ((c, inl (ApiError 404 (js "Session not found or unauthorized"))), w).
Proof.
  intros Hup Hn. unfold delete_session. apply bind_throw. unfold revokeSessionFamily.
  rewrite (bind_step _ _ _ _ _ _ _ (run_db (TokenFindOwned j) c w Hup)). cbn [fst snd do_query].
  destruct (List.find _ _) as [t|] eqn:E; [|done]. cbn. by rewrite bool_decide_eq_false_2 by (by apply Hn).
Qed.

Definition family_live (t x : RefreshToken) : bool := in_family (rt_familyId t) x && live x.

Lemma own_session w u j t c : w_db_up w = true -> List.find (has_jti j) (w_tokens w) = Some t ->
  assoc (rt_deviceId t) (w_devices w) = Some u ->
  exists w', run (delete_session (Some u) j c) w = ((c, inr tt), w') /\
    w_tokens w' = revoke_rows (family_live t) (w_now w) (w_tokens w) /\ w_serial w' = w_serial w /\
    (w_redis_up w = true -> NoDup (map rt_jti (w_tokens w)) -> forall x, x ∈ w_tokens w -> rt_familyId x = rt_familyId t ->
       1000 <= rt_expiresAt x - w_now w ->
       w_redis w' !! revokedKey (rt_jti x) = Some (mkEntry (js "1") (w_now w + (rt_expiresAt x - w_now w) / 1000 * 1000))).
Proof.
  intros Hup Hf Ho. unfold delete_session, revokeSessionFamily.
  set (w1 := with_tokens w (revoke_rows (family_live t) (w_now w) (w_tokens w)) (w_serial w)).
  destruct (blacklist_live_run (w_now w) (List.filter (in_family (rt_familyId t)) (w_tokens w1)) c w1) as (out & w2 & E2 & F2 & H2').
  erewrite bind_step; [|rewrite (bind_step _ _ _ _ _ _ _ (run_db (TokenFindOwned j) c w Hup)); cbn [fst snd do_query];
    rewrite Hf; cbn [mbind option_bind]; rewrite Ho, bool_decide_eq_true_2 by done; cbn [negb];
    rewrite (bind_step _ _ _ _ _ _ _ (run_now _ _));
    rewrite (bind_step _ _ _ _ _ _ _ (run_db (TokenUpdateMany (family_live t) (w_now w)) c w Hup)); cbn [fst snd do_query];
    rewrite (bind_step _ _ _ _ _ _ _ (run_db (TokenFindMany (in_family (rt_familyId t))) c w1 Hup)); cbn [fst snd do_query];
    rewrite (bind_step _ _ _ _ _ _ _ E2); reflexivity].
  cbn [sr_deviceId]. destruct (attempt_frame (fun _ => False) (_ ← sends_to (Publish (ForceLogout (Some u) None (Some (rt_deviceId t))));
           sends_to (Publish (Kick (Some u) None (Some (rt_deviceId t))))) c w2) as (w3 & E3 & F3).
  { apply (hmoves_bind _); [|intros _]; apply frame_publish. }
  { apply kc_bind; [|intros _]; apply kc_send. }
  exists w3. split; [exact E3|]. split; [by rewrite (fr_tokens _ _ _ F3), (fr_tokens _ _ _ F2)|].
  split; [by rewrite (fr_serial _ _ _ F3), (fr_serial _ _ _ F2)|]. intros Hr Hnd x Hin Hfx Hexp.
  rewrite (fr_keys _ _ _ F3) by auto. set (x' := if family_live t x then revoke (w_now w) x else x).
  destruct (revoke_row_same (family_live t) (w_now w) x) as ((_ & Ej & Ef & _ & _ & Ee) & _). fold x' in Ej, Ef, Ee.
  rewrite <- Ej, <- Ee. apply H2'; [done| |..].
  - apply (sublist_NoDup _ (map rt_jti (w_tokens w))).
    + done.
    + unfold w1, revoke_rows. cbn. clear -t w. induction (w_tokens w) as [|y l IH]; [done|]. cbn.
      destruct (revoke_row_same (family_live t) (w_now w) y) as ((_ & Ej & _) & _). destruct (in_family _ _); cbn; [rewrite Ej; by constructor|by constructor].
  - apply list_elem_of_In, filter_In. split; [by apply list_elem_of_In, revoke_rows_in|]. unfold in_family. by rewrite Ef, bool_decide_eq_true_2.
  - by rewrite Ee.
Qed.

(** C16: ending a session is final. The owner of a session that revokes it (any token id of
    its family will do) leaves no live row in the family, and while Redis is up every
    token of it with a second left is blacklisted until it expires; anybody else gets
    404 and changes nothing. After that, however later requests of all kinds interleave
    command by command, with outages, clean-up and the passing of time between them,
    the family never has a live row again and no refresh with one of its tokens
    succeeds. *)
Theorem session_revocation w u j t :
  w_db_up w = true -> fresh_ids w -> NoDup (map rt_jti (w_tokens w)) ->
  List.find (has_jti j) (w_tokens w) = Some t -> assoc (rt_deviceId t) (w_devices w) = Some u ->
  (forall v, v <> u -> run (delete_session (Some v) j Kept) w = ((Kept, inl (ApiError 404 (js "Session not found or unauthorized"))), w)) /\
  exists w', run (delete_session (Some u) j Kept) w = ((Kept, inr tt), w') /\
    (w_redis_up w = true -> forall x now, x ∈ w_tokens w -> rt_familyId x = rt_familyId t -> 1000 <= rt_expiresAt x - w_now w ->
       now < w_now w + (rt_expiresAt x - w_now w) / 1000 * 1000 ->
       redis_get now (revokedKey (rt_jti x)) (w_redis w') = Some (js "1")) /\
    forall rs ts w2, rtc (sys_step do_cmd weather) (map (in_flight cf) rs, w') (ts, w2) ->
      (forall x, x ∈ w_tokens w2 -> rt_familyId x = rt_familyId t -> live x = false) /\
      forall i x sub dev exp a, x ∈ w_tokens w -> rt_familyId x = rt_familyId t ->
        ts !! i = Some (Ret (ReqRefresh (Some (jwt_sign (refresh_claims sub (rt_jti x) dev) exp)), a)) -> a <> inr tt.
Proof.
  intros Hup Hfr Hnd Hf Ho. split.
  { intros v Hv. apply foreign_session; [done|]. intros t' Ht'. rewrite Hf in Ht'. injection Ht' as <-. congruence. }
  destruct (own_session w u j t Kept Hup Hf Ho) as (w' & E & Ht & Hs & Hb). exists w'. split; [done|]. split.
  { intros Hr x now Hin Hfx Hexp Hnow. specialize (Hb Hr Hnd x Hin Hfx Hexp). by apply (get_live now _ _ _ Hb). }
  intros rs ts w2 Hrun.
  destruct (dead_stays cf (rt_familyId t) (fun j' => exists x, x ∈ w_tokens w /\ rt_familyId x = rt_familyId t /\ rt_jti x = j')
    rs w' ts w2) as [Hd Hq]; [|done|].
  - split; rewrite ?Ht, ?Hs.
    + intros x (x0 & Hin & ->)%revoke_rows_elem. destruct (revoke_row_same (family_live t) (w_now w) x0) as ((_ & _ & -> & _) & _).
      intros Hfx. unfold family_live, in_family. rewrite bool_decide_eq_true_2 by done. cbn [andb]. by destruct (live x0) eqn:El.
    + intros x (x0 & Hin & ->)%revoke_rows_elem. destruct (revoke_row_same (family_live t) (w_now w) x0) as ((_ & -> & -> & _) & _).
      intros (y & Hy & Hfy & Hj). assert (x0 = y) as ->; [|done].
      apply list_elem_of_lookup in Hin as [i Hi], Hy as [k Hk].
      assert (i = k) as <-; [|congruence]. eapply (NoDup_lookup (map rt_jti (w_tokens w))); [done|by rewrite list_lookup_fmap, Hi|].
      rewrite list_lookup_fmap, Hk. cbn. by rewrite Hj.
    + intros k Hk. apply List.find_some in Hf as [Hin%list_elem_of_In _]. split; [by apply (Hfr t k Hin)|].
      intros (x & Hx & _ & Hj). by destruct (Hfr x k Hx Hk) as (_ & Hn & _).
  - split; [apply Hd|]. intros i x sub dev exp a Hin Hfx Hi. apply (Hq i _ a Hi). exists sub, (rt_jti x), dev, exp. split; [done|]. by exists x.
Qed.

(** ** jobs/cleanup.ts *)
Lemma cleanup_run now c w : w_db_up w = true -> run (cleanup_tokens now c) w =
  ((c, inr (count (cleanup_due now) (w_tokens w))), with_tokens w (delete_rows (cleanup_due now) (w_tokens w)) (w_serial w)).
Proof. intros Hup. unfold cleanup_tokens. by rewrite run_db. Qed.

Lemma unlink_gone gone t p : rt_replacedById t = Some p -> p ∈ gone -> rt_replacedById (unlink gone t) = None.
Proof. intros Hp Hin. unfold unlink. rewrite Hp. by rewrite bool_decide_eq_true_2. Qed.

(** The table after the clean-up that removes the first row of a chain of two. *)
Lemma revived_row w w1 w2 u role dev t1 t3 : can_log_in cf w u role dev -> (4 + w_serial w <= w_serial w1)%nat ->
  w_tokens w1 = delete_rows (owner_is w u) (w_tokens w) ++ [first_row w dev] ->
  w_tokens w2 = revoke_rows (has_jti (randomUUID (1 + w_serial w))) t1 (w_tokens w1) ++ [next_row (with_now w1 t1) (first_row w dev)] ->
  (3 + w_serial w1 <= w_serial w2)%nat -> t1 + REVOKED_REFRESH_TOKEN_RETENTION_MS < t3 -> t3 < t1 + REFRESH_TTL_SEC * 1000 ->
  let l := delete_rows (cleanup_due t3) (w_tokens w2) in
  exists row, List.find (has_jti (randomUUID (w_serial w1))) l = Some row /\ row ∈ l /\ superseded row = false /\
    same_ids (next_row (with_now w1 t1) (first_row w dev)) row /\ forall t, t ∈ l -> rt_replacedById t <> Some (rt_id row).
Proof.
  intros Hc S1 T1 T2 S2 Hret Hexp l. set (r2 := next_row (with_now w1 t1) (first_row w dev)) in *.
  pose proof (started_fresh cf w w1 u role dev Hc T1 S1) as Hf1.
  set (old := revoke_rows (has_jti (randomUUID (1 + w_serial w))) t1 (w_tokens w1)) in *.
  set (gone := map rt_id (List.filter (cleanup_due t3) (w_tokens w2))).
  assert (Hl : l = map (unlink gone) (List.filter (fun t => negb (cleanup_due t3 t)) old) ++ [unlink gone r2]).
  { unfold l, delete_rows. fold gone. rewrite T2, List.filter_app, List.map_app. f_equal. cbn [List.filter].
    replace (cleanup_due t3 r2) with false; [done|]. symmetry. unfold cleanup_due. cbn. rewrite orb_false_r. apply Z.leb_gt. lia. }
  assert (Hg : randomUUID (3 + w_serial w) ∈ gone).
  { apply list_elem_of_In, in_map_iff. exists (revoke t1 (first_row w dev)). split; [done|]. apply filter_In. split.
    - apply list_elem_of_In. rewrite T2. apply elem_of_app. left. unfold old.
      assert (Hin : first_row w dev ∈ w_tokens w1) by (rewrite T1; apply elem_of_app; right; by apply list_elem_of_singleton).
      apply (revoke_rows_in (has_jti (randomUUID (1 + w_serial w))) t1) in Hin. revert Hin. unfold has_jti at 1. cbn [first_row rt_jti].
      by rewrite bool_decide_eq_true_2.
    - unfold cleanup_due. cbn [revoke rt_revokedAt]. apply orb_true_iff. right. apply Z.ltb_lt. lia. }
  destruct (unlink_ids gone r2) as (Hids & Hrev & _). assert (Hnone : rt_replacedById (unlink gone r2) = None) by (by eapply unlink_gone).
  assert (Hold : forall t, t ∈ map (unlink gone) (List.filter (fun t => negb (cleanup_due t3 t)) old) ->
    exists t0, t0 ∈ w_tokens w1 /\ rt_jti t = rt_jti t0 /\ (rt_replacedById t = rt_replacedById t0 \/ rt_replacedById t = None)).
  { intros t (t0 & <- & Hin)%list_elem_of_In%in_map_iff. apply filter_In in Hin as [(t00 & Hin & ->)%list_elem_of_In%revoke_rows_elem _].
    exists t00. split; [done|]. destruct (revoke_row_same (has_jti (randomUUID (1 + w_serial w))) t1 t00) as ((_ & <- & _) & <- & _).
    destruct (unlink_ids gone (if has_jti (randomUUID (1 + w_serial w)) t00 then revoke t1 t00 else t00)) as ((_ & Ej & _) & _ & El). by split. }
  exists (unlink gone r2). split; [|split; [|split; [|split]]].
  - rewrite Hl. apply find_new; [apply Hids|]. intros t (t0 & Hin & -> & _)%Hold. by apply (Hf1 t0).
  - rewrite Hl. apply elem_of_app. right. by apply list_elem_of_singleton.
  - unfold superseded, live. by rewrite Hrev, Hnone.
  - done.
  - destruct Hids as (-> & _). rewrite Hl. intros t [(t0 & Hin & _ & Hlk)%Hold|Hin%list_elem_of_singleton]%elem_of_app.
    + destruct Hlk as [->| ->]; [|done]. apply (Hf1 t0 _ Hin). cbn. lia.
    + subst t. by rewrite Hnone.
Qed.

(** A token that was refused comes back to life. After a login and its first refresh,
    the second refresh is refused with 401 and cleared cookies; its row stays live.
    Once the clean-up job has removed the first row (seven days after the rotation),
    the reference to it is null, and the refused token is accepted again, for new
    cookies, until it expires. *)
Theorem refused_token_revives w u role dev user t1 t3 :
  can_log_in cf w u role dev -> assoc u (w_users w) = Some user -> us_bannedAt user = None ->
  t1 <= w_now w + REFRESH_TTL_SEC * 1000 -> t1 / 1000 < w_now w / 1000 + REFRESH_TTL_SEC ->
  t1 + REVOKED_REFRESH_TOKEN_RETENTION_MS < t3 -> t3 < t1 + REFRESH_TTL_SEC * 1000 -> t3 / 1000 < t1 / 1000 + REFRESH_TTL_SEC ->
  exists a1 r1 w1 a2 r2 w2 n w3 a3 r3 w4,
    run (start_session cf u role dev Kept) w = ((Assigned a1 r1, inr tt), w1) /\
    run (refresh_endpoint cf (Some r1) Kept) (with_now w1 t1) = ((Assigned a2 r2, inr tt), w2) /\
    run (refresh_endpoint cf (Some r2) Kept) (with_now w2 t3) = ((Cleared, inl sessionEndedError), with_now w2 t3) /\
    run (cleanup_tokens t3 Kept) (with_now w2 t3) = ((Kept, inr n), w3) /\
    run (refresh_endpoint cf (Some r2) Kept) w3 = ((Assigned a3 r3, inr tt), w4).
Proof.
  intros Hc Hu Hb Ht1 Hj1 Hret Hexp Hj3.
  destruct (session_started cf u role dev w Hc) as (w1 & E1 & T1 & S1 & A1).
  destruct (first_rotation cf w u role dev user w1 t1) as (w2 & E2 & T2 & S2 & A2); try done.
  set (v := with_now w1 t1) in *. set (w2' := with_now w2 t3).
  set (w3 := with_tokens w2' (delete_rows (cleanup_due t3) (w_tokens w2')) (w_serial w2')).
  assert (Hdb : w_db_up w2 = true) by (rewrite (ar_db _ _ _ A2); cbn; rewrite (ar_db _ _ _ A1); apply Hc).
  destruct (revived_row w w1 w2 u role dev t1 t3) as (row & Hfind & Hin & Hsup & Hids & Hlast); try done.
  assert (Hu3 : exists user3, assoc u (w_users w3) = Some user3 /\ us_bannedAt user3 = None).
  { pose proof (ar_standing _ _ _ A1 u) as Hs1. pose proof (ar_standing _ _ _ A2 u) as Hs2. cbn in Hs2. rewrite Hs1, Hu in Hs2.
    cbn in Hs2. change (w_users w3) with (w_users w2). destruct (assoc u (w_users w2)) as [user3|]; [|done]. exists user3.
    split; [done|]. injection Hs2 as _ Hb3 _. congruence. }
  destruct Hu3 as (user3 & Hu3 & Hb3). destruct Hids as (_ & _ & _ & Hdv & _ & Hex).
  destruct (rotate_run cf row u user3 Kept w3) as (w4 & E4 & _); [|done|done|].
  { split; try done.
    - apply Hc.
    - intros t k (t0 & Hin0 & _ & (-> & -> & -> & _) & _ & Hlk)%delete_rows_elem Hk.
      destruct (rotated_fresh cf w w1 w2 u role dev t1 Hc S1 T1 T2 S2 t0 k Hin0 Hk) as (? & ? & ? & ?). destruct Hlk as [->| ->]; by split_and!.
    - change (w_now w3) with t3. rewrite Hex. cbn. lia.
    - exists u. change (w_devices w3) with (w_devices w2). rewrite Hdv, (ar_devices _ _ _ A2). cbn. rewrite (ar_devices _ _ _ A1). apply Hc. }
  exists (first_access w u role dev), (first_refresh w u dev), w1, (next_access v (first_row w dev) u (us_role user)),
    (next_refresh v (first_row w dev) u), w2. eexists _, w3, _, _, w4.
  split; [done|]. split; [done|]. split; [by apply (second_refused cf w u role dev w1 w2 t1 t3)|].
  split; [by apply cleanup_run|]. unfold next_refresh at 1. cbn [first_row rt_deviceId].
  rewrite refresh_run by (try done; first [apply uuid_nonempty|apply Hc]).
  unfold refresh_session. erewrite bind_step; [exact E4|]. unfold refresh_basis.
  rewrite (bind_step _ _ _ _ _ _ _ (run_db (TokenFindUnique (randomUUID (w_serial v))) Kept w3 Hdb)). cbn [fst snd do_query].
  change (w_serial v) with (w_serial w1). change (w_tokens w3) with (delete_rows (cleanup_due t3) (w_tokens w2)). rewrite Hfind.
  unfold replay_check. by rewrite Hsup.
Qed.

(** ** The gate of requests *)
Lemma not_banned id c w : (w_redis_up w = true -> w_redis w !! banKey id = None) ->
  (forall u user, id = Some u -> assoc u (w_users w) = Some user -> us_bannedAt user = None) ->
  exists w', run (isUserBanned id c) w = ((c, inr NotBanned), w').
Proof.
  intros Hk Hu. unfold isUserBanned. rewrite run_catch.
  assert (Hdb : w_db_up w = true -> (exists r, run (db (UserFindUnique id) c) w = ((c, r), w) /\ forall x, r = inr x -> verdict x = NotBanned)).
  { intros Hup. rewrite run_db by done. destruct id as [u|]; cbn; eexists; (split; [done|]); intros x; [|done].
    intros [= <-]. destruct (assoc u (w_users w)) as [user|] eqn:E; [|done]. cbn. by rewrite (Hu u user). }
  assert (Hdown : w_db_up w = false -> run (db (UserFindUnique id) c) w = ((c, inl (Failure "database")), w)).
  { intros Hup. unfold db, sends_to. rewrite run_call. cbn. by rewrite Hup. }
  assert (Hfall : run (catch (user ← db (UserFindUnique id); mret (verdict user)) (mret NotBanned) c) w = ((c, inr NotBanned), w)).
  { rewrite run_catch, run_hm_bind. destruct (w_db_up w); [|by rewrite Hdown]. destruct (Hdb eq_refl) as ([e|x] & -> & Hx); [done|]. cbn. by rewrite Hx. }
  assert (Hget : run (sends_to (RedisGet (banKey id)) c) w =
    ((c, if w_redis_up w then inr None else inl (Failure "redis")), w)).
  { unfold sends_to. rewrite run_call. cbn [do_cmd]. destruct (w_redis_up w); [|done]. unfold redis_get. by rewrite Hk. }
  destruct (w_redis_up w) eqn:Hr; [|rewrite (bind_throw _ _ _ _ _ _ _ Hget); by eexists].
  rewrite (bind_step _ _ _ _ _ _ _ Hget). rewrite bool_decide_eq_false_2 by done. cbn [truthy].
  destruct (w_db_up w); [|rewrite (bind_throw _ _ _ _ _ _ _ (Hdown eq_refl)); by eexists].
  destruct (Hdb eq_refl) as ([e|x] & E & Hx); [rewrite (bind_throw _ _ _ _ _ _ _ E); by eexists|].
  rewrite (bind_step _ _ _ _ _ _ _ E), Hx by done.
  destruct (setEx_run (banKey id) BAN_CACHE_TTL_SECONDS (js "OK") c w) as (w1 & E1 & _).
  rewrite (bind_step _ _ _ _ _ _ _ E1). by eexists.
Qed.

Lemma gate_ok id j c w : j <> [] -> (w_redis_up w = true -> w_redis w !! revokedKey j = None) ->
  (w_redis_up w = true -> w_redis w !! banKey id = None) ->
  (forall u user, id = Some u -> assoc u (w_users w) = Some user -> us_bannedAt user = None) ->
  exists w', run (evaluateTokenGate id (Some j) c) w = ((c, inr GateOk), w').
Proof.
  intros Hj Hrev Hk Hu. unfold evaluateTokenGate. rewrite truthy_some by done.
  assert (E : run (is_revoked (default [] (Some j)) c) w = ((c, inr false), w)).
  { unfold is_revoked. rewrite run_catch, run_hm_bind. unfold sends_to. rewrite run_call. cbn [do_cmd]. change (default [] (Some j)) with j.
    destruct (w_redis_up w); [|done]. unfold redis_get. by rewrite Hrev. }
  rewrite (bind_step _ _ _ _ _ _ _ E). destruct (not_banned id c w Hk Hu) as (w' & E'). rewrite (bind_step _ _ _ _ _ _ _ E'). by eexists.
Qed.

Lemma require_ok cl exp m url c w : w_now w / 1000 < exp -> cl_scope cl = None ->
  (exists w', run (evaluateTokenGate (cl_id cl) (cl_jti cl) c) w = ((c, inr GateOk), w')) ->
  exists w', run (requireAuth (Some (jwt_sign cl exp)) m url c) w = ((c, inr cl), w').
Proof.
  intros Hexp Hsc (w' & E). unfold requireAuth. rewrite truthy_some by apply signed_nonempty. cbn [negb].
  rewrite (bind_step _ _ _ _ _ _ _ (run_verify _ _ _)). cbn [from_option id]. rewrite verify_signed by done.
  unfold isOhttpScopedPayload. rewrite Hsc, bool_decide_eq_false_2 by done. cbn [andb].
  rewrite (bind_step _ _ _ _ _ _ _ E). by eexists.
Qed.

(** ** POST /api/auth/logout-all *)
Definition of_devices (ds : list jstr) (t : RefreshToken) : bool := existsb (fun d => bool_decide (d = rt_deviceId t)) ds && live t.
Definition devices_of (w : world) (u : option jstr) : list jstr := map fst (List.filter (fun d => matches u d.2) (w_devices w)).

Lemma logout_all_run u c w : w_db_up w = true ->
  exists n w', run (logout_all cf u c) w = ((Cleared, inr n), w') /\
    w_tokens w' = revoke_rows (of_devices (devices_of w u)) (w_now w) (w_tokens w) /\
    around (fun k => jti_keys (w_tokens w) k \/ active_key cf k) w w'.
Proof.
  intros Hup. unfold logout_all. rewrite (bind_step _ _ _ _ _ _ _ (run_db (DeviceFindMany u) c w Hup)). cbn [fst snd do_query].
  fold (devices_of w u). rewrite (bind_step _ _ _ _ _ _ _ (run_db (TokenFindMany (of_devices (devices_of w u))) c w Hup)). cbn [fst snd do_query].
  rewrite (bind_step _ _ _ _ _ _ _ (run_now _ _)).
  rewrite (bind_step _ _ _ _ _ _ _ (run_db (TokenUpdateMany (of_devices (devices_of w u)) (w_now w)) c w Hup)). cbn [fst snd do_query].
  set (l := List.filter _ (w_tokens w)). set (w1 := with_tokens w _ _).
  destruct (each_run (frame (jti_keys (w_tokens w))) (fun t => now ← date_now; blacklist now t) l c w1) as (w2 & E2 & F2).
  { intros t c' w' Hin. apply list_elem_of_In, filter_In in Hin as [Hin%list_elem_of_In _].
    rewrite (bind_step _ _ _ _ _ _ _ (run_now _ _)). unfold blacklist. destruct (0 <? _); [|by exists w'].
    destruct (setEx_run (revokedKey (rt_jti t)) ((rt_expiresAt t - w_now w') / 1000) (js "1") c' w') as (w'' & E & F & _).
    exists w''. split; [done|]. eapply frame_weaken, F. intros k ->. by exists t. }
  rewrite (bind_step _ _ _ _ _ _ _ E2). cbn beta.
  rewrite (bind_step clearAuthCookies _ c w2 Cleared tt w2 eq_refl).
  destruct (attempt_frame (active_key cf) (_ ← sends_to (RedisDel (identityKey cf "active_device" u)); invalidateActiveDeviceCache u) Cleared w2)
    as (w3 & E3 & F3).
  { apply (hmoves_bind _); [apply frame_del; by eexists|intros _]. unfold invalidateActiveDeviceCache.
    apply (hmoves_catch _); [apply frame_publish|apply (hmoves_ret _)]. }
  { apply kc_bind; [apply kc_send|intros _]. apply kc_catch; [apply kc_send|apply kc_ret]. }
  rewrite (bind_step _ _ _ _ _ _ _ E3).
  destruct (attempt_frame (active_key cf) (_ ← sends_to (Publish (ForceLogout u (Some (js "logout_all")) None));
               sends_to (Publish (Kick u (Some (js "LOGOUT_ALL")) None))) Cleared w3) as (w4 & E4 & F4).
  { apply (hmoves_bind _); [|intros _]; apply frame_publish. }
  { apply kc_bind; [|intros _]; apply kc_send. }
  rewrite (bind_step _ _ _ _ _ _ _ E4). eexists _, w4. split; [reflexivity|].
  split; [by rewrite (fr_tokens _ _ _ F4), (fr_tokens _ _ _ F3), (fr_tokens _ _ _ F2)|].
  transitivity w1; [by apply tokens_around|]. apply frame_around. transitivity w2; [eapply frame_weaken, F2; by left|].
  transitivity w3; eapply frame_weaken; [|exact F3| |exact F4]; by right.
Qed.

(** The blacklist does not reach access tokens. A user logs in, then logs out of all
    sessions: every refresh token of the user's devices is revoked. Yet the access token
    of the login passes the gate of authenticated requests until its fifteen minutes
    are over: the ids that are blacklisted are those of refresh tokens, and an access
    token has another one. *)
Theorem access_token_outlives_logout w u role dev t1 :
  can_log_in cf w u role dev -> (forall user, assoc u (w_users w) = Some user -> us_bannedAt user = None) ->
  w_redis w !! revokedKey (randomUUID (w_serial w)) = None -> w_redis w !! banKey (Some u) = None ->
  exists a1 r1 w1 n w2,
    run (start_session cf u role dev Kept) w = ((Assigned a1 r1, inr tt), w1) /\
    run (logout_all cf (Some u) Kept) (with_now w1 t1) = ((Cleared, inr n), w2) /\
    (forall t, t ∈ w_tokens w2 -> assoc (rt_deviceId t) (w_devices w2) = Some u -> live t = false) /\
    forall t2 m url, t2 / 1000 < w_now w / 1000 + ACCESS_TTL ->
      exists c w3, run (requireAuth (Some a1) m url Kept) (with_now w2 t2) = ((Kept, inr c), w3) /\ cl_id c = Some u.
Proof.
  intros Hc Hub Hrev Hban. destruct (session_started cf u role dev w Hc) as (w1 & E1 & T1 & S1 & A1).
  assert (Hup : w_db_up (with_now w1 t1) = true) by (cbn; rewrite (ar_db _ _ _ A1); apply Hc).
  destruct (logout_all_run (Some u) Kept _ Hup) as (n & w2 & E2 & T2 & A2).
  exists (first_access w u role dev), (first_refresh w u dev), w1, n, w2. split; [done|]. split; [done|]. split.
  { rewrite T2, (ar_devices _ _ _ A2). cbn. intros t (t0 & Hin & ->)%revoke_rows_elem.
    destruct (revoke_row_same (of_devices (devices_of (with_now w1 t1) (Some u))) t1 t0) as ((_ & _ & _ & Hd & _) & _). cbn in Hd. rewrite Hd.
    intros Ho. destruct (of_devices _ t0) eqn:Eo; [done|]. unfold of_devices in Eo. apply andb_false_iff in Eo as [Eo|Eo]; [|done].
    exfalso. apply not_true_iff_false in Eo. apply Eo. apply existsb_exists. exists (rt_deviceId t0). split; [|by apply bool_decide_eq_true].
    unfold devices_of. apply in_map_iff. exists (rt_deviceId t0, u). split; [done|]. apply filter_In.
    split; [by apply list_elem_of_In, assoc_elem|]. cbn. by apply bool_decide_eq_true. }
  intros t2 m url Ht2.
  assert (Hkeys : forall k, ~ active_key cf k -> ~ jti_keys (w_tokens w1) k -> w_redis w2 !! k = w_redis w !! k).
  { intros k Ha Hj. rewrite (ar_keys _ _ _ A2) by (cbn; tauto). cbn. by apply (ar_keys _ _ _ A1). }
  assert (Hact : forall a b s, a <> 97 -> ~ active_key cf (a :: b ++ s)) by (intros a b s Ha [x Hx]; by injection Hx).
  destruct (require_ok (access_claims u role dev (randomUUID (w_serial w))) (w_now w / 1000 + ACCESS_TTL) m url Kept (with_now w2 t2)) as (w3 & E3); [done|done| |].
  - apply gate_ok; [apply uuid_nonempty|..]; cbn [with_now w_redis w_users].
    + intros _. rewrite Hkeys; [done|by apply Hact|]. intros (t & Hin & Hk). apply app_inv_head in Hk. rewrite T1 in Hin.
      apply elem_of_app in Hin as [Hin|Hin%list_elem_of_singleton].
      * by destruct (started_rows cf w u role dev t Hc Hin (w_serial w)) as (_ & Hn & _).
      * subst t. cbn in Hk. apply uuid_distinct in Hk. lia.
    + intros _. rewrite Hkeys; [done|by apply Hact|]. intros (t & Hin & Hk). by injection Hk.
    + intros u' user [= <-] Hu. pose proof (ar_standing _ _ _ A2 u) as Hs2. pose proof (ar_standing _ _ _ A1 u) as Hs1. cbn in Hs2.
      rewrite Hu, Hs1 in Hs2. destruct (assoc u (w_users w)) as [user0|]; [|done]. cbn in Hs2. injection Hs2 as _ Hb _. rewrite Hb. by apply Hub.
  - eexists _, w3. by split.
Qed.

(** C18: a refresh token passes for an access token of nobody. The gate accepts a refresh
    cookie presented as the access cookie, since both are signed with one secret, and
    its claims have no user id. A query whose user id is undefined has no condition, so
    that logging this nobody out of all sessions revokes the live sessions of every
    user of the server. *)
Theorem refresh_cookie_ends_all_sessions w sub j dev exp m url :
  w_db_up w = true -> j <> [] -> w_now w / 1000 < exp ->
  w_redis w !! revokedKey j = None -> w_redis w !! banKey None = None ->
  (forall t, t ∈ w_tokens w -> exists u, assoc (rt_deviceId t) (w_devices w) = Some u) ->
  exists c w1 n w2,
    run (requireAuth (request_token (Some (jwt_sign (refresh_claims sub j dev) exp)) None None) m url Kept) w = ((Kept, inr c), w1) /\
    cl_id c = None /\ run (logout_all cf (cl_id c) Kept) w1 = ((Cleared, inr n), w2) /\
    map rt_jti (w_tokens w2) = map rt_jti (w_tokens w) /\ forall t, t ∈ w_tokens w2 -> live t = false.
Proof.
  intros Hup Hj Hexp Hrev Hban Hfk. unfold request_token. rewrite truthy_some by apply signed_nonempty.
  destruct (require_ok (refresh_claims sub j dev) exp m url Kept w Hexp eq_refl) as (w1 & E1).
  { by apply gate_ok. }
  pose proof (frame_require (Some (jwt_sign (refresh_claims sub j dev) exp)) m url Kept w) as F1. rewrite E1 in F1. cbn in F1.
  destruct (logout_all_run None Kept w1) as (n & w2 & E2 & T2 & _); [by rewrite (fr_db _ _ _ F1)|].
  exists (refresh_claims sub j dev), w1, n, w2. split; [done|]. split; [done|]. split; [done|].
  rewrite T2, (fr_tokens _ _ _ F1). split.
  - unfold revoke_rows. rewrite List.map_map. apply List.map_ext. intros t. by destruct (of_devices _ t).
  - intros t (t0 & Hin & ->)%revoke_rows_elem. destruct (of_devices _ t0) eqn:Eo; [done|].
    unfold of_devices in Eo. apply andb_false_iff in Eo as [Eo|Eo]; [|done]. exfalso. apply not_true_iff_false in Eo. apply Eo.
    destruct (Hfk t0 Hin) as [u Hu]. apply existsb_exists. exists (rt_deviceId t0). split; [|by apply bool_decide_eq_true].
    unfold devices_of. rewrite (fr_devices _ _ _ F1). apply in_map_iff. exists (rt_deviceId t0, u). split; [done|].
    apply filter_In. split; [by apply list_elem_of_In, assoc_elem|done].
Qed.
End Ending.

Import ToyAuth AtRest.ToyServer.

Definition w_bob : world := (run do_cmd (start_session cf0 (js "bob") None (js "phone") Kept) w0).2.
Definition w_both : world := (run do_cmd (start_session cf0 (js "eve") None (js "laptop") Kept) w_bob).2.
Definition row_bob : RefreshToken := first_row w0 (js "phone").

Lemma w_both_rows : w_tokens w_both = [row_bob; first_row w_bob (js "laptop")].
Proof. vm_compute. reflexivity. Qed.

Lemma w_both_fresh : fresh_ids w_both.
Proof.
  intros t k Hin Hk. rewrite w_both_rows in Hin. change (w_serial w_both) with 10%nat in Hk.
  apply elem_of_cons in Hin as [->|Hin%list_elem_of_singleton]; [|subst t]; cbn;
    split_and!; try done; intros [= E]; change (w_serial w_bob) with 5%nat in *; lia.
Qed.

Lemma session_revocation_witness : exists w', run do_cmd (delete_session (Some (js "bob")) (randomUUID 1) Kept) w_both = ((Kept, inr tt), w') /\
  forall w2 a, rtc (sys_step do_cmd weather) (map (in_flight cf0)
      [ReqLogin (js "eve") None (js "laptop");
       ReqRefresh (Some (jwt_sign (refresh_claims (js "bob") (randomUUID 1) (js "phone")) (5 + REFRESH_TTL_SEC)))], w')
    ([Ret (ReqLogin (js "eve") None (js "laptop"), inr tt);
      Ret (ReqRefresh (Some (jwt_sign (refresh_claims (js "bob") (randomUUID 1) (js "phone")) (5 + REFRESH_TTL_SEC))), a)], w2) -> a <> inr tt.
Proof.
  destruct (session_revocation cf0 w_both (js "bob") (randomUUID 1) row_bob) as (_ & w' & E & _ & Hall).
  - reflexivity.
  - exact w_both_fresh.
  - rewrite w_both_rows. vm_compute. apply NoDup_cons. split; [|apply NoDup_singleton].
    intros C%list_elem_of_singleton. discriminate C.
  - vm_compute. reflexivity.
  - vm_compute. reflexivity.
  - exists w'. split; [exact E|]. intros w2 a Hrun. destruct (Hall _ _ _ Hrun) as [_ Hq].
    apply (Hq 1%nat row_bob (js "bob") (js "phone") (5 + REFRESH_TTL_SEC) a); [rewrite w_both_rows; left|reflexivity|reflexivity].
Defined.

Lemma refused_token_revives_witness :
  exists r2 w2 n w3 a3 r3 w4,
    run do_cmd (refresh_endpoint cf0 (Some r2) Kept) (with_now w2 700905000) = ((Cleared, inl sessionEndedError), with_now w2 700905000) /\
    run do_cmd (cleanup_tokens 700905000 Kept) (with_now w2 700905000) = ((Kept, inr n), w3) /\
    run do_cmd (refresh_endpoint cf0 (Some r2) Kept) w3 = ((Assigned a3 r3, inr tt), w4).
Proof.
  destruct (refused_token_revives cf0 w0 (js "bob") None (js "phone") bob 905000 700905000)
    as (a1 & r1 & w1 & a2 & r2 & w2 & n & w3 & a3 & r3 & w4 & _ & _ & E3 & E4 & E5);
    [exact toy_can_log_in|vm_compute; (reflexivity || discriminate)..|].
  exists r2, w2, n, w3, a3, r3, w4. split; [exact E3|]. split; [exact E4|exact E5].
Defined.

Lemma access_token_outlives_logout_witness :
  exists a1 w1 n w2 c w3,
    run do_cmd (logout_all cf0 (Some (js "bob")) Kept) (with_now w1 6000) = ((Cleared, inr n), w2) /\
    run do_cmd (requireAuth (Some a1) (js "GET") (js "/api/messages") Kept) (with_now w2 700000) = ((Kept, inr c), w3) /\ cl_id c = Some (js "bob").
Proof.
  destruct (access_token_outlives_logout cf0 w0 (js "bob") None (js "phone") 6000) as (a1 & r1 & w1 & n & w2 & _ & E2 & _ & Hall).
  - exact toy_can_log_in.
  - intros user Hu. vm_compute in Hu. injection Hu as <-. reflexivity.
  - reflexivity.
  - reflexivity.
  - destruct (Hall 700000 (js "GET") (js "/api/messages")) as (c & w3 & E3 & Hid); [vm_compute; reflexivity|].
    exists a1, w1, n, w2, c, w3. split; [exact E2|]. split; [exact E3|exact Hid].
Defined.

Lemma refresh_cookie_ends_all_sessions_witness :
  exists c w1 n w2,
    run do_cmd (requireAuth (Some (jwt_sign (refresh_claims (js "eve") (randomUUID 6) (js "laptop")) (5 + REFRESH_TTL_SEC))) (js "POST") (js "/api/auth/logout-all") Kept) w_both
      = ((Kept, inr c), w1) /\
    run do_cmd (logout_all cf0 (cl_id c) Kept) w1 = ((Cleared, inr n), w2) /\
    map rt_jti (w_tokens w2) = [randomUUID 1; randomUUID 6] /\ forall t, t ∈ w_tokens w2 -> live t = false.
Proof.
  destruct (refresh_cookie_ends_all_sessions cf0 w_both (js "eve") (randomUUID 6) (js "laptop") (5 + REFRESH_TTL_SEC) (js "POST") (js "/api/auth/logout-all"))
    as (c & w1 & n & w2 & E1 & _ & E2 & Hj & Hl).
  - reflexivity.
  - discriminate.
  - vm_compute. reflexivity.
  - vm_compute. reflexivity.
  - vm_compute. reflexivity.
  - intros t Hin. rewrite w_both_rows in Hin. apply elem_of_cons in Hin as [->|Hin%list_elem_of_singleton]; [|subst t]; vm_compute; eexists; reflexivity.
  - exists c, w1, n, w2. split; [exact E1|]. split; [exact E2|]. split; [|exact Hl]. rewrite Hj. vm_compute. reflexivity.
Defined.
