(* ===== verification/GroupAccess.v ===== *)
(** Who may change a group, on the server: the gates of
    server/src/utils/groupAccess.ts and adminCapability.ts, and the endpoints they
    guard that the rotation of a group epoch uses (GET and POST /api/groups/:id/epoch,
    PUT /api/conversations/:id/details, POST /api/conversations/:id/key-rotation).
    Headers are the texts of X-Group-Token and X-Admin-Token; a table of conversations
    is the list of its rows. *)
From S2P Require Import Prelude Bytes Base64 Utf8 Js JsDate PqWire Sodium LocalAtRest Json AtRest Membership.
Import GroupTokens Routing.

Module GroupAccess.

(** The columns of Conversation beside those of GroupTokens. *)
Record group := mkGroup {
  gr_conv : conversation; gr_adminSecretHash : option jstr; gr_isGroup : bool;
  gr_createdAt : option Z; gr_messageSeq : option Z; gr_encryptedMetadata : option jstr }.

Record server := mkServer { sv_groups : list (jstr * group); sv_members : list member_row }.

Record headers := mkHeaders { h_groupToken : option jstr; h_adminToken : option jstr }.

Inductive GroupGate := GateOk | GateNo (status : Z) (error : string).
Definition BLIND_AUTH_REQUIRED : string := "BLIND_AUTH_REQUIRED: Invalid or missing X-Group-Token".
Definition MEMBERS_REMAIN : string := "MEMBERS_REMAIN: group still has active members".
Definition ADMIN_AUTH_REQUIRED : string := "ADMIN_AUTH_REQUIRED: Invalid or missing X-Admin-Token".

(** A response: a body, or a status with an error text. *)
Inductive http (A : Type) := HOk (a : A) | HErr (status : Z) (error : string).
Arguments HOk {A} a.
Arguments HErr {A} status error.

Section Ops.
Context `{ServerCrypto, Sodium, MembershipDb}.

(** ** adminCapability.ts *)
Definition extractHeader (value : option jstr) : jstr := default [] value.
Definition hashAdminToken (token : jstr) : jstr := AtRest.hex (sha256 (utf8_encode token)).
(** [safeEqualStrings] compares the bytes as [timingSafeEqualStr] does. *)
Definition isAdminTokenValid (adminSecretHash : option jstr) (presentedToken : jstr) : bool :=
  match adminSecretHash with
  | None | Some [] => false
  | Some h => if bool_decide (presentedToken = []) then false
              else AtRest.timingSafeEqualStr h (hashAdminToken presentedToken)
  end.
Definition requireAdminCapability (s : server) (id : jstr) (hd : headers) : GroupGate :=
  match assoc id (sv_groups s) with
  | None => GateNo 404 "Not found"
  | Some g => if isAdminTokenValid (gr_adminSecretHash g) (extractHeader (h_adminToken hd)) then GateOk
              else GateNo 403 ADMIN_AUTH_REQUIRED
  end.

(** ** groupAccess.ts *)
Definition groupToken (hd : headers) : jstr := extractHeader (h_groupToken hd).
Definition checkGroupToken (s : server) (id : jstr) (hd : headers) (now : Z) : GroupGate :=
  match assoc id (sv_groups s) with
  | None => GateNo 404 "Not found"
  | Some g =>
      if negb (AtRest.credentialTokenMatches (authSecret (gr_conv g)) (groupToken hd)) ||
         match groupTokenExpiresAt (gr_conv g) with Some e => e <=? now | None => false end
      then GateNo 403 BLIND_AUTH_REQUIRED else GateOk
  end.
Definition authorizeMemberMutation := checkGroupToken.
Definition authorizeMemberRemoval := requireAdminCapability.
Definition authorizeKeyRotation := requireAdminCapability.
Definition authorizeMemberLeave (ring : AtRest.AtRestKeyring) (s : server) (id : jstr) (hd : headers) (userId : jstr) (now : Z)
  : result GroupGate :=
  match checkGroupToken s id hd now with
  | GateOk => Ok GateOk
  | GateNo 404 e => Ok (GateNo 404 e)
  | tokenGate =>
      ownsDeliveryToken ← findMembership ring (sv_members s) userId id false None now;
      Ok (if (ownsDeliveryToken : bool) then GateOk else tokenGate)
  end.
Definition authorizeDetailsWrite (s : server) (id : jstr) (hd : headers) (now : Z) : GroupGate :=
  match checkGroupToken s id hd now with
  | GateOk => requireAdminCapability s id hd
  | GateNo _ _ => GateNo 403 BLIND_AUTH_REQUIRED
  end.
Definition members_of (s : server) (id : jstr) : list member_row :=
  filter (fun r => mr_conversationId r = id) (sv_members s).
Definition authorizeGroupPurge (s : server) (id : jstr) (hd : headers) : GroupGate :=
  match assoc id (sv_groups s) with
  | None => GateNo 404 "Not found"
  | Some g =>
      if negb (gr_isGroup g) then GateNo 400 "Not a group" else
      if negb (AtRest.credentialTokenMatches (authSecret (gr_conv g)) (groupToken hd)) then GateNo 403 BLIND_AUTH_REQUIRED else
      match requireAdminCapability s id hd with
      | GateOk => if 0 <? Z.of_nat (length (members_of s id)) then GateNo 409 MEMBERS_REMAIN else GateOk
      | gate => gate
      end
  end.

(** ** GET and POST /api/groups/:id/epoch *)
Record EpochStatus := mkStatus { es_epoch : Z; es_rotatedAt : option jstr; es_createdAt : option jstr; es_messageSeq : Z }.
Record EpochToken := mkEpochToken { et_token : jstr; et_epoch : Z; et_expiresAt : jstr }.
(** [date ? date.toISOString() : null]; an invalid date throws. *)
Definition iso_or_null (date : option Z) : option (option jstr) :=
  match date with None => Some None | Some t => match toISOString t with Some s => Some (Some s) | None => None end end.
Definition get_epoch (id : jstr) (hd : headers) (s : server) : http EpochStatus :=
  match requireAdminCapability s id hd with
  | GateNo st e => HErr st e
  | GateOk =>
      match assoc id (sv_groups s) with
      | None => HErr 404 "Not found"
      | Some g =>
          match iso_or_null (epochRotatedAt (gr_conv g)), iso_or_null (gr_createdAt g) with
          | Some rotatedAt, Some createdAt =>
              HOk (mkStatus (groupEpoch (gr_conv g)) rotatedAt createdAt (default 0 (gr_messageSeq g)))
          | _, _ => HErr 500 "Invalid time value"
          end
      end
  end.
Definition with_conv (g : group) (conv : conversation) : group :=
  mkGroup conv (gr_adminSecretHash g) (gr_isGroup g) (gr_createdAt g) (gr_messageSeq g) (gr_encryptedMetadata g).
(** [token] is what [newOpaqueToken] draws. *)
Definition post_epoch (id : jstr) (hd : headers) (token : jstr) (now : Z) (s : server) : http EpochToken * server :=
  match requireAdminCapability s id hd with
  | GateNo st e => (HErr st e, s)
  | GateOk =>
      match assoc id (sv_groups s) with
      | None => (HErr 500 "P2025", s)
      | Some g =>
          let '(conv', members', expiresAt) := rotateGroupToken (gr_conv g) (sv_members s) id token now in
          let s' := mkServer (map_set id (with_conv g conv') (sv_groups s)) members' in
          match toISOString expiresAt with
          | Some at_ => (HOk (mkEpochToken token (groupEpoch conv') at_), s')
          | None => (HErr 500 "Invalid time value", s')
          end
      end
  end.

(** ** utils/groupMetadataBlob.ts and PUT /api/conversations/:id/details

    A blob is read as Json reads texts: numbers are whole ones, which is all the
    client writes into the wrapper. *)
Fixpoint includes (p s : jstr) : bool :=
  startsWith p s || match s with [] => false | _ :: s' => includes p s' end.
Definition sanitizeGroupMetadataBlob (blob : jstr) : jstr :=
  if bool_decide (blob = []) then blob else
  if negb (includes (quote (js "senderId")) blob) then blob else
  match JSON_parse blob with
  | Some (JObj fields as parsed) =>
      match prop parsed "v", prop parsed "kind" with
      | JNum 2, JStr k =>
          if negb (bool_decide (k = js "group_metadata")) then blob else
          match assoc (js "senderId") fields with
          | None => blob
          | Some _ => JSON_stringify (JObj (List.filter (fun f => negb (bool_decide (f.1 = js "senderId"))) fields))
          end
      | _, _ => blob
      end
  | _ => blob
  end.
Definition put_details (id : jstr) (hd : headers) (encryptedMetadata : jstr) (now : Z) (s : server) : http unit * server :=
  match authorizeDetailsWrite s id hd now with
  | GateNo st e => (HErr st e, s)
  | GateOk =>
      match assoc id (sv_groups s) with
      | None => (HErr 500 "P2025", s)
      | Some g =>
          (HOk tt, mkServer (map_set id (mkGroup (gr_conv g) (gr_adminSecretHash g) (gr_isGroup g) (gr_createdAt g) (gr_messageSeq g)
             (Some (sanitizeGroupMetadataBlob encryptedMetadata))) (sv_groups s)) (sv_members s))
      end
  end.
(** POST key-rotation only touches the column updatedAt. *)
Definition post_key_rotation (id : jstr) (hd : headers) (s : server) : http unit :=
  match authorizeKeyRotation s id hd with GateNo st e => HErr st e | GateOk => HOk tt end.
End Ops.
End GroupAccess.

(** ** What a gate that opens has checked *)
Section GroupAccessLemmas.
Import GroupAccess.
Context `{ServerCrypto, Sodium, !ServerCryptoLaws, !MembershipDb}.

Definition holds_group_token (g : group) (hd : headers) (now : Z) : Prop :=
  groupToken hd <> [] /\ authSecret (gr_conv g) <> None /\ AtRest.credentialTokenMatches (authSecret (gr_conv g)) (groupToken hd) = true /\
  match groupTokenExpiresAt (gr_conv g) with Some e => now < e | None => True end.
Definition holds_admin_token (g : group) (hd : headers) : Prop :=
  exists h, gr_adminSecretHash g = Some h /\ isAdminTokenValid (Some h) (extractHeader (h_adminToken hd)) = true.

Lemma match_needs stored presented : AtRest.credentialTokenMatches stored presented = true -> presented <> [] /\ stored <> None.
Proof. unfold AtRest.credentialTokenMatches. destruct stored as [[|x s]|]; try done. case_bool_decide; done. Qed.

Lemma check_token_ok s id hd now : checkGroupToken s id hd now = GateOk <->
  exists g, assoc id (sv_groups s) = Some g /\ holds_group_token g hd now.
Proof.
  unfold checkGroupToken, holds_group_token. destruct (assoc id (sv_groups s)) as [g|]; [|split; [done|by intros (g & ? & _)]].
  destruct (AtRest.credentialTokenMatches _ _) eqn:E; cbn [negb orb].
  - apply match_needs in E as Hm. destruct (groupTokenExpiresAt (gr_conv g)) as [e|] eqn:Ee.
    + destruct (e <=? now) eqn:El; bools; split; try done.
      * intros (g' & [= <-] & _ & _ & _ & Hx). rewrite Ee in Hx. lia.
      * intros _. exists g. rewrite E, Ee. by repeat split; try apply Hm.
    + split; [|done]. intros _. exists g. rewrite E, Ee. by repeat split; try apply Hm.
  - split; [done|]. intros (g' & [= <-] & _ & _ & Hx & _). by rewrite E in Hx.
Qed.

Lemma admin_ok s id hd : requireAdminCapability s id hd = GateOk <->
  exists g, assoc id (sv_groups s) = Some g /\ holds_admin_token g hd.
Proof.
  unfold requireAdminCapability, holds_admin_token. destruct (assoc id (sv_groups s)) as [g|]; [|split; [done|by intros (g & ? & _)]].
  destruct (gr_adminSecretHash g) as [h|] eqn:Eh.
  - destruct (isAdminTokenValid (Some h) _) eqn:E; split; try done.
    + intros _. exists g. split; [done|]. by exists h.
    + intros (g' & [= <-] & h' & Hh & Hv). rewrite Eh in Hh. injection Hh as <-. by rewrite E in Hv.
  - split; [done|]. intros (g' & [= <-] & h & Hh & _). by rewrite Eh in Hh.
Qed.

End GroupAccessLemmas.
