(* ===== verification/KtLog.v ===== *)
(** The writer of the key-transparency log: server/src/utils/keyTransparency.ts.
    Minimal protobuf, gRPC framing, the log entry and the deduplicating writer.
    The HTTP/2 transport is a parameter: a request answered by bytes or an error. *)
From stdpp Require Import pretty.
From S2P Require Import Prelude Bytes Base64 Utf8 Text PqWire Sodium AtRest.

Module KtLog.

Definition KT_USERNAME_HASH_PREFIX : Z := 117.
Definition KT_USERNAME_HASH_BYTES : Z := 32.
Definition KT_DEDUPE_TTL_MS : Z := 10 * 60 * 1000.

(** *** Protobuf *)

(** [while (v > 0x7fn)]; the fuel is the bit length of the value. *)
Fixpoint varint_loop (fuel : nat) (v : Z) : bytes :=
  match fuel with
  | 0%nat => []
  | S k =>
      if 127 <? v then z2b (Z.lor (Z.land v 127) 128) :: varint_loop k (Z.shiftr v 7)
      else [z2b v]
  end.
Definition varint (value : Z) : bytes := varint_loop (S (Z.to_nat (Z.log2 value))) value.

(** [concatBytes(...parts)] *)
Fixpoint concat_into (out : bytes) (offset : Z) (parts : list bytes) : result bytes :=
  match parts with
  | [] => Ok out
  | p :: ps => out ← u8_set out offset p; concat_into out (offset + blen p) ps
  end.
Definition concatBytes (parts : list bytes) : result bytes :=
  concat_into (zeros (foldr (fun p sum => sum + blen p) 0 parts)) 0 parts.

Definition bytesField (field : Z) (value : bytes) : result bytes :=
  concatBytes [varint (Z.lor (Z.shiftl field 3) 2); varint (blen value); value].
Definition messageField (field : Z) (encoded : bytes) : result bytes := bytesField field encoded.
Definition boolField (field : Z) (value : bool) : result bytes :=
  if value then concatBytes [varint (Z.shiftl field 3); varint 1] else Ok [].
Definition uintField (field value : Z) : result bytes :=
  concatBytes [varint (Z.shiftl field 3); varint value].

Record KtConsistency := mkConsistency { last : option Z; distinguished : option Z }.
Record KtUpdateRequest := mkUpdate {
  u_searchKey : bytes; u_value : bytes; u_consistency : option KtConsistency;
  u_returnUpdateResponse : bool }.

Definition opt_field (field : Z) (v : option Z) : result (list bytes) :=
  match v with None => Ok [] | Some x => f ← uintField field x; Ok [f] end.

Definition encodeKtUpdateRequest (request : KtUpdateRequest) : result bytes :=
  f1 ← bytesField 1 (u_searchKey request);
  f2 ← bytesField 2 (u_value request);
  c1 ← opt_field 1 (u_consistency request ≫= last);
  c2 ← opt_field 2 (u_consistency request ≫= distinguished);
  consistency ← concatBytes (c1 ++ c2);
  f3 ← messageField 3 consistency;
  f5 ← boolField 5 (u_returnUpdateResponse request);
  concatBytes [f1; f2; f3; f5].

(** [readVarint]: at most ten bytes, the shift stays below 64. *)
Fixpoint read_varint_loop (k : nat) (b : bytes) (value shift index : Z) : option (Z * Z) :=
  match u8_get b index with
  | None => None
  | Some byte =>
      let value := Z.lor value (Z.shiftl (Z.land byte 127) shift) in
      let index := index + 1 in
      if Z.land byte 128 =? 0 then Some (value, index) else
      let shift := shift + 7 in
      if 63 <? shift then None else
      match k with 0%nat => None | S k' => read_varint_loop k' b value shift index end
  end.
Definition readVarint (b : bytes) (offset : Z) : option (Z * Z) := read_varint_loop 9 b 0 0 offset.

(** [Number(x)] of a non-negative bigint: the nearest double, ties to even. *)
Definition to_number (x : Z) : Z :=
  if x <? 9007199254740992 then x else
  let e := Z.log2 x - 52 in
  let q := Z.shiftr x e in
  let r := x - Z.shiftl q e in
  let half := Z.shiftl 1 (e - 1) in
  Z.shiftl (if (half <? r) || ((r =? half) && Z.odd q) then q + 1 else q) e.

Inductive proto_value := PBytes (b : bytes) | PVarint (v : Z).
Abbreviation proto_fields := (gmap Z (list proto_value)).

Definition push_field (fields : proto_fields) (field : Z) (v : proto_value) : proto_fields :=
  <[field := default [] (fields !! field) ++ [v]]> fields.

(** [while (offset < bytes.length)]: [None] when the fuel is used up. *)
Fixpoint proto_loop (fuel : nat) (b : bytes) (offset : Z) (fields : proto_fields) : option proto_fields :=
  match fuel with
  | 0%nat => None
  | S k =>
      if blen b <=? offset then Some fields else
      match readVarint b offset with
      | None => Some fields
      | Some (key, next) =>
          let field := to_number (Z.shiftr key 3) in
          let wire := Z.land key 7 in
          let offset := next in
          if wire =? 0 then
            match readVarint b offset with
            | None => Some fields
            | Some (value, next) => proto_loop k b next (push_field fields field (PVarint value))
            end
          else if wire =? 2 then
            match readVarint b offset with
            | None => Some fields
            | Some (len, start) =>
                let stop := start + to_number len in
                if blen b <? stop then Some fields
                else proto_loop k b stop (push_field fields field (PBytes (slice b start stop)))
            end
          else if wire =? 5 then proto_loop k b (offset + 4) fields
          else if wire =? 1 then proto_loop k b (offset + 8) fields
          else Some fields
      end
  end.

Definition decodeProtoFields (b : bytes) : proto_fields := default ∅ (proto_loop (S (length b)) b 0 ∅).

Record KtUpdateResponseSummary := mkSummary {
  treeSize : option Z; vrfProofLength : option Z; hasUpdateProof : bool }.

Definition first_field (fields : proto_fields) (k : Z) : option proto_value :=
  fields !! k ≫= head.

Definition summarizeKtUpdateResponse (b : bytes) : KtUpdateResponseSummary :=
  if blen b =? 0 then mkSummary None None false else
  let response := decodeProtoFields b in
  let treeSize :=
    match first_field response 1 with
    | Some (PBytes treeHead) =>
        match first_field (decodeProtoFields treeHead) 1 with
        | Some (PBytes head) =>
            match first_field (decodeProtoFields head) 1 with
            | Some (PVarint v) => Some v | _ => None end
        | _ => None
        end
    | _ => None
    end in
  mkSummary treeSize
    (match first_field response 2 with Some (PBytes p) => Some (blen p) | _ => None end)
    (bool_decide (is_Some (response !! 3)) || bool_decide (is_Some (response !! 4))).

(** *** gRPC framing *)
Definition frameGrpcMessage (message : bytes) : result bytes :=
  let frame := u8_store (zeros (5 + blen message)) 0 0 in
  frame ← set_u32 frame 1 (blen message);
  u8_set frame 5 message.

(** [while (buffer.length - offset >= 5)]: a frame takes at least five bytes, so
    the length of the buffer is enough fuel. *)
Fixpoint grpc_loop (fuel : nat) (buffer : bytes) (offset : Z) : result (list bytes * bytes) :=
  match fuel with
  | 0%nat => throw "out of fuel"
  | S k =>
      if blen buffer - offset <? 5 then Ok ([], slice_from buffer offset) else
      let compressed := default 0 (u8_get buffer offset) in
      length ← get_u32 buffer (offset + 1);
      if blen buffer - offset - 5 <? length then Ok ([], slice_from buffer offset) else
      if negb (compressed =? 0) then throw "GRPC_COMPRESSED_MESSAGE_UNSUPPORTED" else
      r ← grpc_loop k buffer (offset + (5 + length));
      Ok (slice buffer (offset + 5) (offset + 5 + length) :: r.1, r.2)
  end.
Definition parseGrpcFrames (buffer : bytes) : result (list bytes * bytes) :=
  grpc_loop (S (length buffer)) buffer 0.

(** *** Log entries *)
Record KtLogEntryInput := mkInput {
  i_usernameHash : string; i_identityKey : bytes; i_pqIdentityKey : bytes; i_signingKey : bytes;
  i_signingKeyV2 : option bytes; i_keyVersion : Z; i_updatedAtDay : Z }.
Record KtLogEntry := mkLogEntry {
  searchKey : bytes; value : bytes; keyVersion : Z; entryTag : string }.

(** [Buffer.from(text, 'base64')]: characters outside the alphabet are skipped. *)
Fixpoint buffer_sextets (s : string) : list Z :=
  match s with
  | EmptyString => []
  | String c s' => match dec64 c with Some v => v :: buffer_sextets s' | None => buffer_sextets s' end
  end.
Definition decodeBase64Url (value : string) : option bytes :=
  let normalized := str_map from_url value in
  let buffer := of_sextets (buffer_sextets normalized) in
  if blen buffer =? 0 then None else Some buffer.

Definition ktSearchKey (usernameHash : bytes) : result bytes :=
  if negb (blen usernameHash =? KT_USERNAME_HASH_BYTES) then throw "KT_USERNAME_HASH_LENGTH_INVALID" else
  concatBytes [[z2b KT_USERNAME_HASH_PREFIX]; usernameHash].

(** [digest('hex').slice(0, n)] *)
Definition hex_digit (v : Z) : Ascii.ascii := Ascii.ascii_of_nat (Z.to_nat (if v <? 10 then 48 + v else 87 + v)).
Fixpoint hex (b : bytes) : string :=
  match b with
  | [] => EmptyString
  | x :: r => String (hex_digit (b2z x / 16)) (String (hex_digit (b2z x mod 16)) (hex r))
  end.

Section Writer.
Context `{ServerCrypto}.

Definition ktEntryTag (searchKey : bytes) : string := String.substring 0 16 (hex (sha256 searchKey)).
Definition ktValueDigest (value : bytes) : string := String.substring 0 8 (hex (sha256 value)).

Definition buildKtLogEntry (input : KtLogEntryInput) : result KtLogEntry :=
  match decodeBase64Url (i_usernameHash input) with
  | None => throw "KT_USERNAME_HASH_INVALID"
  | Some usernameHash =>
      searchKey ← ktSearchKey usernameHash;
      match i_signingKeyV2 input with
      | Some v2 =>
          if negb (blen v2 =? Suite.ML_DSA_65_PUBLIC_KEY_BYTES) then throw "KT_V2_SIGNING_KEY_INVALID" else
          value ← KtValue.encodeKtValueV2 (KtValue.mkEntry (i_identityKey input) (i_pqIdentityKey input)
            (i_signingKey input) v2 (i_keyVersion input) (i_updatedAtDay input));
          Ok (mkLogEntry searchKey value (i_keyVersion input) (ktEntryTag searchKey))
      | None => throw "KT_V2_SIGNING_KEY_INVALID"
      end
  end.

(** The module state: the deduplication map and the labels counted in KT_WRITES. *)
Record writer_state := mkWriter { recentWrites : gmap string Z; counted : list string }.

Inductive KtTargetResult :=
| Written (treeSize : option Z)
| Skipped_duplicate
| Skipped_disabled
| Failed (reason : string).

Definition dedupeKey (entry : KtLogEntry) : string :=
  entryTag entry +:+ ":" +:+ pretty (keyVersion entry) +:+ ":" +:+ ktValueDigest (value entry).

Definition remember_write (m : gmap string Z) (key : string) (now : Z) : gmap string Z :=
  let m := <[key := now]> m in
  if 10000 <? Z.of_nat (size m)
  then filter (fun kt => now - kt.2 < KT_DEDUPE_TTL_MS) m else m.

(** [writeEntry]: the new state, the request that was sent, if any, and the
    result. [transport] answers a request. *)
Definition writeEntry (transport : bytes -> result bytes) (s : writer_state) (entry : KtLogEntry) (now : Z)
  : writer_state * option bytes * KtTargetResult :=
  let key := dedupeKey entry in
  let fresh_write :=
    match encodeKtUpdateRequest (mkUpdate (searchKey entry) (value entry) None true) with
    | Err reason => (mkWriter (recentWrites s) (counted s ++ ["error"%string]), None, Failed reason)
    | Ok request =>
        match transport request with
        | Err reason => (mkWriter (recentWrites s) (counted s ++ ["error"%string]), Some request, Failed reason)
        | Ok responseBytes =>
            let summary := summarizeKtUpdateResponse responseBytes in
            (mkWriter (remember_write (recentWrites s) key now) (counted s ++ ["ok"%string]),
             Some request, Written (treeSize summary))
        end
    end in
  match recentWrites s !! key with
  | Some last => if now - last <? KT_DEDUPE_TTL_MS then (s, None, Skipped_duplicate) else fresh_write
  | None => fresh_write
  end.

Definition commitKeyTransparencyEntry (transport : option (bytes -> result bytes)) (s : writer_state)
    (entry : KtLogEntry) (now : Z) : writer_state * option bytes * KtTargetResult :=
  match transport with
  | None => (s, None, Skipped_disabled)
  | Some t => writeEntry t s entry now
  end.

Definition publishKeyTransparencyEntry (transport : option (bytes -> result bytes)) (s : writer_state)
    (input : KtLogEntryInput) (now : Z) : writer_state * option bytes * KtTargetResult :=
  match transport with
  | None => (s, None, Skipped_disabled)
  | Some _ =>
      match buildKtLogEntry input with
      | Err reason =>
          let label := if bool_decide (reason = "KT_USERNAME_HASH_LENGTH_INVALID"%string)
                       then "unsupported_identifier"%string else "invalid"%string in
          (mkWriter (recentWrites s) (counted s ++ [label]), None, Failed reason)
      | Ok entry => commitKeyTransparencyEntry transport s entry now
      end
  end.

End Writer.
End KtLog.

Import KtLog.

(** ** Varints *)
Lemma log2_shiftr7 v : 127 < v -> Z.log2 (Z.shiftr v 7) = Z.log2 v - 7 /\ 7 <= Z.log2 v.
Proof.
  intros Hv. pose proof (Z.log2_le_mono 128 v ltac:(lia)) as Hl. change (Z.log2 128) with 7 in Hl.
  rewrite Z.log2_shiftr by lia. lia.
Qed.

Lemma varint_loop_fuel v : forall k k', 0 <= v ->
  (Z.to_nat (Z.log2 v) < k)%nat -> (Z.to_nat (Z.log2 v) < k')%nat ->
  varint_loop k v = varint_loop k' v.
Proof.
  intros k. revert v. induction k as [|k IH]; intros v [|k'] Hv Hk Hk'; try lia.
  cbn [varint_loop]. destruct (127 <? v) eqn:E; [|done]. bools.
  destruct (log2_shiftr7 v E) as [Hs Hl].
  rewrite (IH (Z.shiftr v 7) k'); [done|by apply Z.shiftr_nonneg|..]; rewrite Hs; lia.
Qed.

Lemma lor_128 x : 0 <= x < 128 -> Z.lor x 128 = x + 128.
Proof. intros Hx. exact (lor_shiftl x 1 7 ltac:(lia) Hx). Qed.

Lemma land_127 x : 0 <= x -> Z.land x 127 = x mod 128.
Proof. intros. change 127 with (Z.ones 7). by rewrite Z.land_ones. Qed.

Lemma land_128 x : 0 <= x < 256 -> Z.land x 128 = x / 128 * 128.
Proof.
  intros Hx. assert (E : Z.land x 128 = Z.land (Z.lor (x mod 128) (Z.shiftl (x / 128) 7)) (2 ^ 7)).
  { rewrite lor_shiftl by (try apply Z.mod_pos_bound; lia). change (2 ^ 7) with 128.
    f_equal. dlia. }
  rewrite E. assert (x / 128 = 0 \/ x / 128 = 1) as [->| ->] by dlia.
  - rewrite Z.lor_0_r. apply Z.bits_inj'. intros i Hi. rewrite Z.land_spec, Z.bits_0.
    rewrite Z.pow2_bits_eqb by lia. destruct (Z.eqb_spec 7 i) as [<-|]; [|apply andb_false_r].
    by rewrite (Z.mod_pow2_bits_high x 7) by lia.
  - rewrite Z.land_lor_distr_l. change (Z.land (Z.shiftl 1 7) (2 ^ 7)) with 128.
    replace (Z.land (x mod 128) (2 ^ 7)) with 0; [done|]. symmetry.
    apply Z.bits_inj'. intros i Hi. rewrite Z.land_spec, Z.bits_0.
    rewrite Z.pow2_bits_eqb by lia. destruct (Z.eqb_spec 7 i) as [<-|]; [|apply andb_false_r].
    by rewrite (Z.mod_pow2_bits_high x 7) by lia.
Qed.

Lemma varint_eq v : 0 <= v ->
  varint v = if 127 <? v then z2b (v mod 128 + 128) :: varint (v / 128) else [z2b v].
Proof.
  intros Hv. unfold varint at 1. cbn [varint_loop]. destruct (127 <? v) eqn:E; [|done]. bools.
  destruct (log2_shiftr7 v E) as [Hs Hl].
  rewrite lor_128; change 127 with (Z.ones 7); rewrite Z.land_ones by lia.
  - rewrite Z.shiftr_div_pow2 in Hs |- * by lia. change (2 ^ 7) with 128 in *. f_equal.
    unfold varint. apply varint_loop_fuel; [dlia|lia|lia].
  - apply Z.mod_pos_bound. lia.
Qed.

Lemma last_byte k v acc shift pre post :
  0 <= v <= 127 -> 0 <= shift -> 0 <= acc < 2 ^ shift ->
  read_varint_loop k (pre ++ [z2b v] ++ post) acc shift (blen pre) =
    Some (acc + v * 2 ^ shift, blen pre + blen [z2b v]).
Proof.
  intros Hv Hs Ha. destruct k; cbn [read_varint_loop];
    rewrite (u8_get_split _ pre v post), land_127, land_128 by (done || lia);
    rewrite Z.div_small, Z.mod_small by lia; cbn [Z.mul Z.eqb]; by rewrite lor_shiftl by lia.
Qed.

(** Reading back a varint in the middle of a buffer. *)
Lemma read_varint_ok k : forall v acc shift pre post,
  0 <= v < 2 ^ (7 * (Z.of_nat k + 1)) -> shift = 63 - 7 * Z.of_nat k -> 0 <= shift ->
  0 <= acc < 2 ^ shift ->
  read_varint_loop k (pre ++ varint v ++ post) acc shift (blen pre) =
    Some (acc + v * 2 ^ shift, blen pre + blen (varint v)).
Proof.
  induction k as [|k IH]; intros v acc shift pre post Hv Hs H0 Ha;
    rewrite varint_eq by lia; destruct (127 <? v) eqn:E; bools.
  - exfalso. change (2 ^ (7 * (Z.of_nat 0 + 1))) with 128 in Hv. lia.
  - apply last_byte; lia.
  - set (x := v mod 128).
    assert (Hx : 0 <= x < 128) by (apply Z.mod_pos_bound; lia).
    cbn [read_varint_loop].
    rewrite (u8_get_split _ pre (x + 128) (varint (v / 128) ++ post)) by (done || lia).
    rewrite (land_127 (x + 128)), (land_128 (x + 128)) by lia.
    replace ((x + 128) / 128 * 128 =? 0) with false by (symmetry; apply Z.eqb_neq; dlia).
    replace ((x + 128) mod 128) with x by dlia. rewrite lor_shiftl by lia.
    replace (63 <? shift + 7) with false by (symmetry; apply Z.ltb_ge; lia).
    replace (pre ++ (z2b (x + 128) :: varint (v / 128)) ++ post)
      with ((pre ++ [z2b (x + 128)]) ++ varint (v / 128) ++ post) by (by rewrite <- app_assoc).
    replace (blen pre + 1) with (blen (pre ++ [z2b (x + 128)])) by (autorewrite with nyx; lia).
    assert (Hp : 2 ^ (shift + 7) = 2 ^ shift * 128) by (by rewrite Z.pow_add_r by lia).
    rewrite IH; [| | |lia|].
    + apply (f_equal Some). apply pair_equal_spec. split; [|autorewrite with nyx; lia].
      rewrite Hp. replace v with (v / 128 * 128 + x) at 2 by (unfold x; dlia). ring.
    + replace (7 * (Z.of_nat (S k) + 1)) with (7 * (Z.of_nat k + 1) + 7) in Hv by lia.
      rewrite Z.pow_add_r in Hv by lia. change (2 ^ 7) with 128 in Hv. dlia.
    + lia.
    + rewrite Hp. nia.
  - apply last_byte; lia.
Qed.

Lemma concat_into_ok ps : forall pre off,
  off = blen pre ->
  concat_into (pre ++ zeros (foldr (fun p sum => sum + blen p) 0 ps)) off ps = Ok (pre ++ concat ps).
Proof.
  assert (Hpos : forall l : list bytes, 0 <= foldr (fun p sum => sum + blen p) 0 l).
  { induction l as [|p l IH]; cbn; [lia|]. pose proof (blen_nonneg p). lia. }
  induction ps as [|p ps IH]; intros pre off ->; [done|].
  pose proof (blen_nonneg p). pose proof (Hpos ps). cbn [concat_into foldr concat].
  rewrite u8_set_fill, bind_ok by lia.
  replace (foldr _ 0 ps + blen p - blen p) with (foldr (fun p sum => sum + blen p) 0 ps) by lia.
  rewrite IH by (by rewrite blen_app). by rewrite <- app_assoc.
Qed.

Lemma concat_parts_ok ps : concatBytes ps = Ok (concat ps).
Proof. exact (concat_into_ok ps [] 0 eq_refl). Qed.

Definition bytes_field (field : Z) (v : bytes) : bytes :=
  varint (Z.lor (Z.shiftl field 3) 2) ++ varint (blen v) ++ v.
Definition uint_field (field v : Z) : bytes := varint (Z.shiftl field 3) ++ varint v.

Lemma bytesField_ok field v : bytesField field v = Ok (bytes_field field v).
Proof. unfold bytesField. rewrite concat_parts_ok. cbn. by rewrite app_nil_r. Qed.

Lemma uintField_ok field v : uintField field v = Ok (uint_field field v).
Proof. unfold uintField. rewrite concat_parts_ok. cbn. by rewrite app_nil_r. Qed.

(** ** Decoding terminates: every turn of the loop advances *)
Lemma read_varint_advances k : forall b value shift index v next,
  0 <= index -> read_varint_loop k b value shift index = Some (v, next) ->
  index < next <= blen b.
Proof.
  induction k as [|k IH]; intros b value shift index v next Hi; cbn [read_varint_loop];
    destruct (u8_get b index) as [byte|] eqn:E; try done;
    (assert (index < blen b) by (unfold u8_get in E; destruct (index <? 0); [done|];
       apply fmap_Some in E as (x & Hx & _); apply lookup_lt_Some in Hx; unfold blen; lia));
    (destruct (Z.land byte 128 =? 0); [intros [= <- <-]; lia|]); destruct (63 <? shift + 7); try done.
  intros Hr. apply IH in Hr; lia.
Qed.

Lemma readVarint_advances b offset v next :
  0 <= offset -> readVarint b offset = Some (v, next) -> offset < next <= blen b.
Proof. apply read_varint_advances. Qed.

Lemma to_number_nonneg x : 0 <= x -> 0 <= to_number x.
Proof.
  intros Hx. unfold to_number. destruct (_ <? _); [done|]. apply Z.shiftl_nonneg.
  assert (0 <= Z.shiftr x (Z.log2 x - 52)) by (by apply Z.shiftr_nonneg).
  destruct (_ || _); lia.
Qed.

Lemma read_varint_nonneg k : forall b value shift index v next,
  0 <= value -> 0 <= shift -> read_varint_loop k b value shift index = Some (v, next) -> 0 <= v.
Proof.
  induction k as [|k IH]; intros b value shift index v next Hv Hs; cbn [read_varint_loop];
    destruct (u8_get b index) as [byte|] eqn:E; try done;
    (assert (0 <= Z.lor value (Z.shiftl (Z.land byte 127) shift))
       by (apply Z.lor_nonneg; split; [done|]; apply Z.shiftl_nonneg, Z.land_nonneg; right; done));
    (destruct (Z.land byte 128 =? 0); [by intros [= <- <-]|]); destruct (63 <? shift + 7); try done.
  apply IH; [done|lia].
Qed.

Lemma proto_loop_total fuel : forall b offset fields,
  0 <= offset -> Z.max 0 (blen b - offset) < Z.of_nat fuel -> exists r, proto_loop fuel b offset fields = Some r.
Proof.
  induction fuel as [|k IH]; intros b offset fields Ho Hf; cbn [proto_loop].
  - lia.
  - destruct (blen b <=? offset) eqn:Eo; [by eexists|]. bools.
    destruct (readVarint b offset) as [[key next]|] eqn:Ek; [|by eexists].
    apply readVarint_advances in Ek; [|done].
    destruct (_ =? 0); [|destruct (_ =? 2)].
    + destruct (readVarint b next) as [[v next']|] eqn:Ev; [|by eexists].
      apply readVarint_advances in Ev; [|lia]. apply IH; lia.
    + destruct (readVarint b next) as [[len start]|] eqn:Ev; [|by eexists].
      pose proof (read_varint_nonneg 9 b 0 0 next len start (Z.le_refl 0) (Z.le_refl 0) Ev) as Hl.
      apply to_number_nonneg in Hl.
      apply readVarint_advances in Ev; [|lia]. destruct (blen b <? _); [by eexists|]. apply IH; lia.
    + destruct (_ =? 5); [apply IH; lia|]. destruct (_ =? 1); [apply IH; lia|by eexists].
Qed.

Lemma proto_loop_fuel fuel : forall fuel' b offset fields r,
  proto_loop fuel b offset fields = Some r -> (fuel <= fuel')%nat ->
  proto_loop fuel' b offset fields = Some r.
Proof.
  induction fuel as [|k IH]; intros [|k'] b offset fields r; try (done || lia); cbn [proto_loop].
  intros H Hf. destruct (blen b <=? offset); [done|].
  destruct (readVarint b offset) as [[key next]|]; [|done].
  destruct (_ =? 0); [destruct (readVarint b next) as [[? ?]|]; [|done]; apply IH; [done|lia]|].
  destruct (_ =? 2).
  - destruct (readVarint b next) as [[? ?]|]; [|done]. destruct (blen b <? _); [done|].
    apply IH; [done|lia].
  - destruct (_ =? 5); [apply IH; [done|lia]|]. destruct (_ =? 1); [apply IH; [done|lia]|done].
Qed.

Lemma kt_decode_enough b fuel :
  (length b < fuel)%nat -> proto_loop fuel b 0 ∅ = Some (decodeProtoFields b).
Proof.
  intros Hf. unfold decodeProtoFields.
  destruct (proto_loop_total (S (length b)) b 0 ∅) as [r Hr]; [lia|unfold blen; lia|].
  rewrite Hr. apply (proto_loop_fuel (S (length b))); [done|lia].
Qed.

(** C38: decoding a protobuf message terminates on every input, malformed ones and
    length fields past the end included: the loop makes at most one turn per byte
    and one more, and more fuel never changes what it returns. *)
Theorem kt_decode_terminates b fuel :
  (length b < fuel)%nat -> proto_loop fuel b 0 ∅ = Some (decodeProtoFields b).
Proof. apply kt_decode_enough. Qed.

(** ** Reading back the fields that were written *)
Lemma readVarint_ok v pre post b off :
  b = pre ++ varint v ++ post -> off = blen pre -> 0 <= v < 2 ^ 70 ->
  readVarint b off = Some (v, off + blen (varint v)).
Proof.
  intros -> -> Hv. unfold readVarint. rewrite (read_varint_ok 9 v 0 0) by (done || lia).
  by rewrite Z.mul_1_r.
Qed.

Lemma to_number_small x : x < 9007199254740992 -> to_number x = x.
Proof. intros Hx. unfold to_number. by ztest. Qed.

(** The loop from [offset] on returns [r] when it has enough fuel. *)
Definition decoded (b : bytes) (offset : Z) (fields r : proto_fields) : Prop :=
  exists fuel, proto_loop fuel b offset fields = Some r.

Lemma decoded_fields b r : decoded b 0 ∅ r -> decodeProtoFields b = r.
Proof.
  intros [fuel Hr].
  assert (Hm : proto_loop (Nat.max fuel (S (length b))) b 0 ∅ = Some r)
    by (apply (proto_loop_fuel fuel); [done|lia]).
  rewrite kt_decode_enough in Hm by lia. by injection Hm.
Qed.

Lemma decoded_end b offset fields : offset = blen b -> decoded b offset fields fields.
Proof. intros ->. exists 1%nat. cbn. by rewrite Z.leb_refl. Qed.

Lemma varint_nonempty v : 0 <= v -> 0 < blen (varint v).
Proof.
  intros Hv. rewrite varint_eq by done. destruct (127 <? v); [|done].
  rewrite blen_cons. pose proof (blen_nonneg (varint (v / 128))). lia.
Qed.

Lemma decoded_bytes b pre post field key v fields r off :
  b = pre ++ (varint key ++ varint (blen v) ++ v) ++ post -> off = blen pre ->
  0 <= key < 2 ^ 53 -> Z.shiftr key 3 = field -> Z.land key 7 = 2 -> blen v < 2 ^ 53 ->
  decoded b (off + blen (varint key ++ varint (blen v) ++ v)) (push_field fields field (PBytes v)) r ->
  decoded b off fields r.
Proof.
  intros Hb -> Hk Hf Hw Hv [fuel Hr]. exists (S fuel). cbn [proto_loop].
  pose proof (blen_nonneg v). pose proof (varint_nonempty key ltac:(lia)).
  assert (Hl : blen b = blen pre + blen (varint key) + blen (varint (blen v)) + blen v + blen post)
    by (rewrite Hb; autorewrite with nyx; lia).
  pose proof (blen_nonneg post). pose proof (blen_nonneg (varint (blen v))).
  replace (blen b <=? blen pre) with false by (symmetry; apply Z.leb_gt; lia).
  rewrite (readVarint_ok key pre (varint (blen v) ++ v ++ post)) by
    (first [rewrite Hb; split_app | done | lia]).
  rewrite Hf, Hw. cbn [Z.eqb].
  change (2 =? 0) with false. change (2 =? 2) with true. cbn iota.
  rewrite (readVarint_ok (blen v) (pre ++ varint key) (v ++ post)) by
    (first [rewrite Hb; split_app | by rewrite blen_app | lia]).
  change (2 ^ 53) with 9007199254740992 in *.
  assert (field < 9007199254740992) by (subst field; rewrite Z.shiftr_div_pow2 by lia; change (2 ^ 3) with 8; dlia).
  rewrite !to_number_small by lia.
  replace (blen b <? _) with false by (symmetry; apply Z.ltb_ge; lia).
  rewrite (slice_split b (pre ++ varint key ++ varint (blen v)) v post) by
    (first [rewrite Hb; split_app | autorewrite with nyx; lia]).
  rewrite <- Hr. f_equal. autorewrite with nyx. lia.
Qed.

Lemma decoded_uint b pre post field key v fields r off :
  b = pre ++ (varint key ++ varint v) ++ post -> off = blen pre ->
  0 <= key < 2 ^ 53 -> Z.shiftr key 3 = field -> Z.land key 7 = 0 -> 0 <= v < 2 ^ 70 ->
  decoded b (off + blen (varint key ++ varint v)) (push_field fields field (PVarint v)) r ->
  decoded b off fields r.
Proof.
  intros Hb -> Hk Hf Hw Hv [fuel Hr]. exists (S fuel). cbn [proto_loop].
  pose proof (varint_nonempty key ltac:(lia)). pose proof (blen_nonneg post).
  pose proof (blen_nonneg (varint v)).
  assert (Hl : blen b = blen pre + blen (varint key) + blen (varint v) + blen post)
    by (rewrite Hb; autorewrite with nyx; lia).
  replace (blen b <=? blen pre) with false by (symmetry; apply Z.leb_gt; lia).
  rewrite (readVarint_ok key pre (varint v ++ post)) by
    (first [rewrite Hb; split_app | done | lia]).
  rewrite Hf, Hw. change (0 =? 0) with true. cbn iota.
  rewrite (readVarint_ok v (pre ++ varint key) post) by
    (first [rewrite Hb; split_app | by rewrite blen_app | lia]).
  change (2 ^ 53) with 9007199254740992 in *.
  assert (field < 9007199254740992) by (subst field; rewrite Z.shiftr_div_pow2 by lia; change (2 ^ 3) with 8; dlia).
  rewrite !to_number_small by lia. rewrite <- Hr. f_equal. autorewrite with nyx. lia.
Qed.

(** What a request without consistency anchors looks like on the wire. *)
Definition request_bytes (sk v : bytes) : bytes :=
  (varint 10 ++ varint (blen sk) ++ sk) ++ (varint 18 ++ varint (blen v) ++ v) ++
  (varint 26 ++ varint (blen []) ++ []) ++ (varint 40 ++ varint 1).

Lemma encode_request_ok sk v :
  encodeKtUpdateRequest (mkUpdate sk v None true) = Ok (request_bytes sk v).
Proof.
  unfold encodeKtUpdateRequest. cbn [u_searchKey u_value u_consistency u_returnUpdateResponse].
  rewrite !bytesField_ok, !bind_ok. unfold messageField, boolField.
  change (opt_field 1 _) with (@Ok (list bytes) []). change (opt_field 2 _) with (@Ok (list bytes) []).
  rewrite !bind_ok, !concat_parts_ok, bind_ok, bytesField_ok, bind_ok, bind_ok, concat_parts_ok.
  cbn [concat app]. rewrite !app_nil_r. unfold bytes_field, request_bytes. done.
Qed.

Definition request_fields (sk v : bytes) : proto_fields :=
  <[1 := [PBytes sk]]> (<[2 := [PBytes v]]> (<[3 := [PBytes []]]> (<[5 := [PVarint 1]]> ∅))).

Lemma decode_request_ok sk v :
  blen sk < 2 ^ 53 -> blen v < 2 ^ 53 -> decodeProtoFields (request_bytes sk v) = request_fields sk v.
Proof.
  intros Hs Hv. apply decoded_fields.
  set (a1 := varint 10 ++ varint (blen sk) ++ sk). set (a2 := varint 18 ++ varint (blen v) ++ v).
  set (a3 := varint 26 ++ varint (blen []) ++ []). set (a5 := varint 40 ++ varint 1).
  unfold request_bytes. fold a1 a2 a3 a5. set (b := a1 ++ _).
  apply (decoded_bytes b [] (a2 ++ a3 ++ a5) 1 10 sk); [done|done|lia|done|done|done|]. fold a1.
  apply (decoded_bytes b a1 (a3 ++ a5) 2 18 v); [done|lia|lia|done|done|done|]. fold a2.
  apply (decoded_bytes b (a1 ++ a2) a5 3 26 []);
    [subst b; split_app|rewrite blen_app; lia|lia|done|done|done|]. fold a3.
  apply (decoded_uint b (a1 ++ a2 ++ a3) [] 5 40 1);
    [subst b; split_app|rewrite !blen_app; lia|lia|done|done|lia|]. fold a5.
  replace (push_field _ 5 _) with (request_fields sk v); [|].
  - apply decoded_end. subst b. rewrite !blen_app. lia.
  - unfold push_field, request_fields. rewrite lookup_empty.
    repeat (rewrite lookup_insert_ne by done). rewrite !lookup_empty. cbn.
    rewrite (insert_insert_ne _ 5 3), (insert_insert_ne _ 5 2), (insert_insert_ne _ 5 1) by done.
    rewrite (insert_insert_ne _ 3 2), (insert_insert_ne _ 3 1), (insert_insert_ne _ 2 1) by done. done.
Qed.

(** ** gRPC frames *)

Lemma get_u32_nonneg b off v : get_u32 b off = Ok v -> 0 <= v.
Proof.
  unfold get_u32. destruct (slice b off (off + 4)) as [|? [|? [|? [|? [|? ?]]]]]; try done.
  intros [= <-]. apply u32_of_range.
Qed.

Lemma split_at (b : bytes) n : 0 <= n <= blen b -> exists x y, b = x ++ y /\ blen x = n.
Proof.
  intros Hn. exists (take (Z.to_nat n) b), (drop (Z.to_nat n) b).
  split; [symmetry; apply take_drop|]. unfold blen in *. rewrite length_take. lia.
Qed.

(** Reads relative to a prefix. *)
Lemma slice_shift (a b : bytes) i j : 0 <= i -> slice (a ++ b) (blen a + i) (blen a + j) = slice b i j.
Proof.
  intros Hi. unfold slice, blen.
  replace (Z.to_nat (Z.of_nat (length a) + i)) with (length a + Z.to_nat i)%nat by lia.
  rewrite <- drop_drop, drop_app_length. f_equal. lia.
Qed.

Lemma get_u32_shift a b i : 0 <= i -> get_u32 (a ++ b) (blen a + i) = get_u32 b i.
Proof. intros Hi. unfold get_u32. rewrite <- Z.add_assoc. by rewrite slice_shift. Qed.

Lemma u8_get_shift a b i : 0 <= i -> u8_get (a ++ b) (blen a + i) = u8_get b i.
Proof.
  intros Hi. unfold u8_get. pose proof (blen_nonneg a). ztest. unfold blen.
  rewrite lookup_app_r by lia. do 2 f_equal. lia.
Qed.

(** A frame is parsed the same way wherever it lies in the buffer. *)
Lemma grpc_loop_shift k : forall a b,
  grpc_loop k (a ++ b) (blen a) = grpc_loop k b 0.
Proof.
  induction k as [|k IH]; intros a b; [done|]. cbn [grpc_loop].
  rewrite blen_app, slice_from_app by done. change (slice_from b 0) with b.
  replace (blen a + blen b - blen a) with (blen b) by lia. rewrite Z.sub_0_r.
  destruct (blen b <? 5) eqn:E5; [done|]. bools.
  assert (Hg : u8_get (a ++ b) (blen a) = u8_get b 0)
    by (rewrite <- (u8_get_shift a b 0) by lia; f_equal; lia).
  rewrite Hg, get_u32_shift by lia.
  change (0 + 1) with 1. destruct (get_u32 b 1) as [len|] eqn:El; [|done]. rewrite !bind_ok.
  destruct (blen b - 5 <? len) eqn:Es; [done|]. bools. destruct (negb _); [done|].
  apply get_u32_nonneg in El.
  rewrite <- (Z.add_assoc (blen a) 5 len), (slice_shift a b 5 (5 + len)) by lia.
  destruct (split_at b (5 + len)) as (x & y & -> & Hx); [lia|].
  rewrite app_assoc, Z.add_0_l, <- Hx, <- blen_app. by rewrite !IH.
Qed.

Lemma grpc_loop_fuel k : forall k' b,
  (length b < k)%nat -> (length b < k')%nat -> grpc_loop k b 0 = grpc_loop k' b 0.
Proof.
  induction k as [|k IH]; intros [|k'] b Hk Hk'; try lia. cbn [grpc_loop]. rewrite Z.sub_0_r.
  destruct (blen b <? 5) eqn:E5; [done|]. bools.
  destruct (get_u32 b _) as [len|] eqn:El; [|done]. rewrite !bind_ok.
  destruct (_ <? len) eqn:Es; [done|]. bools. destruct (negb _); [done|].
  apply get_u32_nonneg in El. destruct (split_at b (5 + len)) as (x & y & -> & Hx); [lia|].
  rewrite Z.add_0_l, <- Hx, !grpc_loop_shift.
  rewrite length_app in Hk, Hk'. unfold blen in Hx. by rewrite (IH k' y) by lia.
Qed.

(** One turn of the parser, without offsets and fuel. *)
Lemma parseGrpcFrames_step x y :
  blen x = 5 + default 0 (match get_u32 x 1 with Ok n => Some n | Err _ => None end) -> 5 <= blen x ->
  parseGrpcFrames (x ++ y) =
    if negb (default 0 (u8_get x 0) =? 0) then throw "GRPC_COMPRESSED_MESSAGE_UNSUPPORTED" else
    r ← parseGrpcFrames y; Ok (slice_from x 5 :: r.1, r.2).
Proof.
  intros Hx H5. pose proof (blen_nonneg y).
  destruct (get_u32 x 1) as [len|] eqn:El; [|cbn in Hx; unfold get_u32, slice, blen in *;
    do 5 (destruct x as [|? x]; [cbn in *; lia|]); done].
  cbn [default from_option] in Hx. unfold Datatypes.id in Hx.
  assert (Hu : get_u32 (x ++ y) 1 = Ok len).
  { rewrite <- El. unfold get_u32, slice, blen in *. do 5 (destruct x as [|? x]; [cbn in *; lia|]). done. }
  unfold parseGrpcFrames at 1. cbn [grpc_loop]. change (0 + 1) with 1.
  rewrite blen_app, Z.sub_0_r, Hu, bind_ok.
  pose proof (get_u32_nonneg _ _ _ El). ztest.
  rewrite u8_get_app_l by lia. destruct (negb _); [done|].
  rewrite Z.add_0_l, <- Hx, grpc_loop_shift. unfold parseGrpcFrames.
  rewrite (grpc_loop_fuel _ (S (length y)) y) by (rewrite ?length_app; unfold blen in *; lia).
  destruct (grpc_loop _ y 0) as [r|]; [|done]. rewrite !bind_ok. do 2 f_equal.
  destruct (split_at x 5) as (h & m & -> & Hh); [lia|].
  rewrite slice_from_app by done. rewrite <- app_assoc, slice_app_at; [done|done|].
  rewrite blen_app. lia.
Qed.

Lemma parseGrpcFrames_short b : blen b < 5 -> parseGrpcFrames b = Ok ([], b).
Proof. intros Hb. unfold parseGrpcFrames. cbn [grpc_loop]. rewrite Z.sub_0_r. by ztest. Qed.

Lemma parseGrpcFrames_partial b len :
  get_u32 b 1 = Ok len -> blen b < 5 + len -> parseGrpcFrames b = Ok ([], b).
Proof.
  intros El Hb. unfold parseGrpcFrames. cbn [grpc_loop]. rewrite Z.sub_0_r. change (0 + 1) with 1.
  destruct (blen b <? 5); [done|]. rewrite El, bind_ok. by ztest.
Qed.

(** Every buffer is short, ends inside its first frame, or starts with a frame. *)
Lemma grpc_cases b :
  blen b < 5 \/ (exists len, get_u32 b 1 = Ok len /\ blen b < 5 + len) \/
  (exists x y, b = x ++ y /\ 5 <= blen x /\
     blen x = 5 + default 0 (match get_u32 x 1 with Ok n => Some n | Err _ => None end)).
Proof.
  destruct (Z.lt_ge_cases (blen b) 5) as [|H5]; [by left|right].
  assert (exists len, get_u32 b 1 = Ok len) as [len El].
  { unfold get_u32, slice, blen in *. do 5 (destruct b as [|? b]; [cbn in *; lia|]). cbn. eauto. }
  destruct (Z.lt_ge_cases (blen b) (5 + len)) as [|Hl]; [left; eauto|right].
  pose proof (get_u32_nonneg _ _ _ El).
  destruct (split_at b (5 + len)) as (x & y & -> & Hx); [lia|]. exists x, y. split_and!; [done|lia|].
  replace (get_u32 x 1) with (get_u32 (x ++ y) 1); [by rewrite El|].
  unfold get_u32, slice, blen in *. do 5 (destruct x as [|? x]; [cbn in *; lia|]). done.
Qed.

(** The parser of gRPC frames does not depend on how the stream was cut. Parsing
    a first chunk, and then what it left over followed by the rest, gives the same
    messages, the same remainder and the same error as parsing everything at once. *)
Theorem grpc_chunking a b :
  parseGrpcFrames (a ++ b) =
    r1 ← parseGrpcFrames a; r2 ← parseGrpcFrames (r1.2 ++ b); Ok (r1.1 ++ r2.1, r2.2).
Proof.
  induction (Wf_nat.well_founded_ltof _ (@length byte) a) as [a _ IH].
  assert (Hleft : parseGrpcFrames a = Ok ([], a) -> parseGrpcFrames (a ++ b) =
    r1 ← parseGrpcFrames a; r2 ← parseGrpcFrames (r1.2 ++ b); Ok (r1.1 ++ r2.1, r2.2)).
  { intros ->. rewrite bind_ok. cbn [fst snd app].
    by destruct (parseGrpcFrames (a ++ b)) as [[ms r]|]. }
  destruct (grpc_cases a) as [Hs|[(len & El & Hl)|(x & y & -> & H5 & Hx)]].
  - apply Hleft. by apply parseGrpcFrames_short.
  - apply Hleft. by apply (parseGrpcFrames_partial a len).
  - rewrite <- app_assoc, (parseGrpcFrames_step x (y ++ b)), (parseGrpcFrames_step x y) by done.
    destruct (negb _); [done|].
    rewrite IH by (unfold ltof, blen in *; rewrite length_app; lia).
    destruct (parseGrpcFrames y) as [[ms r]|]; [|done]. rewrite !bind_ok. cbn [fst snd].
    by destruct (parseGrpcFrames (r ++ b)) as [[ms' r']|].
Qed.

Lemma frame_shape m : frameGrpcMessage m = Ok ([z2b 0] ++ be32 (blen m) ++ m).
Proof.
  unfold frameGrpcMessage. pose proof (blen_nonneg m). rewrite u8_store_first by lia.
  rewrite set_u32_fill, bind_ok by (done || lia).
  rewrite u8_set_fill' by (done || lia). rewrite zeros_nil, app_nil_r by lia.
  by rewrite <- app_assoc.
Qed.

Lemma parse_framed m f rest :
  frameGrpcMessage m = Ok f -> blen m < 4294967296 ->
  parseGrpcFrames (f ++ rest) = r ← parseGrpcFrames rest; Ok (m :: r.1, r.2).
Proof.
  rewrite frame_shape. intros [= <-] Hm. pose proof (blen_nonneg m).
  assert (Hu : get_u32 ([z2b 0] ++ be32 (blen m) ++ m) 1 = Ok (blen m))
    by (by apply (get_u32_split _ [z2b 0] m)).
  change (z2b 0 :: ?a :: ?b :: ?c :: ?d :: m) with ([z2b 0] ++ be32 (blen m) ++ m).
  rewrite parseGrpcFrames_step.
  - change (u8_get ([z2b 0] ++ be32 (blen m) ++ m) 0) with (Some 0). done.
  - rewrite Hu. autorewrite with nyx. cbn. lia.
  - autorewrite with nyx. lia.
Qed.

(** ** What is published *)
Section WriterLemmas.
Context `{SC : ServerCrypto}.

Lemma buildKtLogEntry_inv input e :
  buildKtLogEntry input = Ok e ->
  exists uh v2, decodeBase64Url (i_usernameHash input) = Some uh /\ blen uh = KT_USERNAME_HASH_BYTES /\
    i_signingKeyV2 input = Some v2 /\ searchKey e = z2b KT_USERNAME_HASH_PREFIX :: uh /\
    keyVersion e = i_keyVersion input /\
    KtValue.encodeKtValueV2 (KtValue.mkEntry (i_identityKey input) (i_pqIdentityKey input)
      (i_signingKey input) v2 (i_keyVersion input) (i_updatedAtDay input)) = Ok (value e).
Proof.
  unfold buildKtLogEntry. destruct (decodeBase64Url _) as [uh|]; [|done]. unfold ktSearchKey.
  destruct (negb _) eqn:El; [done|]. bools. rewrite concat_parts_ok, bind_ok.
  destruct (i_signingKeyV2 input) as [v2|]; [|done]. destruct (negb _); [done|].
  destruct (KtValue.encodeKtValueV2 _) as [v|] eqn:Ev; [|done]. rewrite bind_ok. intros [= <-].
  exists uh, v2. cbn. rewrite app_nil_r. done.
Qed.

Lemma writeEntry_request transport s e now s' req res :
  writeEntry transport s e now = (s', Some req, res) -> req = request_bytes (searchKey e) (value e).
Proof.
  unfold writeEntry. rewrite encode_request_ok.
  destruct (recentWrites s !! _); [destruct (_ <? _); [done|]|];
    (destruct (transport _); intros [= <- <- <-]; done).
Qed.

Lemma blen_kt_value en v : KtValue.encodeKtValueV2 en = Ok v -> blen v = 3238.
Proof.
  intros E%encodeKtValueV2_inv. destruct E as (-> & H1 & H2 & H3 & H4). autorewrite with nyx. lia.
Qed.

(** What the server publishes can be read back by anyone. Whenever publishing an
    entry sends a request, the gRPC frame of that request parses to exactly one
    message, whose protobuf fields are the search key 0x75 followed by the 32-byte
    username hash, the log value, an empty consistency message and the response
    flag; and the log value parses to the four keys of the entry. *)
Theorem kt_publish_wire transport s input now s' req res :
  publishKeyTransparencyEntry (Some transport) s input now = (s', Some req, res) ->
  exists uh v2 f v, decodeBase64Url (i_usernameHash input) = Some uh /\ blen uh = 32 /\
    i_signingKeyV2 input = Some v2 /\
    frameGrpcMessage req = Ok f /\ parseGrpcFrames f = Ok ([req], []) /\
    decodeProtoFields req =
      <[1 := [PBytes (x75 :: uh)]]> (<[2 := [PBytes v]]> (<[3 := [PBytes []]]> (<[5 := [PVarint 1]]> ∅))) /\
    KtValue.parseKtValueBytes v =
      Ok (KtValue.mkKtValue 2 (i_keyVersion input mod 256) (i_identityKey input) (i_pqIdentityKey input)
        (i_signingKey input) (Some v2) (i_updatedAtDay input mod 4294967296)).
Proof.
  unfold publishKeyTransparencyEntry. destruct (buildKtLogEntry input) as [e|] eqn:Eb; [|done].
  cbn [commitKeyTransparencyEntry]. intros Hw. apply writeEntry_request in Hw as ->.
  apply buildKtLogEntry_inv in Eb as (uh & v2 & Hd & Hl & Hv2 & Hs & _ & Hv).
  pose proof (blen_kt_value _ _ Hv) as Hlv. unfold KT_USERNAME_HASH_BYTES in Hl.
  set (req := request_bytes _ _).
  exists uh, v2, ([z2b 0] ++ be32 (blen req) ++ req), (value e).
  assert (Hreq : blen req < 4294967296).
  { subst req. unfold request_bytes. rewrite Hs, Hlv. autorewrite with nyx. rewrite Hl, Hlv.
    vm_compute. done. }
  split_and!; [done|done|done|apply frame_shape| | |].
  - rewrite <- (app_nil_r ([z2b 0] ++ be32 (blen req) ++ req)).
    rewrite (parse_framed req) by (done || apply frame_shape). by rewrite parseGrpcFrames_short.
  - unfold req. rewrite Hs, decode_request_ok; [done| |]; rewrite ?blen_cons; lia.
  - exact (kt_value_roundtrip _ _ Hv).
Qed.

(** ** Deduplication *)

(** The writer with the history of its successful writes and the last time. *)
Inductive kt_step : writer_state * list (string * Z) * Z -> writer_state * list (string * Z) * Z -> Prop :=
| kt_write transport s s' hist entry now now' req res :
    now <= now' -> writeEntry transport s entry now' = (s', req, res) ->
    kt_step (s, hist, now)
      (s', match res with Written _ => (dedupeKey entry, now') :: hist | _ => hist end, now').

Record kt_inv (x : writer_state * list (string * Z) * Z) : Prop := {
  ki_from : forall k t, recentWrites x.1.1 !! k = Some t -> (k, t) ∈ x.1.2;
  ki_kept : forall k t, (k, t) ∈ x.1.2 -> x.2 - t < KT_DEDUPE_TTL_MS ->
    exists t', recentWrites x.1.1 !! k = Some t' /\ t <= t';
  ki_past : forall k t, (k, t) ∈ x.1.2 -> t <= x.2 }.

Lemma remember_write_lookup m key now k t :
  remember_write m key now !! k = Some t -> <[key := now]> m !! k = Some t.
Proof.
  unfold remember_write. destruct (10000 <? _); [|done].
  rewrite map_lookup_filter_Some. tauto.
Qed.

Lemma remember_write_kept m key now k t :
  <[key := now]> m !! k = Some t -> now - t < KT_DEDUPE_TTL_MS -> remember_write m key now !! k = Some t.
Proof.
  unfold remember_write. destruct (10000 <? _); [|done].
  rewrite map_lookup_filter_Some. done.
Qed.

Lemma kt_step_inv x y : kt_inv x -> kt_step x y -> kt_inv y.
Proof.
  intros [Hf Hk Hp] Hs. destruct Hs as [transport s s' hist entry now now' req res Hle Hw].
  cbn [fst snd] in *.
  assert (Hsame : recentWrites s' = recentWrites s -> kt_inv (s', hist, now')).
  { intros E. split; cbn; rewrite ?E; [done| |].
    - intros k t Hin Ht. apply Hk; [done|lia].
    - intros k t Hin. specialize (Hp k t Hin). lia. }
  unfold writeEntry in Hw. rewrite encode_request_ok in Hw.
  assert (Hfresh : match transport (request_bytes (searchKey entry) (value entry)) with
    | Err reason => (mkWriter (recentWrites s) (counted s ++ ["error"%string]),
        Some (request_bytes (searchKey entry) (value entry)), Failed reason)
    | Ok responseBytes => (mkWriter (remember_write (recentWrites s) (dedupeKey entry) now')
        (counted s ++ ["ok"%string]), Some (request_bytes (searchKey entry) (value entry)),
        Written (treeSize (summarizeKtUpdateResponse responseBytes)))
    end = (s', req, res) ->
    kt_inv (s', match res with Written _ => (dedupeKey entry, now') :: hist | _ => hist end, now')).
  { destruct (transport _) as [resp|reason]; intros [= <- <- <-]; [|by apply Hsame].
    split; cbn [fst snd recentWrites].
    - intros k t Ht%remember_write_lookup. apply lookup_insert_Some in Ht as [[<- <-]|[_ Ht]]; [by left|].
      right. by apply Hf.
    - intros k t [[= -> ->]|Hin]%elem_of_cons Ht.
      { exists now'. split; [|lia]. apply remember_write_kept; [apply lookup_insert_eq|done]. }
      destruct (decide (dedupeKey entry = k)) as [<-|Hne].
      { exists now'. split; [|specialize (Hp _ _ Hin); lia].
        apply remember_write_kept; [apply lookup_insert_eq|]. unfold KT_DEDUPE_TTL_MS. lia. }
      destruct (Hk k t Hin) as (t' & Ht' & Hle'); [lia|]. exists t'. split; [|done].
      apply remember_write_kept; [by rewrite lookup_insert_ne|lia].
    - intros k t [[= -> ->]|Hin]%elem_of_cons; [lia|]. specialize (Hp k t Hin). lia. }
  destruct (recentWrites s !! dedupeKey entry) as [t|]; [|by apply Hfresh].
  destruct (_ <? _); [injection Hw as <- <- <-; by apply Hsame|by apply Hfresh].
Qed.

(** The log writer is idempotent and loses no change. Over any history of
    writes, with transport failures anywhere, a call is skipped exactly when an entry
    with the same search-key tag, key version and value digest was written
    successfully less than ten minutes before; every other call sends its request,
    and the memory of past writes may be swept in between without changing this. *)
Theorem kt_dedupe_exact counters now s hist t entry transport now' :
  rtc kt_step (mkWriter ∅ counters, [], t) (s, hist, now) -> now <= now' ->
  let '(_, sent, res) := writeEntry transport s entry now' in
  (res = Skipped_duplicate <->
     exists t', (dedupeKey entry, t') ∈ hist /\ now' - t' < KT_DEDUPE_TTL_MS) /\
  (res <> Skipped_duplicate -> sent = Some (request_bytes (searchKey entry) (value entry))).
Proof.
  intros Hr Hle. assert (Hi : kt_inv (s, hist, now)).
  { apply (rtc_invariant kt_step kt_inv) with (mkWriter ∅ counters, [], t); [apply kt_step_inv|done|].
    split; cbn; [intros k t0; by rewrite lookup_empty|intros k t0; set_solver|intros k t0; set_solver]. }
  destruct Hi as [Hf Hk Hp]. cbn [fst snd] in *. unfold writeEntry. rewrite encode_request_ok.
  assert (Hnot : (forall t', recentWrites s !! dedupeKey entry = Some t' -> KT_DEDUPE_TTL_MS <= now' - t') ->
    ~ exists t', (dedupeKey entry, t') ∈ hist /\ now' - t' < KT_DEDUPE_TTL_MS).
  { intros Hold (t' & Hin & Ht'). destruct (Hk _ _ Hin) as (t2 & H2 & Hle2); [lia|].
    specialize (Hold _ H2). lia. }
  destruct (recentWrites s !! dedupeKey entry) as [t0|] eqn:E.
  - destruct (now' - t0 <? KT_DEDUPE_TTL_MS) eqn:Et; bools.
    + split; [|done]. split; [|done]. intros _. exists t0. split; [by apply Hf|done].
    + destruct (transport _); (split; [split; [done|]|done]); intros Hex;
        destruct Hnot; [by intros ? [= <-]|done|by intros ? [= <-]|done].
  - destruct (transport _); (split; [split; [done|]|done]); intros Hex; by destruct Hnot.
Qed.
End WriterLemmas.

(** ** Concrete inputs *)
Section KtWitnesses.
Import ToyServer.

Definition demo_input : KtLogEntryInput :=
  mkInput "AAAAAAAAAAAAAAAAAAAAAAAAAAAAAAAAAAAAAAAAAAA" (zeros 32) (zeros 1216) (zeros 32)
    (Some (zeros 1952)) 1 20500.
Definition demo_entry : KtLogEntry := mkLogEntry (x75 :: zeros 32) (ascii_bytes "value") 1 "tag".
Definition demo_writer : writer_state := mkWriter ∅ [].

Lemma kt_decode_terminates_witness :
  proto_loop 5 [x0a; xff; xff; x7f] 0 ∅ = Some (decodeProtoFields [x0a; xff; xff; x7f]).
Proof. apply (kt_decode_terminates [x0a; xff; xff; x7f] 5). cbn. lia. Defined.

Lemma kt_publish_wire_witness :
  exists s' req res f,
    publishKeyTransparencyEntry (Some (fun _ => Ok [])) demo_writer demo_input 0 = (s', Some req, res) /\
    frameGrpcMessage req = Ok f /\ parseGrpcFrames f = Ok ([req], []).
Proof.
  destruct (publishKeyTransparencyEntry (Some (fun _ => Ok [])) demo_writer demo_input 0)
    as [[s' [req|]] res] eqn:E; [|vm_compute in E; discriminate E].
  destruct (kt_publish_wire (fun _ => Ok []) demo_writer demo_input 0 s' req res E)
    as (uh & v2 & f & v & _ & _ & _ & Hf & Hp & _).
  exists s', req, res, f. split_and!; [reflexivity|exact Hf|exact Hp].
Defined.

(** One successful write at time 5, then the same entry at time 6. *)
Definition demo_after : writer_state := (writeEntry (fun _ => Ok []) demo_writer demo_entry 5).1.1.

Lemma kt_dedupe_exact_witness :
  let '(_, sent, res) := writeEntry (fun _ => Ok []) demo_after demo_entry 6 in
  res = Skipped_duplicate <->
    exists t', (dedupeKey demo_entry, t') ∈ [(dedupeKey demo_entry, 5)] /\ 6 - t' < KT_DEDUPE_TTL_MS.
Proof.
  pose proof (kt_dedupe_exact [] 5 demo_after [(dedupeKey demo_entry, 5)] 0 demo_entry (fun _ => Ok []) 6)
    as Hd.
  destruct (writeEntry (fun _ => Ok []) demo_after demo_entry 6) as [[s2 sent] res].
  apply Hd; [|lia]. apply rtc_once.
  apply (kt_write (fun _ => Ok []) demo_writer demo_after [] demo_entry 0 5
    (writeEntry (fun _ => Ok []) demo_writer demo_entry 5).1.2 (Written None)); [lia|reflexivity].
Defined.
End KtWitnesses.
