(* ===== verification/OhttpPin.v ===== *)
(** The client's pin of OHTTP key configurations: web/src/lib/ohttpPin.ts, loadOhttpConfig
    of web/src/lib/ohttpClient.ts, and the choice of the configuration in
    web/src/workers/ohttp.worker.ts. The pin is a JSON text in local storage; an abstract
    pin is a map from key ids to digests, and the text implements it over any number of
    reloads. SHA-256 is an arbitrary function. *)
From stdpp Require Import pretty.
From S2P Require Import Prelude Bytes Base64 Utf8 Text Js JsDate OhttpConfig LocalAtRest Json.
Import KeyConfig.

Module OhttpPin.
Section OhttpPin.
Context (sha256 : bytes -> bytes).

(** [JSON.parse] and objects list the keys that are array indices first, in ascending
    order, and the others in the order of insertion. *)
Definition is_index (k : jstr) : bool :=
  bool_decide (k = js (pretty (number k))) && (0 <=? number k) && (number k <? 2 ^ 32 - 1).

Definition index_le {A} (a b : jstr * A) : Prop := number a.1 <= number b.1.

#[global] Instance index_le_dec {A} (a b : jstr * A) : Decision (index_le a b).
Proof. unfold index_le. apply _. Defined.

Definition own_order {A} (l : list (jstr * A)) : list (jstr * A) :=
  merge_sort index_le (filter (fun f => is_index f.1 = true) l) ++ filter (fun f => is_index f.1 <> true) l.

Abbreviation PinMap := (list (jstr * jstr)).

(** The object [pin] as [JSON.stringify] writes it. *)
Definition pin_text (pin : PinMap) : jstr :=
  JSON_stringify (JObj (map (fun f => (f.1, JStr f.2)) (own_order pin))).

Definition digestPublicKey (publicKey : bytes) : jstr := js (base64UrlFromBytes (sha256 publicKey)).

Definition parsePin (raw : option jstr) : PinMap :=
  match raw with
  | None | Some [] => []
  | Some text =>
      match JSON_parse text with
      | Some (JObj fields) =>
          omap (fun f => match f.2 with
            | JStr value => if forallb js_digit f.1 && negb (bool_decide (f.1 = [])) then Some (f.1, value) else None
            | _ => None end) (own_order fields)
      | _ => []
      end
  end.

Definition highestByKeyId (c : OhttpKeyConfig) (rest : list OhttpKeyConfig) : OhttpKeyConfig :=
  foldl (fun best item => if keyId best <? keyId item then item else best) c rest.

(** [new Map(configs.map(...))]: of equal key ids the last one stays. *)
Definition byId (configs : list OhttpKeyConfig) (id : Z) : option OhttpKeyConfig :=
  find (fun c => keyId c =? id) (rev configs).

Record OhttpPinDecision := mkDecision { d_keyId : Z; pinJson : jstr; changed : bool }.

(** The loop over the pinned ids, with [nextPin] and [survivingPinned]. *)
Fixpoint pin_loop (configs : list OhttpKeyConfig) (pinned : PinMap) (ids : list Z)
    (nextPin : PinMap) (survivingPinned : list OhttpKeyConfig) : result (PinMap * list OhttpKeyConfig) :=
  match ids with
  | [] => Ok (nextPin, survivingPinned)
  | id :: ids =>
      match byId configs id with
      | None => pin_loop configs pinned ids nextPin survivingPinned
      | Some config =>
          let digest := digestPublicKey (publicKey config) in
          if negb (bool_decide (Some digest = assoc (js (pretty id)) pinned)) then throw "OHTTP_CONFIG_CHANGED" else
          pin_loop configs pinned ids (map_set (js (pretty id)) digest nextPin) (survivingPinned ++ [config])
      end
  end.

Definition decide_pin (keyId : Z) (pinJson : jstr) (pinnedRaw : option jstr) : OhttpPinDecision :=
  mkDecision keyId pinJson (negb (bool_decide (pinJson = default [] pinnedRaw))).

Definition evaluateOhttpConfigPin (configs : list OhttpKeyConfig) (pinnedRaw : option jstr) : result OhttpPinDecision :=
  match configs with
  | [] => throw "OHTTP_CONFIG_EMPTY"
  | c0 :: cs =>
      let pinned := parsePin pinnedRaw in
      let pinnedIds := map (fun f => number f.1) pinned in
      '(nextPin, survivingPinned) ← pin_loop configs pinned pinnedIds [] [];
      match survivingPinned with
      | s0 :: ss =>
          let chosen := highestByKeyId s0 ss in
          Ok (decide_pin (keyId chosen) (pin_text nextPin) pinnedRaw)
      | [] =>
          let chosen := highestByKeyId c0 cs in
          Ok (decide_pin (keyId chosen)
            (pin_text [(js (pretty (keyId chosen)), digestPublicKey (publicKey chosen))]) pinnedRaw)
      end
  end.

(** ** The client *)
Record OhttpKeyMaterial := mkMaterial { configB64 : string; m_keyId : Z }.

(** [cachedConfig], which a reload of the page empties, and the pin in local storage. *)
Record client := mkClient { cachedConfig : option OhttpKeyMaterial; storedPin : option jstr }.

(** [response] is the body of [/api/ohttp/config], or the error of the request. *)
Definition loadOhttpConfig (st : client) (response : result bytes) : result OhttpKeyMaterial * client :=
  match cachedConfig st with
  | Some m => (Ok m, st)
  | None =>
      match (b ← response; configs ← decodeOhttpKeyConfigCollection b;
             d ← evaluateOhttpConfigPin configs (storedPin st); Ok (b, d)) with
      | Err e => (Err e, st)
      | Ok (b, d) =>
          let m := mkMaterial (btoa b) (d_keyId d) in
          (Ok m, mkClient (Some m) (if changed d then Some (pinJson d) else storedPin st))
      end
  end.

(** The configuration the worker encapsulates to. *)
Definition worker_config (m : OhttpKeyMaterial) : result OhttpKeyConfig :=
  b ← atob (configB64 m); configs ← decodeOhttpKeyConfigCollection b;
  match find (fun c => keyId c =? m_keyId m) configs with
  | Some c => Ok c
  | None => throw "OHTTP_CONFIG_KEY_MISSING"
  end.

Definition reload (st : client) : client := mkClient None (storedPin st).

(** ** The abstract pin *)
Inductive pin_step (P : gmap Z jstr) (configs : list OhttpKeyConfig) : result OhttpKeyConfig -> gmap Z jstr -> Prop :=
| pin_changed c d :
    c ∈ configs -> P !! keyId c = Some d -> digestPublicKey (publicKey c) <> d ->
    pin_step P configs (Err "OHTTP_CONFIG_CHANGED"%string) P
| pin_kept c P' :
    (forall e d, e ∈ configs -> P !! keyId e = Some d -> digestPublicKey (publicKey e) = d) ->
    c ∈ configs -> is_Some (P !! keyId c) ->
    (forall e, e ∈ configs -> is_Some (P !! keyId e) -> keyId e <= keyId c) ->
    (forall i d, P' !! i = Some d <-> P !! i = Some d /\ i ∈ map keyId configs) ->
    pin_step P configs (Ok c) P'
| pin_adopted c :
    (forall e, e ∈ configs -> P !! keyId e = None) ->
    c ∈ configs -> (forall e, e ∈ configs -> keyId e <= keyId c) ->
    pin_step P configs (Ok c) {[keyId c := digestPublicKey (publicKey c)]}.

(** The text in storage stands for [P]. *)
Definition represents (raw : option jstr) (P : gmap Z jstr) : Prop :=
  NoDup (parsePin raw).*1 /\ (forall f, f ∈ parsePin raw -> exists i, 0 <= i /\ f.1 = js (pretty i)) /\
  (forall i d, 0 <= i -> (js (pretty i), d) ∈ parsePin raw <-> P !! i = Some d) /\ (forall i, is_Some (P !! i) -> 0 <= i).

(** *** Texts *)
Lemma filter_split_perm {A} (P : A -> bool) (l : list A) :
  filter (fun x => P x = true) l ++ filter (fun x => P x <> true) l ≡ₚ l.
Proof.
  induction l as [|x l IH]; [done|]. rewrite !filter_cons. destruct (P x) eqn:E.
  - rewrite decide_True, decide_False by naive_solver. cbn. by rewrite IH.
  - rewrite decide_False, decide_True by naive_solver. rewrite <- Permutation_middle. by rewrite IH.
Qed.

Lemma own_order_perm {A} (l : list (jstr * A)) : own_order l ≡ₚ l.
Proof.
  unfold own_order. rewrite (merge_sort_Permutation index_le). apply (filter_split_perm (fun f => is_index f.1)).
Qed.

(** A pin whose keys are decimal numbers is read back. *)
Definition pin_ok (pin : PinMap) : Prop :=
  NoDup pin.*1 /\ Forall (fun f => (exists i, 0 <= i /\ f.1 = js (pretty i)) /\ forallb scalar f.2 = true) pin.

Lemma index_key i : 0 <= i -> forallb js_digit (js (pretty i)) && negb (bool_decide (js (pretty i) = [])) = true.
Proof.
  intros Hi. destruct (pretty_digits i Hi) as (d & ds & -> & -> & _). by rewrite bool_decide_eq_false_2.
Qed.

Lemma pin_text_read pin : pin_ok pin -> parsePin (Some (pin_text pin)) ≡ₚ pin.
Proof.
  intros [Hn Hf]. pose proof (own_order_perm pin) as Hp. unfold pin_text, parsePin.
  set (fs := map _ (own_order pin)).
  assert (Hj : json_ok (JObj fs) = true).
  { cbn. apply andb_true_intro. split.
    - apply bool_decide_eq_true. unfold fs. rewrite <- list_fmap_compose. cbn. by rewrite Hp.
    - apply forallb_forall. intros f Hin%list_elem_of_In. unfold fs in Hin. apply list_elem_of_fmap in Hin as (g & -> & Hg).
      rewrite Hp in Hg. destruct (proj1 (Forall_forall _ _) Hf g Hg) as [(i & _ & Hi) Hs]. cbn. by rewrite Hi, js_scalar, Hs. }
  pose proof (json_roundtrip _ Hj) as Hr.
  change (JSON_stringify (JObj fs)) with (123 :: join 44 (map (fun f => quote f.1 ++ [58] ++ JSON_stringify f.2) fs) ++ [125]) in *.
  rewrite Hr. rewrite (own_order_perm fs). unfold fs.
  rewrite <- Hp at 2. rewrite <- Hp in Hf. clear -Hf. induction Hf as [|f l [(i & Hi & Hk) _] _ IH]; [done|].
  cbn. rewrite Hk, index_key by done. destruct f as [k d]. cbn in *. subst k. by rewrite IH.
Qed.

(** *** Key ids *)
Lemma decode_id_nonneg b c : decodeOhttpKeyConfig b = Ok c -> 0 <= keyId c.
Proof.
  unfold decodeOhttpKeyConfig. destruct (_ <? _); [done|]. destruct (negb _); [done|].
  destruct (get_u16 b (3 + _)) as [sl|]; [|done]. rewrite bind_ok. destruct (sl <? 4); [done|].
  destruct (get_u16 b 1) as [ke|]; [|done]. rewrite bind_ok.
  destruct (get_u16 b (3 + _ + 2)) as [kd|]; [|done]. rewrite bind_ok.
  destruct (get_u16 b (3 + _ + 4)) as [ae|]; [|done]. rewrite bind_ok.
  destruct (u8_get b 0) as [k|] eqn:E; [|done]. intros [= <-]. cbn. unfold u8_get in E.
  change (0 <? 0) with false in E. cbv iota in E. apply fmap_Some in E as (y & _ & ->). pose proof (b2z_range y). lia.
Qed.

Lemma decode_ids_nonneg room : forall b off cs, decode_configs room b off = Ok cs -> Forall (fun c => 0 <= keyId c) cs.
Proof.
  induction room as [|room IH]; intros b off cs; cbn [decode_configs]; (destruct (_ <=? _); [by intros [= <-]|]);
    (destruct (_ <? _); [done|]); (destruct (get_u16 b off) as [len|]; [|done]); rewrite bind_ok;
    (destruct (_ || _); [done|]); (destruct (decodeOhttpKeyConfig _) as [c|] eqn:Ec; [|done]); rewrite bind_ok; try done.
  destruct (decode_configs room b _) as [l|] eqn:El; [|done]. rewrite bind_ok. intros [= <-].
  constructor; [by eapply decode_id_nonneg|by eapply IH].
Qed.

Lemma collection_ids b cs : decodeOhttpKeyConfigCollection b = Ok cs -> cs <> [] /\ Forall (fun c => 0 <= keyId c) cs.
Proof.
  unfold decodeOhttpKeyConfigCollection. destruct (_ <? _); [done|].
  destruct (decode_configs _ b 0) as [l|] eqn:El; [|done]. rewrite bind_ok. apply decode_ids_nonneg in El.
  destruct l; [done|]. by intros [= <-].
Qed.

Lemma byId_some cs i c : byId cs i = Some c -> c ∈ cs /\ keyId c = i.
Proof.
  unfold byId. intros [H1 H2]%find_some. apply Z.eqb_eq in H2. split; [|done]. apply list_elem_of_In. by apply in_rev.
Qed.

Lemma byId_in cs i : i ∈ map keyId cs -> is_Some (byId cs i).
Proof.
  intros (c & -> & Hc)%list_elem_of_fmap. unfold byId. destruct (find _ _) as [e|] eqn:E; [by eexists|].
  apply find_none with (x := c) in E; [by rewrite Z.eqb_refl in E|]. apply in_rev. rewrite rev_involutive. by apply list_elem_of_In.
Qed.

(** With distinct key ids the configuration of an id is the one of the collection. *)
Lemma same_id cs c e : NoDup (map keyId cs) -> c ∈ cs -> e ∈ cs -> keyId c = keyId e -> c = e.
Proof.
  intros Hn. induction cs as [|x cs IH]; [by intros ?%not_elem_of_nil|]. cbn in Hn. apply NoDup_cons in Hn as [Hx Hn].
  intros [->|Hc]%elem_of_cons [->|He]%elem_of_cons Heq; [done| | |by apply IH]; exfalso; apply Hx.
  - rewrite Heq. by apply list_elem_of_fmap_2.
  - rewrite <- Heq. by apply list_elem_of_fmap_2.
Qed.

Lemma pretty_id_inj i j : 0 <= i -> 0 <= j -> js (pretty i) = js (pretty j) -> i = j.
Proof. intros Hi Hj H. by rewrite <- (number_pretty i), <- (number_pretty j), H. Qed.

(** *** The evaluation *)
Definition pin_entry (c : OhttpKeyConfig) : jstr * jstr := (js (pretty (keyId c)), digestPublicKey (publicKey c)).

Lemma pin_loop_spec configs pinned ids : forall next surv,
  match pin_loop configs pinned ids next surv with
  | Ok (next', surv') =>
      (forall i c, i ∈ ids -> byId configs i = Some c -> assoc (js (pretty i)) pinned = Some (digestPublicKey (publicKey c))) /\
      surv' = surv ++ omap (byId configs) ids /\
      next' = foldl (fun m c => map_set (pin_entry c).1 (pin_entry c).2 m) next (omap (byId configs) ids)
  | Err e => e = "OHTTP_CONFIG_CHANGED"%string /\ exists i c, i ∈ ids /\ byId configs i = Some c /\
      assoc (js (pretty i)) pinned <> Some (digestPublicKey (publicKey c))
  end.
Proof.
  induction ids as [|i ids IH]; intros next surv; cbn [pin_loop omap list_omap].
  { rewrite app_nil_r. split_and!; [|done..]. intros i c Hi. by apply not_elem_of_nil in Hi. }
  destruct (byId configs i) as [c|] eqn:E.
  - destruct (bool_decide _) eqn:Hb; cbn [negb].
    2:{ apply bool_decide_eq_false in Hb. split; [done|]. exists i, c. split_and!; [set_solver|done|congruence]. }
    apply bool_decide_eq_true in Hb. destruct (byId_some _ _ _ E) as [_ Hi].
    specialize (IH (map_set (js (pretty i)) (digestPublicKey (publicKey c)) next) (surv ++ [c])).
    destruct (pin_loop _ _ _ _ _) as [[next' surv']|e].
    + destruct IH as (H1 & -> & ->). split_and!.
      * intros j e [->|Hj]%elem_of_cons He; [congruence|by apply H1].
      * by rewrite <- app_assoc.
      * cbn [foldl]. f_equal. unfold pin_entry. cbn [fst snd]. by rewrite Hi.
    + destruct IH as (-> & j & x & Hj & Hr). split; [done|]. exists j, x. split; [set_solver|done].
  - specialize (IH next surv). destruct (pin_loop _ _ _ _ _) as [[next' surv']|e].
    + destruct IH as (H1 & -> & ->). split_and!; [|done..]. intros j e [->|Hj]%elem_of_cons He; [congruence|by apply H1].
    + destruct IH as (-> & j & x & Hj & Hr). split; [done|]. exists j, x. split; [set_solver|done].
Qed.

Lemma map_set_ok k d m : pin_ok m -> (exists i, 0 <= i /\ k = js (pretty i)) -> forallb scalar d = true -> pin_ok (map_set k d m).
Proof.
  intros [Hn Hf] Hk Hd. split; [by apply map_set_nodup|]. apply Forall_forall. intros [x y] Hxy.
  apply map_set_elem in Hxy as [[-> ->]|Hxy]; [done|]. by apply (proj1 (Forall_forall _ _) Hf (x, y)).
Qed.

Lemma fold_pins l : forall m, pin_ok m -> Forall (fun c => 0 <= keyId c) l ->
  let m' := foldl (fun m c => map_set (pin_entry c).1 (pin_entry c).2 m) m l in
  pin_ok m' /\ (forall f, f ∈ m' -> f ∈ m \/ exists c, c ∈ l /\ f = pin_entry c) /\
  (forall k, k ∈ m.*1 \/ (exists c, c ∈ l /\ k = (pin_entry c).1) -> k ∈ m'.*1).
Proof.
  induction l as [|c l IH]; intros m Hm Hl; cbn [foldl].
  { split_and!; [done|by left|]. intros k [Hk|(c & Hc & _)]; [done|]. by apply not_elem_of_nil in Hc. }
  apply Forall_cons in Hl as [Hc Hl].
  assert (Hm1 : pin_ok (map_set (pin_entry c).1 (pin_entry c).2 m)) by (apply map_set_ok; [done|by exists (keyId c)|apply js_scalar]).
  destruct (IH _ Hm1 Hl) as (H1 & H2 & H3). split_and!; [done| |].
  - intros f Hf. destruct (H2 f Hf) as [Hf'|(e & He & ->)]; [|right; exists e; set_solver].
    destruct f as [x y]. apply map_set_elem in Hf' as [[-> ->]|Hf']; [right; exists c; set_solver|by left].
  - intros k Hk. apply H3. destruct Hk as [Hk|(e & [->|He]%elem_of_cons & ->)].
    + left. apply map_set_keys. by right.
    + left. apply map_set_keys. by left.
    + right. by exists e.
Qed.

(** What the stored text stands for, after a write. *)
Lemma represents_text pin P : pin_ok pin ->
  (forall i d, 0 <= i -> (js (pretty i), d) ∈ pin <-> P !! i = Some d) -> (forall i, is_Some (P !! i) -> 0 <= i) ->
  represents (Some (pin_text pin)) P.
Proof.
  intros Hok Hp Hi. pose proof (pin_text_read pin Hok) as Hr. destruct Hok as [Hn Hf]. split_and!; [by rewrite Hr| | |done].
  - intros f Hin. rewrite Hr in Hin. by apply (proj1 (Forall_forall _ _) Hf) in Hin as [? _].
  - intros i d Hi'. rewrite Hr. by apply Hp.
Qed.

Lemma stored_after id json raw : json <> [] ->
  (if changed (decide_pin id json raw) then Some json else raw) = Some json.
Proof.
  intros Hne. unfold decide_pin. cbn. case_bool_decide as E; cbn; [|done]. destruct raw; cbn in E; congruence.
Qed.

Lemma pinned_lookup raw P i : represents raw P -> 0 <= i -> assoc (js (pretty i)) (parsePin raw) = P !! i.
Proof.
  intros (Hn & _ & Hp & _) Hi. destruct (P !! i) as [d|] eqn:E.
  - apply assoc_nodup; [done|]. by apply Hp.
  - destruct (assoc _ _) as [d|] eqn:Ea; [|done]. apply assoc_elem, Hp in Ea; congruence.
Qed.

Lemma pinned_ids raw P i : represents raw P -> i ∈ map (fun f => number f.1) (parsePin raw) <-> is_Some (P !! i).
Proof.
  intros (Hn & Hk & Hp & Hi). split.
  - intros (f & -> & Hf)%list_elem_of_fmap. destruct (Hk f Hf) as (j & Hj & Ej). rewrite Ej, number_pretty by done.
    exists f.2. apply Hp; [done|]. rewrite <- Ej. by destruct f.
  - intros [d Hd]. assert (H0 : 0 <= i) by (apply Hi; eauto). apply Hp in Hd; [|done].
    apply list_elem_of_fmap. exists (js (pretty i), d). cbn [fst]. by rewrite number_pretty.
Qed.

Lemma pin_text_nonempty pin : pin_text pin <> [].
Proof. unfold pin_text. cbn. done. Qed.

Lemma adopted_text c : 0 <= keyId c ->
  represents (Some (pin_text [pin_entry c])) {[keyId c := digestPublicKey (publicKey c)]}.
Proof.
  intros Hc. apply represents_text.
  - split; [apply NoDup_singleton|]. apply Forall_singleton. split; [by exists (keyId c)|apply js_scalar].
  - intros i d Hi. rewrite list_elem_of_singleton, lookup_singleton_Some. unfold pin_entry. split.
    + by intros [= H1%pretty_id_inj ->].
    + by intros [-> ->].
  - intros i [d Hd]. by apply lookup_singleton_Some in Hd as [<- _].
Qed.

Definition kept_pins (P : gmap Z jstr) (cs : list OhttpKeyConfig) : gmap Z jstr :=
  filter (fun f => f.1 ∈ map keyId cs) P.

Lemma kept_text P cs surv : Forall (fun c => 0 <= keyId c) cs -> (forall i, is_Some (P !! i) -> 0 <= i) ->
  (forall c, c ∈ surv <-> c ∈ cs /\ is_Some (P !! keyId c)) ->
  (forall c d, c ∈ cs -> P !! keyId c = Some d -> digestPublicKey (publicKey c) = d) ->
  represents (Some (pin_text (foldl (fun m c => map_set (pin_entry c).1 (pin_entry c).2 m) [] surv))) (kept_pins P cs).
Proof.
  intros Hnn Hi Hsurv Hdig. assert (Hs : Forall (fun c => 0 <= keyId c) surv).
  { apply Forall_forall. intros c Hc. apply Hsurv in Hc as [Hc _]. by apply (proj1 (Forall_forall _ _) Hnn). }
  destruct (fold_pins surv [] ltac:(split; [apply NoDup_nil_2|done]) Hs) as (Hok & Hfrom & Hto).
  assert (Hsound : forall i d, 0 <= i -> (js (pretty i), d) ∈ foldl (fun m c => map_set (pin_entry c).1 (pin_entry c).2 m) [] surv ->
    P !! i = Some d /\ i ∈ map keyId cs).
  { intros i d H0 [?%not_elem_of_nil|(c & Hc & E)]%Hfrom; [done|]. apply Hsurv in Hc as [Hc [d' Hd']].
    injection E as E ->. apply pretty_id_inj in E as ->; [|done|by apply (proj1 (Forall_forall _ _) Hnn)].
    split; [|by apply list_elem_of_fmap_2]. by rewrite (Hdig c d'). }
  apply represents_text; [done| |].
  - intros i d H0. unfold kept_pins. rewrite map_lookup_filter_Some. split; [by apply Hsound|]. intros [Hd Hin].
    cbn in Hin. apply list_elem_of_fmap in Hin as (c & -> & Hc).
    assert (Hk : js (pretty (keyId c)) ∈ (foldl (fun m c => map_set (pin_entry c).1 (pin_entry c).2 m) [] surv).*1)
      by (apply Hto; right; exists c; split; [apply Hsurv; eauto|done]).
    apply list_elem_of_fmap in Hk as ([k d'] & Ek & Hkd). cbn in Ek. subst k.
    destruct (Hsound _ _ H0 Hkd) as [Hd' _]. by replace d with d' by congruence.
  - intros i [d Hd]. apply map_lookup_filter_Some in Hd as [Hd _]. eauto.
Qed.

Lemma evaluate_refines cs raw P : cs <> [] -> Forall (fun c => 0 <= keyId c) cs -> NoDup (map keyId cs) -> represents raw P ->
  match evaluateOhttpConfigPin cs raw with
  | Err e => pin_step P cs (Err e) P
  | Ok d => exists c P', c ∈ cs /\ d_keyId d = keyId c /\ pin_step P cs (Ok c) P' /\
      represents (if changed d then Some (pinJson d) else raw) P'
  end.
Proof.
  intros Hne Hnn Hnd HP. destruct cs as [|c0 rest]; [done|]. unfold evaluateOhttpConfigPin.
  set (cs := c0 :: rest) in *. set (ids := map _ (parsePin raw)).
  assert (Hids : forall i, i ∈ ids <-> is_Some (P !! i)) by (intros i; by apply pinned_ids).
  assert (Hget : forall c, c ∈ cs -> 0 <= keyId c) by (intros c; apply (proj1 (Forall_forall _ _) Hnn)).
  assert (Hby : forall c, c ∈ cs -> byId cs (keyId c) = Some c).
  { intros c Hc. destruct (byId_in cs (keyId c)) as [e He]; [by apply list_elem_of_fmap_2|].
    destruct (byId_some _ _ _ He) as [H1 H2]. rewrite He. f_equal. by apply (same_id cs). }
  pose proof (pin_loop_spec cs (parsePin raw) ids [] []) as Hloop.
  destruct (pin_loop cs (parsePin raw) ids [] []) as [[next surv]|e].
  2:{ destruct Hloop as (-> & i & c & Hi & Hc & Ha). destruct (byId_some _ _ _ Hc) as [Hin <-].
      rewrite (pinned_lookup raw P) in Ha by auto. apply Hids in Hi as [d Hd].
      apply (pin_changed P cs c d); [done..|]. congruence. }
  rewrite bind_ok. destruct Hloop as (Hsame & -> & ->). cbn [app].
  assert (Hsurv : forall c, c ∈ omap (byId cs) ids <-> c ∈ cs /\ is_Some (P !! keyId c)).
  { intros c. rewrite list_elem_of_omap. split.
    - intros (i & Hi & Hc). destruct (byId_some _ _ _ Hc) as [Hin <-]. split; [done|]. by apply Hids.
    - intros [Hin Hs]. exists (keyId c). split; [by apply Hids|by apply Hby]. }
  assert (Hdig : forall c d, c ∈ cs -> P !! keyId c = Some d -> digestPublicKey (publicKey c) = d).
  { intros c d Hc Hd. specialize (Hsame (keyId c) c ltac:(by apply Hids) (Hby c Hc)).
    rewrite (pinned_lookup raw P) in Hsame by auto. congruence. }
  pose proof (kept_text P cs _ Hnn (proj2 (proj2 (proj2 HP))) Hsurv Hdig) as Hkept.
  destruct (omap (byId cs) ids) as [|s0 ss] eqn:Es.
  - destruct (fold_select_spec rest c0) as [Hin Hmax]. exists (highestByKeyId c0 rest). eexists.
    split_and!; [done..| |cbn [pinJson]; rewrite stored_after by apply pin_text_nonempty; by apply adopted_text, Hget].
    apply pin_adopted; [|done..]. intros e He. destruct (P !! keyId e) eqn:E; [|done]. exfalso.
    apply (not_elem_of_nil e), Hsurv. split; [done|by eexists].
  - destruct (fold_select_spec ss s0) as [Hin Hmax]. exists (highestByKeyId s0 ss), (kept_pins P cs).
    apply Hsurv in Hin as [Hin Hs]. split_and!; [done..| |cbn [pinJson]; by rewrite stored_after by apply pin_text_nonempty].
    apply pin_kept; [done..| |].
    + intros e He Hse. apply Hmax, Hsurv. done.
    + intros i d. unfold kept_pins. by rewrite map_lookup_filter_Some.
Qed.

Lemma load_refines st P b cs : represents (storedPin st) P -> cachedConfig st = None ->
  decodeOhttpKeyConfigCollection b = Ok cs -> NoDup (map keyId cs) ->
  exists P', pin_step P cs (m ← (loadOhttpConfig st (Ok b)).1; worker_config m) P' /\
    represents (storedPin (loadOhttpConfig st (Ok b)).2) P'.
Proof.
  intros HP Hc Hd Hn. unfold loadOhttpConfig. rewrite Hc, bind_ok, Hd, bind_ok. destruct (collection_ids b cs Hd) as [Hne Hnn].
  pose proof (evaluate_refines cs (storedPin st) P Hne Hnn Hn HP) as He.
  destruct (evaluateOhttpConfigPin cs (storedPin st)) as [d|e]; [|by exists P].
  destruct He as (c & P' & Hin & Hk & Hstep & Hrep). exists P'. split; [|done]. rewrite bind_ok. cbn [fst]. rewrite bind_ok.
  unfold worker_config. cbn [configB64 m_keyId]. rewrite atob_btoa, bind_ok, Hd, bind_ok, Hk.
  destruct (find _ cs) as [e|] eqn:E.
  - apply find_some in E as [Hein He%Z.eqb_eq]. apply list_elem_of_In in Hein. by rewrite (same_id cs e c).
  - apply find_none with (x := c) in E; [by rewrite Z.eqb_refl in E|by apply list_elem_of_In].
Qed.

(** ** Visits of the page *)
Definition visit (st : client) (b : bytes) : result OhttpKeyConfig * client :=
  let '(r, st') := loadOhttpConfig (reload st) (Ok b) in (m ← r; worker_config m, st').

Fixpoint visits (st : client) (bs : list bytes) : list (result OhttpKeyConfig) * client :=
  match bs with
  | [] => ([], st)
  | b :: bs => let '(r, st1) := visit st b in let '(rs, st2) := visits st1 bs in (r :: rs, st2)
  end.

Inductive pin_run : gmap Z jstr -> list (list OhttpKeyConfig) -> list (result OhttpKeyConfig) -> gmap Z jstr -> Prop :=
| run_nil P : pin_run P [] [] P
| run_cons P cs r P1 css rs P2 : pin_step P cs r P1 -> pin_run P1 css rs P2 -> pin_run P (cs :: css) (r :: rs) P2.

End OhttpPin.
End OhttpPin.
Import OhttpPin.

(** C35: The JSON pin in local storage implements the abstract pin over any number of visits
    of the page, whatever collections of distinct key ids the server sends: a pinned id
    with another key is refused and the pin kept; while a pinned id is served, the worker
    encapsulates to the highest pinned key, the one whose digest was pinned, and no new
    key is adopted; only when no pinned id is served is the highest key adopted as the
    new pin. *)
Theorem ohttp_pin_refines sha256 st P bs css : represents (storedPin st) P ->
  Forall2 (fun b cs => decodeOhttpKeyConfigCollection b = Ok cs /\ NoDup (map keyId cs)) bs css ->
  exists P', pin_run sha256 P css (visits sha256 st bs).1 P' /\ represents (storedPin (visits sha256 st bs).2) P'.
Proof.
  intros HP Hbs. revert st P HP. induction Hbs as [|b cs bs css [Hd Hn] _ IH]; intros st P HP.
  { exists P. split; [constructor|done]. }
  destruct (load_refines sha256 (reload st) P b cs HP eq_refl Hd Hn) as (P1 & Hstep & HP1).
  cbn [visits]. unfold visit. destruct (loadOhttpConfig sha256 (reload st) (Ok b)) as [r st1]. cbn [fst snd] in *.
  destruct (IH st1 P1 HP1) as (P2 & Hrun & HP2). destruct (visits sha256 st1 bs) as [rs st2].
  exists P2. split; [by econstructor|done].
Qed.

(** The collection is not checked for repeated key ids, the pin is compared with the
    last configuration of an id and the worker takes the first one: a collection with an
    unpinned key before the pinned one, under the same id, passes the pin, leaves it
    unchanged, and makes the worker encapsulate to the unpinned key. *)
Theorem duplicate_id_bypasses_pin sha256 st b good evil : cachedConfig st = None ->
  storedPin st = Some (pin_text [pin_entry sha256 good]) ->
  decodeOhttpKeyConfigCollection b = Ok [evil; good] -> keyId evil = keyId good ->
  exists m, loadOhttpConfig sha256 st (Ok b) = (Ok m, mkClient (Some m) (storedPin st)) /\ worker_config m = Ok evil.
Proof.
  intros Hc Hp Hd Hid. destruct (collection_ids b _ Hd) as [_ Hnn]. apply Forall_cons in Hnn as [_ Hnn].
  apply Forall_cons in Hnn as [Hg _].
  assert (Hpin : parsePin (storedPin st) = [pin_entry sha256 good]).
  { rewrite Hp. apply Permutation_singleton_r, pin_text_read. split; [apply NoDup_singleton|].
    apply Forall_singleton. split; [by exists (keyId good)|apply js_scalar]. }
  assert (Hloop : pin_loop sha256 [evil; good] [pin_entry sha256 good] [keyId good] [] [] = Ok ([pin_entry sha256 good], [good])).
  { cbn [pin_loop]. unfold byId. cbn [rev app find]. rewrite Z.eqb_refl.
    assert (Ha : assoc (js (pretty (keyId good))) [pin_entry sha256 good] = Some (digestPublicKey sha256 (publicKey good)))
      by (unfold pin_entry; cbn [assoc]; by rewrite bool_decide_eq_true_2).
    rewrite Ha, bool_decide_eq_true_2 by done. reflexivity. }
  eexists. split.
  - unfold loadOhttpConfig. rewrite Hc, bind_ok, Hd, bind_ok. unfold evaluateOhttpConfigPin. rewrite Hpin.
    cbn [map]. unfold pin_entry at 2. cbn [fst]. rewrite number_pretty, Hloop, bind_ok by done.
    cbn [highestByKeyId foldl]. unfold decide_pin. rewrite Hp. cbn [default].
    rewrite bool_decide_eq_true_2 by done. reflexivity.
  - unfold worker_config. cbn [configB64 m_keyId d_keyId]. rewrite atob_btoa, bind_ok, Hd, bind_ok. cbn [find].
    by rewrite Hid, Z.eqb_refl.
Qed.

(** ** Witnesses *)
Definition toy_sha (b : bytes) : bytes := take 2 b.

Definition toy_config (id : Z) (k : byte) : OhttpKeyConfig := mkConfig id 32 1 1 (k :: zeros (OHTTP_GATEWAY_KEY_BYTES - 1)).
Definition toy_collection (cs : list OhttpKeyConfig) : bytes :=
  concat (map (fun c => be16 (blen (config_bytes c)) ++ config_bytes c) cs).

Lemma ohttp_pin_refines_witness :
  exists P', pin_run toy_sha ∅ [[toy_config 1 x01]; [toy_config 1 x01; toy_config 2 x05]; [toy_config 1 x07]]
      (visits toy_sha (mkClient None None)
        [toy_collection [toy_config 1 x01]; toy_collection [toy_config 1 x01; toy_config 2 x05]; toy_collection [toy_config 1 x07]]).1 P' /\
    represents (storedPin (visits toy_sha (mkClient None None)
        [toy_collection [toy_config 1 x01]; toy_collection [toy_config 1 x01; toy_config 2 x05]; toy_collection [toy_config 1 x07]]).2) P'.
Proof.
  refine (ohttp_pin_refines toy_sha (mkClient None None) ∅ _ _ _ _).
  - split_and!; [constructor| | |].
    + intros f Hf. by apply not_elem_of_nil in Hf.
    + intros i d _. split; [intros H; by apply not_elem_of_nil in H|intros H; by rewrite lookup_empty in H].
    + intros i [d H]. by rewrite lookup_empty in H.
  - constructor; [split; [vm_compute; reflexivity|apply (bool_decide_unpack (NoDup _)); vm_compute; exact I]|].
    constructor; [split; [vm_compute; reflexivity|apply (bool_decide_unpack (NoDup _)); vm_compute; exact I]|].
    constructor; [split; [vm_compute; reflexivity|apply (bool_decide_unpack (NoDup _)); vm_compute; exact I]|]. constructor.
Defined.

Lemma duplicate_id_bypasses_pin_witness :
  exists m, loadOhttpConfig toy_sha (mkClient None (Some (pin_text [pin_entry toy_sha (toy_config 1 x01)])))
      (Ok (toy_collection [toy_config 1 x09; toy_config 1 x01]))
    = (Ok m, mkClient (Some m) (Some (pin_text [pin_entry toy_sha (toy_config 1 x01)]))) /\
    worker_config m = Ok (toy_config 1 x09).
Proof.
  apply (duplicate_id_bypasses_pin toy_sha (mkClient None (Some (pin_text [pin_entry toy_sha (toy_config 1 x01)])))
    (toy_collection [toy_config 1 x09; toy_config 1 x01]) (toy_config 1 x01) (toy_config 1 x09)); [reflexivity..| |reflexivity].
  vm_compute. reflexivity.
Defined.
