(* ===== verification/SpqrRatchet.v ===== *)
(** The SPQR ratchet behind the v2 wire. Both sides of the WebAssembly boundary:
    packages/spqr-wasm/src/lib.rs (scratch buffers, entropy, numeric results) and
    the host wrapper web/src/lib/spqrRatchet.ts; and the steps of one message in
    web/src/lib/spqrSession.ts. The spqr crate itself is an interface. *)
From S2P Require Import Prelude StateErr Bytes Sodium DrSession.
Import DrProtocol.

(** ** The spqr crate *)
Inductive SpqrVersion := V0 | V1.

Class SpqrCrate := {
  crate_empty_state : bytes;
  (** [None] while the two sides still negotiate. *)
  crate_current_version : bytes -> result (option SpqrVersion);
  crate_initial_state : bytes -> Direction -> SpqrVersion -> SpqrVersion -> result bytes;
  (** Entropy and state to the next state, the message for the peer and a key; the
      number of entropy bytes drawn. Running out of entropy is an error too. *)
  crate_send : bytes -> bytes -> result (bytes * bytes * option bytes);
  crate_drawn : bytes -> bytes -> nat;
  crate_recv : bytes -> bytes -> result (bytes * option bytes) }.

(** Two states that are in step: every message one of them sends is understood by the
    other, with the same key. A step without a message concerns the sender alone. *)
Class SpqrCrateLaws `{SpqrCrate} := {
  in_step : bytes -> bytes -> Prop;
  init_in_step : forall k d v m a b, crate_initial_state k d v m = Ok a ->
    crate_initial_state k (match d with A2B => B2A | B2A => A2B end) v m = Ok b -> in_step a b;
  send_recv : forall a b e a' m k, in_step a b -> crate_send e a = Ok (a', m, k) -> m <> [] ->
    exists b', crate_recv b m = Ok (b', k) /\ in_step a' b';
  send_silent : forall a b e a' k, in_step a b -> crate_send e a = Ok (a', [], k) ->
    (k = None \/ k = Some []) /\ in_step a' b;
  in_step_sym : forall a b, in_step a b -> in_step b a;
  (** Serialised sizes, far below the scratch buffers. *)
  in_step_size : forall a b, in_step a b -> 1 <= blen a <= 65536;
  send_size : forall a b e a' m k, in_step a b -> crate_send e a = Ok (a', m, k) ->
    blen m <= 3072 /\ blen (default [] k) <= 64 }.

(** ** The module and its wrapper *)
Module SpqrAbi.

Definition SCRATCH : Z := 256 * 1024.
Definition SPQR_OK : Z := 0.
Definition SPQR_ERR_CRATE : Z := 1.
Definition SPQR_ERR_ARGS : Z := 3.
Definition SPQR_ERR_ENTROPY : Z := 4.
Definition SPQR_VERSION_NEGOTIATING : Z := 100.
Definition SPQR_MAX_ENTROPY_BYTES : Z := 4096.

Record Scratch := mkScratch {
  input : bytes; output : bytes; out_len : Z; entropy : bytes; entropy_cursor : nat }.

Definition fresh_scratch : Scratch := mkScratch (zeros SCRATCH) (zeros SCRATCH) 0 [] 0.

Section Guest.
Context `{SpqrCrate}.

Definition write_output (b : bytes) (m : Scratch) : Z * Scratch :=
  if SCRATCH <? blen b then (SPQR_ERR_ARGS, m)
  else (SPQR_OK, mkScratch (input m) (b ++ drop (length b) (output m)) (blen b) (entropy m) (entropy_cursor m)).

Definition read_input (len : Z) (m : Scratch) : option bytes :=
  if SCRATCH <? len then None else Some (slice (input m) 0 len).

Definition push_u32 (out : bytes) (value : Z) : bytes := out ++ be32 value.

Definition spqr_seed_entropy (len : Z) (m : Scratch) : Z * Scratch :=
  if (len =? 0) || (SPQR_MAX_ENTROPY_BYTES <? len) then (SPQR_ERR_ARGS, m) else
  match read_input len m with
  | None => (SPQR_ERR_ARGS, m)
  | Some b => (SPQR_OK, mkScratch (input m) (output m) (out_len m) b 0)
  end.

Definition spqr_empty_state (m : Scratch) : Z * Scratch := write_output crate_empty_state m.

Definition spqr_current_version (state_len : Z) (m : Scratch) : Z * Scratch :=
  match read_input state_len m with
  | None => (SPQR_ERR_ARGS, m)
  | Some state =>
      match crate_current_version state with
      | Ok (Some V0) => write_output (be32 0) m
      | Ok (Some V1) => write_output (be32 1) m
      | Ok None => write_output (be32 SPQR_VERSION_NEGOTIATING) m
      | Err _ => (SPQR_ERR_CRATE, m)
      end
  end.

Definition direction_from_code (c : Z) : option Direction :=
  if c =? 0 then Some A2B else if c =? 1 then Some B2A else None.
Definition version_from_code (c : Z) : option SpqrVersion :=
  if c =? 0 then Some V0 else if c =? 1 then Some V1 else None.

Definition spqr_initial_state (auth_key_len direction version min_version : Z) (m : Scratch) : Z * Scratch :=
  match read_input auth_key_len m with
  | None => (SPQR_ERR_ARGS, m)
  | Some auth_key =>
      match direction_from_code direction, version_from_code version, version_from_code min_version with
      | Some d, Some v, Some mv =>
          match crate_initial_state auth_key d v mv with
          | Ok state => write_output state m
          | Err _ => (SPQR_ERR_CRATE, m)
          end
      | _, _, _ => (SPQR_ERR_ARGS, m)
      end
  end.

Definition push_key (out : bytes) (key : option bytes) : bytes :=
  match key with
  | Some k => push_u32 (out ++ [x01]) (blen k) ++ k
  | None => push_u32 (out ++ [x00]) 0
  end.

Definition spqr_send (state_len entropy_len : Z) (m : Scratch) : Z * Scratch :=
  match read_input state_len m with
  | None => (SPQR_ERR_ARGS, m)
  | Some state =>
      if (entropy_len =? 0) || (SPQR_MAX_ENTROPY_BYTES <? entropy_len) then (SPQR_ERR_ARGS, m) else
      match entropy m with
      | [] => (SPQR_ERR_ENTROPY, m)
      | _ =>
          let left := drop (entropy_cursor m) (entropy m) in
          let m := mkScratch (input m) (output m) (out_len m) (entropy m)
                     (entropy_cursor m + crate_drawn left state) in
          match crate_send left state with
          | Err _ => (SPQR_ERR_CRATE, m)
          | Ok (state', msg, key) =>
              let out := push_u32 [] (blen state') ++ state' in
              let out := push_u32 out (blen msg) ++ msg in
              write_output (push_key out key) m
          end
      end
  end.

Definition spqr_recv (state_len msg_len : Z) (m : Scratch) : Z * Scratch :=
  match read_input (state_len + msg_len) m with
  | None => (SPQR_ERR_ARGS, m)
  | Some b =>
      match crate_recv (slice b 0 state_len) (slice_from b state_len) with
      | Err _ => (SPQR_ERR_CRATE, m)
      | Ok (state', key) => write_output (push_key (push_u32 [] (blen state') ++ state') key) m
      end
  end.

End Guest.

(** A host call: it may throw, and leaves the module's memory changed either way. *)
Abbreviation host := (stE Scratch).

Definition describeCode (code : Z) : string :=
  if code =? SPQR_ERR_CRATE then "spqr: state/pesan tidak bisa diproses (StateDecode/ChainNotAvailable/dll)"
  else if code =? SPQR_ERR_ARGS then "spqr: argumen tidak sah (panjang di luar batas)"
  else if code =? SPQR_ERR_ENTROPY then "spqr: entropi host habis/tidak disuntik"
  else "spqr: kode hasil tak dikenal".

Definition writeInput (b : bytes) (offset : Z) : host unit := fun m =>
  if SCRATCH <? blen b + offset then (Err "spqr: input melebihi scratch buffer", m)
  else match u8_set (input m) offset b with
       | Ok i => (Ok tt, mkScratch i (output m) (out_len m) (entropy m) (entropy_cursor m))
       | Err e => (Err e, m)
       end.

Definition outputBytes : host bytes := fun m => (Ok (slice (output m) 0 (out_len m)), m).

(** Run an export and check its numeric result. *)
Definition call (f : Scratch -> Z * Scratch) : host unit := fun m =>
  let '(code, m') := f m in (if code =? SPQR_OK then Ok tt else Err (describeCode code), m').

Definition expect (f : Scratch -> Z * Scratch) : host bytes := _ ← call f; outputBytes.

(** [seed] is what [randomBytes(length)] returned. *)
Definition seedEntropy (len : Z) (seed : bytes) : host unit :=
  if (len <=? 0) || (SPQR_MAX_ENTROPY_BYTES <? len) then lift (throw "spqr: panjang entropi di luar batas") else
  if negb (blen seed =? len) then lift (throw "spqr: sumber entropi mengembalikan panjang salah") else
  _ ← writeInput seed 0; call (spqr_seed_entropy len).

Definition readFramed (buffer : bytes) (offset : Z) : result (bytes * Z) :=
  len ← get_u32 buffer offset;
  let start := offset + 4 in
  let end_ := start + len in
  _ ← guard_not (blen buffer <? end_) "spqr: framing output rusak";
  Ok (slice buffer start end_, end_).

Definition readOptionalKey (buffer : bytes) (offset : Z) : result (option bytes * Z) :=
  let present := default 0 (u8_get buffer offset) in
  f ← readFramed buffer (offset + 1);
  Ok (if present =? 1 then Some f.1 else None, f.2).

Section Host.
Context `{SpqrCrate}.

Definition emptyState : host bytes := expect spqr_empty_state.

Definition currentVersion (state : bytes) : host (option SpqrVersion) :=
  _ ← writeInput state 0;
  raw ← expect (spqr_current_version (blen state));
  code ← lift (get_u32 raw 0);
  mret (if code =? SPQR_VERSION_NEGOTIATING then None else Some (if code =? 1 then V1 else V0)).

Definition DIRECTION_CODE (d : Direction) : Z := match d with A2B => 0 | B2A => 1 end.
Definition VERSION_CODE (v : SpqrVersion) : Z := match v with V0 => 0 | V1 => 1 end.

Definition initialState (authKey : bytes) (d : Direction) (version minVersion : SpqrVersion) : host bytes :=
  _ ← writeInput authKey 0;
  expect (spqr_initial_state (blen authKey) (DIRECTION_CODE d) (VERSION_CODE version) (VERSION_CODE minVersion)).

Definition send (entropyBytes : Z) (seed state : bytes) : host (bytes * bytes * option bytes) :=
  _ ← seedEntropy entropyBytes seed;
  _ ← writeInput state 0;
  raw ← expect (spqr_send (blen state) entropyBytes);
  stateFrame ← lift (readFramed raw 0);
  msgFrame ← lift (readFramed raw stateFrame.2);
  key ← lift (readOptionalKey raw msgFrame.2);
  mret (stateFrame.1, msgFrame.1, key.1).

Definition recv (state msg : bytes) : host (bytes * option bytes) :=
  _ ← writeInput state 0;
  _ ← writeInput msg (blen state);
  raw ← expect (spqr_recv (blen state) (blen msg));
  stateFrame ← lift (readFramed raw 0);
  key ← lift (readOptionalKey raw stateFrame.2);
  mret (stateFrame.1, key.1).

End Host.
End SpqrAbi.
Import SpqrAbi.

(** ** The boundary carries what the crate computes *)
Section Abi.
Context `{SpqrCrate}.

Definition machine_ok (m : Scratch) : Prop := blen (input m) = SCRATCH.

(** The results at the boundary, memory aside. *)
Definition key_size (k : option bytes) : Z := blen (default [] k).

Definition fits {A} (n : Z) (a : A) : result A :=
  if SCRATCH <? n then Err (describeCode SPQR_ERR_ARGS) else Ok a.

Definition of_crate {A} (r : result A) : result A :=
  match r with Ok a => Ok a | Err _ => Err (describeCode SPQR_ERR_CRATE) end.

Definition abi_input {A} (n : Z) (r : result A) : result A :=
  if SCRATCH <? n then Err "spqr: input melebihi scratch buffer" else r.

Definition abi_initial (authKey : bytes) (d : Direction) (v mv : SpqrVersion) : result bytes :=
  abi_input (blen authKey) (s ← of_crate (crate_initial_state authKey d v mv); fits (blen s) s).

Definition abi_send (seed state : bytes) : result (bytes * bytes * option bytes) :=
  abi_input (blen state)
    (r ← of_crate (crate_send seed state);
     fits (13 + blen r.1.1 + blen r.1.2 + key_size r.2) r).

Definition abi_recv (state msg : bytes) : result (bytes * option bytes) :=
  abi_input (blen state + blen msg)
    (r ← of_crate (crate_recv state msg); fits (9 + blen r.1 + key_size r.2) r).

Lemma writeInput_ok b off m :
  machine_ok m -> 0 <= off -> blen b + off <= SCRATCH ->
  exists m', writeInput b off m = (Ok tt, m') /\ machine_ok m' /\
    input m' = slice (input m) 0 off ++ b ++ slice_from (input m) (off + blen b) /\
    output m' = output m /\ out_len m' = out_len m /\ entropy m' = entropy m /\ entropy_cursor m' = entropy_cursor m.
Proof.
  unfold machine_ok. intros Hm Ho Hb. unfold writeInput. ztest. unfold u8_set. rewrite Hm. ztest. cbn [orb].
  eexists. split; [done|]. cbn. split_and!; try done.
  - rewrite !blen_app. pose proof (blen_nonneg b). unfold blen in *. rewrite length_take, length_drop. lia.
  - unfold slice. by rewrite Z.sub_0_r.
Qed.

Lemma writeInput_read b m m' :
  machine_ok m -> blen b <= SCRATCH -> writeInput b 0 m = (Ok tt, m') -> read_input (blen b) m' = Some b.
Proof.
  intros Hm Hb Hw. destruct (writeInput_ok b 0 m Hm ltac:(lia) ltac:(lia)) as (m1 & Hw1 & _ & Hi & _).
  rewrite Hw in Hw1. injection Hw1 as <-. unfold read_input. ztest. f_equal. rewrite Hi.
  change (slice (input m) 0 0) with (@nil byte). cbn [app]. by apply slice_app_head.
Qed.

Lemma writeInput_long b off m : SCRATCH < blen b + off ->
  writeInput b off m = (Err "spqr: input melebihi scratch buffer", m).
Proof. intros Hb. unfold writeInput. by ztest. Qed.

(** What an export wrote is what the host reads. *)
Lemma expect_write f b m m0 :
  f m = write_output b m0 -> machine_ok m0 ->
  exists m', expect f m = (fits (blen b) b, m') /\ machine_ok m'.
Proof.
  intros Hf Hm. unfold expect, call, mbind, stE_bind. rewrite Hf. unfold write_output, fits.
  destruct (Z.ltb_spec SCRATCH (blen b)) as [Hb|Hb].
  - cbn. eexists. by split.
  - cbn. unfold outputBytes. cbn [output out_len]. rewrite slice_app_head by done. eexists. split; [done|exact Hm].
Qed.

Lemma expect_crate f m m0 : f m = (SPQR_ERR_CRATE, m0) -> machine_ok m0 ->
  expect f m = (Err (describeCode SPQR_ERR_CRATE), m0).
Proof. intros Hf Hm. unfold expect, call, mbind, stE_bind. by rewrite Hf. Qed.

Lemma readFramed_at b pre x post off :
  b = pre ++ be32 (blen x) ++ x ++ post -> off = blen pre -> blen b <= SCRATCH ->
  readFramed b off = Ok (x, off + 4 + blen x).
Proof.
  intros Hb -> Hl. assert (Hx : blen x + blen pre + 4 + blen post = blen b) by (rewrite Hb; autorewrite with nyx; lia).
  pose proof (blen_nonneg x). pose proof (blen_nonneg pre). pose proof (blen_nonneg post).
  assert (SCRATCH < 4294967296) by done.
  unfold readFramed. rewrite (get_u32_split b pre (x ++ post) (blen pre) (blen x)) by (try done; lia).
  rewrite bind_ok. unfold guard_not. ztest. rewrite bind_ok. do 2 f_equal.
  apply (slice_split b (pre ++ be32 (blen x)) x post); [rewrite Hb; split_app|autorewrite with nyx; lia|lia].
Qed.

Lemma readOptionalKey_at b pre k off :
  b = push_key pre k -> off = blen pre -> blen b <= SCRATCH ->
  exists next, readOptionalKey b off = Ok (k, next).
Proof.
  intros Hb -> Hl. unfold readOptionalKey. destruct k as [k|]; cbn [push_key] in Hb; unfold push_u32 in Hb.
  - rewrite (u8_get_split b pre 1 (be32 (blen k) ++ k)) by (try done; rewrite Hb; split_app).
    rewrite (readFramed_at b (pre ++ [x01]) k []) by (try done; first [rewrite Hb; split_app | autorewrite with nyx; lia]).
    by eexists.
  - rewrite (u8_get_split b pre 0 (be32 0)) by (try done; rewrite Hb; split_app).
    rewrite (readFramed_at b (pre ++ [x00]) [] []) by (try done; first [rewrite Hb; split_app | autorewrite with nyx; lia]).
    by eexists.
Qed.

Lemma code_roundtrip d v : direction_from_code (DIRECTION_CODE d) = Some d /\ version_from_code (VERSION_CODE v) = Some v.
Proof. by destruct d, v. Qed.

Lemma initialState_abi m authKey d v mv : machine_ok m ->
  exists m', initialState authKey d v mv m = (abi_initial authKey d v mv, m') /\ machine_ok m'.
Proof.
  intros Hm. unfold initialState, abi_initial, abi_input.
  destruct (Z.ltb_spec SCRATCH (blen authKey)) as [Hl|Hl].
  { rewrite (stE_bind_eq _ _ m _ _ (writeInput_long authKey 0 m ltac:(lia))). by exists m. }
  destruct (writeInput_ok authKey 0 m Hm ltac:(lia) ltac:(lia)) as (m1 & Hw & Hm1 & _).
  pose proof (writeInput_read _ _ _ Hm Hl Hw) as Hr. rewrite (stE_bind_eq _ _ m _ _ Hw).
  assert (Hf : spqr_initial_state (blen authKey) (DIRECTION_CODE d) (VERSION_CODE v) (VERSION_CODE mv) m1 =
    match crate_initial_state authKey d v mv with Ok s => write_output s m1 | Err _ => (SPQR_ERR_CRATE, m1) end).
  { unfold spqr_initial_state. rewrite Hr. by destruct d, v, mv. }
  destruct (crate_initial_state authKey d v mv) as [s|e]; cbn [of_crate].
  - rewrite bind_ok. by apply (expect_write _ _ _ m1).
  - exists m1. split; [|done]. by apply expect_crate.
Qed.

Lemma seedEntropy_ok m seed : machine_ok m -> 0 < blen seed <= SPQR_MAX_ENTROPY_BYTES ->
  exists m', seedEntropy (blen seed) seed m = (Ok tt, m') /\ machine_ok m' /\ entropy m' = seed /\ entropy_cursor m' = 0%nat.
Proof.
  intros Hm Hs. assert (Hle : SPQR_MAX_ENTROPY_BYTES <= SCRATCH) by done. unfold seedEntropy. ztest. cbn [orb negb].
  destruct (writeInput_ok seed 0 m Hm ltac:(lia) ltac:(lia)) as (m1 & Hw & Hm1 & _).
  pose proof (writeInput_read seed m m1 Hm ltac:(lia) Hw) as Hr. rewrite (stE_bind_eq _ _ m _ _ Hw).
  unfold call, spqr_seed_entropy. ztest. cbn [orb]. rewrite Hr. eexists. split; [done|]. by split_and!.
Qed.

Lemma send_output_read s' msg key raw m :
  raw = push_key (push_u32 (push_u32 [] (blen s') ++ s') (blen msg) ++ msg) key -> blen raw <= SCRATCH ->
  ((stateFrame ← lift (readFramed raw 0);
    msgFrame ← lift (readFramed raw stateFrame.2);
    key ← lift (readOptionalKey raw msgFrame.2);
    mret (stateFrame.1, msgFrame.1, key.1)) : host _) m = (Ok (s', msg, key), m).
Proof.
  intros Hraw Hl. set (tl := push_key [] key).
  assert (Hk : forall pre, push_key pre key = pre ++ tl).
  { intros pre. unfold tl, push_key, push_u32. destruct key; split_app. }
  assert (E : raw = be32 (blen s') ++ s' ++ be32 (blen msg) ++ msg ++ tl).
  { rewrite Hraw, Hk. unfold push_u32. split_app. }
  unfold mbind, stE_bind, lift.
  rewrite (readFramed_at raw [] s' (be32 (blen msg) ++ msg ++ tl) 0) by (try done; exact E).
  cbn [snd fst]. rewrite (readFramed_at raw (be32 (blen s') ++ s') msg tl)
    by (first [done | rewrite E; split_app | autorewrite with nyx; lia]).
  destruct (readOptionalKey_at raw (be32 (blen s') ++ s' ++ be32 (blen msg) ++ msg) key (0 + 4 + blen s' + 4 + blen msg))
    as (nx & Hn); [rewrite Hk, E; split_app|autorewrite with nyx; lia|done|].
  cbn [snd fst]. by rewrite Hn.
Qed.

Lemma send_abi m seed state : machine_ok m -> 0 < blen seed <= SPQR_MAX_ENTROPY_BYTES ->
  exists m', send (blen seed) seed state m = (abi_send seed state, m') /\ machine_ok m'.
Proof.
  intros Hm Hs. unfold send, abi_send, abi_input.
  destruct (seedEntropy_ok m seed Hm Hs) as (m0 & He & Hm0 & Hent & Hcur). rewrite (stE_bind_eq _ _ m _ _ He).
  destruct (Z.ltb_spec SCRATCH (blen state)) as [Hl|Hl].
  { rewrite (stE_bind_eq _ _ m0 _ _ (writeInput_long state 0 m0 ltac:(lia))). by exists m0. }
  destruct (writeInput_ok state 0 m0 Hm0 ltac:(lia) ltac:(lia)) as (m1 & Hw & Hm1 & _ & _ & _ & Hent1 & Hcur1).
  pose proof (writeInput_read _ _ _ Hm0 Hl Hw) as Hr. rewrite (stE_bind_eq _ _ m0 _ _ Hw).
  assert (Hf : exists m2, machine_ok m2 /\ spqr_send (blen state) (blen seed) m1 =
    match crate_send seed state with
    | Ok (s', msg, key) => write_output (push_key (push_u32 (push_u32 [] (blen s') ++ s') (blen msg) ++ msg) key) m2
    | Err _ => (SPQR_ERR_CRATE, m2) end).
  { unfold spqr_send. rewrite Hr. ztest. cbn [orb]. rewrite Hent1, Hent, Hcur1, Hcur.
    destruct seed as [|b seed]; [rewrite blen_nil in Hs; lia|]. cbn [drop]. by eexists (mkScratch _ _ _ _ _). }
  destruct Hf as (m2 & Hm2 & Hf). destruct (crate_send seed state) as [[[s' msg] key]|e]; cbn [of_crate].
  2: { exists m2. split; [|done]. by rewrite (stE_bind_eq _ _ m1 _ _ (expect_crate _ _ _ Hf Hm2)). }
  rewrite bind_ok. cbn [fst snd]. destruct (expect_write _ _ _ _ Hf Hm2) as (m3 & Hx & Hm3).
  rewrite (stE_bind_eq _ _ m1 _ _ Hx). set (raw := push_key _ key) in *.
  assert (Hlen : blen raw = 13 + blen s' + blen msg + key_size key).
  { unfold raw, push_key, push_u32, key_size. destruct key; cbn [default from_option]; autorewrite with nyx; unfold id; autorewrite with nyx; lia. }
  rewrite Hlen in *. unfold fits. destruct (Z.ltb_spec SCRATCH (13 + blen s' + blen msg + key_size key)); [by exists m3|].
  exists m3. split; [|done]. apply send_output_read; [done|lia].
Qed.

Lemma recv_abi m state msg : machine_ok m ->
  exists m', recv state msg m = (abi_recv state msg, m') /\ machine_ok m'.
Proof.
  intros Hm. unfold recv, abi_recv, abi_input. pose proof (blen_nonneg state). pose proof (blen_nonneg msg).
  destruct (Z.ltb_spec SCRATCH (blen state)) as [Hl|Hl].
  { rewrite (stE_bind_eq _ _ m _ _ (writeInput_long state 0 m ltac:(lia))). ztest. by exists m. }
  destruct (writeInput_ok state 0 m Hm ltac:(lia) ltac:(lia)) as (m1 & Hw & Hm1 & Hi & _). rewrite (stE_bind_eq _ _ m _ _ Hw).
  destruct (Z.ltb_spec SCRATCH (blen state + blen msg)) as [Hl2|Hl2].
  { rewrite (stE_bind_eq _ _ m1 _ _ (writeInput_long msg (blen state) m1 ltac:(lia))). by exists m1. }
  destruct (writeInput_ok msg (blen state) m1 Hm1 ltac:(lia) ltac:(lia)) as (m2 & Hw2 & Hm2 & Hi2 & _).
  rewrite (stE_bind_eq _ _ m1 _ _ Hw2).
  assert (Hr : read_input (blen state + blen msg) m2 = Some (state ++ msg)).
  { unfold read_input. ztest. f_equal. rewrite Hi2, Hi. change (slice (input m) 0 0) with (@nil byte). cbn [app].
    rewrite (slice_app_head state _ (blen state)) by done. rewrite app_assoc. apply slice_app_head. autorewrite with nyx. lia. }
  assert (Hf : spqr_recv (blen state) (blen msg) m2 = match crate_recv state msg with
    | Ok (s', key) => write_output (push_key (push_u32 [] (blen s') ++ s') key) m2
    | Err _ => (SPQR_ERR_CRATE, m2) end).
  { unfold spqr_recv. rewrite Hr, slice_app_head, slice_from_app by done. done. }
  destruct (crate_recv state msg) as [[s' key]|e]; cbn [of_crate].
  2: { exists m2. split; [|done]. by rewrite (stE_bind_eq _ _ m2 _ _ (expect_crate _ _ _ Hf Hm2)). }
  rewrite bind_ok. cbn [fst snd]. destruct (expect_write _ _ _ _ Hf Hm2) as (m3 & Hx & Hm3).
  rewrite (stE_bind_eq _ _ m2 _ _ Hx). set (raw := push_key _ key) in *.
  assert (Hlen : blen raw = 9 + blen s' + key_size key).
  { unfold raw, push_key, push_u32, key_size. destruct key; cbn [default from_option]; autorewrite with nyx; unfold id; autorewrite with nyx; lia. }
  rewrite Hlen in *. unfold fits. destruct (Z.ltb_spec SCRATCH (9 + blen s' + key_size key)); [by exists m3|].
  exists m3. split; [|done]. unfold mbind, stE_bind, lift.
  assert (Hk : raw = be32 (blen s') ++ s' ++ push_key [] key).
  { unfold raw, push_key, push_u32. destruct key; split_app. }
  rewrite (readFramed_at raw [] s' (push_key [] key) 0) by (first [done|exact Hk|lia]).
  destruct (readOptionalKey_at raw (be32 (blen s') ++ s') key (0 + 4 + blen s')) as (nx & Hn);
    [done|autorewrite with nyx; lia|lia|].
  cbn [snd fst]. by rewrite Hn.
Qed.

(** The WebAssembly boundary adds nothing and loses nothing. Whatever the module's
    memory held before, each wrapper call returns exactly what the crate computes on
    the bytes it was given (the state at the start of the scratch buffer after the
    entropy was seeded from it, the message behind the state), a crate failure
    becomes the wrapper's error, inputs and outputs larger than the 256 KiB buffers
    are refused, and the memory stays usable for the next call. *)
Theorem spqr_abi_exact m seed state msg authKey d v mv :
  machine_ok m -> 0 < blen seed <= SPQR_MAX_ENTROPY_BYTES ->
  (exists m', send (blen seed) seed state m = (abi_send seed state, m') /\ machine_ok m') /\
  (exists m', recv state msg m = (abi_recv state msg, m') /\ machine_ok m') /\
  (exists m', initialState authKey d v mv m = (abi_initial authKey d v mv, m') /\ machine_ok m').
Proof.
  intros Hm Hs. split_and!; [by apply send_abi|by apply recv_abi|by apply initialState_abi].
Qed.
End Abi.

(** ** One message *)
Module SpqrSession.

Definition SPQR_MAX_FRAMES_PER_MESSAGE : nat := 16.
Definition SPQR_MAX_STEPS_PER_MESSAGE : nat := SPQR_MAX_FRAMES_PER_MESSAGE.
Definition entropyBytes : Z := 128.

Section Ops.
Context `{SpqrCrate}.

Definition initSpqrSession (authKey : bytes) (d : Direction) : host bytes :=
  if blen authKey =? 0 then lift (throw "spqr-session: authKey kosong")
  else initialState authKey d V1 V1.

(** [seeds] are the bytes [randomBytes] returns, one per call of [send]. *)
Fixpoint send_loop (steps : nat) (seeds : list bytes) (frames : list bytes) (current : bytes)
  : host (bytes * list bytes * bytes) :=
  match steps with
  | 0%nat => lift (throw "spqr-session: message key tidak tersedia")
  | S steps' =>
      r ← send entropyBytes (default [] (head seeds)) current;
      let '(state, msg, key) := r in
      let frames := match msg with [] => frames | _ => frames ++ [msg] end in
      match key with
      | Some (b :: k) =>
          match frames with
          | [] => lift (throw "spqr-session: key tersedia tanpa frame braid")
          | _ => mret (state, frames, b :: k)
          end
      | _ => send_loop steps' (tail seeds) frames state
      end
  end.

Definition spqrSendStep (seeds : list bytes) (state : bytes) : host (bytes * list bytes * bytes) :=
  send_loop SPQR_MAX_STEPS_PER_MESSAGE seeds [] state.

Fixpoint recv_loop (frames : list bytes) (current : bytes) (key : option bytes) : host (bytes * option bytes) :=
  match frames with
  | [] => mret (current, key)
  | frame :: rest =>
      r ← recv current frame;
      recv_loop rest r.1 (match r.2 with Some (b :: k) => Some (b :: k) | _ => key end)
  end.

Definition spqrRecvStep (state : bytes) (frames : list bytes) : host (bytes * option bytes) :=
  match frames with
  | [] => lift (throw "spqr-session: tidak ada frame untuk diterapkan")
  | _ =>
      if Z.of_nat SPQR_MAX_STEPS_PER_MESSAGE <? Z.of_nat (length frames)
      then lift (throw "spqr-session: terlalu banyak frame")
      else recv_loop frames state None
  end.

End Ops.
End SpqrSession.
Import SpqrSession.

Section Agreement.
Context `{CL : SpqrCrateLaws}.

Definition seeds_ok (n : nat) (seeds : list bytes) : Prop :=
  (n <= length seeds)%nat /\ Forall (fun s => blen s = entropyBytes) seeds.

(** A frame the sender puts on the wire. *)
Definition frame_ok (f : bytes) : Prop := f <> [] /\ blen f <= 3072.

Lemma send_result m seed a r m' :
  machine_ok m -> blen seed = entropyBytes -> send entropyBytes seed a m = (Ok r, m') ->
  machine_ok m' /\ crate_send seed a = Ok r.
Proof.
  intros Hm Hs He. destruct (send_abi m seed a Hm) as (m1 & E & Hm1); [rewrite Hs; done|].
  rewrite Hs, He in E. injection E as E <-. split; [done|]. symmetry in E. revert E.
  unfold abi_send, abi_input, of_crate, fits. destruct (SCRATCH <? _); [done|].
  destruct (crate_send seed a) as [r'|]; [|done]. rewrite bind_ok. by destruct (SCRATCH <? _); [|intros [= ->]].
Qed.

Lemma recv_step a b e a' msg k :
  in_step a b -> crate_send e a = Ok (a', msg, k) -> msg <> [] ->
  exists b', in_step a' b' /\ forall m, machine_ok m -> exists m', recv b msg m = (Ok (b', k), m') /\ machine_ok m'.
Proof.
  intros Hab Hs Hne. destruct (send_recv a b e a' msg k Hab Hs Hne) as (b' & Hr & Hab').
  exists b'. split; [done|]. intros m Hm. destruct (recv_abi m b msg Hm) as (m' & E & Hm'). exists m'. rewrite E.
  split; [|done]. f_equal. pose proof (in_step_size _ _ (in_step_sym _ _ Hab)) as H1.
  pose proof (in_step_size _ _ (in_step_sym _ _ Hab')) as H2.
  destruct (send_size a b e a' msg k Hab Hs) as [H3 H4]. fold (key_size k) in H4. unfold abi_recv, abi_input, fits.
  assert (SCRATCH = 262144) as -> by done. ztest. rewrite Hr. cbn [of_crate]. rewrite bind_ok. cbn [fst snd]. by ztest.
Qed.

Lemma send_loop_agree n : forall seeds frames a b mA a' all key mA',
  seeds_ok n seeds -> machine_ok mA -> in_step a b ->
  send_loop n seeds frames a mA = (Ok (a', all, key), mA') ->
  exists new b', all = frames ++ new /\ (length new <= n)%nat /\ new <> [] /\ Forall frame_ok new /\ key <> [] /\
    machine_ok mA' /\ in_step a' b' /\
  forall mB key0, machine_ok mB -> exists mB', recv_loop new b key0 mB = (Ok (b', Some key), mB') /\ machine_ok mB'.
Proof.
  induction n as [|n IH]; intros seeds frames a b mA a' all key mA' [Hn Hsd] HA Hab; [done|].
  cbn [send_loop]. destruct seeds as [|seed seeds]; [cbn in Hn; lia|]. apply Forall_cons in Hsd as [Hs Hsd].
  cbn [head tail default from_option]. unfold id. unfold mbind, stE_bind.
  destruct (send entropyBytes seed a mA) as [[[[st msg] k]|e] mA1] eqn:Es; [|done].
  destruct (send_result _ _ _ _ _ HA Hs Es) as [HA1 Hcs]. intros Hrest.
  assert (Hseeds : seeds_ok n seeds) by (split; [cbn in Hn; lia|done]).
  destruct msg as [|c msg].
  - destruct (send_silent _ _ _ _ _ Hab Hcs) as [Hk Hab'].
    destruct Hk as [-> | ->]; (destruct (IH _ _ _ _ _ _ _ _ _ Hseeds HA1 Hab' Hrest) as (new & b' & -> & Hl & Hx);
       exists new, b'; split_and!; [done|lia|apply Hx..]).
  - destruct (send_size _ _ _ _ _ _ Hab Hcs) as [Hsz _].
    destruct (recv_step a b seed st (c :: msg) k Hab Hcs ltac:(done)) as (b1 & Hab' & Hrecv).
    assert (Hfo : frame_ok (c :: msg)) by done.
    destruct k as [[|d k]|];
      [|destruct (frames ++ [c :: msg]) eqn:Ef; [by destruct frames|]; rewrite <- Ef in Hrest; clear Ef|].
    2: { cbn in Hrest. injection Hrest as <- <- <- <-. exists [c :: msg], b1.
      split_and!; [done|cbn; lia|done|by repeat constructor|done..|].
      intros mB key0 HB. destruct (Hrecv mB HB) as (mB1 & Hr & HB1). exists mB1. cbn [recv_loop].
      rewrite (stE_bind_eq _ _ mB _ _ Hr). by split. }
    all: destruct (IH _ _ _ _ _ _ _ _ _ Hseeds HA1 Hab' Hrest) as (new & b' & -> & Hl & Hne & Hf & Hk & HA' & Hab'' & Hx);
      exists ((c :: msg) :: new), b'; rewrite <- app_assoc; (split_and!; [done|cbn; lia|done|by constructor|done..|]);
      intros mB key0 HB; destruct (Hrecv mB HB) as (mB1 & Hr & HB1); cbn [recv_loop];
      rewrite (stE_bind_eq _ _ mB _ _ Hr); cbn [fst snd]; by apply Hx.
Qed.

(** The sender's loop, memory aside. *)
Fixpoint pure_send (steps : nat) (seeds frames : list bytes) (current : bytes) : result (bytes * list bytes * bytes) :=
  match steps with
  | 0%nat => Err "spqr-session: message key tidak tersedia"
  | S steps' =>
      r ← abi_send (default [] (head seeds)) current;
      let '(state, msg, key) := r in
      let frames := match msg with [] => frames | _ => frames ++ [msg] end in
      match key with
      | Some (b :: k) =>
          match frames with
          | [] => Err "spqr-session: key tersedia tanpa frame braid"
          | _ => Ok (state, frames, b :: k)
          end
      | _ => pure_send steps' (tail seeds) frames state
      end
  end.

Lemma send_loop_pure n : forall seeds frames a m, seeds_ok n seeds -> machine_ok m ->
  exists m', send_loop n seeds frames a m = (pure_send n seeds frames a, m') /\ machine_ok m'.
Proof.
  induction n as [|n IH]; intros seeds frames a m [Hn Hsd] Hm; [by exists m|].
  destruct seeds as [|seed seeds]; [cbn in Hn; lia|]. apply Forall_cons in Hsd as [Hs Hsd].
  cbn [send_loop pure_send head tail default from_option]. unfold id.
  destruct (send_abi m seed a Hm) as (m1 & E & Hm1); [rewrite Hs; done|]. rewrite Hs in E.
  rewrite (stE_bind_eq _ _ m _ _ E). destruct (abi_send seed a) as [[[st msg] k]|e]; [|by exists m1].
  rewrite bind_ok. assert (Hseeds : seeds_ok n seeds) by (split; [cbn in Hn; lia|done]).
  destruct k as [[|d k]|]; [by apply IH| |by apply IH].
  destruct (match msg with [] => frames | _ => frames ++ [msg] end); by exists m1.
Qed.

(** Applying frames, memory aside. *)
Fixpoint pure_recv (frames : list bytes) (current : bytes) (key : option bytes) : result (bytes * option bytes) :=
  match frames with
  | [] => Ok (current, key)
  | frame :: rest =>
      r ← abi_recv current frame;
      pure_recv rest r.1 (match r.2 with Some (b :: k) => Some (b :: k) | _ => key end)
  end.

Lemma recv_loop_pure frames : forall st key m, machine_ok m ->
  exists m', recv_loop frames st key m = (pure_recv frames st key, m') /\ machine_ok m'.
Proof.
  induction frames as [|f frames IH]; intros st key m Hm; [by exists m|]. cbn [recv_loop pure_recv].
  destruct (recv_abi m st f Hm) as (m1 & E & Hm1). rewrite (stE_bind_eq _ _ m _ _ E).
  destruct (abi_recv st f) as [r|e]; [by apply IH|by exists m1].
Qed.

Lemma spqrSendStep_eq seeds state : spqrSendStep seeds state = send_loop SPQR_MAX_STEPS_PER_MESSAGE seeds [] state.
Proof. reflexivity. Qed.

Lemma spqrRecvStep_eq state frames : spqrRecvStep state frames =
  match frames with
  | [] => lift (throw "spqr-session: tidak ada frame untuk diterapkan")
  | _ => if Z.of_nat SPQR_MAX_STEPS_PER_MESSAGE <? Z.of_nat (length frames)
         then lift (throw "spqr-session: terlalu banyak frame") else recv_loop frames state None
  end.
Proof. reflexivity. Qed.

(** One user message is one key. When the sender's loop collects the frames of a
    message, they number between one and sixteen, none is empty or oversized, the key
    is not empty, and a peer in step who applies them in order gets the same key and
    is in step again; both memories stay usable. *)
Lemma spqr_step_agree seeds a b mA a' frames key mA' :
  seeds_ok SPQR_MAX_STEPS_PER_MESSAGE seeds -> machine_ok mA -> in_step a b ->
  spqrSendStep seeds a mA = (Ok (a', frames, key), mA') ->
  (1 <= length frames <= SPQR_MAX_FRAMES_PER_MESSAGE)%nat /\ Forall frame_ok frames /\ key <> [] /\ machine_ok mA' /\
  exists b', in_step a' b' /\ forall mB, machine_ok mB ->
    exists mB', spqrRecvStep b frames mB = (Ok (b', Some key), mB') /\ machine_ok mB'.
Proof.
  intros Hsd HA Hab Hs. rewrite spqrSendStep_eq in Hs. revert Hsd Hs.
  change SPQR_MAX_FRAMES_PER_MESSAGE with SPQR_MAX_STEPS_PER_MESSAGE.
  remember SPQR_MAX_STEPS_PER_MESSAGE as n eqn:En. intros Hsd Hs.
  destruct (send_loop_agree n seeds [] a b mA a' frames key mA' Hsd HA Hab Hs)
    as (new & b' & -> & Hl & Hne & Hf & Hk & HA' & Hab' & Hx).
  cbn [app]. destruct new as [|f new]; [done|].
  split; [cbn in Hl |- *; lia|]. split_and!; [done..|]. exists b'. split; [done|]. intros mB HB.
  rewrite spqrRecvStep_eq, <- En, (proj2 (Z.ltb_ge _ _)) by (apply inj_le, Hl). by apply Hx.
Qed.
End Agreement.

(** ** A small crate *)
(** Both sides hold the same 32 bytes; a message is an exchange frame and then a frame
    with a key. *)
Module ToySpqr.
Definition step (st : bytes) : bytes * bytes * option bytes :=
  match Toy.pad 32 st with
  | x00 :: t => (x01 :: t, [x02], None)
  | _ :: t => (x00 :: t, [x03], Some (Toy.pad 32 st))
  | [] => (zeros 32, [x02], None)
  end.

#[export] Instance toy_crate : SpqrCrate := {
  crate_empty_state := zeros 32;
  crate_current_version _ := Ok (Some V1);
  crate_initial_state k _ _ _ := Ok (Toy.pad 32 (x00 :: k));
  crate_send _ st := Ok (step st);
  crate_drawn _ _ := 0%nat;
  crate_recv st m := let '(st', m', k) := step st in
    if bool_decide (m = m') then Ok (st', k) else Err "frame" }.

Lemma step_sizes st : blen (step st).1.1 = 32 /\ (exists x, (step st).1.2 = [x]) /\ blen (default [] (step st).2) <= 32.
Proof.
  pose proof (Toy.blen_pad 32 st ltac:(lia)) as Hp. unfold step.
  destruct (Toy.pad 32 st) as [|b t] eqn:E; [done|]. rewrite blen_cons in Hp.
  assert (blen (b :: t) = 32) as Hb by (rewrite blen_cons; lia).
  destruct b; cbn [fst snd default from_option]; (split_and!; [rewrite blen_cons; lia|by eexists|]); unfold id; rewrite ?Hb;
    try (vm_compute; discriminate).
Qed.

#[export] Instance toy_crate_laws : SpqrCrateLaws.
Proof.
  refine {| in_step a b := a = b /\ blen a = 32 |}.
  - intros k d v m a b [= <-] [= <-]. split; [done|]. by apply Toy.blen_pad.
  - intros a b e a' m k [<- Ha] [= Hs] Hm. exists a'. pose proof (step_sizes a) as (Hz & _). cbn. rewrite Hs in Hz |- *.
    cbn in Hz. by rewrite bool_decide_true.
  - intros a b e a' k [<- Ha] [= Hs]. destruct (step_sizes a) as (_ & [x Hx] & _). by rewrite Hs in Hx.
  - by intros a b [-> ?].
  - intros a b [-> Ha]. lia.
  - intros a b e a' m k [<- Ha] [= Hs]. destruct (step_sizes a) as (_ & [x Hx] & Hk). rewrite Hs in Hx, Hk.
    cbn in Hx, Hk. subst m. split; [vm_compute; discriminate|lia].
Defined.

Definition seeds : list bytes := replicate 16 (zeros 128).
Definition start : bytes := zeros 32.
End ToySpqr.

Import ToySpqr.

Lemma fresh_ok : machine_ok fresh_scratch.
Proof. by apply blen_zeros. Qed.

Lemma toy_seeds : seeds_ok SPQR_MAX_STEPS_PER_MESSAGE ToySpqr.seeds.
Proof. split; [vm_compute; lia|]. repeat constructor. Qed.

Lemma spqr_abi_exact_witness :
  fst (send (blen (zeros 128)) (zeros 128) ToySpqr.start fresh_scratch) = Ok (x01 :: zeros 31, [x02], None).
Proof.
  destruct (spqr_abi_exact fresh_scratch (zeros 128) ToySpqr.start [] [] A2B V1 V1 fresh_ok) as ((m' & E & _) & _).
  - split; vm_compute; [reflexivity|discriminate].
  - rewrite E. reflexivity.
Defined.
