(* ===== verification/SpqrWire.v ===== *)
(** Which ratchet a message is sent with, and how a v2 message looks on the wire:
    web/src/lib/spqrNegotiation.ts (the decision per message, rollback, kill
    switches) and web/src/lib/spqrWire.ts (header, frames, the version declared
    inside the sealed payload). *)
From S2P Require Import Prelude Bytes Base64 Utf8 Js Json DrSession.
Import DrProtocol.

(** ** Version negotiation *)
Module SpqrNegotiation.

Definition SPQR_CAPABILITY : string := "spqr-ratchet".
Definition SPQR_RUNTIME_KILL_SWITCH_KEY : string := "nyx_spqr_force_v1".

Definition resolveSpqrIntegrationEnabled (VITE_SPQR_FORCE_V1 : option string) : bool :=
  negb (bool_decide (VITE_SPQR_FORCE_V1 = Some "1"%string)).

Definition resolveSpqrCapabilityOverride (DEV : bool) (VITE_SPQR_FORCE_V2 : option string) : bool :=
  DEV && bool_decide (VITE_SPQR_FORCE_V2 = Some "1"%string).

(** [storage] is [localStorage.getItem], [None] where there is none. *)
Definition resolveSpqrRuntimeKillSwitch (DEV : bool) (storage : option (string -> option string)) : bool :=
  match storage with
  | Some getItem => DEV && bool_decide (getItem SPQR_RUNTIME_KILL_SWITCH_KEY = Some "1"%string)
  | None => false
  end.

Definition spqrSendingEnabled (force_v1 : option string) (DEV : bool)
    (storage : option (string -> option string)) : bool :=
  resolveSpqrIntegrationEnabled force_v1 && negb (resolveSpqrRuntimeKillSwitch DEV storage).

Definition advertisedCapabilities (enabled : bool) : list string := if enabled then [SPQR_CAPABILITY] else [].

Inductive RatchetVersionReason := established | both_capable | local_disabled | peer_legacy | rollback.

Record RatchetVersionDecision := mkDecision {
  version : RatchetWireVersion; reason : RatchetVersionReason; preservedVersion : option RatchetWireVersion }.

Definition planRatchetRollback (currentVersion : RatchetWireVersion) : RatchetWireVersion * option RatchetWireVersion :=
  (v1, match currentVersion with v2 => Some v2 | v1 => None end).

(** [undefined] and [null] versions are both [None]. *)
Record OutboundRatchetInput := mkOutbound {
  currentOutbound : option RatchetWireVersion; peerDeclaredVersion : option RatchetWireVersion;
  negotiatedCapabilities : list string; integrationEnabled : bool; capabilityOverride : bool }.

Definition is_v2 (o : option RatchetWireVersion) : bool := match o with Some v2 => true | _ => false end.

Definition downgrade (current : option RatchetWireVersion) (r : RatchetVersionReason) : RatchetVersionDecision :=
  if is_v2 current then mkDecision v1 r (planRatchetRollback v2).2 else mkDecision v1 r None.

Definition resolveOutboundRatchetVersion (input : OutboundRatchetInput) : RatchetVersionDecision :=
  if negb (integrationEnabled input) then downgrade (currentOutbound input) local_disabled else
  if negb (is_v2 (peerDeclaredVersion input)) then
    (if is_v2 (currentOutbound input) then downgrade (currentOutbound input) rollback
     else mkDecision v1 peer_legacy None) else
  if is_v2 (currentOutbound input) then mkDecision v2 established None else
  let relayCapable := capabilityOverride input
                      || bool_decide (SPQR_CAPABILITY ∈ negotiatedCapabilities input) in
  if negb relayCapable then mkDecision v1 peer_legacy None else mkDecision v2 both_capable None.

Definition resolveRatchetVersion (currentVersion : option RatchetWireVersion)
    (capabilities : list string) (enabled : bool) : RatchetVersionDecision :=
  match currentVersion with
  | Some v => mkDecision v established None
  | None =>
      if negb enabled then mkDecision v1 local_disabled None else
      if negb (bool_decide (SPQR_CAPABILITY ∈ capabilities)) then mkDecision v1 peer_legacy None
      else mkDecision v2 both_capable None
  end.

End SpqrNegotiation.
Import SpqrNegotiation.

(** When a message goes out as v2. It does exactly when this client may send v2,
    the peer has declared inside a sealed payload that it reads v2, and the session
    is on v2 already or the relay offers it; losing the relay's capability never
    moves a v2 session back, a message that leaves a v2 session on v1 always asks for
    the braid state to be kept, and nothing else does. *)
Theorem outbound_version_spec i :
  let d := resolveOutboundRatchetVersion i in
  (version d = v2 <->
     integrationEnabled i = true /\ peerDeclaredVersion i = Some v2 /\
     (currentOutbound i = Some v2 \/ capabilityOverride i = true \/ SPQR_CAPABILITY ∈ negotiatedCapabilities i)) /\
  (preservedVersion d = Some v2 <-> currentOutbound i = Some v2 /\ version d = v1) /\
  (preservedVersion d <> Some v2 -> preservedVersion d = None).
Proof.
  destruct i as [[[]|] [[]|] caps [] []]; unfold resolveOutboundRatchetVersion; cbn -[SPQR_CAPABILITY];
    try (case_bool_decide); naive_solver.
Qed.

(** ** Header and declaration *)
Module SpqrWire.

Definition SPQR_RATCHET_WIRE_VERSION : Z := 2.
Definition SPQR_MAX_FRAMES_PER_MESSAGE : Z := 16.
Definition SPQR_MAX_FRAME_B64_CHARS : Z := 4096.

(** [{ v: 2, b }] *)
Record SpqrDrHeader := mkSpqrHeader { b : list jstr }.

Definition isSpqrHeader (raw : jsval) : bool :=
  match prop raw "v" with JNum z => z =? SPQR_RATCHET_WIRE_VERSION | _ => false end.

Definition valid_frame (f : jsval) : option jstr :=
  match f with
  | JStr s =>
      if (0 <? js_length s) && (js_length s <=? SPQR_MAX_FRAME_B64_CHARS) && forallb url_char s
      then Some s else None
  | _ => None
  end.

Definition parseSpqrHeader (raw : jsval) : option SpqrDrHeader :=
  if negb (isSpqrHeader raw) then None else
  match prop raw "b" with
  | JArr l =>
      let len := Z.of_nat (length l) in
      if (len =? 0) || (SPQR_MAX_FRAMES_PER_MESSAGE <? len) then None
      else mkSpqrHeader <$> mapM valid_frame l
  | _ => None
  end.

Definition encode_frame (frame : bytes) : result jstr :=
  _ ← guard_not (blen frame =? 0) "spqr-wire: frame kosong";
  let encoded := js (base64UrlFromBytes frame) in
  _ ← guard_not (SPQR_MAX_FRAME_B64_CHARS <? js_length encoded) "spqr-wire: frame terlalu besar";
  Ok encoded.

Definition buildSpqrHeader (frames : list bytes) : result SpqrDrHeader :=
  _ ← guard_not (Z.of_nat (length frames) =? 0) "spqr-wire: tidak ada frame braid";
  _ ← guard_not (SPQR_MAX_FRAMES_PER_MESSAGE <? Z.of_nat (length frames)) "spqr-wire: terlalu banyak frame";
  l ← mapR encode_frame frames;
  Ok (mkSpqrHeader l).

(** [bytesFromBase64Url]: [atob] refuses characters it cannot read. *)
Definition decode_frame (s : jstr) : result bytes :=
  match of_js s with Some t => bytesFromBase64Url t | None => Err "InvalidCharacterError" end.

Definition decodeSpqrFrames (header : SpqrDrHeader) : result (list bytes) := mapR decode_frame (b header).

(** The header as the JSON value that goes into the message. *)
Definition header_json (h : SpqrDrHeader) : jsval :=
  JObj [(js "v", JNum SPQR_RATCHET_WIRE_VERSION); (js "b", JArr (map JStr (b h)))].

Definition versionDeclaration (v : RatchetWireVersion) : list (jstr * jsval) :=
  match v with v2 => [(js "ackV", JNum SPQR_RATCHET_WIRE_VERSION)] | v1 => [] end.

Definition extractVersionDeclaration (decryptedPlaintext : jstr) : option RatchetWireVersion :=
  match JSON_parse decryptedPlaintext with
  | Some parsed =>
      match prop parsed "ackV" with
      | JNum z => if z =? SPQR_RATCHET_WIRE_VERSION then Some v2 else None
      | _ => None
      end
  | None => None
  end.

End SpqrWire.
Import SpqrWire.

Lemma encode_frame_ok f : 1 <= blen f <= 3072 ->
  encode_frame f = Ok (js (base64UrlFromBytes f)) /\
  valid_frame (JStr (js (base64UrlFromBytes f))) = Some (js (base64UrlFromBytes f)) /\
  decode_frame (js (base64UrlFromBytes f)) = Ok f.
Proof.
  intros Hf. assert (Hl : 0 < js_length (js (base64UrlFromBytes f)) <= SPQR_MAX_FRAME_B64_CHARS).
  { rewrite js_length_js, slen_base64Url. unfold SPQR_MAX_FRAME_B64_CHARS. dlia. }
  unfold encode_frame, valid_frame, decode_frame, guard_not. ztest.
  rewrite !bind_ok, url_char_js, of_js_js, base64Url_roundtrip by apply base64Url_charset. done.
Qed.

Lemma mapM_map {A B C} (f : B -> option C) (g : A -> B) (h : A -> C) l :
  Forall (fun a => f (g a) = Some (h a)) l -> mapM f (map g l) = Some (map h l).
Proof. induction 1 as [|a l Ha Hl IH]; [done|]. cbn. by rewrite Ha, IH. Qed.

Definition wire_frames (frames : list bytes) : Prop :=
  1 <= Z.of_nat (length frames) <= SPQR_MAX_FRAMES_PER_MESSAGE /\ Forall (fun f => 1 <= blen f <= 3072) frames.

Lemma header_wire frames : wire_frames frames ->
  let h := mkSpqrHeader (map (fun f => js (base64UrlFromBytes f)) frames) in
  buildSpqrHeader frames = Ok h /\ json_ok (header_json h) = true /\
  parseSpqrHeader (header_json h) = Some h /\ decodeSpqrFrames h = Ok frames.
Proof.
  intros [Hn Hf]. cbv zeta. unfold buildSpqrHeader, guard_not. ztest. rewrite !bind_ok.
  rewrite (mapR_ok encode_frame (fun f => js (base64UrlFromBytes f))).
  2: { intros f Hi. apply encode_frame_ok. by apply (proj1 (Forall_forall _ _) Hf). }
  split_and!.
  - done.
  - unfold header_json. cbn [json_ok b]. apply andb_true_iff. split; [reflexivity|]. cbn [forallb fst snd json_ok].
    rewrite !js_scalar. cbn [andb]. rewrite andb_true_r, forallb_forall. intros v Hv. apply in_map_iff in Hv as (s & <- & Hs).
    apply in_map_iff in Hs as (f & <- & _). apply js_scalar.
  - unfold parseSpqrHeader. cbn [isSpqrHeader negb]. change (prop (header_json _) "b") with
      (JArr (map JStr (map (fun f => js (base64UrlFromBytes f)) frames))).
    change (isSpqrHeader _) with true. cbn [negb]. rewrite !length_map. ztest. cbn [orb].
    rewrite (map_map _ JStr). rewrite (mapM_map _ _ (fun f => js (base64UrlFromBytes f))); [done|].
    eapply Forall_impl; [exact Hf|]. intros f Hb. by apply encode_frame_ok.
  - unfold decodeSpqrFrames. cbn. clear Hn. induction Hf as [|f l Hf1 Hl IH]; [done|].
    cbn [map mapR]. destruct (encode_frame_ok f Hf1) as (_ & _ & ->). rewrite bind_ok, IH. done.
Qed.

Lemma encode_frame_inv f s : encode_frame f = Ok s -> 1 <= blen f <= 3072.
Proof.
  unfold encode_frame, guard_not. pose proof (blen_nonneg f). destruct (Z.eqb_spec (blen f) 0); [done|]. cbn.
  rewrite js_length_js, slen_base64Url. unfold SPQR_MAX_FRAME_B64_CHARS.
  destruct (Z.ltb_spec 4096 ((4 * blen f + 2) / 3)); [done|]. intros _. dlia.
Qed.

Lemma frames_encoded frames : forall l, mapR encode_frame frames = Ok l -> Forall (fun f => 1 <= blen f <= 3072) frames.
Proof.
  induction frames as [|f fs IH]; intros l E; [constructor|]. cbn in E.
  destruct (encode_frame f) as [s|] eqn:Ef; [|done]. cbn in E.
  destruct (mapR encode_frame fs) as [l'|] eqn:El; [|done].
  constructor; [by eapply encode_frame_inv|by eapply IH].
Qed.

(** V2 headers travel. One to sixteen frames of 1 to 3072 bytes make a header whose
    JSON text parses back to the same header, which decodes to the same frames; any
    other list of frames is refused when the header is built; and whatever value
    arrives, an accepted header has one to sixteen non-empty base64url frames of at
    most 4096 characters. *)
Theorem spqr_header_roundtrip frames raw hdr :
  (wire_frames frames -> exists h, buildSpqrHeader frames = Ok h /\
     (JSON_parse (JSON_stringify (header_json h)) ≫= parseSpqrHeader) = Some h /\ decodeSpqrFrames h = Ok frames) /\
  (~ wire_frames frames -> is_ok (buildSpqrHeader frames) = false) /\
  (parseSpqrHeader raw = Some hdr ->
     1 <= Z.of_nat (length (b hdr)) <= SPQR_MAX_FRAMES_PER_MESSAGE /\
     Forall (fun f => 1 <= js_length f <= SPQR_MAX_FRAME_B64_CHARS /\ forallb url_char f = true) (b hdr)).
Proof.
  split_and!.
  - intros Hw. destruct (header_wire frames Hw) as (Hb & Hj & Hp & Hd). eexists. split; [exact Hb|].
    rewrite json_roundtrip by done. by split.
  - intros Hw. destruct (buildSpqrHeader frames) as [h|] eqn:E; [|done]. exfalso. apply Hw. clear Hw.
    unfold buildSpqrHeader in E. unbind. bools. split; [lia|]. by eapply frames_encoded.
  - unfold parseSpqrHeader. destruct (negb _); [done|]. destruct (prop raw "b"); try done.
    destruct (_ || _) eqn:Hc; [done|]. bools. intros (fs & Hm & ->)%fmap_Some. cbn [b].
    apply mapM_Some_1 in Hm. pose proof (Forall2_length _ _ _ Hm) as Hl. split; [rewrite <- Hl; lia|]. clear -Hm. induction Hm as [|v f l fs Hv Hm IH]; constructor; [|done].
    unfold valid_frame in Hv. destruct v; try done. destruct (_ && _) eqn:E; [|done]. injection Hv as <-. bools. split; [lia|done].
Qed.

Lemma assoc_app_new {A} k (a : A) l : assoc k l = None -> assoc k (l ++ [(k, a)]) = Some a.
Proof.
  induction l as [|[k' a'] l IH]; cbn; [by rewrite bool_decide_true|]. by case_bool_decide.
Qed.

(** The declaration inside the sealed payload is read as it was written: a payload
    that ends with the declaration of version v declares exactly v2 for v2 and
    nothing for v1, whatever its other fields are. *)
Theorem version_declaration_roundtrip fields v :
  json_ok (JObj fields) = true -> assoc (js "ackV") fields = None ->
  extractVersionDeclaration (JSON_stringify (JObj (fields ++ versionDeclaration v)))
  = match v with v2 => Some v2 | v1 => None end.
Proof.
  intros Hok Ha. unfold extractVersionDeclaration. rewrite json_roundtrip.
  - destruct v; cbn [versionDeclaration].
    + rewrite app_nil_r. unfold prop. by rewrite Ha.
    + unfold prop. by rewrite assoc_app_new.
  - destruct v; cbn [versionDeclaration]; [by rewrite app_nil_r|]. revert Hok. cbn.
    intros [Hnd%bool_decide_eq_true Hf]%andb_true_iff. rewrite forallb_app, Hf. cbn. rewrite andb_true_r.
    apply bool_decide_eq_true. rewrite fmap_app. apply NoDup_app. split_and!; [done| |apply NoDup_singleton].
    intros k Hk ->%list_elem_of_singleton. apply list_elem_of_fmap in Hk as ([k a] & E & Hk). cbn in E. subst k.
    pose proof (assoc_nodup _ _ a Hnd Hk) as Hs. change (assoc (js "ackV") fields = Some a) in Hs. congruence.
Qed.

Lemma spqr_header_roundtrip_witness :
  exists h, buildSpqrHeader [[x02]; [x03; x04]] = Ok h /\
    (JSON_parse (JSON_stringify (header_json h)) ≫= parseSpqrHeader) = Some h.
Proof.
  destruct (proj1 (spqr_header_roundtrip [[x02]; [x03; x04]] JNull (mkSpqrHeader []))) as (h & Hb & Hp & _).
  - split; [vm_compute; split; discriminate|]. repeat constructor; vm_compute; discriminate.
  - exists h. split; [exact Hb|exact Hp].
Defined.

Lemma version_declaration_roundtrip_witness :
  extractVersionDeclaration (JSON_stringify (JObj ([(js "content", JStr (js "hi"))] ++ versionDeclaration v2))) = Some v2.
Proof.
  apply (version_declaration_roundtrip [(js "content", JStr (js "hi"))] v2); reflexivity.
Defined.
