(* ===== verification/SpqrState.v ===== *)
(** Where the braid state of a conversation lives: web/src/lib/spqrState.ts. Writes
    are coalesced in memory and sealed rows hold the active state and the last three
    eras. A row is the JSON text of the record sealed by [encryptValueAtRest]; the
    timer of the debounce is the call of [flushSpqrState] it makes. *)
From S2P Require Import Prelude StateErr Bytes Base64 Utf8 Js Json Sodium LocalAtRest DrSession.
From Stdlib Require Import Ascii.
Import DrProtocol LocalAtRest.

Module SpqrState.

Definition SPQR_STATE_KEY_PREFIX : jstr := js "nyx_spqr_state_v1:".
Definition SPQR_MAX_STATE_BYTES : Z := 64 * 1024.
Definition SPQR_STATE_ARCHIVE_SLOTS : nat := 3.

Record SpqrStateRecord := mkRecord {
  version : RatchetWireVersion; state : bytes; updatedAt : Z; advanced : bool }.

Record PendingWrite := mkPending { p_version : RatchetWireVersion; p_state : bytes; p_advanced : bool }.

(** The table [kvStore] and the map [pending]. *)
Record store := mkStore { kvStore : gmap jstr jstr; pending : list (jstr * PendingWrite) }.

Definition stateKey (sessionId : jstr) : jstr := SPQR_STATE_KEY_PREFIX ++ sessionId.
Definition eraStateKey (sessionId : jstr) (slot : Z) : jstr :=
  SPQR_STATE_KEY_PREFIX ++ sessionId ++ js "#era_" ++ [48 + slot].

Definition assertSessionId (sessionId : jstr) : result unit :=
  guard_not (bool_decide (sessionId = []) || (200 <? js_length sessionId) || bool_decide (0 ∈ sessionId))
    "spqr: sessionId tidak sah".

Definition put (key value : jstr) (s : store) : store := mkStore (<[key := value]> (kvStore s)) (pending s).
Definition del (key : jstr) (s : store) : store := mkStore (delete key (kvStore s)) (pending s).
Definition set_pending (p : list (jstr * PendingWrite)) (s : store) : store := mkStore (kvStore s) p.

Fixpoint map_delete {A} (k : jstr) (m : list (jstr * A)) : list (jstr * A) :=
  match m with
  | [] => []
  | (k', a) :: m' => if bool_decide (k = k') then map_delete k m' else (k', a) :: map_delete k m'
  end.

Definition version_text (v : RatchetWireVersion) : jstr := js (match v with v1 => "v1" | v2 => "v2" end).

Definition row_json (r : SpqrStateRecord) : jsval :=
  JObj [(js "v", JStr (version_text (version r))); (js "s", JStr (js (btoa (state r))));
        (js "t", JNum (updatedAt r)); (js "a", JNum (if advanced r then 1 else 0))].

Definition check_state (st : bytes) : result unit :=
  _ ← guard_not (blen st =? 0) "spqr: state kosong";
  guard_not (SPQR_MAX_STATE_BYTES <? blen st) "spqr: state terlalu besar".

Section Ops.
Context `{Sodium}.
(** The master seed, [None] while the vault is locked. *)
Context (seed : option bytes).
(** The nonce drawn by this call for the row written at a key. *)
Context (nonce : jstr -> bytes).

Definition writeSealedRow (key : jstr) (r : SpqrStateRecord) : stE store unit :=
  _ ← lift (check_state (state r));
  value ← lift (encryptValueAtRest seed (nonce key) (JSON_stringify (row_json r)));
  modify (put key value).

Definition writeState (sessionId : jstr) (entry : PendingWrite) (now : Z) : stE store unit :=
  writeSealedRow (stateKey sessionId) (mkRecord (p_version entry) (p_state entry) now (p_advanced entry)).

Definition version_of_text (v : jsval) : option RatchetWireVersion :=
  match v with
  | JStr s => if bool_decide (s = js "v1") then Some v1 else if bool_decide (s = js "v2") then Some v2 else None
  | _ => None
  end.

Definition decodeStoredRow (plain : jstr) : option SpqrStateRecord :=
  parsed ← JSON_parse plain;
  v ← version_of_text (prop parsed "v");
  match prop parsed "s" with
  | JStr s =>
      match (match of_js s with Some t => atob t | None => Err "InvalidCharacterError" end) with
      | Ok (b :: st) =>
          Some (mkRecord v (b :: st)
            (match prop parsed "t" with JNum t => t | _ => 0 end)
            (match prop parsed "a" with JUndef => true | JNum a => a =? 1 | _ => false end))
      | _ => None
      end
  | _ => None
  end.

(** [advancedFlag] is the optional argument; only an explicit [false] clears it. *)
Definition saveSpqrState (sessionId : jstr) (st : bytes) (v : RatchetWireVersion) (advancedFlag : option bool)
  : stE store unit :=
  _ ← lift (assertSessionId sessionId);
  _ ← lift (check_state st);
  existing ← gets (fun s => assoc sessionId (pending s));
  let entry := mkPending v st
    (negb (bool_decide (advancedFlag = Some false))
     || match existing with Some e => p_advanced e | None => false end) in
  modify (fun s => set_pending (map_set sessionId entry (pending s)) s).

Fixpoint flush_entries (l : list (jstr * PendingWrite)) (now : Z) : stE store unit :=
  match l with
  | [] => mret tt
  | (sid, entry) :: l' =>
      _ ← modify (fun s => set_pending (map_delete sid (pending s)) s);
      _ ← try_ (writeState sid entry now);
      flush_entries l' now
  end.

Definition flushSpqrState (sessionId : option jstr) (now : Z) : stE store unit :=
  targets ← gets (fun s => match sessionId with
    | Some ((_ :: _) as sid) => match assoc sid (pending s) with Some e => [(sid, e)] | None => [] end
    | _ => pending s
    end);
  flush_entries targets now.

Definition discardPendingSpqrState : stE store unit := modify (set_pending []).

Definition open_row (s : store) (key : jstr) : option SpqrStateRecord :=
  match kvStore s !! key with
  | None => None
  | Some value =>
      match decryptValueAtRest seed value with
      | None | Some [] => None
      | Some plain => decodeStoredRow plain
      end
  end.

Definition loadSpqrState (sessionId : jstr) (now : Z) : stE store (option SpqrStateRecord) :=
  _ ← lift (assertSessionId sessionId);
  gets (fun s => match assoc sessionId (pending s) with
    | Some e => Some (mkRecord (p_version e) (p_state e) now (p_advanced e))
    | None => open_row s (stateKey sessionId)
    end).

Definition deleteSpqrState (sessionId : jstr) : stE store unit :=
  _ ← lift (assertSessionId sessionId);
  modify (fun s => del (stateKey sessionId) (set_pending (map_delete sessionId (pending s)) s)).

Definition loadEraState (s : store) (sessionId : jstr) (slot : Z) : option SpqrStateRecord :=
  open_row s (eraStateKey sessionId slot).

(** Slots [slot], ..., 1, each from the one before it. *)
Fixpoint shift_eras (slot : nat) (sessionId : jstr) : stE store unit :=
  match slot with
  | 0%nat => mret tt
  | S below =>
      older ← gets (fun s => loadEraState s sessionId (Z.of_nat below));
      _ ← match older with
          | Some r => writeSealedRow (eraStateKey sessionId (Z.of_nat slot)) r
          | None => modify (del (eraStateKey sessionId (Z.of_nat slot)))
          end;
      shift_eras below sessionId
  end.

Definition rotateSpqrStateForNewSession (sessionId : jstr) (now : Z) : stE store unit :=
  _ ← lift (assertSessionId sessionId);
  _ ← flushSpqrState (Some sessionId) now;
  current ← loadSpqrState sessionId now;
  _ ← match current with
      | Some r =>
          if advanced r then
            _ ← shift_eras (pred SPQR_STATE_ARCHIVE_SLOTS) sessionId;
            writeSealedRow (eraStateKey sessionId 0)
              (mkRecord (version r) (state r) (if updatedAt r =? 0 then now else updatedAt r) (advanced r))
          else mret tt
      | None => mret tt
      end;
  deleteSpqrState sessionId.

Definition loadArchivedSpqrStates (sessionId : jstr) : stE store (list SpqrStateRecord) :=
  _ ← lift (assertSessionId sessionId);
  gets (fun s => omap (fun i => loadEraState s sessionId (Z.of_nat i)) (seq 0 SPQR_STATE_ARCHIVE_SLOTS)).

Definition clearSpqrStates : stE store unit :=
  _ ← discardPendingSpqrState;
  modify (fun s => mkStore (filter (fun kv => startsWith SPQR_STATE_KEY_PREFIX kv.1 = false) (kvStore s)) (pending s)).

End Ops.
End SpqrState.
Import SpqrState.

(** ** Rows *)
Section Rows.
Context `{SL : SodiumLaws} (seed : bytes) (nonce : jstr -> bytes) (Hnonce : forall k, blen (nonce k) = 24).

Definition record_ok (r : SpqrStateRecord) : Prop := 1 <= blen (state r) <= SPQR_MAX_STATE_BYTES.

Lemma check_state_ok st : 1 <= blen st <= SPQR_MAX_STATE_BYTES <-> check_state st = Ok tt.
Proof.
  unfold check_state, guard_not. pose proof (blen_nonneg st).
  destruct (Z.eqb_spec (blen st) 0); cbn; [split; [lia|done]|].
  destruct (Z.ltb_spec SPQR_MAX_STATE_BYTES (blen st)); split; try done; lia.
Qed.

Lemma row_json_ok r : json_ok (row_json r) = true.
Proof.
  unfold row_json. cbn [json_ok]. apply andb_true_iff. split; [reflexivity|]. cbn [forallb fst snd json_ok].
  unfold version_text. by rewrite !js_scalar.
Qed.

Lemma decode_row r : record_ok r -> decodeStoredRow (JSON_stringify (row_json r)) = Some r.
Proof.
  intros Hr. unfold decodeStoredRow. rewrite json_roundtrip by apply row_json_ok. cbn [mbind option_bind].
  change (prop (row_json r) "v") with (JStr (version_text (version r))).
  change (prop (row_json r) "s") with (JStr (js (btoa (state r)))).
  change (prop (row_json r) "t") with (JNum (updatedAt r)).
  change (prop (row_json r) "a") with (JNum (if advanced r then 1 else 0)).
  assert (version_of_text (JStr (version_text (version r))) = Some (version r)) as -> by (by destruct (version r)).
  cbn [mbind option_bind]. rewrite of_js_js, atob_btoa. destruct r as [v st t a]. unfold record_ok in Hr. cbn [state] in Hr |- *.
  destruct st as [|b st]; [rewrite blen_nil in Hr; lia|]. by destruct a.
Qed.

Lemma write_row key r s : record_ok r ->
  exists value, writeSealedRow (Some seed) nonce key r s = (Ok tt, put key value s) /\
    open_row (Some seed) (put key value s) key = Some r.
Proof.
  intros Hr. destruct (stringify_text _ (row_json_ok r)) as [Ht Hs].
  destruct (value_at_rest_roundtrip seed (nonce key) (JSON_stringify (row_json r)) (Hnonce key) Ht Hs)
    as (value & He & _ & Hd).
  exists value. unfold writeSealedRow. unfold lift, modify, mbind, stE_bind.
  rewrite (proj1 (check_state_ok _) Hr). cbv beta iota. rewrite He. split; [done|].
  unfold open_row. cbn. rewrite lookup_insert_eq, Hd.
  destruct (stringify_head (row_json r)) as (c & t & E & _). rewrite E. rewrite <- E. by apply decode_row.
Qed.

Lemma open_put_other key value s key' : key <> key' ->
  open_row (Some seed) (put key value s) key' = open_row (Some seed) s key'.
Proof. intros Hk. unfold open_row, put. cbn. by rewrite lookup_insert_ne. Qed.

Lemma open_del_other key s key' : key <> key' ->
  open_row (Some seed) (del key s) key' = open_row (Some seed) s key'.
Proof. intros Hk. unfold open_row, del. cbn. by rewrite lookup_delete_ne. Qed.

Lemma open_del key s : open_row (Some seed) (del key s) key = None.
Proof. unfold open_row, del. cbn. by rewrite lookup_delete_eq. Qed.
End Rows.

(** ** Keys *)
(** Conversation ids contain no [#], which separates the eras. *)
Definition sid_ok (sid : jstr) : Prop := assertSessionId sid = Ok tt /\ 35 ∉ sid.

Lemma stateKey_inj a b : stateKey a = stateKey b -> a = b.
Proof. apply app_inv_head. Qed.

Lemma era_state_ne sid sid' i : 35 ∉ sid -> eraStateKey sid' i <> stateKey sid.
Proof.
  intros Hs E. apply app_inv_head in E. apply Hs. rewrite <- E. apply elem_of_app. right. by left.
Qed.

Lemma eraStateKey_inj a b i j : eraStateKey a i = eraStateKey b j -> a = b /\ i = j.
Proof.
  intros E%app_inv_head. apply app_inj_2 in E as [-> E]; [|done]. split; [done|]. injection E. lia.
Qed.

Lemma assoc_map_delete {A} k (m : list (jstr * A)) k' :
  assoc k' (map_delete k m) = if decide (k = k') then None else assoc k' m.
Proof.
  induction m as [|[x a] m IH]; cbn; [by case_decide|].
  case_bool_decide as E1; cbn; [subst x; rewrite IH; case_decide; [done|]; by rewrite bool_decide_false|].
  case_bool_decide as E2; [subst x; by rewrite decide_False|]. exact IH.
Qed.

Lemma assoc_map_set {A} k (a : A) m k' : assoc k' (map_set k a m) = if decide (k = k') then Some a else assoc k' m.
Proof.
  induction m as [|[x b] m IH]; cbn.
  - destruct (decide (k = k')) as [->|Hn]; [by rewrite bool_decide_true|by rewrite bool_decide_false].
  - case_bool_decide as E1; cbn.
    + subst x. destruct (decide (k = k')) as [->|Hn]; [by rewrite bool_decide_true|by rewrite bool_decide_false].
    + case_bool_decide as E2; [subst x; by rewrite decide_False|]. exact IH.
Qed.

(** ** The store as its clients see it *)
Section Store.
Context `{SL : SodiumLaws} (seed : bytes) (nonce : jstr -> bytes) (Hnonce : forall k, blen (nonce k) = 24).
Abbreviation row s key := (open_row (Some seed) s key).
Abbreviation era s sid i := (loadEraState (Some seed) s sid i).

Definition latest (s : store) (sid : jstr) (now : Z) : option SpqrStateRecord :=
  match assoc sid (pending s) with
  | Some e => Some (mkRecord (p_version e) (p_state e) now (p_advanced e))
  | None => row s (stateKey sid)
  end.

(** Nothing empty or oversized is waiting or stored. *)
Definition store_ok (s : store) : Prop :=
  (forall sid e, assoc sid (pending s) = Some e -> 1 <= blen (p_state e) <= SPQR_MAX_STATE_BYTES) /\
  (forall key r, row s key = Some r -> record_ok r).

Lemma load_latest s sid now : assertSessionId sid = Ok tt ->
  loadSpqrState (Some seed) sid now s = (Ok (latest s sid now), s).
Proof. intros Hs. unfold loadSpqrState, mbind, stE_bind, lift. by rewrite Hs. Qed.

Lemma put_ok s key value r : store_ok s -> row (put key value s) key = Some r -> record_ok r -> store_ok (put key value s).
Proof.
  intros [Hp Hr] Hw Hok. split; [exact Hp|]. intros key' r' Hr'. destruct (decide (key = key')) as [<-|Hn].
  - rewrite Hw in Hr'. by injection Hr' as <-.
  - apply (Hr key' r'). by rewrite <- (open_put_other seed key value s key' Hn).
Qed.

Lemma del_ok s key : store_ok s -> store_ok (del key s).
Proof.
  intros [Hp Hr]. split; [exact Hp|]. intros key' r' Hr'. destruct (decide (key = key')) as [<-|Hn].
  - by rewrite open_del in Hr'.
  - apply (Hr key' r'). by rewrite <- (open_del_other seed key s key' Hn).
Qed.

Lemma undo_pending_ok s sid : store_ok s -> store_ok (set_pending (map_delete sid (pending s)) s).
Proof.
  intros [Hp Hr]. split; [|exact Hr]. intros sid' e. cbn. rewrite assoc_map_delete. case_decide; [done|]. apply Hp.
Qed.

(** Writing one valid record changes one row. *)
Lemma write_one s key r : store_ok s -> record_ok r ->
  exists s', writeSealedRow (Some seed) nonce key r s = (Ok tt, s') /\ store_ok s' /\ pending s' = pending s /\
    row s' key = Some r /\ (forall key', key <> key' -> row s' key' = row s key').
Proof.
  intros Hs Hr. destruct (write_row seed nonce Hnonce key r s Hr) as (value & Hw & Ho).
  exists (put key value s). split_and!; [done|by eapply put_ok|done|done|].
  intros key' Hk. by apply open_put_other.
Qed.

Lemma flush_target s sid now : sid <> [] ->
  flushSpqrState (Some seed) nonce (Some sid) now s =
  flush_entries (Some seed) nonce (match assoc sid (pending s) with Some e => [(sid, e)] | None => [] end) now s.
Proof. intros Hne. destruct sid as [|c sid]; [done|]. unfold flushSpqrState. by rewrite gets_bind. Qed.

Lemma flush_one s sid now : store_ok s -> sid <> [] ->
  exists s', flushSpqrState (Some seed) nonce (Some sid) now s = (Ok tt, s') /\ store_ok s' /\
    (forall sid', assoc sid' (pending s') = if decide (sid = sid') then None else assoc sid' (pending s)) /\
    row s' (stateKey sid) = latest s sid now /\ (forall key, stateKey sid <> key -> row s' key = row s key).
Proof.
  intros Hs Hne. rewrite flush_target by done. unfold latest. destruct (assoc sid (pending s)) as [e|] eqn:E.
  - cbn [flush_entries]. set (s1 := set_pending (map_delete sid (pending s)) s).
    destruct (write_one s1 (stateKey sid) (mkRecord (p_version e) (p_state e) now (p_advanced e)))
      as (s2 & Hw & Hs2 & Hp2 & Hr2 & Ho2); [by apply undo_pending_ok|exact (proj1 Hs sid e E)|].
    exists s2. rewrite modify_bind. fold s1.
    rewrite (stE_bind_eq _ _ s1 (Ok tt) s2) by (unfold try_, writeState; by rewrite Hw). split_and!; [done..| |done|done].
    intros sid'. rewrite Hp2. apply assoc_map_delete.
  - exists s. split_and!; [done..| |done|done]. intros sid'. by case_decide as Hd; [subst|].
Qed.

Lemma save_one s sid st v adv : store_ok s -> assertSessionId sid = Ok tt -> 1 <= blen st <= SPQR_MAX_STATE_BYTES ->
  exists s' a, saveSpqrState sid st v adv s = (Ok tt, s') /\ store_ok s' /\
    a = negb (bool_decide (adv = Some false)) || match assoc sid (pending s) with Some e => p_advanced e | None => false end /\
    kvStore s' = kvStore s /\ (forall now, latest s' sid now = Some (mkRecord v st now a)) /\
    (forall sid' now, sid <> sid' -> latest s' sid' now = latest s sid' now).
Proof.
  intros Hs Ha Hst. eexists (set_pending (map_set sid (mkPending v st _) (pending s)) s), _. split_and!.
  - unfold saveSpqrState. rewrite lift_bind, Ha, lift_bind, (proj1 (check_state_ok st) Hst), gets_bind. reflexivity.
  - split; [|apply Hs]. intros sid' e. cbn. rewrite assoc_map_set. case_decide; [by intros [= <-]|apply Hs].
  - done.
  - done.
  - intros now. unfold latest. cbn. by rewrite assoc_map_set, decide_True.
  - intros sid' now Hn. unfold latest. cbn. by rewrite assoc_map_set, decide_False.
Qed.

(** The latest state wins. A valid state that was saved is what the next load
    returns, before and after it is written to disk, with its version and a sticky
    "advanced" mark; a state that is empty or over 64 KiB is refused and changes
    nothing; no other conversation is affected; and nothing invalid ever waits or is
    stored. *)
Theorem spqr_save_load s sid st v adv now now2 :
  store_ok s -> sid_ok sid ->
  (1 <= blen st <= SPQR_MAX_STATE_BYTES -> exists s1 s2 a,
     saveSpqrState sid st v adv s = (Ok tt, s1) /\ store_ok s1 /\
     flushSpqrState (Some seed) nonce (Some sid) now s1 = (Ok tt, s2) /\ store_ok s2 /\
     loadSpqrState (Some seed) sid now s1 = (Ok (Some (mkRecord v st now a)), s1) /\
     loadSpqrState (Some seed) sid now2 s2 = (Ok (Some (mkRecord v st now a)), s2) /\
     (a = false <-> adv = Some false /\ forall e, assoc sid (pending s) = Some e -> p_advanced e = false) /\
     forall sid', sid_ok sid' -> sid <> sid' ->
       latest s1 sid' now = latest s sid' now /\ latest s2 sid' now = latest s sid' now) /\
  (~ 1 <= blen st <= SPQR_MAX_STATE_BYTES ->
     exists e, saveSpqrState sid st v adv s = (Err e, s)).
Proof.
  intros Hs [Ha Hhash]. assert (Hne : sid <> []) by (by intros ->). split.
  - intros Hst. destruct (save_one s sid st v adv Hs Ha Hst) as (s1 & a & Hsave & Hs1 & Hav & _ & Hl1 & Hoth).
    destruct (flush_one s1 sid now Hs1 Hne) as (s2 & Hf & Hs2 & Hp & Hr & Ho).
    exists s1, s2, a. rewrite !load_latest by done. split_and!; [done..|by rewrite Hl1| | |].
    + unfold latest at 1. rewrite Hp, decide_True, Hr by done. by rewrite Hl1.
    + rewrite Hav, orb_false_iff, negb_false_iff, bool_decide_eq_true.
      destruct (assoc sid (pending s)); naive_solver.
    + intros sid' [_ Hh'] Hn. pose proof (Hoth sid' now Hn) as Hlast.
      split; [done|]. rewrite <- Hlast. unfold latest. rewrite Hp, decide_False by done.
      destruct (assoc sid' (pending s1)); [done|]. apply Ho. by intros ->%stateKey_inj.
  - intros Hst. destruct (check_state st) as [[]|e] eqn:E; [by apply check_state_ok in E|].
    exists e. unfold saveSpqrState, lift, mbind, stE_bind. by rewrite Ha, E.
Qed.

(** ** Rotation *)
Lemma shift_one s sid i j : store_ok s ->
  exists s', match era s sid i with
      | Some r => writeSealedRow (Some seed) nonce (eraStateKey sid j) r
      | None => modify (del (eraStateKey sid j)) end s = (Ok tt, s') /\
    store_ok s' /\ pending s' = pending s /\ era s' sid j = era s sid i /\
    (forall key, eraStateKey sid j <> key -> row s' key = row s key).
Proof.
  intros Hs. destruct (era s sid i) as [r|] eqn:E.
  - destruct (write_one s (eraStateKey sid j) r Hs (proj2 Hs _ _ E)) as (s' & Hw & Hs' & Hp & Hr & Ho).
    exists s'. by split_and!.
  - exists (del (eraStateKey sid j) s). split_and!; [done|by apply del_ok|done|apply open_del|].
    intros key Hk. by apply open_del_other.
Qed.

Lemma era_key_ne sid i j : i <> j -> eraStateKey sid i <> eraStateKey sid j.
Proof. intros Hn [_ E]%eraStateKey_inj. done. Qed.

(** Slot 2 takes slot 1, slot 1 takes slot 0. *)
Lemma shift_two s sid : store_ok s ->
  exists s', shift_eras (Some seed) nonce 2 sid s = (Ok tt, s') /\ store_ok s' /\ pending s' = pending s /\
    era s' sid 1 = era s sid 0 /\ era s' sid 2 = era s sid 1 /\
    (forall key, (forall i, eraStateKey sid i <> key) -> row s' key = row s key).
Proof.
  intros Hs. cbn [shift_eras]. unfold gets, mbind, stE_bind. change (Z.of_nat 2) with 2. change (Z.of_nat 1) with 1.
  change (Z.of_nat 0) with 0. destruct (shift_one s sid 1 2 Hs) as (s1 & -> & Hs1 & Hp1 & He1 & Ho1).
  destruct (shift_one s1 sid 0 1 Hs1) as (s2 & -> & Hs2 & Hp2 & He2 & Ho2).
  exists s2. split_and!; [done|done|congruence| | |].
  - rewrite He2. apply Ho1. by apply era_key_ne.
  - unfold loadEraState at 1. rewrite Ho2 by (by apply era_key_ne). exact He1.
  - intros key Hk. rewrite Ho2, Ho1; [done|apply Hk..].
Qed.

(** The record that becomes era 0. *)
Definition archived (r : SpqrStateRecord) (now : Z) : SpqrStateRecord :=
  mkRecord (version r) (state r) (if updatedAt r =? 0 then now else updatedAt r) true.

(** The eras after a rotation whose latest state is [cur]. *)
Definition eras_shifted (cur : option SpqrStateRecord) (s s' : store) (sid : jstr) (now : Z) : Prop :=
  match cur with
  | Some r =>
      if advanced r then
        era s' sid 0 = Some (archived r now) /\ era s' sid 1 = era s sid 0 /\ era s' sid 2 = era s sid 1
      else forall i, era s' sid i = era s sid i
  | None => forall i, era s' sid i = era s sid i
  end.

Definition archive_step (cur : option SpqrStateRecord) (sid : jstr) (now : Z) : stE store unit :=
  match cur with
  | Some r =>
      if advanced r then
        _ ← shift_eras (Some seed) nonce (pred SPQR_STATE_ARCHIVE_SLOTS) sid;
        writeSealedRow (Some seed) nonce (eraStateKey sid 0)
          (mkRecord (version r) (state r) (if updatedAt r =? 0 then now else updatedAt r) (advanced r))
      else mret tt
  | None => mret tt
  end.

Lemma archive_step_ok cur sid now s :
  store_ok s -> (forall r, cur = Some r -> record_ok r) ->
  exists s', archive_step cur sid now s = (Ok tt, s') /\ store_ok s' /\ pending s' = pending s /\
    eras_shifted cur s s' sid now /\ (forall key, (forall i, eraStateKey sid i <> key) -> row s' key = row s key).
Proof.
  intros Hs Hc. unfold archive_step, eras_shifted. destruct cur as [r|]; [|by exists s].
  destruct (advanced r) eqn:Ead; [|by exists s].
  destruct (shift_two s sid Hs) as (s1 & Hsh & Hs1 & Hp1 & He1 & He2 & Ho1).
  destruct (write_one s1 (eraStateKey sid 0) (archived r now) Hs1 (Hc r eq_refl)) as (s2 & Hw & Hs2 & Hp2 & Hr2 & Ho2).
  exists s2. rewrite (stE_bind_eq _ _ s _ _ Hsh). split_and!; [exact Hw|done|congruence|exact Hr2| | |].
  - unfold loadEraState at 1. rewrite Ho2 by (by apply era_key_ne). exact He1.
  - unfold loadEraState at 1. rewrite Ho2 by (by apply era_key_ne). exact He2.
  - intros key Hk. rewrite Ho2, Ho1; [done|done|apply Hk].
Qed.

Lemma rotate_eq sid now s s1 : assertSessionId sid = Ok tt ->
  flushSpqrState (Some seed) nonce (Some sid) now s = (Ok tt, s1) ->
  rotateSpqrStateForNewSession (Some seed) nonce sid now s =
  (_ ← archive_step (latest s1 sid now) sid now; deleteSpqrState sid) s1.
Proof.
  intros Ha Hf. unfold rotateSpqrStateForNewSession.
  rewrite lift_bind, Ha.
  rewrite (stE_bind_eq _ _ s _ _ Hf), (stE_bind_eq _ _ s1 _ _ (load_latest s1 sid now Ha)). done.
Qed.

(** A new session archives the old era and loses nothing else. Rotation always
    succeeds with the vault unlocked; the conversation starts without an active
    state; if the latest state (written or still waiting) had carried messages it is
    the newest era and the previous ones move up one slot, three in all, otherwise
    the eras stay as they were; other conversations keep their states and eras. *)
Lemma spqr_rotate_fifo s sid now :
  store_ok s -> sid_ok sid ->
  exists s', rotateSpqrStateForNewSession (Some seed) nonce sid now s = (Ok tt, s') /\ store_ok s' /\
    loadSpqrState (Some seed) sid now s' = (Ok None, s') /\
    eras_shifted (latest s sid now) s s' sid now /\
    forall sid', sid_ok sid' -> sid <> sid' ->
      latest s' sid' now = latest s sid' now /\ forall i, era s' sid' i = era s sid' i.
Proof.
  intros Hs [Ha Hh]. assert (Hne : sid <> []) by (by intros ->).
  destruct (flush_one s sid now Hs Hne) as (s1 & Hf & Hs1 & Hp1 & Hr1 & Ho1).
  assert (Hl1 : latest s1 sid now = latest s sid now).
  { unfold latest at 1. rewrite Hp1, decide_True by done. exact Hr1. }
  assert (Hera1 : forall sid' i, era s1 sid' i = era s sid' i).
  { intros sid' i. apply Ho1. intros E. symmetry in E. by apply era_state_ne in E. }
  destruct (archive_step_ok (latest s sid now) sid now s1 Hs1) as (s2 & Hm & Hs2 & Hp2 & Hera2 & Ho2).
  { intros r Hr. rewrite <- Hr1 in Hr. by eapply Hs1. }
  set (s3 := del (stateKey sid) (set_pending (map_delete sid (pending s2)) s2)).
  assert (H3 : forall key, stateKey sid <> key -> row s3 key = row s2 key) 
    by (intros key Hk; exact (open_del_other seed _ (set_pending (map_delete sid (pending s2)) s2) key Hk)).
  assert (He3 : forall sid' i, era s3 sid' i = era s2 sid' i).
  { intros sid' i. apply H3. intros E. symmetry in E. by apply era_state_ne in E. }
  exists s3. split_and!.
  - rewrite (rotate_eq sid now s s1 Ha Hf), Hl1, (stE_bind_eq _ _ s1 _ _ Hm).
    unfold deleteSpqrState. by rewrite lift_bind, Ha.
  - apply del_ok. by apply undo_pending_ok.
  - rewrite load_latest by done. unfold latest. change (pending s3) with (map_delete sid (pending s2)).
    rewrite assoc_map_delete, decide_True by done. do 2 f_equal. apply open_del.
  - unfold eras_shifted in *. destruct (latest s sid now) as [r|]; [destruct (advanced r)|].
    + by rewrite !He3, <- !Hera1.
    + intros i. by rewrite He3, <- Hera1.
    + intros i. by rewrite He3, <- Hera1.
  - intros sid' [_ Hh'] Hn. split.
    + unfold latest. change (pending s3) with (map_delete sid (pending s2)).
      rewrite assoc_map_delete, decide_False, Hp2, Hp1, decide_False by done.
      destruct (assoc sid' (pending s)); [done|].
      assert (Hk : stateKey sid <> stateKey sid') by (by intros ->%stateKey_inj).
      rewrite H3, Ho2, Ho1 by (done || (intros i; by apply era_state_ne)). done.
    + intros i. rewrite He3, <- Hera1. apply Ho2. intros j [-> _]%eraStateKey_inj. done.
Qed.
End Store.

(** ** A small store *)
Module ToyStore.
Definition empty : store := mkStore ∅ [].
Definition nonce (_ : jstr) : bytes := zeros 24.
Definition sid : jstr := js "conv".
End ToyStore.

Lemma toy_store_ok : store_ok (H := Toy.toy_sodium) (zeros 32) ToyStore.empty.
Proof. split; [done|]. intros key r. unfold open_row. cbn. by rewrite lookup_empty. Qed.

Lemma toy_sid_ok : sid_ok ToyStore.sid.
Proof. split; [reflexivity|]. apply (bool_decide_unpack _). exact I. Qed.

Lemma spqr_save_load_witness :
  exists s1 a, saveSpqrState ToyStore.sid [x01; x02] v2 None ToyStore.empty = (Ok tt, s1) /\
    loadSpqrState (H := Toy.toy_sodium) (Some (zeros 32)) ToyStore.sid 5 s1
    = (Ok (Some (mkRecord v2 [x01; x02] 5 a)), s1).
Proof.
  destruct (proj1 (spqr_save_load (SL := Toy.toy_laws) (zeros 32) ToyStore.nonce (fun _ => eq_refl) ToyStore.empty
    ToyStore.sid [x01; x02] v2 None 5 6 toy_store_ok toy_sid_ok)) as (s1 & s2 & a & Hs & _ & _ & _ & Hl & _).
  - split; vm_compute; discriminate.
  - exists s1, a. split; [exact Hs|exact Hl].
Defined.
