(* ===== verification/SpqrClient.v ===== *)
(** The v2 message path: the worker operations spqr_ratchet_init, _encrypt and
    _decrypt of web/src/workers/crypto.worker.ts, and encryptSpqrMessage,
    decryptSpqrMessage and the version branch of doEncryptMessage in
    web/src/utils/crypto.ts. The gossip of key-transparency heads that
    decryptSpqrMessage starts in the background is not part of it. *)
From S2P Require Import Prelude StateErr Bytes Base64 Utf8 Js Json PqWire Envelope Sodium DoubleRatchet LocalAtRest DrSession SpqrRatchet SpqrWire SpqrState.
Import Padding DR DrProtocol KeyTables Client SpqrAbi SpqrSession SpqrNegotiation SpqrWire SpqrState.

(** ** The worker *)
Module SpqrWorker.
Section Ops.
Context `{Sodium} `{SpqrCrate}.

Definition spqr_ratchet_init (authKey : bytes) (d : Direction) : host bytes :=
  if blen authKey =? 0 then lift (throw "spqr: authKey kosong") else initSpqrSession authKey d.

Record encrypted2 := mkEncrypted2 { q_state : bytes; q_frames : list bytes; q_ciphertext : bytes; q_mk : bytes }.

Definition spqr_ratchet_encrypt (seeds : list bytes) (nonce : bytes) (serializedState plaintext : bytes)
  : host encrypted2 :=
  step ← spqrSendStep seeds serializedState;
  let '(st, frames, mk) := step in
  padded ← lift (padBuffer plaintext (PADDING_BLOCK_SIZE - FINAL_OVERHEAD));
  combined ← lift (combine nonce (aead_encrypt padded nonce mk));
  mret (mkEncrypted2 st frames combined mk).

(** The state, and the plaintext with its key unless the frames carried none. *)
Definition spqr_ratchet_decrypt (serializedState : bytes) (frames : list bytes) (ciphertext : bytes)
  : host (bytes * option (bytes * bytes)) :=
  step ← spqrRecvStep serializedState frames;
  match step.2 with
  | None | Some [] => mret (step.1, None)
  | Some mk =>
      _ ← lift (guard_not (blen ciphertext <=? 24 + 16) "spqr: ciphertext terlalu pendek");
      let nonce := slice ciphertext 0 24 in
      let ctext := slice_from ciphertext 24 in
      decrypted ← lift (aead_decrypt ctext nonce mk);
      mret (step.1, Some (unpadBuffer decrypted (PADDING_BLOCK_SIZE - FINAL_OVERHEAD), mk))
  end.

End Ops.
End SpqrWorker.
Import SpqrWorker.

(** ** The client *)
Module SpqrClient.

Record client := mkClient { dev : device; braid : store; wasm : Scratch }.

Definition on_wasm {A} (c : host A) : stE client A := fun s =>
  let '(r, m) := c (wasm s) in (r, mkClient (dev s) (braid s) m).
Definition on_braid {A} (c : stE store A) : stE client A := fun s =>
  let '(r, b) := c (braid s) in (r, mkClient (dev s) b (wasm s)).
Definition on_dev (f : device -> device) : stE client unit :=
  modify (fun s => mkClient (f (dev s)) (braid s) (wasm s)).


(** The randomness of one call: braid entropy, the AEAD nonces of the v2 and v1 paths. *)
Record draw := mkDraw { d_seeds : list bytes; d_nonce : bytes; d_nonce1 : bytes }.

Definition store_mk (messageId : option string) (mk : bytes) (d : device) : device :=
  mkDevice (ratchetSessions d) (skippedTable d)
    (match messageId with Some id => <[id := mk]> (messageKeys d) | None => messageKeys d end).
Definition store_session (conv : string) (p : Persisted) (d : device) : device :=
  mkDevice (storeRatchetSession (ratchetSessions d) conv p) (skippedTable d) (messageKeys d).

Section Ops.
Context `{Sodium} `{SpqrCrate}.
Context (seed : option bytes) (to_string : bytes -> result jstr).

(** The stored braid state, or the first one of the session's root. *)
Definition braid_state (conv : string) (authKeyB64 : string) (d : Direction) (now : Z) : stE client bytes :=
  stored ← on_braid (loadSpqrState seed (js conv) now);
  match stored with
  | Some r => mret (state r)
  | None =>
      authKey ← lift (from_base64 authKeyB64);
      on_wasm (spqr_ratchet_init authKey d)
  end.

Definition encrypt_body (rnd : draw) (conv : string) (authKeyB64 : string) (d : Direction) (now : Z)
    (sealedPayload : jstr) : stE client (SpqrDrHeader * bytes * bytes) :=
  st ← braid_state conv authKeyB64 d now;
  res ← on_wasm (spqr_ratchet_encrypt (d_seeds rnd) (d_nonce rnd) st (utf8_encode sealedPayload));
  header ← lift (buildSpqrHeader (q_frames res));
  _ ← on_braid (saveSpqrState (js conv) (q_state res) v2 (Some true));
  mret (header, q_ciphertext res, q_mk res).

(** Header, ciphertext and message key; [None] sends the message as v1. *)
Definition encryptSpqrMessage (rnd : draw) (conv : string) (v : DrProtocolStateView) (now : Z)
    (sealedPayload : jstr) : stE client (option (SpqrDrHeader * bytes * bytes)) :=
  match truthy_str (spqrAuthKey v), spqrDirection v with
  | Some authKeyB64, Some d =>
      r ← attempt (encrypt_body rnd conv authKeyB64 d now sealedPayload);
      mret (match r with Ok res => Some res | Err _ => None end)
  | _, _ => mret None
  end.

(** The first archived era that opens the message; a failed try costs nothing. *)
Fixpoint try_eras (eras : list SpqrStateRecord) (frames : list bytes) (combined : bytes)
  : stE client (option (bytes * option (bytes * bytes))) :=
  match eras with
  | [] => mret None
  | era :: rest =>
      r ← attempt (on_wasm (spqr_ratchet_decrypt (state era) frames combined));
      match r with Ok res => mret (Some res) | Err _ => try_eras rest frames combined end
  end.

(** What follows a decryption: the key of the message, the text and what it declares. *)
Definition finish (conv : string) (messageId : option string) (p : Persisted) (res : bytes * option (bytes * bytes))
  : stE client (decrypt_result jstr) :=
  match res.2 with
  | None => mret (Pending "waiting_for_key")
  | Some (plaintext, mk) =>
      _ ← on_dev (store_mk messageId mk);
      text ← lift (to_string plaintext);
      let patch := mkView (Some true) None None None (Some <$> extractVersionDeclaration text) None None in
      _ ← on_dev (store_session conv (mkPersisted (worker p) (attachClientProtocolFields (view p) patch)));
      mret (Success text)
  end.

Definition decryptSpqrMessage (conv : string) (messageId : option string) (header : SpqrDrHeader)
    (combined : bytes) (now : Z) : stE client (decrypt_result jstr) :=
  session ← gets (fun s => ratchetSessions (dev s) !! conv);
  match session with
  | None => mret (Pending "waiting_for_ratchet_state")
  | Some p =>
      match truthy_str (spqrAuthKey (view p)), spqrDirection (view p) with
      | Some authKeyB64, Some d =>
          st ← braid_state conv authKeyB64 d now;
          frames ← lift (decodeSpqrFrames header);
          current ← attempt (on_wasm (spqr_ratchet_decrypt st frames combined));
          match current with
          | Ok res =>
              _ ← on_braid (saveSpqrState (js conv) res.1 v2 (Some true));
              finish conv messageId p res
          | Err currentEraError =>
              eras ← on_braid (loadArchivedSpqrStates seed (js conv));
              old ← try_eras eras frames combined;
              match old with
              | Some res => finish conv messageId p res
              | None => lift (Err currentEraError)
              end
          end
      | _, _ => mret (Failed "spqr: sesi ini tidak punya state braid (didirikan sebagai v1)")
      end
  end.

(** What leaves [doEncryptMessage]: a v1 message or [{ dr: header, ciphertext, x3dh }]. *)
Inductive outgoing :=
| Wire1 (w : wire)
| Wire2 (header : SpqrDrHeader) (ciphertext : bytes) (x3dh : option DrHandshakePayload).

(** The sealed payload: content, sender, acknowledged KEM key, declared version, and
    the fields [extra] of a key-transparency head. *)
Definition sealed_payload (senderId senderDeviceKey : jstr) (enabled : bool) (extra : list (jstr * jsval))
    (text : jstr) (ackKem : option string) : jstr :=
  JSON_stringify (JObj ([(js "content", JStr text); (js "senderId", JStr senderId);
      (js "senderDeviceKey", JStr senderDeviceKey)]
    ++ (match ackKem with Some k => [(js "ackKem", JStr (js k))] | None => [] end)
    ++ versionDeclaration (if enabled then v2 else v1) ++ extra)).

(** [doEncryptMessage] for a 1:1 conversation, from the session it loaded or has just
    created. *)
Definition encrypt_any (rnd : draw) (sealPayload : jstr -> option string -> jstr) (conv : string)
    (messageId : option string) (p : Persisted) (x3dhData : option DrHandshakePayload)
    (enabled override : bool) (caps : list string) (now : Z) (text : jstr) : stE client outgoing :=
  let sealedPayload := sealPayload text (truthy_str (s_KEMr (worker p))) in
  let decision := resolveOutboundRatchetVersion
    (mkOutbound (Some (default v1 (default None (ratchetVersion (view p)))))
       (default None (peerAckRatchetVersion (view p))) caps enabled override) in
  let patch := mkView (match x3dhData with Some _ => Some false | None => None end)
    (match x3dhData with Some h => Some (Some h) | None => None end)
    None (Some (Some (SpqrNegotiation.version decision))) None None None in
  sent ← match SpqrNegotiation.version decision with
         | v2 => encryptSpqrMessage rnd conv (view p) now sealedPayload
         | v1 => mret None
         end;
  match sent with
  | Some (header, ciphertext, mk) =>
      _ ← on_dev (store_mk messageId mk);
      let persisted := mkPersisted (worker p) (attachClientProtocolFields (view p) patch) in
      _ ← on_dev (store_session conv persisted);
      mret (Wire2 header ciphertext (getHandshakePayload (view persisted)))
  | None =>
      d ← gets dev;
      r ← lift (encrypt_v1 sealPayload (d_nonce1 rnd) d conv messageId p x3dhData
                 (SpqrNegotiation.version decision) text);
      _ ← modify (fun s => mkClient r.1 (braid s) (wasm s));
      mret (Wire1 r.2)
  end.

End Ops.
End SpqrClient.
Import SpqrClient.

(** ** A message from one client to the other *)
Section Message.
Context `{SL : SodiumLaws} `{CL : SpqrCrateLaws} (to_string : bytes -> result jstr).

Definition draw_ok (rnd : draw) : Prop := seeds_ok SPQR_MAX_STEPS_PER_MESSAGE (d_seeds rnd) /\ blen (d_nonce rnd) = 24.

Definition client_ok (seed : bytes) (c : client) : Prop := store_ok seed (braid c) /\ machine_ok (wasm c).

(** The braid state a conversation is at: the stored one, or the first one. *)
Definition current_braid (seed : bytes) (c : client) (conv : string) (v : DrProtocolStateView) (now : Z) : result bytes :=
  match truthy_str (spqrAuthKey v), spqrDirection v with
  | Some k, Some d =>
      match latest seed (braid c) (js conv) now with
      | Some r => Ok (state r)
      | None => key ← from_base64 k; if blen key =? 0 then Err "" else abi_initial key d V1 V1
      end
  | _, _ => Err ""
  end.

Lemma braid_state_at seed c conv v now k d a :
  client_ok seed c -> sid_ok (js conv) -> truthy_str (spqrAuthKey v) = Some k -> spqrDirection v = Some d ->
  current_braid seed c conv v now = Ok a ->
  exists m, braid_state (Some seed) conv k d now c = (Ok a, mkClient (dev c) (braid c) m) /\ machine_ok m.
Proof.
  intros [Hs Hm] [Hid _] Hk Hd. unfold current_braid, braid_state. rewrite Hk, Hd.
  assert (Hl : on_braid (loadSpqrState (Some seed) (js conv) now) c = (Ok (latest seed (braid c) (js conv) now), c)).
  { unfold on_braid. rewrite load_latest by done. by destruct c. }
  rewrite (stE_bind_eq _ _ c _ _ Hl). destruct (latest seed (braid c) (js conv) now) as [r|].
  - intros [= <-]. exists (wasm c). by destruct c.
  - rewrite lift_bind. destruct (from_base64 k) as [key|]; [|done]. rewrite bind_ok. intros Hi.
    unfold on_wasm, spqr_ratchet_init, initSpqrSession. destruct (blen key =? 0); [done|].
    destruct (initialState_abi (wasm c) key d V1 V1 Hm) as (m & E & Hm'). rewrite E, Hi. by exists m.
Qed.

(** Sealing what the send step produced, and opening it on the other side. *)
Lemma worker_message seeds nonce a b p mA a' frames key :
  seeds_ok SPQR_MAX_STEPS_PER_MESSAGE seeds -> blen nonce = 24 -> machine_ok mA -> in_step a b ->
  pure_send SPQR_MAX_STEPS_PER_MESSAGE seeds [] a = Ok (a', frames, key) ->
  wire_frames frames /\
  exists mA', spqr_ratchet_encrypt seeds nonce a p mA = (Ok (mkEncrypted2 a' frames (wire_ct nonce p key) key), mA') /\
    machine_ok mA' /\
  exists b', in_step a' b' /\ forall mB, machine_ok mB ->
    exists mB', spqr_ratchet_decrypt b frames (wire_ct nonce p key) mB = (Ok (b', Some (p, key)), mB') /\ machine_ok mB'.
Proof.
  intros Hsd Hn HA Hab Hp. destruct (send_loop_pure _ seeds [] a mA Hsd HA) as (mA' & Hs & HA').
  rewrite Hp, <- spqrSendStep_eq in Hs.
  destruct (spqr_step_agree seeds a b mA a' frames key mA' Hsd HA Hab Hs)
    as (Hlen & Hf & Hk & _ & b' & Hab' & Hrecv).
  split.
  { split; [change SpqrWire.SPQR_MAX_FRAMES_PER_MESSAGE with 16; change SpqrSession.SPQR_MAX_FRAMES_PER_MESSAGE with 16%nat in Hlen; lia|].
    eapply Forall_impl; [exact Hf|]. intros f [Hne Hle]. destruct f; [done|]. rewrite blen_cons in *. pose proof (blen_nonneg f). lia. }
  exists mA'. split_and!; [|done|].
  - unfold spqr_ratchet_encrypt. rewrite (stE_bind_eq _ _ mA _ _ Hs), lift_bind.
    change (PADDING_BLOCK_SIZE - FINAL_OVERHEAD) with 8152. rewrite padBuffer_eq by lia. rewrite lift_bind, combine_ok. done.
  - exists b'. split; [done|]. intros mB HB. destruct (Hrecv mB HB) as (mB' & Hr & HB').
    exists mB'. split; [|done]. unfold spqr_ratchet_decrypt. rewrite (stE_bind_eq _ _ mB _ _ Hr). cbn [snd fst].
    destruct key as [|x key]; [done|]. rewrite lift_bind.
    assert (Hw : 40 < blen (wire_ct nonce p (x :: key))).
    { unfold wire_ct. rewrite blen_app, aead_length. unfold padded. autorewrite with nyx. pose proof (blen_nonneg p).
      pose proof (blen_nonneg (zeros (8152 - blen p mod 8152 - 1))). lia. }
    unfold guard_not. ztest. rewrite lift_bind. unfold wire_ct.
    destruct (split_combined nonce (aead_encrypt (padded p) nonce (x :: key)) Hn) as [-> ->].
    rewrite aead_correct. change (PADDING_BLOCK_SIZE - FINAL_OVERHEAD) with 8152. unfold padded. by rewrite unpad_pad.
Qed.

(** Opening a message with a given state, memory aside. *)
Definition pure_decrypt (st : bytes) (frames : list bytes) (ciphertext : bytes) : result (bytes * option (bytes * bytes)) :=
  step ← (match frames with
          | [] => Err "spqr-session: tidak ada frame untuk diterapkan"
          | _ => if Z.of_nat SPQR_MAX_STEPS_PER_MESSAGE <? Z.of_nat (length frames)
                 then Err "spqr-session: terlalu banyak frame" else pure_recv frames st None
          end);
  match step.2 with
  | None | Some [] => Ok (step.1, None)
  | Some mk =>
      _ ← guard_not (blen ciphertext <=? 24 + 16) "spqr: ciphertext terlalu pendek";
      decrypted ← aead_decrypt (slice_from ciphertext 24) (slice ciphertext 0 24) mk;
      Ok (step.1, Some (unpadBuffer decrypted (PADDING_BLOCK_SIZE - FINAL_OVERHEAD), mk))
  end.

Lemma decrypt_pure st frames ct m : machine_ok m ->
  exists m', spqr_ratchet_decrypt st frames ct m = (pure_decrypt st frames ct, m') /\ machine_ok m'.
Proof.
  intros Hm. unfold spqr_ratchet_decrypt, pure_decrypt.
  assert (Hr : exists m', spqrRecvStep st frames m = (match frames with
     | [] => Err "spqr-session: tidak ada frame untuk diterapkan"
     | _ => if Z.of_nat SPQR_MAX_STEPS_PER_MESSAGE <? Z.of_nat (length frames)
            then Err "spqr-session: terlalu banyak frame" else pure_recv frames st None end, m') /\ machine_ok m').
  { rewrite spqrRecvStep_eq. destruct frames as [|f fs]; [by exists m|].
    destruct (_ <? _); [by exists m|]. by apply recv_loop_pure. }
  destruct Hr as (m' & Hr & Hm'). rewrite (stE_bind_eq _ _ m _ _ Hr). exists m'. split; [|done].
  destruct (match frames with [] => _ | _ => _ end) as [[st' [[|x k]|]]|e]; try done. rewrite bind_ok. cbn [fst snd].
  rewrite lift_bind. destruct (guard_not _ _); [|done]. rewrite bind_ok, lift_bind. by destruct (aead_decrypt _ _ _).
Qed.

Lemma on_wasm_eq {A} (c : host A) s r m : c (wasm s) = (r, m) -> on_wasm c s = (r, mkClient (dev s) (braid s) m).
Proof. intros E. unfold on_wasm. by rewrite E. Qed.

Lemma on_braid_eq {A} (c : stE store A) s r b : c (braid s) = (r, b) -> on_braid c s = (r, mkClient (dev s) b (wasm s)).
Proof. intros E. unfold on_braid. by rewrite E. Qed.


(** Saving the state a step led to. *)
Lemma save_step seed s conv st x : store_ok seed s -> sid_ok (js conv) -> in_step st x ->
  exists s', saveSpqrState (js conv) st v2 (Some true) s = (Ok tt, s') /\ store_ok seed s' /\
    (forall now, latest seed s' (js conv) now = Some (mkRecord v2 st now true)).
Proof.
  intros Hs [Hid _] Hst. destruct (save_one seed s (js conv) st v2 (Some true) Hs Hid) as (s' & a & Hsv & Hs' & Ha & _ & Hl & _).
  { pose proof (in_step_size _ _ Hst). change SPQR_MAX_STATE_BYTES with 65536. lia. }
  exists s'. cbn in Ha. subst a. by split_and!.
Qed.

(** The session after a v2 message was read. *)
Definition confirmed (p : Persisted) (text : jstr) : Persisted :=
  mkPersisted (worker p) (attachClientProtocolFields (view p)
    (mkView (Some true) None None None (Some <$> extractVersionDeclaration text) None None)).

Lemma finish_eq conv mid p st plain mk text c : to_string plain = Ok text ->
  finish to_string conv mid p (st, Some (plain, mk)) c =
  (Ok (Success text), mkClient (store_session conv (confirmed p text) (store_mk mid mk (dev c))) (braid c) (wasm c)).
Proof. intros Ht. unfold finish. cbn [snd]. unfold on_dev. rewrite modify_bind, lift_bind, Ht. done. Qed.

Lemma current_braid_root seed c conv v now a : current_braid seed c conv v now = Ok a ->
  exists k d, truthy_str (spqrAuthKey v) = Some k /\ spqrDirection v = Some d.
Proof.
  unfold current_braid. destruct (truthy_str (spqrAuthKey v)) as [k|]; [|done].
  destruct (spqrDirection v) as [d|]; [|done]. by exists k, d.
Qed.

Lemma current_braid_stored seed c conv v now k d r : truthy_str (spqrAuthKey v) = Some k -> spqrDirection v = Some d ->
  latest seed (braid c) (js conv) now = Some r -> current_braid seed c conv v now = Ok (state r).
Proof. intros Hk Hd Hl. unfold current_braid. by rewrite Hk, Hd, Hl. Qed.

(** The sender's side. *)
Lemma encrypt_message seed c conv v rnd now payload a b a' frames key :
  client_ok seed c -> sid_ok (js conv) -> draw_ok rnd -> in_step a b ->
  current_braid seed c conv v now = Ok a ->
  pure_send SPQR_MAX_STEPS_PER_MESSAGE (d_seeds rnd) [] a = Ok (a', frames, key) ->
  exists h c', encryptSpqrMessage (Some seed) rnd conv v now payload c
    = (Ok (Some (h, wire_ct (d_nonce rnd) (utf8_encode payload) key, key)), c') /\
    h = mkSpqrHeader (map (fun f => js (base64UrlFromBytes f)) frames) /\ wire_frames frames /\
    client_ok seed c' /\ current_braid seed c' conv v now = Ok a'.
Proof.
  intros [Hs Hm] Hid [Hsd Hn] Hab Ha Hp. destruct (current_braid_root _ _ _ _ _ _ Ha) as (k & d & Hk & Hd).
  destruct (braid_state_at seed c conv v now k d a (conj Hs Hm) Hid Hk Hd Ha) as (m1 & Hb & Hm1).
  destruct (worker_message (d_seeds rnd) (d_nonce rnd) a b (utf8_encode payload) m1 a' frames key Hsd Hn Hm1 Hab Hp)
    as (Hw & mA' & He & HA' & b' & Hab' & _).
  destruct (header_wire frames Hw) as (Hh & _). destruct (save_step seed (braid c) conv a' b' Hs Hid Hab') as (s' & Hsv & Hs' & Hl).
  set (h := mkSpqrHeader _) in Hh. set (c' := mkClient (dev c) s' mA'). exists h, c'.
  assert (Hbody : encrypt_body (Some seed) rnd conv k d now payload c =
    (Ok (h, wire_ct (d_nonce rnd) (utf8_encode payload) key, key), c')).
  { unfold encrypt_body. rewrite (stE_bind_eq _ _ c _ _ Hb).
    rewrite (stE_bind_eq _ _ _ _ _ (on_wasm_eq _ (mkClient (dev c) (braid c) m1) _ _ He)). cbn [q_frames q_state q_ciphertext q_mk].
    rewrite lift_bind, Hh. by rewrite (stE_bind_eq _ _ _ _ _ (on_braid_eq _ (mkClient (dev c) (braid c) mA') _ _ Hsv)). }
  split_and!; [|done|done|by split|].
  - unfold encryptSpqrMessage. rewrite Hk, Hd. by rewrite (stE_bind_eq _ _ c _ _ (attempt_eq _ _ _ _ Hbody)).
  - by rewrite (current_braid_stored seed c' conv v now k d _ Hk Hd (Hl now)).
Qed.

(** The receiver's side, with the current era. *)
Lemma decrypt_message seed c conv mid p now payload nonce frames key b b' x :
  client_ok seed c -> sid_ok (js conv) -> wire_frames frames -> in_step b' x ->
  to_string (utf8_encode payload) = Ok payload ->
  ratchetSessions (dev c) !! conv = Some p -> current_braid seed c conv (view p) now = Ok b ->
  (forall m, machine_ok m -> exists m', spqr_ratchet_decrypt b frames (wire_ct nonce (utf8_encode payload) key) m
     = (Ok (b', Some (utf8_encode payload, key)), m') /\ machine_ok m') ->
  exists c', decryptSpqrMessage (Some seed) to_string conv mid
      (mkSpqrHeader (map (fun f => js (base64UrlFromBytes f)) frames)) (wire_ct nonce (utf8_encode payload) key) now c
      = (Ok (Success payload), c') /\ client_ok seed c' /\
    dev c' = store_session conv (confirmed p payload) (store_mk mid key (dev c)) /\
    current_braid seed c' conv (view (confirmed p payload)) now = Ok b'.
Proof.
  intros [Hs Hm] Hid Hw Hbx Hts Hp Hb Hdec. destruct (current_braid_root _ _ _ _ _ _ Hb) as (k & d & Hk & Hd).
  destruct (braid_state_at seed c conv (view p) now k d b (conj Hs Hm) Hid Hk Hd Hb) as (m1 & Hst & Hm1).
  destruct (Hdec m1 Hm1) as (m3 & Hdc & Hm3). destruct (header_wire frames Hw) as (_ & _ & _ & Hfr).
  destruct (save_step seed (braid c) conv b' x Hs Hid Hbx) as (s' & Hsv & Hs' & Hl).
  exists (mkClient (store_session conv (confirmed p payload) (store_mk mid key (dev c))) s' m3).
  split_and!; [|by split|done|].
  - unfold decryptSpqrMessage. rewrite gets_bind, Hp, Hk, Hd, (stE_bind_eq _ _ c _ _ Hst), lift_bind, Hfr.
    rewrite (stE_bind_eq _ _ _ _ _ (attempt_eq _ _ _ _ (on_wasm_eq _ (mkClient (dev c) (braid c) m1) _ _ Hdc))).
    cbn [fst]. rewrite (stE_bind_eq _ _ _ _ _ (on_braid_eq _ (mkClient (dev c) (braid c) m3) _ _ Hsv)).
    by rewrite (finish_eq _ _ _ _ _ _ _ _ Hts).
  - erewrite current_braid_stored; [..|exact (Hl now)]; [done| |]; cbn; done.
Qed.

(** C34: a v2 message arrives. When two unlocked clients are at braid states in step and
    the sender's ratchet yields a key within sixteen steps, the sender produces a v2
    message; its header survives the JSON text it travels in; the receiver reads the
    sealed payload, caches the message key, marks the session as confirmed and takes
    over the version the payload declares; and the two are in step again, with the
    advanced states as what each will load next. *)
Theorem spqr_message_roundtrip seedA seedB cA cB conv vA pB mid rnd now payload a b a' frames key :
  client_ok seedA cA -> client_ok seedB cB -> sid_ok (js conv) -> draw_ok rnd -> in_step a b ->
  to_string (utf8_encode payload) = Ok payload ->
  current_braid seedA cA conv vA now = Ok a ->
  ratchetSessions (dev cB) !! conv = Some pB -> current_braid seedB cB conv (view pB) now = Ok b ->
  pure_send SPQR_MAX_STEPS_PER_MESSAGE (d_seeds rnd) [] a = Ok (a', frames, key) ->
  exists h ct cA' cB' b',
    encryptSpqrMessage (Some seedA) rnd conv vA now payload cA = (Ok (Some (h, ct, key)), cA') /\
    (JSON_parse (JSON_stringify (header_json h)) ≫= parseSpqrHeader) = Some h /\
    decryptSpqrMessage (Some seedB) to_string conv mid h ct now cB = (Ok (Success payload), cB') /\
    dev cB' = store_session conv (confirmed pB payload) (store_mk mid key (dev cB)) /\
    in_step a' b' /\ current_braid seedA cA' conv vA now = Ok a' /\
    current_braid seedB cB' conv (view (confirmed pB payload)) now = Ok b' /\
    client_ok seedA cA' /\ client_ok seedB cB'.
Proof.
  intros HA HB Hid Hrnd Hab Hts Ha Hp Hb Hsend.
  destruct (encrypt_message seedA cA conv vA rnd now payload a b a' frames key HA Hid Hrnd Hab Ha Hsend)
    as (h & cA' & He & Hh & Hw & HA' & Ha').
  destruct Hrnd as [Hsd Hn].
  destruct (worker_message (d_seeds rnd) (d_nonce rnd) a b (utf8_encode payload) (wasm cA) a' frames key
    Hsd Hn (proj2 HA) Hab Hsend) as (_ & _ & _ & _ & b' & Hab' & Hdec).
  destruct (decrypt_message seedB cB conv mid pB now payload (d_nonce rnd) frames key b b' a' HB Hid Hw
    (in_step_sym _ _ Hab') Hts Hp Hb Hdec) as (cB' & Hd & HB' & Hdev & Hb').
  destruct (header_wire frames Hw) as (_ & Hj & Hpar & _). rewrite <- Hh in Hj, Hpar, Hd.
  exists h, (wire_ct (d_nonce rnd) (utf8_encode payload) key), cA', cB', b'.
  rewrite json_roundtrip by done. by split_and!.
Qed.

(** The first era that opens the message ends the search. *)
Lemma try_first era rest frames combined c res m : spqr_ratchet_decrypt (state era) frames combined (wasm c) = (Ok res, m) ->
  try_eras (era :: rest) frames combined c = (Ok (Some res), mkClient (dev c) (braid c) m).
Proof.
  intros Hd. cbn [try_eras]. by rewrite (stE_bind_eq _ _ _ _ _ (attempt_eq _ _ _ _ (on_wasm_eq _ c _ _ Hd))).
Qed.

Lemma archived_first seed s sid r : assertSessionId sid = Ok tt -> loadEraState (Some seed) s sid 0 = Some r ->
  exists rest, loadArchivedSpqrStates (Some seed) sid s = (Ok (r :: rest), s).
Proof.
  intros Hid He. unfold loadArchivedSpqrStates. rewrite lift_bind, Hid. unfold gets.
  change (seq 0 SPQR_STATE_ARCHIVE_SLOTS) with [0; 1; 2]%nat. cbn [omap list_omap].
  change (Z.of_nat 0) with 0. rewrite He. by eexists.
Qed.

(** A message of an archived era is read and changes no braid state. *)
Lemma decrypt_archived seed c conv mid p now payload nonce frames key b b2 b' r :
  client_ok seed c -> sid_ok (js conv) -> wire_frames frames -> to_string (utf8_encode payload) = Ok payload ->
  ratchetSessions (dev c) !! conv = Some p -> current_braid seed c conv (view p) now = Ok b2 ->
  loadEraState (Some seed) (braid c) (js conv) 0 = Some r -> state r = b ->
  is_ok (pure_decrypt b2 frames (wire_ct nonce (utf8_encode payload) key)) = false ->
  (forall m, machine_ok m -> exists m', spqr_ratchet_decrypt b frames (wire_ct nonce (utf8_encode payload) key) m
     = (Ok (b', Some (utf8_encode payload, key)), m') /\ machine_ok m') ->
  exists c', decryptSpqrMessage (Some seed) to_string conv mid
      (mkSpqrHeader (map (fun f => js (base64UrlFromBytes f)) frames)) (wire_ct nonce (utf8_encode payload) key) now c
      = (Ok (Success payload), c') /\ braid c' = braid c /\ client_ok seed c'.
Proof.
  intros [Hs Hm] Hid Hw Hts Hp Hb He Hr Hrej Hdec. destruct (current_braid_root _ _ _ _ _ _ Hb) as (k & d & Hk & Hd).
  destruct (braid_state_at seed c conv (view p) now k d b2 (conj Hs Hm) Hid Hk Hd Hb) as (m1 & Hst & Hm1).
  destruct (decrypt_pure b2 frames (wire_ct nonce (utf8_encode payload) key) m1 Hm1) as (m2 & Hdc & Hm2).
  destruct (pure_decrypt b2 _ _) as [|e]; [done|]. destruct (header_wire frames Hw) as (_ & _ & _ & Hfr).
  destruct (archived_first seed (braid c) (js conv) r (proj1 Hid) He) as (rest & Harch).
  destruct (Hdec m2 Hm2) as (m3 & Hdo & Hm3). subst b.
  exists (mkClient (store_session conv (confirmed p payload) (store_mk mid key (dev c))) (braid c) m3).
  split_and!; [|done|by split].
  unfold decryptSpqrMessage. rewrite gets_bind, Hp, Hk, Hd, (stE_bind_eq _ _ c _ _ Hst), lift_bind, Hfr.
  rewrite (stE_bind_eq _ _ _ _ _ (attempt_eq _ _ _ _ (on_wasm_eq _ (mkClient (dev c) (braid c) m1) _ _ Hdc))).
  rewrite (stE_bind_eq _ _ _ _ _ (on_braid_eq _ (mkClient (dev c) (braid c) m2) _ _ Harch)).
  rewrite (stE_bind_eq _ _ _ _ _ (try_first r rest _ _ (mkClient (dev c) (braid c) m2) _ _ Hdo)).
  by rewrite (finish_eq _ _ _ _ _ _ _ _ Hts).
Qed.

(** A message that outlives its session is still read. The receiver, whose latest
    state had carried messages, rotates to a new session before a message of the old
    one arrives; if the new session's state rejects that message, the archived era
    opens it, and reading it leaves the new session's braid state as it was. *)
Theorem spqr_late_message seedA seedB cA cB conv vA rB mid rnd nonceB now payload a a' frames key s' d2 m2 p2 b2 :
  client_ok seedA cA -> store_ok seedB (braid cB) -> machine_ok m2 -> sid_ok (js conv) -> draw_ok rnd ->
  (forall k, blen (nonceB k) = 24) -> to_string (utf8_encode payload) = Ok payload ->
  latest seedB (braid cB) (js conv) now = Some rB -> advanced rB = true -> in_step a (state rB) ->
  current_braid seedA cA conv vA now = Ok a ->
  pure_send SPQR_MAX_STEPS_PER_MESSAGE (d_seeds rnd) [] a = Ok (a', frames, key) ->
  rotateSpqrStateForNewSession (Some seedB) nonceB (js conv) now (braid cB) = (Ok tt, s') ->
  ratchetSessions d2 !! conv = Some p2 -> current_braid seedB (mkClient d2 s' m2) conv (view p2) now = Ok b2 ->
  is_ok (pure_decrypt b2 frames (wire_ct (d_nonce rnd) (utf8_encode payload) key)) = false ->
  exists h ct cA' cB',
    encryptSpqrMessage (Some seedA) rnd conv vA now payload cA = (Ok (Some (h, ct, key)), cA') /\
    decryptSpqrMessage (Some seedB) to_string conv mid h ct now (mkClient d2 s' m2) = (Ok (Success payload), cB') /\
    braid cB' = s' /\ client_ok seedB cB'.
Proof.
  intros HA HB Hm2 Hid Hrnd Hnon Hts Hl Hadv Hab Ha Hsend Hrot Hp2 Hb2 Hrej.
  destruct (encrypt_message seedA cA conv vA rnd now payload a _ a' frames key HA Hid Hrnd Hab Ha Hsend)
    as (h & cA' & He & Hh & Hw & _).
  destruct (spqr_rotate_fifo seedB nonceB Hnon (braid cB) (js conv) now HB Hid) as (s2 & Hrot2 & Hs2 & _ & Hera & _).
  rewrite Hrot in Hrot2. injection Hrot2 as <-. unfold eras_shifted in Hera. rewrite Hl, Hadv in Hera.
  destruct Hrnd as [Hsd Hn].
  destruct (worker_message (d_seeds rnd) (d_nonce rnd) a (state rB) (utf8_encode payload) (wasm cA) a' frames key
    Hsd Hn (proj2 HA) Hab Hsend) as (_ & _ & _ & _ & b' & _ & Hdec).
  destruct (decrypt_archived seedB (mkClient d2 s' m2) conv mid p2 now payload (d_nonce rnd) frames key (state rB) b2 b'
    (archived rB now)) as (cB' & Hd & Hbr & Hok); try done; [apply Hera|].
  exists h, (wire_ct (d_nonce rnd) (utf8_encode payload) key), cA', cB'. rewrite Hh in He |- *. by split_and!.
Qed.

(** Code that writes no row of the braid table. *)
Definition same_rows (c c' : client) : Prop := kvStore (braid c') = kvStore (braid c).
#[local] Notation keeps_rows := (moves same_rows).

#[local] Instance same_rows_preorder : PreOrder same_rows.
Proof. split; [by intros c|]. intros c1 c2 c3 H1 H2. unfold same_rows in *. congruence. Qed.

Lemma keeps_wasm {A} (m : host A) : keeps_rows (on_wasm m).
Proof. intros c. unfold on_wasm. by destruct (m (wasm c)). Qed.

Lemma keeps_attempt {A} (m : stE client A) : keeps_rows m -> keeps_rows (attempt m).
Proof. intros Hm c. pose proof (Hm c). unfold attempt. by destruct (m c). Qed.

Lemma keeps_load seed sid now : keeps_rows (on_braid (loadSpqrState seed sid now)).
Proof. intros c. unfold on_braid, loadSpqrState, lift, mbind, stE_bind. by destruct (assertSessionId sid). Qed.

Lemma keeps_save sid st v a : keeps_rows (on_braid (saveSpqrState sid st v a)).
Proof.
  intros c. unfold on_braid, saveSpqrState, lift, gets, modify, mbind, stE_bind.
  destruct (assertSessionId sid); [|done]. by destruct (check_state st).
Qed.

Lemma keeps_encrypt seed rnd conv v now payload : keeps_rows (encryptSpqrMessage seed rnd conv v now payload).
Proof.
  unfold encryptSpqrMessage. destruct (truthy_str _); [|apply (moves_ret _)]. destruct (spqrDirection v); [|apply (moves_ret _)].
  apply (moves_bind _); [|intros; apply (moves_ret _)]. apply keeps_attempt. unfold encrypt_body, braid_state.
  repeat (apply (moves_bind _); [|intros ?]);
    first [apply keeps_load | apply keeps_save | apply keeps_wasm | apply (moves_lift _) | apply (moves_ret _) | idtac].
  case_match; [apply (moves_ret _)|]. apply (moves_bind _); [apply (moves_lift _)|intros ?; apply keeps_wasm].
Qed.

Lemma outbound_v2 i : SpqrNegotiation.version (resolveOutboundRatchetVersion i) = v2 ->
  integrationEnabled i = true /\ peerDeclaredVersion i = Some v2 /\
  (currentOutbound i = Some v2 \/ capabilityOverride i = true \/ SPQR_CAPABILITY ∈ negotiatedCapabilities i).
Proof.
  destruct i as [[[]|] [[]|] caps [] []]; unfold resolveOutboundRatchetVersion; cbn -[SPQR_CAPABILITY];
    try case_bool_decide; naive_solver.
Qed.

Lemma encrypt_v2_root seed rnd conv v now payload c res c' :
  encryptSpqrMessage seed rnd conv v now payload c = (Ok (Some res), c') ->
  truthy_str (spqrAuthKey v) <> None /\ spqrDirection v <> None.
Proof. unfold encryptSpqrMessage. destruct (truthy_str _); [|done]. by destruct (spqrDirection v). Qed.

(** No v2 message without proof. Whatever the state of the client, a message leaves
    as v2 only if sending v2 is enabled, the peer declared v2 in an opened payload,
    the session has a braid root, and the session was on v2 or the relay offers it;
    and a message that leaves as v1 leaves the braid states that are on disk alone. *)
Theorem v2_only_with_proof seed rnd sealPayload conv mid p x3dh enabled override caps now text c r c' :
  encrypt_any seed rnd sealPayload conv mid p x3dh enabled override caps now text c = (Ok r, c') ->
  match r with
  | Wire2 _ _ _ =>
      enabled = true /\ default None (peerAckRatchetVersion (view p)) = Some v2 /\
      truthy_str (spqrAuthKey (view p)) <> None /\ spqrDirection (view p) <> None /\
      (default None (ratchetVersion (view p)) = Some v2 \/ override = true \/ SPQR_CAPABILITY ∈ caps)
  | Wire1 _ => kvStore (braid c') = kvStore (braid c)
  end.
Proof.
  unfold encrypt_any. set (dec := resolveOutboundRatchetVersion _).
  set (m := match SpqrNegotiation.version dec with v1 => _ | v2 => _ end).
  assert (Hk : keeps_rows m) by (unfold m; destruct (SpqrNegotiation.version dec); [apply (moves_ret _)|apply keeps_encrypt]).
  pose proof (Hk c) as Hrows. destruct (m c) as [[sent|e] c1] eqn:Em; rewrite (stE_bind_eq _ _ c _ _ Em); [|done].
  cbn [snd] in Hrows. destruct sent as [[[h ct] mk]|].
  - unfold on_dev. rewrite !modify_bind. intros [= <- <-].
    destruct (SpqrNegotiation.version dec) eqn:Ev; unfold m in Em; [done|].
    apply outbound_v2 in Ev as (H1 & H2 & H3). apply encrypt_v2_root in Em as [H4 H5]. cbn in H1, H2, H3.
    split_and!; try done. destruct H3 as [H3|H3]; [left|by right]. destruct (ratchetVersion (view p)) as [[[]|]|]; done.
  - rewrite gets_bind, lift_bind. destruct (encrypt_v1 _ _ _ _ _ _ _ _ _) as [rr|]; [|done].
    rewrite modify_bind. intros [= <- <-]. exact Hrows.
Qed.
End Message.

(** ** Two small clients *)
Module ToyClients.
Import ToySpqr.
#[export] Existing Instance Toy.toy_sodium.
#[export] Existing Instance Toy.toy_laws.
Definition view_with (key : bytes) (d : Direction) : DrProtocolStateView :=
  mkView None None None None None (Some (to_base64 key)) (Some d).
Definition p (key : bytes) (d : Direction) : Persisted :=
  mkPersisted (mkDR None None None None None None 0 0 0 ∅ None None) (view_with key d).
Definition device_of (q : Persisted) : device := mkDevice {["conv"%string := q]} [] ∅.
Definition fresh (q : Persisted) : client := mkClient (device_of q) ToyStore.empty fresh_scratch.
Definition rnd : draw := mkDraw seeds (zeros 24) (zeros 24).
Definition root : bytes := [x07].
Definition to_string (b : bytes) : result jstr := Ok (utf8_decode b).
(** The receiver's braid state is waiting to be written. *)
Definition waiting : store := mkStore ∅ [(js "conv", mkPending v2 (Toy.pad 32 (x00 :: root)) true)].
End ToyClients.
Import ToySpqr ToyClients.

Lemma toy_conv : sid_ok (js "conv").
Proof. split; [reflexivity|]. apply (bool_decide_unpack _). exact I. Qed.

Lemma toy_client_ok q : client_ok (zeros 32) (fresh q).
Proof. split; [exact toy_store_ok|exact fresh_ok]. Qed.

Lemma toy_waiting_ok : store_ok (zeros 32) waiting.
Proof.
  split.
  - intros sid e. cbn. case_bool_decide; [|done]. intros [= <-]. cbn. vm_compute. split; discriminate.
  - intros key r. unfold open_row. cbn. by rewrite lookup_empty.
Qed.

Lemma spqr_message_roundtrip_witness :
  exists h ct cB', fst (encryptSpqrMessage (Some (zeros 32)) rnd "conv" (view_with root A2B) 5 (js "hi") (fresh (p root A2B)))
      = Ok (Some (h, ct, x01 :: x07 :: zeros 30)) /\
    decryptSpqrMessage (Some (zeros 32)) to_string "conv" (Some "m1"%string) h ct 5 (fresh (p root B2A))
      = (Ok (Success (js "hi")), cB').
Proof.
  destruct (spqr_message_roundtrip to_string (zeros 32) (zeros 32) (fresh (p root A2B)) (fresh (p root B2A)) "conv"
    (view_with root A2B) (p root B2A) (Some "m1"%string) rnd 5 (js "hi")
    (Toy.pad 32 (x00 :: root)) (Toy.pad 32 (x00 :: root)) (Toy.pad 32 (x00 :: root)) [[x02]; [x03]] (x01 :: x07 :: zeros 30)
    (toy_client_ok _) (toy_client_ok _) toy_conv) as (h & ct & cA' & cB' & b' & He & _ & Hd & _).
  - split; [exact toy_seeds|reflexivity].
  - split; reflexivity.
  - reflexivity.
  - reflexivity.
  - reflexivity.
  - reflexivity.
  - reflexivity.
  - exists h, ct, cB'. rewrite He. split; [reflexivity|exact Hd].
Defined.

Lemma toy_rotate : fst (rotateSpqrStateForNewSession (Some (zeros 32)) ToyStore.nonce (js "conv") 5 waiting) = Ok tt.
Proof. vm_compute. reflexivity. Qed.

Lemma spqr_late_message_witness :
  exists h ct cB', decryptSpqrMessage (Some (zeros 32)) to_string "conv" None h ct 5
      (mkClient (device_of (p [x09] B2A))
        (snd (rotateSpqrStateForNewSession (Some (zeros 32)) ToyStore.nonce (js "conv") 5 waiting)) fresh_scratch)
      = (Ok (Success (js "hi")), cB').
Proof.
  destruct (spqr_late_message to_string (zeros 32) (zeros 32) (fresh (p root A2B))
    (mkClient (device_of (p root B2A)) waiting fresh_scratch) "conv" (view_with root A2B)
    (mkRecord v2 (Toy.pad 32 (x00 :: root)) 5 true) None rnd ToyStore.nonce 5 (js "hi")
    (Toy.pad 32 (x00 :: root)) (Toy.pad 32 (x00 :: root)) [[x02]; [x03]] (x01 :: x07 :: zeros 30)
    (snd (rotateSpqrStateForNewSession (Some (zeros 32)) ToyStore.nonce (js "conv") 5 waiting))
    (device_of (p [x09] B2A)) fresh_scratch (p [x09] B2A) (Toy.pad 32 (x00 :: [x09]))
    (toy_client_ok _) toy_waiting_ok fresh_ok toy_conv) as (h & ct & cA' & cB' & _ & Hd & _).
  - split; [exact toy_seeds|reflexivity].
  - intros k. reflexivity.
  - reflexivity.
  - reflexivity.
  - reflexivity.
  - split; reflexivity.
  - reflexivity.
  - reflexivity.
  - exact (eq_trans (surjective_pairing _) (f_equal (fun x => (x, _)) toy_rotate)).
  - reflexivity.
  - vm_compute. reflexivity.
  - vm_compute. reflexivity.
  - exists h, ct, cB'. exact Hd.
Defined.

(** A session on v2 whose peer declared v2. *)
Definition toy_v2 : Persisted :=
  mkPersisted (worker (p root A2B))
    (mkView None None None (Some (Some v2)) (Some (Some v2)) (Some (to_base64 root)) (Some A2B)).

Definition toy_send : result outgoing * client :=
  encrypt_any (Some (zeros 32)) rnd (sealed_payload (js "a") (js "k") true []) "conv" None toy_v2 None true false [] 5
    (js "hi") (fresh toy_v2).

Lemma v2_only_with_proof_witness :
  exists r c', toy_send = (Ok r, c') /\
    match r with Wire2 _ _ _ => default None (peerAckRatchetVersion (view toy_v2)) = Some v2 | Wire1 _ => False end.
Proof.
  assert (Hok : match fst toy_send with Ok (Wire2 _ _ _) => true | _ => false end = true) by (vm_compute; reflexivity).
  destruct toy_send as [[r|e] c'] eqn:E; [|discriminate Hok]. exists r, c'. split; [reflexivity|].
  pose proof (v2_only_with_proof (Some (zeros 32)) rnd (sealed_payload (js "a") (js "k") true []) "conv" None toy_v2 None
    true false [] 5 (js "hi") (fresh toy_v2) r c' E) as Hp.
  destruct r as [w|h ct x]; [discriminate Hok|]. exact (proj1 (proj2 Hp)).
Defined.
