(* ===== verification/PeerTrust.v ===== *)
(** Pins of peer identity keys: web/src/lib/peerIdentityTrust.ts. A key is trusted on
    first use, a changed key only waits until the user accepts it, and a proof of the
    key-transparency log that contradicts the served key closes the send gate. An
    observation reads the pins, asks the log (network and hashing, arbitrarily slow)
    and writes later; the system at the end interleaves these parts. Pins are the
    decrypted map of the sealed row; while the vault is locked the row cannot be read
    or written. *)
From S2P Require Import Prelude DrSession.
Import Client.

Module PeerTrust.

Definition KT_CONFIRMATION_TTL_MS : Z := 24 * 60 * 60 * 1000.

Record PeerIdentityTrust := mkTrust {
  trustedKey : string; firstSeenAt : Z; previousKey : option string; changedAt : option Z;
  pendingKey : option string; ktVerifiedAt : option Z; ktKeyVersion : option Z;
  ktMismatch : option (string * string * Z); ktLastVerdict : option string; ktCheckedAt : option Z }.

Definition plain_pin (k : string) (at_ : Z) : PeerIdentityTrust :=
  mkTrust k at_ None None None None None None None None.

Inductive IdentityChangeSource := tofu | kt.
Inductive IdentityObservation :=
| New | Unchanged | Changed (trusted pending : string) (source : IdentityChangeSource).

(** The stored map, the pins of older versions, and whether the vault is locked. *)
Record vault := mkVault {
  pins : gmap string PeerIdentityTrust; legacy : gmap string string; locked : bool }.

Definition loadMap (v : vault) : gmap string PeerIdentityTrust := if locked v then ∅ else pins v.
Definition saveMap (m : gmap string PeerIdentityTrust) (v : vault) : vault :=
  if locked v then v else mkVault m (legacy v) (locked v).

Definition legacyTrustedKey (v : vault) (peerId : string) : option string := truthy_str (legacy v !! peerId).

Definition getPeerIdentityTrust (v : vault) (peerId : string) : option PeerIdentityTrust * vault :=
  match loadMap v !! peerId with
  | Some record => (Some record, v)
  | None =>
      match legacyTrustedKey v peerId with
      | None => (None, v)
      | Some key =>
          let adopted := plain_pin key 0 in
          (Some adopted, saveMap (<[peerId := adopted]> (loadMap v)) v)
      end
  end.

Record kt_result := mkKt { verdict : option string; keyVersion : option Z; logIdentityKey : option string }.

(** [username] is the one given or resolved; [answer] what the log check returns. *)
Definition checkLog (identityKey : string) (username : option string) (existing : option PeerIdentityTrust)
    (now : Z) (answer : result (string * option Z * option string)) : kt_result :=
  let fresh := match existing with
    | Some e => bool_decide (trustedKey e = identityKey)
                && match ktVerifiedAt e with Some t => now - t <? KT_CONFIRMATION_TTL_MS | None => false end
    | None => false end in
  if fresh then mkKt None None None else
  match truthy_str username with
  | None => mkKt (Some "unknown-subject"%string) None None
  | Some _ =>
      match answer with
      | Ok (status, kv, logKey) => mkKt (Some status) kv logKey
      | Err _ => mkKt (Some "unavailable"%string) None None
      end
  end.

Definition verdict_is (k : kt_result) (s : string) : bool := bool_decide (verdict k = Some s).

Definition rememberVerdict (v : vault) (peerId v_ : string) (kv : option Z) (now : Z) : vault :=
  let m := loadMap v in
  match m !! peerId with
  | None => v
  | Some rec =>
      if bool_decide (ktLastVerdict rec = Some v_) && negb (bool_decide (v_ = "confirmed"%string)) then v else
      let confirmed := bool_decide (v_ = "confirmed"%string) in
      saveMap (<[peerId := mkTrust (trustedKey rec) (firstSeenAt rec) (previousKey rec) (changedAt rec) (pendingKey rec)
          (if confirmed then Some now else ktVerifiedAt rec)
          (if confirmed then match kv with Some n => Some n | None => ktKeyVersion rec end else ktKeyVersion rec)
          (ktMismatch rec) (Some v_) (Some now)]> m) v
  end.

(** The verdict is remembered unless nothing was asked. *)
Definition observe_remember (v : vault) (peerId : string) (k : kt_result) (now : Z) : vault :=
  match verdict k with
  | Some s => if bool_decide (s = "unknown-subject"%string) then v else rememberVerdict v peerId s (keyVersion k) now
  | None => v
  end.

(** The writing part, from what was read at the start. *)
Definition observe_write (v : vault) (peerId identityKey : string) (existing : option PeerIdentityTrust)
    (k : kt_result) (now : Z) : IdentityObservation * vault :=
  let m := loadMap v in
  match existing with
  | None =>
      if verdict_is k "mismatch" then
        (Changed identityKey identityKey kt,
         match m !! peerId with
         | Some _ => v
         | None => saveMap (<[peerId := mkTrust identityKey now None (Some now) (Some identityKey) None None
             (Some (identityKey, default ""%string (logIdentityKey k), now)) (Some "mismatch"%string) (Some now)]> m) v
         end)
      else
        (New,
         match m !! peerId with
         | Some _ => v
         | None =>
             let confirmed := verdict_is k "confirmed" in
             let unavailable := verdict_is k "unavailable" in
             saveMap (<[peerId := mkTrust identityKey now None None None
               (if confirmed then Some now else None) (if confirmed then keyVersion k else None) None
               (if unavailable then Some "unavailable"%string else None)
               (if confirmed || unavailable then Some now else None)]> m) v
         end)
  | Some e =>
      if bool_decide (trustedKey e = identityKey) && negb (verdict_is k "mismatch") then
        (Unchanged,
         if match truthy_str (pendingKey e), ktMismatch e with None, None => false | _, _ => true end then
           match m !! peerId with
           | None => v
           | Some rec =>
               if negb (bool_decide (trustedKey rec = identityKey)) then v else
               if match ktMismatch rec with Some _ => negb (verdict_is k "confirmed") | None => false end then v else
               saveMap (<[peerId := mkTrust (trustedKey rec) (firstSeenAt rec) (previousKey rec) None None
                 (ktVerifiedAt rec) (ktKeyVersion rec) None (ktLastVerdict rec) (ktCheckedAt rec)]> m) v
           end
         else v)
      else
        let fromKt := verdict_is k "mismatch" in
        let rec := default (plain_pin (trustedKey e) now) (m !! peerId) in
        (Changed (trustedKey e) identityKey (if fromKt then kt else tofu),
         saveMap (<[peerId := mkTrust (trustedKey e) (firstSeenAt rec) (previousKey rec) (Some now) (Some identityKey)
           (ktVerifiedAt rec) (ktKeyVersion rec)
           (if fromKt then Some (identityKey, default ""%string (logIdentityKey k), now)
            else if verdict_is k "confirmed" then None else ktMismatch rec)
           (ktLastVerdict rec) (ktCheckedAt rec)]> m) v)
  end.

(** Nothing else happens in between. *)
Definition observePeerIdentityKey (v : vault) (peerId identityKey : string) (username : option string)
    (answer : result (string * option Z * option string)) (now : Z) : IdentityObservation * vault :=
  if bool_decide (peerId = ""%string) || bool_decide (identityKey = ""%string) then (Unchanged, v) else
  let '(existing, v) := getPeerIdentityTrust v peerId in
  let k := checkLog identityKey username existing now answer in
  observe_write (observe_remember v peerId k now) peerId identityKey existing k now.

Definition pending_change (rec : PeerIdentityTrust) : bool :=
  match ktMismatch rec with
  | Some _ => true
  | None => match truthy_str (pendingKey rec) with
            | Some p => negb (bool_decide (p = trustedKey rec)) | None => false end
  end.

(** The send gate is closed while this holds. *)
Definition hasPendingPeerIdentityChange (v : vault) (peerId : string) : bool :=
  match (getPeerIdentityTrust v peerId).1 with Some rec => pending_change rec | None => false end.

Definition listPendingPeerIdentityChanges (v : vault) : list (string * string * string * Z * IdentityChangeSource) :=
  map (fun '(peerId, rec) =>
      (peerId, trustedKey rec, default (trustedKey rec) (pendingKey rec),
       match changedAt rec with Some t => t | None => match ktMismatch rec with Some (_, _, t) => t | None => 0 end end,
       match ktMismatch rec with Some _ => kt | None => tofu end))
    (filter (fun pr => pending_change pr.2 = true) (map_to_list (loadMap v))).

Definition listKtUnavailablePeers (v : vault) : list (string * Z) :=
  map (fun '(peerId, rec) => (peerId, default 0 (ktCheckedAt rec)))
    (filter (fun pr => ktLastVerdict pr.2 = Some "unavailable"%string) (map_to_list (loadMap v))).

Definition getKtMismatch (v : vault) (peerId : string) : option (string * string * Z) :=
  (getPeerIdentityTrust v peerId).1 ≫= ktMismatch.

Definition acceptPendingPeerIdentity (v : vault) (peerId : string) (now : Z) : option string * vault :=
  let m := loadMap v in
  match m !! peerId with
  | None => (None, v)
  | Some rec =>
      let hasPending := match truthy_str (pendingKey rec) with
        | Some p => negb (bool_decide (p = trustedKey rec)) | None => false end in
      if negb hasPending && match ktMismatch rec with None => true | Some _ => false end then (None, v) else
      let accepted := if hasPending then default ""%string (pendingKey rec) else trustedKey rec in
      (Some accepted,
       saveMap (<[peerId := mkTrust accepted (if firstSeenAt rec =? 0 then now else firstSeenAt rec)
         (Some (trustedKey rec)) (Some (default now (changedAt rec))) None None None None
         (match ktMismatch rec with Some _ => Some "mismatch-acknowledged"%string | None => ktLastVerdict rec end)
         (ktCheckedAt rec)]> m) v)
  end.

Definition clearPeerIdentityTrust (v : vault) : vault := mkVault ∅ (legacy v) (locked v).

End PeerTrust.
Import PeerTrust.

(** ** Observations in flight *)
Record flight := mkFlight {
  f_peer : string; f_key : string; f_existing : option PeerIdentityTrust; f_kt : kt_result; f_now : Z }.

(** [pinned] records which keys a peer has had a right to: its pin of an older
    version, the key of its first contact, and the keys the user accepted. *)
Record system := mkSystem { store_ : vault; flights : list flight; pinned : gset (string * string) }.

Inductive event :=
| Start (peer key : string) | Remember | Finish (f : flight) (o : IdentityObservation) | Accept (peer : string) | Clear.

Inductive step : system -> event -> system -> Prop :=
| step_start v fs g peer key existing v' username answer now :
    peer <> ""%string -> key <> ""%string -> getPeerIdentityTrust v peer = (existing, v') ->
    step (mkSystem v fs g) (Start peer key)
      (mkSystem v' (mkFlight peer key existing (checkLog key username existing now answer) now :: fs)
        (match loadMap v !! peer, existing with None, Some e => {[(peer, trustedKey e)]} ∪ g | _, _ => g end))
| step_remember v fs g f :
    f ∈ fs ->
    step (mkSystem v fs g) Remember (mkSystem (observe_remember v (f_peer f) (f_kt f) (f_now f)) fs g)
| step_finish v fs1 fs2 g f o v' :
    observe_write v (f_peer f) (f_key f) (f_existing f) (f_kt f) (f_now f) = (o, v') ->
    step (mkSystem v (fs1 ++ f :: fs2) g) (Finish f o)
      (mkSystem v' (fs1 ++ fs2)
        (match loadMap v !! f_peer f, f_existing f with None, None => {[(f_peer f, f_key f)]} ∪ g | _, _ => g end))
| step_accept v fs g peer now accepted v' :
    acceptPendingPeerIdentity v peer now = (accepted, v') ->
    step (mkSystem v fs g) (Accept peer)
      (mkSystem v' fs (match accepted with Some k => {[(peer, k)]} ∪ g | None => g end))
| step_clear v fs g : step (mkSystem v fs g) Clear (mkSystem (clearPeerIdentityTrust v) fs g).

Definition moves (x y : system) : Prop := exists e, step x e y.

Definition initial (leg : gmap string string) : system := mkSystem (mkVault ∅ leg false) [] ∅.

Record trust_inv (x : system) : Prop := {
  inv_open : locked (store_ x) = false;
  inv_pins : forall p r, pins (store_ x) !! p = Some r -> (p, trustedKey r) ∈ pinned x;
  inv_flights : forall f e, f ∈ flights x -> f_existing f = Some e -> (f_peer f, trustedKey e) ∈ pinned x }.

(** *** What each part changes *)
Lemma save_open m v : locked v = false -> saveMap m v = mkVault m (legacy v) false /\ loadMap v = pins v.
Proof. intros Hl. unfold saveMap, loadMap. by rewrite Hl. Qed.

Lemma get_trust v p existing v' : locked v = false -> getPeerIdentityTrust v p = (existing, v') ->
  locked v' = false /\ pins v' !! p = existing /\ forall q, p <> q -> pins v' !! q = pins v !! q.
Proof.
  intros Hl. unfold getPeerIdentityTrust. destruct (save_open (pins v) v Hl) as [_ Hlm]. rewrite Hlm.
  destruct (pins v !! p) as [r|] eqn:E; [by intros [= <- <-]|].
  destruct (legacyTrustedKey v p) as [k|]; [|by intros [= <- <-]].
  intros [= <- <-]. rewrite (proj1 (save_open _ v Hl)). split_and!; [done|apply lookup_insert_eq|].
  intros q Hq. by apply lookup_insert_ne.
Qed.

Lemma remember_trust v p k now : locked v = false ->
  let v' := observe_remember v p k now in
  locked v' = false /\ (forall q, q <> p -> pins v' !! q = pins v !! q) /\
  match pins v !! p, pins v' !! p with
  | Some r, Some r' => trustedKey r' = trustedKey r /\ pendingKey r' = pendingKey r /\ ktMismatch r' = ktMismatch r
  | None, None => True
  | _, _ => False
  end.
Proof.
  intros Hl. cbv zeta. unfold observe_remember, rememberVerdict. destruct (save_open (pins v) v Hl) as [_ Hlm]. rewrite Hlm.
  assert (Hsame : locked v = false /\ (forall q, q <> p -> pins v !! q = pins v !! q) /\
    match pins v !! p, pins v !! p with Some r, Some r' => trustedKey r' = trustedKey r /\ pendingKey r' = pendingKey r
      /\ ktMismatch r' = ktMismatch r | None, None => True | _, _ => False end).
  { split_and!; [done..|]. by destruct (pins v !! p). }
  destruct (verdict k) as [s|]; [|exact Hsame]. case_bool_decide; [exact Hsame|].
  destruct (pins v !! p) as [r|] eqn:E; [|by rewrite E]. destruct (_ && _); [by rewrite E|].
  rewrite (proj1 (save_open _ v Hl)). cbn [pins]. split_and!; [done| |].
  - intros q Hq. by rewrite lookup_insert_ne.
  - by rewrite lookup_insert_eq.
Qed.

(** The only pin a write touches is the observed peer's; its trusted key is the one
    read at the start, the one it had, or, on first contact, the observed key. *)
Lemma write_trust v p key existing k now o v' : locked v = false ->
  observe_write v p key existing k now = (o, v') ->
  locked v' = false /\ (forall q, q <> p -> pins v' !! q = pins v !! q) /\
  forall r', pins v' !! p = Some r' ->
    (exists e, existing = Some e /\ trustedKey r' = trustedKey e) \/
    (exists r, pins v !! p = Some r /\ trustedKey r' = trustedKey r) \/
    (pins v !! p = None /\ existing = None /\ trustedKey r' = key).
Proof.
  intros Hl Hw. destruct (save_open (pins v) v Hl) as [_ Hlm].
  assert (Hcase : v' = v \/ exists r0, v' = saveMap (<[p := r0]> (pins v)) v /\
    ((exists e, existing = Some e /\ trustedKey r0 = trustedKey e) \/
     (exists r, pins v !! p = Some r /\ trustedKey r0 = trustedKey r) \/
     (pins v !! p = None /\ existing = None /\ trustedKey r0 = key))).
  { unfold observe_write in Hw. rewrite Hlm in Hw. destruct existing as [e|].
    - destruct (bool_decide (trustedKey e = key) && negb (verdict_is k "mismatch")).
      + destruct (match truthy_str (pendingKey e), ktMismatch e with None, None => false | _, _ => true end); [|by simplify_eq; left].
        destruct (pins v !! p) as [r|]; [|by simplify_eq; left].
        destruct (negb (bool_decide (trustedKey r = key))); [by simplify_eq; left|].
        destruct (match ktMismatch r with Some _ => negb (verdict_is k "confirmed") | None => false end); [by simplify_eq; left|].
        injection Hw as <- <-. right. eexists. split; [done|]. right. left. by exists r.
      + injection Hw as <- <-. right. eexists. split; [done|]. left. by exists e.
    - destruct (verdict_is k "mismatch"); (destruct (pins v !! p) as [r|]; [by simplify_eq; left|]);
        injection Hw as <- <-; right; eexists; (split; [done|]); by do 2 right. }
  destruct Hcase as [->|(r0 & -> & Hr)]; [by eauto 10|].
  rewrite (proj1 (save_open _ v Hl)). cbn [pins locked]. split_and!; [done| |].
  - intros q Hq. by rewrite lookup_insert_ne.
  - rewrite lookup_insert_eq. by intros r' [= <-].
Qed.

Lemma accept_trust v p now accepted v' : locked v = false -> acceptPendingPeerIdentity v p now = (accepted, v') ->
  locked v' = false /\ (forall q, q <> p -> pins v' !! q = pins v !! q) /\
  forall r', pins v' !! p = Some r' -> accepted = Some (trustedKey r') \/ pins v !! p = Some r'.
Proof.
  intros Hl. destruct (save_open (pins v) v Hl) as [_ Hlm]. unfold acceptPendingPeerIdentity. rewrite Hlm.
  destruct (pins v !! p) as [r|] eqn:E; [|intros [= <- <-]; rewrite E; by eauto].
  destruct (_ && _); [intros [= <- <-]; rewrite E; by eauto|]. intros [= <- <-].
  rewrite (proj1 (save_open _ v Hl)). cbn [pins locked]. split_and!; [done| |].
  - intros q Hq. by rewrite lookup_insert_ne.
  - rewrite lookup_insert_eq. intros r' [= <-]. by left.
Qed.

Lemma trust_step x y : trust_inv x -> moves x y -> trust_inv y.
Proof.
  intros [Hl Hp Hf] [ev Hs]. destruct Hs as [v fs g peer key existing v' username answer now Hne Hke Hget
      |v fs g f Hin|v fs1 fs2 g f o v' Hw|v fs g peer now accepted v' Ha|v fs g]; cbn [store_ flights pinned] in *.
  - destruct (save_open (pins v) v Hl) as [_ ->]. destruct (get_trust v peer existing v' Hl Hget) as (Hl' & Hpe & Hoth).
    assert (Hsub : forall q, q ∈ g -> q ∈ (match pins v !! peer, existing with None, Some e => {[(peer, trustedKey e)]} ∪ g | _, _ => g end))
      by (intros q Hq; destruct (pins v !! peer), existing; set_solver).
    assert (Hnew : forall e, existing = Some e -> (peer, trustedKey e) ∈
        (match pins v !! peer, existing with None, Some e => {[(peer, trustedKey e)]} ∪ g | _, _ => g end)).
    { intros e ->. destruct (pins v !! peer) as [r|] eqn:E; [|set_solver].
      unfold getPeerIdentityTrust in Hget. rewrite (proj2 (save_open (pins v) v Hl)), E in Hget.
      injection Hget as -> <-. by apply Hp. }
    split; cbn [store_ flights pinned]; [done| |].
    + intros q r Hq. destruct (decide (peer = q)) as [<-|Hpq]; [apply Hnew; congruence|].
      apply Hsub, Hp. by rewrite <- Hoth.
    + intros f e [->|Hin]%elem_of_cons He; [by apply Hnew|]. apply Hsub. by eapply Hf.
  - destruct (remember_trust v (f_peer f) (f_kt f) (f_now f) Hl) as (Hl' & Hoth & Hsame).
    split; cbn [store_ flights pinned]; [done| |done]. intros q r Hq.
    destruct (decide (q = f_peer f)) as [->|Hpq]; [|apply Hp; by rewrite <- Hoth].
    rewrite Hq in Hsame. destruct (pins v !! f_peer f) as [r0|] eqn:E; [|done]. destruct Hsame as [-> _]. by apply Hp.
  - destruct (save_open (pins v) v Hl) as [_ ->]. destruct (write_trust _ _ _ _ _ _ _ _ Hl Hw) as (Hl' & Hoth & Hcase).
    assert (Hsub : forall q, q ∈ g -> q ∈ (match pins v !! f_peer f, f_existing f with None, None => {[(f_peer f, f_key f)]} ∪ g | _, _ => g end))
      by (intros q Hq; destruct (pins v !! f_peer f), (f_existing f); set_solver).
    split; cbn [store_ flights pinned]; [done| |].
    + intros q r Hq. destruct (decide (q = f_peer f)) as [->|Hpq]; [|apply Hsub, Hp; by rewrite <- Hoth].
      destruct (Hcase r Hq) as [(e & He & ->)|[(r0 & Hr0 & ->)|(H1 & H2 & ->)]].
      * apply Hsub, Hf; [set_solver|done].
      * by apply Hsub, Hp.
      * rewrite H1, H2. set_solver.
    + intros f' e Hin He. apply Hsub. eapply Hf; [set_solver|done].
  - destruct (accept_trust _ _ _ _ _ Hl Ha) as (Hl' & Hoth & Hcase).
    split; cbn [store_ flights pinned]; [done| |].
    + intros q r Hq. destruct (decide (q = peer)) as [->|Hpq].
      * destruct (Hcase r Hq) as [->|Hold]; [set_solver|]. apply Hp in Hold. destruct accepted; set_solver.
      * rewrite Hoth in Hq by done. apply Hp in Hq. destruct accepted; set_solver.
    + intros f e Hin He. apply Hf in He; [|done]. destruct accepted; set_solver.
  - split; cbn [store_ flights pinned clearPeerIdentityTrust locked pins]; [done| |done].
    intros q r Hq. by rewrite lookup_empty in Hq.
Qed.


(** ** The send gate over a sequence of observations *)
Record observation := mkObs {
  o_peer : string; o_key : string; o_username : option string;
  o_answer : result (string * option Z * option string); o_now : Z }.

Definition observe (v : vault) (o : observation) : vault :=
  (observePeerIdentityKey v (o_peer o) (o_key o) (o_username o) (o_answer o) (o_now o)).2.
Definition observe_all : vault -> list observation -> vault := foldl observe.

Definition says_confirmed (o : observation) : Prop :=
  exists kv logKey, o_answer o = Ok ("confirmed"%string, kv, logKey).

(** The pin of [p] with trusted key [t] holds the gate closed. *)
Definition gate_closed (v : vault) (p t : string) (conflict : bool) : Prop :=
  locked v = false /\ exists r, pins v !! p = Some r /\ trustedKey r = t /\ pending_change r = true /\
    (conflict = true -> ktMismatch r <> None).

Lemma verdict_confirmed key u e now a : verdict_is (checkLog key u e now a) "confirmed" = true ->
  exists kv logKey, a = Ok ("confirmed"%string, kv, logKey).
Proof.
  unfold verdict_is, checkLog. intros H%bool_decide_eq_true.
  destruct (match e with Some _ => _ | None => false end); [done|]. destruct (truthy_str u); [|done].
  destruct a as [[[st kv] lk]|]; [|done]. cbn in H. injection H as ->. by eauto.
Qed.

Lemma truthy_nonempty k : k <> ""%string -> truthy_str (Some k) = Some k.
Proof. intros H. unfold truthy_str. destruct k; [done|reflexivity]. Qed.

(** A change the writing part reports closes the gate when nothing interfered. *)
Lemma write_changed v p key e k now : locked v = false -> key <> ""%string -> pins v !! p <> None ->
  bool_decide (trustedKey e = key) && negb (verdict_is k "mismatch") = false ->
  exists v', observe_write v p key (Some e) k now = (Changed (trustedKey e) key (if verdict_is k "mismatch" then kt else tofu), v') /\
    gate_closed v' p (trustedKey e) (verdict_is k "mismatch") /\
    (forall r, pins v !! p = Some r -> verdict_is k "confirmed" = false -> ktMismatch r <> None -> gate_closed v' p (trustedKey e) true).
Proof.
  intros Hl Hk Hp Hc. destruct (save_open (pins v) v Hl) as [_ Hlm]. unfold observe_write. rewrite Hlm, Hc.
  eexists. split; [reflexivity|]. unfold gate_closed. rewrite !(proj1 (save_open _ v Hl)). cbn [pins locked].
  destruct (pins v !! p) as [r|]; [|done]. cbn [default].
  rewrite !lookup_insert_eq. split.
  - split; [done|]. eexists. split; [done|]. cbn [trustedKey ktMismatch]. split; [done|].
    unfold pending_change. cbn [ktMismatch pendingKey trustedKey]. rewrite truthy_nonempty by done.
    destruct (verdict_is k "mismatch"); [done|]. split; [|done].
    rewrite andb_true_r in Hc. apply bool_decide_eq_false in Hc.
    destruct (if verdict_is k "confirmed" then _ else _); [done|]. apply negb_true_iff, bool_decide_eq_false. congruence.
  - intros r' [= <-] Hconf Hm. split; [done|]. eexists. split; [done|]. cbn [trustedKey ktMismatch]. split; [done|].
    unfold pending_change. cbn [ktMismatch]. rewrite Hconf.
    destruct (verdict_is k "mismatch"); [done|]. change (ktMismatch (id r)) with (ktMismatch r). by destruct (ktMismatch r).
Qed.

Lemma get_pinned v p r : locked v = false -> pins v !! p = Some r -> getPeerIdentityTrust v p = (Some r, v).
Proof. intros Hl Hp. unfold getPeerIdentityTrust. by rewrite (proj2 (save_open (pins v) v Hl)), Hp. Qed.

Lemma pending_same r r' : trustedKey r' = trustedKey r -> pendingKey r' = pendingKey r -> ktMismatch r' = ktMismatch r ->
  pending_change r' = pending_change r.
Proof. intros H1 H2 H3. unfold pending_change. by rewrite H1, H2, H3. Qed.

(** An observation of [p] as the parts it is made of, with the pin it finds. *)
Lemma observe_pinned v p key u a now r : locked v = false -> pins v !! p = Some r -> p <> ""%string -> key <> ""%string ->
  let k := checkLog key u (Some r) now a in
  exists v1 r1, observePeerIdentityKey v p key u a now = observe_write v1 p key (Some r) k now /\
    locked v1 = false /\ pins v1 !! p = Some r1 /\ trustedKey r1 = trustedKey r /\ pendingKey r1 = pendingKey r /\
    ktMismatch r1 = ktMismatch r.
Proof.
  intros Hl Hp Hpe Hke. cbv zeta. unfold observePeerIdentityKey. rewrite !bool_decide_eq_false_2 by done. cbn [orb].
  rewrite (get_pinned v p r) by done. set (k := checkLog _ _ _ _ _).
  destruct (remember_trust v p k now Hl) as (H1 & _ & H2). rewrite Hp in H2.
  destruct (pins (observe_remember v p k now) !! p) as [r1|] eqn:E; [|done].
  exists (observe_remember v p k now), r1. by destruct H2 as (? & ? & ?).
Qed.

(** Observing another peer leaves the pin. *)
Lemma observe_other v p q key u a now : locked v = false -> p <> q ->
  locked (observePeerIdentityKey v q key u a now).2 = false /\ pins (observePeerIdentityKey v q key u a now).2 !! p = pins v !! p.
Proof.
  intros Hl Hpq. unfold observePeerIdentityKey. destruct (_ || _); [done|].
  destruct (getPeerIdentityTrust v q) as [existing v1] eqn:Eg.
  destruct (get_trust _ _ _ _ Hl Eg) as (Hl1 & _ & Ho1). set (k := checkLog _ _ _ _ _).
  destruct (remember_trust v1 q k now Hl1) as (Hl2 & Ho2 & _).
  destruct (observe_write (observe_remember v1 q k now) q key existing k now) as [o v2] eqn:Ew.
  destruct (write_trust _ _ _ _ _ _ _ _ Hl2 Ew) as (Hl3 & Ho3 & _). cbn [snd].
  split; [done|]. rewrite Ho3, Ho2 by done. apply Ho1. congruence.
Qed.

(** The trusted key with a conflict on record that the log does not settle. *)
Lemma write_conflict v p key e k now r : locked v = false -> pins v !! p = Some r -> ktMismatch r <> None ->
  verdict_is k "confirmed" = false -> bool_decide (trustedKey e = key) && negb (verdict_is k "mismatch") = true ->
  (observe_write v p key (Some e) k now).2 = v.
Proof.
  intros Hl Hp Hm Hc Hb. unfold observe_write. rewrite (proj2 (save_open (pins v) v Hl)), Hp, Hb, Hc. cbn [snd].
  destruct (match truthy_str (pendingKey e) with Some _ => _ | None => _ end); [|done].
  destruct (negb (bool_decide (trustedKey r = key))); [done|]. by destruct (ktMismatch r).
Qed.

(** What an observation must be for the gate on [t] to stay closed. *)
Definition keeps_gate (t : string) (conflict : bool) (o : observation) : Prop :=
  if conflict then ~ says_confirmed o else o_key o <> t.

Lemma gate_step v p t c o : gate_closed v p t c -> keeps_gate t c o -> gate_closed (observe v o) p t c.
Proof.
  intros (Hl & r & Hp & Ht & Hpend & Hconf) Hk. unfold observe.
  destruct (decide (p = o_peer o)) as [->|Hpq].
  2:{ destruct (observe_other v p (o_peer o) (o_key o) (o_username o) (o_answer o) (o_now o) Hl Hpq) as [H1 H2].
      split; [done|]. exists r. rewrite H2. by split_and!. }
  destruct (decide (o_peer o = ""%string)) as [Hpe|Hpe].
  { unfold observePeerIdentityKey. rewrite (bool_decide_eq_true_2 _ Hpe). cbn. split; [done|]. by exists r. }
  destruct (decide (o_key o = ""%string)) as [Hke|Hke].
  { unfold observePeerIdentityKey. rewrite (bool_decide_eq_true_2 _ Hke), orb_true_r. cbn. split; [done|]. by exists r. }
  destruct (observe_pinned v (o_peer o) (o_key o) (o_username o) (o_answer o) (o_now o) r Hl Hp Hpe Hke)
    as (v1 & r1 & -> & Hl1 & Hp1 & Ht1 & Hpk1 & Hm1).
  set (k := checkLog _ _ _ _ _). assert (Hnc : c = true -> verdict_is k "confirmed" = false).
  { intros ->. destruct (verdict_is k "confirmed") eqn:E; [|done]. exfalso. by eapply Hk, verdict_confirmed. }
  destruct (bool_decide (trustedKey r = o_key o) && negb (verdict_is k "mismatch")) eqn:Hb.
  - destruct c; cbn in Hk; [|apply andb_prop in Hb as [Hb%bool_decide_eq_true _]; congruence].
    rewrite (write_conflict v1 _ _ r k _ r1 Hl1 Hp1) by (rewrite ?Hm1; auto).
    split; [done|]. exists r1. rewrite Hm1. split_and!; [done|congruence| |done]. rewrite <- Hpend. by apply pending_same.
  - destruct (write_changed v1 (o_peer o) (o_key o) r k (o_now o) Hl1 Hke) as (v' & -> & Hg & Hg2); [by rewrite Hp1|done|].
    cbn [snd]. rewrite Ht in Hg, Hg2. destruct c.
    + apply (Hg2 r1 Hp1); [auto|]. rewrite Hm1. auto.
    + destruct Hg as (H1 & r' & H2 & H3 & H4 & _). split; [done|]. by exists r'.
Qed.

Lemma observe_changed v p key u a now t q src v' : locked v = false ->
  observePeerIdentityKey v p key u a now = (Changed t q src, v') ->
  q = key /\ gate_closed v' p t (if src is kt then true else false).
Proof.
  intros Hl. unfold observePeerIdentityKey. destruct (bool_decide (p = ""%string)) eqn:Hpe; [done|].
  destruct (bool_decide (key = ""%string)) eqn:Hke; [done|]. cbn [orb]. apply bool_decide_eq_false in Hke.
  destruct (getPeerIdentityTrust v p) as [existing v1] eqn:Eg. destruct (get_trust _ _ _ _ Hl Eg) as (Hl1 & Hp1 & _).
  set (k := checkLog _ _ _ _ _). destruct (remember_trust v1 p k now Hl1) as (Hl2 & _ & Hr). rewrite Hp1 in Hr.
  set (v2 := observe_remember v1 p k now) in *. destruct existing as [e|].
  - destruct (bool_decide (trustedKey e = key) && negb (verdict_is k "mismatch")) eqn:Hb.
    { unfold observe_write. rewrite Hb. by destruct (match truthy_str (pendingKey e), ktMismatch e with None, None => false | _, _ => true end). }
    destruct (write_changed v2 p key e k now Hl2 Hke) as (v3 & -> & Hg & _); [by destruct (pins v2 !! p)|done|].
    intros [= <- <- <- <-]. split; [done|]. by destruct (verdict_is k "mismatch").
  - destruct (pins v2 !! p) as [r|] eqn:E; [done|]. unfold observe_write.
    rewrite (proj2 (save_open (pins v2) v2 Hl2)), E. destruct (verdict_is k "mismatch"); [|done].
    intros [= <- <- <- <-]. split; [done|]. rewrite (proj1 (save_open _ v2 Hl2)). split; [done|].
    eexists. cbn [pins]. rewrite lookup_insert_eq. split; [done|]. by split_and!.
Qed.


(** An observation that read the pin before the user accepted a new key and writes
    after it takes the acceptance back: the old key is the trusted one again and the
    observed key is pending. *)
Theorem stale_observation_reverts v p key r a v1 k now now' : locked v = false ->
  pins v !! p = Some r -> key <> trustedKey r ->
  acceptPendingPeerIdentity v p now = (Some a, v1) -> a <> trustedKey r ->
  (exists ra, pins v1 !! p = Some ra /\ trustedKey ra = a) /\
  exists o v2 r2, observe_write v1 p key (Some r) k now' = (o, v2) /\
    pins v2 !! p = Some r2 /\ trustedKey r2 = trustedKey r /\ pendingKey r2 = Some key.
Proof.
  intros Hl Hp Hk Hacc Ha. destruct (accept_trust _ _ _ _ _ Hl Hacc) as (Hl1 & _ & _).
  assert (Hra : exists ra, pins v1 !! p = Some ra /\ trustedKey ra = a).
  { unfold acceptPendingPeerIdentity in Hacc. rewrite (proj2 (save_open (pins v) v Hl)), Hp in Hacc.
    destruct (negb _ && _); [done|]. injection Hacc as <- <-. rewrite (proj1 (save_open _ v Hl)). cbn [pins].
    rewrite lookup_insert_eq. by eexists. }
  split; [done|]. unfold observe_write. rewrite bool_decide_eq_false_2 by congruence. cbn [andb].
  do 3 eexists. split; [reflexivity|]. rewrite (proj1 (save_open _ v1 Hl1)). cbn [pins]. rewrite lookup_insert_eq. by split_and!.
Qed.

(** A first contact whose conflict with the log is known only after another observation
    pinned the key reports the conflict and records nothing. *)
Lemma late_mismatch_lost v p key k now r : locked v = false -> pins v !! p = Some r -> verdict_is k "mismatch" = true ->
  observe_write v p key None k now = (Changed key key kt, v).
Proof. intros Hl Hp Hk. unfold observe_write. by rewrite Hk, (proj2 (save_open (pins v) v Hl)), Hp. Qed.

(** ** Witnesses *)
Definition vault1 : vault := mkVault (<["bob"%string := plain_pin "K1" 5]> ∅) ∅ false.



Lemma stale_observation_reverts_witness :
  let v := (observePeerIdentityKey vault1 "bob" "K2" None (Err "offline"%string) 9).2 in
  exists r v1, acceptPendingPeerIdentity v "bob" 11 = (Some "K2"%string, v1) /\
  (exists ra, pins v1 !! "bob"%string = Some ra /\ trustedKey ra = "K2"%string) /\
  exists o v2 r2, observe_write v1 "bob" "K2" (Some r) (mkKt None None None) 12 = (o, v2) /\
    pins v2 !! "bob"%string = Some r2 /\ trustedKey r2 = trustedKey r /\ pendingKey r2 = Some "K2"%string.
Proof.
  intros v. destruct (pins v !! "bob"%string) as [r|] eqn:E; [|vm_compute in E; discriminate].
  exists r, (acceptPendingPeerIdentity v "bob" 11).2.
  assert (Ha : acceptPendingPeerIdentity v "bob" 11 = (Some "K2"%string, (acceptPendingPeerIdentity v "bob" 11).2)) by (vm_compute; reflexivity).
  assert (Ht : trustedKey r = "K1"%string) by (vm_compute in E; injection E as <-; reflexivity).
  split; [exact Ha|].
  refine (stale_observation_reverts v "bob" "K2" r "K2" _ (mkKt None None None) 11 12 eq_refl E _ Ha _); rewrite Ht; discriminate.
Defined.
