(* ===== verification/GroupEpoch.v ===== *)
(** The rotation of a group's epoch by an admin's client: groupEpochPolicy.ts (when),
    groupEpochRotation.ts (how, and what is remembered), groupMetadataRotation.ts and
    the part of utils/crypto.ts it calls ([rotateGroupKey], and what
    [encryptGroupMetadata] does before it seals), over the endpoints of GroupAccess and
    a network that loses requests and answers. *)
From S2P Require Import Prelude Bytes Base64 Utf8 Text Js JsDate PqWire Sodium LocalAtRest Json AtRest StateErr Membership GroupAccess.
Import GroupTokens Routing LocalAtRest GroupAccess.

Module GroupEpoch.

(** ** groupEpochPolicy.ts *)
Definition GROUP_EPOCH_MAX_AGE_MS : Z := 24 * 60 * 60 * 1000.
Definition GROUP_EPOCH_MAX_MESSAGES : Z := 500.
Record ServerEpochState := mkServerEpoch { se_rotatedAt : option Z; se_createdAt : option Z; se_messageSeq : option Z }.
Record LocalEpochState := mkLocalEpoch { le_rotatedAt : option Z; le_messageSeq : option Z }.
Inductive EpochRotationReason := age | messages.
Inductive EpochRotationDecision := Rotate (reason : EpochRotationReason) | Keep.

Definition is_due (d : EpochRotationDecision) : bool := match d with Rotate _ => true | Keep => false end.
Definition positive (value : option Z) : Z := match value with Some n => if 0 <? n then n else 0 | None => 0 end.
Definition decideEpochRotation (now : Z) (server : ServerEpochState) (local : option LocalEpochState)
    (maxAgeMs maxMessages : option Z) : EpochRotationDecision :=
  let maxAgeMs := default GROUP_EPOCH_MAX_AGE_MS maxAgeMs in
  let maxMessages := default GROUP_EPOCH_MAX_MESSAGES maxMessages in
  let latest := Z.max (Z.max (positive (se_rotatedAt server)) (positive (local ≫= le_rotatedAt))) (positive (se_createdAt server)) in
  let anchor := if latest =? 0 then now else latest in
  let messageBaseline := positive (local ≫= le_messageSeq) in
  let messagesSince := positive (se_messageSeq server) - messageBaseline in
  if maxMessages <=? messagesSince then Rotate messages
  else if maxAgeMs <=? now - anchor then Rotate age
  else Keep.

(** ** Roles (types.ts) *)
Inductive GroupRole := OWNER | ADMIN | MEMBER.
Definition isGroupRole (value : jsval) : option GroupRole :=
  match value with
  | JStr s => if bool_decide (s = js "OWNER") then Some OWNER else if bool_decide (s = js "ADMIN") then Some ADMIN
              else if bool_decide (s = js "MEMBER") then Some MEMBER else None
  | _ => None
  end.
Definition GROUP_ROLE_RANK (r : GroupRole) : Z := match r with OWNER => 3 | ADMIN => 2 | MEMBER => 1 end.
Definition roleAtLeast (role minimum : GroupRole) : bool := GROUP_ROLE_RANK minimum <=? GROUP_ROLE_RANK role.
Record GroupMemberEntry := mkEntry { ge_userId : jstr; ge_role : GroupRole; ge_joinedAtGeneration : Z; ge_profileKey : option jstr }.
Definition parseGroupMember (raw : jsval) : option GroupMemberEntry :=
  match raw with
  | JObj _ =>
      match prop raw "userId" with
      | JStr ((_ :: _) as userId) =>
          Some (mkEntry userId (default MEMBER (isGroupRole (prop raw "role")))
            (match prop raw "joinedAtGeneration" with JNum n => n | _ => 0 end)
            (match prop raw "profileKey" with JStr ((_ :: _) as k) => Some k | _ => None end))
      | _ => None
      end
  | _ => None
  end.
Definition parseGroupMembers (input : jsval) : list GroupMemberEntry :=
  match input with JArr l => omap parseGroupMember l | _ => [] end.

(** ** groupMetadataRotation.ts

    Metadata is the object that decryption read from JSON. *)
Definition fields_of (v : jsval) : list (jstr * jsval) := match v with JObj f => f | _ => [] end.
Definition without (k : jstr) (f : list (jstr * jsval)) : list (jstr * jsval) := List.filter (fun x => negb (bool_decide (x.1 = k))) f.
Definition spread (a b : list (jstr * jsval)) : list (jstr * jsval) := foldl (fun m x => map_set x.1 x.2 m) a b.
Definition generation_of (v : jsval) : Z := match prop v "generation" with JNum n => n | _ => 0 end.
(** The entries of [existing.members ?? []]; [map] is called on an array only. *)
Definition member_entries (v : jsval) : result (list jsval) :=
  match prop v "members" with
  | JUndef | JNull => Ok []
  | JArr l => if forallb (fun m => match m with JNull => false | _ => true end) l then Ok l else throw "TypeError: userId of null"
  | _ => throw "TypeError: map is not a function"
  end.
(** [new Map(...).get(userId)]: of several entries for a user the last. *)
Definition prev_entry (l : list jsval) (userId : jstr) : option jsval :=
  List.find (fun m => match prop m "userId" with JStr u => bool_decide (u = userId) | _ => false end) (rev l).
Definition new_entry (userId : jstr) (generation : Z) : jsval :=
  JObj [(js "userId", JStr userId); (js "role", JStr (js "MEMBER")); (js "joinedAtGeneration", JNum generation)].
Definition buildRotatedGroupMetadata (existing : jsval) (participantIds : list jstr) (deliveryTokens : list (jstr * jsval))
  : result (jsval * Z) :=
  let prevGeneration := generation_of existing in
  let generation := prevGeneration + 1 in
  prev ← member_entries existing;
  let members := map (fun userId => default (new_entry userId generation) (prev_entry prev userId)) participantIds in
  let source := without (js "pseudonymMap") (fields_of existing) in
  Ok (JObj (spread source
        [(js "participants", JArr (map JStr participantIds)); (js "v", JNum 3); (js "generation", JNum prevGeneration);
         (js "deliveryTokenMap", JObj (spread (fields_of (prop existing "deliveryTokenMap")) deliveryTokens));
         (js "members", JArr members)]),
      generation).

(** ** The client

    A conversation of the store, with what the rotation reads of it. *)
Record store_conv := mkStoreConv {
  sc_id : jstr; sc_adminToken : option jstr; sc_decryptedMetadata : option jsval; sc_participants : list jstr }.
(** The Map [memory] of the module and the row of kvStore under nyx_group_epoch_state,
    whose values are sealed; [masterSeed] is [None] while the vault is locked. *)
Record client := mkClient {
  cl_userId : option jstr; cl_conversations : list store_conv; cl_memory : list (jstr * jsval);
  cl_kv : option (list (jstr * jstr)); cl_masterSeed : option bytes }.
(** What leaves the rotation towards stores and peers not modelled here. *)
Inductive effect :=
| UpdateConversation (id : jstr) (encryptedMetadata : jstr)
| EmitMetadataUpdated (id : jstr) (encryptedMetadata : jstr) (recipients : list jstr) (sender : option jstr) (adminToken : option jstr)
| MarkKeyRotationNeeded (id : jstr) (needed : bool)
| DistributeAdminToken (id : jstr) (userId : jstr) (adminToken : jstr).
Record world := mkWorld { w_server : server; w_client : client; w_log : list effect }.
Notation epochM := (stE world).

Definition find_conv (c : client) (id : jstr) : option store_conv := List.find (fun x => bool_decide (sc_id x = id)) (cl_conversations c).
Definition getMyAdminToken (c : client) (id : jstr) : option jstr := find_conv c id ≫= sc_adminToken.
Definition is_num (n : Z) (v : jsval) : bool := match v with JNum m => n =? m | _ => false end.
Definition v2_or_v3 (meta : jsval) : bool := is_num 2 (prop meta "v") || is_num 3 (prop meta "v").
Definition getGroupMembers (c : client) (id : jstr) : option (list GroupMemberEntry) :=
  meta ← find_conv c id ≫= sc_decryptedMetadata;
  if is_num 3 (prop meta "v") then Some (parseGroupMembers (prop meta "members")) else None.
Definition getMyGroupRole (c : client) (id : jstr) : option GroupRole :=
  match cl_userId c with
  | None | Some [] => None
  | Some myId => members ← getGroupMembers c id; ge_role <$> List.find (fun m => bool_decide (ge_userId m = myId)) members
  end.
Definition amIGroupAdmin (c : client) (id : jstr) : bool :=
  match getMyGroupRole c id with Some role => roleAtLeast role ADMIN | None => false end.
Definition getDeliveryTokenMap (c : client) (id : jstr) : option jsval :=
  meta ← find_conv c id ≫= sc_decryptedMetadata; if v2_or_v3 meta then Some (prop meta "deliveryTokenMap") else None.

Definition with_memory (m : list (jstr * jsval)) (c : client) : client :=
  mkClient (cl_userId c) (cl_conversations c) m (cl_kv c) (cl_masterSeed c).
Definition with_kv (kv : option (list (jstr * jstr))) (c : client) : client :=
  mkClient (cl_userId c) (cl_conversations c) (cl_memory c) kv (cl_masterSeed c).
Definition on_client (f : client -> client) (w : world) : world := mkWorld (w_server w) (f (w_client w)) (w_log w).
Definition log (e : effect) : epochM unit := modify (fun w => mkWorld (w_server w) (w_client w) (w_log w ++ [e])).

(** ** Requests: [authFetch] throws on an error status, and when the request or its
    answer is lost. *)
Inductive fate := Delivered | LostRequest | LostAnswer.
Definition authFetch {A} (f : fate) (endpoint : server -> http A * server) : epochM A := fun w =>
  match f with
  | LostRequest => (throw "Failed to fetch", w)
  | LostAnswer => (throw "Failed to fetch", mkWorld (endpoint (w_server w)).2 (w_client w) (w_log w))
  | Delivered =>
      (match (endpoint (w_server w)).1 with HOk a => Ok a | HErr _ error => throw error end,
       mkWorld (endpoint (w_server w)).2 (w_client w) (w_log w))
  end.
Definition catch {A} (c : epochM A) (h : epochM A) : epochM A := fun w =>
  match c w with (Err _, w') => h w' | r => r end.

(** What happens to one rotation from outside: the clocks of client and server, the
    fate of its requests, what the database and the random generators give, and what
    the code of utils/crypto.ts that is not modelled here returns or throws: deleting
    the sender state, sealing the prepared metadata ([ensureGroupSession] included),
    looking up the own pseudonym and sending the sender key again. *)
Record circumstances := mkCircumstances {
  k_decide : Z; k_write : Z; k_server_post : Z; k_server_put : Z;
  k_status : fate; k_post : fate; k_key_rotation : fate; k_put : fate;
  k_kv_get : result unit; k_kv_pending : result unit; k_kv_done : result unit;
  k_nonce_pending : bytes; k_nonce_done : bytes; k_token : jstr; k_pseudonyms : list jstr;
  k_deleteSender : result unit; k_seal : jsval -> result jstr; k_myPseudonym : result (option jstr);
  k_redistribute : result Z; k_ensureSession : result Z }.

Section Ops.
Context `{ServerCrypto, Sodium, MembershipDb}.
(** What an engine makes of a date in another format than [toISOString]'s. *)
Variable other_dates : jstr -> option Z.

(** ** The remembered state *)
Fixpoint open_states (masterSeed : option bytes) (sealed : list (jstr * jstr)) : option (list (jstr * jsval)) :=
  match sealed with
  | [] => Some []
  | (conversationId, value) :: rest =>
      match decryptValueAtRest masterSeed value with
      | None | Some [] => open_states masterSeed rest
      | Some plain =>
          match JSON_parse plain with
          | None => None
          | Some state => states ← open_states masterSeed rest; Some ((conversationId, state) :: states)
          end
      end
  end.
Definition loadStates (kv_get : result unit) (c : client) : list (jstr * jsval) :=
  match kv_get with
  | Ok _ => default [] (open_states (cl_masterSeed c) (default [] (cl_kv c)))
  | Err _ => []
  end.
Definition js_truthy (v : jsval) : bool :=
  match v with JUndef | JNull | JBool false | JStr [] => false | JNum n => negb (n =? 0) | _ => true end.
Definition readState (kv_get : result unit) (id : jstr) : epochM (option jsval) := fun w =>
  let c := w_client w in
  match assoc id (cl_memory c) with
  | Some state => (Ok (Some state), w)
  | None =>
      match assoc id (loadStates kv_get c) with
      | Some state => if js_truthy state then (Ok (Some state), on_client (with_memory (map_set id state (cl_memory c))) w)
                      else (Ok None, w)
      | None => (Ok None, w)
      end
  end.
(** [db] is what the transaction on kvStore does; a failed seal or write leaves the
    memory set. *)
Definition writeState (db : result unit) (nonce : bytes) (id : jstr) (state : option jsval) : epochM unit := fun w =>
  let m := cl_memory (w_client w) in
  let c := with_memory (match state with Some s => map_set id s m | None => List.filter (fun x => negb (bool_decide (x.1 = id))) m end)
             (w_client w) in
  let kv : result (list (jstr * jstr)) :=
    (_ ← db;
     let sealed := default [] (cl_kv c) in
     match state with
     | Some s => e ← encryptValueAtRest (cl_masterSeed c) nonce (JSON_stringify s); Ok (map_set id e sealed)
     | None => Ok (List.filter (fun x => negb (bool_decide (x.1 = id))) sealed)
     end) in
  (Ok tt, on_client (fun _ => match kv with Ok sealed => with_kv (Some sealed) c | Err _ => c end) w).

(** [StoredEpochState]: an absent token is not a field. *)
Definition stored_state (epoch rotatedAt messageSeq : Z) (pendingToken : option jstr) : jsval :=
  JObj ([(js "epoch", JNum epoch); (js "rotatedAt", JNum rotatedAt); (js "messageSeq", JNum messageSeq)] ++
        match pendingToken with Some t => [(js "pendingToken", JStr t)] | None => [] end).
Definition num_of (v : jsval) : option Z := match v with JNum n => Some n | _ => None end.
Definition local_of (state : jsval) : LocalEpochState :=
  mkLocalEpoch (num_of (prop state "rotatedAt")) (num_of (prop state "messageSeq")).
Definition pending_of (state : option jsval) : option jstr :=
  match state with Some s => match prop s "pendingToken" with JStr ((_ :: _) as t) => Some t | _ => None end | None => None end.

(** ** encryptGroupMetadata, up to the sealing *)
Fixpoint generatePseudonymMap (draws : list jstr) (participantIds : list jstr) (map_ : list (jstr * jsval)) : result (list (jstr * jsval)) :=
  match participantIds with
  | [] => Ok map_
  | uid :: rest =>
      match draws with
      | [] => throw "no more draws"
      | pseudo :: draws' =>
          if bool_decide (pseudo ∈ map_.*1) then generatePseudonymMap draws' participantIds map_
          else generatePseudonymMap draws' rest (map_set pseudo (JStr uid) map_)
      end
  end.
Definition texts_of (v : jsval) : list jstr := match v with JArr l => omap (fun x => match x with JStr s => Some s | _ => None end) l | _ => [] end.
Definition prepareGroupMetadata (draws : list jstr) (prevTokens : option jsval) (metadata : jsval) : result jsval :=
  metadata1 ←
    (if v2_or_v3 metadata && negb (js_truthy (prop metadata "pseudonymMap")) then
       pseudonymMap ← generatePseudonymMap draws (texts_of (prop metadata "participants")) [];
       Ok (JObj (spread (fields_of metadata) [(js "generation", JNum (generation_of metadata + 1)); (js "pseudonymMap", JObj pseudonymMap)]))
     else Ok metadata);
  Ok (if v2_or_v3 metadata1 && negb (js_truthy (prop metadata1 "deliveryTokenMap")) then
        match prevTokens with
        | Some t => if js_truthy t then JObj (spread (fields_of metadata1) [(js "deliveryTokenMap", t)]) else metadata1
        | None => metadata1
        end
      else metadata1).
Definition encryptGroupMetadata (k : circumstances) (c : client) (metadata : jsval) (id : jstr) : result jstr :=
  prepared ← prepareGroupMetadata (k_pseudonyms k) (getDeliveryTokenMap c id) metadata; k_seal k prepared.

(** ** rotateGroupKey *)
Inductive rotation_reason := membership_change | periodic_rotation.
Definition admin_headers (c : client) (id : jstr) : headers := mkHeaders None (Some (default [] (getMyAdminToken c id))).
Definition token_text (v : jsval) : option jstr := match v with JStr s => Some s | _ => None end.
Definition rewriteMetadata (k : circumstances) (id : jstr) (conversation : store_conv) (existingMeta : jsval) (newAuthSecret : option jstr)
  : epochM unit :=
  c ← gets w_client;
  let effectiveAuthSecret := match newAuthSecret with Some t => Some t | None => token_text (prop existingMeta "authSecret") end in
  let participantIds := sc_participants conversation in
  let source := match effectiveAuthSecret with
                | Some ((_ :: _) as t) => JObj (spread (fields_of existingMeta) [(js "authSecret", JStr t)])
                | _ => existingMeta
                end in
  rotated ← lift (buildRotatedGroupMetadata source participantIds []);
  newEncrypted ← lift (encryptGroupMetadata k c rotated.1 id);
  match effectiveAuthSecret with
  | Some ((_ :: _) as t) =>
      _ ← authFetch (k_put k)
            (put_details id (mkHeaders (Some t) (Some (default [] (getMyAdminToken c id)))) newEncrypted (k_server_put k));
      _ ← log (UpdateConversation id newEncrypted);
      myPseudonym ← lift (k_myPseudonym k);
      log (EmitMetadataUpdated id newEncrypted
             (List.filter (fun uid => negb (bool_decide (Some uid = cl_userId c))) participantIds)
             (match myPseudonym with Some p => Some p | None => cl_userId c end) (getMyAdminToken c id))
  | _ => mret tt
  end.
Definition redistribute (k : circumstances) (id : jstr) : epochM unit :=
  catch (sent ← lift (k_redistribute k);
         _ ← (if sent =? 0 then lift (k_ensureSession k) else mret sent);
         log (MarkKeyRotationNeeded id false))
        (log (MarkKeyRotationNeeded id true)).
(** The capability goes to the other admins again; a failure to reach one is caught. *)
Definition otherAdmins (c : client) (id : jstr) : list jstr :=
  map ge_userId (List.filter (fun m => negb (bool_decide (Some (ge_userId m) = cl_userId c)) && roleAtLeast (ge_role m) ADMIN)
    (default [] (getGroupMembers c id))).
Definition resealed (c : client) (id : jstr) : list effect :=
  match getMyAdminToken c id with
  | Some (_ :: _) as t => map (fun admin => DistributeAdminToken id admin (default [] t)) (otherAdmins c id)
  | _ => []
  end.
Definition resealAdminToken (id : jstr) : epochM unit :=
  modify (fun w => mkWorld (w_server w) (w_client w) (w_log w ++ resealed (w_client w) id)).
Definition rotateGroupKey (k : circumstances) (id : jstr) (reason : rotation_reason) (isActive : bool) (newAuthSecret : option jstr)
  : epochM unit :=
  _ ← lift (k_deleteSender k);
  c ← gets w_client;
  _ ← try_ (authFetch (k_key_rotation k) (fun s => (post_key_rotation id (admin_headers c id) s, s)));
  match reason, newAuthSecret with
  | periodic_rotation, None | periodic_rotation, Some [] => mret tt
  | _, _ =>
      match find_conv c id with
      | None => mret tt
      | Some conversation =>
          _ ← match sc_decryptedMetadata conversation with
              | Some existingMeta =>
                  if v2_or_v3 existingMeta then try_ (rewriteMetadata k id conversation existingMeta newAuthSecret) else mret tt
              | None => mret tt
              end;
          _ ← (if isActive then redistribute k id else mret tt);
          resealAdminToken id
      end
  end.

(** ** maybeRotateGroupEpoch *)
Inductive EpochRotationOutcome := rotated | skipped | not_admin | unavailable.
Definition toMs (value : option jstr) : option Z := match value with None | Some [] => None | Some s => date_parse other_dates s end.
Definition obtainToken (k : circumstances) (id : jstr) (hd : headers) (status : EpochStatus) (local : option jsval) : epochM (jstr * Z) :=
  match pending_of local with
  | Some token => mret (token, es_epoch status + 1)
  | None => r ← authFetch (k_post k) (post_epoch id hd (k_token k) (k_server_post k)); mret (et_token r, et_epoch r)
  end.
(** The function has two halves: [performRotation] is what follows the decision, and
    [continueRotation] what follows the token. *)
Definition continueRotation (k : circumstances) (id : jstr) (messageSeq : Z) (token : jstr) (epoch : Z) : epochM EpochRotationOutcome :=
  _ ← writeState (k_kv_pending k) (k_nonce_pending k) id (Some (stored_state epoch (k_write k) messageSeq (Some token)));
  done_ ← attempt (rotateGroupKey k id periodic_rotation true (Some token));
  match done_ with
  | Err _ => mret unavailable
  | Ok _ =>
      _ ← writeState (k_kv_done k) (k_nonce_done k) id (Some (stored_state epoch (k_write k) messageSeq None));
      mret rotated
  end.
Definition performRotation (k : circumstances) (id : jstr) (hd : headers) (status : EpochStatus) (local : option jsval)
  : epochM EpochRotationOutcome :=
  obtained ← attempt (obtainToken k id hd status local);
  match obtained with
  | Err _ => mret unavailable
  | Ok (token, epoch) => continueRotation k id (es_messageSeq status) token epoch
  end.
Definition maybeRotateGroupEpoch (k : circumstances) (id : jstr) (force : bool) : epochM EpochRotationOutcome :=
  c ← gets w_client;
  if negb (amIGroupAdmin c id) then mret not_admin else
  match getMyAdminToken c id with
  | None | Some [] => mret not_admin
  | Some adminToken =>
      let hd := mkHeaders None (Some adminToken) in
      status ← attempt (authFetch (k_status k) (fun s => (get_epoch id hd s, s)));
      match status with
      | Err _ => mret unavailable
      | Ok status =>
          local ← readState (k_kv_get k) id;
          if negb force && negb (is_due (decideEpochRotation (k_decide k)
               (mkServerEpoch (toMs (es_rotatedAt status)) (toMs (es_createdAt status)) (Some (es_messageSeq status)))
               (local_of <$> local) None None))
          then mret skipped else performRotation k id hd status local
      end
  end.
Definition rotateGroupEpochNow (k : circumstances) (id : jstr) : epochM EpochRotationOutcome := maybeRotateGroupEpoch k id true.

(** One tick of [startGroupEpochLoop]: the groups of the store in order, a failure of
    one does not stop the others. *)
Fixpoint tick (k : nat -> circumstances) (n : nat) (groups : list jstr) : epochM (list EpochRotationOutcome) :=
  match groups with
  | [] => mret []
  | id :: rest =>
      o ← catch (maybeRotateGroupEpoch (k n) id false) (mret unavailable);
      os ← tick k (S n) rest; mret (o :: os)
  end.
End Ops.
End GroupEpoch.
