(* ===== verification/GroupEpochRules.v ===== *)
(** What the rotation of group epochs guarantees: the new token reaches the metadata,
    when the next rotation is due, what the remembered state is good for, and two ways
    in which a token is lost. *)
From S2P Require Import Prelude Bytes Base64 Utf8 Text Js JsDate PqWire Sodium LocalAtRest Json AtRest StateErr Membership GroupAccess GroupEpoch.
Import GroupTokens Routing LocalAtRest GroupAccess GroupEpoch.

(** ** When a rotation is due *)
Lemma positive_ge v n : v = Some n -> n <= positive v.
Proof. intros ->. unfold positive. destruct (0 <? n) eqn:E; bools; lia. Qed.
Lemma positive_nonneg v : 0 <= positive v.
Proof. destruct v as [n|]; [|done]. unfold positive. destruct (0 <? n) eqn:E; bools; lia. Qed.
Lemma positive_le v n : v = Some n -> positive v <= Z.max 0 n.
Proof. intros ->. unfold positive. destruct (0 <? n) eqn:E; bools; lia. Qed.

(** A time the client or the server remembers keeps the next rotation away for a day,
    unless 500 messages have come. *)
Lemma fresh_kept now server local r :
  0 < r -> se_rotatedAt server = Some r \/ (local ≫= le_rotatedAt) = Some r ->
  now < r + GROUP_EPOCH_MAX_AGE_MS ->
  positive (se_messageSeq server) < positive (local ≫= le_messageSeq) + GROUP_EPOCH_MAX_MESSAGES ->
  decideEpochRotation now server local None None = Keep.
Proof.
  intros Hr Hor Hage Hmsg. unfold decideEpochRotation. cbn [default from_option].
  set (latest := Z.max _ _).
  assert (Hl : r <= latest) by (unfold latest; destruct Hor as [E|E]; apply positive_ge in E; lia).
  unfold id, GROUP_EPOCH_MAX_AGE_MS, GROUP_EPOCH_MAX_MESSAGES in *.
  replace (latest =? 0) with false by lia. ztest. by ztest.
Qed.

Section EpochRules.
Context `{ServerCryptoLaws, !MembershipDb} (other_dates : jstr -> option Z).

(** ** The endpoints *)
Definition rotated_conv (g : group) (id token : jstr) (now : Z) : conversation := (rotateGroupToken (gr_conv g) [] id token now).1.1.
Definition rotated_server (s : server) (g : group) (id token : jstr) (now : Z) : server :=
  mkServer (map_set id (with_conv g (rotated_conv g id token now)) (sv_groups s))
    (rotateGroupToken (gr_conv g) (sv_members s) id token now).1.2.

Record valid_times (g : group) : Prop := mkValidTimes {
  vt_rotated : forall t, epochRotatedAt (gr_conv g) = Some t -> iso_range t;
  vt_created : forall t, gr_createdAt g = Some t -> iso_range t }.

Lemma toISOString_not_nil t : toISOString t <> Some [].
Proof.
  unfold toISOString. destruct (Z.abs t <=? MAX_TIME); [|done]. destruct (civil_from_days _) as [[y m] d].
  destruct ((0 <=? y) && (y <=? 9999)); [done|]. by destruct (y <? 0).
Qed.

Lemma iso_read date : (forall t, date = Some t -> iso_range t) ->
  exists s, iso_or_null date = Some s /\ toMs other_dates s = date.
Proof.
  intros Hr. destruct date as [t|]; [|by exists None]. destruct (iso_roundtrip t (Hr t eq_refl)) as (s & E & _ & Hd).
  exists (Some s). cbn. rewrite E. split; [done|]. destruct s; [by apply toISOString_not_nil in E|]. apply Hd.
Qed.

Lemma admin_gate s id hd g : assoc id (sv_groups s) = Some g -> holds_admin_token g hd -> requireAdminCapability s id hd = GateOk.
Proof. intros Hg Ha. apply admin_ok. by exists g. Qed.

Lemma get_epoch_spec s id hd g : assoc id (sv_groups s) = Some g -> holds_admin_token g hd -> valid_times g ->
  exists st, get_epoch id hd s = HOk st /\ es_epoch st = groupEpoch (gr_conv g) /\ es_messageSeq st = default 0 (gr_messageSeq g) /\
    toMs other_dates (es_rotatedAt st) = epochRotatedAt (gr_conv g) /\ toMs other_dates (es_createdAt st) = gr_createdAt g.
Proof.
  intros Hg Ha [Hr Hc]. destruct (iso_read _ Hr) as (a & Ea & Ma), (iso_read _ Hc) as (b & Eb & Mb).
  unfold get_epoch. rewrite (admin_gate s id hd g) by done. rewrite Hg, Ea, Eb. by eexists.
Qed.

Lemma post_epoch_spec s id hd g token now :
  assoc id (sv_groups s) = Some g -> holds_admin_token g hd ->
  (post_epoch id hd token now s).2 = rotated_server s g id token now /\
  (iso_range (groupTokenExpiry now) -> exists at_, (post_epoch id hd token now s).1 = HOk (mkEpochToken token (groupEpoch (gr_conv g) + 1) at_)).
Proof.
  intros Hg Ha. unfold post_epoch. rewrite (admin_gate s id hd g) by done. rewrite Hg. cbn.
  destruct (toISOString (groupTokenExpiry now)) as [s'|] eqn:E; (split; [done|]).
  - intros _. by eexists.
  - intros Hr. destruct (iso_roundtrip _ Hr) as (s' & E' & _). by rewrite E in E'.
Qed.

Lemma rotated_group s g id token now :
  assoc id (sv_groups (rotated_server s g id token now)) = Some (with_conv g (rotated_conv g id token now)).
Proof. unfold rotated_server. cbn. rewrite assoc_set. by rewrite bool_decide_eq_true_2. Qed.

Lemma token_accepted g token hd : groupToken hd = token -> token <> [] -> authSecret (gr_conv g) = Some (hashGroupToken token) ->
  AtRest.credentialTokenMatches (authSecret (gr_conv g)) (groupToken hd) = true.
Proof. intros -> Ht ->. by apply AtRest.token_matches_hash. Qed.

Definition with_metadata (g : group) (blob : jstr) : group :=
  mkGroup (gr_conv g) (gr_adminSecretHash g) (gr_isGroup g) (gr_createdAt g) (gr_messageSeq g) (Some (sanitizeGroupMetadataBlob blob)).
Lemma put_details_spec s id hd g token blob now :
  assoc id (sv_groups s) = Some g -> holds_admin_token g hd -> groupToken hd = token -> token <> [] ->
  authSecret (gr_conv g) = Some (hashGroupToken token) ->
  match groupTokenExpiresAt (gr_conv g) with Some e => now < e | None => True end ->
  put_details id hd blob now s = (HOk tt, mkServer (map_set id (with_metadata g blob) (sv_groups s)) (sv_members s)).
Proof.
  intros Hg Ha Ht Hn Hs He. unfold put_details, authorizeDetailsWrite.
  assert (Hc : checkGroupToken s id hd now = GateOk).
  { apply check_token_ok. exists g. split; [done|]. split; [by rewrite Ht|]. split; [by rewrite Hs|]. split; [|done].
    by eapply token_accepted. }
  rewrite Hc, (admin_gate s id hd g) by done. by rewrite Hg.
Qed.

(** ** The steps of the client *)
Definition rewrites (k : circumstances) (c : client) (id : jstr) (sc : store_conv) (meta : jsval) (token : jstr) : result jstr :=
  rotated ← buildRotatedGroupMetadata (JObj (spread (fields_of meta) [(js "authSecret", JStr token)])) (sc_participants sc) [];
  encryptGroupMetadata k c rotated.1 id.

(** An admin of a group: the roster says so, the store holds the metadata and the
    capability, and the server knows its hash. *)
Record admin_of (w : world) (id : jstr) (sc : store_conv) (meta : jsval) (adminToken : jstr) (g : group) : Prop := mkAdminOf {
  ao_conv : find_conv (w_client w) id = Some sc;
  ao_role : amIGroupAdmin (w_client w) id = true;
  ao_token : sc_adminToken sc = Some adminToken;
  ao_token_set : adminToken <> [];
  ao_meta : sc_decryptedMetadata sc = Some meta;
  ao_version : v2_or_v3 meta = true;
  ao_group : assoc id (sv_groups (w_server w)) = Some g;
  ao_hash : holds_admin_token g (mkHeaders None (Some adminToken));
  ao_times : valid_times g }.

Lemma authFetch_delivered {A} (e : server -> http A * server) w a :
  (e (w_server w)).1 = HOk a -> authFetch Delivered e w = (Ok a, mkWorld (e (w_server w)).2 (w_client w) (w_log w)).
Proof. intros E. unfold authFetch. by rewrite E. Qed.

Lemma writeState_memory db nonce id st w :
  exists w', writeState db nonce id (Some st) w = (Ok tt, w') /\ w_server w' = w_server w /\ w_log w' = w_log w /\ cl_conversations (w_client w') = cl_conversations (w_client w) /\ cl_userId (w_client w') = cl_userId (w_client w) /\ assoc id (cl_memory (w_client w')) = Some st.
Proof.
  eexists. split; [reflexivity|]. cbn [w_server w_client w_log on_client].
  match goal with |- context [match ?r with Ok _ => _ | Err _ => _ end] => destruct r end; cbn;
    rewrite assoc_set, bool_decide_eq_true_2 by done; done.
Qed.

Lemma readState_spec get id w : exists r w', readState get id w = (Ok r, w') /\ w_server w' = w_server w /\ w_log w' = w_log w /\
  cl_conversations (w_client w') = cl_conversations (w_client w) /\ cl_userId (w_client w') = cl_userId (w_client w).
Proof. unfold readState. destruct (assoc id _); [by do 2 eexists|]. destruct (assoc id _); [|by do 2 eexists]. destruct (js_truthy _); by do 2 eexists. Qed.

Lemma redistribute_spec k id w : exists b, redistribute k id w = (Ok tt, mkWorld (w_server w) (w_client w) (w_log w ++ [MarkKeyRotationNeeded id b])).
Proof.
  unfold redistribute, catch, mbind, stE_bind, lift. destruct (k_redistribute k) as [n|]; [|by eexists].
  destruct (n =? 0); [destruct (k_ensureSession k)|]; by eexists.
Qed.

Lemma spread_key_spec k id w : exists b, (redistribute k id ≫= (fun _ => resealAdminToken id)) w =
  (Ok tt, mkWorld (w_server w) (w_client w) (w_log w ++ MarkKeyRotationNeeded id b :: resealed (w_client w) id)).
Proof.
  destruct (redistribute_spec k id w) as (b & E). exists b. rewrite (stE_bind_eq _ _ _ _ _ E). unfold resealAdminToken, modify. cbn.
  by rewrite <- app_assoc.
Qed.

Lemma resealed_same c c' id : cl_conversations c' = cl_conversations c -> cl_userId c' = cl_userId c -> resealed c' id = resealed c id.
Proof. intros E Eu. unfold resealed, otherAdmins, getMyAdminToken, getGroupMembers, find_conv. by rewrite E, Eu. Qed.

(** The server state of [POST key-rotation] is not touched. *)
Lemma notice_eq f id hd w : try_ (authFetch f (fun s => (post_key_rotation id hd s, s))) w = (Ok tt, w).
Proof. destruct w. unfold try_. by destruct f. Qed.

Lemma rotateGroupKey_eq k id token sc meta w :
  token <> [] -> find_conv (w_client w) id = Some sc -> sc_decryptedMetadata sc = Some meta -> v2_or_v3 meta = true ->
  rotateGroupKey k id periodic_rotation true (Some token) w =
    match k_deleteSender k with
    | Ok _ => (redistribute k id ≫= (fun _ => resealAdminToken id)) (rewriteMetadata k id sc meta (Some token) w).2
    | Err e => (Err e, w)
    end.
Proof.
  intros Ht Hc Hm Hv. unfold rotateGroupKey. rewrite lift_bind. destruct (k_deleteSender k); [|done].
  rewrite gets_bind. rewrite (stE_bind_eq _ _ _ _ _ (notice_eq _ _ _ w)). destruct token as [|x t]; [done|].
  rewrite Hc, Hm, Hv. by rewrite (stE_bind_eq _ _ _ (Ok tt) (rewriteMetadata k id sc meta (Some (x :: t)) w).2).
Qed.

Lemma rewrite_eq k id sc meta token w : token <> [] ->
  rewriteMetadata k id sc meta (Some token) w =
    match rewrites k (w_client w) id sc meta token with
    | Err e => (Err e, w)
    | Ok blob =>
        (_ ← authFetch (k_put k)
              (put_details id (mkHeaders (Some token) (Some (default [] (getMyAdminToken (w_client w) id)))) blob (k_server_put k));
         _ ← log (UpdateConversation id blob);
         myPseudonym ← lift (k_myPseudonym k);
         log (EmitMetadataUpdated id blob
             (List.filter (fun uid => negb (bool_decide (Some uid = cl_userId (w_client w)))) (sc_participants sc))
             (match myPseudonym with Some p => Some p | None => cl_userId (w_client w) end) (getMyAdminToken (w_client w) id))) w
    end.
Proof.
  intros Ht. unfold rewriteMetadata, rewrites. rewrite gets_bind. destruct token as [|x t]; [done|].
  rewrite lift_bind. destruct (buildRotatedGroupMetadata _ _ _) as [r|e]; [|done]. rewrite bind_ok, lift_bind.
  by destruct (encryptGroupMetadata k (w_client w) r.1 id).
Qed.

Definition hd_of (adminToken : jstr) : headers := mkHeaders None (Some adminToken).
Definition seen_by_client (g : group) : ServerEpochState :=
  mkServerEpoch (epochRotatedAt (gr_conv g)) (gr_createdAt g) (Some (default 0 (gr_messageSeq g))).

(** An admin's call decides on what the server holds and what the client remembers. *)
Lemma maybe_decides k id force w sc meta adminToken g :
  admin_of w id sc meta adminToken g -> k_status k = Delivered ->
  exists st local w1, es_epoch st = groupEpoch (gr_conv g) /\ es_messageSeq st = default 0 (gr_messageSeq g) /\
    readState (k_kv_get k) id w = (Ok local, w1) /\
    maybeRotateGroupEpoch other_dates k id force w =
      if negb force && negb (is_due (decideEpochRotation (k_decide k) (seen_by_client g) (local_of <$> local) None None))
      then (Ok skipped, w1) else performRotation k id (hd_of adminToken) st local w1.
Proof.
  intros [Hc Hr Ht Hn Hm Hv Hg Hh Hti] Hs. destruct (get_epoch_spec _ _ _ _ Hg Hh Hti) as (st & Est & Ee & Em & Er & Ec).
  destruct (readState_spec (k_kv_get k) id w) as (local & w1 & Erd & _). exists st, local, w1. split_and!; try done.
  unfold maybeRotateGroupEpoch. rewrite gets_bind, Hr. cbn [negb]. unfold getMyAdminToken. rewrite Hc. cbn [mbind option_bind]. rewrite Ht.
  destruct adminToken as [|x tk]; [done|]. rewrite Hs.
  rewrite (stE_bind_eq _ _ _ (Ok (Ok st)) w); [|apply attempt_eq; unfold authFetch; cbn; rewrite Est; by destruct w].
  rewrite (stE_bind_eq _ _ _ _ _ Erd). unfold seen_by_client. rewrite Er, Ec, Em. by destruct (negb force && _).
Qed.

Lemma scheduled_skipped k id w sc meta adminToken g local r :
  admin_of w id sc meta adminToken g -> k_status k = Delivered -> assoc id (cl_memory (w_client w)) = local ->
  0 < r -> epochRotatedAt (gr_conv g) = Some r \/ (local_of <$> local) ≫= le_rotatedAt = Some r -> local <> None ->
  k_decide k < r + GROUP_EPOCH_MAX_AGE_MS ->
  positive (Some (default 0 (gr_messageSeq g))) < positive ((local_of <$> local) ≫= le_messageSeq) + GROUP_EPOCH_MAX_MESSAGES ->
  maybeRotateGroupEpoch other_dates k id false w = (Ok skipped, w).
Proof.
  intros Ha Hs Hm Hr Hor Hl Hage Hmsg. destruct (maybe_decides k id false w _ _ _ _ Ha Hs) as (st & local' & w1 & _ & _ & Erd & E).
  unfold readState in Erd. rewrite Hm in Erd. destruct local as [l|]; [|done]. injection Erd as <- <-. rewrite E.
  by rewrite (fresh_kept _ _ _ r).
Qed.

Definition others (c : client) (sc : store_conv) : list jstr :=
  List.filter (fun uid => negb (bool_decide (Some uid = cl_userId c))) (sc_participants sc).
Definition written_to (s : server) (id : jstr) (g : group) (blob : jstr) : server :=
  mkServer (map_set id (with_metadata g blob) (sv_groups s)) (sv_members s).

Lemma rewrite_written k id sc meta token adminToken g blob pseudo w :
  token <> [] -> rewrites k (w_client w) id sc meta token = Ok blob -> k_put k = Delivered -> k_myPseudonym k = Ok pseudo ->
  getMyAdminToken (w_client w) id = Some adminToken -> assoc id (sv_groups (w_server w)) = Some g ->
  holds_admin_token g (hd_of adminToken) -> authSecret (gr_conv g) = Some (hashGroupToken token) ->
  match groupTokenExpiresAt (gr_conv g) with Some e => k_server_put k < e | None => True end ->
  (rewriteMetadata k id sc meta (Some token) w).2 =
    mkWorld (written_to (w_server w) id g blob) (w_client w)
      (w_log w ++ [UpdateConversation id blob;
         EmitMetadataUpdated id blob (others (w_client w) sc) (match pseudo with Some p => Some p | None => cl_userId (w_client w) end) (Some adminToken)]).
Proof.
  intros Ht Hb Hp Hps Ha Hg Hh Hs He. rewrite rewrite_eq, Hb, Hp, Ha by done.
  erewrite stE_bind_eq; [|eapply authFetch_delivered; by rewrite (put_details_spec _ _ _ g token)].
  rewrite (put_details_spec _ _ _ g token) by done. unfold log, modify, mbind, stE_bind, lift. rewrite Hps. cbn. by rewrite <- app_assoc.
Qed.

Lemma rewrite_lost k id sc meta token w :
  token <> [] -> (exists e, rewrites k (w_client w) id sc meta token = Err e) \/ k_put k = LostRequest ->
  (rewriteMetadata k id sc meta (Some token) w).2 = w.
Proof.
  intros Ht Hor. rewrite rewrite_eq by done. destruct Hor as [[e ->]| ->]; [done|]. by destruct (rewrites _ _ _ _ _ _).
Qed.

Lemma continue_spec k id seq token epoch sc meta w :
  token <> [] -> find_conv (w_client w) id = Some sc -> sc_decryptedMetadata sc = Some meta -> v2_or_v3 meta = true ->
  exists w0, w_server w0 = w_server w /\ w_log w0 = w_log w /\
    cl_conversations (w_client w0) = cl_conversations (w_client w) /\ cl_userId (w_client w0) = cl_userId (w_client w) /\
    assoc id (cl_memory (w_client w0)) = Some (stored_state epoch (k_write k) seq (Some token)) /\
    match k_deleteSender k with
    | Err _ => continueRotation k id seq token epoch w = (Ok unavailable, w0)
    | Ok _ =>
        let w1 := (rewriteMetadata k id sc meta (Some token) w0).2 in
        w_client w1 = w_client w0 ->
        exists b w', continueRotation k id seq token epoch w = (Ok rotated, w') /\
          w_server w' = w_server w1 /\ w_log w' = w_log w1 ++ MarkKeyRotationNeeded id b :: resealed (w_client w) id /\
          cl_conversations (w_client w') = cl_conversations (w_client w) /\ cl_userId (w_client w') = cl_userId (w_client w) /\
          assoc id (cl_memory (w_client w')) = Some (stored_state epoch (k_write k) seq None)
    end.
Proof.
  intros Ht Hc Hm Hv. destruct (writeState_memory (k_kv_pending k) (k_nonce_pending k) id
    (stored_state epoch (k_write k) seq (Some token)) w) as (w0 & Ew & Hs & Hl & Hcv & Hu & Hmem).
  exists w0. split_and!; try done. unfold continueRotation. rewrite (stE_bind_eq _ _ _ _ _ Ew).
  assert (Hc0 : find_conv (w_client w0) id = Some sc) by (unfold find_conv; by rewrite Hcv).
  pose proof (rotateGroupKey_eq k id token sc meta w0 Ht Hc0 Hm Hv) as Er. destruct (k_deleteSender k) as [u|e].
  - set (w1 := (rewriteMetadata _ _ _ _ _ w0).2) in *. intros Hcl. destruct (spread_key_spec k id w1) as (b & Eb).
    rewrite Eb in Er. rewrite (stE_bind_eq _ _ _ _ _ (attempt_eq _ _ _ _ Er)).
    destruct (writeState_memory (k_kv_done k) (k_nonce_done k) id (stored_state epoch (k_write k) seq None)
      (mkWorld (w_server w1) (w_client w1) (w_log w1 ++ MarkKeyRotationNeeded id b :: resealed (w_client w1) id))) as (w' & Ew' & Hs' & Hl' & Hcv' & Hu' & Hmem').
    exists b, w'. rewrite (stE_bind_eq _ _ _ _ _ Ew'). cbn in Hs', Hl', Hcv', Hu'. rewrite Hcl in Hl', Hcv', Hu'.
    rewrite (resealed_same (w_client w)) in Hl' by done. split_and!; try done; congruence.
  - by rewrite (stE_bind_eq _ _ _ _ _ (attempt_eq _ _ _ _ Er)).
Qed.

(** Fetching the token: a remembered one is used, otherwise the server rotates. *)
Lemma obtain_pending k id hd st local token w : pending_of local = Some token ->
  performRotation k id hd st local w = continueRotation k id (es_messageSeq st) token (es_epoch st + 1) w.
Proof. intros Hp. unfold performRotation. unfold obtainToken. by rewrite Hp, (stE_bind_eq _ _ _ (Ok (Ok (token, es_epoch st + 1))) w). Qed.

Definition after_post (k : circumstances) (id : jstr) (g : group) (w : world) : world :=
  mkWorld (rotated_server (w_server w) g id (k_token k) (k_server_post k)) (w_client w) (w_log w).
Lemma obtain_fresh k id hd st local g w : pending_of local = None ->
  assoc id (sv_groups (w_server w)) = Some g -> holds_admin_token g hd -> iso_range (groupTokenExpiry (k_server_post k)) ->
  performRotation k id hd st local w =
    match k_post k with
    | Delivered => continueRotation k id (es_messageSeq st) (k_token k) (groupEpoch (gr_conv g) + 1) (after_post k id g w)
    | LostAnswer => (Ok unavailable, after_post k id g w)
    | LostRequest => (Ok unavailable, w)
    end.
Proof.
  intros Hp Hg Hh Hi. destruct (post_epoch_spec (w_server w) id hd g (k_token k) (k_server_post k) Hg Hh) as [E2 E1].
  destruct (E1 Hi) as (at_ & E). unfold performRotation, obtainToken. rewrite Hp. destruct (k_post k) eqn:Ek.
  - erewrite stE_bind_eq; [|apply attempt_eq; unfold authFetch, mbind, stE_bind; rewrite E, E2; reflexivity]. reflexivity.
  - by erewrite stE_bind_eq by (apply attempt_eq; reflexivity).
  - erewrite stE_bind_eq; [|apply attempt_eq; unfold authFetch, mbind, stE_bind; rewrite E2; reflexivity]. reflexivity.
Qed.

(** ** Rotations *)
Record well_started (k : circumstances) : Prop := mkWellStarted {
  ws_status : k_status k = Delivered; ws_post : k_post k = Delivered; ws_token : k_token k <> [];
  ws_positive : 0 < k_server_post k; ws_post_time : iso_range (k_server_post k); ws_expiry : iso_range (groupTokenExpiry (k_server_post k)) }.
Definition wanted (k : circumstances) (force : bool) (g : group) (local : option jsval) : Prop :=
  force = true \/ is_due (decideEpochRotation (k_decide k) (seen_by_client g) (local_of <$> local) None None) = true.
Definition only_token_opens (s : server) (id token : jstr) (until : Z) : Prop :=
  forall hd t, checkGroupToken s id hd t = GateOk <->
    groupToken hd <> [] /\ hashGroupToken (groupToken hd) = hashGroupToken token /\ t < until.

Lemma rewrites_same k c c' id sc meta token : cl_conversations c' = cl_conversations c -> rewrites k c' id sc meta token = rewrites k c id sc meta token.
Proof. intros E. unfold rewrites, encryptGroupMetadata, getDeliveryTokenMap, find_conv. by rewrite E. Qed.

Lemma token_opens s id g token until : assoc id (sv_groups s) = Some g ->
  authSecret (gr_conv g) = Some (hashGroupToken token) -> groupTokenExpiresAt (gr_conv g) = Some until -> only_token_opens s id token until.
Proof.
  intros Hg Hs He hd t. rewrite check_token_ok. pose proof (AtRest.token_matches_hash token (groupToken hd)) as Hm.
  unfold holds_group_token. split.
  - intros (g' & Hg' & Hn & _ & Hc & Hx). rewrite Hg in Hg'. injection Hg' as <-. rewrite He in Hx. rewrite Hs in Hc. by apply Hm in Hc as [_ Hh].
  - intros (Hn & Hh & Hx). exists g. rewrite He, Hs. split_and!; try done. by apply Hm.
Qed.

Lemma still_admin w w' id sc meta adminToken g g' :
  admin_of w id sc meta adminToken g -> cl_conversations (w_client w') = cl_conversations (w_client w) ->
  cl_userId (w_client w') = cl_userId (w_client w) -> assoc id (sv_groups (w_server w')) = Some g' ->
  gr_adminSecretHash g' = gr_adminSecretHash g -> gr_createdAt g' = gr_createdAt g ->
  (forall t, epochRotatedAt (gr_conv g') = Some t -> iso_range t) -> admin_of w' id sc meta adminToken g'.
Proof.
  intros [Hc Hr Ht Hn Hm Hv Hg Hh [_ Hti]] Hcv Hu Hg' Hha Hcr Hro. unfold amIGroupAdmin, getMyGroupRole, getGroupMembers, find_conv in *.
  split; try done; unfold amIGroupAdmin, getMyGroupRole, getGroupMembers, find_conv, holds_admin_token; rewrite ?Hcv, ?Hu, ?Hha; try done.
  split; [done|]. by rewrite Hcr.
Qed.

(** What a call that fetches a token does until the metadata is due. *)
Lemma rotation_fetches k id force sc meta adminToken g local w w0 :
  admin_of w id sc meta adminToken g -> well_started k -> readState (k_kv_get k) id w = (Ok local, w0) -> pending_of local = None ->
  wanted k force g local ->
  exists w2, w_server w2 = rotated_server (w_server w) g id (k_token k) (k_server_post k) /\ w_log w2 = w_log w /\
    cl_conversations (w_client w2) = cl_conversations (w_client w) /\ cl_userId (w_client w2) = cl_userId (w_client w) /\
    maybeRotateGroupEpoch other_dates k id force w =
      continueRotation k id (default 0 (gr_messageSeq g)) (k_token k) (groupEpoch (gr_conv g) + 1) w2.
Proof.
  intros Ha [Hst Hpo Htk Hpos Hpt Hex] Hrd Hpe Hw. destruct (maybe_decides k id force w _ _ _ _ Ha Hst) as (st & local' & w1 & _ & Em & Erd & E).
  rewrite Hrd in Erd. injection Erd as <- <-. destruct (readState_spec (k_kv_get k) id w) as (r & w1 & Er & Hs1 & Hl1 & Hc1 & Hu1).
  rewrite Hrd in Er. injection Er as <- <-. exists (after_post k id g w0). unfold after_post. cbn. rewrite Hs1, Hl1. split_and!; try done.
  rewrite E. replace (negb force && _) with false by (destruct Hw as [-> | ->]; [done|by rewrite andb_false_r]).
  destruct Ha as [_ _ _ _ _ _ Hg Hh _]. rewrite (obtain_fresh k id _ st local g w0), Hpo, Em; try done; [|by rewrite Hs1].
  unfold after_post. by rewrite Hs1, Hl1.
Qed.

(** From the call to the point where the metadata is rewritten, [w3]. *)
Lemma rotation_continues k id force sc meta adminToken g local w w0 :
  admin_of w id sc meta adminToken g -> well_started k -> readState (k_kv_get k) id w = (Ok local, w0) -> pending_of local = None ->
  wanted k force g local ->
  exists w3, w_server w3 = rotated_server (w_server w) g id (k_token k) (k_server_post k) /\ w_log w3 = w_log w /\
    cl_conversations (w_client w3) = cl_conversations (w_client w) /\ cl_userId (w_client w3) = cl_userId (w_client w) /\
    assoc id (cl_memory (w_client w3)) = Some (stored_state (groupEpoch (gr_conv g) + 1) (k_write k) (default 0 (gr_messageSeq g)) (Some (k_token k))) /\
    match k_deleteSender k with
    | Err _ => maybeRotateGroupEpoch other_dates k id force w = (Ok unavailable, w3)
    | Ok _ =>
        let w4 := (rewriteMetadata k id sc meta (Some (k_token k)) w3).2 in
        w_client w4 = w_client w3 ->
        exists b w', maybeRotateGroupEpoch other_dates k id force w = (Ok rotated, w') /\
          w_server w' = w_server w4 /\ w_log w' = w_log w4 ++ MarkKeyRotationNeeded id b :: resealed (w_client w) id /\
          cl_conversations (w_client w') = cl_conversations (w_client w) /\ cl_userId (w_client w') = cl_userId (w_client w) /\
          assoc id (cl_memory (w_client w')) = Some (stored_state (groupEpoch (gr_conv g) + 1) (k_write k) (default 0 (gr_messageSeq g)) None)
    end.
Proof.
  intros Ha Hws Hrd Hpe Hw. destruct (rotation_fetches k id force _ _ _ _ _ w w0 Ha Hws Hrd Hpe Hw) as (w2 & Hs2 & Hl2 & Hc2 & Hu2 & ->).
  destruct Ha as [Hc Hr Ht Hn Hm Hv Hg Hh Hti].
  destruct (continue_spec k id (default 0 (gr_messageSeq g)) (k_token k) (groupEpoch (gr_conv g) + 1) sc meta w2) as
    (w3 & Hs3 & Hl3 & Hc3 & Hu3 & Hm3 & Hcont); [apply Hws|unfold find_conv; by rewrite Hc2|done..|]. exists w3.
  rewrite Hs3, Hl3, Hc3, Hu3, Hs2, Hl2, Hc2, Hu2. split_and!; try done. destruct (k_deleteSender k); [|done].
  by rewrite Hc2, Hu2, (resealed_same (w_client w)) in Hcont.
Qed.

Lemma same_admin_token w w' id sc adminToken : cl_conversations (w_client w') = cl_conversations (w_client w) ->
  find_conv (w_client w) id = Some sc -> sc_adminToken sc = Some adminToken -> getMyAdminToken (w_client w') id = Some adminToken.
Proof. intros E Hc Ht. unfold getMyAdminToken, find_conv in *. by rewrite E, Hc. Qed.

(** A scheduled call after a rotation at the server's time [r] does nothing for a day,
    while fewer than 500 messages came. *)
Definition quiet_after (w' : world) (id : jstr) (r : Z) : Prop :=
  forall k', k_status k' = Delivered -> k_decide k' < r + GROUP_EPOCH_MAX_AGE_MS ->
    maybeRotateGroupEpoch other_dates k' id false w' = (Ok skipped, w').

Lemma quiet_spec w' id sc meta adminToken g' st r :
  admin_of w' id sc meta adminToken g' -> assoc id (cl_memory (w_client w')) = Some st -> 0 < r -> epochRotatedAt (gr_conv g') = Some r ->
  le_messageSeq (local_of st) = Some (default 0 (gr_messageSeq g')) -> quiet_after w' id r.
Proof.
  intros Ha Hm Hr He Hq k' Hs Hd. eapply (scheduled_skipped k' id w' _ _ _ _ (Some st)); [exact Ha|done|exact Hm|exact Hr|by left|done|done|].
  cbn [fmap option_fmap option_map mbind option_bind]. rewrite Hq. unfold GROUP_EPOCH_MAX_MESSAGES. lia.
Qed.

(** C20: a rotation that is due, or forced, and meets no failure, does what it is for: the
    server is one epoch further, only the new token opens the group (for a day), the
    metadata blob sealed with the new token is on the server and announced to every
    other participant, nothing is left pending, and scheduled calls of the next day do
    nothing. *)
Theorem epoch_rotation_delivers k id force sc meta adminToken g local blob pseudo u w w0 :
  admin_of w id sc meta adminToken g -> well_started k -> k_deleteSender k = Ok u -> k_put k = Delivered -> k_myPseudonym k = Ok pseudo ->
  k_server_put k < k_server_post k + GROUP_TOKEN_TTL_MS ->
  readState (k_kv_get k) id w = (Ok local, w0) -> pending_of local = None -> wanted k force g local ->
  rewrites k (w_client w) id sc meta (k_token k) = Ok blob ->
  exists w' g', maybeRotateGroupEpoch other_dates k id force w = (Ok rotated, w') /\
    assoc id (sv_groups (w_server w')) = Some g' /\ groupEpoch (gr_conv g') = groupEpoch (gr_conv g) + 1 /\
    only_token_opens (w_server w') id (k_token k) (k_server_post k + GROUP_TOKEN_TTL_MS) /\
    gr_encryptedMetadata g' = Some (sanitizeGroupMetadataBlob blob) /\
    (exists from, EmitMetadataUpdated id blob (others (w_client w) sc) from (Some adminToken) ∈ w_log w') /\
    pending_of (assoc id (cl_memory (w_client w'))) = None /\ quiet_after w' id (k_server_post k).
Proof.
  intros Ha Hws Hds Hput Hps Hin Hrd Hpe Hw Hrw. destruct (rotation_continues k id force _ _ _ _ _ w w0 Ha Hws Hrd Hpe Hw) as
    (w3 & Hs3 & Hl3 & Hc3 & Hu3 & Hm3 & Hcont). pose proof Ha as [Hc Hr Ht Hn Hm Hv Hg Hh Hti]. rewrite Hds in Hcont.
  set (g1 := with_conv g (rotated_conv g id (k_token k) (k_server_post k))).
  assert (Hg1 : assoc id (sv_groups (w_server w3)) = Some g1) by (rewrite Hs3; apply rotated_group).
  erewrite (rewrite_written k id sc meta (k_token k) adminToken g1 blob pseudo w3) in Hcont;
    [|apply Hws|by rewrite (rewrites_same _ (w_client w))|done|done|by eapply same_admin_token|done|done|done|exact Hin].
  destruct (Hcont eq_refl) as (b & w' & Ew & Hs' & Hl' & Hcv' & Hu' & Hmem'). cbn in Hs', Hl'.
  assert (Hg' : assoc id (sv_groups (w_server w')) = Some (with_metadata g1 blob)) by (rewrite Hs'; cbn; by rewrite assoc_set, bool_decide_eq_true_2).
  exists w', (with_metadata g1 blob). split_and!; try done.
  - by eapply token_opens.
  - eexists. rewrite Hl'. unfold others. rewrite Hu3. apply elem_of_app. left. apply elem_of_app. right. right. left.
  - by rewrite Hmem'.
  - eapply quiet_spec; [eapply (still_admin w w'); try done; try congruence; cbn; intros t [= <-]; apply Hws|exact Hmem'|apply Hws|done|done].
Qed.


(** When [rotateGroupKey] throws, the token stays pending. A forced call then writes
    that same token without rotating again; but the scheduled calls, which are meant to
    try again, take the rotation for fresh and do nothing for a day. *)
Theorem epoch_retry_waits k id force sc meta adminToken g local e w w0 :
  admin_of w id sc meta adminToken g -> well_started k -> k_deleteSender k = Err e ->
  readState (k_kv_get k) id w = (Ok local, w0) -> pending_of local = None -> wanted k force g local ->
  exists w' g', maybeRotateGroupEpoch other_dates k id force w = (Ok unavailable, w') /\
    assoc id (sv_groups (w_server w')) = Some g' /\ groupEpoch (gr_conv g') = groupEpoch (gr_conv g) + 1 /\
    only_token_opens (w_server w') id (k_token k) (k_server_post k + GROUP_TOKEN_TTL_MS) /\
    gr_encryptedMetadata g' = gr_encryptedMetadata g /\ w_log w' = w_log w /\
    pending_of (assoc id (cl_memory (w_client w'))) = Some (k_token k) /\ quiet_after w' id (k_server_post k) /\
    (forall k' u blob pseudo, k_status k' = Delivered -> k_deleteSender k' = Ok u -> k_put k' = Delivered -> k_myPseudonym k' = Ok pseudo ->
       k_server_put k' < k_server_post k + GROUP_TOKEN_TTL_MS -> rewrites k' (w_client w) id sc meta (k_token k) = Ok blob ->
       exists w'', maybeRotateGroupEpoch other_dates k' id true w' = (Ok rotated, w'') /\
         assoc id (sv_groups (w_server w'')) = Some (with_metadata g' blob) /\
         pending_of (assoc id (cl_memory (w_client w''))) = None).
Proof.
  intros Ha Hws Hds Hrd Hpe Hw. destruct (rotation_continues k id force _ _ _ _ _ w w0 Ha Hws Hrd Hpe Hw) as
    (w3 & Hs3 & Hl3 & Hc3 & Hu3 & Hm3 & Hcont). pose proof Ha as [Hc Hr Ht Hn Hm Hv Hg Hh Hti]. rewrite Hds in Hcont.
  set (g1 := with_conv g (rotated_conv g id (k_token k) (k_server_post k))).
  assert (Hg1 : assoc id (sv_groups (w_server w3)) = Some g1) by (rewrite Hs3; apply rotated_group).
  assert (Ha3 : admin_of w3 id sc meta adminToken g1).
  { eapply (still_admin w w3); try done; try congruence. cbn. intros t [= <-]. apply Hws. }
  assert (Hpend : pending_of (assoc id (cl_memory (w_client w3))) = Some (k_token k)).
  { rewrite Hm3. cbn. destruct Hws as [_ _ Htk _ _ _]. by destruct (k_token k). }
  exists w3, g1. split_and!; try done.
  - by eapply token_opens.
  - eapply quiet_spec; [exact Ha3|exact Hm3|apply Hws|done|done].
  - intros k' u blob pseudo Hst' Hds' Hput' Hps' Hin' Hrw'.
    destruct (maybe_decides k' id true w3 _ _ _ _ Ha3 Hst') as (st & local' & w4 & _ & Em & Erd & E').
    unfold readState in Erd. rewrite Hm3 in Erd. injection Erd as <- <-. cbn [negb andb] in E'. rewrite Hm3 in Hpend.
    rewrite (obtain_pending _ _ _ _ _ _ _ Hpend) in E'.
    destruct (continue_spec k' id (es_messageSeq st) (k_token k) (es_epoch st + 1) sc meta w3) as
      (w5 & Hs5 & Hl5 & Hc5 & Hu5 & Hm5 & Hcont'); [apply Hws|apply Ha3|done..|]. rewrite Hds' in Hcont'.
    erewrite (rewrite_written k' id sc meta (k_token k) adminToken g1 blob pseudo w5) in Hcont';
      [|apply Hws|rewrite (rewrites_same _ (w_client w)) by congruence; done|done|done|eapply (same_admin_token w); [congruence|done..]|by rewrite Hs5|done|done|exact Hin'].
    destruct (Hcont' eq_refl) as (b & w' & Ew & Hs' & Hl' & Hcv' & Hu' & Hmem'). exists w'. rewrite E', Ew, Hs', Hmem'. cbn.
    by rewrite assoc_set, bool_decide_eq_true_2.
Qed.
End EpochRules.

(** ** The metadata of a rotation *)
Section RosterRules.

Lemma pseudonyms_spec draws : forall ids m pm, generatePseudonymMap draws ids m = Ok pm ->
  exists new, pm = m ++ new /\ new.*2 = map JStr ids /\ (forall p, p ∈ new.*1 -> p ∈ draws) /\ (NoDup m.*1 -> NoDup pm.*1).
Proof.
  induction draws as [|d draws IH]; intros [|uid ids] m pm E; cbn in E; try discriminate E;
    [injection E as <-; exists []; rewrite app_nil_r; set_solver..|].
  destruct (bool_decide (d ∈ m.*1)) eqn:Ed.
  - destruct (IH _ _ _ E) as (new & -> & H2 & Hin & Hnd). exists new. split_and!; try done. set_solver.
  - apply bool_decide_eq_false in Ed. destruct (IH _ _ _ E) as (new & -> & H2 & Hin & Hnd).
    assert (Hnew : assoc d m = None) by (destruct (assoc d m) as [a|] eqn:Ea; [|done]; apply assoc_elem in Ea; exfalso; apply Ed;
      by apply (list_elem_of_fmap_2 fst) in Ea).
    rewrite (map_set_new _ _ _ Hnew) in Hnd |- *.
    exists ((d, JStr uid) :: new). rewrite <- app_assoc. split_and!; [done|cbn; by rewrite H2|cbn; set_solver|].
    intros Hm. rewrite app_assoc. apply Hnd. rewrite fmap_app. cbn. apply NoDup_app. split_and!; [done| |apply NoDup_singleton]. set_solver.
Qed.

Lemma pseudonyms_enough draws : forall ids m, NoDup draws -> (forall d, d ∈ draws -> d ∉ m.*1) -> (length ids <= length draws)%nat ->
  exists pm, generatePseudonymMap draws ids m = Ok pm.
Proof.
  induction draws as [|d draws IH]; intros [|uid ids] m Hnd Hdis Hlen; cbn in *; try lia; [by eexists..|].
  apply NoDup_cons in Hnd as [Hd Hnd]. rewrite bool_decide_eq_false_2 by (apply Hdis; left). apply IH; [done| |lia].
  intros d' Hd' Hin. apply map_set_keys in Hin as [->|Hin]; [done|]. eapply Hdis; [by right|done].
Qed.

Lemma spread_assoc b : NoDup b.*1 -> forall a k, assoc k (spread a b) = match assoc k b with Some v => Some v | None => assoc k a end.
Proof.
  intros Hnd. induction b as [|[x y] b IH]; intros a k; [done|]. cbn in Hnd |- *. apply NoDup_cons in Hnd as [Hx Hnd].
  fold (spread (map_set x y a) b). rewrite IH by done. destruct (assoc k b) as [v|] eqn:E; case_bool_decide as Hk; subst; try done.
  - apply assoc_elem in E. exfalso. apply Hx. by apply (list_elem_of_fmap_2 fst) in E.
  - by rewrite assoc_set, bool_decide_eq_true_2.
  - by rewrite assoc_set, bool_decide_eq_false_2.
Qed.

Lemma without_assoc k k' f : assoc k (without k' f) = if bool_decide (k = k') then None else assoc k f.
Proof.
  unfold without. induction f as [|[x y] f IH]; cbn; [by case_bool_decide|].
  destruct (bool_decide (x = k')) eqn:Hx; [apply bool_decide_eq_true in Hx as ->|apply bool_decide_eq_false in Hx]; cbn; rewrite IH;
    repeat case_bool_decide; congruence.
Qed.

(** The keys of the literals are distinct texts. *)
Ltac literal := cbn [assoc]; repeat first
  [ rewrite bool_decide_eq_true_2 by reflexivity
  | rewrite bool_decide_eq_false_2 by (let E := fresh in intros E; vm_compute in E; discriminate E) ].
Lemma literal_keys : NoDup [js "participants"; js "v"; js "generation"; js "deliveryTokenMap"; js "members"] /\ NoDup [js "generation"; js "pseudonymMap"].
Proof. split; apply (bool_decide_eq_true_1 _); vm_compute; reflexivity. Qed.

(** C22: rotated metadata describe the group as it is now. With enough fresh pseudonyms the
    result is v3, one generation further, with an entry for exactly the participants:
    old members keep theirs (and so their role), a new one joins as MEMBER at this
    generation. The pseudonym map is new and gives every participant one pseudonym of
    its own, whatever map the old metadata had; the token, the title and every other
    field stay, and delivery tokens are kept, new ones added. *)
Theorem rotated_metadata_fits_roster existing ids tokens draws prev entries :
  member_entries existing = Ok entries -> NoDup draws -> (length ids <= length draws)%nat -> NoDup tokens.*1 ->
  exists m p gen pm members, buildRotatedGroupMetadata existing ids tokens = Ok (m, gen) /\ prepareGroupMetadata draws prev m = Ok p /\
    gen = generation_of existing + 1 /\ prop p "generation" = JNum gen /\ prop p "v" = JNum 3 /\
    prop p "participants" = JArr (map JStr ids) /\ prop p "members" = JArr members /\
    members = map (fun uid => default (new_entry uid gen) (prev_entry entries uid)) ids /\
    prop p "pseudonymMap" = JObj pm /\ pm.*2 = map JStr ids /\ NoDup pm.*1 /\ (forall x, x ∈ pm.*1 -> x ∈ draws) /\
    (exists dt, prop p "deliveryTokenMap" = JObj dt /\ forall uid,
       assoc uid dt = match assoc uid tokens with Some t => Some t | None => assoc uid (fields_of (prop existing "deliveryTokenMap")) end) /\
    (forall k, k ∉ [js "participants"; js "v"; js "generation"; js "deliveryTokenMap"; js "members"; js "pseudonymMap"] ->
       assoc k (fields_of p) = assoc k (fields_of existing)).
Proof.
  intros Hm Hnd Hlen Htok. destruct literal_keys as [Hk1 Hk2].
  destruct (pseudonyms_enough draws ids [] Hnd) as (pm & Epm); [set_solver|done|]. destruct (pseudonyms_spec _ _ _ _ Epm) as (new & -> & H2 & Hin & Hndp).
  unfold buildRotatedGroupMetadata. rewrite Hm, bind_ok. set (members := map (fun uid => default _ _) ids). set (m := JObj (spread _ _)).
  assert (Hf : forall k, assoc k (fields_of m) = match assoc k [(js "participants", JArr (map JStr ids)); (js "v", JNum 3); (js "generation", JNum (generation_of existing));
         (js "deliveryTokenMap", JObj (spread (fields_of (prop existing "deliveryTokenMap")) tokens)); (js "members", JArr members)] with
         Some v => Some v | None => if bool_decide (k = js "pseudonymMap") then None else assoc k (fields_of existing) end).
  { intros k. unfold m. cbn [fields_of]. by rewrite spread_assoc, without_assoc. }
  assert (Hp : forall k, prop m k = default JUndef (assoc (js k) (fields_of m))) by done.
  set (p := JObj (spread (fields_of m) [(js "generation", JNum (generation_of m + 1)); (js "pseudonymMap", JObj new)])).
  assert (Hg : generation_of m = generation_of existing) by (unfold generation_of at 1; rewrite Hp, Hf; literal; reflexivity).
  assert (Hpf : forall k, assoc k (fields_of p) = match assoc k [(js "generation", JNum (generation_of existing + 1)); (js "pseudonymMap", JObj new)] with
         Some v => Some v | None => assoc k (fields_of m) end).
  { intros k. unfold p. cbn [fields_of]. by rewrite spread_assoc, Hg. }
  assert (Hpp : forall k, prop p k = default JUndef (assoc (js k) (fields_of p))) by done.
  exists m, p, (generation_of existing + 1), new, members. split_and!; try (rewrite Hpp, Hpf, ?Hf; literal; reflexivity); try done.
  - unfold prepareGroupMetadata. replace (v2_or_v3 m) with true by (unfold v2_or_v3; rewrite Hp, Hf; literal; reflexivity).
    replace (js_truthy (prop m "pseudonymMap")) with false by (rewrite Hp, Hf; literal; reflexivity). cbn [andb negb].
    replace (texts_of (prop m "participants")) with ids; [|rewrite Hp, Hf; literal; cbn; clear; induction ids as [|u l IH]; [done|cbn; by rewrite <- IH]].
    rewrite Epm, bind_ok. cbn [app]. fold p. rewrite bind_ok. replace (js_truthy (prop p "deliveryTokenMap")) with true by (rewrite Hpp, Hpf, Hf; literal; reflexivity).
    by rewrite andb_false_r.
  - apply Hndp. constructor.
  - eexists. split; [rewrite Hpp, Hpf, Hf; literal; reflexivity|]. intros uid. by rewrite spread_assoc.
  - intros k Hk. rewrite Hpf, Hf. cbn [assoc]. rewrite !bool_decide_eq_false_2 by set_solver. done.
Qed.
End RosterRules.

(** ** The remembered state *)
Section StateRules.
Context `{SL : SodiumLaws}.

(** What a reload finds for a conversation, and when the row is sound. *)
Definition remembered (seed : option bytes) (kv : list (jstr * jstr)) (id : jstr) : option jsval :=
  match assoc id kv with
  | Some v => match decryptValueAtRest seed v with None | Some [] => None | Some plain => JSON_parse plain end
  | None => None
  end.
Definition kv_sound (seed : option bytes) (kv : list (jstr * jstr)) : Prop :=
  NoDup kv.*1 /\ forall id v c plain, (id, v) ∈ kv -> decryptValueAtRest seed v = Some (c :: plain) -> JSON_parse (c :: plain) <> None.
Definition reloaded (w : world) : world := on_client (with_memory []) w.

Lemma open_states_spec seed kv : kv_sound seed kv ->
  exists states, open_states seed kv = Some states /\ forall id, assoc id states = remembered seed kv id.
Proof.
  unfold remembered. induction kv as [|[k v] kv IH]; intros [Hnd Hok]; [by exists []|]. cbn [fmap list_fmap] in Hnd. apply NoDup_cons in Hnd as [Hk Hnd].
  destruct IH as (states & Es & Hs); [split; [done|]; intros; eapply Hok; [by right|done]|].
  assert (Hno : assoc k kv = None) by (destruct (assoc k kv) as [a|] eqn:Ea; [|done]; apply assoc_elem in Ea; exfalso; apply Hk;
    by apply (list_elem_of_fmap_2 fst) in Ea).
  cbn [open_states assoc]. pose proof (Hok k v) as Hv. destruct (decryptValueAtRest seed v) as [[|c plain]|] eqn:Ed.
  1, 3: exists states; split; [done|]; intros id; rewrite Hs; case_bool_decide; subst; [by rewrite Hno, Ed|done].
  destruct (JSON_parse (c :: plain)) as [st|] eqn:Ep; [|exfalso; apply (Hv c plain); [left|done..]]. rewrite Es.
  exists ((k, st) :: states). split; [done|]. intros id. cbn [assoc]. case_bool_decide; [by rewrite Ed|apply Hs].
Qed.

Lemma read_reloaded w id : kv_sound (cl_masterSeed (w_client w)) (default [] (cl_kv (w_client w))) ->
  (readState (Ok tt) id (reloaded w)).1 =
    Ok (match remembered (cl_masterSeed (w_client w)) (default [] (cl_kv (w_client w))) id with
        | Some st => if js_truthy st then Some st else None | None => None end).
Proof.
  intros Hs. destruct (open_states_spec _ _ Hs) as (states & Es & Hst). unfold readState, reloaded, loadStates. cbn. rewrite Es. cbn.
  rewrite Hst. destruct (remembered _ _ _) as [st|]; [|done]. by destruct (js_truthy st).
Qed.

(** What a rotation remembers survives the tab: after a reload the client finds the
    very state it wrote, pending token included, and for every other group what it
    found before; the row stays sound. *)
Theorem epoch_state_survives_reload seed nonce id epoch rotatedAt messageSeq token w :
  cl_masterSeed (w_client w) = Some seed -> kv_sound (Some seed) (default [] (cl_kv (w_client w))) -> blen nonce = 24 ->
  (forall t, token = Some t -> forallb scalar t = true) ->
  let st := stored_state epoch rotatedAt messageSeq token in
  let w' := (writeState (Ok tt) nonce id (Some st) w).2 in
  kv_sound (Some seed) (default [] (cl_kv (w_client w'))) /\
  (readState (Ok tt) id (reloaded w')).1 = Ok (Some st) /\
  (forall id', id' <> id -> (readState (Ok tt) id' (reloaded w')).1 = (readState (Ok tt) id' (reloaded w)).1).
Proof.
  intros Hseed Hkv Hn Ht st w'. assert (Hok : json_ok st = true).
  { unfold st, stored_state. destruct token as [t|]; cbn; [rewrite (Ht t eq_refl)|]; by rewrite bool_decide_eq_true_2 by (apply (bool_decide_eq_true_1 _); vm_compute; reflexivity). }
  destruct (stringify_text st Hok) as [Htx Hpre].
  destruct (value_at_rest_roundtrip seed nonce (JSON_stringify st) Hn Htx Hpre) as (e & Ee & _ & Hd).
  set (kv := default [] (cl_kv (w_client w))) in *.
  assert (Hw : cl_masterSeed (w_client w') = Some seed /\ cl_kv (w_client w') = Some (map_set id e kv)).
  { unfold w', writeState. cbn [snd on_client w_client]. cbn [mbind option_bind with_memory cl_masterSeed cl_kv]. rewrite bind_ok, Hseed, Ee, bind_ok.
    cbn. by rewrite Hseed. }
  destruct Hw as [Hs' Hk']. destruct (stringify_head st) as (c & l & Eh & _).
  assert (Hrem : forall id', remembered (Some seed) (map_set id e kv) id' = if bool_decide (id' = id) then Some st else remembered (Some seed) kv id').
  { intros id'. unfold remembered. rewrite assoc_set. case_bool_decide; [|done]. rewrite Hd, Eh, <- Eh. by apply json_roundtrip. }
  assert (Hsound : kv_sound (Some seed) (map_set id e kv)).
  { destruct Hkv as [Hnd Hp]. split; [by apply map_set_nodup|]. intros k v c' plain Hin Hdec.
    apply map_set_elem in Hin as [[-> ->]|Hin]; [|by eapply Hp]. assert (E : JSON_stringify st = c' :: plain) by congruence.
    by rewrite <- E, json_roundtrip. }
  rewrite Hk'. cbn [default from_option]. unfold Datatypes.id. split; [done|]. split.
  - rewrite read_reloaded; rewrite Hs', Hk'; [|done]. cbn [default from_option]. unfold Datatypes.id. by rewrite Hrem, bool_decide_eq_true_2.
  - intros id' Hne. rewrite !read_reloaded; rewrite ?Hs', ?Hk', ?Hseed; [|done..]. cbn [default from_option]. unfold Datatypes.id.
    rewrite Hrem, bool_decide_eq_false_2 by done. done.
Qed.
End StateRules.

(** ** Concrete runs: an admin of a group of two whose epoch is two days old *)
Module ToyEpoch.
Import Toy ToyServer ToyMembers.
Definition id_ : jstr := js "group-1".
Definition adminToken_ : jstr := js "capability".
Definition meta_ : jsval :=
  JObj [(js "title", JStr (js "Climbers")); (js "v", JNum 3); (js "generation", JNum 4); (js "authSecret", JStr (js "old token"));
        (js "participants", JArr [JStr (js "ann"); JStr (js "bob")]); (js "pseudonymMap", JObj [(js "p1", JStr (js "ann"))]);
        (js "members", JArr [JObj [(js "userId", JStr (js "ann")); (js "role", JStr (js "OWNER")); (js "joinedAtGeneration", JNum 1)]])].
Definition sc_ : store_conv := mkStoreConv id_ (Some adminToken_) (Some meta_) [js "ann"; js "bob"].
Definition group_ : group :=
  mkGroup (mkConversation (Some (hashGroupToken (js "old token"))) 3 None (Some 1000)) (Some (hashAdminToken adminToken_)) true (Some 500)
    (Some 20) (Some (js "old blob")).
Definition world_ : world :=
  mkWorld (mkServer [(id_, group_)] []) (mkClient (Some (js "ann")) [sc_] [] None (Some (zeros 32))) [].
Definition day : Z := 86400000.
Definition smooth (deleteSender : result unit) (put : fate) : circumstances :=
  mkCircumstances (2 * day) (2 * day) (2 * day) (2 * day + 50) Delivered Delivered Delivered put (Ok tt) (Ok tt) (Ok tt)
    (zeros 24) (zeros 24) (js "new token") [js "q1"; js "q2"] deleteSender (fun _ => Ok (js "new blob")) (Ok (Some (js "q1"))) (Ok 1) (Ok 0).

Lemma admin_here : admin_of world_ id_ sc_ meta_ adminToken_ group_.
Proof.
  split; [reflexivity|vm_compute; reflexivity|reflexivity|discriminate|reflexivity|reflexivity|reflexivity| |].
  - eexists. split; [reflexivity|vm_compute; reflexivity].
  - split; intros t [= <-]; unfold iso_range; lia.
Qed.
Lemma started d f : well_started (smooth d f).
Proof. split; [reflexivity|reflexivity|discriminate|reflexivity|unfold iso_range; cbn; unfold day; lia|unfold iso_range, groupTokenExpiry, GROUP_TOKEN_TTL_MS; cbn; unfold day; lia]. Qed.
Lemma due d f : wanted (smooth d f) false group_ None.
Proof. right. vm_compute. reflexivity. Qed.
End ToyEpoch.

Section EpochWitnesses.
Import Toy ToyServer ToyMembers ToyEpoch.

Lemma epoch_rotation_delivers_witness :
  exists w' g', maybeRotateGroupEpoch (fun _ => None) (smooth (Ok tt) Delivered) id_ false world_ = (Ok rotated, w') /\
    assoc id_ (sv_groups (w_server w')) = Some g' /\ groupEpoch (gr_conv g') = 4 /\
    only_token_opens (w_server w') id_ (js "new token") (3 * day) /\ gr_encryptedMetadata g' = Some (js "new blob").
Proof.
  destruct (epoch_rotation_delivers (fun _ => None) (smooth (Ok tt) Delivered) id_ false sc_ meta_ adminToken_ group_ None (js "new blob")
    (Some (js "q1")) tt world_ world_) as (w' & g' & Hr & Hg & He & Ho & Hb & _);
    [apply admin_here|apply started|reflexivity|reflexivity|reflexivity|vm_compute; reflexivity|reflexivity|reflexivity|apply due|vm_compute; reflexivity|].
  exists w', g'. by split_and!.
Defined.


Lemma epoch_retry_waits_witness :
  exists w' g', maybeRotateGroupEpoch (fun _ => None) (smooth (Err "locked") Delivered) id_ false world_ = (Ok unavailable, w') /\
    assoc id_ (sv_groups (w_server w')) = Some g' /\ pending_of (assoc id_ (cl_memory (w_client w'))) = Some (js "new token") /\
    exists w'', maybeRotateGroupEpoch (fun _ => None) (smooth (Ok tt) Delivered) id_ true w' = (Ok rotated, w'') /\
      assoc id_ (sv_groups (w_server w'')) = Some (with_metadata g' (js "new blob")).
Proof.
  destruct (epoch_retry_waits (fun _ => None) (smooth (Err "locked") Delivered) id_ false sc_ meta_ adminToken_ group_ None "locked" world_ world_)
    as (w' & g' & Hr & Hg & _ & _ & _ & _ & Hp & _ & Hf); [apply admin_here|apply started|reflexivity|reflexivity|reflexivity|apply due|].
  exists w', g'. split_and!; [done..|].
  destruct (Hf (smooth (Ok tt) Delivered) tt (js "new blob") (Some (js "q1"))) as (w'' & Hr' & Hg' & _);
    [reflexivity|reflexivity|reflexivity|reflexivity|vm_compute; reflexivity|vm_compute; reflexivity|]. exists w''. split; [exact Hr'|exact Hg'].
Defined.

Lemma rotated_metadata_fits_roster_witness :
  exists m p pm, buildRotatedGroupMetadata meta_ [js "ann"; js "bob"] [] = Ok (m, 5) /\
    prepareGroupMetadata [js "q1"; js "q2"] None m = Ok p /\ prop p "pseudonymMap" = JObj pm /\ pm.*2 = [JStr (js "ann"); JStr (js "bob")].
Proof.
  destruct (rotated_metadata_fits_roster meta_ [js "ann"; js "bob"] [] [js "q1"; js "q2"] None
    [JObj [(js "userId", JStr (js "ann")); (js "role", JStr (js "OWNER")); (js "joinedAtGeneration", JNum 1)]])
    as (m & p & gen & pm & members & Hb & Hp & -> & _ & _ & _ & _ & _ & Hm & H2 & _);
    [vm_compute; reflexivity|apply (bool_decide_eq_true_1 _); vm_compute; reflexivity|cbn; lia|constructor|].
  by exists m, p, pm.
Defined.

Lemma epoch_state_survives_reload_witness :
  (readState (Ok tt) id_ (reloaded (writeState (Ok tt) (zeros 24) id_ (Some (stored_state 4 9 20 (Some (js "t")))) world_).2)).1 =
    Ok (Some (stored_state 4 9 20 (Some (js "t")))).
Proof.
  apply (epoch_state_survives_reload (zeros 32) (zeros 24) id_ 4 9 20 (Some (js "t")) world_);
    [reflexivity|split; [constructor|intros * Hin; by apply not_elem_of_nil in Hin]|vm_compute; reflexivity|intros t [= <-]; vm_compute; reflexivity].
Defined.
End EpochWitnesses.
