(* ===== verification/MessageStore.v ===== *)
(** The store-and-forward of messages on the server: sending over the realtime channel
    with its slots against duplicates ([handleChatMessage] of
    network/realtimeHandlers.ts) and over REST, catching up (routes/messages.ts),
    unsending, messages that can be opened once (utils/viewOnceRecipients.ts), the
    proof of participation (utils/conversationParticipants.ts), sequence numbers, the
    sealed identities of utils/senderIdentity.ts and the sweeper of expired messages
    (jobs/messageSweeper.ts). Handlers are programs over their commands (Effects), so
    that requests interleave; the parallel relays to several recipients go in order.
    Rate limits, metrics, the job lock, the jitter of releases and DELETE /:id with its
    object storage are left out; a payload is what its schema let through. *)
From stdpp Require Import pretty sorting.
From S2P Require Import Prelude Bytes Base64 Utf8 Text Js JsDate PqWire Sodium LocalAtRest Json AtRest Effects Membership GroupAccess.

(** [@default(uuid())]: the ids the database draws. *)
Class MessageIds := { uuid : nat -> jstr }.
Class MessageIdsLaws `{MessageIds} := {
  uuid_injective : forall n m, uuid n = uuid m -> n = m;
  uuid_word : forall n, uuid n <> [] /\ uuid n <> js "pending" }.

Module Messages.

(** ** Tables *)
Record Message := mkMessage {
  ms_id : jstr; ms_conversationId : jstr; ms_senderId : option jstr; ms_content : option jstr; ms_system : bool;
  ms_deleteSecret : option jstr; ms_sessionId : option jstr; ms_seq : Z; ms_createdAt : Z; ms_expiresAt : option Z;
  ms_isViewOnce : bool; ms_repliedToId : option jstr }.
Record conv_row := mkConv { cv_isGroup : bool; cv_groupEpoch : Z; cv_messageSeq : Z; cv_lastMessageAt : option Z }.
(** Statuses are message id and user tag, session keys conversation and device,
    devices id and user, recipients and opens message id and tag. *)
Record tables := mkTables {
  t_messages : list Message; t_convs : list (jstr * conv_row); t_members : list member_row; t_statuses : list (jstr * jstr);
  t_sessionKeys : list (jstr * jstr); t_devices : list (jstr * jstr); t_recipients : list (jstr * jstr);
  t_opens : list (jstr * jstr); t_serial : nat }.
Definition with_messages (m : list Message) (t : tables) : tables :=
  mkTables m (t_convs t) (t_members t) (t_statuses t) (t_sessionKeys t) (t_devices t) (t_recipients t) (t_opens t) (t_serial t).
Definition with_convs (c : list (jstr * conv_row)) (t : tables) : tables :=
  mkTables (t_messages t) c (t_members t) (t_statuses t) (t_sessionKeys t) (t_devices t) (t_recipients t) (t_opens t) (t_serial t).
Definition with_members (m : list member_row) (t : tables) : tables :=
  mkTables (t_messages t) (t_convs t) m (t_statuses t) (t_sessionKeys t) (t_devices t) (t_recipients t) (t_opens t) (t_serial t).
Definition with_recipients (r : list (jstr * jstr)) (t : tables) : tables :=
  mkTables (t_messages t) (t_convs t) (t_members t) (t_statuses t) (t_sessionKeys t) (t_devices t) r (t_opens t) (t_serial t).
Definition with_opens (o : list (jstr * jstr)) (t : tables) : tables :=
  mkTables (t_messages t) (t_convs t) (t_members t) (t_statuses t) (t_sessionKeys t) (t_devices t) (t_recipients t) o (t_serial t).

(** What clients receive. *)
Record RawServerMessage := mkRaw {
  raw_id : jstr; raw_tempId : jsval; raw_system : bool; raw_conversationId : jstr; raw_senderId : jstr;
  raw_content : option jstr; raw_sessionId : option jstr; raw_seq : Z; raw_createdAt : jstr; raw_expiresAt : option jstr;
  raw_isViewOnce : bool; raw_repliedToId : option jstr; raw_isViewed : bool }.
Inductive ack := AckMessage (msg : RawServerMessage) | AckError (error : jstr).
Inductive Event :=
| Ack (userId deviceId msgId : jstr) (a : ack)
| Relay (target : jstr) (msg : RawServerMessage)
| Push (target conversationId messageId : jstr)
| Viewed (target messageId conversationId : jstr)
| DeletedRemotely (target messageId conversationId deletedBy : jstr)
| DeletedBatch (target conversationId : jstr) (messageIds : list jstr).

Record world := mkWorld {
  w_tables : tables; w_redis : gmap jstr (entry jstr); w_db_up : bool; w_redis_up : bool; w_pub_up : bool;
  w_events : list Event; w_now : Z }.

(** ** Commands: a statement or transaction of the database is a function on the
    tables; two connections to Redis, one for keys and one to publish. *)
Inductive cmd : Type -> Type :=
| Db {X} (q : tables -> result X * tables) : cmd (result X)
| RedisSetNx (k : jstr) (ttlSeconds : Z) (v : jstr) : cmd (result bool)
| RedisGet (k : jstr) : cmd (result (option jstr))
| RedisSet (k : jstr) (ttlSeconds : Z) (v : jstr) : cmd (result unit)
| RedisDel (k : jstr) : cmd (result unit)
| Publish (e : Event) : cmd (result unit)
| Sleep (ms : Z) : cmd unit
| DateNow : cmd Z.

Definition with_tables (t : tables) (w : world) : world :=
  mkWorld t (w_redis w) (w_db_up w) (w_redis_up w) (w_pub_up w) (w_events w) (w_now w).
Definition with_redis (r : gmap jstr (entry jstr)) (w : world) : world :=
  mkWorld (w_tables w) r (w_db_up w) (w_redis_up w) (w_pub_up w) (w_events w) (w_now w).
Definition with_event (e : Event) (w : world) : world :=
  mkWorld (w_tables w) (w_redis w) (w_db_up w) (w_redis_up w) (w_pub_up w) (w_events w ++ [e]) (w_now w).
Definition with_now (now : Z) (w : world) : world :=
  mkWorld (w_tables w) (w_redis w) (w_db_up w) (w_redis_up w) (w_pub_up w) (w_events w) now.
Definition do_cmd (X : Type) (c : cmd X) (w : world) : X * world :=
  match c with
  | Db q => if w_db_up w then let '(r, t) := q (w_tables w) in (r, with_tables t w) else (throw "database", w)
  | RedisSetNx k ttl v =>
      if w_redis_up w then
        match redis_get (w_now w) k (w_redis w) with
        | Some _ => (Ok false, w)
        | None => (Ok true, with_redis (redis_setEx (w_now w) k ttl v (w_redis w)) w)
        end
      else (throw "redis", w)
  | RedisGet k => (if w_redis_up w then Ok (redis_get (w_now w) k (w_redis w)) else throw "redis", w)
  | RedisSet k ttl v => if w_redis_up w then (Ok tt, with_redis (redis_setEx (w_now w) k ttl v (w_redis w)) w) else (throw "redis", w)
  | RedisDel k => if w_redis_up w then (Ok tt, with_redis (redis_del [k] (w_redis w)) w) else (throw "redis", w)
  | Publish e => if w_pub_up w then (Ok tt, with_event e w) else (throw "publish", w)
  | Sleep ms => (tt, with_now (w_now w + Z.max 0 ms) w)
  | DateNow => (w_now w, w)
  end.

Definition hx (A : Type) : Type := prog cmd (result A).
#[global] Instance hx_ret : MRet hx := fun A a => Ret (Ok a).
#[global] Instance hx_bind : MBind hx := fun A B f m =>
  prog_bind m (fun r => match r with Ok a => f a | Err e => Ret (Err e) end).
Definition fails {A} (e : string) : hx A := Ret (throw e).
Definition from {A} (r : result A) : hx A := Ret r.
Definition db {X} (q : tables -> result X * tables) : hx X := call (Db q).
Definition query {X} (f : tables -> X) : hx X := db (fun t => (Ok (f t), t)).
Definition send (e : Event) : hx unit := call (Publish e).
Definition date_now : hx Z := prog_bind (call DateNow) (fun t => Ret (Ok t)).
Definition sleep (ms : Z) : hx unit := prog_bind (call (Sleep ms)) (fun _ => Ret (Ok tt)).
Definition caught {A} (m : hx A) (h : A) : hx A := prog_bind m (fun r => Ret (Ok (match r with Ok a => a | Err _ => h end))).
Definition attempt (m : hx unit) : hx unit := caught m tt.
Fixpoint each {A} (f : A -> hx unit) (l : list A) : hx unit :=
  match l with [] => mret tt | a :: l' => f a ≫= fun _ => each f l' end.

(** ** utils/temporalBucket.ts, utils/guestPolicy.ts, utils/messageSequence.ts *)
Definition MESSAGE_TIME_BUCKET_MS : Z := 15 * 60 * 1000.
Definition truncateToBucket (date bucketMs : Z) : Z := date / bucketMs * bucketMs.
Definition messageTimeBucket (now : Z) : Z := truncateToBucket now MESSAGE_TIME_BUCKET_MS.

Definition MAX_RECIPIENTS : Z := 500.
Definition GUEST_MAX_RECIPIENTS : Z := 2.
Definition isEphemeralGuestSubject (sub : jstr) : bool := startsWith (js "guest_") sub.
Definition maxRecipientsFor (userId : jstr) : Z := if isEphemeralGuestSubject userId then GUEST_MAX_RECIPIENTS else MAX_RECIPIENTS.

Definition reserveMessageSeq (conversationId : jstr) (t : tables) : result (Z * tables) :=
  match assoc conversationId (t_convs t) with
  | None => throw "P2025"
  | Some c =>
      let seq := cv_messageSeq c + 1 in
      Ok (seq, with_convs (map_set conversationId (mkConv (cv_isGroup c) (cv_groupEpoch c) seq (cv_lastMessageAt c)) (t_convs t)) t)
  end.
Definition all_digits (s : jstr) : bool := match s with [] => false | _ => forallb js_digit s end.
Definition MAX_SAFE_INTEGER : Z := 9007199254740991.
Definition parseMessageCursor (raw : option jstr) : option Z :=
  let value := trim (default [] raw) in
  if all_digits value then let seq := number value in if seq <=? MAX_SAFE_INTEGER then Some seq else None else None.

(** ** utils/senderIdentity.ts *)
Definition hex_char (c : Z) : bool := js_digit c || ((97 <=? c) && (c <=? 102)) || ((65 <=? c) && (c <=? 70)).
Definition UUID_RE (s : jstr) : bool :=
  bool_decide (map (fun p => Z.of_nat (length p)) (split 45 s) = [8; 4; 4; 4; 12]) && forallb (forallb hex_char) (split 45 s).
Definition isUsableSenderPseudonym (value : option jstr) (userId : jstr) : bool :=
  match value with
  | None => false
  | Some value =>
      let trimmed := trim value in
      negb (js_length trimmed =? 0) && (js_length trimmed <=? 128) && negb (bool_decide (trimmed = userId)) && negb (UUID_RE trimmed)
  end.
Section Identity.
Context `{ServerCrypto, Sodium} (ring : AtRest.AtRestKeyring).
Definition senderIdForStorage (isGroup : bool) (userId : jstr) (senderPseudonym : option jstr) : result (option jstr) :=
  if negb isGroup then Ok None else
  if isUsableSenderPseudonym senderPseudonym userId then Ok (trim <$> senderPseudonym)
  else s ← AtRest.sealAtRest ring userId; Ok (Some s).
(** [(await openAtRest(v)) ?? v] *)
Definition open_or (v : jstr) : jstr := default v (AtRest.openAtRest ring (Some v)).
Definition openSenderId (stored : option jstr) : option jstr :=
  match stored with None | Some [] => None | Some s => Some (open_or s) end.
Definition SYSTEM_DEVICE_FIELDS : list string := ["targetDeviceKey"; "targetIdentityKey"]%string.
(** Field by field on the parsed object; a blob that is not an object of the readable
    kind (whole numbers) stays. *)
Definition openSystemContentDeviceKeys (content : jstr) : jstr :=
  if negb (existsb (fun f => GroupAccess.includes (quote (js f)) content) SYSTEM_DEVICE_FIELDS) then content else
  match JSON_parse content with
  | Some (JObj fields) =>
      let next := foldl (fun m f =>
        match assoc (js f) m with
        | Some (JStr value) => if bool_decide (value = []) then m else map_set (js f) (JStr (open_or value)) m
        | _ => m
        end) fields SYSTEM_DEVICE_FIELDS in
      if existsb (fun f => match assoc (js f) fields with
           | Some (JStr value) => negb (bool_decide (value = [])) && negb (bool_decide (open_or value = value)) | _ => false end) SYSTEM_DEVICE_FIELDS
      then JSON_stringify (JObj next) else content
  | _ => content
  end.
Definition openMessageForClient (msg : Message) : Message :=
  mkMessage (ms_id msg) (ms_conversationId msg) (open_or <$> ms_senderId msg) (openSystemContentDeviceKeys <$> ms_content msg) (ms_system msg)
    (ms_deleteSecret msg) (open_or <$> ms_sessionId msg) (ms_seq msg) (ms_createdAt msg) (ms_expiresAt msg) (ms_isViewOnce msg)
    (ms_repliedToId msg).

(** ** utils/mappers.ts *)
Definition resolveRepliedToId (stored : option jstr) : option jstr :=
  match stored with None | Some [] => None | Some _ => AtRest.openAtRest ring stored end.
End Identity.
Definition iso (t : Z) : result jstr := match toISOString t with Some s => Ok s | None => throw "Invalid time value" end.
Definition toRawServerMessage (msg : Message) : result RawServerMessage :=
  createdAt ← iso (ms_createdAt msg);
  expiresAt ← match ms_expiresAt msg with Some t => s ← iso t; Ok (Some s) | None => Ok None end;
  Ok (mkRaw (ms_id msg) JUndef (ms_system msg) (ms_conversationId msg) (default [] (ms_senderId msg)) (ms_content msg) (ms_sessionId msg)
        (ms_seq msg) createdAt expiresAt (ms_isViewOnce msg) None false).
Definition with_tempId (tempId : jsval) (m : RawServerMessage) : RawServerMessage :=
  mkRaw (raw_id m) tempId (raw_system m) (raw_conversationId m) (raw_senderId m) (raw_content m) (raw_sessionId m) (raw_seq m)
    (raw_createdAt m) (raw_expiresAt m) (raw_isViewOnce m) (raw_repliedToId m) (raw_isViewed m).
Definition with_reply (r : option jstr) (m : RawServerMessage) : RawServerMessage :=
  mkRaw (raw_id m) (raw_tempId m) (raw_system m) (raw_conversationId m) (raw_senderId m) (raw_content m) (raw_sessionId m) (raw_seq m)
    (raw_createdAt m) (raw_expiresAt m) (raw_isViewOnce m) r (raw_isViewed m).
Definition viewed (m : RawServerMessage) : RawServerMessage :=
  mkRaw (raw_id m) (raw_tempId m) (raw_system m) (raw_conversationId m) (raw_senderId m) None (raw_sessionId m) (raw_seq m)
    (raw_createdAt m) (raw_expiresAt m) (raw_isViewOnce m) (raw_repliedToId m) true.

(** ** Payloads *)
Record MessageSendPayload := mkPayload {
  pl_conversationId : jstr; pl_content : jstr; pl_sessionId : option jstr; pl_tempId : option Z; pl_expiresAt : option Z;
  pl_repliedToId : option jstr; pl_isViewOnce : bool; pl_targetRecipients : option (list jstr); pl_deleteSecret : option jstr;
  pl_senderPseudonym : option jstr; pl_targetDeliveryTokens : list (jstr * jstr) }.
Definition truthy (s : option jstr) : option jstr := match s with Some (_ :: _) => s | _ => None end.

(** The at-rest secrets of the server. *)
Record Config := mkConfig { cf_pepper : jstr; cf_ring : AtRest.AtRestKeyring }.

Section Handlers.
Context `{ServerCrypto, Sodium, MembershipDb, MessageIds} (cf : Config).
Definition tag (conversationId userId : jstr) : jstr := AtRest.conversationScopedTag (cf_pepper cf) conversationId userId.

(** ** utils/conversationParticipants.ts *)
Definition MAX_PARTICIPANT_FALLBACK_CHECKS : nat := 8.
Definition isCandidate (userId : jstr) : bool := (0 <? js_length userId) && (js_length userId <=? 64).
Definition members_query (conversationId : jstr) (userIds : list jstr) : hx (list jstr) :=
  db (fun t => (Routing.filterConversationMembers (cf_ring cf) (t_members t) conversationId (map JStr userIds), t)).
Definition has_receipt (conversationId userTag : jstr) (t : tables) : bool :=
  existsb (fun s => bool_decide (s.2 = userTag) &&
    existsb (fun m => bool_decide (ms_id m = s.1) && bool_decide (ms_conversationId m = conversationId)) (t_messages t)) (t_statuses t).
Definition has_sessionKey (conversationId userId : jstr) (t : tables) : bool :=
  existsb (fun k => bool_decide (k.1 = conversationId) &&
    existsb (fun d => bool_decide (d.1 = k.2) && bool_decide (d.2 = userId)) (t_devices t)) (t_sessionKeys t).
Definition isConversationParticipant (conversationId userId : jstr) : hx bool :=
  if negb (isCandidate userId) || bool_decide (conversationId = []) then mret false else
  membership ← caught (members_query conversationId [userId]) [];
  if 0 <? Z.of_nat (length membership) then mret true else
  receipt ← caught (query (has_receipt conversationId (tag conversationId userId))) false;
  if (receipt : bool) then mret true else
  caught (query (has_sessionKey conversationId userId)) false.
Fixpoint fallback_of (conversationId : jstr) (l : list jstr) : hx (list jstr) :=
  match l with
  | [] => mret []
  | u :: l' =>
      yes ← caught (isConversationParticipant conversationId u) false;
      rest ← fallback_of conversationId l';
      mret (if (yes : bool) then u :: rest else rest)
  end.
Definition filterConversationParticipants (conversationId : jstr) (userIds : list jstr) : hx (list jstr) :=
  let wanted := set_of (List.filter isCandidate userIds) in
  if bool_decide (wanted = []) || bool_decide (conversationId = []) then mret [] else
  members ← caught (members_query conversationId wanted) [];
  let remaining := take MAX_PARTICIPANT_FALLBACK_CHECKS (filter (fun u => u ∉ members) wanted) in
  fallback ← fallback_of conversationId remaining;
  mret (filter (fun u => u ∈ members \/ u ∈ fallback) wanted).

(** ** utils/viewOnceRecipients.ts *)
Definition recordViewOnceRecipients (conversationId messageId senderId : jstr) (recipients : list jstr) : hx Z :=
  if bool_decide (conversationId = []) || bool_decide (messageId = []) || bool_decide (recipients = []) then mret 0 else
  verified ← filterConversationParticipants conversationId (filter (fun id => id <> senderId) recipients);
  if bool_decide (verified = []) then mret 0 else
  let data := map (fun userId => (messageId, tag conversationId userId)) (set_of verified) in
  _ ← db (fun t => (Ok tt, with_recipients (t_recipients t ++ filter (fun d => d ∉ t_recipients t) (remove_dups data)) t));
  mret (Z.of_nat (length data)).
Definition count_of (messageId : jstr) (l : list (jstr * jstr)) : Z := Z.of_nat (length (filter (fun r => r.1 = messageId) l)).
Definition isAddressedViewOnceRecipient (messageId conversationId userId : jstr) : hx (option bool) :=
  if bool_decide (messageId = []) || bool_decide (conversationId = []) || bool_decide (userId = []) then mret None else
  total ← query (fun t => count_of messageId (t_recipients t));
  mine ← query (fun t => bool_decide ((messageId, tag conversationId userId) ∈ t_recipients t));
  mret (if total =? 0 then None else Some mine).
(** Rows that refer to a message go with it. *)
Definition delete_messages (gone : Message -> bool) (t : tables) : tables :=
  let ids := map ms_id (List.filter gone (t_messages t)) in
  let kept := filter (fun r : jstr * jstr => r.1 ∉ ids) in
  mkTables (List.filter (fun m => negb (gone m)) (t_messages t)) (t_convs t) (t_members t) (kept (t_statuses t)) (t_sessionKeys t)
    (t_devices t) (kept (t_recipients t)) (kept (t_opens t)) (t_serial t).
Definition has_id (id : jstr) (m : Message) : bool := bool_decide (ms_id m = id).
Definition delete_message (id : jstr) : hx unit :=
  db (fun t => if existsb (has_id id) (t_messages t) then (Ok tt, delete_messages (has_id id) t) else (throw "P2025", t)).
Definition finalizeViewOnceIfAllOpened (messageId : jstr) : hx bool :=
  if bool_decide (messageId = []) then mret false else
  recipients ← query (fun t => count_of messageId (t_recipients t));
  opened ← query (fun t => count_of messageId (t_opens t));
  if (recipients =? 0) || (opened <? recipients) then mret false else
  _ ← delete_message messageId; mret true.

(** ** The transaction that stores a message *)
Definition seal_truthy (v : option jstr) : result (option jstr) :=
  match truthy v with Some s => e ← AtRest.sealAtRest (cf_ring cf) s; Ok (Some e) | None => Ok None end.
Definition DEFAULT_TTL_MS : Z := 14 * 24 * 60 * 60 * 1000.
(** A date the database takes: an invalid one fails the statement. *)
Definition new_date (t : Z) : result Z := if Z.abs t <=? MAX_TIME then Ok t else throw "Invalid Date".
Definition store_message (now ttlMs : Z) (conv : conv_row) (userId : jstr) (p : MessageSendPayload) (t : tables) : result Message * tables :=
  let messageAt := messageTimeBucket now in
  let stored : result (Message * tables) :=
    ('(seq, t1) ← reserveMessageSeq (pl_conversationId p) t;
     senderId ← senderIdForStorage (cf_ring cf) (cv_isGroup conv) userId (pl_senderPseudonym p);
     sessionId ← seal_truthy (pl_sessionId p);
     repliedToId ← seal_truthy (pl_repliedToId p);
     createdAt ← new_date messageAt;
     expiresAt ← new_date (messageAt + ttlMs);
     let created := mkMessage (uuid (t_serial t1)) (pl_conversationId p) senderId (Some (pl_content p)) false
       (AtRest.hashCredentialToken <$> truthy (pl_deleteSecret p)) sessionId seq createdAt (Some expiresAt) (pl_isViewOnce p) repliedToId in
     let touched := match assoc (pl_conversationId p) (t_convs t1) with
       | Some c => map_set (pl_conversationId p) (mkConv (cv_isGroup c) (cv_groupEpoch c) (cv_messageSeq c) (Some messageAt)) (t_convs t1)
       | None => t_convs t1
       end in
     Ok (created, mkTables (t_messages t1 ++ [created]) touched (t_members t1) (t_statuses t1) (t_sessionKeys t1) (t_devices t1)
           (t_recipients t1) (t_opens t1) (S (t_serial t1)))) in
  match stored with Ok (m, t') => (Ok m, t') | Err e => (Err e, t) end.

(** ** Slots against duplicates *)
Definition SEND_DEDUPE_TTL_SECONDS : Z := 24 * 60 * 60.
Definition pending : jstr := js "pending".
Definition buildSendDedupeKey (deviceId : jstr) (tempId : Z) : jstr := js "nyx:send_dedupe:" ++ deviceId ++ js ":" ++ js (pretty tempId).
Definition sendAck (userId deviceId : jstr) (msgId : option jstr) (a : ack) : hx unit :=
  match truthy msgId with Some id => send (Ack userId deviceId id a) | None => mret tt end.
Inductive reservation := Reserved | Pending | Existing (msgId : jstr).
Fixpoint await_slot (n : nat) (key : jstr) : hx (option jstr) :=
  match n with
  | O => mret None
  | S n' =>
      _ ← sleep 150;
      val ← (call (RedisGet key) : hx (option jstr));
      match val with
      | Some v => if bool_decide (v = pending) then await_slot n' key else mret (Some v)
      | None => await_slot n' key
      end
  end.
Definition reserveMessageSlot (userId deviceId : jstr) (tempId : Z) (msgId : option jstr) : hx reservation :=
  let key := buildSendDedupeKey deviceId tempId in
  set ← (call (RedisSetNx key SEND_DEDUPE_TTL_SECONDS pending) : hx bool);
  if (set : bool) then mret Reserved else
  val ← await_slot 10 key;
  match val with
  | Some v => mret (Existing v)
  | None => _ ← sendAck userId deviceId msgId (AckError (js "Duplicate send in progress, retry")); mret Pending
  end.
Definition completeMessageSlot (deviceId : jstr) (tempId : Z) (createdMessageId : jstr) : hx unit :=
  attempt (call (RedisSet (buildSendDedupeKey deviceId tempId) SEND_DEDUPE_TTL_SECONDS createdMessageId)).
Definition releaseMessageSlot (deviceId : jstr) (tempId : Z) : hx unit := attempt (call (RedisDel (buildSendDedupeKey deviceId tempId))).

(** ** handleChatMessage *)
Definition upsert_query (userId conversationId token : jstr) (tokenEpoch : Z) : hx unit :=
  now ← date_now;
  db (fun t => match Routing.upsertMembership (cf_ring cf) (t_members t) userId conversationId token (Some tokenEpoch) None now with
               | Ok rows => (Ok tt, with_members rows t)
               | Err e => (Err e, t)
               end).
Definition register_target (conv : conv_row) (p : MessageSendPayload) (targetId : jstr) : hx unit :=
  match truthy (assoc targetId (pl_targetDeliveryTokens p)) with
  | Some token => attempt (upsert_query targetId (pl_conversationId p) token (cv_groupEpoch conv))
  | None => mret tt
  end.
Definition relay_to (userId : jstr) (conv : conv_row) (p : MessageSendPayload) (msg : RawServerMessage) (targetId : jstr) : hx unit :=
  _ ← send (Relay targetId msg);
  if bool_decide (targetId = userId) then mret tt else
  _ ← attempt (send (Push targetId (pl_conversationId p) (raw_id msg)));
  register_target conv p targetId.
Definition num_tempId (tempId : option Z) : jsval := match tempId with Some n => JNum n | None => JUndef end.
(** The slot belongs to requests that name a device and a temporary id. *)
Definition slot_of (deviceId : jstr) (p : MessageSendPayload) : option Z := if bool_decide (deviceId = []) then None else pl_tempId p.

(** After the transaction. *)
Definition relay_stored (userId deviceId : jstr) (conv : conv_row) (p : MessageSendPayload) (msgId : option jstr) (created : Message) : hx unit :=
  _ ← (match slot_of deviceId p with Some tempId => completeMessageSlot deviceId tempId (ms_id created) | None => mret tt end);
  raw ← from (toRawServerMessage (openMessageForClient (cf_ring cf) created));
  let safeMessage := with_tempId (num_tempId (pl_tempId p)) (with_reply (truthy (pl_repliedToId p)) raw) in
  _ ← sendAck userId deviceId msgId (AckMessage safeMessage);
  _ ← (match pl_isViewOnce p, pl_targetRecipients p with
       | true, Some ((_ :: _) as rs) => attempt (_ ← recordViewOnceRecipients (pl_conversationId p) (ms_id created) userId rs; mret tt)
       | _, _ => mret tt
       end);
  match pl_targetRecipients p with
  | Some targets => each (relay_to userId conv p safeMessage) targets
  | None => mret tt
  end.
Definition store_and_relay (userId deviceId : jstr) (p : MessageSendPayload) (msgId : option jstr) : hx unit :=
  conversation ← query (fun t => assoc (pl_conversationId p) (t_convs t));
  match conversation with
  | None => sendAck userId deviceId msgId (AckError (js "Conversation not found"))
  | Some conv =>
      now ← date_now;
      let ttlMs := match pl_expiresAt p with Some e => Z.max 0 (e - now) | None => DEFAULT_TTL_MS end in
      created ← db (store_message now ttlMs conv userId p);
      relay_stored userId deviceId conv p msgId created
  end.

(** What a request does with the slot before it stores anything: [None] means that the
    request is over. *)
Definition enter (userId deviceId : jstr) (p : MessageSendPayload) (msgId : option jstr) : hx (option unit) :=
  match slot_of deviceId p with
  | None => mret (Some tt)
  | Some tempId =>
      r ← reserveMessageSlot userId deviceId tempId msgId;
      match r with
      | Reserved => mret (Some tt)
      | Pending => mret None
      | Existing existingMsgId =>
          existing ← query (fun t => List.find (has_id existingMsgId) (t_messages t));
          match existing with
          | Some row =>
              raw ← from (toRawServerMessage (openMessageForClient (cf_ring cf) row));
              _ ← sendAck userId deviceId msgId
                    (AckMessage (with_tempId (JNum tempId) (with_reply (resolveRepliedToId (cf_ring cf) (ms_repliedToId row)) raw)));
              mret None
          | None => _ ← releaseMessageSlot deviceId tempId; mret (Some tt)
          end
      end
  end.
Definition handleChatMessage (userId deviceId : jstr) (payload : option MessageSendPayload) (msgId : option jstr) : hx unit :=
  match payload with
  | None => sendAck userId deviceId msgId (AckError (js "Invalid payload format"))
  | Some p =>
      if match pl_targetRecipients p with Some l => maxRecipientsFor userId <? Z.of_nat (length l) | None => false end
      then sendAck userId deviceId msgId (AckError (js "Too many recipients (max " ++ js (pretty (maxRecipientsFor userId)) ++ js ")"))
      else
        prog_bind (go ← enter userId deviceId p msgId;
                   match go with Some _ => store_and_relay userId deviceId p msgId | None => mret tt end)
          (fun r => match r with
           | Ok _ => Ret (Ok tt)
           | Err _ =>
               _ ← (match slot_of deviceId p with Some tempId => releaseMessageSlot deviceId tempId | None => mret tt end : hx unit);
               sendAck userId deviceId msgId (AckError (js "Internal server error"))
           end)
  end.

(** ** POST /api/messages

    The answer is the stored message; what follows it cannot change it. *)
Record RestBody := mkBody { rb_payload : MessageSendPayload; rb_tempId : jsval; rb_expiresIn : option Z }.
Definition rest_tempId (tempId : jsval) : jsval :=
  match tempId with
  | JNum n => JNum n
  | JStr s => if all_digits s then JNum (number s) else JStr s
  | _ => JUndef
  end.
Definition relay_rest (senderId : jstr) (conv : conv_row) (p : MessageSendPayload) (msg : RawServerMessage) (targetId : jstr) : hx unit :=
  if bool_decide (targetId = senderId) then mret tt else
  _ ← send (Relay targetId msg); register_target conv p targetId.
Definition after_response (senderId : jstr) (conv : conv_row) (p : MessageSendPayload) (msg : RawServerMessage) : hx unit :=
  match pl_targetRecipients p with
  | Some ((_ :: _) as targets) =>
      _ ← (if pl_isViewOnce p then
             attempt (_ ← recordViewOnceRecipients (pl_conversationId p) (raw_id msg) senderId targets; mret tt)
           else mret tt);
      each (relay_rest senderId conv p msg) targets
  | _ => mret tt
  end.
Definition post_message (senderId : jstr) (b : RestBody) : hx RawServerMessage :=
  let p := rb_payload b in
  now ← date_now;
  let ttlMs := match rb_expiresIn b with Some n => if 0 <? n then n * 1000 else DEFAULT_TTL_MS | None => DEFAULT_TTL_MS end in
  conversation ← query (fun t => assoc (pl_conversationId p) (t_convs t));
  match conversation with
  | None => fails "Conversation not found"
  | Some conv =>
      if match pl_targetRecipients p with Some l => maxRecipientsFor senderId <? Z.of_nat (length l) | None => false end
      then fails "Too many recipients" else
      created ← db (store_message now ttlMs conv senderId p);
      raw ← from (toRawServerMessage (openMessageForClient (cf_ring cf) created));
      let safeMessage := with_tempId (rest_tempId (rb_tempId b)) (with_reply (truthy (pl_repliedToId p)) raw) in
      _ ← attempt (after_response senderId conv p safeMessage);
      mret safeMessage
  end.

(** ** GET /api/messages/:conversationId *)
Definition CATCH_UP_PAGE_SIZE : Z := 250.
Definition CATCH_UP_MAX_CURSOR_AGE_MS : Z := 14 * 24 * 60 * 60 * 1000.
(** [parseInt(text, 10)] *)
Fixpoint leading_digits (s : jstr) : jstr :=
  match s with c :: s' => if js_digit c then c :: leading_digits s' else [] | [] => [] end.
Definition parseInt (s : jstr) : option Z :=
  let s := trim_start s in
  let '(sign, ds) := match s with c :: s' => if c =? 45 then (-1, s') else if c =? 43 then (1, s') else (1, s) | [] => (1, s) end in
  match leading_digits ds with [] => None | ds => Some (sign * number ds) end.
Definition page_size (limit : option jstr) : Z :=
  Z.min (match parseInt (default [] limit) with Some n => if 0 <? n then n else CATCH_UP_PAGE_SIZE | None => CATCH_UP_PAGE_SIZE end) CATCH_UP_PAGE_SIZE.
Definition in_window (conversationId : jstr) (now : Z) (beforeSeq : option Z) (m : Message) : bool :=
  bool_decide (ms_conversationId m = conversationId) && (now - CATCH_UP_MAX_CURSOR_AGE_MS <? ms_createdAt m) &&
  match beforeSeq with Some b => ms_seq m <? b | None => true end &&
  match ms_expiresAt m with Some e => now <? e | None => true end.
(** [orderBy: seq desc]; rows of one number stay as the table has them. *)
Definition newer (a b : Message) : Prop := ms_seq b <= ms_seq a.
#[global] Instance newer_dec : RelDecision newer := fun a b => Z_le_dec (ms_seq b) (ms_seq a).
Definition desc (l : list Message) : list Message := merge_sort newer l.
Definition older (a b : Message) : Prop := ms_seq a < ms_seq b \/ ms_seq a = ms_seq b /\ ms_createdAt a <= ms_createdAt b.
#[global] Instance older_dec : RelDecision older.
Proof. intros a b. unfold older. apply _. Defined.
Definition asc (l : list Message) : list Message := merge_sort older l.
(** [new Map(rows by id).values()] *)
Definition by_id (l : list Message) : list Message := map snd (foldl (fun m x => map_set (ms_id x) x m) [] l).
Record CatchUp := mkCatchUp { cu_items : list RawServerMessage; cu_hasMore : bool; cu_nextCursor : option jstr }.

Definition client_view (opened : list jstr) (m : Message) : result RawServerMessage :=
  raw ← toRawServerMessage (openMessageForClient (cf_ring cf) m);
  let raw := match truthy (resolveRepliedToId (cf_ring cf) (ms_repliedToId m)) with Some r => with_reply (Some r) raw | None => raw end in
  Ok (if bool_decide (ms_id m ∈ opened) then viewed raw else raw).
Definition get_messages (userId conversationId : jstr) (before limit : option jstr) : hx CatchUp :=
  now ← date_now;
  let where_ := in_window conversationId now (parseMessageCursor before) in
  let take_ := Z.to_nat (page_size limit) in
  messages ← query (fun t => take (S take_) (desc (List.filter where_ (t_messages t))));
  let hasMore := (take_ <? length messages)%nat in
  let page := take take_ messages in
  systemMessagesDesc ← query (fun t => take 50 (desc (List.filter (fun m => where_ m && ms_system m) (t_messages t))));
  firstSystemMessage ← query (fun t => head (asc (List.filter (fun m => where_ m && ms_system m) (t_messages t))));
  let merged := desc (by_id (page ++ systemMessagesDesc ++ option_list firstSystemMessage)) in
  let viewOnceIds := map ms_id (List.filter ms_isViewOnce merged) in
  opened ← (match viewOnceIds with
            | [] => mret []
            | _ => query (fun t => map fst (filter (fun o : jstr * jstr => o.1 ∈ viewOnceIds /\ o.2 = tag conversationId userId) (t_opens t)))
            end);
  safeMessages ← from (mapR (client_view opened) merged);
  mret (mkCatchUp (rev safeMessages) hasMore
    (match last page with
     | Some oldest => if hasMore then Some (js (pretty (ms_seq oldest))) else None
     | None => None
     end)).

(** ** Opening once and unsending *)
Definition find_message (messageId : jstr) : hx (option (Message * bool)) :=
  query (fun t => match List.find (has_id messageId) (t_messages t) with
    | Some m => Some (m, match assoc (ms_conversationId m) (t_convs t) with Some c => cv_isGroup c | None => false end)
    | None => None
    end).
Definition holds_secret (msg : Message) (deleteSecret : option jstr) : bool :=
  match deleteSecret with Some s => AtRest.credentialTokenMatches (ms_deleteSecret msg) s | None => false end.
Definition emit_unsend (userId messageId conversationId deletedBy : jstr) (targetId : jstr) : hx unit :=
  if bool_decide (targetId = userId) then mret tt else send (DeletedRemotely targetId messageId conversationId deletedBy).
Definition message_unsend (userId messageId conversationId : jstr) (targetRecipients : option (list jstr)) (deleteSecret : option jstr) : hx unit :=
  if bool_decide (messageId = []) || bool_decide (conversationId = []) then mret tt else
  msg ← find_message messageId;
  match msg with
  | None => mret tt
  | Some (msg, _) =>
      if negb (bool_decide (ms_conversationId msg = conversationId)) then mret tt else
      let openedSenderId := openSenderId (cf_ring cf) (ms_senderId msg) in
      let isSender := bool_decide (openedSenderId = Some userId) in
      if negb isSender && negb (holds_secret msg deleteSecret) then mret tt else
      _ ← delete_message messageId;
      let recipients := match targetRecipients with Some ((_ :: _) as l) => l | _ => option_list (truthy openedSenderId) end in
      each (emit_unsend userId messageId conversationId (default userId openedSenderId)) recipients
  end.

Definition record_open (messageId openerTag : jstr) : hx unit :=
  db (fun t => if existsb (has_id messageId) (t_messages t)
               then (Ok tt, if bool_decide ((messageId, openerTag) ∈ t_opens t) then t else with_opens (t_opens t ++ [(messageId, openerTag)]) t)
               else (throw "P2003", t)).
Definition notify_viewed (userId messageId conversationId : jstr) (candidate : option jstr) : hx unit :=
  match truthy candidate with
  | Some c =>
      if bool_decide (c = userId) then mret tt else
      yes ← caught (isConversationParticipant conversationId c) false;
      if (yes : bool) then send (Viewed c messageId conversationId) else mret tt
  | None => mret tt
  end.
Definition open_message (userId messageId conversationId : jstr) (isGroup : bool) : hx unit :=
  _ ← attempt (record_open messageId (tag conversationId userId));
  if negb isGroup then attempt (delete_message messageId)
  else _ ← caught (finalizeViewOnceIfAllOpened messageId) false; mret tt.
Definition view_once_opened (userId messageId conversationId : jstr) (targetRecipient deleteSecret : option jstr) : hx unit :=
  if bool_decide (messageId = []) || bool_decide (conversationId = []) then mret tt else
  msg ← find_message messageId;
  match msg with
  | None => mret tt
  | Some (msg, isGroup) =>
      if negb (bool_decide (ms_conversationId msg = conversationId)) || negb (ms_isViewOnce msg) then mret tt else
      let openedSenderId := openSenderId (cf_ring cf) (ms_senderId msg) in
      let isSender := bool_decide (openedSenderId = Some userId) || holds_secret msg deleteSecret in
      if isSender then open_message userId messageId conversationId isGroup else
      isRecipient ← caught (isConversationParticipant conversationId userId) false;
      if negb isRecipient then mret tt else
      addressed ← caught (isAddressedViewOnceRecipient messageId conversationId userId) None;
      if bool_decide (addressed = Some false) then mret tt else
      _ ← notify_viewed userId messageId conversationId (match openedSenderId with Some s => Some s | None => targetRecipient end);
      open_message userId messageId conversationId isGroup
  end.

(** ** jobs/messageSweeper.ts *)
Definition SWEEP_BATCH_SIZE : nat := 500.
Definition MAX_SWEEP_BATCHES_PER_RUN : nat := 20.
Definition due (now : Z) (m : Message) : bool :=
  match ms_expiresAt m with Some e => e <=? now | None => false end || (ms_createdAt m <=? now - DEFAULT_TTL_MS).
(** [orderBy: expiresAt asc, nulls first] *)
Definition sooner (a b : Message) : Prop :=
  match ms_expiresAt a, ms_expiresAt b with None, _ => True | Some _, None => False | Some x, Some y => x <= y end.
#[global] Instance sooner_dec : RelDecision sooner.
Proof. intros a b. unfold sooner. destruct (ms_expiresAt a), (ms_expiresAt b); apply _. Defined.
Definition notify_deleted (expired : list Message) (rows : list member_row) (conversationId : jstr) : hx unit :=
  let ids := map ms_id (filter (fun m => ms_conversationId m = conversationId) expired) in
  let users := omap (fun r => truthy (Routing.resolveRoutingUser (cf_ring cf) (mr_userId r)))
                 (filter (fun r => mr_conversationId r = conversationId) rows) in
  each (fun u => send (DeletedBatch u conversationId ids)) users.
Definition sweepBatch (now : Z) : hx nat :=
  expired ← query (fun t => take SWEEP_BATCH_SIZE (merge_sort sooner (List.filter (due now) (t_messages t))));
  if bool_decide (expired = []) then mret 0%nat else
  let affected := set_of (map ms_conversationId expired) in
  rows ← query (fun t => filter (fun r => mr_conversationId r ∈ affected) (t_members t));
  _ ← each (notify_deleted expired rows) affected;
  let ids := map ms_id expired in
  _ ← db (fun t => (Ok tt, delete_messages (fun m => bool_decide (ms_id m ∈ ids)) t));
  mret (length expired).
Fixpoint sweep_loop (batches : nat) (now : Z) : hx unit :=
  match batches with
  | O => mret tt
  | S n => deleted ← sweepBatch now; if (deleted <? SWEEP_BATCH_SIZE)%nat then mret tt else sweep_loop n now
  end.
Definition message_sweeper : hx unit := attempt (now ← date_now; sweep_loop MAX_SWEEP_BATCHES_PER_RUN now).
End Handlers.

(** ** The catch-up loop of the client (store/message.ts) *)
Definition MAX_BACKFILL_PAGES : nat := 4.
Record Backfill := mkBackfill { bf_fetched : list RawServerMessage; bf_serverHasMore : bool; bf_cursor : option jstr }.
Fixpoint backfill_pages (fetch : option jstr -> hx CatchUp) (pages : nat) (acc : list RawServerMessage) (more : bool) (cursor : option jstr) : hx Backfill :=
  match pages with
  | O => mret (mkBackfill acc more cursor)
  | S n =>
      res ← fetch cursor;
      let acc := acc ++ cu_items res in
      let cursor := truthy (cu_nextCursor res) in
      if negb (cu_hasMore res) || bool_decide (cursor = None) || bool_decide (length (cu_items res) = 0%nat)
      then mret (mkBackfill acc (cu_hasMore res) cursor)
      else backfill_pages fetch n acc (cu_hasMore res) cursor
  end.
(** Duplicates across pages go, by id; the last one stays at the first one's place. *)
Definition dedupe (l : list RawServerMessage) : list RawServerMessage := map snd (foldl (fun m x => map_set (raw_id x) x m) [] l).
Definition backfill (fetch : option jstr -> hx CatchUp) : hx Backfill :=
  b ← backfill_pages fetch MAX_BACKFILL_PAGES [] false None;
  mret (mkBackfill (dedupe (bf_fetched b)) (bf_serverHasMore b) (bf_cursor b)).
End Messages.
