(* ===== verification/MessageSequence.v ===== *)
(** The numbers of messages and what sending again does: in every conversation the
    messages have numbers of their own under any interleaving of requests, and the
    retries of one send store one message as long as nothing fails. *)
From stdpp Require Import pretty sorting.
From S2P Require Import Prelude Bytes Base64 Utf8 Text Js JsDate PqWire Sodium LocalAtRest Json AtRest Effects Membership MessageStore.
Import Messages.

(** ** Requests *)
Inductive request :=
| ReqChat (userId deviceId : jstr) (payload : option MessageSendPayload) (msgId : option jstr)
| ReqPost (senderId : jstr) (b : RestBody)
| ReqGet (userId conversationId : jstr) (before limit : option jstr)
| ReqUnsend (userId messageId conversationId : jstr) (targets : option (list jstr)) (deleteSecret : option jstr)
| ReqOpened (userId messageId conversationId : jstr) (target deleteSecret : option jstr)
| ReqSweep.

Section Sequence.
Context `{ServerCrypto, Sodium, MembershipDb, MessageIdsLaws} (cf : Config).

Definition ended {A} (m : hx A) : prog cmd unit := prog_bind m (fun _ => Ret tt).
Definition handle (r : request) : prog cmd unit :=
  match r with
  | ReqChat u d p i => ended (handleChatMessage cf u d p i)
  | ReqPost u b => ended (post_message cf u b)
  | ReqGet u c b l => ended (get_messages cf u c b l)
  | ReqUnsend u m c t s => ended (message_unsend cf u m c t s)
  | ReqOpened u m c t s => ended (view_once_opened cf u m c t s)
  | ReqSweep => ended (message_sweeper cf)
  end.

(** ** The tables at every moment *)
Definition number_of (m : Message) : jstr * Z := (ms_conversationId m, ms_seq m).
Definition counter (c : jstr) (t : tables) : Z := match assoc c (t_convs t) with Some row => cv_messageSeq row | None => 0 end.
Record tables_ok (t : tables) : Prop := mkTablesOk {
  to_ids : NoDup (map ms_id (t_messages t));
  to_drawn : forall m, m ∈ t_messages t -> exists n, (n < t_serial t)%nat /\ ms_id m = uuid n;
  to_numbers : NoDup (map number_of (t_messages t));
  to_counted : forall m, m ∈ t_messages t -> ms_seq m <= counter (ms_conversationId m) t }.
(** Counters only grow, and a message that was not there is above the old counter. *)
Record grows (t t' : tables) : Prop := mkGrows {
  gr_counter : forall c, counter c t <= counter c t';
  gr_new : forall m, m ∈ t_messages t' -> m ∈ t_messages t \/ counter (ms_conversationId m) t < ms_seq m }.
#[global] Instance grows_preorder : PreOrder grows.
Proof.
  split; [split; [done|by left]|]. intros t1 t2 t3 [Ha Hb] [Hc Hd]. split.
  - intros c. specialize (Ha c). specialize (Hc c). lia.
  - intros m Hm. destruct (Hd m Hm) as [Hm'|Hm']; [by apply Hb|]. right. specialize (Ha (ms_conversationId m)). lia.
Qed.
(** What keeps the invariant and only grows. *)
Definition sound (t t' : tables) : Prop := tables_ok t -> tables_ok t' /\ grows t t'.

Lemma sound_ext t t' : t_messages t' = t_messages t -> t_convs t' = t_convs t -> t_serial t' = t_serial t -> sound t t'.
Proof.
  intros Em Ec Es [Ha Hb Hc Hd]. assert (He : forall c, counter c t' = counter c t) by (intros c; unfold counter; by rewrite Ec).
  split; split; rewrite ?Em, ?Es; try done.
  - intros m Hm. rewrite He. by apply Hd.
  - intros c. by rewrite He.
  - intros m Hm. by left.
Qed.

Lemma nodup_filter_map {A B} (f : A -> B) (P : A -> bool) l : NoDup (map f l) -> NoDup (map f (List.filter P l)).
Proof.
  induction l as [|a l IH]; [done|]. cbn. intros Hn. apply NoDup_cons in Hn as [Ha Hn]. destruct (P a); [|by apply IH].
  cbn. constructor; [|by apply IH]. intros Hin. apply Ha. apply list_elem_of_In, in_map_iff in Hin as (b & Hb & Hin).
  apply list_elem_of_In, in_map_iff. exists b. split; [done|]. by apply filter_In in Hin as [? _].
Qed.

Lemma in_filter {A} (P : A -> bool) (l : list A) a : a ∈ List.filter P l <-> P a = true /\ a ∈ l.
Proof. rewrite !list_elem_of_In, filter_In. tauto. Qed.

Lemma sound_delete gone t : sound t (delete_messages gone t).
Proof.
  intros [Ha Hb Hc Hd]. split; split; cbn; try by apply nodup_filter_map.
  - intros m Hm. apply in_filter in Hm as [_ Hm]. by apply Hb.
  - intros m Hm. apply in_filter in Hm as [_ Hm]. by apply Hd.
  - done.
  - intros m Hm. apply in_filter in Hm as [_ Hm]. by left.
Qed.

(** What the transaction does: nothing, or one row with the next number. *)
Lemma store_spec now ttl conv u p t r t' : store_message cf now ttl conv u p t = (r, t') ->
  match r with
  | Err _ => t' = t
  | Ok m => exists c, assoc (pl_conversationId p) (t_convs t) = Some c /\ t_messages t' = t_messages t ++ [m] /\
      ms_id m = uuid (t_serial t) /\ ms_conversationId m = pl_conversationId p /\ ms_seq m = cv_messageSeq c + 1 /\
      Z.abs (messageTimeBucket now) <= MAX_TIME /\ Z.abs (messageTimeBucket now + ttl) <= MAX_TIME /\
      ms_createdAt m = messageTimeBucket now /\ ms_expiresAt m = Some (messageTimeBucket now + ttl) /\
      ms_content m = Some (pl_content p) /\ ms_isViewOnce m = pl_isViewOnce p /\
      t_serial t' = S (t_serial t) /\
      t_convs t' = map_set (pl_conversationId p) (mkConv (cv_isGroup c) (cv_groupEpoch c) (cv_messageSeq c + 1) (Some (messageTimeBucket now)))
        (map_set (pl_conversationId p) (mkConv (cv_isGroup c) (cv_groupEpoch c) (cv_messageSeq c + 1) (cv_lastMessageAt c)) (t_convs t))
  end.
Proof.
  unfold store_message, reserveMessageSeq. destruct (assoc (pl_conversationId p) (t_convs t)) as [c|] eqn:Ec; cbn [mbind result_bind];
    [|by intros [= <- <-]].
  destruct (senderIdForStorage _ _ _ _) as [s|e]; cbn [mbind result_bind]; [|by intros [= <- <-]].
  destruct (seal_truthy cf (pl_sessionId p)) as [si|e] eqn:Esi; cbn [mbind result_bind]; [|by intros [= <- <-]].
  destruct (seal_truthy cf (pl_repliedToId p)) as [ri|e]; cbn [mbind result_bind]; [|by intros [= <- <-]].
  unfold new_date. destruct (Z.leb_spec (Z.abs (messageTimeBucket now)) MAX_TIME) as [Hd1|]; cbn [mbind result_bind]; [|by intros [= <- <-]].
  destruct (Z.leb_spec (Z.abs (messageTimeBucket now + ttl)) MAX_TIME) as [Hd2|]; cbn [mbind result_bind]; [|by intros [= <- <-]].
  intros [= <- <-]. exists c. cbn [t_messages t_convs t_serial with_convs]. rewrite assoc_set, bool_decide_eq_true_2 by done.
  by split_and!.
Qed.
Lemma counter_set c k row t l : t_convs t = map_set k row l ->
  counter c t = if bool_decide (c = k) then cv_messageSeq row else match assoc c l with Some r => cv_messageSeq r | None => 0 end.
Proof. intros E. unfold counter. rewrite E, assoc_set. by case_bool_decide. Qed.

Lemma store_counter now ttl conv u p t m t' c : store_message cf now ttl conv u p t = (Ok m, t') ->
  counter c t' = if bool_decide (c = pl_conversationId p) then counter c t + 1 else counter c t.
Proof.
  intros Hs. apply store_spec in Hs as (row & Er & _ & _ & _ & _ & _ & _ & _ & _ & _ & _ & _ & Ec).
  rewrite (counter_set _ _ _ _ _ Ec), assoc_set. unfold counter. case_bool_decide as Hc; [|done]. subst c. by rewrite Er.
Qed.

Lemma nodup_map_app {A B} (f : A -> B) l a : NoDup (map f l) -> (forall b, b ∈ l -> f b <> f a) -> NoDup (map f (l ++ [a])).
Proof.
  intros Hl Ha. rewrite map_app. apply NoDup_app. split; [done|]. split; [|apply NoDup_singleton].
  intros x Hx Hx'. apply list_elem_of_singleton in Hx' as ->. apply list_elem_of_In, in_map_iff in Hx as (b & Hb & Hin).
  apply (Ha b); [|done]. by apply list_elem_of_In.
Qed.

Lemma sound_store now ttl conv u p t : sound t (store_message cf now ttl conv u p t).2.
Proof.
  destruct (store_message _ _ _ _ _ _ _) as [[m|e] t'] eqn:Hs; [|apply store_spec in Hs as ->; by apply sound_ext].
  pose proof (fun c => store_counter _ _ _ _ _ _ _ _ c Hs) as Hcnt.
  apply store_spec in Hs as (row & Er & Em & Hid & Hcv & Hsq & _ & _ & _ & _ & _ & _ & Hn & _). cbn.
  assert (Hup : forall c, counter c t <= counter c t') by (intros c; rewrite Hcnt; case_bool_decide; lia).
  assert (Hseq : ms_seq m = counter (ms_conversationId m) t + 1) by (unfold counter; by rewrite Hcv, Er).
  intros [Ha Hb Hc Hd]. split; split; rewrite ?Em; try done.
  - apply nodup_map_app; [done|]. intros b Hin Heq. destruct (Hb b Hin) as (n & Hlt & Hnb).
    rewrite Hid, Hnb in Heq. apply uuid_injective in Heq. lia.
  - intros m' Hin. rewrite Hn. apply elem_of_app in Hin as [Hin|Hin].
    + destruct (Hb m' Hin) as (n & Hlt & Hnb). exists n. split; [lia|done].
    + apply list_elem_of_singleton in Hin as ->. exists (t_serial t). split; [lia|done].
  - apply nodup_map_app; [done|]. intros b Hin [= Hcb Hsb]. specialize (Hd b Hin). rewrite Hcb in Hd. lia.
  - intros m' Hin. apply elem_of_app in Hin as [Hin|Hin].
    + specialize (Hd m' Hin). specialize (Hup (ms_conversationId m')). lia.
    + apply list_elem_of_singleton in Hin as ->. rewrite Hcnt, bool_decide_eq_true_2 by done. lia.
  - intros m' Hin. apply elem_of_app in Hin as [Hin|Hin]; [by left|]. apply list_elem_of_singleton in Hin as ->. right. lia.
Qed.

Lemma ok_same_id t m m' : tables_ok t -> m ∈ t_messages t -> m' ∈ t_messages t -> ms_id m = ms_id m' -> m = m'.
Proof.
  intros Hok. pose proof (to_ids _ Hok) as Hn. clear Hok. revert Hn. induction (t_messages t) as [|a l IH]; [intros _ Hm; by apply not_elem_of_nil in Hm|].
  cbn. intros [Ha Hn]%NoDup_cons Hm Hm' Hid.
  assert (Hmem : forall x, x ∈ l -> ms_id x <> ms_id a) by (intros x Hx Hxa; apply Ha; rewrite <- Hxa; by apply (list_elem_of_fmap_2 ms_id)).
  apply elem_of_cons in Hm as [->|Hm], Hm' as [->|Hm']; [done|by destruct (Hmem m')|by destruct (Hmem m)|by apply IH].
Qed.

(** ** Programs by their commands *)
Lemma sends_hx {A B} P (m : hx A) (f : A -> hx B) : sends P m -> (forall a, sends P (f a)) -> sends P (m ≫= f).
Proof. intros Hm Hf. apply sends_bind; [done|]. intros [a|e]; [apply Hf|done]. Qed.
Lemma sends_after {A B} P (m : hx A) (f : result A -> hx B) : sends P m -> (forall a, sends P (f a)) -> sends P (prog_bind m f).
Proof. apply sends_bind. Qed.
Lemma sends_caught {A} P (m : hx A) h : sends P m -> sends P (caught m h).
Proof. intros Hm. by apply sends_after. Qed.
Lemma sends_each {A} P (f : A -> hx unit) l : (forall a, sends P (f a)) -> sends P (each f l).
Proof. intros Hf. induction l as [|a l IH]; [done|]. cbn [each]. by apply sends_hx. Qed.
Lemma sends_mono {A} (P Q : forall X, cmd X -> Prop) (m : prog cmd A) : (forall X c, P X c -> Q X c) -> sends P m -> sends Q m.
Proof. intros HPQ. induction m as [a|X c k IH]; [done|]. intros [Hc Hk]. split; [by apply HPQ|]. intros x. by apply IH. Qed.
#[local] Create HintDb sent.
Ltac walk := repeat first
  [ exact I | progress intros | solve [split; [exact I|intros; exact I]] | solve [eauto with sent] | apply sends_hx | apply sends_caught | apply sends_each
  | case_match | progress unfold attempt, send, sendAck, date_now, sleep, from, register_target ].

(** Reading, and writing that leaves messages and conversations alone. *)
Definition same (t t' : tables) : Prop := t_messages t' = t_messages t /\ t_convs t' = t_convs t /\ t_serial t' = t_serial t.
Definition still (X : Type) (c : cmd X) : Prop := match c with Db q => forall t, same t (q t).2 | DateNow => True | _ => False end.

Lemma still_query {X} (f : tables -> X) : sends still (query f).
Proof. by split; [intros t|]. Qed.
Lemma still_members c l : sends still (members_query cf c l).
Proof. by split; [intros t|]. Qed.
Lemma still_update (f : tables -> tables) : (forall t, same t (f t)) -> sends still (db (fun t => (Ok tt, f t))).
Proof. by intros Hf; split; [intros t; apply Hf|]. Qed.
Lemma still_upsert u c tok ep : sends still (upsert_query cf u c tok ep).
Proof.
  apply sends_hx; [by split|]. intros now. split; [|done]. intros t. by destruct (Routing.upsertMembership _ _ _ _ _ _ _ _).
Qed.
#[local] Hint Resolve still_query still_members still_upsert : sent.
#[local] Hint Extern 1 (sends still (db _)) => apply still_update; by intros : sent.
Lemma still_participant c u : sends still (isConversationParticipant cf c u).
Proof. unfold isConversationParticipant. walk. Qed.
#[local] Hint Resolve still_participant : sent.
Lemma still_fallback c l : sends still (fallback_of cf c l).
Proof. induction l as [|u l IH]; cbn [fallback_of]; walk. Qed.
#[local] Hint Resolve still_fallback : sent.
Lemma still_record c m u l : sends still (recordViewOnceRecipients cf c m u l).
Proof. unfold recordViewOnceRecipients, filterConversationParticipants. walk. Qed.
Lemma still_addressed m c u : sends still (isAddressedViewOnceRecipient cf m c u).
Proof. unfold isAddressedViewOnceRecipient. walk. Qed.

(** ** Every command of every handler is sound *)
Definition keeps (X : Type) (c : cmd X) : Prop := match c with Db q => forall t, sound t (q t).2 | _ => True end.
Lemma still_keeps X (c : cmd X) : still X c -> keeps X c.
Proof. destruct c; cbn; try done. intros Hq t. destruct (Hq t) as (? & ? & ?). by apply sound_ext. Qed.
Lemma kept_still {A} (m : prog cmd A) : sends still m -> sends keeps m.
Proof. apply sends_mono, still_keeps. Qed.
Lemma kept_delete id : sends keeps (delete_message id).
Proof. split; [|done]. intros t. destruct (existsb _ _); [apply sound_delete|by apply sound_ext]. Qed.
Lemma kept_store now ttl conv u p : sends keeps (db (store_message cf now ttl conv u p)).
Proof. split; [|done]. intros t. apply sound_store. Qed.
#[local] Hint Resolve kept_still still_record still_addressed kept_delete kept_store : sent.

Lemma kept_finalize m : sends keeps (finalizeViewOnceIfAllOpened m).
Proof. unfold finalizeViewOnceIfAllOpened. walk. Qed.
Lemma kept_slot u d tmp i : sends keeps (reserveMessageSlot u d tmp i).
Proof.
  assert (Hw : forall n k, sends keeps (await_slot n k)) by (intros n k; induction n as [|n IH]; cbn [await_slot]; walk).
  unfold reserveMessageSlot. walk.
Qed.
#[local] Hint Resolve kept_finalize kept_slot : sent.

Lemma kept_chat u d p i : sends keeps (handleChatMessage cf u d p i).
Proof.
  unfold handleChatMessage, enter, releaseMessageSlot. walk; (apply sends_after; [|intros [?|?]; walk]);
  unfold store_and_relay, completeMessageSlot, relay_to; walk.
Qed.
Lemma kept_post u b : sends keeps (post_message cf u b).
Proof. unfold post_message, after_response, relay_rest. walk. Qed.
Lemma kept_get u c b l : sends keeps (get_messages cf u c b l).
Proof. unfold get_messages. walk. Qed.
Lemma kept_unsend u m c t s : sends keeps (message_unsend cf u m c t s).
Proof. unfold message_unsend, find_message, emit_unsend. walk. Qed.
Lemma kept_opened u m c t s : sends keeps (view_once_opened cf u m c t s).
Proof.
  assert (Hr : forall m tg, sends keeps (record_open m tg)) by (intros m' tg; split; [|done]; intros t'; cbn; repeat case_match; by apply sound_ext).
  unfold view_once_opened, find_message, notify_viewed, open_message. walk.
Qed.
Lemma kept_sweep : sends keeps (message_sweeper cf).
Proof.
  assert (Hb : forall now, sends keeps (sweepBatch cf now)).
  { intros now. unfold sweepBatch, notify_deleted. walk. split; [|done]. intros t. apply sound_delete. }
  assert (Hl : forall n now, sends keeps (sweep_loop cf n now)) by (intros n; induction n as [|n IH]; cbn [sweep_loop]; walk).
  unfold message_sweeper. walk.
Qed.

Lemma sends_obeys {A} (Q : A -> Prop) (p : prog cmd A) : sends keeps p -> (forall a, Q a) -> obeys keeps (fun _ _ _ => True) Q p.
Proof. intros Hp HQ. induction p as [a|X c k IH]; [apply HQ|]. destruct Hp as [Hc Hk]. split; [done|]. intros x _. by apply IH. Qed.
Lemma handle_kept r : obeys keeps (fun _ _ _ => True) (fun _ => True) (handle r).
Proof.
  apply sends_obeys; [|done]. destruct r; (apply (sends_bind keeps _ (fun _ => Ret tt)); [|done]);
    [apply kept_chat|apply kept_post|apply kept_get|apply kept_unsend|apply kept_opened|apply kept_sweep].
Qed.

(** ** The numbers under any interleaving *)

(** C12: message numbers are sound under any interleaving of requests. Whatever sends
    over both channels, catch-ups, unsendings, openings and runs of the sweeper take
    turns at their commands, and whatever sound changes happen besides, at every moment
    ids are unique, no two messages of a conversation share a number and no number
    exceeds the counter of its conversation; counters only grow, and a message that
    appears gets a number above the counter it found, so that nothing new appears
    below a cursor. *)
Theorem sequence_numbers (env : world -> world -> Prop) (reqs : list request) (w : world) s' :
  (forall v v', env v v' -> sound (w_tables v) (w_tables v')) -> tables_ok (w_tables w) ->
  rtc (sys_step do_cmd env) (map handle reqs, w) s' ->
  tables_ok (w_tables s'.2) /\ grows (w_tables w) (w_tables s'.2).
Proof.
  intros Henv Hok Hrun.
  apply (obeys_invariant do_cmd keeps (fun _ _ _ => True) env (fun _ => True) (fun v => tables_ok (w_tables v) /\ grows (w_tables w) (w_tables v)))
    in Hrun as [_ Hr]; [done| | | |].
  - intros X c v [Hv Hg] Hc. split; [done|]. destruct c; cbn; repeat case_match; cbn; try done.
    match goal with E : q (w_tables v) = _ |- _ => specialize (Hc (w_tables v)); rewrite E in Hc end.
    destruct (Hc Hv) as [Hv' Hg']. split; [done|by etransitivity].
  - intros v v' He [Hv Hg]. destruct (Henv _ _ He Hv) as [Hv' Hg']. split; [done|by etransitivity].
  - cbn. apply Forall_map, Forall_forall. intros r _. apply handle_kept.
  - done.
Qed.
End Sequence.
