(* ===== verification/MessageRetry.v ===== *)
(** Sending again: a client repeats a message with the same temporary id until it is
    acknowledged. While nothing fails the repetitions store one message, however they
    interleave; when a step after the insertion fails they do not. *)
From stdpp Require Import pretty sorting.
From S2P Require Import Prelude Bytes Base64 Utf8 Text Js JsDate PqWire Sodium LocalAtRest Json AtRest Effects Membership MessageStore MessageSequence.
Import Messages.

Section Retry.
Context `{ServerCrypto, Sodium, MembershipDb, MessageIdsLaws} (cf : Config).
(** One message of one device, under its temporary id. *)
Context (userId deviceId : jstr) (tempId : Z) (p : MessageSendPayload).
Definition slot_key : jstr := buildSendDedupeKey deviceId tempId.
Definition slot_ms : Z := SEND_DEDUPE_TTL_SECONDS * 1000.

(** The rows that hold it: its content is a ciphertext of its own. *)
Definition carries (m : Message) : bool := bool_decide (ms_content m = Some (pl_content p)).
Definition carried (t : tables) : list Message := List.filter carries (t_messages t).
(** The message an acknowledgement of it names. *)
Definition acked (e : Event) : option jstr :=
  match e with
  | Ack _ d _ (AckMessage m) =>
      match raw_tempId m with JNum n => if bool_decide (d = deviceId /\ n = tempId) then Some (raw_id m) else None | _ => None end
  | _ => None
  end.
(** How long it lives when it is stored at [now]; dates that can be printed. *)
Definition life (now : Z) : Z := match pl_expiresAt p with Some e => Z.max 0 (e - now) | None => DEFAULT_TTL_MS end.
Definition printed (m : Message) : Prop :=
  is_Some (toISOString (ms_createdAt m)) /\ forall e, ms_expiresAt m = Some e -> is_Some (toISOString e).

Lemma iso_some t : Z.abs t <= MAX_TIME -> is_Some (toISOString t).
Proof.
  intros Ht. unfold toISOString. replace (Z.abs t <=? MAX_TIME) with true by lia. destruct (civil_from_days _) as [[y m] d]. by eexists.
Qed.

(** ** The protocol of the repetitions *)
Inductive phase := Idle | Owner | Stored (id : jstr) | Knows (id : jstr).
(** From [start] until [until_]. *)
Context (start : Z).
Definition until_ : Z := start + slot_ms.
Definition quiet (t t' : tables) : Prop := (tables_ok t -> tables_ok t') /\ carried t' = carried t.
Definition stores (t t' : tables) : Prop :=
  (tables_ok t -> tables_ok t') /\ exists m n, carried t' = carried t ++ [m] /\ ms_id m = uuid n /\ printed m.
Definition allowed (ph : phase) (X : Type) (c : cmd X) : Prop :=
  match c with
  | Db q => match ph with
            | Stored _ => False
            | Owner => forall t, quiet t (q t).2 \/ stores t (q t).2
            | _ => forall t, quiet t (q t).2
            end
  | RedisSetNx k ttl v => ph = Idle /\ k = slot_key /\ ttl = SEND_DEDUPE_TTL_SECONDS /\ v = pending
  | RedisGet k => ph = Idle /\ k = slot_key
  | RedisSet k ttl v => ph = Stored v /\ k = slot_key /\ ttl = SEND_DEDUPE_TTL_SECONDS
  | RedisDel k => ph = Owner /\ k = slot_key
  | Publish e => forall id, acked e = Some id -> ph = Knows id
  | Sleep ms => 0 <= ms
  | DateNow => True
  end.
Definition moves_to (ph : phase) (X : Type) (c : cmd X) : X -> phase -> Prop :=
  match c with
  | Db q => fun x ph' => exists t, x = (q t).1 /\ tables_ok t /\
      match ph with
      | Owner => carried (q t).2 = carried t /\ ph' = Owner \/ exists m, carried (q t).2 = carried t ++ [m] /\ ph' = Stored (ms_id m)
      | Knows id => ph' = ph /\ exists m, carried t = [m] /\ ms_id m = id /\ printed m
      | _ => ph' = ph
      end
  | RedisSetNx k ttl v => fun x ph' => x = Ok true /\ ph' = Owner \/ x = Ok false /\ ph' = Idle
  | RedisGet k => fun x ph' => (x = Ok None \/ x = Ok (Some pending)) /\ ph' = Idle \/ exists id, id <> pending /\ x = Ok (Some id) /\ ph' = Knows id
  | RedisSet k ttl v => fun x ph' => x = Ok tt /\ ph' = Knows v
  | RedisDel k => fun x ph' => x = Ok tt /\ ph' = Idle
  | Publish e => fun x ph' => x = Ok tt /\ ph' = ph
  | Sleep ms => fun x ph' => ph' = ph
  | DateNow => fun x ph' => start <= x < until_ /\ ph' = ph
  end.

(** ** What all of them keep true *)
Definition others_idle (phs : list phase) (i : nat) : Prop := forall j ph, phs !! j = Some ph -> j <> i -> ph = Idle.
Inductive slot_inv (phs : list phase) (w : world) : Prop :=
(** nobody is sending: the slot is free, or was left pending *)
| slot_free : Forall (eq Idle) phs -> carried (w_tables w) = [] -> omap acked (w_events w) = [] ->
    (forall e, w_redis w !! slot_key = Some e -> e_expires e <= start \/ e_value e = pending) -> slot_inv phs w
(** one is *)
| slot_owned i e : phs !! i = Some Owner -> others_idle phs i ->
    carried (w_tables w) = [] -> omap acked (w_events w) = [] ->
    w_redis w !! slot_key = Some e -> e_value e = pending -> until_ <= e_expires e -> slot_inv phs w
(** one has just stored it *)
| slot_stored i e m n : phs !! i = Some (Stored (ms_id m)) -> others_idle phs i ->
    carried (w_tables w) = [m] -> ms_id m = uuid n -> printed m -> omap acked (w_events w) = [] ->
    w_redis w !! slot_key = Some e -> e_value e = pending -> until_ <= e_expires e -> slot_inv phs w
(** and the slot names it *)
| slot_known e m n : Forall (fun ph => ph = Idle \/ ph = Knows (ms_id m)) phs ->
    carried (w_tables w) = [m] -> ms_id m = uuid n -> printed m -> Forall (eq (ms_id m)) (omap acked (w_events w)) ->
    w_redis w !! slot_key = Some e -> e_value e = ms_id m -> until_ <= e_expires e -> slot_inv phs w.
Record retry_inv (phs : list phase) (w : world) : Prop := mkRetryInv {
  ri_db : w_db_up w = true; ri_redis : w_redis_up w = true; ri_pub : w_pub_up w = true;
  ri_ok : tables_ok (w_tables w); ri_now : start <= w_now w; ri_slot : slot_inv phs w }.

(** What happens besides: time passes, other requests and other clients. *)
Record others (w w' : world) : Prop := mkOthers {
  ot_db : w_db_up w' = w_db_up w; ot_redis : w_redis_up w' = w_redis_up w; ot_pub : w_pub_up w' = w_pub_up w;
  ot_now : w_now w <= w_now w'; ot_key : w_redis w' !! slot_key = w_redis w !! slot_key;
  ot_tables : quiet (w_tables w) (w_tables w'); ot_acks : omap acked (w_events w') = omap acked (w_events w) }.
Definition live (w : world) : Prop := w_now w < until_.

(** ** Phases and the slot *)
Lemma slot_ext phs w w' : w_redis w' !! slot_key = w_redis w !! slot_key -> carried (w_tables w') = carried (w_tables w) ->
  omap acked (w_events w') = omap acked (w_events w) -> slot_inv phs w -> slot_inv phs w'.
Proof.
  intros Ek Ec Ea [Hf Hc Ha He|i e Hi Ho Hc Ha He Hv Hu|i e m n Hi Ho Hc Hid Hpr Ha He Hv Hu|e m n Hf Hc Hid Hpr Ha He Hv Hu].
  - apply slot_free; rewrite ?Ek, ?Ec, ?Ea; done.
  - apply (slot_owned _ _ i e); rewrite ?Ek, ?Ec, ?Ea; done.
  - apply (slot_stored _ _ i e m n); rewrite ?Ek, ?Ec, ?Ea; done.
  - apply (slot_known _ _ e m n); rewrite ?Ek, ?Ec, ?Ea; done.
Qed.

Lemma slot_of_owner phs w i : slot_inv phs w -> phs !! i = Some Owner ->
  others_idle phs i /\ carried (w_tables w) = [] /\ omap acked (w_events w) = [] /\
  exists e, w_redis w !! slot_key = Some e /\ e_value e = pending /\ until_ <= e_expires e.
Proof.
  intros [Hf Hc Ha He|k e Hk Ho Hc Ha He Hv Hu|k e m n Hk Ho Hc Hid Hpr Ha He Hv Hu|e m n Hf Hc Hid Hpr Ha He Hv Hu] Hi.
  - by apply (Forall_lookup_1 _ _ _ _ Hf) in Hi.
  - destruct (decide (i = k)) as [->|Hne]; [by eauto 10|]. by specialize (Ho _ _ Hi Hne).
  - destruct (decide (i = k)) as [->|Hne]; [congruence|]. by specialize (Ho _ _ Hi Hne).
  - by apply (Forall_lookup_1 _ _ _ _ Hf) in Hi as [?|?].
Qed.

Lemma slot_of_stored phs w i id : slot_inv phs w -> phs !! i = Some (Stored id) ->
  others_idle phs i /\ omap acked (w_events w) = [] /\
  exists m n, carried (w_tables w) = [m] /\ ms_id m = id /\ id = uuid n /\ printed m.
Proof.
  intros [Hf Hc Ha He|k e Hk Ho Hc Ha He Hv Hu|k e m n Hk Ho Hc Hid Hpr Ha He Hv Hu|e m n Hf Hc Hid Hpr Ha He Hv Hu] Hi.
  - by apply (Forall_lookup_1 _ _ _ _ Hf) in Hi.
  - destruct (decide (i = k)) as [->|Hne]; [congruence|]. by specialize (Ho _ _ Hi Hne).
  - destruct (decide (i = k)) as [->|Hne]; [|by specialize (Ho _ _ Hi Hne)].
    rewrite Hk in Hi. injection Hi as <-. by eauto 10.
  - by apply (Forall_lookup_1 _ _ _ _ Hf) in Hi as [?|?].
Qed.

Lemma slot_of_knows phs w i id : slot_inv phs w -> phs !! i = Some (Knows id) ->
  exists m, carried (w_tables w) = [m] /\ ms_id m = id /\ printed m.
Proof.
  intros [Hf Hc Ha He|k e Hk Ho Hc Ha He Hv Hu|k e m n Hk Ho Hc Hid Hpr Ha He Hv Hu|e m n Hf Hc Hid Hpr Ha He Hv Hu] Hi.
  - by apply (Forall_lookup_1 _ _ _ _ Hf) in Hi.
  - destruct (decide (i = k)) as [->|Hne]; [congruence|]. by specialize (Ho _ _ Hi Hne).
  - destruct (decide (i = k)) as [->|Hne]; [congruence|]. by specialize (Ho _ _ Hi Hne).
  - apply (Forall_lookup_1 _ _ _ _ Hf) in Hi as [?|[= ->]]; [done|]. by exists m.
Qed.

(** Only [i] leaves the idle phase. *)
Lemma only_insert phs i (ph : phase) : others_idle phs i -> others_idle (<[i := ph]> phs) i.
Proof. intros Ho j ph' Hj Hne. rewrite list_lookup_insert_ne in Hj by done. by apply (Ho j). Qed.

Lemma all_insert phs i (ph : phase) P : others_idle phs i -> P Idle -> P ph -> Forall P (<[i := ph]> phs).
Proof.
  intros Ho H1' H2'. apply Forall_lookup_2. intros j x Hj. destruct (decide (j = i)) as [->|Hne].
  - apply list_lookup_insert_Some in Hj as [(_ & <- & _)|(? & _)]; done.
  - by rewrite (only_insert _ _ _ Ho _ _ Hj Hne).
Qed.

#[local] Opaque slot_key.
(** Statements and transactions. *)
Lemma db_step phs w i ph X (q : tables -> result X * tables) : retry_inv phs w -> phs !! i = Some ph -> allowed ph _ (Db q) ->
  exists ph', moves_to ph _ (Db q) (do_cmd _ (Db q) w).1 ph' /\ retry_inv (<[i := ph']> phs) (do_cmd _ (Db q) w).2.
Proof.
  intros [Hd Hr Hp Hok Hn Hs] Hi Ha. cbn [do_cmd moves_to]. rewrite Hd.
  destruct (q (w_tables w)) as [x t'] eqn:Eq. cbn [fst snd].
  assert (Hx : x = (q (w_tables w)).1) by (by rewrite Eq). assert (Ht : (q (w_tables w)).2 = t') by (by rewrite Eq).
  assert (Hqu : quiet (w_tables w) t' -> retry_inv (<[i := ph]> phs) (with_tables t' w)).
  { intros [Hq1 Hq2]. rewrite list_insert_id by done. split; try done; [by apply Hq1|]. by apply (slot_ext _ w). }
  destruct ph as [| |id|id]; cbn in Ha.
  - exists Idle. split; [by exists (w_tables w)|]. apply Hqu. rewrite <- Ht. apply Ha.
  - destruct (slot_of_owner _ _ _ Hs Hi) as (Ho & Hc & Hac & e & He & Hv & Hu). destruct (Ha (w_tables w)) as [Hq|(Hq1 & m & n & Hm & Hid & Hpr)].
    + exists Owner. split; [|apply Hqu; by rewrite <- Ht]. exists (w_tables w). split_and!; [done..|]. left. split; [|done]. apply Hq.
    + exists (Stored (ms_id m)). split; [exists (w_tables w); split_and!; [done..|]; right; by exists m|].
      rewrite Ht, Hc in Hm. split; try done; [rewrite <- Ht; by apply Hq1|].
      apply (slot_stored _ _ i e m n); try done; [|by apply only_insert]. apply list_lookup_insert_eq. by apply lookup_lt_Some in Hi.
  - done.
  - exists (Knows id). split; [|apply Hqu; rewrite <- Ht; apply Ha]. exists (w_tables w). split_and!; [done..|]. by apply (slot_of_knows _ _ _ _ Hs Hi).
Qed.

(** The slot. *)
Definition steps_ok X (c : cmd X) : Prop := forall phs w i ph, retry_inv phs w -> live w -> phs !! i = Some ph -> allowed ph _ c ->
  exists ph', moves_to ph _ c (do_cmd _ c w).1 ph' /\ retry_inv (<[i := ph']> phs) (do_cmd _ c w).2.

Lemma live_entry w e : live w -> w_redis w !! slot_key = Some e -> until_ <= e_expires e -> redis_get (w_now w) slot_key (w_redis w) = Some (e_value e).
Proof. unfold live. intros Hl He Hu. apply get_live; [done|lia]. Qed.

Lemma nx_step k ttl v : steps_ok _ (RedisSetNx k ttl v).
Proof.
  intros phs w i ph [Hd Hr Hp Hok Hn Hs] Hl Hi (-> & -> & -> & ->). cbn [do_cmd moves_to]. rewrite Hr.
  destruct (redis_get _ _ _) as [x|] eqn:Eg; cbn.
  { exists Idle. split; [by right|]. rewrite list_insert_id by done. by split. }
  assert (Hi' : (i < length phs)%nat) by by apply lookup_lt_Some in Hi.
  destruct Hs as [Hf Hc Ha He|j e Hj Ho Hc Ha He Hv Hu|j e m n Hj Ho Hc Hid Hpr Ha He Hv Hu|e m n Hf Hc Hid Hpr Ha He Hv Hu];
    try by rewrite (live_entry _ _ Hl He Hu) in Eg.
  exists Owner. split; [by left|]. split; try done. apply (slot_owned _ _ i (mkEntry pending (w_now w + SEND_DEDUPE_TTL_SECONDS * 1000))); try done; [by apply list_lookup_insert_eq| | |].
  - apply only_insert. intros j ph Hj _. symmetry. by apply (Forall_lookup_1 _ _ _ _ Hf Hj).
  - apply lookup_insert_eq.
  - cbn. unfold until_, slot_ms. lia.
Qed.

Lemma get_step k : steps_ok _ (RedisGet k).
Proof.
  intros phs w i ph [Hd Hr Hp Hok Hn Hs] Hl Hi (-> & ->). cbn [do_cmd moves_to]. rewrite Hr. cbn.
  destruct Hs as [Hf Hc Ha He|j e Hj Ho Hc Ha He Hv Hu|j e m n Hj Ho Hc Hid Hpr Ha He Hv Hu|e m n Hf Hc Hid Hpr Ha He Hv Hu].
  - exists Idle. rewrite list_insert_id by done. split; [|split; try done; by apply slot_free].
    left. split; [|done]. unfold redis_get. destruct (w_redis w !! slot_key) as [e|]; [|by left].
    destruct (He e eq_refl) as [Hx|Hx]; [left; by replace (_ <? _) with false by lia|]. rewrite Hx. case_match; [by right|by left].
  - exists Idle. rewrite list_insert_id by done. split; [|split; try done; by apply (slot_owned _ _ j e)].
    left. split; [|done]. right. by rewrite (live_entry _ _ Hl He Hu), Hv.
  - exists Idle. rewrite list_insert_id by done. split; [|split; try done; by apply (slot_stored _ _ j e m n)].
    left. split; [|done]. right. by rewrite (live_entry _ _ Hl He Hu), Hv.
  - exists (Knows (ms_id m)). split.
    + right. exists (ms_id m). rewrite (live_entry _ _ Hl He Hu), Hv. split_and!; [|done..]. rewrite Hid. apply uuid_word.
    + split; try done. apply (slot_known _ _ e m n); try done. apply Forall_insert; [done|by right].
Qed.

Lemma set_step k ttl v : steps_ok _ (RedisSet k ttl v).
Proof.
  intros phs w i ph [Hd Hr Hp Hok Hn Hs] Hl Hi (-> & -> & ->). cbn [do_cmd moves_to]. rewrite Hr. cbn.
  destruct (slot_of_stored _ _ _ _ Hs Hi) as (Ho & Ha & m & n & Hc & Hid & Hu & Hpr). exists (Knows v). split; [done|].
  split; try done. apply (slot_known _ _ (mkEntry v (w_now w + SEND_DEDUPE_TTL_SECONDS * 1000)) m n); cbn; try done; [|congruence|by rewrite Ha|apply lookup_insert_eq|].
  - apply all_insert; [done|by left|right; congruence].
  - cbn. unfold until_, slot_ms. lia.
Qed.

Lemma del_step k : steps_ok _ (RedisDel k).
Proof.
  intros phs w i ph [Hd Hr Hp Hok Hn Hs] Hl Hi (-> & ->). cbn [do_cmd moves_to]. rewrite Hr. cbn.
  destruct (slot_of_owner _ _ _ Hs Hi) as (Ho & Hc & Ha & _). exists Idle. split; [done|]. split; try done.
  apply slot_free; cbn; try done; [by apply all_insert|]. intros e He. by rewrite lookup_delete_eq in He.
Qed.

Lemma publish_step e : steps_ok _ (Publish e).
Proof.
  intros phs w i ph [Hd Hr Hp Hok Hn Hs] Hl Hi Ha. cbn [do_cmd moves_to]. rewrite Hp. cbn in *.
  exists ph. split; [done|]. rewrite list_insert_id by done. split; try done. cbn in *. destruct (acked e) as [id|] eqn:Ee.
  - rewrite (Ha id eq_refl) in Hi. clear Ha.
    destruct Hs as [Hf Hc Ha He|j x Hj Ho Hc Ha He Hv Hu|j x m n Hj Ho Hc Hid Hpr Ha He Hv Hu|x m n Hf Hc Hid Hpr Ha He Hv Hu];
      [by apply (Forall_lookup_1 _ _ _ _ Hf) in Hi|destruct (decide (i = j)) as [->|Hne]; [congruence|by specialize (Ho _ _ Hi Hne)]..|].
    apply (Forall_lookup_1 _ _ _ _ Hf) in Hi as [?|[= ->]]; [done|]. apply (slot_known _ _ x m n); cbn; try done.
    rewrite omap_app. cbn. rewrite Ee. apply Forall_app. split; [done|by constructor].
  - apply (slot_ext _ w); cbn; try done. rewrite omap_app. cbn. by rewrite Ee, app_nil_r.
Qed.

Lemma any_step X (c : cmd X) : steps_ok _ c.
Proof.
  destruct c; [|apply nx_step|apply get_step|apply set_step|apply del_step|apply publish_step|..];
    intros phs w i ph Hinv Hl Hi Ha; [by apply db_step|..]; exists ph; rewrite list_insert_id by done; destruct Hinv as [Hd Hr Hp Hok Hn Hs]; cbn in *.
  - split; [done|]. split; cbn; try done; [lia|]. by apply (slot_ext _ w).
  - split; [|done]. unfold live in Hl. split; [lia|done].
Qed.

Lemma others_step w w' phs : others w w' -> retry_inv phs w -> retry_inv phs w'.
Proof.
  intros [Hd Hr Hp Hn Hk [Hq1 Hq2] Ha] [Hd' Hr' Hp' Hok Hn' Hs]. split; [congruence..|by apply Hq1|lia|]. by apply (slot_ext _ w).
Qed.

(** ** The handler follows the protocol *)
Definition does {A} (fin : phase -> result A -> Prop) (ph : phase) (m : hx A) : Prop := follows allowed moves_to fin ph m.

Lemma does_bind {A B} (fin : phase -> result B -> Prop) (fin' : phase -> result A -> Prop) ph (m : hx A) (f : A -> hx B) :
  does fin' ph m -> (forall ph' a, fin' ph' (Ok a) -> does fin ph' (f a)) -> (forall ph' e, fin' ph' (Err e) -> fin ph' (Err e)) ->
  does fin ph (m ≫= f).
Proof.
  intros Hm Hf He. apply (follows_bind allowed moves_to fin ph m). eapply follows_weaken; [|exact Hm].
  intros ph' [a|e] Hr; [by apply Hf|]. by apply He.
Qed.

(** Stays in its phase. *)
Definition gentle (ph : phase) (X : Type) (c : cmd X) : Prop :=
  match c with
  | Db q => forall t, quiet t (q t).2
  | Publish e => forall id, acked e = Some id -> ph = Knows id
  | Sleep ms => 0 <= ms
  | DateNow => True
  | _ => False
  end.
Definition settled (ph : phase) : Prop := match ph with Stored _ => False | _ => True end.
Lemma quiet_stays ph X (q : tables -> result X * tables) x ph' : (forall t, quiet t (q t).2) -> moves_to ph _ (Db q) x ph' -> ph' = ph.
Proof.
  intros Hq (t & -> & Ht & Hm). destruct ph; try done; [|by destruct Hm].
  destruct Hm as [[_ ->]|(m & Hm & _)]; [done|]. destruct (Hq t) as [_ Hc]. rewrite Hc in Hm.
  apply (f_equal length) in Hm. rewrite length_app in Hm. cbn in Hm. lia.
Qed.
Lemma gentle_follows {A} ph (m : prog cmd A) : settled ph -> sends (gentle ph) m -> follows allowed moves_to (fun ph' _ => ph' = ph) ph m.
Proof.
  intros Hph. induction m as [a|X c k IH]; [done|]. intros [Hc Hk]. cbn [follows]. destruct c; try done.
  - split; [destruct ph; try done; intros t; by left|]. intros x ph' Hx. apply quiet_stays in Hx as ->; [|done]. by apply IH.
  - split; [done|]. intros x ph' [_ ->]. by apply IH.
  - split; [done|]. intros x ph' ->. by apply IH.
  - split; [done|]. intros x ph' [_ ->]. by apply IH.
Qed.
Lemma still_gentle ph X (c : cmd X) : still X c -> gentle ph X c.
Proof.
  destruct c; cbn; try done. intros Hq t. destruct (Hq t) as (Em & Ec & Es). split; [|by unfold carried; rewrite Em].
  intros Ht. by apply (sound_ext t).
Qed.

(** Stays in its phase and succeeds. *)
Definition fine {A} (ph : phase) (m : hx A) : Prop := does (fun ph' r => ph' = ph /\ exists a, r = Ok a) ph m.
Lemma fine_bind {A B} ph (m : hx A) (f : A -> hx B) : fine ph m -> (forall a, fine ph (f a)) -> fine ph (m ≫= f).
Proof. intros Hm Hf. eapply does_bind; [exact Hm| |]; intros ph' a [-> (b & Hb)]; [apply Hf|done]. Qed.
Lemma fine_caught {A} ph (m : hx A) h : settled ph -> sends still m -> fine ph (caught m h).
Proof.
  intros Hph Hm. apply (follows_bind allowed moves_to _ ph m). eapply follows_weaken; [|apply gentle_follows; [done|]].
  - intros ph' r ->. split; [done|]. by eexists.
  - revert Hm. apply sends_mono, still_gentle.
Qed.
Lemma fine_send ph e : (forall id, acked e = Some id -> ph = Knows id) -> fine ph (send e).
Proof. intros He. split; [done|]. intros x ph' [-> ->]. split; [done|]. by eexists. Qed.
Lemma fine_try ph (m : hx unit) : fine ph m -> fine ph (attempt m).
Proof.
  intros Hm. apply (follows_bind allowed moves_to _ ph m). eapply follows_weaken; [|exact Hm]. intros ph' r [-> _]. split; [done|]. by eexists.
Qed.
Lemma fine_each {A} ph (f : A -> hx unit) l : (forall a, fine ph (f a)) -> fine ph (each f l).
Proof. intros Hf. induction l as [|a l IH]; cbn [each]; [split; [done|]; by eexists|]. by apply fine_bind. Qed.
Lemma fine_ret {A} ph (a : A) : fine ph (mret a).
Proof. split; [done|]. by eexists. Qed.
Lemma fine_error ph u d i e : fine ph (sendAck u d i (AckError e)).
Proof. unfold sendAck. case_match; [|apply fine_ret]. by apply fine_send. Qed.

Lemma does_fine {A B} (fin : phase -> result B -> Prop) ph (m : hx A) (f : A -> hx B) : fine ph m -> (forall a, does fin ph (f a)) -> does fin ph (m ≫= f).
Proof. intros Hm Hf. eapply does_bind; [exact Hm| |]; intros ph' a [-> (b & Hb)]; [apply Hf|done]. Qed.
Lemma does_ends {A} (fin : phase -> result A -> Prop) ph (m : hx A) : fine ph m -> (forall a, fin ph (Ok a)) -> does fin ph m.
Proof. intros Hm Hf. eapply follows_weaken; [|exact Hm]. intros ph' r [-> (a & ->)]. apply Hf. Qed.

(** Waiting for the slot of another request. *)
Lemma await_follows n : does (fun ph r => r = Ok None /\ ph = Idle \/ exists id, r = Ok (Some id) /\ ph = Knows id) Idle (await_slot n slot_key).
Proof.
  induction n as [|n IH]; cbn [await_slot]; [by left|]. apply does_fine.
  - split; [cbn; lia|]. intros x ph' ->. split; [done|]. by eexists.
  - intros _. split; [done|]. intros x ph' [[[->| ->] ->]|(id & Hne & -> & ->)]; cbn [prog_bind].
    + exact IH.
    + rewrite bool_decide_eq_true_2 by done. exact IH.
    + rewrite bool_decide_eq_false_2 by done. right. by exists id.
Qed.

Lemma reserve_follows i : does (fun ph r => r = Ok Reserved /\ ph = Owner \/ r = Ok Pending /\ ph = Idle \/ exists id, r = Ok (Existing id) /\ ph = Knows id)
  Idle (reserveMessageSlot userId deviceId tempId i).
Proof.
  split; [done|]. intros x ph' [[-> ->]|[-> ->]]; [by left|]. cbn [prog_bind].
  eapply does_bind; [apply await_follows| |].
  - intros ph' [id|] [[Hr ->]|(id' & Hr & ->)]; try done.
    + injection Hr as ->. right; right. by exists id'.
    + apply does_fine; [apply fine_error|]. intros _. by right; left.
  - intros ph' e [[? _]|(id & ? & _)]; done.
Qed.

Lemma ack_followed u i id (msg : RawServerMessage) : raw_id msg = id -> fine (Knows id) (sendAck u deviceId i (AckMessage msg)).
Proof.
  intros Hid. unfold sendAck. case_match; [|apply fine_ret]. apply fine_send. intros id' Ha. cbn in Ha. repeat case_match; try done. congruence.
Qed.

Lemma raw_of m : printed m -> exists raw, toRawServerMessage (openMessageForClient (cf_ring cf) m) = Ok raw /\ raw_id raw = ms_id m.
Proof.
  intros [(s & Hs) He]. unfold toRawServerMessage, iso. unfold openMessageForClient. cbn [ms_createdAt ms_expiresAt]. rewrite Hs.
  cbn [mbind result_bind]. destruct (ms_expiresAt m) as [e|]; [|by eexists]. destruct (He e eq_refl) as (s' & Hs'). rewrite Hs'. by eexists.
Qed.

Lemma find_carried t m : tables_ok t -> carried t = [m] -> List.find (has_id (ms_id m)) (t_messages t) = Some m.
Proof.
  intros Hok Hc. assert (Hin : m ∈ t_messages t).
  { assert (Hm : m ∈ carried t) by (rewrite Hc; by left). by apply in_filter in Hm as [_ ?]. }
  assert (Hu : forall m', m' ∈ t_messages t -> ms_id m' = ms_id m -> m' = m) by (intros m' Hin' Hid; by apply (ok_same_id t)).
  destruct (List.find _ _) as [m'|] eqn:Ef.
  - apply find_some in Ef as [Hin' Hid]. apply bool_decide_eq_true in Hid. f_equal. apply Hu; [by apply list_elem_of_In|done].
  - assert (Hf : has_id (ms_id m) m = false) by (apply (find_none _ _ Ef); by apply list_elem_of_In). unfold has_id in Hf. by rewrite bool_decide_eq_true_2 in Hf.
Qed.

(** Whatever the handler does before it answers, an error is the owner's. *)
Context (Hdev : deviceId <> []) (Htemp : pl_tempId p = Some tempId).
Definition owns (ph : phase) (r : result unit) : Prop := match r with Ok _ => True | Err _ => ph = Owner end.

Lemma slot_is : slot_of deviceId p = Some tempId.
Proof. unfold slot_of. by rewrite bool_decide_eq_false_2. Qed.

Lemma store_follows now conv :
  does (fun ph r => match r with Ok m => ph = Stored (ms_id m) /\ printed m | Err _ => ph = Owner end) Owner
    (db (store_message cf now (life now) conv userId p)).
Proof.
  assert (Hone : forall t, quiet t (store_message cf now (life now) conv userId p t).2 \/
    exists m, (store_message cf now (life now) conv userId p t).1 = Ok m /\ printed m /\ stores t (store_message cf now (life now) conv userId p t).2
      /\ carried (store_message cf now (life now) conv userId p t).2 = carried t ++ [m]).
  { intros t. pose proof (sound_store cf now (life now) conv userId p t) as Hs. destruct (store_message _ _ _ _ _ _ t) as [[m|e] t'] eqn:E; cbn in *.
    - apply store_spec in E as (c & _ & Em & Hid & _ & _ & Hp1 & Hp2 & Hca & Hex & Hct & _). right. exists m.
      assert (Hpr : printed m) by (split; [rewrite Hca|rewrite Hex; intros e [= <-]]; by apply iso_some).
      assert (Hc : carried t' = carried t ++ [m]).
      { unfold carried. rewrite Em, List.filter_app. cbn. unfold carries at 2. by rewrite Hct, bool_decide_eq_true_2. }
      split_and!; try done. split; [intros Ht; by apply Hs|]. exists m, (t_serial t). done.
    - apply store_spec in E as ->. left. by split. }
  split; [intros t; destruct (Hone t) as [Hq|(m & _ & _ & Hst & _)]; [by left|by right]|].
  intros x ph' (t & -> & Ht & Hm). cbn [prog_bind follows]. destruct (Hone t) as [[_ Hq]|(m & Hr & Hpr & _ & Hc)].
  - destruct Hm as [[_ ->]|(m & Hm & ->)].
    + destruct (store_message _ _ _ _ _ _ t) as [[m|e] t'] eqn:E; [|done]. apply store_spec in E as (c & _ & Em & _ & _ & _ & _ & _ & _ & _ & Hct & _).
      cbn in Hq. unfold carried in Hq. rewrite Em, List.filter_app in Hq. apply (f_equal length) in Hq. rewrite length_app in Hq. cbn in Hq.
      unfold carries in Hq at 2. rewrite Hct, bool_decide_eq_true_2 in Hq by done. cbn in Hq. lia.
    + rewrite Hm in Hq. apply (f_equal length) in Hq. rewrite length_app in Hq. cbn in Hq. lia.
  - rewrite Hr. destruct Hm as [[Hm ->]|(m' & Hm & ->)]; rewrite Hc in Hm.
    + apply (f_equal length) in Hm. rewrite length_app in Hm. cbn in Hm. lia.
    + apply app_inj_2 in Hm as [_ [= <-]]; [|done]. done.
Qed.

Lemma relay_follows conv msg id target : fine (Knows id) (relay_to cf userId conv p msg target).
Proof.
  unfold relay_to, register_target. apply fine_bind; [by apply fine_send|]. intros _. case_match; [apply fine_ret|].
  apply fine_bind; [apply fine_try; by apply fine_send|]. intros _. case_match; [|apply fine_ret]. apply fine_caught; [done|apply still_upsert].
Qed.

Lemma store_and_relay_follows i : does owns Owner (store_and_relay cf userId deviceId p i).
Proof.
  unfold store_and_relay. eapply does_bind; [apply (gentle_follows Owner); [done|]; apply (sends_mono still); [apply still_gentle|apply still_query]| |by intros ph' e ->].
  intros ph' [conv|] ->; [|by apply does_ends; [apply fine_error|]].
  split; [done|]. intros now ph' [_ ->]. cbn [prog_bind].
  eapply does_bind; [apply store_follows| |by intros ph' e ->]. intros ph' m [-> Hpr]. unfold relay_stored. rewrite slot_is.
  eapply (does_bind _ (fun ph' r => ph' = Knows (ms_id m) /\ r = Ok tt)).
  { split; [done|]. intros x ph' [-> ->]. done. }
  2: by intros ph' e [_ ?].
  intros ph' _ [-> _]. destruct (raw_of m Hpr) as (raw & Hraw & Hid). rewrite Hraw. cbn [from mbind hx_bind prog_bind].
  apply does_fine; [by apply ack_followed|]. intros _. apply does_fine.
  - repeat case_match; try apply fine_ret. apply fine_caught; [done|]. apply sends_hx; [apply still_record|done].
  - intros _. case_match; [|done]. apply does_ends; [|done]. apply fine_each. intros target. apply relay_follows.
Qed.

Lemma handler_follows i : follows allowed moves_to (fun _ _ => True) Idle (handle cf (ReqChat userId deviceId (Some p) i)).
Proof.
  apply (follows_bind allowed moves_to (fun _ _ => True) Idle). apply (follows_weaken _ _ (fun _ _ => True)); [done|]. unfold handleChatMessage.
  assert (Herr : forall ph e, does (fun _ _ => True) ph (sendAck userId deviceId i (AckError e))) by (intros ph e; apply does_ends; [apply fine_error|done]).
  case_match; [apply Herr|]. apply (follows_bind allowed moves_to (fun _ _ => True) Idle). apply (follows_weaken _ _ owns).
  { intros ph [u|e] Hr; [done|]. cbn in Hr. subst ph. rewrite slot_is. split; [done|]. intros x ph' [-> ->]. apply Herr. }
  unfold enter. rewrite slot_is.
  apply (does_bind _ (fun ph r => r = Ok (Some tt) /\ ph = Owner \/ r = Ok None)); [| |by intros ? ? [[? _]|?]].
  - eapply does_bind; [apply reserve_follows| |by intros ph e [[? _]|[[? _]|(? & ? & _)]]].
    intros ph r [[[= ->] ->]|[[[= ->] ->]|(id & [= ->] & ->)]]; [by left|by right|].
    split; [by intros t|]. intros x ph' (t & -> & Ht & -> & m & Hc & <- & Hpr). cbn [prog_bind fst]. rewrite (find_carried _ _ Ht Hc). cbn.
    destruct (raw_of m Hpr) as (raw & Hraw & Hid). rewrite Hraw. cbn [from mbind hx_bind prog_bind].
    apply does_fine; [by apply ack_followed|]. intros _. by right.
  - intros ph [u|] [[Hr ->]|Hr]; try done. apply store_and_relay_follows.
Qed.
End Retry.

(** ** One message *)
Section SendOnce.
Context `{ServerCrypto, Sodium, MembershipDb, MessageIdsLaws} (cf : Config).

Lemma clock_forward X (c : cmd X) w : w_now w <= w_now (do_cmd X c w).2.
Proof. destruct c; cbn; repeat case_match; cbn; lia. Qed.

(** C11: repetitions of one send store one message. Any number of requests with the same
    device and temporary id, interleaved at their commands with each other, with the
    passing of time and with changes by others that leave the slot, the message and the
    three connections alone, within the 24 hours a slot lives: at every moment at most
    one row carries the content, and all successful acknowledgements name that row; none
    is sent before it is stored. Requests that fail in the middle, wait for each other
    or give up are included. *)
Theorem send_once (userId deviceId : jstr) (tempId : Z) (p : MessageSendPayload) (msgIds : list (option jstr)) (w : world) s' :
  deviceId <> [] -> pl_tempId p = Some tempId ->
  w_db_up w = true -> w_redis_up w = true -> w_pub_up w = true -> tables_ok (w_tables w) ->
  redis_get (w_now w) (slot_key deviceId tempId) (w_redis w) = None ->
  carried p (w_tables w) = [] -> omap (acked deviceId tempId) (w_events w) = [] ->
  rtc (sys_step do_cmd (others deviceId tempId p)) (map (fun i => handle cf (ReqChat userId deviceId (Some p) i)) msgIds, w) s' ->
  w_now s'.2 < w_now w + slot_ms ->
  tables_ok (w_tables s'.2) /\
  (carried p (w_tables s'.2) = [] /\ omap (acked deviceId tempId) (w_events s'.2) = [] \/
   exists m, carried p (w_tables s'.2) = [m] /\ Forall (eq (ms_id m)) (omap (acked deviceId tempId) (w_events s'.2))).
Proof.
  intros Hdev Htemp Hd Hr Hp Hok Hk Hc Ha Hrun Hlive.
  pose proof (follows_invariant (A := unit) do_cmd (allowed deviceId tempId p) (moves_to p (w_now w)) (others deviceId tempId p) (live (w_now w)) (fun _ _ => True)
    (retry_inv deviceId tempId p (w_now w))) as Hgen.
  destruct (Hgen) with (s := (map (fun i => handle cf (ReqChat userId deviceId (Some p) i)) msgIds, w)) (s' := s') (phs := map (fun _ : option jstr => Idle) msgIds)
    as (phs & _ & [_ _ _ Hok' _ Hs]); try done; clear Hgen.
  - intros X c v Hl. unfold live in *. enough (w_now v <= w_now (do_cmd X c v).2) by lia. apply clock_forward.
  - intros v v' [_ _ _ Hn _ _ _] Hl. unfold live in *. lia.
  - intros phs v i ph X c Hinv Hl _ Hi Hal. by apply any_step.
  - intros phs v v' Hoth Hinv. by apply (others_step _ _ _ _ v).
  - cbn. clear -Hdev Htemp H3. induction msgIds as [|i l IH]; [constructor|]. cbn. constructor; [|done]. by apply handler_follows.
  - split; cbn; try done; try lia. apply slot_free; try done.
    + apply Forall_map, Forall_forall. done.
    + intros e He. left. unfold redis_get in Hk. rewrite He in Hk. case_match; [done|lia].
  - split; [done|]. destruct Hs as [Hf Hc' Ha' He|i e Hi Ho Hc' Ha' He Hv Hu|i e m n Hi Ho Hc' Hid Hpr Ha' He Hv Hu|e m n Hf Hc' Hid Hpr Ha' He Hv Hu].
    + by left.
    + by left.
    + right. exists m. by rewrite Ha'.
    + right. by exists m.
Qed.

(** ** What happens when a step after the insertion fails *)
Lemma run_hx {A B} (m : hx A) (f : A -> hx B) w :
  run do_cmd (m ≫= f) w = let '(r, w') := run do_cmd m w in match r with Ok a => run do_cmd (f a) w' | Err e => (Err e, w') end.
Proof. etransitivity; [apply (run_bind do_cmd m)|]. by destruct (run do_cmd m w) as [[a|e] w']. Qed.

Lemma run_after {A B} (m : hx A) (f : result A -> hx B) w : run do_cmd (prog_bind m f) w = let '(r, w') := run do_cmd m w in run do_cmd (f r) w'.
Proof. apply (run_bind do_cmd m). Qed.

(** Commands that leave the rows of the message. *)
Definition leaves (p : MessageSendPayload) (X : Type) (c : cmd X) : Prop := match c with Db q => forall t, carried p (q t).2 = carried p t /\ t_convs (q t).2 = t_convs t /\ t_serial (q t).2 = t_serial t | _ => True end.
Lemma still_leaves p X (c : cmd X) : still X c -> leaves p X c.
Proof. destruct c; cbn; try done. intros Hq t. destruct (Hq t) as (Em & ? & ?). unfold carried. by rewrite Em. Qed.
Definition same_rows p (w w' : world) : Prop := carried p (w_tables w') = carried p (w_tables w) /\ t_convs (w_tables w') = t_convs (w_tables w) /\
  t_serial (w_tables w') = t_serial (w_tables w).
Lemma run_leaves {A} p (m : prog cmd A) w : sends (leaves p) m -> same_rows p w (run do_cmd m w).2.
Proof.
  revert w. induction m as [a|X c k IH]; intros w; [done|]. intros [Hc Hk]. cbn [run].
  assert (Hw : same_rows p w (do_cmd X c w).2).
  { destruct c; cbn; repeat case_match; cbn; try done. match goal with E : q _ = _ |- _ => specialize (Hc (w_tables w)); rewrite E in Hc end. done. }
  destruct (do_cmd X c w) as [x w']. destruct (IH x w' (Hk x)) as (? & ? & ?), Hw as (? & ? & ?). split_and!; by etransitivity.
Qed.

Lemma leaves_call p X (c : cmd (result X)) : match c with Db _ => False | _ => True end -> sends (leaves p) (call c : hx X).
Proof. intros Hc. split; [|done]. by destruct c. Qed.
Lemma leaves_ack p u d i a : sends (leaves p) (sendAck u d i a).
Proof. unfold sendAck. case_match; [|done]. by apply leaves_call. Qed.
Lemma leaves_release p d tmp : sends (leaves p) (releaseMessageSlot d tmp).
Proof. apply sends_caught. by apply leaves_call. Qed.
Lemma leaves_relay p u conv msg target : sends (leaves p) (relay_to cf u conv p msg target).
Proof.
  unfold relay_to, register_target. apply sends_hx; [by apply leaves_call|]. intros _. case_match; [done|].
  apply sends_hx; [apply sends_caught; by apply leaves_call|]. intros _. case_match; [|done].
  apply sends_caught. apply (sends_mono still); [apply still_leaves|apply still_upsert].
Qed.

(** A conversation of two, a message without session and reply: storing cannot fail. *)
Definition plain (p : MessageSendPayload) : Prop := truthy (pl_sessionId p) = None /\ truthy (pl_repliedToId p) = None.
Definition dated (p : MessageSendPayload) (now : Z) : Prop :=
  Z.abs (messageTimeBucket now) <= MAX_TIME /\ Z.abs (messageTimeBucket now + life p now) <= MAX_TIME.
Lemma plain_stored now conv u p t : plain p -> dated p now -> cv_isGroup conv = false -> is_Some (assoc (pl_conversationId p) (t_convs t)) ->
  exists m t', store_message cf now (life p now) conv u p t = (Ok m, t').
Proof.
  intros [Hs Hr] [Hd1 Hd2] Hg (c & Hc). unfold store_message, reserveMessageSeq, senderIdForStorage, seal_truthy. rewrite Hc, Hg, Hs, Hr. cbn.
  unfold new_date. apply Z.leb_le in Hd1, Hd2. rewrite Hd1. cbn. rewrite Hd2. by eexists _, _.
Qed.

Lemma with_tables_id w : with_tables (w_tables w) w = w.
Proof. by destruct w. Qed.
Lemma run_query {X} (f : tables -> X) w : w_db_up w = true -> run do_cmd (query f) w = (Ok (f (w_tables w)), w).
Proof. intros Hd. cbn. by rewrite Hd, with_tables_id. Qed.

Lemma leaves_rest u d p i conv m : sends (leaves p) (relay_stored cf u d conv p i m).
Proof.
  unfold relay_stored. apply sends_hx; [case_match; [apply sends_caught; by apply leaves_call|done]|]. intros _. apply sends_hx; [done|]. intros raw.
  apply sends_hx; [apply leaves_ack|]. intros _. apply sends_hx.
  - repeat case_match; try done. apply sends_caught, sends_hx; [|done]. apply (sends_mono still); [apply still_leaves|apply still_record].
  - intros _. case_match; [|done]. apply sends_each. intros target. apply leaves_relay.
Qed.

(** A world in which [p] can be stored and its slot is free. *)
Record ready (d : jstr) (tempId : Z) (p : MessageSendPayload) (w : world) : Prop := mkReady {
  rd_db : w_db_up w = true; rd_redis : w_redis_up w = true;
  rd_slot : redis_get (w_now w) (slot_key d tempId) (w_redis w) = None; rd_plain : plain p; rd_dates : dated p (w_now w);
  rd_conv : exists conv, assoc (pl_conversationId p) (t_convs (w_tables w)) = Some conv /\ cv_isGroup conv = false }.

Lemma run_enter u d tempId p i w : slot_of d p = Some tempId -> ready d tempId p w ->
  run do_cmd (enter cf u d p i) w = (Ok (Some tt), with_redis (redis_setEx (w_now w) (slot_key d tempId) SEND_DEDUPE_TTL_SECONDS pending (w_redis w)) w).
Proof. intros Hs [Hd Hr Hk _ _]. unfold enter, reserveMessageSlot. rewrite Hs, run_hx, run_hx. cbn -[buildSendDedupeKey redis_get redis_setEx]. unfold slot_key in *. by rewrite Hr, Hk. Qed.

(** The transaction commits; what follows leaves the row, and without a connection to
    publish on it ends with an error. *)
Lemma run_store u d tempId p i w : slot_of d p = Some tempId -> w_db_up w = true -> plain p -> dated p (w_now w) ->
  (exists conv, assoc (pl_conversationId p) (t_convs (w_tables w)) = Some conv /\ cv_isGroup conv = false) ->
  let out := run do_cmd (store_and_relay cf u d p i) w in
  (exists m, carried p (w_tables out.2) = carried p (w_tables w) ++ [m] /\ ms_id m = uuid (t_serial (w_tables w))) /\
  t_serial (w_tables out.2) = S (t_serial (w_tables w)) /\
  (exists conv, assoc (pl_conversationId p) (t_convs (w_tables out.2)) = Some conv /\ cv_isGroup conv = false).
Proof.
  intros Hs Hd Hpl Hda (conv & Hc & Hg) out. subst out. unfold store_and_relay. rewrite run_hx, run_query by done. rewrite Hc.
  rewrite run_hx. cbn [run date_now call prog_bind do_cmd]. rewrite run_hx.
  destruct (plain_stored (w_now w) conv u p (w_tables w) Hpl Hda Hg ltac:(by eexists)) as (m & t' & Hst).
  assert (Hdb : run do_cmd (db (store_message cf (w_now w) (life p (w_now w)) conv u p)) w = (Ok m, with_tables t' w)) by (cbn; by rewrite Hd, Hst).
  unfold life in Hdb. rewrite Hdb. destruct (run_leaves p _ (with_tables t' w) (leaves_rest u d p i conv m)) as (-> & -> & ->). cbn [w_tables with_tables].
  apply store_spec in Hst as (c & Hc' & Em & Hid & _ & _ & _ & _ & _ & _ & Hct & _ & Hn & ->). split_and!; [|done|].
  - exists m. split; [|done]. unfold carried. rewrite Em, List.filter_app. cbn. unfold carries at 2. by rewrite Hct, bool_decide_eq_true_2.
  - rewrite assoc_set, bool_decide_eq_true_2 by done. rewrite Hc in Hc'. injection Hc' as <-. by eexists.
Qed.

Lemma run_chat u d tempId p i w : slot_of d p = Some tempId -> ready d tempId p w ->
  match pl_targetRecipients p with Some l => maxRecipientsFor u <? Z.of_nat (length l) | None => false end = false ->
  let out := run do_cmd (handleChatMessage cf u d (Some p) i) w in
  (exists m, carried p (w_tables out.2) = carried p (w_tables w) ++ [m] /\ ms_id m = uuid (t_serial (w_tables w))) /\
  t_serial (w_tables out.2) = S (t_serial (w_tables w)) /\
  (exists conv, assoc (pl_conversationId p) (t_convs (w_tables out.2)) = Some conv /\ cv_isGroup conv = false).
Proof.
  intros Hs Hrd Hcap out. subst out. unfold handleChatMessage. rewrite Hcap, run_after, run_hx, (run_enter _ _ tempId) by done.
  set (w1 := with_redis _ w). destruct Hrd as [Hd Hr Hk Hpl Hda Hconv].
  pose proof (run_store u d tempId p i w1 Hs Hd Hpl Hda Hconv) as Hst. destruct (run do_cmd (store_and_relay cf u d p i) w1) as [r w2]. cbn in Hst.
  destruct r as [x|e]; [done|]. rewrite Hs.
  assert (Hl : sends (leaves p) (releaseMessageSlot d tempId ≫= fun _ => sendAck u d i (AckError (js "Internal server error")))).
  { apply sends_hx; [apply leaves_release|]. intros _. apply leaves_ack. }
  destruct (run_leaves p _ w2 Hl) as (-> & -> & ->). done.
Qed.

Definition with_pub (up : bool) (now : Z) (w : world) : world := mkWorld (w_tables w) (w_redis w) (w_db_up w) (w_redis_up w) up (w_events w) now.
(** The connections stay as they are while one request runs. *)
Definition flags (w : world) : bool * bool * bool := (w_db_up w, w_redis_up w, w_pub_up w).
Lemma run_flags {A} (m : prog cmd A) w : flags (run do_cmd m w).2 = flags w.
Proof.
  revert w. induction m as [a|X c k IH]; intros w; [done|]. cbn [run]. assert (Hw : flags (do_cmd X c w).2 = flags w) by (destruct c; cbn; repeat case_match; done).
  destruct (do_cmd X c w) as [x w']. by rewrite IH.
Qed.

Lemma rest_fails u d tempId p i conv m w : slot_of d p = Some tempId -> w_redis_up w = true -> w_pub_up w = false -> is_Some (truthy i) ->
  exists e, (run do_cmd (relay_stored cf u d conv p i m) w).1 = Err e.
Proof.
  intros Hs Hr Hp (id & Hi). unfold relay_stored. rewrite Hs, run_hx. cbn -[buildSendDedupeKey redis_setEx toRawServerMessage relay_to sendAck mbind hx_bind].
  rewrite Hr. rewrite run_hx. cbn [run from]. destruct (toRawServerMessage _) as [raw|e]; [|by eexists].
  rewrite run_hx. unfold sendAck. rewrite Hi. cbn. rewrite Hp. by eexists.
Qed.

Lemma failed_frees u d tempId p i w : slot_of d p = Some tempId -> ready d tempId p w -> w_pub_up w = false -> is_Some (truthy i) ->
  match pl_targetRecipients p with Some l => maxRecipientsFor u <? Z.of_nat (length l) | None => false end = false ->
  w_redis (run do_cmd (handleChatMessage cf u d (Some p) i) w).2 !! slot_key d tempId = None.
Proof.
  intros Hs Hrd Hp Hi Hcap. unfold handleChatMessage. rewrite Hcap, run_after, run_hx, (run_enter _ _ tempId) by done.
  set (w1 := with_redis _ w). destruct Hrd as [Hd Hr Hk Hpl Hda (conv & Hc & Hg)].
  assert (Herr : exists e, (run do_cmd (store_and_relay cf u d p i) w1).1 = Err e).
  { unfold store_and_relay. rewrite run_hx, run_query by done. cbn [w1 with_redis w_tables]. rewrite Hc, run_hx. cbn [run date_now call prog_bind do_cmd].
    rewrite run_hx. pose proof (run_flags (db (store_message cf (w_now w1) (life p (w_now w1)) conv u p)) w1) as Hf. unfold life in Hf.
    destruct (run do_cmd (db _) w1) as [[m|e] w2]; [|by eexists]. injection Hf as _ Hr2 Hp2. apply (rest_fails _ _ tempId); try done; [by rewrite Hr2|by rewrite Hp2]. }
  destruct Herr as (e & Herr). pose proof (run_flags (store_and_relay cf u d p i) w1) as Hf.
  destruct (run do_cmd (store_and_relay cf u d p i) w1) as [r w2]. cbn in Herr. subst r. injection Hf as _ Hr2 Hp2. rewrite Hs.
  rewrite run_hx. cbn -[buildSendDedupeKey sendAck redis_del]. rewrite Hr2, Hr. unfold sendAck. destruct Hi as (id & ->). cbn -[buildSendDedupeKey].
  rewrite Hp2, Hp. unfold slot_key. cbn -[buildSendDedupeKey]. by rewrite lookup_delete_eq.
Qed.

(** When publishing fails after the insertion, the handler that catches the error releases
    the slot although the message is stored: the repetition the client sends once
    the connection is back stores a second row with another id. *)
Theorem lost_ack_duplicates (u d : jstr) (tempId : Z) (p : MessageSendPayload) (i i' : option jstr) (w : world) (later : Z) :
  d <> [] -> pl_tempId p = Some tempId -> ready d tempId p w -> w_pub_up w = false -> is_Some (truthy i) -> dated p later ->
  match pl_targetRecipients p with Some l => maxRecipientsFor u <? Z.of_nat (length l) | None => false end = false ->
  let first := run do_cmd (handleChatMessage cf u d (Some p) i) w in
  let again := run do_cmd (handleChatMessage cf u d (Some p) i') (with_pub true later first.2) in
  exists m m', carried p (w_tables again.2) = carried p (w_tables w) ++ [m; m'] /\ ms_id m <> ms_id m'.
Proof.
  intros Hdev Htemp Hrd Hp Hi Hlater Hcap. cbv zeta.
  assert (Hs : slot_of d p = Some tempId) by (unfold slot_of; by rewrite bool_decide_eq_false_2).
  pose proof (run_chat u d tempId p i w Hs Hrd Hcap) as [(m & Hm & Hid) [Hn Hconv]].
  pose proof (failed_frees u d tempId p i w Hs Hrd Hp Hi Hcap) as Hfree.
  pose proof (run_flags (handleChatMessage cf u d (Some p) i) w) as Hf.
  destruct (run do_cmd (handleChatMessage cf u d (Some p) i) w) as [r w1]. cbn [snd] in *. injection Hf as Hd2 Hr2 _.
  destruct Hrd as [Hd Hr Hk Hpl _ _].
  assert (Hrd2 : ready d tempId p (with_pub true later w1)).
  { split; cbn [with_pub w_db_up w_redis_up w_redis w_tables]; [congruence|congruence| |done|done|done]. unfold redis_get. by rewrite Hfree. }
  pose proof (run_chat u d tempId p i' _ Hs Hrd2 Hcap) as [(m' & Hm' & Hid') _]. cbn [with_pub w_tables] in Hm', Hid'.
  exists m, m'. rewrite Hm', Hm, <- app_assoc. split; [done|]. rewrite Hid, Hid', Hn. intros Heq. apply uuid_injective in Heq. lia.
Qed.
End SendOnce.

(** ** Concrete runs *)
Module ToyMessages.
Import Toy ToyServer ToyMembers.
#[export] Instance toy_ids : MessageIds := {| uuid n := repeat 49 (S n) |}.
#[export] Instance toy_ids_laws : MessageIdsLaws.
Proof.
  split; [|by intros n; split].
  intros n m Hnm. apply (f_equal length) in Hnm. cbn in Hnm. rewrite !repeat_length in Hnm. lia.
Qed.
Definition ring : AtRest.AtRestKeyring := AtRest.mkRing [] [].
Definition cf : Config := mkConfig (js "pepper") ring.
Definition alice : jstr := js "alice".
Definition phone : jstr := js "phone".
Definition conversation : jstr := js "conv".
Definition hello : MessageSendPayload :=
  mkPayload conversation (js "ciphertext") None (Some 7) None None false (Some [js "bob"]) None None [].
Definition tables0 : tables := mkTables [] [(conversation, mkConv false 0 0 None)] [] [] [] [] [] [] 0.
Definition world0 : world := mkWorld tables0 ∅ true true true [] 1000.
Definition retries : list (prog cmd unit) := map (fun i => handle cf (ReqChat alice phone (Some hello) i)) [Some (js "a"); Some (js "b")].
Definition sent : list (prog cmd unit) * world := play do_cmd (concat (repeat [0; 1]%nat 20)) (retries, world0).
End ToyMessages.
Import Toy ToyServer ToyMembers ToyMessages.

Lemma tables0_ok : tables_ok tables0.
Proof. split; cbn; try constructor; intros m Hm; by apply not_elem_of_nil in Hm. Qed.

Lemma sent_facts : w_now sent.2 = 1300 /\ length (carried hello (w_tables sent.2)) = 1%nat /\ length (omap (acked phone 7) (w_events sent.2)) = 2%nat.
Proof. vm_compute. repeat split. Qed.

Lemma one_not_none {A} (l : list A) : length l = 1%nat -> l = [] -> False.
Proof. by destruct l. Qed.
Lemma both_are {A} (x : A) l : Forall (eq x) l -> length l = 2%nat -> l = [x; x].
Proof. destruct l as [|a [|b [|c l]]]; try done. intros Hf _. by apply Forall_cons in Hf as [<- [<- _]%Forall_cons]. Qed.

Lemma send_once_witness : exists m, carried hello (w_tables sent.2) = [m] /\ omap (acked phone 7) (w_events sent.2) = [ms_id m; ms_id m].
Proof.
  destruct sent_facts as (Hnow & Hone & Htwo).
  destruct (send_once cf alice phone 7 hello [Some (js "a"); Some (js "b")] world0 sent) as [_ [[Hc _]|(m & Hc & Hf)]].
  - discriminate.
  - reflexivity.
  - reflexivity.
  - reflexivity.
  - reflexivity.
  - apply tables0_ok.
  - reflexivity.
  - reflexivity.
  - reflexivity.
  - apply play_steps.
  - rewrite Hnow. reflexivity.
  - exact (False_ind _ (one_not_none _ Hone Hc)).
  - exists m. split; [exact Hc|]. exact (both_are _ _ Hf Htwo).
Defined.

Lemma lost_ack_duplicates_witness :
  let first := run do_cmd (handleChatMessage cf alice phone (Some hello) (Some (js "a"))) (with_pub false 1000 world0) in
  let again := run do_cmd (handleChatMessage cf alice phone (Some hello) (Some (js "a"))) (with_pub true 2000 first.2) in
  exists m m', carried hello (w_tables again.2) = [m; m'] /\ ms_id m <> ms_id m'.
Proof.
  apply (lost_ack_duplicates cf alice phone 7 hello (Some (js "a")) (Some (js "a")) (with_pub false 1000 world0) 2000).
  - discriminate.
  - reflexivity.
  - split; [reflexivity|reflexivity|reflexivity|split; reflexivity|split; apply Z.leb_le; reflexivity|]. exists (mkConv false 0 0 None). split; reflexivity.
  - reflexivity.
  - eexists. reflexivity.
  - split; apply Z.leb_le; reflexivity.
  - reflexivity.
Defined.

Lemma sequence_numbers_witness : tables_ok (w_tables sent.2) /\ grows tables0 (w_tables sent.2) /\ map ms_seq (t_messages (w_tables sent.2)) = [1].
Proof.
  destruct (sequence_numbers cf (fun _ _ => False) [ReqChat alice phone (Some hello) (Some (js "a")); ReqChat alice phone (Some hello) (Some (js "b"))] world0 sent)
    as [Hok Hg].
  - intros v v' [].
  - apply tables0_ok.
  - apply play_steps.
  - split; [exact Hok|]. split; [exact Hg|]. vm_compute. reflexivity.
Defined.
