(* ===== verification/MessageDelivery.v ===== *)
(** What is delivered: how long a message is served, what a client that catches up
    receives page by page, and when a message that opens once goes away. *)
From stdpp Require Import pretty sorting.
From S2P Require Import Prelude Bytes Base64 Utf8 Text Js JsDate PqWire Sodium LocalAtRest Json AtRest Effects Membership MessageStore MessageSequence MessageRetry.
Import Messages.

(** ** How long a message lives *)
Section Lifetime.
Context `{ServerCrypto, Sodium, MembershipDb, MessageIds} (cf : Config).

Lemma bucket_bounds now : now - MESSAGE_TIME_BUCKET_MS < messageTimeBucket now <= now.
Proof. unfold messageTimeBucket, truncateToBucket, MESSAGE_TIME_BUCKET_MS. dlia. Qed.
Lemma bucket_mod now : now - messageTimeBucket now = now mod MESSAGE_TIME_BUCKET_MS.
Proof. unfold messageTimeBucket, truncateToBucket, MESSAGE_TIME_BUCKET_MS. dlia. Qed.

(** C15: the life of a stored message. Its time is the last quarter of an hour before it was
    sent; it is served only before its lifetime counted from sending is over, and the
    sweeper may delete it from then on at the latest. The lifetime is counted from the
    quarter of an hour: a message whose lifetime is not longer than the part of the quarter already
    past is due for deletion when it is stored, and no catch-up ever serves it. The
    shortest timer of the client, one minute, meets this fourteen minutes out of
    fifteen. *)
Theorem message_lifetime (now ttl : Z) (conv : conv_row) (userId : jstr) (p : MessageSendPayload) (t t' : tables) (m : Message) :
  0 <= ttl -> store_message cf now ttl conv userId p t = (Ok m, t') ->
  ms_createdAt m mod MESSAGE_TIME_BUCKET_MS = 0 /\ now - MESSAGE_TIME_BUCKET_MS < ms_createdAt m <= now /\
  (forall c b later, in_window c later b m = true -> later < now + ttl) /\
  (forall later, now + ttl <= later -> due later m = true) /\
  (ttl <= now mod MESSAGE_TIME_BUCKET_MS <-> due now m = true) /\
  (ttl <= now mod MESSAGE_TIME_BUCKET_MS -> forall c b later, now <= later -> in_window c later b m = false).
Proof.
  intros Ht Hs. apply store_spec in Hs as (_ & _ & _ & _ & _ & _ & _ & _ & Hc & He & _).
  pose proof (bucket_bounds now) as Hb. pose proof (bucket_mod now) as Hm. unfold due, in_window. rewrite Hc, He.
  assert (Hd : now mod MESSAGE_TIME_BUCKET_MS < DEFAULT_TTL_MS) by (unfold MESSAGE_TIME_BUCKET_MS, DEFAULT_TTL_MS; dlia).
  split; [unfold messageTimeBucket, truncateToBucket; by apply Z.mod_mul|]. split_and!; lia.
Qed.
End Lifetime.

(** ** Catching up *)
Section CatchUpPages.
Context `{ServerCrypto, Sodium, MembershipDb, MessageIds} (cf : Config).

(** Strictly newer first. *)
Definition above (a b : Message) : Prop := ms_seq b < ms_seq a.
#[local] Instance above_antisymm : AntiSymm (=) above.
Proof. intros a b. unfold above. lia. Qed.
#[local] Instance newer_total : Total newer.
Proof. intros a b. unfold newer. lia. Qed.
#[local] Instance newer_trans : Transitive newer.
Proof. intros a b c. unfold newer. lia. Qed.

Lemma above_sorted l : NoDup (map ms_seq l) -> StronglySorted newer l -> StronglySorted above l.
Proof.
  intros Hn Hs. induction Hs as [|a l Hs IH Ha]; [constructor|]. cbn in Hn. apply NoDup_cons in Hn as [Hna Hn].
  constructor; [by apply IH|]. apply Forall_forall. intros b Hb. rewrite Forall_forall in Ha. specialize (Ha b Hb). unfold newer, above in *.
  assert (ms_seq a <> ms_seq b); [|lia]. intros Heq. apply Hna. rewrite Heq. apply list_elem_of_In, in_map, list_elem_of_In, Hb.
Qed.

Lemma desc_sorted l : NoDup (map ms_seq l) -> StronglySorted above (desc l).
Proof.
  intros Hn. apply above_sorted; [|apply StronglySorted_merge_sort; apply _].
  assert (Hp : Permutation (map ms_seq (desc l)) (map ms_seq l)) by apply Permutation_map, merge_sort_Permutation. by rewrite Hp.
Qed.

Lemma sorted_same l l' : StronglySorted above l -> StronglySorted above l' -> Permutation l l' -> l = l'.
Proof. intros H1' H2' Hp. by apply (StronglySorted_unique above). Qed.

(** The rows after a cut have the smaller numbers. *)
Lemma sorted_drop l k m : StronglySorted above l -> last (take k l) = Some m -> List.filter (fun x => ms_seq x <? ms_seq m) l = drop k l.
Proof.
  revert k. induction l as [|a l IH]; intros k Hs Hl; [by rewrite take_nil in Hl|]. apply StronglySorted_inv in Hs as [Hs Ha].
  destruct k as [|k]; [done|]. cbn [take drop] in *. rewrite Forall_forall in Ha. destruct (take k l) as [|b l'] eqn:Et.
  - cbn in Hl. injection Hl as ->. cbn. rewrite Z.ltb_irrefl.
    assert (Hd : drop k l = l) by (destruct k as [|k]; [done|]; destruct l; done). rewrite Hd. clear -Ha.
    induction l as [|b l IH]; [done|]. cbn. rewrite (proj2 (Z.ltb_lt _ _)); [|apply Ha; by left]. f_equal. apply IH. intros x Hx. apply Ha. by right.
  - assert (Hm : m ∈ l).
    { assert (Hm : m ∈ take k l) by (apply last_Some_elem_of; by rewrite Et). apply elem_of_take in Hm as (i & Hi & _). by apply list_elem_of_lookup_2 in Hi. }
    cbn. rewrite (proj2 (Z.ltb_ge _ _)); [|specialize (Ha m Hm); unfold above in Ha; lia]. by apply IH; [|rewrite Et].
Qed.

(** Rows in the order of their first appearance, one for every key. *)
Lemma by_key {A} (key : A -> jstr) (l : list A) : let m := foldl (fun m x => map_set (key x) x m) [] l in
  NoDup (map key (map snd m)) /\ (forall x, x ∈ map snd m -> x ∈ l) /\ (forall x, x ∈ l -> key x ∈ map key (map snd m)).
Proof.
  intros m. assert (Hm : NoDup m.*1 /\ (forall k x, (k, x) ∈ m -> k = key x /\ x ∈ l) /\ (forall x, x ∈ l -> key x ∈ m.*1)).
  { subst m. induction l as [|x l IH] using rev_ind; [split_and!; [constructor|intros k x Hx; by apply not_elem_of_nil in Hx..|intros x Hx; by apply not_elem_of_nil in Hx]|].
    destruct IH as (Hn & Hk & Hl). rewrite foldl_app. cbn [foldl]. split_and!.
    - by apply map_set_nodup.
    - intros k y Hy. apply map_set_elem in Hy as [[-> ->]|Hy]; [split; [done|set_solver]|]. destruct (Hk k y Hy) as [-> Hin]. split; [done|set_solver].
    - intros y Hy. rewrite map_set_keys. apply elem_of_app in Hy as [Hy|Hy]; [right; by apply Hl|left]. by apply list_elem_of_singleton in Hy as ->. }
  destruct Hm as (Hn & Hk & Hl). assert (Hmk : map key (map snd m) = m.*1).
  { clear -Hk. induction m as [|[k x] m IH]; [done|]. cbn. f_equal; [symmetry; by apply (Hk k x); left|]. apply IH. intros k' y Hy. apply Hk. by right. }
  rewrite Hmk. split_and!; try done. intros x Hx. apply list_elem_of_fmap in Hx as ([k y] & -> & Hy). by apply (Hk k y).
Qed.

(** ** One page *)
Context (w : world) (userId conversationId : jstr).
Definition msgs : list Message := t_messages (w_tables w).
Definition window : list Message := List.filter (in_window conversationId (w_now w) None) msgs.
Definition rows : list Message := desc window.
(** What a client receives for a message: emptied once the user has opened it. *)
Definition view (m : Message) : result RawServerMessage :=
  client_view cf (if ms_isViewOnce m && bool_decide ((ms_id m, tag cf conversationId userId) ∈ t_opens (w_tables w)) then [ms_id m] else []) m.
Context (Hup : w_db_up w = true) (Hok : tables_ok (w_tables w)) (Hdates : forall m, m ∈ msgs -> printed m)
  (Hseqs : forall m, m ∈ msgs -> 0 <= ms_seq m <= MAX_SAFE_INTEGER).

Lemma window_msgs m : m ∈ window -> m ∈ msgs /\ ms_conversationId m = conversationId.
Proof.
  unfold window. intros Hm. apply in_filter in Hm as [Hw Hm]. split; [done|]. unfold in_window in Hw.
  repeat (apply andb_true_iff in Hw as [Hw ?]). by apply bool_decide_eq_true in Hw.
Qed.
Lemma rows_window m : m ∈ rows <-> m ∈ window.
Proof. unfold rows, desc. by rewrite merge_sort_Permutation. Qed.
Lemma rows_length : length rows = length window.
Proof. unfold rows, desc. by rewrite merge_sort_Permutation. Qed.

Lemma window_seqs : NoDup (map ms_seq window).
Proof.
  assert (Hn : NoDup (map number_of window)) by (apply nodup_filter_map, Hok).
  assert (He : map number_of window = map (pair conversationId) (map ms_seq window)).
  { rewrite map_map. apply map_ext_in. intros m Hm. apply list_elem_of_In in Hm. unfold number_of. f_equal. by apply window_msgs. }
  rewrite He in Hn. by apply NoDup_fmap_1 in Hn.
Qed.
Lemma rows_sorted : StronglySorted above rows.
Proof. apply desc_sorted, window_seqs. Qed.

(** The rows with numbers from that of row [k] on are the first [k]. *)
Lemma newest_first k o m : last (take k rows) = Some o -> m ∈ rows -> ms_seq o <= ms_seq m -> m ∈ take k rows.
Proof.
  intros Ho Hm Hle. rewrite <- (take_drop k rows) in Hm. apply elem_of_app in Hm as [Hm|Hm]; [done|].
  rewrite <- (sorted_drop rows k o rows_sorted Ho) in Hm. apply in_filter in Hm as [Hm _]. lia.
Qed.

(** The cut before row [k], as the client names it. *)
Definition cut (k : nat) (before : option jstr) : Prop :=
  k = 0%nat /\ before = None \/ exists m, last (take k rows) = Some m /\ before = Some (js (pretty (ms_seq m))).

Lemma seq_cursor_roundtrip n : 0 <= n <= MAX_SAFE_INTEGER -> parseMessageCursor (Some (js (pretty n))) = Some n.
Proof.
  intros Hn. unfold parseMessageCursor. change (default [] (Some (js (pretty n)))) with (js (pretty n)). destruct (pretty_nonempty n) as (c & s & Hcs); [lia|].
  assert (Hd : forallb js_digit (js (pretty n)) = true).
  { apply decimal_js. apply pretty_decimal. lia. }
  rewrite Hcs in *. rewrite trim_id; [|apply digit_not_space; by apply andb_true_iff in Hd as [? _]|by apply andb_true_iff in Hd as [_ ?]].
  cbn [all_digits]. rewrite Hd. rewrite <- Hcs, number_pretty by lia. by replace (n <=? MAX_SAFE_INTEGER) with true by lia.
Qed.

Lemma filter_both {A} (P Q : A -> bool) l : List.filter (fun x => P x && Q x) l = List.filter Q (List.filter P l).
Proof. induction l as [|a l IH]; [done|]. cbn. destruct (P a); cbn; [destruct (Q a)|]; by rewrite IH. Qed.

Lemma and_swap (x c d : bool) : (x && c) && d = (x && d) && c.
Proof. by destruct x, c, d. Qed.
Lemma sorted_filter (P : Message -> bool) l : StronglySorted above l -> StronglySorted above (List.filter P l).
Proof.
  induction 1 as [|a l Hs IH Ha]; [constructor|]. cbn. destruct (P a); [|done]. constructor; [done|].
  rewrite Forall_forall in *. intros b Hb. apply in_filter in Hb as [_ Hb]. by apply Ha.
Qed.
Lemma permuted_filter {A} (P : A -> bool) l l' : Permutation l l' -> Permutation (List.filter P l) (List.filter P l').
Proof.
  induction 1 as [|a l l' _ IH|a b l|l1 l2 l3 _ IH1 _ IH2]; [done|..]; cbn.
  - by destruct (P a); rewrite IH.
  - destruct (P a), (P b); try done. constructor.
  - by rewrite IH1.
Qed.

Lemma cut_rows k before : cut k before -> desc (List.filter (in_window conversationId (w_now w) (parseMessageCursor before)) msgs) = drop k rows.
Proof.
  intros [[-> ->]|(m & Hl & ->)]; [done|]. assert (Hm : m ∈ msgs).
  { apply last_Some_elem_of, elem_of_take in Hl as (i & Hi & _). apply list_elem_of_lookup_2 in Hi. apply rows_window in Hi. by apply window_msgs. }
  rewrite seq_cursor_roundtrip by by apply Hseqs. rewrite <- (sorted_drop rows k m rows_sorted Hl).
  assert (He : List.filter (in_window conversationId (w_now w) (Some (ms_seq m))) msgs = List.filter (fun x => ms_seq x <? ms_seq m) window).
  { unfold window. rewrite <- filter_both. apply filter_ext. intros x. unfold in_window. rewrite andb_true_r. apply and_swap. }
  rewrite He. apply sorted_same.
  - apply desc_sorted, nodup_filter_map, window_seqs.
  - apply sorted_filter, rows_sorted.
  - unfold desc, rows. rewrite merge_sort_Permutation. apply permuted_filter. unfold desc. by rewrite merge_sort_Permutation.
Qed.

Lemma mapR_all {A B} (f : A -> result B) l : (forall x, x ∈ l -> exists y, f x = Ok y) ->
  exists ys, mapR f l = Ok ys /\ (forall x, x ∈ l -> exists y, y ∈ ys /\ f x = Ok y) /\ (forall y, y ∈ ys -> exists x, x ∈ l /\ f x = Ok y).
Proof.
  induction l as [|a l IH]; intros Hf; [exists []; split_and!; [done|intros x Hx; by apply not_elem_of_nil in Hx..]|].
  destruct (Hf a) as (b & Hb); [by left|]. destruct IH as (ys & Hys & H1' & H2'); [intros x Hx; apply Hf; by right|].
  exists (b :: ys). cbn. rewrite Hb. cbn. rewrite Hys. split_and!; [done|..].
  - intros x [->|Hx]%elem_of_cons; [exists b; split; [by left|done]|]. destruct (H1' x Hx) as (y & ? & ?). exists y. split; [by right|done].
  - intros y [->|Hy]%elem_of_cons; [exists a; split; [by left|done]|]. destruct (H2' y Hy) as (x & ? & ?). exists x. split; [by right|done].
Qed.

Lemma mapR_ext {A B} (f g : A -> result B) l : (forall x, x ∈ l -> f x = g x) -> mapR f l = mapR g l.
Proof. induction l as [|a l IH]; intros Hf; [done|]. cbn. rewrite Hf by by left. rewrite IH; [done|]. intros x Hx. apply Hf. by right. Qed.

Lemma view_ok opened m : m ∈ msgs -> exists r, client_view cf opened m = Ok r /\ raw_id r = ms_id m.
Proof.
  intros Hm. destruct (raw_of cf m (Hdates m Hm)) as (raw & Hr & Hid). unfold client_view. rewrite Hr. cbn [mbind result_bind].
  eexists. split; [done|]. by repeat case_match.
Qed.

Definition opened_of (ids : list jstr) : list jstr :=
  match ids with [] => [] | _ => map fst (filter (fun o : jstr * jstr => o.1 ∈ ids /\ o.2 = tag cf conversationId userId) (t_opens (w_tables w))) end.
Lemma run_opened ids :
  run do_cmd (match ids with [] => mret [] | _ => query (fun t => map fst (filter (fun o : jstr * jstr => o.1 ∈ ids /\ o.2 = tag cf conversationId userId) (t_opens t))) end : hx (list jstr)) w
    = (Ok (opened_of ids), w).
Proof. destruct ids; [done|]. by rewrite run_query. Qed.

Lemma view_opened (merged : list Message) m : (forall x, x ∈ merged -> x ∈ msgs) -> m ∈ merged ->
  client_view cf (opened_of (map ms_id (List.filter ms_isViewOnce merged))) m = view m.
Proof.
  intros Hsub Hm. set (ids := map ms_id (List.filter ms_isViewOnce merged)).
  assert (Hids : ms_id m ∈ ids <-> ms_isViewOnce m = true).
  { unfold ids. rewrite list_elem_of_fmap. split.
    - intros (x & Hid & Hx). apply in_filter in Hx as [Hv Hx]. by rewrite (ok_same_id _ m x Hok (Hsub _ Hm) (Hsub _ Hx) Hid).
    - intros Hv. exists m. split; [done|]. by apply in_filter. }
  assert (Hop : ms_id m ∈ opened_of ids <-> ms_isViewOnce m = true /\ (ms_id m, tag cf conversationId userId) ∈ t_opens (w_tables w)).
  { rewrite <- Hids. unfold opened_of. destruct ids as [|i l]; [set_solver|]. rewrite list_elem_of_fmap. split.
    - intros ([a b] & Ha & Hin). apply list_elem_of_filter in Hin as [[Hi Ht] Hin]. cbn in *. by subst.
    - intros [Hi Hin]. exists (ms_id m, tag cf conversationId userId). split; [done|]. by apply list_elem_of_filter. }
  unfold view, client_view. destruct (toRawServerMessage _) as [raw|e]; [|done]. cbn [mbind result_bind].
  match goal with |- _ = Ok (if bool_decide ?Q then _ else _) => rewrite (bool_decide_ext _ Q); [done|] end.
  rewrite Hop. destruct (ms_isViewOnce m); cbn [andb]; [|set_solver]. case_bool_decide; set_solver.
Qed.

Lemma in_window_cut b m : m ∈ msgs -> in_window conversationId (w_now w) b m = true -> m ∈ window.
Proof.
  intros Hm Hw. apply in_filter. split; [|done]. unfold in_window in *. rewrite andb_true_r. repeat (apply andb_true_iff in Hw as [Hw ?]).
  by repeat (apply andb_true_iff; split).
Qed.

Lemma by_id_elem l m : (forall x, x ∈ l -> x ∈ msgs) -> m ∈ desc (by_id l) <-> m ∈ l.
Proof.
  intros Hsub. unfold desc. rewrite merge_sort_Permutation. destruct (by_key ms_id l) as (_ & Hin & Hall). fold (by_id l) in Hin, Hall.
  split; [apply Hin|]. intros Hm. specialize (Hall m Hm). apply list_elem_of_fmap in Hall as (x & Hid & Hx).
  by rewrite (ok_same_id _ m x Hok (Hsub _ Hm) (Hsub _ (Hin x Hx)) Hid).
Qed.

(** A page of the rows after [k], with system messages besides. *)
Definition page_of (k : nat) : list Message := take 250 (drop k rows).
Lemma page_rows k m : m ∈ page_of k -> m ∈ rows.
Proof.
  intros Hm. apply elem_of_take in Hm as (i & Hi & _). apply list_elem_of_lookup_2 in Hi. by apply (subseteq_drop k rows).
Qed.
Lemma page_run k before : cut k before -> exists items,
  run do_cmd (get_messages cf userId conversationId before (Some (js "250"))) w =
    (Ok (mkCatchUp items (250 <? length (drop k rows))%nat
       (if (250 <? length (drop k rows))%nat then (fun m => js (pretty (ms_seq m))) <$> last (page_of k) else None)), w) /\
  (forall m, m ∈ page_of k -> exists r, r ∈ items /\ view m = Ok r) /\
  (forall r, r ∈ items -> exists m, m ∈ window /\ view m = Ok r /\ raw_id r = ms_id m).
Proof.
  intros Hcut. unfold get_messages. change (Z.to_nat (page_size (Some (js "250")))) with 250%nat.
  rewrite run_hx. cbn [run date_now call prog_bind do_cmd]. rewrite run_hx, run_query by done. fold msgs. rewrite (cut_rows _ _ Hcut).
  rewrite run_hx, run_query by done. rewrite run_hx, run_query by done. fold msgs.
  rewrite length_take, take_take. replace (250 `min` 251)%nat with 250%nat by done. fold (page_of k).
  set (sys := take 50 (desc (List.filter _ msgs))). set (first := head (asc (List.filter _ msgs))). set (merged := desc (by_id (page_of k ++ sys ++ option_list first))).
  assert (Hsub : forall x, x ∈ page_of k ++ sys ++ option_list first -> x ∈ window).
  { assert (Hf : forall l : list Message, Permutation l (List.filter (fun m => in_window conversationId (w_now w) (parseMessageCursor before) m && ms_system m) msgs) -> forall x, x ∈ l -> x ∈ window).
    { intros l Hl x. rewrite Hl. intros Hx. apply in_filter in Hx as [Hx Hin]. apply andb_true_iff in Hx as [Hx _]. by apply (in_window_cut _ _ Hin Hx). }
    intros x [Hx|[Hx|Hx]%elem_of_app]%elem_of_app.
    - by apply rows_window, (page_rows k).
    - apply elem_of_take in Hx as (i & Hi & _). apply list_elem_of_lookup_2 in Hi. eapply Hf; [|exact Hi]. apply merge_sort_Permutation.
    - unfold first in Hx. destruct (head _) as [y|] eqn:Ey; [|by apply not_elem_of_nil in Hx]. apply list_elem_of_singleton in Hx as ->.
      eapply Hf; [|apply head_Some_elem_of; exact Ey]. apply merge_sort_Permutation. }
  assert (Hsm : forall x, x ∈ page_of k ++ sys ++ option_list first -> x ∈ msgs) by (intros x Hx; by apply window_msgs, Hsub).
  assert (Hmm : forall x, x ∈ merged <-> x ∈ page_of k ++ sys ++ option_list first) by (intros x; by apply by_id_elem).
  assert (Hmw : forall x, x ∈ merged -> x ∈ window) by (intros x Hx; by apply Hsub, Hmm). clearbody merged.
  rewrite run_hx, run_opened. destruct (mapR_all view merged) as (rs & Hrs & Hall & Hback).
  { intros x Hx. destruct (view_ok (if ms_isViewOnce x && bool_decide ((ms_id x, tag cf conversationId userId) ∈ t_opens (w_tables w)) then [ms_id x] else []) x)
      as (r & Hr & _); [by apply window_msgs, Hmw|]. by exists r. }
  rewrite (mapR_ext _ view) by (intros x Hx; apply view_opened; [intros y Hy; by apply window_msgs, Hmw|done]). rewrite Hrs.
  replace (250 <? 251 `min` length (drop k rows))%nat with (250 <? length (drop k rows))%nat by (apply eq_true_iff_eq; rewrite !Nat.ltb_lt; lia).
  exists (rev rs). split_and!.
  - generalize (250 <? length (drop k rows))%nat. intros []; by destruct (last (page_of k)).
  - intros m Hm. destruct (Hall m) as (r & Hr & Hv); [apply Hmm; set_solver|]. exists r. split; [|done]. by apply list_elem_of_In, in_rev; rewrite rev_involutive; apply list_elem_of_In.
  - intros r Hr. apply list_elem_of_In, in_rev, list_elem_of_In in Hr. destruct (Hback r Hr) as (m & Hm & Hv). exists m. split_and!; [by apply Hmw|done|].
    destruct (view_ok (if ms_isViewOnce m && bool_decide ((ms_id m, tag cf conversationId userId) ∈ t_opens (w_tables w)) then [ms_id m] else []) m)
      as (r' & Hr' & Hid); [by apply window_msgs, Hmw|]. unfold view in Hv. congruence.
Qed.

(** ** The loop of the client *)
Definition fetch (before : option jstr) : hx CatchUp := get_messages cf userId conversationId before (Some (js "250")).
Definition covers (ms : list Message) (rs : list RawServerMessage) : Prop := forall m, m ∈ ms -> exists r, r ∈ rs /\ view m = Ok r.
Definition from_window (rs : list RawServerMessage) : Prop := forall r, r ∈ rs -> exists m, m ∈ window /\ view m = Ok r /\ raw_id r = ms_id m.

Lemma page_last k : (250 < length (drop k rows))%nat -> last (page_of k) = last (take (k + 250) rows) /\ exists m, last (page_of k) = Some m.
Proof.
  intros Hl. assert (Hne : page_of k <> []) by (unfold page_of; destruct (drop k rows); [cbn in Hl; lia|done]).
  assert (Ht : take (k + 250) rows = take k rows ++ page_of k) by (unfold page_of; symmetry; apply take_take_drop).
  rewrite Ht. destruct (last (page_of k)) as [m|] eqn:El; [|by apply last_None in El]. split; [|by exists m].
  by rewrite last_app, El.
Qed.

Lemma catch_up_pages n : forall k acc more cursor, cut k cursor -> covers (take k rows) acc -> from_window acc ->
  (n = 0%nat -> more = true /\ (k < length rows)%nat) -> exists b,
  run do_cmd (backfill_pages fetch n acc more cursor) w = (Ok b, w) /\ from_window (bf_fetched b) /\
  ((length rows <= k + 250 * n)%nat -> bf_serverHasMore b = false /\ covers rows (bf_fetched b)) /\
  ((k + 250 * n < length rows)%nat -> bf_serverHasMore b = true /\ cut (k + 250 * n) (bf_cursor b) /\ covers (take (k + 250 * n) rows) (bf_fetched b)).
Proof.
  induction n as [|n IH]; intros k acc more cursor Hcut Hcov Hsub H0'.
  { destruct (H0' eq_refl) as [-> Hk]. exists (mkBackfill acc true cursor). split_and!; try done; replace (k + 250 * 0)%nat with k by lia; [lia|done]. }
  destruct (page_run k cursor Hcut) as (items & Hrun & Hpage & Hitems). cbn [backfill_pages]. rewrite run_hx. unfold fetch at 1. rewrite Hrun. cbn [cu_items cu_hasMore cu_nextCursor].
  assert (Ht : take (k + 250) rows = take k rows ++ page_of k) by (unfold page_of; symmetry; apply take_take_drop).
  assert (Hcov' : covers (take (k + 250) rows) (acc ++ items)).
  { intros m. rewrite Ht. intros [Hm|Hm]%elem_of_app; [destruct (Hcov m Hm) as (r & Hr & Hv)|destruct (Hpage m Hm) as (r & Hr & Hv)];
      exists r; (split; [apply elem_of_app; auto|exact Hv]). }
  assert (Hsub' : from_window (acc ++ items)) by (intros r [Hr|Hr]%elem_of_app; [by apply Hsub|by apply Hitems]).
  destruct (Nat.ltb_spec 250 (length (drop k rows))) as [Hl|Hl]; rewrite length_drop in Hl.
  - destruct (page_last k) as [Hlast (m & Hm)]; [by rewrite length_drop|]. rewrite Hm. cbn [fmap option_fmap option_map].
    assert (Hmm : m ∈ msgs) by (apply window_msgs, rows_window, (page_rows k); by apply last_Some_elem_of).
    destruct (pretty_nonempty (ms_seq m)) as (c & s & Hcs); [by apply Hseqs|]. rewrite Hcs. cbn [truthy].
    rewrite (bool_decide_eq_false_2 (Some _ = None)) by done. rewrite (bool_decide_eq_false_2 (length items = 0%nat)).
    2: { intros Hz. destruct (Hpage m) as (r & Hr & _); [by apply last_Some_elem_of|]. destruct items; [by apply not_elem_of_nil in Hr|done]. }
    cbn [negb orb]. destruct (IH (k + 250)%nat (acc ++ items) true (Some (c :: s))) as (b & Hb & Hf & Hle & Hgt); try done.
    + right. exists m. by rewrite <- Hlast, Hm, Hcs.
    + intros ->. split; [done|lia].
    + exists b. replace (k + 250 * S n)%nat with (k + 250 + 250 * n)%nat by lia. by split_and!.
  - cbn [negb orb]. eexists. split; [done|]. cbn [bf_fetched bf_serverHasMore]. split_and!; [done| |lia]. intros _. split; [done|].
    intros m Hm. apply Hcov'. rewrite take_ge by lia. done.
Qed.
End CatchUpPages.

(** ** A client that catches up *)
Section CatchUpComplete.
Context `{ServerCrypto, Sodium, MembershipDb, MessageIds} (cf : Config).

Lemma dedupe_view w u c rs r m : tables_ok (w_tables w) -> from_window cf w u c rs -> r ∈ rs -> m ∈ window w c -> view cf w u c m = Ok r -> r ∈ dedupe rs.
Proof.
  intros Hok Hsub Hr Hm Hv. destruct (by_key raw_id rs) as (_ & Hin & Hall). fold (dedupe rs) in Hin, Hall.
  specialize (Hall r Hr). apply list_elem_of_fmap in Hall as (r' & Hid & Hr'). destruct (Hsub r' (Hin r' Hr')) as (m' & Hm' & Hv' & Hid').
  destruct (Hsub r Hr) as (m2 & Hm2 & Hv2 & Hid2).
  assert (Hmm : m2 = m') by (apply (ok_same_id (w_tables w)); [done|by apply (window_msgs w c)|by apply (window_msgs w c)|congruence]).
  subst m'. assert (Hrr : r = r') by congruence. by subst.
Qed.

(** C13: catching up is exact. On a database that answers, the loop of the client over the pages of
    the endpoint ends with items of different ids, each the view of a message of the
    conversation that is in the retention window and not expired (its content removed
    if the user has opened it and it opens once). With up to a thousand such messages
    every one is among the items and nothing more is announced; with more, all from
    the one the cursor names upwards are, and the rest is announced. *)
Theorem catch_up_complete (w : world) (userId conversationId : jstr) :
  w_db_up w = true -> tables_ok (w_tables w) -> (forall m, m ∈ msgs w -> printed m) ->
  (forall m, m ∈ msgs w -> 0 <= ms_seq m <= MAX_SAFE_INTEGER) ->
  exists b, run do_cmd (backfill (fun before => get_messages cf userId conversationId before (Some (js "250")))) w = (Ok b, w) /\
  NoDup (map raw_id (bf_fetched b)) /\
  (forall r, r ∈ bf_fetched b -> exists m, m ∈ window w conversationId /\ view cf w userId conversationId m = Ok r /\ raw_id r = ms_id m) /\
  ((length (window w conversationId) <= 1000)%nat -> bf_serverHasMore b = false /\
    forall m, m ∈ window w conversationId -> exists r, r ∈ bf_fetched b /\ view cf w userId conversationId m = Ok r) /\
  ((1000 < length (window w conversationId))%nat -> bf_serverHasMore b = true /\ exists oldest, oldest ∈ window w conversationId /\
    bf_cursor b = Some (js (pretty (ms_seq oldest))) /\
    forall m, m ∈ window w conversationId -> ms_seq oldest <= ms_seq m -> exists r, r ∈ bf_fetched b /\ view cf w userId conversationId m = Ok r).
Proof.
  intros Hup Hok Hdates Hseqs.
  destruct (catch_up_pages cf w userId conversationId Hup Hok Hdates Hseqs MAX_BACKFILL_PAGES 0 [] false None) as (b & Hrun & Hsub & Hall & Hmore).
  - by left.
  - intros m Hm. by apply not_elem_of_nil in Hm.
  - intros r Hr. by apply not_elem_of_nil in Hr.
  - done.
  - change (0 + 250 * MAX_BACKFILL_PAGES)%nat with 1000%nat in *. rewrite (rows_length w conversationId) in Hall, Hmore.
    exists (mkBackfill (dedupe (bf_fetched b)) (bf_serverHasMore b) (bf_cursor b)). unfold backfill. rewrite run_hx. unfold fetch in Hrun. rewrite Hrun.
    destruct (by_key raw_id (bf_fetched b)) as (Hn & Hin & _). cbn [bf_fetched bf_serverHasMore bf_cursor]. split_and!; [done|done|intros r Hr; by apply Hsub, Hin|..].
    + intros Hle. destruct (Hall Hle) as [-> Hcov]. split; [done|]. intros m Hm. destruct (Hcov m) as (r & Hr & Hv); [by apply rows_window|].
      exists r. split; [by apply (dedupe_view w userId conversationId _ r m)|done].
    + intros Hgt. destruct (Hmore Hgt) as (-> & [[? _]|(o & Ho & ->)] & Hcov); [done|]. split; [done|]. exists o.
      assert (Hor : o ∈ rows w conversationId).
      { apply last_Some_elem_of, elem_of_take in Ho as (i & Hi & _). by apply list_elem_of_lookup_2 in Hi. }
      split_and!; [by apply rows_window|done|]. intros m Hm Hle. destruct (Hcov m) as (r & Hr & Hv).
      * by apply (newest_first w conversationId Hok 1000 o m Ho); [apply rows_window|].
      * exists r. split; [by apply (dedupe_view w userId conversationId _ r m)|done].
Qed.
End CatchUpComplete.

(** ** Concrete runs *)
Module ToyDelivery.
Import Toy ToyServer ToyMembers ToyMessages.
Definition pair_of : conv_row := mkConv false 0 0 None.
(** Sent fourteen minutes into a quarter of an hour, to live for one. *)
Definition born : result Message * tables := store_message cf 840000 60000 pair_of alice hello tables0.
Definition letter : Message := mkMessage [49] conversation None (Some (js "ciphertext")) false None None 1 0 (Some DEFAULT_TTL_MS) false None.
Definition tables1 : tables := mkTables [letter] [(conversation, mkConv false 0 1 (Some 0))] [] [] [] [] [] [] 1.
Definition world1 : world := mkWorld tables1 ∅ true true true [] 1000.
End ToyDelivery.
Import Toy ToyServer ToyMembers ToyMessages ToyDelivery.

Lemma message_lifetime_witness : exists m t', born = (Ok m, t') /\ due 840000 m = true /\ forall c b later, 840000 <= later -> in_window c later b m = false.
Proof.
  assert (Hb : exists m t', born = (Ok m, t')) by (eexists _, _; vm_compute; reflexivity). destruct Hb as (m & t' & Hb). exists m, t'.
  destruct (message_lifetime cf 840000 60000 pair_of alice hello tables0 t' m) as (_ & _ & _ & _ & Hd & Hw).
  - apply Z.leb_le. reflexivity.
  - exact Hb.
  - split; [exact Hb|]. split; [apply Hd; apply Z.leb_le; reflexivity|apply Hw; apply Z.leb_le; reflexivity].
Defined.

Lemma tables1_ok : tables_ok tables1.
Proof.
  split; cbn.
  - apply NoDup_singleton.
  - intros m ->%list_elem_of_singleton. exists 0%nat. by split; [lia|].
  - apply NoDup_singleton.
  - intros m ->%list_elem_of_singleton. done.
Qed.
Lemma letter_printed : printed letter.
Proof. split; [apply iso_some; unfold MAX_TIME; cbn; lia|]. intros e [= <-]. apply iso_some. unfold MAX_TIME, DEFAULT_TTL_MS. lia. Qed.

Lemma catch_up_complete_witness : exists b,
  run do_cmd (backfill (fun before => get_messages cf alice conversation before (Some (js "250")))) world1 = (Ok b, world1) /\
  bf_serverHasMore b = false /\ exists r, r ∈ bf_fetched b /\ raw_content r = Some (js "ciphertext").
Proof.
  destruct (catch_up_complete cf world1 alice conversation) as (b & Hrun & _ & _ & Hall & _).
  - reflexivity.
  - apply tables1_ok.
  - intros m ->%list_elem_of_singleton. apply letter_printed.
  - intros m ->%list_elem_of_singleton. split; apply Z.leb_le; reflexivity.
  - exists b. split; [exact Hrun|]. assert (Hone : length (window world1 conversation) = 1%nat) by (vm_compute; reflexivity).
    destruct Hall as [Hmore Hcov]; [rewrite Hone; apply Nat.leb_le; reflexivity|]. split; [exact Hmore|].
    destruct (Hcov letter) as (r & Hr & Hv); [apply in_filter; split; [vm_compute; reflexivity|left]|]. exists r. split; [exact Hr|].
    vm_compute in Hv. injection Hv as <-. reflexivity.
Defined.
