(* ===== verification/MessageViewOnce.v ===== *)
(** Messages that open once: in a group the row goes with the last of the recorded
    recipients, and an opening by the sender counts as well. *)
From stdpp Require Import pretty sorting.
From S2P Require Import Prelude Bytes Base64 Utf8 Text Js JsDate PqWire Sodium LocalAtRest Json AtRest Effects Membership MessageStore MessageSequence MessageRetry.
Import Messages.

Section ViewOnce.
Context `{ServerCrypto, Sodium, MembershipDb, MessageIds} (cf : Config).

(** ** Reading changes nothing *)
Definition reads (X : Type) (c : cmd X) : Prop := match c with Db q => forall t, (q t).2 = t | _ => False end.
Lemma run_reads {A} (m : prog cmd A) w : sends reads m -> (run do_cmd m w).2 = w.
Proof.
  revert w. induction m as [a|X c k IH]; intros w; [done|]. intros [Hc Hk]. destruct c; try done. cbn. destruct (w_db_up w); [|by apply IH].
  specialize (Hc (w_tables w)). destruct (q (w_tables w)) as [x t]. cbn in Hc. subst t. rewrite with_tables_id. by apply IH.
Qed.
Lemma reads_query {X} (f : tables -> X) : sends reads (query f).
Proof. by split; [intros t|]. Qed.
Lemma reads_participant c u : sends reads (isConversationParticipant cf c u).
Proof.
  unfold isConversationParticipant. case_match; [done|]. apply sends_hx; [apply sends_caught; by split; [intros t|]|]. intros l.
  case_match; [done|]. apply sends_hx; [apply sends_caught, reads_query|]. intros b. case_match; [done|]. apply sends_caught, reads_query.
Qed.
Lemma run_caught {A} (m : hx A) h w : run do_cmd (caught m h) w = (Ok (match (run do_cmd m w).1 with Ok a => a | Err _ => h end), (run do_cmd m w).2).
Proof. unfold caught. rewrite run_after. by destruct (run do_cmd m w). Qed.
Lemma run_try (m : hx unit) w : run do_cmd (attempt m) w = (Ok tt, (run do_cmd m w).2).
Proof. unfold attempt. rewrite run_caught. by destruct (run do_cmd m w) as [[[]|e] w']. Qed.
Lemma run_participant c u w : run do_cmd (caught (isConversationParticipant cf c u) false) w =
  (Ok (match (run do_cmd (isConversationParticipant cf c u) w).1 with Ok b => b | Err _ => false end), w).
Proof. by rewrite run_caught, run_reads by apply reads_participant. Qed.

(** ** Recording an opening *)
Definition opened_by (mid tg : jstr) (t : tables) : tables :=
  if bool_decide ((mid, tg) ∈ t_opens t) then t else with_opens (t_opens t ++ [(mid, tg)]) t.
Definition last_open (mid : jstr) (t : tables) : bool :=
  negb ((count_of mid (t_recipients t) =? 0) || (count_of mid (t_opens t) <? count_of mid (t_recipients t))).
Lemma run_open mid c u w msg : w_db_up w = true -> mid <> [] -> List.find (has_id mid) (t_messages (w_tables w)) = Some msg ->
  run do_cmd (open_message cf u mid c true) w =
    let t := opened_by mid (tag cf c u) (w_tables w) in (Ok tt, with_tables (if last_open mid t then delete_messages (has_id mid) t else t) w).
Proof.
  intros Hd Hne Hf. assert (Hex : existsb (has_id mid) (t_messages (w_tables w)) = true).
  { apply find_some in Hf as [Hin Hid]. apply existsb_exists. by exists msg. }
  unfold open_message. rewrite run_hx, run_try. cbn [negb].
  assert (Hrec : (run do_cmd (record_open mid (tag cf c u)) w).2 = with_tables (opened_by mid (tag cf c u) (w_tables w)) w) by (cbn; by rewrite Hd, Hex).
  rewrite Hrec, run_hx, run_caught. set (t := opened_by _ _ _). unfold finalizeViewOnceIfAllOpened. rewrite bool_decide_eq_false_2 by done.
  rewrite run_hx, run_query by done. rewrite run_hx, run_query by done. cbn [w_tables with_tables]. cbv zeta. unfold last_open.
  destruct (_ || _); [done|]. cbn [negb]. rewrite run_hx. assert (Hm : t_messages t = t_messages (w_tables w)) by (unfold t, opened_by; by case_bool_decide).
  cbn. rewrite Hd, Hm, Hex. done.
Qed.

(** ** Counting *)
Definition recorded (mid tg : jstr) (t : tables) : Prop := (mid, tg) ∈ t_recipients t.
Definition has_opened (mid tg : jstr) (t : tables) : Prop := (mid, tg) ∈ t_opens t.
#[local] Instance recorded_dec mid tg t : Decision (recorded mid tg t).
Proof. unfold recorded. apply _. Defined.
(** Rows are unique, and only recorded recipients have opened. *)
Record once_ok (mid : jstr) (t : tables) : Prop := mkOnceOk {
  oo_recipients : NoDup (t_recipients t); oo_opens : NoDup (t_opens t); oo_only : forall tg, has_opened mid tg t -> recorded mid tg t }.

Lemma of_message mid (l : list (jstr * jstr)) r : r ∈ filter (fun r => r.1 = mid) l <-> exists tg, r = (mid, tg) /\ (mid, tg) ∈ l.
Proof.
  rewrite list_elem_of_filter. split; [intros [<- Hr]; exists r.2; by destruct r|]. intros (tg & -> & Hr). done.
Qed.
Lemma count_zero mid l : count_of mid l = 0 <-> forall tg, (mid, tg) ∉ l.
Proof.
  unfold count_of. split.
  - intros Hz tg Htg. assert (Hin : (mid, tg) ∈ filter (fun r : jstr * jstr => r.1 = mid) l) by (apply of_message; by exists tg).
    destruct (filter _ l); [by apply not_elem_of_nil in Hin|cbn in Hz; lia].
  - intros Hn. destruct (filter _ l) as [|r l'] eqn:E; [done|]. assert (Hin : r ∈ filter (fun r : jstr * jstr => r.1 = mid) l) by (rewrite E; by left).
    apply of_message in Hin as (tg & _ & Hin). by destruct (Hn tg).
Qed.

Lemma opened_by_elem mid tg t r : r ∈ t_opens (opened_by mid tg t) <-> r ∈ t_opens t \/ r = (mid, tg).
Proof. unfold opened_by. case_bool_decide as Hin; cbn; [naive_solver|]. rewrite elem_of_app, list_elem_of_singleton. done. Qed.
Lemma opened_by_recipients mid tg t : t_recipients (opened_by mid tg t) = t_recipients t.
Proof. unfold opened_by. by case_bool_decide. Qed.
Lemma opened_by_messages mid tg t : t_messages (opened_by mid tg t) = t_messages t.
Proof. unfold opened_by. by case_bool_decide. Qed.
Lemma opened_by_ok mid tg t : once_ok mid t -> recorded mid tg t -> once_ok mid (opened_by mid tg t).
Proof.
  intros [Ha Hb Hc] Htg. split.
  - by rewrite opened_by_recipients.
  - unfold opened_by. case_bool_decide as Hin; [done|]. cbn. apply NoDup_app. split_and!; [done| |apply NoDup_singleton].
    intros x Hx Hx'. apply list_elem_of_singleton in Hx' as ->. done.
  - unfold has_opened, recorded. intros tg'. rewrite opened_by_elem, opened_by_recipients. intros [Hx|[= ->]]; [by apply Hc|done].
Qed.

Lemma last_open_all mid tg0 t : once_ok mid t -> recorded mid tg0 t -> last_open mid t = true <-> forall tg, recorded mid tg t -> has_opened mid tg t.
Proof.
  intros [Hr Ho Honly] Htg0. unfold last_open. rewrite negb_true_iff, orb_false_iff, Z.eqb_neq, Z.ltb_ge.
  assert (Hnz : count_of mid (t_recipients t) <> 0) by (intros Hz; by apply (proj1 (count_zero _ _) Hz tg0)).
  assert (Hsub : filter (fun r : jstr * jstr => r.1 = mid) (t_opens t) ⊆+ filter (fun r : jstr * jstr => r.1 = mid) (t_recipients t)).
  { apply NoDup_submseteq; [by apply NoDup_filter|]. intros r Hx. apply of_message in Hx as (tg & -> & Hx). apply of_message. exists tg. split; [done|]. by apply Honly. }
  unfold count_of in *. split.
  - intros [_ Hle] tg Htg. apply submseteq_length_Permutation in Hsub; [|lia].
    assert (Hin : (mid, tg) ∈ filter (fun r : jstr * jstr => r.1 = mid) (t_opens t)) by (rewrite Hsub; apply of_message; by exists tg).
    apply of_message in Hin as (tg' & [= <-] & Hin). done.
  - intros Hall. split; [done|]. assert (Hsub' : filter (fun r : jstr * jstr => r.1 = mid) (t_recipients t) ⊆+ filter (fun r : jstr * jstr => r.1 = mid) (t_opens t)).
    { apply NoDup_submseteq; [by apply NoDup_filter|]. intros r Hx. apply of_message in Hx as (tg & -> & Hx). apply of_message. exists tg. split; [done|]. by apply Hall. }
    apply submseteq_length in Hsub'. lia.
Qed.

(** ** The handler *)
(** A message of a group that opens once. *)
Record once_message (mid c : jstr) (msg : Message) (w : world) : Prop := mkOnceMessage {
  om_up : w_db_up w = true; om_id : mid <> []; om_conv : c <> [];
  om_found : List.find (has_id mid) (t_messages (w_tables w)) = Some msg; om_here : ms_conversationId msg = c; om_once : ms_isViewOnce msg = true;
  om_group : exists row, assoc c (t_convs (w_tables w)) = Some row /\ cv_isGroup row = true }.
Definition is_sender (u : jstr) (msg : Message) (secret : option jstr) : bool :=
  bool_decide (openSenderId (cf_ring cf) (ms_senderId msg) = Some u) || holds_secret msg secret.

Lemma run_opened_entry mid c msg w u target secret : once_message mid c msg w ->
  run do_cmd (view_once_opened cf u mid c target secret) w =
  run do_cmd (if is_sender u msg secret then open_message cf u mid c true else
    isRecipient ← caught (isConversationParticipant cf c u) false;
    if negb isRecipient then mret tt else
    addressed ← caught (isAddressedViewOnceRecipient cf mid c u) None;
    if bool_decide (addressed = Some false) then mret tt else
    _ ← notify_viewed cf u mid c (match openSenderId (cf_ring cf) (ms_senderId msg) with Some s => Some s | None => target end);
    open_message cf u mid c true) w.
Proof.
  intros [Hup Hid Hc Hf Hh Ho (row & Hrow & Hg)]. unfold view_once_opened. rewrite !bool_decide_eq_false_2 by done. cbn [orb].
  unfold find_message. rewrite run_hx, run_query by done. rewrite Hf, Hh, Hrow, Hg, Ho, bool_decide_eq_true_2 by done. done.
Qed.

Lemma run_addressed mid c msg w u : once_message mid c msg w -> u <> [] ->
  run do_cmd (isAddressedViewOnceRecipient cf mid c u) w =
    (Ok (if count_of mid (t_recipients (w_tables w)) =? 0 then None else Some (bool_decide (recorded mid (tag cf c u) (w_tables w)))), w).
Proof.
  intros [Hup Hid Hc _ _ _ _] Hu. unfold isAddressedViewOnceRecipient. rewrite !bool_decide_eq_false_2 by done. cbn [orb].
  by rewrite run_hx, run_query, run_hx, run_query by done.
Qed.

Lemma run_notify mid c w u candidate : w_pub_up w = true -> exists es,
  run do_cmd (notify_viewed cf u mid c candidate) w = (Ok tt, mkWorld (w_tables w) (w_redis w) (w_db_up w) (w_redis_up w) (w_pub_up w) (w_events w ++ es) (w_now w)).
Proof.
  intros Hp. assert (Hnone : exists es, (Ok tt : result unit, w) =
    (Ok tt, mkWorld (w_tables w) (w_redis w) (w_db_up w) (w_redis_up w) (w_pub_up w) (w_events w ++ es) (w_now w))).
  { exists []. rewrite app_nil_r. by destruct w. }
  unfold notify_viewed. destruct (truthy candidate) as [x|]; [|done]. case_bool_decide; [done|].
  rewrite run_hx, run_participant. destruct (match (run do_cmd _ w).1 with Ok b => b | Err _ => false end); [|done].
  exists [Viewed x mid c]. unfold send. cbn [run call do_cmd]. by rewrite Hp; unfold with_event; rewrite Hp.
Qed.


(** An opening by the sender, who is never recorded as a recipient, counts like that of a
    recipient: when one recipient is left, it deletes the row he has not seen. *)
Theorem sender_open_counts (w : world) (u mid c : jstr) (msg : Message) (target secret : option jstr) (unread : jstr) :
  once_message mid c msg w -> is_sender u msg secret = true ->
  recorded mid unread (w_tables w) -> ~ has_opened mid unread (w_tables w) -> ~ has_opened mid (tag cf c u) (w_tables w) ->
  count_of mid (t_opens (w_tables w)) + 1 = count_of mid (t_recipients (w_tables w)) ->
  let w' := (run do_cmd (view_once_opened cf u mid c target secret) w).2 in
  t_messages (w_tables w') = List.filter (fun m => negb (has_id mid m)) (t_messages (w_tables w)).
Proof.
  intros Hom Hs Hrec _ Hnot Hcount w'. subst w'. rewrite (run_opened_entry _ _ msg) by done. rewrite Hs.
  destruct Hom as [Hup Hid Hc Hf _ _ _]. erewrite run_open; [|done..]. cbv zeta. cbn [snd w_tables with_tables].
  assert (Hl : last_open mid (opened_by mid (tag cf c u) (w_tables w)) = true).
  { unfold last_open. rewrite opened_by_recipients. unfold opened_by. rewrite bool_decide_eq_false_2 by done. cbn.
    assert (Hone : count_of mid (t_opens (w_tables w) ++ [(mid, tag cf c u)]) = count_of mid (t_opens (w_tables w)) + 1).
    { unfold count_of. rewrite filter_app, length_app. cbn. rewrite decide_True by done. cbn. lia. }
    rewrite Hone, Hcount. rewrite Z.ltb_irrefl. apply negb_true_iff, orb_false_iff. split; [|done]. apply Z.eqb_neq. intros Hz. by apply (proj1 (count_zero _ _) Hz unread). }
  rewrite Hl. cbn. by rewrite opened_by_messages.
Qed.
End ViewOnce.

(** ** A concrete run *)
Module ToyOnce.
Import Toy ToyServer ToyMembers ToyMessages.
Definition bob : jstr := js "bob".
Definition carol : jstr := js "carol".
Definition glimpse : Message := mkMessage [49] conversation (Some (js "pseudonym")) (Some (js "photo")) false None None 1 0 None true None.
Definition tag_of (u : jstr) : jstr := tag cf conversation u.
(** Carol has opened it, Bob is about to; his device holds a key of the conversation. *)
Definition once_tables : tables := mkTables [glimpse] [(conversation, mkConv true 0 1 (Some 0))] [] [] [(conversation, js "bobs phone")] [(js "bobs phone", bob)]
  [([49], tag_of bob); ([49], tag_of carol)] [([49], tag_of carol)] 1.
Definition once_world : world := mkWorld once_tables ∅ true true true [] 1000.
End ToyOnce.
Import Toy ToyServer ToyMembers ToyMessages ToyOnce.

